(* ===== verification/_CoqProject ===== *)
-Q . S2P
Prelude.v
KvList.v
Errors.v
Page.v
PageTree.v
PageNodeSpec.v
PageResults.v
PageTreeSpec.v
PageInsertSpec.v
PageRangeSpec.v
PageDeleteSpec.v
TreeResults.v
File.v
FreeList.v
PageManager.v
KV.v
PageManagerSpec.v
DiskSpec.v
PublishSpec.v
KVSpec.v
RecoverySpec.v
KVResults.v
StorageResults.v
DurableSpec.v
CommitSpec.v
WalkSpec.v
ReopenSpec.v
DurableResults.v
HistoryResults.v
Findings.v
PageFile.v
Codec.v
CodecSpec.v
Engine.v
Database.v
DatabaseSpec.v
DatabaseResults.v
Table.v
TableSpec.v
RowSpec.v
MutationSpec.v
CatalogSpec.v
QuerySpec.v
TableResults.v
CreateIndexSpec.v
QueryResults.v
Sessions.v
SessionResults.v
DbWitnesses.v
SqlLexer.v
SqlLexerSpec.v
SqlParser.v
SqlParserSpec.v
SqlPrint.v
SqlExec.v
SqlExecSpec.v
SqlCatalog.v
SqlResults.v
SqlWitnesses.v
Trace.v
KVTrace.v
Slices.v
Structures.v
Cache.v
CacheSpec.v
MemTree.v
MemTreeSpec.v
MemScanSpec.v
MemInsertSpec.v
MemDeleteSpec.v
MemRebalanceSpec.v
MemResults.v
Experiment.v
ExperimentSpec.v
ExperimentResults.v
LabDurable.v
Server.v
ServerResults.v
LabWitnesses.v
