(* ===== verification/Prelude.v ===== *)
(** * GoDatabase: a verification of its storage engine, tables, SQL and lab

    GoDatabase (src/) is a key-value and table database in Go. From the bottom
    up: package [internal/btree] keeps a copy-on-write B+Tree in 4096-byte pages
    of one file, with two metadata slots and a free list, so that a commit
    publishes a new root with one metadata write; package [internal/engine] is
    the boundary through which package [db] uses it; package [db] adds an
    in-memory backend, transactions, tables and secondary indexes; package
    [internal/sql] executes a subset of SQL on it. Beside it stands the lab: an
    in-memory B+Tree, a hash map, a sorted slice and a cache behind one interface
    ([internal/structures]), recorders of execution traces ([internal/trace]), a
    runner of experiments on them ([internal/experiment]) and an HTTP API
    ([internal/server]). Package [internal/storage] is a separate file of pages.

    ** Files and the code they model

    - Prelude: byte strings and their order, machine integers, the error and
      state monads ([outcome], [stM]) with their total-correctness judgements
      ([ends], [gives]), tactics. KvList: sorted key-value lists, the abstract
      contents of every store, and their agreement with finite maps.
    - Errors: the error values of packages btree and engine.
    - Page (page.go): node pages as byte arrays: accessors, builders, validator,
      encoder, decoder. PageResults: its theorems.
    - PageTree (page_tree.go): lookup, range scan, insertion and deletion over
      the callbacks get/new/del. PageNodeSpec, PageTreeSpec, PageInsertSpec,
      PageRangeSpec, PageDeleteSpec: the relation between pages and contents and
      its preservation, against the class [PageStore] of page stores.
      TreeResults: its theorems.
    - File: a file as bytes with a list of outcomes of the coming system calls,
      CRC-32. FreeList (free_list.go), PageManager (page_manager.go,
      file_lock_unix.go): allocation, retirement, metadata slots, publication,
      opening. PageManagerSpec, StorageResults: the ownership invariant.
    - KV (kv.go): opening with recovery, reads, updates with commit, rollback
      and repair. KVSpec, RecoverySpec, KVResults: its theorems; the page store
      of an update is an instance of [PageStore].
    - DiskSpec (which blocks of the file a computation changes), PublishSpec
      (what a publication writes), DurableSpec ([committed], [on_disk],
      [crash_image]), CommitSpec, WalkSpec, ReopenSpec, DurableResults,
      HistoryResults: durability of the store: what an update leaves in the file
      and its synchronised part, what a crash can leave of it, and that opening
      it gives the committed contents. Findings: concrete stores that lose data.
    - Codec (table.go, index.go): schemas, values, rows, descriptors, index
      definitions and keys as bytes. CodecSpec: its theorems.
    - Engine (engine/interface.go, durable.go): the interface [engine.Store] as
      a record of operations, what package db relies on as the class
      [StoreSpec], and the B+Tree store as an instance of it.
    - Database (db.go): a database over a Go map or over any store, and its
      transactions. DatabaseSpec, DatabaseResults: its theorems, against
      [StoreSpec].
    - Table (table.go, index.go, transaction_table.go): tables, rows and
      indexes. TableSpec states the relational invariant; RowSpec,
      MutationSpec, CatalogSpec, CreateIndexSpec, QuerySpec prove what the
      operations do to it; TableResults, QueryResults: the theorems.
    - Sessions: all exported methods of package db as the steps of a state
      machine over one database with its transactions and table handles.
      SessionResults: the writer discipline. DbWitnesses: concrete instances.
    - SqlLexer (sql/lexer.go), SqlParser (sql/parser.go), SqlExec
      (sql/executor.go): tokens, statements and their execution. SqlLexerSpec
      and SqlParserSpec state the lexical rules and the grammar as relations;
      SqlPrint writes statements; SqlExecSpec relates SELECT and INSERT to the
      relational invariant; SqlCatalog is the invariant of a whole database.
      SqlResults: the theorems. SqlWitnesses: concrete instances.
    - PageFile (storage/page_store.go): page files over any file, given by its
      three calls ([FileOps]) and their contract ([FileSpec]), and their theorems.
    - Trace (internal/trace): events, the bounded and the unbounded recorder, and
      what emissions do to them. KVTrace (btree/trace.go, kv.go): the event of a
      page, and the operations of the durable store with their reports to a
      recorder.
    - Structures (structures/interface.go, map.go, sorted_slice.go, observer.go):
      the interface [structures.KV] as a record of operations on a state and the
      recorder, what its users rely on as the class [StructureSpec], the hash map
      and the sorted slice as its instances; Slices: Go's slice idioms
      and [sort.Search] with a predicate that has effects. Cache
      (structures/cache.go), CacheSpec: the LRU cache over any instance, itself an
      instance.
    - MemTree (btree/tree.go, node.go, memory.go, trace.go): the in-memory B+Tree
      with its nodes in a heap, so that the parent's pointers and the chain of
      leaves alias the same nodes. MemTreeSpec relates heap and entries by a
      ghost tree; MemScanSpec, MemInsertSpec, MemDeleteSpec, MemRebalanceSpec
      prove the operations; MemResults: the theorems and the instance.
    - Experiment (internal/experiment, internal/metrics): the catalog, requests,
      validation, sample data, the runner over any structure and the basic runner.
      ExperimentSpec states the reference results; ExperimentResults: the theorems.
      LabDurable (factory.go, engine/durable.go): the observed durable store as
      one of the structures, and runs on it.
    - Server (internal/server, cmd/lab-server): controllers, CORS, configuration.
      ServerResults: the theorems. LabWitnesses: concrete instances of the lab.

    ** How Go is modelled

    A method that returns an error is a function into [outcome]: a value, an
    error, [Panic] for an index or slice out of range or a write to a nil map,
    or [NoFuel]. State is passed explicitly and survives an error, as the
    receiver does in Go. Integers are in [Z], wrapped where the code converts to
    a fixed width. A mutex held from entry to return makes a method one step. A
    Go map iterated by [range] has no fixed order: where the order can matter
    (the indexes of a table) the listing is an arbitrary permutation. A system
    call succeeds or fails as the file's list of outcomes says, so theorems that
    quantify over the file cover every combination of I/O errors.

    ** What the theorems show

    - Pages: the validator accepts exactly the well-formed pages, accepted pages
      are read within bounds, encoding and decoding are inverse, a node that
      does not fit is split into at most three pages.
    - Tree: lookup, range scan, insertion and deletion implement the operations
      on sorted lists, with exact accounting of allocated and released pages. A
      deletion can fail for one reason: its key separates the children of an
      internal page and the next key, which takes its place, is longer and does
      not fit ([separator_grows]; at the level of contents [stuck], [hindered]).
    - Storage: allocation keeps every page owned once; publication keeps that
      invariant under any I/O outcome; metadata and free-list pages round trip.
    - Store: Set, Delete and ApplyBatch are atomic under any I/O outcome;
      opening an arbitrary file terminates, never panics and yields a consistent
      store or an error; repair restores a consistent store.
    - Durability: on a file without faults updates succeed and their file holds
      what they committed ([Set_durable], [ApplyBatch_durable]). Under any faults
      a crash at any file call leaves a complete generation, the old or the new
      one ([perform_crash]); opening it gives its contents ([Open_committed]).
      Together: histories of updates, reads, restarts and crashes on a new store
      refine an abstract store of sorted entries ([history_refines]) and can be
      continued ([history_continues]). A crash leaves of each block what was
      written or what was synchronised last; a fault [Fault n] tears a write after
      [n] bytes. These histories are not arbitrary. A store is restarted when its
      tree passes the balance tests of recovery ([settled]); of what a crash
      leaves three things are assumed: its tree passes those tests ([balanced]),
      its size is a whole number of pages ([whole]), and a torn metadata page does
      not pass its own CRC-32 ([collision]). Each is a limit of the code: a store
      whose tree fails the tests does not come back at its generation
      ([restart_exact]), and a file of another size is refused
      ([misaligned_refused]); Findings has a store and a file for which this
      happens.
    - Database: both backends implement a finite map; a transaction sees its own
      writes, commits its whole view or nothing; at most one writer is open in
      any reachable session and nobody else can change the contents meanwhile.
    - Tables: rows and secondary indexes stay in step under every mutation,
      index creation covers existing rows, an index lookup equals a filtered
      scan, stored rows read back, tables do not disturb each other; the key
      encodings preserve order.
    - SQL: the lexer and the parser accept exactly what the lexical rules and
      the grammar derive, every statement can be written and read back, SELECT
      answers as a filtered full scan whatever access path it takes, an inserted
      row is selected as it was given, and no text panics or leaves a table out
      of step with its indexes.
    - Page files: a written page is read back and no other page changes, under
      failing and short I/O.
    - Lab: the in-memory B+Tree keeps its invariant (balanced, filled, separated,
      chained) and implements the operations on sorted lists in logarithmic depth;
      the cache keeps the least recently used order and is never stale; recorders
      keep a numbered prefix; a run gives the same, reference results on every
      in-memory structure, cached or not, traced or not, and stops only for an
      invalid request or a cancelled context; a run on the durable structure
      gives them too unless the store refuses a deletion; observing the durable
      store changes nothing ([tracing_transparent]). The served API answers with
      the basic runner, which ignores the seed, the structure and the cache asked
      for and reports no statuses, against its documentation ([lab_server_answers]).

    ** Fuel and bounds

    Recursion over the tree takes fuel. The theorems say how much is enough: more
    than the height for lookups and updates, more than the number of entries plus
    one for scans, [h + n] for a batch of [n]; [Open] computes its own fuel from the
    file size, the lexer and the parser theirs from the length of the input, and the
    in-memory tree from the number of nodes allocated so far ([fuel_of]), which
    bounds height and leaves. Updates ask for room: the number of page ids left
    below the 64-bit limit must cover the pages a batch can allocate ([batch_room]);
    durability asks for twice as many, as a free list may list them all, and for a
    further generation number ([disk_room], [enough]). A run on the durable
    structure has a budget: [page_cap n] bounds the page numbers that may be in use
    while [n] changes are due, and a fuel between 5130 and 1000000 is enough for
    every request that validates. [holds], [can] and [ready] carry these conditions
    through package db.

    ** Not modelled

    The file-system calls around a descriptor (open, create, stat of the path, fsync
    of the directory) are parameters or outcomes of [File]. A crash keeps or loses
    whole blocks of 4096 bytes, apart from the write it cuts off; the loss of a
    directory entry is not modelled. Of the lab: clocks and allocation counts, the
    directory calls around the durable structure and the admission gate (outcomes
    given to the model), SHA-256 (a parameter), the partial result returned beside
    an error, JSON, the dispatch of paths (that of methods is modelled) and the web client. The interfaces of
    engine/transaction.go have no implementation. *)

From Stdlib Require Import Structures.OrdersTac.
From Stdlib Require Strings.Byte.
From stdpp Require Export base list gmap numbers sorting.

(* Go integers are [Z]; the scope stays local to every file of the library. *)
#[global] Open Scope Z_scope.

(** ** Bytes

    A Go [byte] is an element of the 256-element type [Init.Byte.byte], a Go
    [string] and a Go [[]byte] are both lists of bytes: the sources convert
    freely between the two and compare them bytewise. *)

Abbreviation byte := Corelib.Init.Byte.byte.
Abbreviation bytes := (list Corelib.Init.Byte.byte).

#[global] Instance byte_eq_dec : EqDecision byte := Byte.byte_eq_dec.
#[global] Instance byte_countable : Countable byte :=
  inj_countable Byte.to_N Byte.of_N Byte.of_to_N.

(** Numeric value of a byte and the conversion [byte(z)] of Go, which keeps
    the low eight bits. *)
Definition bZ (b : byte) : Z := Z.of_N (Byte.to_N b).
Definition Zb (z : Z) : byte :=
  match Byte.of_N (Z.to_N (z mod 256)) with Some b => b | None => Byte.x00 end.

Lemma bZ_range b : 0 <= bZ b < 256.
Proof. unfold bZ. pose proof (Byte.to_N_bounded b). lia. Qed.

Lemma bZ_Zb z : bZ (Zb z) = z mod 256.
Proof.
  unfold bZ, Zb. pose proof (Z.mod_pos_bound z 256 ltac:(lia)).
  destruct (Byte.of_N (Z.to_N (z mod 256))) eqn:E.
  - apply Byte.to_of_N in E. rewrite E. lia.
  - apply Byte.of_N_None_iff in E. lia.
Qed.

Lemma Zb_bZ b : Zb (bZ b) = b.
Proof.
  unfold Zb, bZ. pose proof (Byte.to_N_bounded b).
  rewrite Z.mod_small by lia. rewrite N2Z.id, Byte.of_to_N. done.
Qed.

Lemma bZ_inj a b : bZ a = bZ b -> a = b.
Proof. intros H. rewrite <- (Zb_bZ a), H. apply Zb_bZ. Qed.

(** ** Outcomes

    What running Go code can do: return a value, return a non-nil [error],
    panic (a slice or index out of range), or, in the model only, exhaust the
    fuel that bounds a loop or a recursion. *)

Inductive outcome (E A : Type) : Type :=
| Ok (a : A)
| Err (e : E)
| Panic
| NoFuel.
Arguments Ok {E A} a.
Arguments Err {E A} e.
Arguments Panic {E A}.
Arguments NoFuel {E A}.

Declare Scope go_scope.
Delimit Scope go_scope with go.
#[global] Open Scope go_scope.

Notation "x <- m ;; k" :=
  (match m with Ok x => k | Err e => Err e | Panic => Panic | NoFuel => NoFuel end)
  (at level 20, m at level 99, k at level 200) : go_scope.
Notation "' p <- m ;; k" :=
  (match m with Ok p => k | Err e => Err e | Panic => Panic | NoFuel => NoFuel end)
  (at level 20, p pattern, m at level 99, k at level 200) : go_scope.
(** [if cond { return err }]. *)
Notation "'fail_if' c 'with' e ;; k" := (if c then Err e else k)
  (at level 20, c at level 99, e at level 99, k at level 200) : go_scope.

Definition is_ok {E A} (m : outcome E A) : bool :=
  match m with Ok _ => true | _ => false end.

Lemma ok_inj {E A} (a b : A) : @Ok E A a = Ok b -> a = b.
Proof. congruence. Qed.

(** Error translation of an outcome ([fmt.Errorf("...: %w", err)]). *)
Definition map_err {E F A} (f : E -> F) (m : outcome E A) : outcome F A :=
  match m with
  | Ok a => Ok a | Err e => Err (f e) | Panic => Panic | NoFuel => NoFuel
  end.

(** Code that also reads and writes a state of type [S] (the receiver of a
    method, the store behind a callback): the state survives an error. *)
Definition stM (S E A : Type) : Type := S -> outcome E A * S.
Definition lift {S E A} (m : outcome E A) : stM S E A := fun s => (m, s).
Definition ret {S E A} (a : A) : stM S E A := fun s => (Ok a, s).
Definition throw {S E A} (e : E) : stM S E A := fun s => (Err e, s).
Definition diverge {S E A} : stM S E A := fun s => (NoFuel, s).
Definition bind {S E A B} (m : stM S E A) (k : A -> stM S E B) : stM S E B := fun s =>
  match m s with
  | (Ok a, s') => k a s'
  | (Err e, s') => (Err e, s')
  | (Panic, s') => (Panic, s')
  | (NoFuel, s') => (NoFuel, s')
  end.
Notation "x <~ m ;; k" := (bind m (fun x => k))
  (at level 20, m at level 99, k at level 200) : go_scope.
Notation "' p <~ m ;; k" := (bind m (fun x => match x with p => k end))
  (at level 20, p pattern, m at level 99, k at level 200) : go_scope.
(** A pure fallible step inside stateful code. *)
Notation "x <! m ;; k" := (bind (lift m) (fun x => k))
  (at level 20, m at level 99, k at level 200) : go_scope.
Notation "' p <! m ;; k" := (bind (lift m) (fun x => match x with p => k end))
  (at level 20, p pattern, m at level 99, k at level 200) : go_scope.
Notation "'throw_if' c 'with' e ;; k" := (if c then throw e else k)
  (at level 20, c at level 99, e at level 99, k at level 200) : go_scope.

Lemma bind_ok {S E A B} (m : stM S E A) (k : A -> stM S E B) s a s' :
  m s = (Ok a, s') -> bind m k s = k a s'.
Proof. unfold bind. by intros ->. Qed.
Lemma bind_err {S E A B} (m : stM S E A) (k : A -> stM S E B) s e s' :
  m s = (Err e, s') -> bind m k s = (Err e, s').
Proof. unfold bind. by intros ->. Qed.
Lemma bind_lift_ok {S E A B} (m : outcome E A) (k : A -> stM S E B) s a :
  m = Ok a -> bind (lift m) k s = k a s.
Proof. by intros ->. Qed.

(** Total correctness of a stateful step: it neither panics nor runs out of
    fuel, a returned value satisfies [Q] and a returned error satisfies [R]. *)
Definition ends {S E A} (m : stM S E A) (s : S) (Q : A -> S -> Prop) (R : E -> S -> Prop) : Prop :=
  match m s with
  | (Ok a, s') => Q a s'
  | (Err e, s') => R e s'
  | (Panic, _) | (NoFuel, _) => False
  end.
(** No error is possible. *)
Definition no_err {S E : Type} : E -> S -> Prop := fun _ _ => False.

Lemma ends_bind {S E A B} (m : stM S E A) (k : A -> stM S E B) s Q R :
  ends m s (fun a s' => ends (k a) s' Q R) R -> ends (bind m k) s Q R.
Proof. unfold ends, bind. by destruct (m s) as [[] ?]. Qed.
Lemma ends_lift {S E A B} (m : outcome E A) (k : A -> stM S E B) s Q R a :
  m = Ok a -> ends (k a) s Q R -> ends (bind (lift m) k) s Q R.
Proof. by intros ->. Qed.
Lemma ends_lift_err {S E A B} (m : outcome E A) (k : A -> stM S E B) s Q (R : E -> S -> Prop) e :
  m = Err e -> R e s -> ends (bind (lift m) k) s Q R.
Proof. by intros ->. Qed.
Lemma ends_mono {S E A} (m : stM S E A) s (Q Q' : A -> S -> Prop) (R R' : E -> S -> Prop) :
  ends m s Q R -> (forall a s', Q a s' -> Q' a s') -> (forall e s', R e s' -> R' e s') ->
  ends m s Q' R'.
Proof. unfold ends. destruct (m s) as [[] ?]; auto. Qed.
Lemma ends_and {S E A} (m : stM S E A) s (Q Q' : A -> S -> Prop) (R R' : E -> S -> Prop) :
  ends m s Q R -> ends m s Q' R' -> ends m s (fun a s' => Q a s' /\ Q' a s') (fun e s' => R e s' /\ R' e s').
Proof. unfold ends. by destruct (m s) as [[] ?]. Qed.
Lemma ends_step {S E A B} (m : stM S E A) (k : A -> stM S E B) s (P : A -> S -> Prop) Q R :
  ends m s P no_err -> (forall a s', P a s' -> ends (k a) s' Q R) -> ends (bind m k) s Q R.
Proof. intros H K. apply ends_bind. eapply ends_mono; [exact H|auto|done]. Qed.
Lemma ends_seq {S E A B} (m : stM S E A) (k : A -> stM S E B) s (P : A -> S -> Prop) Q R :
  ends m s P R -> (forall a s', P a s' -> ends (k a) s' Q R) -> ends (bind m k) s Q R.
Proof. intros H K. apply ends_bind. eapply ends_mono; [exact H|auto|done]. Qed.
(** A pure step that returns a value satisfying [Q] or an error, and never
    panics. *)
Definition gives {E A} (m : outcome E A) (Q : A -> Prop) : Prop :=
  match m with Ok a => Q a | Err _ => True | Panic | NoFuel => False end.

Lemma gives_bind {E A B} (m : outcome E A) (k : A -> outcome E B) (P : A -> Prop) (Q : B -> Prop) :
  gives m P -> (forall a, P a -> gives (k a) Q) -> gives (a <- m ;; k a) Q.
Proof. destruct m; cbn; auto. Qed.
Lemma gives_mono {E A} (m : outcome E A) (P Q : A -> Prop) :
  gives m P -> (forall a, P a -> Q a) -> gives m Q.
Proof. destruct m; cbn; auto. Qed.
Lemma gives_ok {E A} (a : A) (Q : A -> Prop) : Q a -> gives (E := E) (Ok a) Q.
Proof. done. Qed.
Lemma gives_guard {E A} (c : bool) (e : E) (k : outcome E A) (Q : A -> Prop) :
  (c = false -> gives k Q) -> gives (fail_if c with e ;; k) Q.
Proof. destruct c; cbn; auto. Qed.
Lemma ends_gives {S E A B} (m : outcome E A) (k : A -> stM S E B) s (P : A -> Prop) Q R :
  gives m P -> (forall a, P a -> ends (k a) s Q R) -> (forall e, R e s) -> ends (bind (lift m) k) s Q R.
Proof. intros Hm Hk HR. destruct m as [a|e| |]; try done; [by apply (Hk a)|by apply HR]. Qed.
Lemma ends_pure {S E A} (m : outcome E A) (s : S) (P : A -> Prop) (Q : A -> S -> Prop) (R : E -> S -> Prop) :
  gives m P -> (forall a, P a -> Q a s) -> (forall e, R e s) -> ends (lift m) s Q R.
Proof. intros Hm Hk HR. destruct m as [a|e| |]; try done; [by apply (Hk a)|by apply HR]. Qed.
Lemma ends_guard {S E A} (c : bool) (e : E) (k : stM S E A) s (Q : A -> S -> Prop) (R : E -> S -> Prop) :
  R e s -> (c = false -> ends k s Q R) -> ends (throw_if c with e ;; k) s Q R.
Proof. destruct c; cbn; auto. Qed.
Lemma ends_returns {S E A} (m : stM S E A) s (Q : A -> S -> Prop) :
  ends m s Q no_err <-> exists a s', m s = (Ok a, s') /\ Q a s'.
Proof.
  unfold ends, no_err. split.
  - destruct (m s) as [[] ?]; try done. eauto.
  - by intros (a & s' & -> & ?).
Qed.

(** Case analysis on the scrutinee of an [outcome] match in a hypothesis. *)
Ltac outcome_inv H :=
  repeat match type of H with
  | (match ?m with Ok _ => _ | Err _ => _ | Panic => _ | NoFuel => _ end) = _ =>
      let E := fresh "E" in destruct m eqn:E; try discriminate H
  | (if ?c then _ else _) = _ =>
      let E := fresh "C" in destruct c eqn:E; try discriminate H
  | Ok _ = Ok _ => injection H as H
  end.

(** Turns boolean comparisons of the code into the propositions they decide. *)
Ltac zbool :=
  repeat match goal with
  | H : (_ && _)%bool = true |- _ => apply andb_true_iff in H; destruct H
  | H : (_ || _)%bool = false |- _ => apply orb_false_iff in H; destruct H
  | H : negb _ = true |- _ => apply negb_true_iff in H
  | H : negb _ = false |- _ => apply negb_false_iff in H
  | H : (_ <? _) = true |- _ => apply Z.ltb_lt in H
  | H : (_ <? _) = false |- _ => apply Z.ltb_ge in H
  | H : (_ <=? _) = true |- _ => apply Z.leb_le in H
  | H : (_ <=? _) = false |- _ => apply Z.leb_gt in H
  | H : (_ =? _) = true |- _ => apply Z.eqb_eq in H
  | H : (_ =? _) = false |- _ => apply Z.eqb_neq in H
  | H : (_ >? _) = true |- _ => rewrite Z.gtb_ltb in H
  | H : (_ >? _) = false |- _ => rewrite Z.gtb_ltb in H
  | H : (_ >=? _) = true |- _ => rewrite Z.geb_leb in H
  | H : (_ >=? _) = false |- _ => rewrite Z.geb_leb in H
  end.

(** Decides the boolean integer tests of the goal with [lia]. *)
Ltac zdecide_step :=
  match goal with
  | |- context [?a <? ?b] =>
      first [ rewrite (proj2 (Z.ltb_lt a b)) by lia
            | rewrite (proj2 (Z.ltb_ge a b)) by lia ]
  | |- context [?a <=? ?b] =>
      first [ rewrite (proj2 (Z.leb_le a b)) by lia
            | rewrite (proj2 (Z.leb_gt a b)) by lia ]
  | |- context [?a =? ?b] =>
      first [ rewrite (proj2 (Z.eqb_eq a b)) by lia
            | rewrite (proj2 (Z.eqb_neq a b)) by lia ]
  | |- context [?a >? ?b] => rewrite (Z.gtb_ltb a b)
  | |- context [?a >=? ?b] => rewrite (Z.geb_leb a b)
  end.
Ltac zdecide := repeat zdecide_step; cbn [andb orb negb].

(** ** Machine integers *)

Definition u8 (z : Z) : Z := z mod 2 ^ 8.
Definition u16 (z : Z) : Z := z mod 2 ^ 16.
Definition u32 (z : Z) : Z := z mod 2 ^ 32.
Definition u64 (z : Z) : Z := z mod 2 ^ 64.
(** Two's complement reading of a 64-bit word, Go's [int64(x)]. *)
Definition s64 (z : Z) : Z :=
  let w := u64 z in if w <? 2 ^ 63 then w else w - 2 ^ 64.

Lemma u16_small z : 0 <= z < 65536 -> u16 z = z.
Proof. intros. unfold u16. apply Z.mod_small. lia. Qed.
Lemma u64_small z : 0 <= z < 2 ^ 64 -> u64 z = z.
Proof. intros. unfold u64. apply Z.mod_small. lia. Qed.

(** ** Lists indexed by Go integers *)

Definition len {A} (l : list A) : Z := Z.of_nat (length l).

(** [l[lo:lo+n]] without its bounds check, and the overwrite of the bytes from
    [lo] on with [d]. *)
Definition sub {A} (l : list A) (lo n : Z) : list A :=
  take (Z.to_nat n) (drop (Z.to_nat lo) l).
Definition upd {A} (l : list A) (lo : Z) (d : list A) : list A :=
  take (Z.to_nat lo) l ++ d ++ drop (Z.to_nat (lo + len d)) l.

Lemma len_nonneg {A} (l : list A) : 0 <= len l.
Proof. unfold len. lia. Qed.
Lemma len_nil {A} : len (@nil A) = 0.
Proof. done. Qed.
Lemma len_cons {A} (x : A) l : len (x :: l) = 1 + len l.
Proof. unfold len. cbn [length]. lia. Qed.
Lemma len_app {A} (l k : list A) : len (l ++ k) = len l + len k.
Proof. unfold len. rewrite length_app. lia. Qed.
Lemma len_0 {A} (l : list A) : len l = 0 -> l = [].
Proof. destruct l; [done|]. rewrite len_cons. pose proof (len_nonneg l). lia. Qed.

Lemma len_sub {A} (l : list A) lo n :
  0 <= lo -> 0 <= n -> lo + n <= len l -> len (sub l lo n) = n.
Proof. unfold len, sub. intros. rewrite length_take, length_drop. lia. Qed.

Lemma len_upd {A} (l : list A) lo d :
  0 <= lo -> lo + len d <= len l -> len (upd l lo d) = len l.
Proof.
  unfold upd, len. intros. rewrite !length_app, length_take, length_drop. lia.
Qed.

Lemma lookup_sub {A} (l : list A) lo n i :
  (i < Z.to_nat n)%nat -> sub l lo n !! i = l !! (Z.to_nat lo + i)%nat.
Proof. intros. unfold sub. rewrite lookup_take_lt by done. by rewrite lookup_drop. Qed.

Lemma sub_upd_eq {A} (l : list A) lo d :
  0 <= lo -> lo + len d <= len l -> sub (upd l lo d) lo (len d) = d.
Proof.
  unfold sub, upd, len. intros.
  rewrite drop_app_length' by (rewrite length_take; lia).
  rewrite take_app_length' by lia. done.
Qed.

Lemma sub_upd_ne {A} (l : list A) lo d p n :
  0 <= lo -> 0 <= p -> 0 <= n -> lo + len d <= len l ->
  p + n <= lo \/ lo + len d <= p -> sub (upd l lo d) p n = sub l p n.
Proof.
  unfold sub, upd, len. intros ???? H.
  apply list_eq. intros i.
  destruct (decide (i < Z.to_nat n)%nat); [|by rewrite !lookup_take_ge by lia].
  rewrite !lookup_take_lt, !lookup_drop by done.
  destruct H.
  - rewrite lookup_app_l by (rewrite length_take; lia). rewrite lookup_take_lt by lia. done.
  - rewrite app_assoc, lookup_app_r by (rewrite length_app, length_take; lia).
    rewrite length_app, length_take, lookup_drop. f_equal. lia.
Qed.

Lemma sub_sub {A} (l : list A) lo n lo' n' :
  0 <= lo -> 0 <= lo' -> 0 <= n' -> lo' + n' <= n ->
  sub (sub l lo n) lo' n' = sub l (lo + lo') n'.
Proof.
  intros. apply list_eq. intros i. unfold sub.
  destruct (decide (i < Z.to_nat n')%nat); [|by rewrite !lookup_take_ge by lia].
  rewrite !lookup_take_lt, !lookup_drop by lia.
  rewrite lookup_take_lt, lookup_drop by lia. f_equal. lia.
Qed.

Lemma sub_app_l {A} (l k : list A) lo n :
  0 <= lo -> 0 <= n -> lo + n <= len l -> sub (l ++ k) lo n = sub l lo n.
Proof.
  intros. apply list_eq. intros i. unfold sub, len in *.
  destruct (decide (i < Z.to_nat n)%nat); [|by rewrite !lookup_take_ge by lia].
  rewrite !lookup_take_lt, !lookup_drop by lia. rewrite lookup_app_l by lia. done.
Qed.

Lemma sub_app_r {A} (l k : list A) lo n :
  len l <= lo -> sub (l ++ k) lo n = sub k (lo - len l) n.
Proof.
  intros. unfold sub, len in *. f_equal.
  rewrite drop_app_ge by lia. f_equal. lia.
Qed.

Lemma sub_all {A} (l : list A) : sub l 0 (len l) = l.
Proof. unfold sub, len. rewrite Nat2Z.id. cbn [Z.to_nat drop]. apply take_ge. lia. Qed.

Lemma sub_split {A} (l : list A) lo n m :
  0 <= lo -> 0 <= n -> 0 <= m -> sub l lo (n + m) = sub l lo n ++ sub l (lo + n) m.
Proof.
  intros. unfold sub. rewrite (Z2Nat.inj_add lo n), <- drop_drop by lia.
  rewrite Z2Nat.inj_add by lia. rewrite take_take_drop. done.
Qed.

#[global] Arguments sub : simpl never.
#[global] Arguments upd : simpl never.
#[global] Arguments len : simpl never.

(** Checked slicing [b[lo:hi]], indexing [b[i]], overwriting (the [PutUintN] of
    encoding/binary on a slice, which panics when the slice is too short), and
    [copy(b[lo:], d)], which truncates. *)
Definition slice {E A} (b : list A) (lo hi : Z) : outcome E (list A) :=
  if (0 <=? lo) && (lo <=? hi) && (hi <=? len b) then Ok (sub b lo (hi - lo)) else Panic.
Definition index {E A} (b : list A) (i : Z) : outcome E A :=
  if i <? 0 then Panic
  else match b !! Z.to_nat i with Some x => Ok x | None => Panic end.
Definition put {E A} (b : list A) (lo : Z) (d : list A) : outcome E (list A) :=
  if (0 <=? lo) && (lo + len d <=? len b) then Ok (upd b lo d) else Panic.
Definition copy_at {E A} (b : list A) (lo : Z) (d : list A) : outcome E (list A) :=
  if (0 <=? lo) && (lo <=? len b)
  then Ok (upd b lo (take (Z.to_nat (len b - lo)) d)) else Panic.

Lemma slice_ok {E A} (b : list A) lo hi :
  0 <= lo <= hi -> hi <= len b -> @slice E A b lo hi = Ok (sub b lo (hi - lo)).
Proof. intros. unfold slice. zdecide. done. Qed.

Lemma put_ok {E A} (b : list A) lo d :
  0 <= lo -> lo + len d <= len b -> @put E A b lo d = Ok (upd b lo d).
Proof. intros. unfold put. zdecide. done. Qed.

Lemma copy_at_ok {E A} (b : list A) lo d :
  0 <= lo -> lo + len d <= len b -> @copy_at E A b lo d = Ok (upd b lo d).
Proof.
  intros. unfold copy_at. pose proof (len_nonneg d). zdecide.
  rewrite take_ge; [done|]. unfold len in *. lia.
Qed.

(** The effect of an in-range overwrite: same length, the written bytes read
    back, every disjoint range unchanged. *)
Record wrote {A} (b : list A) (lo : Z) (d b' : list A) : Prop := {
  wrote_len : len b' = len b;
  wrote_eq : sub b' lo (len d) = d;
  wrote_ne : forall p n, 0 <= p -> 0 <= n -> p + n <= lo \/ lo + len d <= p ->
    sub b' p n = sub b p n;
}.

Lemma put_wrote {E A} (b : list A) lo d :
  0 <= lo -> lo + len d <= len b -> exists b', @put E A b lo d = Ok b' /\ wrote b lo d b'.
Proof.
  intros. exists (upd b lo d). split; [by apply put_ok|]. split.
  - by apply len_upd.
  - by apply sub_upd_eq.
  - intros. by apply sub_upd_ne.
Qed.

Lemma copy_wrote {E A} (b : list A) lo d :
  0 <= lo -> lo + len d <= len b -> exists b', @copy_at E A b lo d = Ok b' /\ wrote b lo d b'.
Proof.
  intros. rewrite copy_at_ok by done. rewrite <- (@put_ok E) by done. by apply put_wrote.
Qed.

(** ** Fixed-width integers in byte strings (encoding/binary) *)

Fixpoint le_put (n : nat) (z : Z) : bytes :=
  match n with O => [] | S n => Zb z :: le_put n (z / 256) end.
Fixpoint le_get (bs : bytes) : Z :=
  match bs with [] => 0 | b :: bs => bZ b + 256 * le_get bs end.
Definition be_put (n : nat) (z : Z) : bytes := rev (le_put n z).
Definition be_get (bs : bytes) : Z := le_get (rev bs).

Lemma length_le_put n z : length (le_put n z) = n.
Proof. revert z; induction n; intros; cbn; auto. Qed.
Lemma len_le_put n z : len (le_put n z) = Z.of_nat n.
Proof. unfold len. by rewrite length_le_put. Qed.

Lemma le_get_put n z : le_get (le_put n z) = z mod 256 ^ Z.of_nat n.
Proof.
  revert z; induction n as [|n IH]; intros z; [by rewrite Z.mod_1_r|].
  cbn [le_put le_get]. rewrite bZ_Zb, IH, Nat2Z.inj_succ, Z.pow_succ_r by lia.
  pose proof (Z.pow_pos_nonneg 256 (Z.of_nat n)).
  rewrite Z.rem_mul_r by lia. lia.
Qed.

Lemma le_get_put_small n z : 0 <= z < 256 ^ Z.of_nat n -> le_get (le_put n z) = z.
Proof. intros. rewrite le_get_put. by apply Z.mod_small. Qed.

Lemma le_get_bound bs : 0 <= le_get bs < 256 ^ len bs.
Proof.
  induction bs as [|b bs IH]; [unfold len; cbn; lia|].
  cbn [le_get]. rewrite len_cons, Z.pow_add_r, Z.pow_1_r by (pose proof (len_nonneg bs); lia).
  pose proof (bZ_range b). lia.
Qed.

Lemma le_put_get bs : le_put (length bs) (le_get bs) = bs.
Proof.
  induction bs as [|b bs IH]; [done|]. cbn [length le_put le_get].
  pose proof (bZ_range b). f_equal.
  - rewrite <- (Zb_bZ b) at 2. unfold Zb at 1 2.
    rewrite (Z.mul_comm 256), Z.mod_add by lia. done.
  - rewrite (Z.mul_comm 256), Z.div_add, Z.div_small by lia. done.
Qed.

Lemma le_put_mod n z : le_put n (z mod 256 ^ Z.of_nat n) = le_put n z.
Proof.
  rewrite <- le_get_put. rewrite <- (length_le_put n z) at 1. apply le_put_get.
Qed.

Lemma be_get_put n z : 0 <= z < 256 ^ Z.of_nat n -> be_get (be_put n z) = z.
Proof. intros. unfold be_get, be_put. rewrite rev_involutive. by apply le_get_put_small. Qed.
Lemma length_be_put n z : length (be_put n z) = n.
Proof. unfold be_put. by rewrite length_rev, length_le_put. Qed.
Lemma len_be_put n z : len (be_put n z) = Z.of_nat n.
Proof. unfold len. by rewrite length_be_put. Qed.
Lemma be_put_get bs : be_put (length bs) (be_get bs) = bs.
Proof.
  unfold be_put, be_get. rewrite <- (length_rev bs), le_put_get. apply rev_involutive.
Qed.

(** [binary.LittleEndian.UintN(b[pos:pos+N/8])] and the matching [PutUintN]. *)
Definition getU {E} (n : nat) (b : bytes) (pos : Z) : outcome E Z :=
  s <- slice b pos (pos + Z.of_nat n) ;; Ok (le_get s).
Definition putU {E} (n : nat) (b : bytes) (pos z : Z) : outcome E bytes :=
  put b pos (le_put n z).

Lemma getU_ok {E} n b pos :
  0 <= pos -> pos + Z.of_nat n <= len b -> @getU E n b pos = Ok (le_get (sub b pos (Z.of_nat n))).
Proof.
  intros. unfold getU. rewrite slice_ok by lia. f_equal. f_equal. f_equal. lia.
Qed.

Lemma putU_ok {E} n b pos z :
  0 <= pos -> pos + Z.of_nat n <= len b -> @putU E n b pos z = Ok (upd b pos (le_put n z)).
Proof. intros. unfold putU. apply put_ok; [lia|]. rewrite len_le_put. lia. Qed.

Lemma getU_gives {E} n b pos :
  0 <= pos -> pos + Z.of_nat n <= len b -> gives (@getU E n b pos) (fun z => 0 <= z < 256 ^ Z.of_nat n).
Proof.
  intros Hp Hl. rewrite getU_ok by done. cbn.
  pose proof (le_get_bound (sub b pos (Z.of_nat n))) as H. rewrite len_sub in H; lia.
Qed.
Lemma slice_gives {E} (b : bytes) lo hi : 0 <= lo <= hi -> hi <= len b -> gives (@slice E _ b lo hi) (fun s => len s = hi - lo).
Proof. intros. rewrite slice_ok by done. cbn. rewrite len_sub; lia. Qed.
Lemma putU_gives {E} n b pos z :
  0 <= pos -> pos + Z.of_nat n <= len b -> gives (@putU E n b pos z) (fun b' => len b' = len b).
Proof. intros. rewrite putU_ok by done. cbn. apply len_upd; rewrite ?len_le_put; lia. Qed.

Lemma putU_wrote {E} n b pos z :
  0 <= pos -> pos + Z.of_nat n <= len b ->
  exists b', @putU E n b pos z = Ok b' /\ wrote b pos (le_put n z) b'.
Proof. intros. unfold putU. apply put_wrote; [lia|]. rewrite len_le_put. lia. Qed.

(** ** Fixed layouts

    A record of fields written one after the other into a buffer: what each
    field reads back as, decided by the positions alone. *)

Fixpoint layout (fs : list (Z * bytes)) (b : bytes) : bytes :=
  match fs with [] => b | (p, d) :: fs => layout fs (upd b p d) end.
Definition field_in (n : Z) (f : Z * bytes) : bool := (0 <=? f.1) && (f.1 + len f.2 <=? n).
Definition apart (p n : Z) (f : Z * bytes) : bool := (p + n <=? f.1) || (f.1 + len f.2 <=? p).
Fixpoint fields_apart (fs : list (Z * bytes)) : bool :=
  match fs with [] => true | (p, d) :: fs => forallb (apart p (len d)) fs && fields_apart fs end.

Lemma layout_snoc fs p d b : layout (fs ++ [(p, d)]) b = upd (layout fs b) p d.
Proof. revert b. induction fs as [|[q c] fs IH]; intros b; [done|]. apply IH. Qed.

Lemma len_layout fs b : forallb (field_in (len b)) fs = true -> len (layout fs b) = len b.
Proof.
  revert b. induction fs as [|[p d] fs IH]; intros b; cbn; [done|]. intros [Hf H]%andb_true_iff.
  unfold field_in in Hf. cbn in Hf. zbool.
  assert (L : len (upd b p d) = len b) by (by apply len_upd). rewrite IH; by rewrite L.
Qed.

Lemma layout_frame fs b p n :
  forallb (field_in (len b)) fs = true -> forallb (apart p n) fs = true -> 0 <= p -> 0 <= n ->
  sub (layout fs b) p n = sub b p n.
Proof.
  revert b. induction fs as [|[q d] fs IH]; intros b; cbn; [done|].
  intros [Hf H]%andb_true_iff [Ha H']%andb_true_iff Hp Hn. unfold field_in in Hf. cbn in Hf. zbool.
  rewrite IH; [|by rewrite len_upd|done..]. apply sub_upd_ne; try done.
  unfold apart in Ha. cbn in Ha. apply orb_true_iff in Ha as [?|?]; zbool; lia.
Qed.

Lemma layout_field fs b i p d :
  fs !! i = Some (p, d) -> forallb (field_in (len b)) fs = true -> fields_apart fs = true ->
  sub (layout fs b) p (len d) = d.
Proof.
  revert b i. induction fs as [|[q c] fs IH]; intros b i; cbn; [done|].
  intros Hi [Hf H]%andb_true_iff [Ha Hd]%andb_true_iff. unfold field_in in Hf. cbn in Hf. zbool.
  assert (L : len (upd b q c) = len b) by (by apply len_upd).
  destruct i as [|i]; cbn in Hi.
  - injection Hi as -> ->. rewrite layout_frame; [by apply sub_upd_eq|by rewrite L|done|done|apply len_nonneg].
  - apply (IH _ i); [done|by rewrite L|done].
Qed.

Lemma putU_layout {E} n fs b pos z :
  forallb (field_in (len b)) fs = true -> 0 <= pos -> pos + Z.of_nat n <= len b ->
  @putU E n (layout fs b) pos z = Ok (layout (fs ++ [(pos, le_put n z)]) b).
Proof. intros Hf Hp Hb. rewrite layout_snoc, putU_ok; rewrite ?len_layout; done. Qed.
Lemma put_layout {E} fs b pos d :
  forallb (field_in (len b)) fs = true -> 0 <= pos -> pos + len d <= len b ->
  @put E _ (layout fs b) pos d = Ok (layout (fs ++ [(pos, d)]) b).
Proof. intros Hf Hp Hb. rewrite layout_snoc, put_ok; rewrite ?len_layout; done. Qed.
Lemma getU_layout {E} n fs b i pos z :
  fs !! i = Some (pos, le_put n z) -> forallb (field_in (len b)) fs = true -> fields_apart fs = true ->
  0 <= pos -> pos + Z.of_nat n <= len b ->
  @getU E n (layout fs b) pos = Ok (z mod 256 ^ Z.of_nat n).
Proof.
  intros Hi Hf Ha Hp Hb. rewrite getU_ok by (rewrite ?len_layout; done).
  pose proof (layout_field fs b i pos _ Hi Hf Ha) as H. rewrite len_le_put in H. by rewrite H, le_get_put.
Qed.

Lemma fields_apart_app fs gs :
  fields_apart fs = true -> fields_apart gs = true ->
  Forall (fun f => forallb (apart f.1 (len f.2)) gs = true) fs -> fields_apart (fs ++ gs) = true.
Proof.
  intros Hf Hg Hc. induction Hc as [|[p d] fs H Hc IH]; [done|]. cbn in *. apply andb_true_iff in Hf as [? ?].
  rewrite forallb_app. apply andb_true_iff. split; [apply andb_true_iff; by split|]. by apply IH.
Qed.

(** ** Reading a concatenation *)

(** The bytes [mid] stand in [data] at [pos]. *)
Definition reads (data : bytes) (pos : Z) (mid : bytes) : Prop :=
  0 <= pos /\ pos + len mid <= len data /\ sub data pos (len mid) = mid.

Lemma reads_all data : reads data 0 data.
Proof. split; [lia|]. split; [lia|]. apply sub_all. Qed.
Lemma reads_app data pos a b : reads data pos (a ++ b) -> reads data pos a /\ reads data (pos + len a) b.
Proof.
  intros (Hp & Hl & Hs). rewrite len_app in *. pose proof (len_nonneg a). pose proof (len_nonneg b).
  rewrite sub_split in Hs by lia. apply app_inj_1 in Hs as [Ha Hb].
  - split; (split; [lia|]); (split; [lia|]); done.
  - apply Nat2Z.inj. change (len (sub data pos (len a)) = len a). rewrite len_sub; lia.
Qed.
Lemma getU_reads {E} n data pos z :
  reads data pos (le_put n z) -> 0 <= z < 256 ^ Z.of_nat n -> @getU E n data pos = Ok z.
Proof.
  intros (Hp & Hl & Hs) Hz. rewrite len_le_put in *. rewrite getU_ok by done. rewrite Hs. by rewrite le_get_put_small.
Qed.
Lemma byte_reads {E} data pos b tl : reads data pos (b :: tl) -> @getU E 1 data pos = Ok (bZ b).
Proof.
  intros H. apply (reads_app data pos [b] tl) in H as [(Hp & Hl & Hs) _]. change (len [b]) with 1 in *.
  rewrite getU_ok by done. change (Z.of_nat 1) with 1. rewrite Hs. cbn. f_equal. lia.
Qed.
Lemma reads_tail data pos b tl : reads data pos (b :: tl) -> reads data (pos + 1) tl.
Proof. intros H. by apply (reads_app data pos [b] tl) in H as [_ H]. Qed.
Lemma slice_reads {E} data pos mid : reads data pos mid -> @slice E _ data pos (pos + len mid) = Ok mid.
Proof.
  intros (Hp & Hl & Hs). pose proof (len_nonneg mid). rewrite slice_ok by lia.
  by replace (pos + len mid - pos) with (len mid) by lia; rewrite Hs.
Qed.

(** Overwriting twice, and putting the old bytes back. *)
Lemma upd_upd {A} (b : list A) p d d' :
  0 <= p -> p + len d <= len b -> len d' = len d -> upd (upd b p d) p d' = upd b p d'.
Proof.
  unfold upd, len. intros Hp Hl Hd. rewrite take_app_length' by (rewrite length_take; lia).
  f_equal. f_equal. rewrite app_assoc, drop_app_length' by (rewrite length_app, length_take; lia).
  f_equal. lia.
Qed.
Lemma upd_same {A} (b : list A) p n :
  0 <= p -> 0 <= n -> p + n <= len b -> upd b p (sub b p n) = b.
Proof.
  intros Hp Hn Hl. unfold upd. rewrite len_sub by done. unfold sub.
  replace (Z.to_nat (p + n)) with (Z.to_nat p + Z.to_nat n)%nat by lia.
  rewrite <- drop_drop, take_drop, take_drop. done.
Qed.

(** ** The order on byte strings

    [bytes.Compare], [strings.Compare] and the comparison operators of Go on
    strings: lexicographic, by unsigned byte value. *)

Fixpoint bcmp (a b : bytes) : comparison :=
  match a, b with
  | [], [] => Eq
  | [], _ :: _ => Lt
  | _ :: _, [] => Gt
  | x :: a, y :: b => match bZ x ?= bZ y with Eq => bcmp a b | c => c end
  end.
Definition blt (a b : bytes) : Prop := bcmp a b = Lt.
Definition ble (a b : bytes) : Prop := bcmp a b <> Gt.
Definition bltb (a b : bytes) : bool := match bcmp a b with Lt => true | _ => false end.
Definition bleb (a b : bytes) : bool := match bcmp a b with Gt => false | _ => true end.
Definition beqb (a b : bytes) : bool := match bcmp a b with Eq => true | _ => false end.

Lemma bcmp_refl a : bcmp a a = Eq.
Proof. induction a; cbn; [done|]. by rewrite Z.compare_refl. Qed.

Lemma bcmp_eq a b : bcmp a b = Eq <-> a = b.
Proof.
  split; [|intros ->; apply bcmp_refl].
  revert b; induction a as [|x a IH]; destruct b as [|y b]; cbn; try done.
  destruct (bZ x ?= bZ y) eqn:E; try done. apply Z.compare_eq, bZ_inj in E as ->.
  intros H. f_equal. auto.
Qed.

Lemma bcmp_antisym a b : bcmp b a = CompOpp (bcmp a b).
Proof.
  revert b; induction a as [|x a IH]; destruct b as [|y b]; cbn; try done.
  rewrite (Z.compare_antisym (bZ x) (bZ y)). destruct (bZ x ?= bZ y); cbn; auto.
Qed.

Lemma blt_trans a b c : blt a b -> blt b c -> blt a c.
Proof.
  unfold blt. revert b c; induction a as [|x a IH]; intros [|y b] [|z c]; cbn; try done.
  destruct (bZ x ?= bZ y) eqn:E1, (bZ y ?= bZ z) eqn:E2; try done;
    rewrite ?Z.compare_eq_iff, ?Z.compare_lt_iff in *.
  - rewrite E1, E2, Z.compare_refl. apply IH.
  - rewrite E1. apply Z.compare_lt_iff in E2. by rewrite E2.
  - rewrite <- E2. apply Z.compare_lt_iff in E1. by rewrite E1.
  - intros _ _. assert (bZ x < bZ z) as H by lia. apply Z.compare_lt_iff in H. by rewrite H.
Qed.

Module BytesOrder.
Definition t := bytes.
Definition eq := @eq bytes.
Definition lt := blt.
Definition le := ble.
#[global] Instance eq_equiv : Equivalence eq.
Proof. unfold eq. apply _. Qed.
#[global] Instance lt_strorder : StrictOrder lt.
Proof.
  split; [|intros ???; apply blt_trans].
  intros a. unfold complement, lt, blt. by rewrite bcmp_refl.
Qed.
#[global] Instance lt_compat : Proper (eq ==> eq ==> iff) lt.
Proof. intros ?? -> ?? ->. done. Qed.
Lemma lt_total a b : lt a b \/ eq a b \/ lt b a.
Proof.
  unfold lt, eq, blt. rewrite (bcmp_antisym a b).
  destruct (bcmp a b) eqn:E; cbn; auto. apply bcmp_eq in E. auto.
Qed.
Lemma le_lteq a b : le a b <-> lt a b \/ eq a b.
Proof.
  unfold le, lt, eq, ble, blt. rewrite <- bcmp_eq. destruct (bcmp a b); naive_solver.
Qed.
End BytesOrder.

Module BytesOrderTac := OrdersTac.MakeOrderTac BytesOrder BytesOrder.

Lemma bltb_lt a b : bltb a b = true <-> blt a b.
Proof. unfold bltb, blt. destruct (bcmp a b); naive_solver. Qed.
Lemma bltb_ge a b : bltb a b = false <-> ble b a.
Proof. unfold bltb, ble. rewrite (bcmp_antisym a b). destruct (bcmp a b); cbn; naive_solver. Qed.
Lemma bleb_le a b : bleb a b = true <-> ble a b.
Proof. unfold bleb, ble. destruct (bcmp a b); naive_solver. Qed.
Lemma bleb_gt a b : bleb a b = false <-> blt b a.
Proof. unfold bleb, blt. rewrite (bcmp_antisym a b). destruct (bcmp a b); cbn; naive_solver. Qed.
Lemma beqb_eq a b : beqb a b = true <-> a = b.
Proof. unfold beqb. rewrite <- bcmp_eq. destruct (bcmp a b); naive_solver. Qed.
Lemma beqb_neq a b : beqb a b = false <-> a <> b.
Proof. unfold beqb. rewrite <- bcmp_eq. destruct (bcmp a b); naive_solver. Qed.
Lemma beqb_refl a : beqb a a = true.
Proof. by apply beqb_eq. Qed.

(** Decides goals about [blt], [ble], [=] and the boolean tests on byte strings
    from the hypotheses, by the theory of total orders. *)
Ltac bool_order :=
  repeat match goal with
  | H : bltb _ _ = true |- _ => apply bltb_lt in H
  | H : bltb _ _ = false |- _ => apply bltb_ge in H
  | H : bleb _ _ = true |- _ => apply bleb_le in H
  | H : bleb _ _ = false |- _ => apply bleb_gt in H
  | H : beqb _ _ = true |- _ => apply beqb_eq in H
  | H : beqb _ _ = false |- _ => apply beqb_neq in H
  | |- bltb _ _ = true => apply bltb_lt
  | |- bltb _ _ = false => apply bltb_ge
  | |- bleb _ _ = true => apply bleb_le
  | |- bleb _ _ = false => apply bleb_gt
  | |- beqb _ _ = true => apply beqb_eq
  | |- beqb _ _ = false => apply beqb_neq
  end.
Ltac border :=
  bool_order;
  repeat match goal with
  | H : blt ?a ?b |- _ => change (BytesOrder.lt a b) in H
  | H : ble ?a ?b |- _ => change (BytesOrder.le a b) in H
  | H : @eq (list byte) ?a ?b |- _ => change (BytesOrder.eq a b) in H
  | H : not (blt ?a ?b) |- _ => change (not (BytesOrder.lt a b)) in H
  | H : not (ble ?a ?b) |- _ => change (not (BytesOrder.le a b)) in H
  | H : not (@eq (list byte) ?a ?b) |- _ => change (not (BytesOrder.eq a b)) in H
  end;
  lazymatch goal with
  | |- blt ?a ?b => change (BytesOrder.lt a b)
  | |- ble ?a ?b => change (BytesOrder.le a b)
  | |- @eq (list byte) ?a ?b => change (BytesOrder.eq a b)
  | |- not (blt ?a ?b) => change (not (BytesOrder.lt a b))
  | |- not (ble ?a ?b) => change (not (BytesOrder.le a b))
  | |- not (@eq (list byte) ?a ?b) => change (not (BytesOrder.eq a b))
  | |- _ => exfalso
  end;
  BytesOrderTac.order.

#[global] Instance blt_dec a b : Decision (blt a b).
Proof. unfold blt. apply _. Defined.
#[global] Instance ble_dec a b : Decision (ble a b).
Proof. unfold ble. apply _. Defined.

Lemma ble_nil a : ble [] a.
Proof. destruct a; done. Qed.
Lemma blt_nil_cons x a : blt [] (x :: a).
Proof. done. Qed.
Lemma blt_nil a : blt [] a <-> a <> [].
Proof. destruct a; split; intros; try done. Qed.
Lemma not_blt_nil a : ~ blt a [].
Proof. destruct a; done. Qed.

(** A common prefix is irrelevant to the order, and a proper extension is
    larger. *)
Lemma bcmp_app p a b : bcmp (p ++ a) (p ++ b) = bcmp a b.
Proof. induction p; cbn; [done|]. by rewrite Z.compare_refl. Qed.
Lemma ble_app_r p a : ble p (p ++ a).
Proof. unfold ble. rewrite <- (app_nil_r p) at 1. rewrite bcmp_app. apply ble_nil. Qed.

(** ** Strictly sorted key lists *)

Definition ssorted : list bytes -> Prop := StronglySorted blt.

Lemma ssorted_app l k :
  ssorted (l ++ k) <->
  ssorted l /\ ssorted k /\ (forall a b, a ∈ l -> b ∈ k -> blt a b).
Proof.
  induction l as [|x l IH]; cbn.
  - split; [intros; split_and!; try done; [constructor | by intros ?? ?%not_elem_of_nil]|tauto].
  - split.
    + inversion_clear 1 as [|?? Hs Hf]. apply IH in Hs as (?&?&Hc).
      apply Forall_app in Hf as [??]. rewrite Forall_forall in *.
      split_and!; [constructor; [done|by apply Forall_forall]|done|].
      intros a b [->|Ha]%elem_of_cons Hb; auto.
    + intros (Hs&Hk&Hc). inversion_clear Hs as [|?? Hl Hf]. constructor.
      * apply IH. split_and!; [done..|]. intros. apply Hc; [by right|done].
      * apply Forall_app. split; [done|]. apply Forall_forall. intros. apply Hc; [by left|done].
Qed.

Lemma ssorted_cons x l : ssorted (x :: l) <-> ssorted l /\ forall b, b ∈ l -> blt x b.
Proof.
  split.
  - inversion_clear 1. by rewrite <- Forall_forall.
  - intros [??]. constructor; [done|]. by apply Forall_forall.
Qed.

Lemma ssorted_lookup_lt l i j a b :
  ssorted l -> (i < j)%nat -> l !! i = Some a -> l !! j = Some b -> blt a b.
Proof.
  intros Hs Hij Ha Hb. rewrite <- (take_drop_middle _ _ _ Ha) in Hs.
  apply ssorted_app in Hs as (_ & Hs & _). apply ssorted_cons in Hs as [_ Hs]. apply Hs.
  apply list_elem_of_lookup. exists (j - S i)%nat. rewrite lookup_drop. rewrite <- Hb. f_equal. lia.
Qed.
Lemma ssorted_nil : ssorted [].
Proof. constructor. Qed.
Lemma ssorted_one x : ssorted [x].
Proof. repeat constructor. Qed.
#[global] Hint Resolve ssorted_nil ssorted_one : core.

Lemma ssorted_sublist l k : l `sublist_of` k -> ssorted k -> ssorted l.
Proof.
  induction 1 as [|x l k Hs IH|x l k Hs IH]; [done| |]; rewrite ?ssorted_cons; intros [Hk Hx].
  - split; [auto|]. intros b Hb. apply Hx. by eapply sublist_subseteq.
  - auto.
Qed.
Lemma ssorted_NoDup l : ssorted l -> NoDup l.
Proof.
  induction l as [|x l IH]; [constructor|]. rewrite ssorted_cons. intros [Hs Hx].
  constructor; [|auto]. intros H%Hx. border.
Qed.

(** Two strictly sorted lists with the same elements are equal. *)
Lemma ssorted_ext l k : ssorted l -> ssorted k -> (forall x, x ∈ l <-> x ∈ k) -> l = k.
Proof.
  revert k; induction l as [|x l IH]; intros [|y k].
  - done.
  - intros _ _ H. specialize (H y). set_solver.
  - intros _ _ H. specialize (H x). set_solver.
  - rewrite !ssorted_cons. intros [Hl Hx] [Hk Hy] H.
    assert (x = y) as <-.
    { pose proof (proj1 (H x) ltac:(by left)) as [->|Hxk]%elem_of_cons; [done|].
      pose proof (proj2 (H y) ltac:(by left)) as [->|Hyl]%elem_of_cons; [done|].
      pose proof (Hy _ Hxk). pose proof (Hx _ Hyl). border. }
    f_equal. apply IH; [done..|]. intros z. specialize (H z).
    rewrite !elem_of_cons in H. split; intros Hz.
    + destruct (proj1 H (or_intror Hz)) as [->|]; [pose proof (Hx _ Hz); border|done].
    + destruct (proj2 H (or_intror Hz)) as [->|]; [pose proof (Hy _ Hz); border|done].
Qed.

(** ** [sort.Search]

    The binary search of the Go standard library over [0, n): the predicate may
    itself fail. The loop halves the interval, so [n] iterations are enough. *)

Fixpoint search_loop {E} (fuel : nat) (f : Z -> outcome E bool) (i j : Z) : outcome E Z :=
  if i <? j then
    match fuel with
    | O => NoFuel
    | S fuel =>
        let h := (i + j) / 2 in
        b <- f h ;;
        if (b : bool) then search_loop fuel f i h else search_loop fuel f (h + 1) j
    end
  else Ok i.
Definition search {E} (n : Z) (f : Z -> outcome E bool) : outcome E Z :=
  search_loop (Z.to_nat n) f 0 n.

Lemma search_loop_spec {E} fuel (f : Z -> outcome E bool) (p : Z -> bool) i j m :
  i <= m <= j -> j - i <= Z.of_nat fuel ->
  (forall h, i <= h < j -> f h = Ok (p h)) ->
  (forall h, i <= h < m -> p h = false) ->
  (forall h, m <= h < j -> p h = true) ->
  search_loop fuel f i j = Ok m.
Proof.
  revert i j; induction fuel as [|fuel IH]; intros i j Hm Hfuel Hf Hlo Hhi;
    unfold search_loop; fold (@search_loop E).
  - zdecide. f_equal. lia.
  - destruct (i <? j) eqn:Hij; zbool; [|f_equal; lia].
    assert (i <= (i + j) / 2 < j) by (split; [apply Z.div_le_lower_bound|apply Z.div_lt_upper_bound]; lia).
    rewrite Hf by lia. destruct (p ((i + j) / 2)) eqn:Hp; cbn.
    + apply IH; try lia; try (intros; apply Hf || apply Hlo || apply Hhi; lia).
      destruct (decide (m <= (i + j) / 2)); [lia|]. rewrite Hlo in Hp by lia. done.
    + apply IH; try lia; try (intros; apply Hf || apply Hlo || apply Hhi; lia).
      destruct (decide (m <= (i + j) / 2)); [|lia]. rewrite Hhi in Hp by lia. done.
Qed.

Lemma search_spec {E} n (f : Z -> outcome E bool) (p : Z -> bool) m :
  0 <= m <= n ->
  (forall h, 0 <= h < n -> f h = Ok (p h)) ->
  (forall h, 0 <= h < m -> p h = false) ->
  (forall h, m <= h < n -> p h = true) ->
  search n f = Ok m.
Proof. intros. unfold search. eapply search_loop_spec; eauto; lia. Qed.

(** The split point of a list: how many leading elements satisfy [p]. *)
Fixpoint prefix_len {A} (p : A -> bool) (l : list A) : nat :=
  match l with
  | [] => O
  | x :: l => if p x then S (prefix_len p l) else O
  end.

Lemma prefix_len_le {A} (p : A -> bool) l : (prefix_len p l <= length l)%nat.
Proof. induction l; cbn; [lia|]. destruct (p a); lia. Qed.

Lemma prefix_len_app {A} (p : A -> bool) l k :
  Forall (fun x => p x = true) l ->
  (forall x, head k = Some x -> p x = false) ->
  prefix_len p (l ++ k) = length l.
Proof.
  induction 1 as [|x l Hx _ IH]; intros Hk; cbn.
  - destruct k; cbn; [done|]. by rewrite Hk.
  - rewrite Hx. by rewrite IH.
Qed.

(** Binary search over a list whose elements satisfying [negb p] all come first. *)
Lemma search_list {E A} (f : Z -> outcome E bool) (p : A -> bool) (l k : list A) :
  (forall i x, (l ++ k) !! i = Some x -> f (Z.of_nat i) = Ok (p x)) ->
  Forall (fun x => p x = false) l -> Forall (fun x => p x = true) k ->
  search (len (l ++ k)) f = Ok (len l).
Proof.
  intros Hf Hl Hk.
  apply (search_spec _ _ (fun i => match (l ++ k) !! Z.to_nat i with Some x => p x | None => true end)).
  - rewrite len_app. pose proof (len_nonneg k). pose proof (len_nonneg l). lia.
  - intros h Hh. rewrite <- (Z2Nat.id h) at 1 by lia.
    destruct ((l ++ k) !! Z.to_nat h) as [x|] eqn:E1; [by apply Hf|].
    apply lookup_ge_None in E1. unfold len in Hh. lia.
  - intros h Hh. destruct ((l ++ k) !! Z.to_nat h) as [x|] eqn:E1.
    + rewrite lookup_app_l in E1 by (unfold len in Hh; lia).
      rewrite Forall_lookup in Hl. eauto.
    + apply lookup_ge_None in E1. rewrite length_app in E1. unfold len in Hh. lia.
  - intros h Hh. destruct ((l ++ k) !! Z.to_nat h) as [x|] eqn:E1; [|done].
    rewrite lookup_app_r in E1 by (unfold len in Hh; lia).
    rewrite Forall_lookup in Hk. eauto.
Qed.

(** Every strictly sorted key list splits around a key. *)
Lemma ssorted_split (l : list bytes) (k : bytes) :
  ssorted l -> exists a b, l = a ++ b /\
    Forall (fun x => blt x k) a /\ Forall (fun x => ble k x) b.
Proof.
  induction l as [|x l IH]; [intros; exists [], []; repeat constructor|].
  rewrite ssorted_cons. intros [Hs Hx]. destruct (decide (blt x k)) as [Hlt|Hge].
  - destruct (IH Hs) as (a & b & -> & Ha & Hb). exists (x :: a), b.
    split_and!; [done|by constructor|done].
  - exists [], (x :: l). split_and!; [done|constructor|]. constructor; [border|].
    apply Forall_forall. intros y Hy. pose proof (Hx y Hy). border.
Qed.
