(* ===== verification/KvList.v ===== *)
(** * Ordered key-value contents

    The abstract contents every store of the repository promises: the entries
    in strictly ascending key order, with lookup, overwrite, removal and
    inclusive range scan, and their agreement with finite maps. *)

From S2P Require Import Prelude.

Abbreviation kv := (bytes * bytes)%type.
Definition kv_keys (l : list kv) : list bytes := map fst l.
Definition kv_sorted (l : list kv) : Prop := ssorted (kv_keys l).

Fixpoint kv_get (k : bytes) (l : list kv) : option bytes :=
  match l with
  | [] => None
  | (k', v) :: l => if beqb k' k then Some v else kv_get k l
  end.
Fixpoint kv_set (k v : bytes) (l : list kv) : list kv :=
  match l with
  | [] => [(k, v)]
  | (k', v') :: l' =>
      match bcmp k k' with
      | Lt => (k, v) :: l
      | Eq => (k, v) :: l'
      | Gt => (k', v') :: kv_set k v l'
      end
  end.
Definition kv_del (k : bytes) (l : list kv) : list kv :=
  List.filter (fun p => negb (beqb p.1 k)) l.
Definition kv_range (lo hi : bytes) (l : list kv) : list kv :=
  List.filter (fun p => bleb lo p.1 && bleb p.1 hi) l.
(** The entries as a finite map. *)
Definition kv_map (l : list kv) : gmap bytes bytes := list_to_map l.

Definition below (k : bytes) (l : list kv) : Prop := Forall (fun p => blt p.1 k) l.
Definition above (k : bytes) (l : list kv) : Prop := Forall (fun p => blt k p.1) l.

Lemma kv_sorted_app l m :
  kv_sorted (l ++ m) <->
  kv_sorted l /\ kv_sorted m /\ (forall a b, a ∈ l -> b ∈ m -> blt a.1 b.1).
Proof.
  unfold kv_sorted, kv_keys. rewrite map_app, ssorted_app.
  split; intros (?&?&H); split_and!; try done.
  - intros a b Ha Hb. apply H; apply list_elem_of_fmap; eauto.
  - intros ? ? (a & -> & Ha)%list_elem_of_fmap (b & -> & Hb)%list_elem_of_fmap. auto.
Qed.

Lemma kv_sorted_cons p l :
  kv_sorted (p :: l) <-> kv_sorted l /\ above p.1 l.
Proof.
  unfold kv_sorted, kv_keys, above. cbn [map]. rewrite ssorted_cons, Forall_forall.
  split; intros [? H]; (split; [done|]).
  - intros x Hx. apply H, list_elem_of_fmap. eauto.
  - intros ? (x & -> & Hx)%list_elem_of_fmap. auto.
Qed.

(** ** Locality: each operation only looks at the run of entries around its key *)

Lemma kv_get_below k a l : below k a -> kv_get k (a ++ l) = kv_get k l.
Proof.
  induction 1 as [|[k' v] a Hlt _ IH]; [done|]. cbn in *.
  rewrite (proj2 (beqb_neq k' k)) by border. done.
Qed.
Lemma kv_get_above k l : above k l -> kv_get k l = None.
Proof.
  induction 1 as [|[k' v] a Hlt _ IH]; [done|]. cbn in *.
  rewrite (proj2 (beqb_neq k' k)) by border. done.
Qed.
Lemma kv_get_app_above k l b : above k b -> kv_get k (l ++ b) = kv_get k l.
Proof.
  intros Hb. induction l as [|[k' v] l IH]; cbn; [by apply kv_get_above|]. by rewrite IH.
Qed.

Lemma kv_set_below k v a l : below k a -> kv_set k v (a ++ l) = a ++ kv_set k v l.
Proof.
  induction 1 as [|[k' v'] a Hlt _ IH]; [done|]. cbn in *. rewrite IH.
  rewrite (bcmp_antisym k' k). unfold blt in Hlt. by rewrite Hlt.
Qed.
Lemma kv_set_above k v l b : above k b -> kv_set k v (l ++ b) = kv_set k v l ++ b.
Proof.
  intros Hb. induction l as [|[k' v'] l IH]; cbn.
  - destruct Hb as [|[k' v'] b Hlt _]; cbn in *; [done|]. unfold blt in Hlt. by rewrite Hlt.
  - destruct (bcmp k k'); cbn; [done..|]. by rewrite IH.
Qed.

Lemma kv_del_app k a b : kv_del k (a ++ b) = kv_del k a ++ kv_del k b.
Proof. apply List.filter_app. Qed.
Lemma kv_del_none k l : (forall p, p ∈ l -> p.1 <> k) -> kv_del k l = l.
Proof.
  unfold kv_del. induction l as [|p l IH]; intros H; [done|]. cbn.
  rewrite (proj2 (beqb_neq p.1 k)) by (apply H; by left). cbn. f_equal. apply IH. intros. apply H. by right.
Qed.
Lemma kv_get_none_elem k l p : kv_get k l = None -> p ∈ l -> p.1 <> k.
Proof.
  induction l as [|[k' v] l IH]; [by intros _ ?%not_elem_of_nil|]. cbn. destruct (beqb k' k) eqn:E; [done|].
  apply beqb_neq in E. intros H [->|Hp]%elem_of_cons; [done|auto].
Qed.
Lemma kv_del_absent k l : kv_get k l = None -> kv_del k l = l.
Proof. intros H. apply kv_del_none. intros p Hp. by eapply kv_get_none_elem. Qed.
Lemma kv_del_below k a : below k a -> kv_del k a = a.
Proof.
  unfold below. rewrite Forall_forall. intros H. apply kv_del_none. intros p Hp <-. specialize (H p Hp). border.
Qed.
Lemma kv_del_above k a : above k a -> kv_del k a = a.
Proof.
  unfold above. rewrite Forall_forall. intros H. apply kv_del_none. intros p Hp <-. specialize (H p Hp). border.
Qed.

(** ** Agreement with finite maps *)

Lemma kv_get_map k l : kv_get k l = kv_map l !! k.
Proof.
  induction l as [|[k' v] l IH]; [done|]. cbn. destruct (beqb k' k) eqn:E; bool_order.
  - subst. by rewrite lookup_insert_eq.
  - by rewrite lookup_insert_ne.
Qed.

Lemma kv_set_map k v l : kv_sorted l -> kv_map (kv_set k v l) = <[k := v]> (kv_map l).
Proof.
  induction l as [|[k' v'] l IH]; [done|]. rewrite kv_sorted_cons. intros [Hs _]. cbn.
  destruct (bcmp k k') eqn:E; cbn.
  - apply bcmp_eq in E as ->. by rewrite insert_insert_eq.
  - done.
  - change (list_to_map (kv_set k v l)) with (kv_map (kv_set k v l)). rewrite IH by done.
    rewrite insert_insert_ne; [done|]. intros ->. by rewrite bcmp_refl in E.
Qed.

Lemma kv_del_map k l : kv_map (kv_del k l) = delete k (kv_map l).
Proof.
  induction l as [|[k' v'] l IH]; cbn; [by rewrite delete_empty|].
  unfold kv_map in *. destruct (beqb k' k) eqn:E; cbn; bool_order.
  - subst. by rewrite delete_insert_eq.
  - rewrite delete_insert_ne by done. by f_equal.
Qed.

Lemma kv_keys_set k v l x : x ∈ kv_keys (kv_set k v l) <-> x = k \/ x ∈ kv_keys l.
Proof.
  induction l as [|[k' v'] l IH]; cbn; [set_solver|].
  destruct (bcmp k k') eqn:E; cbn; rewrite !elem_of_cons.
  - apply bcmp_eq in E as ->. set_solver.
  - set_solver.
  - rewrite IH. tauto.
Qed.

Lemma kv_sorted_set k v l : kv_sorted l -> kv_sorted (kv_set k v l).
Proof.
  induction l as [|[k' v'] l IH]; [intros; apply ssorted_one|]. cbn. rewrite kv_sorted_cons. intros [Hs Ha].
  destruct (bcmp k k') eqn:E.
  - apply bcmp_eq in E as ->. by apply kv_sorted_cons.
  - change (blt k k') in E. apply kv_sorted_cons. split; [by apply kv_sorted_cons|].
    constructor; [done|]. eapply Forall_impl; [done|]. cbn. intros. border.
  - assert (blt k' k) by (unfold blt; by rewrite bcmp_antisym, E).
    apply kv_sorted_cons. split; [auto|]. unfold above in *. rewrite Forall_forall in *.
    intros p Hp. assert (p.1 ∈ kv_keys (kv_set k v l)) as H0 by (apply list_elem_of_fmap; eauto).
    apply kv_keys_set in H0 as [->|(q & -> & Hq)%list_elem_of_fmap]; [done|]. by apply Ha.
Qed.

Lemma kv_sorted_filter f l : kv_sorted l -> kv_sorted (List.filter f l).
Proof.
  induction l as [|p l IH]; [done|]. cbn. rewrite kv_sorted_cons. intros [Hs Ha].
  destruct (f p); [|auto]. apply kv_sorted_cons. split; [auto|].
  unfold above in *. rewrite Forall_forall in *. intros q Hq.
  apply list_elem_of_In, List.filter_In in Hq as [Hq%list_elem_of_In _]. by apply Ha.
Qed.
Lemma kv_sorted_del k l : kv_sorted l -> kv_sorted (kv_del k l).
Proof. apply kv_sorted_filter. Qed.

(** Sorted contents are determined by the finite map they denote. *)
Lemma kv_sorted_ext l m : kv_sorted l -> kv_sorted m -> kv_map l = kv_map m -> l = m.
Proof.
  intros Hl Hm Heq. assert (kv_keys l = kv_keys m) as Hk.
  { apply ssorted_ext; try done. intros x. unfold kv_map in Heq.
    split; intros Hx; apply dec_stable; intros Hn.
    - apply (not_elem_of_list_to_map_1 (M := gmap bytes)) in Hn. rewrite <- Heq in Hn.
      by apply not_elem_of_list_to_map_2 in Hn.
    - apply (not_elem_of_list_to_map_1 (M := gmap bytes)) in Hn. rewrite Heq in Hn.
      by apply not_elem_of_list_to_map_2 in Hn. }
  apply ssorted_NoDup in Hl as Nl. apply ssorted_NoDup in Hm as Nm.
  clear Hl Hm. revert m Heq Hk Nl Nm. induction l as [|[k v] l IH]; intros [|[k' v'] m] Heq Hk Nl Nm; try done.
  cbn in *. injection Hk as <- Hk. inversion Nl. inversion Nm. subst.
  assert (v = v') as <-.
  { apply (f_equal (lookup k)) in Heq. unfold kv_map in Heq. cbn in Heq.
    rewrite !lookup_insert_eq in Heq. by injection Heq. }
  f_equal. apply IH; try done. apply (f_equal (base.delete k)) in Heq. unfold kv_map in Heq. cbn in Heq.
  rewrite !delete_insert_eq in Heq.
  rewrite !delete_id in Heq by (by apply not_elem_of_list_to_map_1). done.
Qed.

(** The entries of a finite map with keys in [lo..hi], ascending: the reference
    for every range scan. *)
Lemma kv_range_elem lo hi l p :
  p ∈ kv_range lo hi l <-> p ∈ l /\ ble lo p.1 /\ ble p.1 hi.
Proof.
  unfold kv_range. rewrite list_elem_of_In, List.filter_In, <- list_elem_of_In, andb_true_iff, !bleb_le. done.
Qed.
Lemma kv_sorted_range lo hi l : kv_sorted l -> kv_sorted (kv_range lo hi l).
Proof. apply kv_sorted_filter. Qed.
Lemma kv_range_app lo hi a b : kv_range lo hi (a ++ b) = kv_range lo hi a ++ kv_range lo hi b.
Proof. apply List.filter_app. Qed.

(** ** Splitting at a key *)

(** Sorted entries split around a key, which is at the split point or absent. *)
Inductive kv_cut (k : bytes) : list kv -> Type :=
| cut_at a v b : below k a -> above k b -> kv_cut k (a ++ (k, v) :: b)
| cut_gap a b : below k a -> above k b -> kv_cut k (a ++ b).

Lemma above_le k k' l : above k l -> ble k' k -> above k' l.
Proof. unfold above. intros H Hk. eapply Forall_impl; [exact H|]. cbn. intros. border. Qed.
Lemma below_le k k' l : below k l -> ble k k' -> below k' l.
Proof. unfold below. intros H Hk. eapply Forall_impl; [exact H|]. cbn. intros. border. Qed.

Lemma kv_cutP k l : kv_sorted l -> kv_cut k l.
Proof.
  induction l as [|[x v] l IH]; intros Hs; [apply (cut_gap k [] []); constructor|].
  apply kv_sorted_cons in Hs as [Hs Ha]. cbn in Ha. destruct (bcmp x k) eqn:E.
  - apply bcmp_eq in E as ->. apply (cut_at k [] v l); [constructor|done].
  - destruct (IH Hs) as [a w b Hb Hc|a b Hb Hc].
    + apply (cut_at k ((x, v) :: a) w b); [by constructor|done].
    + apply (cut_gap k ((x, v) :: a) b); [by constructor|done].
  - assert (blt k x) by (unfold blt; by rewrite bcmp_antisym, E).
    apply (cut_gap k [] ((x, v) :: l)); [constructor|]. constructor; [done|]. eapply above_le; [done|border].
Qed.

Lemma kv_get_at k a v b : below k a -> kv_get k (a ++ (k, v) :: b) = Some v.
Proof. intros H. rewrite kv_get_below by done. cbn. by rewrite beqb_refl. Qed.
Lemma kv_get_gap k a b : below k a -> above k b -> kv_get k (a ++ b) = None.
Proof. intros H H'. rewrite kv_get_below by done. by apply kv_get_above. Qed.
Lemma kv_set_at k w a v b : below k a -> kv_set k w (a ++ (k, v) :: b) = a ++ (k, w) :: b.
Proof. intros H. rewrite kv_set_below by done. cbn. by rewrite bcmp_refl. Qed.
Lemma kv_set_gap k w a b : below k a -> above k b -> kv_set k w (a ++ b) = a ++ (k, w) :: b.
Proof. intros H H'. rewrite kv_set_below by done. f_equal. by apply (kv_set_above k w [] b). Qed.
Lemma kv_del_at k a v b : below k a -> above k b -> kv_del k (a ++ (k, v) :: b) = a ++ b.
Proof.
  intros H H'. rewrite kv_del_app, kv_del_below by done. f_equal. unfold kv_del. cbn. rewrite beqb_refl. cbn.
  by apply (kv_del_above k).
Qed.
Lemma kv_del_gap k a b : below k a -> above k b -> kv_del k (a ++ b) = a ++ b.
Proof. intros H H'. by rewrite kv_del_app, kv_del_below, kv_del_above. Qed.

Lemma kv_range_below lo hi a : below lo a -> kv_range lo hi a = [].
Proof.
  induction 1 as [|p a Hlt _ IH]; [done|]. cbn. by rewrite (proj2 (bleb_gt lo p.1) Hlt).
Qed.
Lemma kv_range_above lo hi a : above hi a -> kv_range lo hi a = [].
Proof.
  induction 1 as [|p a Hlt _ IH]; [done|]. cbn. by rewrite (proj2 (bleb_gt p.1 hi) Hlt), andb_false_r.
Qed.
Lemma kv_range_cons lo hi p l : ble lo p.1 -> ble p.1 hi -> kv_range lo hi (p :: l) = p :: kv_range lo hi l.
Proof. intros H H'. cbn. by rewrite (proj2 (bleb_le _ _) H), (proj2 (bleb_le _ _) H'). Qed.
Lemma kv_range_none lo hi l : blt hi lo -> kv_range lo hi l = [].
Proof.
  intros H. induction l as [|p l IH]; [done|]. cbn. destruct (bleb lo p.1 && bleb p.1 hi) eqn:E; [|done].
  apply andb_true_iff in E as [E1 E2]. bool_order. border.
Qed.

(** ** The next key *)

(** The least key of the entries that is greater than [k]. *)
Definition kv_next (k : bytes) (l : list kv) : option bytes :=
  head (kv_keys (List.filter (fun p => bltb k p.1) l)).
(** [k] is stored, and the key after it is longer. *)
Definition outgrown (k : bytes) (l : list kv) : Prop :=
  is_Some (kv_get k l) /\ exists next, kv_next k l = Some next /\ len k < len next.

Lemma kv_next_below k a l : below k a -> kv_next k (a ++ l) = kv_next k l.
Proof.
  unfold kv_next. induction 1 as [|p a Hlt _ IH]; [done|]. cbn.
  destruct (bltb k p.1) eqn:E; [|done]. apply bltb_lt in E. border.
Qed.
Lemma kv_next_app k a b next : kv_next k a = Some next -> kv_next k (a ++ b) = Some next.
Proof.
  unfold kv_next, kv_keys. rewrite List.filter_app, map_app. by destruct (map fst (List.filter _ a)).
Qed.
Lemma kv_next_first k v k' v' l : blt k k' -> kv_next k ((k, v) :: (k', v') :: l) = Some k'.
Proof.
  intros H%bltb_lt. unfold kv_next. cbn. rewrite H. destruct (bltb k k) eqn:E; [|done]. apply bltb_lt in E. border.
Qed.
