(* ===== verification/Errors.v ===== *)
(** * Error values of package btree

    One constructor per [errors.New] value and per [fmt.Errorf] message of
    src/internal/btree; arguments are the formatted operands and, for [%w], the
    wrapped error. *)

From S2P Require Import Prelude.

Inductive error : Type :=
(* page.go *)
| errInvalidPageSize
| errInvalidMagic
| errInvalidVersion (version : Z)
| errInvalidNodeType (ty : Z)
| EEntryIndex (idx count : Z)
| EKeyExceeds (idx : Z)
| EKeyIsEmpty (idx : Z)
| ESentinelEntryValue
| EValueExceeds (idx : Z)
| ELeafEntryChild (idx : Z)
| EChildPageZero (idx : Z)
| EInternalEntryValue (idx : Z)
| ENodeExceedsPage
| EEntryRangeOutside
| EMetadataExceedsPage
| EOffsetBackward (i : Z)
| EOffsetOutside (i : Z)
| ERecordTooSmall (i : Z)
| ERecordEmptyKey (i : Z)
| ESentinelRecordValue
| ERecordKeyExceeds (i : Z)
| ERecordValueExceeds (i : Z)
| EInternalRecordValue (i : Z)
| ERecordLength (i : Z)
| EKeysNotSorted
| ENodeNil
| ETooManyKeys
| ELeafValueCount (values keys : Z)
| ELeafChildPages
| EInternalValues
| EChildPageCount (pages keys : Z)
(* page_tree.go *)
| ETreeKeyEmpty
| ETreeKeyExceeds
| ETreeValueExceeds
| EStartExceeds
| EEndExceeds
| ENoLowerBound
| EMergeTypes
| EEntryDoesNotFit
| EMoreThanThreePages
| ECallbacks
| EReadPage (e : error)
| EReadRangePage (e : error)
| EReadRootPage (e : error)
| EReadChildPage (id : Z) (e : error)
(* page_manager.go, free_list.go *)
| errInvalidPageID (id : Z)
| EPageIsFree (id : Z)
| EStoresFreeList (id : Z)
| EAlreadyFreed (id : Z)
| ERootObsolete (id : Z)
| EPageIDOverflow (id : Z)
| errInvalidPageData
| EFreeListCount (count : Z)
| EFreeListZero
| ENoMetadata
| EFileAlignment (size : Z)
| ERootNotAllocated (id : Z)
| EInvalidFreePage (id : Z)
| EPageSize (size : Z)
| ErrShortWrite
| ErrUnexpectedEOF
| EFile
| EEOF
| ErrDatabaseLocked
(* kv.go *)
| ErrClosed
| EPageNotLoaded (id : Z)
| ERepairMetadata (e : error)
| EInvalidChild (id : Z)
| EPageCycle (id : Z)
| EPageTwice (id : Z)
| ELoadRead (id : Z) (e : error)
| ELoadValidate (id : Z) (e : error)
| ENoEntries (id : Z)
| EPageOverflow (id : Z)
| ENoSentinel (id : Z)
| EThinRoot (id : Z)
| ELowerBound (id : Z) (first lower : bytes)
| EUpperBound (id : Z) (last upper : bytes)
| ELeafDepth (depth want : Z)
| EMergeableLeft (id child : Z)
| EMergeableRight (id child : Z)
| EOwnerInvalid (id : Z)
| EOwnedTwice (id : Z)
| EGenerationRoot (gen id : Z)
| EGeneration (gen : Z) (e : error)
| ENoValidTree (e : error)
| EJoin (es : list error)
| EPathEmpty.

(** [errors.Is(err, errInvalidPageData)]: the sentinel itself or a message that
    wraps it with [%w]. *)
Definition is_invalid_page_data (e : error) : bool :=
  match e with
  | errInvalidPageData | EFreeListCount _ | EFreeListZero | ENoMetadata | EFileAlignment _
  | EInvalidFreePage _ | EPageSize _ => true
  | _ => false
  end.

Abbreviation res := (outcome error).

(** ** Errors of package engine

    [engine.ErrClosed], and the errors of the B+Tree store, which the engine
    passes on unchanged; the two packages' [ErrClosed] are distinct values. *)
Inductive engine_error : Type :=
| EngineErrClosed
| EBtree (e : error).
