(* ===== verification/Page.v ===== *)
(** * The page codec (src/internal/btree/page.go)

    A persistent B+Tree node is a slice of bytes: a 16-byte header, [nkeys]
    8-byte child page ids, [nkeys] 2-byte record end offsets, then the records
    (2-byte key size, 2-byte value size, key, value). All reads and writes are
    the checked slice operations of the prelude, so an out-of-range access is
    the outcome [Panic]. *)

From S2P Require Import Prelude Errors.

(** ** Definitions *)

Definition pageSize : Z := 4096.
Definition pageMagic : bytes := [Byte.x47; Byte.x44; Byte.x42; Byte.x54]. (* "GDBT" *)
Definition pageFormat : Z := 2.
Definition pageHeaderSize : Z := 16.
Definition pageOffsetSize : Z := 2.
Definition pagePtrSize : Z := 8.
Definition nodeTypeInternal : Z := 1.
Definition nodeTypeLeaf : Z := 2.
Definition maxKeySize : Z := 1000.
Definition maxValueSize : Z := 3000.

(** [make([]byte, n)]. *)
Definition make (n : Z) : bytes := replicate (Z.to_nat n) Byte.x00.

Definition btype (node : bytes) : res Z := getU 2 node 6.
Definition nkeys (node : bytes) : res Z := getU 2 node 8.

Definition setHeader (node : bytes) (nodeType keyCount : Z) : res bytes :=
  n1 <- put node 0 pageMagic ;;
  n2 <- putU 2 n1 4 pageFormat ;;
  n3 <- putU 2 n2 6 nodeType ;;
  putU 2 n3 8 keyCount.

Definition getPtr (node : bytes) (idx : Z) : res Z :=
  getU 8 node (pageHeaderSize + idx * pagePtrSize).
Definition setPtr (node : bytes) (idx pageID : Z) : res bytes :=
  putU 8 node (pageHeaderSize + idx * pagePtrSize) pageID.

Definition getOffset (node : bytes) (idx : Z) : res Z :=
  if idx =? 0 then Ok 0
  else
    n <- nkeys node ;;
    getU 2 node (pageHeaderSize + n * pagePtrSize + u16 (idx - 1) * pageOffsetSize).
Definition setOffset (node : bytes) (idx offset : Z) : res bytes :=
  n <- nkeys node ;;
  putU 2 node (pageHeaderSize + n * pagePtrSize + u16 (idx - 1) * pageOffsetSize) offset.

Definition kvPos (node : bytes) (idx : Z) : res Z :=
  n <- nkeys node ;;
  let metadataSize := pageHeaderSize + n * (pagePtrSize + pageOffsetSize) in
  off <- getOffset node idx ;;
  Ok (u16 (u16 metadataSize + off)).

Definition getKey (node : bytes) (idx : Z) : res bytes :=
  pos <- kvPos node idx ;;
  keySize <- getU 2 node pos ;;
  slice node (pos + 4) (pos + 4 + keySize).

Definition getVal (node : bytes) (idx : Z) : res bytes :=
  pos <- kvPos node idx ;;
  keySize <- getU 2 node pos ;;
  valueSize <- getU 2 node (pos + 2) ;;
  slice node (pos + 4 + keySize) (pos + 4 + keySize + valueSize).

Definition nbytes (node : bytes) : res Z :=
  n <- nkeys node ;; kvPos node n.

(** The node-type switch of [nodeAppendKV]. *)
Definition checkEntryType (nodeType idx pageID : Z) (value : bytes) : res unit :=
  if nodeType =? nodeTypeLeaf then
    fail_if negb (pageID =? 0) with ELeafEntryChild idx ;; Ok tt
  else if nodeType =? nodeTypeInternal then
    fail_if pageID =? 0 with EChildPageZero idx ;;
    fail_if negb (len value =? 0) with EInternalEntryValue idx ;; Ok tt
  else Err (errInvalidNodeType nodeType).

Definition nodeAppendKV (node : bytes) (idx pageID : Z) (key value : bytes) : res bytes :=
  n <- nkeys node ;;
  fail_if idx >=? n with EEntryIndex idx n ;;
  fail_if len key >? maxKeySize with EKeyExceeds idx ;;
  fail_if (len key =? 0) && negb (idx =? 0) with EKeyIsEmpty idx ;;
  fail_if (len key =? 0) && negb (len value =? 0) with ESentinelEntryValue ;;
  fail_if len value >? maxValueSize with EValueExceeds idx ;;
  ty <- btype node ;;
  _ <- checkEntryType ty idx pageID value ;;
  pos <- kvPos node idx ;;
  let recordSize := 4 + len key + len value in
  fail_if pos + recordSize >? len node with ENodeExceedsPage ;;
  n1 <- setPtr node idx pageID ;;
  n2 <- putU 2 n1 pos (u16 (len key)) ;;
  n3 <- putU 2 n2 (pos + 2) (u16 (len value)) ;;
  n4 <- copy_at n3 (pos + 4) key ;;
  n5 <- copy_at n4 (pos + 4 + len key) value ;;
  off <- getOffset n5 idx ;;
  setOffset n5 (u16 (idx + 1)) (u16 (off + u16 recordSize)).

(** The copy loop of [nodeAppendRange]; [i] runs from 0 to [count]. *)
Fixpoint nodeAppendRange_loop (todo : nat) (dst src : bytes) (dstStart srcStart i : Z) : res bytes :=
  match todo with
  | O => Ok dst
  | S todo =>
      p <- getPtr src (u16 (srcStart + i)) ;;
      k <- getKey src (u16 (srcStart + i)) ;;
      v <- getVal src (u16 (srcStart + i)) ;;
      dst' <- nodeAppendKV dst (u16 (dstStart + i)) p k v ;;
      nodeAppendRange_loop todo dst' src dstStart srcStart (i + 1)
  end.

Definition nodeAppendRange (dst src : bytes) (dstStart srcStart count : Z) : res bytes :=
  dn <- nkeys dst ;;
  sn <- nkeys src ;;
  fail_if (dstStart + count >? dn) || (srcStart + count >? sn) with EEntryRangeOutside ;;
  nodeAppendRange_loop (Z.to_nat count) dst src dstStart srcStart 0.

(** The decoded form of a node. *)
Record pageNode := {
  leaf : bool;
  keys : list bytes;
  values : list bytes;
  childPages : list Z;
}.

Definition pageNodeType (n : pageNode) : Z :=
  if leaf n then nodeTypeLeaf else nodeTypeInternal.

(** The first loop of [validateBNode]: child page ids against the node type. *)
Fixpoint validatePtrs (todo : nat) (node : bytes) (nodeType i : Z) : res unit :=
  match todo with
  | O => Ok tt
  | S todo =>
      pageID <- getU 8 node (pageHeaderSize + i * pagePtrSize) ;;
      fail_if (nodeType =? nodeTypeInternal) && (pageID =? 0) with EChildPageZero i ;;
      fail_if (nodeType =? nodeTypeLeaf) && negb (pageID =? 0) with ELeafEntryChild i ;;
      validatePtrs todo node nodeType (i + 1)
  end.

(** The second loop of [validateBNode]: offsets, records and key order. *)
Fixpoint validateRecords (todo : nat) (node : bytes) (nodeType keyCount recordStart i : Z)
    (previousOffset : Z) (previousKey : bytes) : res unit :=
  match todo with
  | O => Ok tt
  | S todo =>
      let offsetPos := pageHeaderSize + keyCount * pagePtrSize + i * pageOffsetSize in
      endOffset <- getU 2 node offsetPos ;;
      fail_if endOffset <? previousOffset with EOffsetBackward (i + 1) ;;
      fail_if recordStart + endOffset >? pageSize with EOffsetOutside (i + 1) ;;
      let recordPos := recordStart + previousOffset in
      let recordEnd := recordStart + endOffset in
      fail_if recordEnd - recordPos <? 4 with ERecordTooSmall i ;;
      keySize <- getU 2 node recordPos ;;
      valueSize <- getU 2 node (recordPos + 2) ;;
      fail_if (keySize =? 0) && negb (i =? 0) with ERecordEmptyKey i ;;
      fail_if (keySize =? 0) && negb (valueSize =? 0) with ESentinelRecordValue ;;
      fail_if keySize >? maxKeySize with ERecordKeyExceeds i ;;
      fail_if valueSize >? maxValueSize with ERecordValueExceeds i ;;
      fail_if (nodeType =? nodeTypeInternal) && negb (valueSize =? 0)
        with EInternalRecordValue i ;;
      fail_if negb (recordPos + 4 + keySize + valueSize =? recordEnd) with ERecordLength i ;;
      key <- slice node (recordPos + 4) (recordPos + 4 + keySize) ;;
      fail_if (i >? 0) && bleb key previousKey with EKeysNotSorted ;;
      validateRecords todo node nodeType keyCount recordStart (i + 1) endOffset key
  end.

Definition validateBNode (node : bytes) : res unit :=
  fail_if negb (len node =? pageSize) with errInvalidPageSize ;;
  magic <- slice node 0 4 ;;
  fail_if negb (beqb magic pageMagic) with errInvalidMagic ;;
  version <- getU 2 node 4 ;;
  fail_if negb (version =? pageFormat) with errInvalidVersion version ;;
  nodeType <- getU 2 node 6 ;;
  fail_if negb (nodeType =? nodeTypeLeaf) && negb (nodeType =? nodeTypeInternal)
    with errInvalidNodeType nodeType ;;
  keyCount <- getU 2 node 8 ;;
  let recordStart := pageHeaderSize + keyCount * (pagePtrSize + pageOffsetSize) in
  fail_if recordStart >? pageSize with EMetadataExceedsPage ;;
  _ <- validatePtrs (Z.to_nat keyCount) node nodeType 0 ;;
  validateRecords (Z.to_nat keyCount) node nodeType keyCount recordStart 0 0 [].

(** The key loop of [validatePageNode]; [prev] is [n.keys[i-1]]. *)
Fixpoint validateKeys (n : pageNode) (ks : list bytes) (i : Z) (prev : bytes) : res unit :=
  match ks with
  | [] => Ok tt
  | key :: ks =>
      fail_if (len key =? 0) && negb (i =? 0) with EKeyIsEmpty i ;;
      fail_if (len key =? 0) && leaf n &&
              match values n !! Z.to_nat i with Some v => negb (len v =? 0) | None => false end
        with ESentinelEntryValue ;;
      fail_if len key >? maxKeySize with EKeyExceeds i ;;
      fail_if (i >? 0) && bleb key prev with EKeysNotSorted ;;
      validateKeys n ks (i + 1) key
  end.
Fixpoint validateValues (vs : list bytes) (i : Z) : res unit :=
  match vs with
  | [] => Ok tt
  | v :: vs => fail_if len v >? maxValueSize with EValueExceeds i ;; validateValues vs (i + 1)
  end.
Fixpoint validateChildPages (cs : list Z) (i : Z) : res unit :=
  match cs with
  | [] => Ok tt
  | c :: cs => fail_if c =? 0 with EChildPageZero i ;; validateChildPages cs (i + 1)
  end.

(** [validatePageNode] takes a pointer; [None] is [nil]. *)
Definition validatePageNode (p : option pageNode) : res unit :=
  match p with
  | None => Err ENodeNil
  | Some n =>
  fail_if len (keys n) >? 65535 with ETooManyKeys ;;
  fail_if pageHeaderSize + len (keys n) * (pagePtrSize + pageOffsetSize) >? pageSize
    with EMetadataExceedsPage ;;
  _ <- validateKeys n (keys n) 0 [] ;;
  if leaf n then
    fail_if negb (len (values n) =? len (keys n))
      with ELeafValueCount (len (values n)) (len (keys n)) ;;
    fail_if negb (len (childPages n) =? 0) with ELeafChildPages ;;
    validateValues (values n) 0
  else
    fail_if negb (len (values n) =? 0) with EInternalValues ;;
    fail_if negb (len (childPages n) =? len (keys n))
      with EChildPageCount (len (childPages n)) (len (keys n)) ;;
    validateChildPages (childPages n) 0
  end.

Fixpoint encode_loop (n : pageNode) (ks : list bytes) (i : Z) (node : bytes) : res bytes :=
  match ks with
  | [] => Ok node
  | key :: ks =>
      value <- (if leaf n then index (values n) i else Ok []) ;;
      pageID <- (if leaf n then Ok 0 else index (childPages n) i) ;;
      node' <- nodeAppendKV node (u16 i) pageID key value ;;
      encode_loop n ks (i + 1) node'
  end.

Definition encodePageNode (p : option pageNode) : res bytes :=
  _ <- validatePageNode p ;;
  match p with None => Panic | Some n =>
  node0 <- setHeader (make pageSize) (pageNodeType n) (u16 (len (keys n))) ;;
  node <- encode_loop n (keys n) 0 node0 ;;
  _ <- validateBNode node ;;
  Ok node
  end.

Fixpoint decode_loop (todo : nat) (node : bytes) (isLeaf : bool) (i : Z) : res (list (bytes * bytes * Z)) :=
  match todo with
  | O => Ok []
  | S todo =>
      key <- getKey node (u16 i) ;;
      value <- (if isLeaf then getVal node (u16 i) else Ok []) ;;
      child <- (if isLeaf then Ok 0 else getPtr node (u16 i)) ;;
      rest <- decode_loop todo node isLeaf (i + 1) ;;
      Ok ((key, value, child) :: rest)
  end.

Definition decodePageNode (page : bytes) : res pageNode :=
  _ <- validateBNode page ;;
  keyCount <- nkeys page ;;
  ty <- btype page ;;
  let isLeaf := ty =? nodeTypeLeaf in
  es <- decode_loop (Z.to_nat keyCount) page isLeaf 0 ;;
  Ok {| leaf := isLeaf;
        keys := map (fun e => e.1.1) es;
        values := if isLeaf then map (fun e => e.1.2) es else [];
        childPages := if isLeaf then [] else map (fun e => e.2) es |}.

(** ** Nodes as entry lists

    The abstract view of an encoded node: its entries in order. *)

Record entry := mkEntry { e_ptr : Z; e_key : bytes; e_val : bytes }.

#[global] Instance entry_eq_dec : EqDecision entry.
Proof. solve_decision. Defined.

Definition rec_size (e : entry) : Z := 4 + len (e_key e) + len (e_val e).
Fixpoint recs_size (es : list entry) : Z :=
  match es with [] => 0 | e :: es => rec_size e + recs_size es end.
Definition enc_rec (e : entry) : bytes :=
  le_put 2 (len (e_key e)) ++ le_put 2 (len (e_val e)) ++ e_key e ++ e_val e.
(** Where the records of a node with [n] entries start. *)
Definition meta_size (n : Z) : Z := 16 + n * 10.
(** Bytes an encoded node with these entries occupies. *)
Definition node_size (es : list entry) : Z := meta_size (len es) + recs_size es.

(** The size and type constraints on one entry of a node of type [ty]. *)
Definition entry_ok (ty : Z) (e : entry) : Prop :=
  len (e_key e) <= maxKeySize /\ len (e_val e) <= maxValueSize /\
  (e_key e = [] -> e_val e = []) /\ 0 <= e_ptr e < 2 ^ 64 /\
  (ty = nodeTypeLeaf /\ e_ptr e = 0 \/ ty = nodeTypeInternal /\ e_ptr e <> 0 /\ e_val e = []).

(** [built b cap ty n es]: the slice [b] of length [cap] carries a header for
    [n] entries of type [ty], of which the first [length es] are written and
    are [es]. Bytes that no entry covers are unconstrained. *)
Record built (b : bytes) (cap ty n : Z) (es : list entry) : Prop := {
  built_len : len b = cap;
  built_cap : 10 <= cap <= 2 * pageSize;
  built_ty : 0 <= ty < 65536;
  built_magic : sub b 0 4 = pageMagic;
  built_format : sub b 4 2 = le_put 2 pageFormat;
  built_type : sub b 6 2 = le_put 2 ty;
  built_count : sub b 8 2 = le_put 2 n;
  built_n : len es <= n;
  built_fits : meta_size n + recs_size es <= cap;
  built_ptr : forall i e, es !! i = Some e ->
    sub b (16 + Z.of_nat i * 8) 8 = le_put 8 (e_ptr e);
  built_off : forall i e, es !! i = Some e ->
    sub b (16 + n * 8 + Z.of_nat i * 2) 2 = le_put 2 (recs_size (take (S i) es));
  built_rec : forall i e, es !! i = Some e ->
    sub b (meta_size n + recs_size (take i es)) (rec_size e) = enc_rec e;
  built_entries : Forall (entry_ok ty) es;
}.

(** A complete valid node: every declared entry is written, keys increase
    strictly and only the first may be the empty sentinel. *)
Record node_of (b : bytes) (cap ty : Z) (es : list entry) : Prop := {
  node_built : built b cap ty (len es) es;
  node_sorted : ssorted (map e_key es);
}.
Definition page_of (b : bytes) (ty : Z) (es : list entry) : Prop := node_of b pageSize ty es.

Lemma rec_size_pos e : 4 <= rec_size e.
Proof. unfold rec_size. pose proof (len_nonneg (e_key e)). pose proof (len_nonneg (e_val e)). lia. Qed.
Lemma recs_size_app es fs : recs_size (es ++ fs) = recs_size es + recs_size fs.
Proof. induction es; cbn; lia. Qed.
Lemma recs_size_nonneg es : 0 <= recs_size es.
Proof. induction es as [|e es IH]; cbn; [lia|]. pose proof (rec_size_pos e). lia. Qed.
Lemma recs_size_take_le es i : recs_size (take i es) <= recs_size es.
Proof.
  rewrite <- (take_drop i es) at 2. rewrite recs_size_app. pose proof (recs_size_nonneg (drop i es)). lia.
Qed.
Lemma recs_size_take_S es i e :
  es !! i = Some e -> recs_size (take (S i) es) = recs_size (take i es) + rec_size e.
Proof. intros H. rewrite (take_S_r _ _ _ H), recs_size_app. cbn. lia. Qed.
Lemma len_enc_rec e : len (enc_rec e) = rec_size e.
Proof. unfold enc_rec, rec_size. rewrite !len_app, !len_le_put. lia. Qed.

Lemma entry_ok_size ty e : entry_ok ty e -> 4 <= rec_size e <= 4004.
Proof.
  intros (?&?&_). split; [apply rec_size_pos|]. unfold rec_size, maxKeySize, maxValueSize in *. lia.
Qed.

Section Getters.
Context {b : bytes} {cap ty n : Z} {es : list entry} (B : built b cap ty n es).

(** The integer facts about a built node that [lia] needs. *)
Lemma built_bounds :
  0 <= n <= 817 /\ 0 <= recs_size es /\ 0 <= len es <= n /\
  meta_size n + recs_size es <= cap <= 8192 /\ len b = cap /\ 10 <= cap.
Proof.
  pose proof (built_len _ _ _ _ _ B). pose proof (built_cap _ _ _ _ _ B).
  pose proof (built_n _ _ _ _ _ B). pose proof (built_fits _ _ _ _ _ B).
  pose proof (recs_size_nonneg es). pose proof (len_nonneg es).
  unfold meta_size, pageSize in *. lia.
Qed.

Lemma built_lookup_bounds i e :
  es !! i = Some e ->
  Z.of_nat i < len es /\ 0 <= recs_size (take i es) /\
  recs_size (take i es) + rec_size e <= recs_size es.
Proof.
  intros H. pose proof (lookup_lt_Some _ _ _ H).
  pose proof (recs_size_take_S _ _ _ H). pose proof (recs_size_take_le es (S i)).
  pose proof (recs_size_nonneg (take i es)). unfold len. lia.
Qed.

Lemma built_nkeys : nkeys b = Ok n.
Proof.
  pose proof built_bounds. unfold nkeys. rewrite getU_ok by lia.
  change (Z.of_nat 2) with 2. rewrite (built_count _ _ _ _ _ B).
  rewrite le_get_put_small; [done|]. cbn. lia.
Qed.

Lemma built_btype : btype b = Ok ty.
Proof.
  pose proof built_bounds. pose proof (built_ty _ _ _ _ _ B). unfold btype. rewrite getU_ok by lia.
  change (Z.of_nat 2) with 2. rewrite (built_type _ _ _ _ _ B).
  rewrite le_get_put_small; [done|]. cbn. lia.
Qed.

Lemma built_getPtr i e : es !! i = Some e -> getPtr b (Z.of_nat i) = Ok (e_ptr e).
Proof.
  intros H. pose proof built_bounds. pose proof (built_lookup_bounds _ _ H).
  unfold getPtr, pageHeaderSize, pagePtrSize. unfold meta_size in *. rewrite getU_ok by lia.
  change (Z.of_nat 8) with 8. rewrite (built_ptr _ _ _ _ _ B _ _ H).
  rewrite le_get_put_small; [done|].
  pose proof (built_entries _ _ _ _ _ B) as He. rewrite Forall_lookup in He.
  destruct (He _ _ H) as (_&_&_&?&_). cbn. lia.
Qed.

Lemma built_getOffset i :
  (i <= length es)%nat -> getOffset b (Z.of_nat i) = Ok (recs_size (take i es)).
Proof.
  intros Hi. pose proof built_bounds. unfold getOffset.
  destruct i as [|i]; [done|]. zdecide.
  destruct (lookup_lt_is_Some_2 es i) as [e He]; [lia|].
  pose proof (built_lookup_bounds _ _ He).
  rewrite built_nkeys. rewrite u16_small by lia.
  unfold pageHeaderSize, pagePtrSize, pageOffsetSize. unfold meta_size in *.
  rewrite getU_ok by lia. replace (Z.of_nat (S i) - 1) with (Z.of_nat i) by lia.
  change (Z.of_nat 2) with 2. rewrite (built_off _ _ _ _ _ B _ _ He).
  rewrite le_get_put_small; [done|]. pose proof (recs_size_take_le es (S i)).
  pose proof (recs_size_nonneg (take (S i) es)). cbn. lia.
Qed.

Lemma built_kvPos i :
  (i <= length es)%nat -> kvPos b (Z.of_nat i) = Ok (meta_size n + recs_size (take i es)).
Proof.
  intros Hi. pose proof built_bounds. unfold kvPos. rewrite built_nkeys, built_getOffset by done.
  unfold pageHeaderSize, pagePtrSize, pageOffsetSize. unfold meta_size in *.
  pose proof (recs_size_take_le es i). pose proof (recs_size_nonneg (take i es)).
  rewrite !u16_small; [f_equal; lia|lia|]. rewrite u16_small by lia. lia.
Qed.

Lemma built_getOffset_end : getOffset b (len es) = Ok (recs_size es).
Proof. unfold len. rewrite built_getOffset by lia. by rewrite take_ge. Qed.
Lemma built_kvPos_end : kvPos b (len es) = Ok (meta_size n + recs_size es).
Proof. unfold len. rewrite built_kvPos by lia. by rewrite take_ge. Qed.

Lemma built_rec_sub i e lo m :
  es !! i = Some e -> 0 <= lo -> 0 <= m -> lo + m <= rec_size e ->
  sub b (meta_size n + recs_size (take i es) + lo) m = sub (enc_rec e) lo m.
Proof.
  intros H ???. rewrite <- (built_rec _ _ _ _ _ B _ _ H).
  pose proof built_bounds. pose proof (built_lookup_bounds _ _ H).
  rewrite sub_sub; [done|unfold meta_size in *; lia..].
Qed.

Lemma built_sizes i e :
  es !! i = Some e -> entry_ok ty e /\ 0 <= len (e_key e) <= 1000 /\ 0 <= len (e_val e) <= 3000.
Proof.
  intros H. pose proof (built_entries _ _ _ _ _ B) as He. rewrite Forall_lookup in He.
  pose proof (He _ _ H) as Hok. pose proof Hok as (?&?&_).
  pose proof (len_nonneg (e_key e)). pose proof (len_nonneg (e_val e)).
  unfold maxKeySize, maxValueSize in *. split; [done|lia].
Qed.

Lemma enc_rec_fields e :
  len (e_key e) < 65536 -> len (e_val e) < 65536 ->
  le_get (sub (enc_rec e) 0 2) = len (e_key e) /\
  le_get (sub (enc_rec e) 2 2) = len (e_val e) /\
  sub (enc_rec e) 4 (len (e_key e)) = e_key e /\
  sub (enc_rec e) (4 + len (e_key e)) (len (e_val e)) = e_val e.
Proof.
  intros Hk Hv. unfold enc_rec.
  pose proof (len_nonneg (e_key e)). pose proof (len_nonneg (e_val e)).
  assert (HA : forall z, len (le_put 2 z) = 2) by (intros; by rewrite len_le_put).
  assert (HS : forall z, 0 <= z < 65536 -> le_get (sub (le_put 2 z) 0 2) = z).
  { intros z Hz. pose proof (sub_all (le_put 2 z)) as S1. rewrite HA in S1. rewrite S1.
    apply le_get_put_small. cbn. lia. }
  split_and!.
  - rewrite sub_app_l by (rewrite ?HA; lia). apply HS. lia.
  - rewrite sub_app_r, HA by (rewrite ?HA; lia). rewrite sub_app_l by (rewrite ?HA; lia). apply HS. lia.
  - rewrite sub_app_r, HA by (rewrite ?HA; lia). rewrite sub_app_r, HA by (rewrite ?HA; lia).
    rewrite sub_app_l by lia. replace (4 - 2 - 2) with 0 by lia. apply sub_all.
  - rewrite sub_app_r, HA by (rewrite ?HA; lia). rewrite sub_app_r, HA by (rewrite ?HA; lia).
    rewrite sub_app_r by lia.
    replace (4 + len (e_key e) - 2 - 2 - len (e_key e)) with 0 by lia. apply sub_all.
Qed.

Lemma built_getKey i e : es !! i = Some e -> getKey b (Z.of_nat i) = Ok (e_key e).
Proof.
  intros H. pose proof built_bounds. pose proof (built_lookup_bounds _ _ H).
  destruct (built_sizes _ _ H) as (_ & Hk & Hv).
  destruct (enc_rec_fields e) as (F1 & F2 & F3 & F4); [lia..|].
  assert (Hs : rec_size e = 4 + len (e_key e) + len (e_val e)) by done.
  assert (0 <= meta_size n) by (unfold meta_size; lia).
  unfold getKey. rewrite built_kvPos by (apply lookup_lt_Some in H; lia).
  rewrite getU_ok by lia. change (Z.of_nat 2) with 2.
  rewrite <- (Z.add_0_r (meta_size n + _)), (built_rec_sub _ _ 0 2 H), F1 by lia.
  rewrite slice_ok by lia. f_equal.
  rewrite (Z.add_0_r (meta_size n + _)), (built_rec_sub _ _ 4 _ H) by lia.
  rewrite <- F3 at 2. f_equal. lia.
Qed.

Lemma built_getVal i e : es !! i = Some e -> getVal b (Z.of_nat i) = Ok (e_val e).
Proof.
  intros H. pose proof built_bounds. pose proof (built_lookup_bounds _ _ H).
  destruct (built_sizes _ _ H) as (_ & Hk & Hv).
  destruct (enc_rec_fields e) as (F1 & F2 & F3 & F4); [lia..|].
  assert (Hs : rec_size e = 4 + len (e_key e) + len (e_val e)) by done.
  assert (0 <= meta_size n) by (unfold meta_size; lia).
  unfold getVal. rewrite built_kvPos by (apply lookup_lt_Some in H; lia).
  rewrite !getU_ok by lia. change (Z.of_nat 2) with 2.
  rewrite (built_rec_sub _ _ 2 2 H), F2 by lia.
  rewrite <- (Z.add_0_r (meta_size n + _)), (built_rec_sub _ _ 0 2 H), F1 by lia.
  rewrite slice_ok by lia. f_equal.
  rewrite (Z.add_0_r (meta_size n + _)), <- (Z.add_assoc (meta_size n + _)), (built_rec_sub _ _ _ _ H) by lia.
  rewrite <- F4 at 2. f_equal. lia.
Qed.
End Getters.

Lemma built_nbytes b cap ty es : built b cap ty (len es) es -> nbytes b = Ok (node_size es).
Proof.
  intros B. unfold nbytes. rewrite (built_nkeys B). apply (built_kvPos_end B).
Qed.

(** ** Writing nodes *)

(** Steps through one write of the code: names the new slice and its effect. *)
Ltac write_step lem b' W :=
  let H := fresh in
  destruct lem as (b' & H & W); [..|rewrite H; clear H].

Lemma built_setHeader b cap ty n :
  len b = cap -> 10 <= cap <= 2 * pageSize -> 0 <= ty < 65536 -> 0 <= n -> meta_size n <= cap ->
  exists b', setHeader b ty n = Ok b' /\ built b' cap ty n [].
Proof.
  intros Hl Hc Ht Hn Hm. unfold setHeader, pageSize in *.
  assert (Hmag : len pageMagic = 4) by done.
  assert (H2 : forall z, len (le_put 2 z) = 2) by (intros; by rewrite len_le_put).
  write_step (@put_wrote error _ b 0 pageMagic) b1 W1; [lia..|].
  write_step (@putU_wrote error 2 b1 4 pageFormat) b2 W2; [|rewrite (wrote_len _ _ _ _ W1)|]; [lia..|].
  pose proof (wrote_len _ _ _ _ W1) as L1. pose proof (wrote_len _ _ _ _ W2) as L2.
  write_step (@putU_wrote error 2 b2 6 ty) b3 W3; [lia..|].
  pose proof (wrote_len _ _ _ _ W3) as L3.
  destruct (@putU_wrote error 2 b3 8 n) as (b4 & -> & W4); [lia..|].
  pose proof (wrote_len _ _ _ _ W4) as L4.
  exists b4. split; [done|].
  pose proof (wrote_eq _ _ _ _ W1) as E1. pose proof (wrote_eq _ _ _ _ W2) as E2.
  pose proof (wrote_eq _ _ _ _ W3) as E3. pose proof (wrote_eq _ _ _ _ W4) as E4.
  rewrite ?H2, ?Hmag in *.
  pose proof (wrote_ne _ _ _ _ W2) as N2. pose proof (wrote_ne _ _ _ _ W3) as N3.
  pose proof (wrote_ne _ _ _ _ W4) as N4. rewrite H2 in *.
  split; try done; try (cbn; lia); try (constructor); try (by intros ?? ?%lookup_nil_Some).
  - rewrite N4, N3, N2 by lia. done.
  - rewrite N4, N3 by lia. done.
  - rewrite N4 by lia. done.
Qed.

Lemma checkEntryType_ok ty idx e :
  entry_ok ty e -> checkEntryType ty idx (e_ptr e) (e_val e) = Ok tt.
Proof.
  intros (_&_&_&_&[[-> ->]|(-> & ? & ->)]); unfold checkEntryType.
  - done.
  - unfold nodeTypeInternal, nodeTypeLeaf. cbn. by zdecide.
Qed.

(** The guards of [nodeAppendKV] pass for an admissible entry at the next free
    position; only the space check is left. *)
Lemma nodeAppendKV_guards b cap ty n es e :
  built b cap ty n es -> len es < n -> entry_ok ty e -> (e_key e = [] -> es = []) ->
  nodeAppendKV b (len es) (e_ptr e) (e_key e) (e_val e) =
  (fail_if meta_size n + recs_size es + rec_size e >? cap with ENodeExceedsPage ;;
   n1 <- setPtr b (len es) (e_ptr e) ;;
   n2 <- putU 2 n1 (meta_size n + recs_size es) (u16 (len (e_key e))) ;;
   n3 <- putU 2 n2 (meta_size n + recs_size es + 2) (u16 (len (e_val e))) ;;
   n4 <- copy_at n3 (meta_size n + recs_size es + 4) (e_key e) ;;
   n5 <- copy_at n4 (meta_size n + recs_size es + 4 + len (e_key e)) (e_val e) ;;
   off <- getOffset n5 (len es) ;;
   setOffset n5 (u16 (len es + 1)) (u16 (off + u16 (rec_size e)))).
Proof.
  intros B Hn He Hs. pose proof (built_bounds B). unfold nodeAppendKV.
  rewrite (built_nkeys B), (built_btype B).
  pose proof He as (Hk & Hv & Hsv & _ & _). zdecide.
  rewrite checkEntryType_ok by done.
  rewrite (built_kvPos_end B).
  rewrite (built_len _ _ _ _ _ B), ?Z.gtb_ltb. unfold rec_size.
  destruct (len (e_key e) =? 0) eqn:Hk0; zbool; cbn [andb negb]; [|done].
  apply len_0 in Hk0. rewrite (Hsv Hk0), (Hs Hk0). done.
Qed.

Lemma nodeAppendKV_overflow b cap ty n es e :
  built b cap ty n es -> len es < n -> entry_ok ty e -> (e_key e = [] -> es = []) ->
  cap < meta_size n + recs_size es + rec_size e ->
  nodeAppendKV b (len es) (e_ptr e) (e_key e) (e_val e) = Err ENodeExceedsPage.
Proof. intros B ????. rewrite (nodeAppendKV_guards b cap ty n es e) by done. by zdecide. Qed.

(** The four writes of a record amount to writing its encoding. *)
Lemma write_record {A} b pos e (k : bytes -> res A) :
  0 <= pos -> pos + rec_size e <= len b -> len (e_key e) < 65536 -> len (e_val e) < 65536 ->
  exists b', wrote b pos (enc_rec e) b' /\
  (n2 <- putU 2 b pos (u16 (len (e_key e))) ;;
   n3 <- putU 2 n2 (pos + 2) (u16 (len (e_val e))) ;;
   n4 <- copy_at n3 (pos + 4) (e_key e) ;;
   n5 <- copy_at n4 (pos + 4 + len (e_key e)) (e_val e) ;;
   k n5) = k b'.
Proof.
  intros Hp Hfit Hk Hv. unfold rec_size in *.
  pose proof (len_nonneg (e_key e)). pose proof (len_nonneg (e_val e)).
  assert (H2 : forall z, len (le_put 2 z) = 2) by (intros; by rewrite len_le_put).
  write_step (@putU_wrote error 2 b pos (u16 (len (e_key e)))) b2 W2; [lia..|].
  destruct W2 as [L2 E2 N2].
  write_step (@putU_wrote error 2 b2 (pos + 2) (u16 (len (e_val e)))) b3 W3; [lia..|].
  destruct W3 as [L3 E3 N3].
  write_step (@copy_wrote error _ b3 (pos + 4) (e_key e)) b4 W4; [lia..|].
  destruct W4 as [L4 E4 N4].
  write_step (@copy_wrote error _ b4 (pos + 4 + len (e_key e)) (e_val e)) b5 W5; [lia..|].
  destruct W5 as [L5 E5 N5]. exists b5. split; [|done].
  rewrite ?H2, ?u16_small in * by lia. split; rewrite ?len_enc_rec; unfold rec_size; [lia|..].
  - replace (4 + len (e_key e) + len (e_val e)) with (2 + (2 + (len (e_key e) + len (e_val e)))) by lia.
    rewrite !sub_split by lia. unfold enc_rec.
    replace (pos + 2 + 2) with (pos + 4) by lia. rewrite E5.
    rewrite N5, N4, N3, E2 by lia. rewrite N5, N4, E3 by lia. rewrite N5, E4 by lia. done.
  - intros p m ???. rewrite N5, N4, N3, N2 by lia. done.
Qed.

(** A node grows by one entry when its pointer, offset and record are in place
    and nothing else changed. *)
Lemma built_snoc b b' cap ty n es e :
  built b cap ty n es -> len b' = cap -> len es < n -> entry_ok ty e ->
  meta_size n + recs_size es + rec_size e <= cap ->
  (forall p m, 0 <= p -> 0 <= m ->
    p + m <= 16 + len es * 8 \/ 16 + len es * 8 + 8 <= p ->
    p + m <= 16 + n * 8 + len es * 2 \/ 16 + n * 8 + len es * 2 + 2 <= p ->
    p + m <= meta_size n + recs_size es -> sub b' p m = sub b p m) ->
  sub b' (16 + len es * 8) 8 = le_put 8 (e_ptr e) ->
  sub b' (16 + n * 8 + len es * 2) 2 = le_put 2 (recs_size es + rec_size e) ->
  sub b' (meta_size n + recs_size es) (rec_size e) = enc_rec e ->
  built b' cap ty n (es ++ [e]).
Proof.
  intros B Hl Hn He Hfit F Hptr Hoff Hrec. pose proof (built_bounds B) as Hb.
  pose proof B as []. unfold meta_size in *.
  assert (Hcase : forall i x, (es ++ [e]) !! i = Some x ->
    es !! i = Some x /\ (i < length es)%nat \/ i = length es /\ x = e).
  { intros i x Hi. apply lookup_snoc_Some in Hi as [[??]|[??]]; naive_solver. }
  split; try done; try (rewrite F by lia; done).
  - rewrite len_app. unfold len at 2. cbn. lia.
  - rewrite recs_size_app. cbn. unfold meta_size. lia.
  - intros i x [[Hi ?]|[-> ->]]%Hcase; [|done].
    unfold len in *. rewrite F by lia. eauto.
  - intros i x [[Hi ?]|[-> ->]]%Hcase.
    + rewrite take_app_le by lia. unfold len in *. rewrite F by lia. eauto.
    + rewrite take_ge by (rewrite length_app; cbn; lia). rewrite recs_size_app. cbn [recs_size].
      rewrite Z.add_0_r. done.
  - intros i x [[Hi ?]|[-> ->]]%Hcase.
    + rewrite take_app_le by lia. pose proof (built_lookup_bounds _ _ Hi).
      pose proof (rec_size_pos x). unfold meta_size in *. rewrite F by lia. eauto.
    + rewrite take_app_length. done.
  - apply Forall_app. auto.
Qed.

(** Untouched bytes below a node's used region keep its entries. *)
Lemma built_frame b b' cap ty n es :
  built b cap ty n es -> len b' = cap -> len es < n ->
  (forall p m, 0 <= p -> 0 <= m -> p + m <= meta_size n + recs_size es ->
    p + m <= 16 + len es * 8 \/ 16 + len es * 8 + 8 <= p -> sub b' p m = sub b p m) ->
  built b' cap ty n es.
Proof.
  intros B Hl Hn F. pose proof (built_bounds B) as Hb. pose proof B as []. unfold meta_size in *.
  split; try done; try (rewrite F by lia; done).
  - intros i x Hi. pose proof (built_lookup_bounds _ _ Hi). rewrite F by lia. eauto.
  - intros i x Hi. pose proof (built_lookup_bounds _ _ Hi). rewrite F by lia. eauto.
  - intros i x Hi. pose proof (built_lookup_bounds _ _ Hi). pose proof (rec_size_pos x).
    unfold meta_size in *. rewrite F by lia. eauto.
Qed.

Lemma built_append b cap ty n es e :
  built b cap ty n es -> len es < n -> entry_ok ty e -> (e_key e = [] -> es = []) ->
  meta_size n + recs_size es + rec_size e <= cap ->
  exists b', nodeAppendKV b (len es) (e_ptr e) (e_key e) (e_val e) = Ok b' /\
    built b' cap ty n (es ++ [e]).
Proof.
  intros B Hn He Hs Hfit. pose proof (built_bounds B) as Hb.
  rewrite (nodeAppendKV_guards b cap ty n es e) by done. zdecide.
  pose proof He as (Hk & Hv & _ & Hp & _). unfold maxKeySize, maxValueSize, meta_size in *.
  pose proof (rec_size_pos e). unfold setPtr, pageHeaderSize, pagePtrSize.
  write_step (@putU_wrote error 8 b (16 + len es * 8) (e_ptr e)) b1 W1; [lia..|].
  destruct W1 as [L1 E1 N1]. rewrite len_le_put in E1, N1.
  destruct (write_record b1 (16 + n * 10 + recs_size es) e
    (fun n5 => off <- getOffset n5 (len es) ;;
       setOffset n5 (u16 (len es + 1)) (u16 (off + u16 (rec_size e))))) as (b5 & W5 & ->); [lia..|].
  destruct W5 as [L5 E5 N5]. rewrite len_enc_rec in E5, N5.
  assert (B5 : built b5 cap ty n es).
  { apply (built_frame b); [done|lia|done|]. unfold meta_size. intros. rewrite N5, N1 by lia. done. }
  rewrite (built_getOffset_end B5). unfold setOffset. rewrite (built_nkeys B5).
  rewrite (u16_small (len es + 1)) by lia. replace (len es + 1 - 1) with (len es) by lia.
  rewrite (u16_small (len es)), (u16_small (rec_size e)), (u16_small (recs_size es + _)) by lia.
  unfold pageHeaderSize, pagePtrSize, pageOffsetSize.
  destruct (@putU_wrote error 2 b5 (16 + n * 8 + len es * 2) (recs_size es + rec_size e))
    as (b6 & -> & [L6 E6 N6]); [lia..|]. rewrite len_le_put in E6, N6.
  exists b6. split; [done|]. cbn in E1, N1, E6, N6.
  apply (built_snoc b); try done; try lia; unfold meta_size.
  - intros. rewrite N6, N5, N1 by lia. done.
  - rewrite N6, N5 by lia. done.
  - rewrite N6 by lia. done.
Qed.

(** ** Appending runs of entries

    [appended dst cap ty n es fs r]: [r] is the result of appending the entries
    [fs] to a node that already holds [es]: the longer node when it fits, the
    overflow error otherwise. Never a panic. *)
Definition appended (cap ty n : Z) (es fs : list entry) (r : res bytes) : Prop :=
  if meta_size n + recs_size (es ++ fs) <=? cap
  then exists b', r = Ok b' /\ built b' cap ty n (es ++ fs)
  else r = Err ENodeExceedsPage.

Lemma appended_ok cap ty n es fs r :
  appended cap ty n es fs r -> meta_size n + recs_size (es ++ fs) <= cap ->
  exists b', r = Ok b' /\ built b' cap ty n (es ++ fs).
Proof. unfold appended. intros H ?. by rewrite (proj2 (Z.leb_le _ _)) in H by done. Qed.

(** Sequencing two appends. *)
Lemma appended_bind cap ty n es fs gs r (k : bytes -> res bytes) :
  appended cap ty n es fs r ->
  (forall b, built b cap ty n (es ++ fs) -> appended cap ty n (es ++ fs) gs (k b)) ->
  appended cap ty n es (fs ++ gs) (b <- r ;; k b).
Proof.
  unfold appended. intros Hr Hk. rewrite (app_assoc es), (recs_size_app (es ++ fs)).
  pose proof (recs_size_nonneg gs).
  destruct (meta_size n + recs_size (es ++ fs) <=? cap) eqn:C; zbool.
  - destruct Hr as (b & -> & B). specialize (Hk b B).
    rewrite recs_size_app in Hk. destruct (_ <=? cap); done.
  - rewrite Hr. by zdecide.
Qed.

Lemma sentinel_first es e fs :
  ssorted (map e_key (es ++ e :: fs)) -> e_key e = [] -> es = [].
Proof.
  intros Hs He. destruct es as [|x es]; [done|exfalso].
  cbn in Hs. apply ssorted_cons in Hs as [_ Hs].
  apply (not_blt_nil (e_key x)). rewrite <- He. apply Hs.
  rewrite map_app, elem_of_app. right. left.
Qed.

Lemma nodeAppendKV_appended b cap ty n es e fs :
  built b cap ty n es -> len es < n -> entry_ok ty e -> ssorted (map e_key (es ++ e :: fs)) ->
  appended cap ty n es [e] (nodeAppendKV b (len es) (e_ptr e) (e_key e) (e_val e)).
Proof.
  intros B Hn He Hs. unfold appended. rewrite recs_size_app. cbn [recs_size]. rewrite Z.add_0_r.
  pose proof (sentinel_first _ _ _ Hs).
  destruct (meta_size n + (recs_size es + rec_size e) <=? cap) eqn:C; zbool.
  - apply built_append; auto. lia.
  - eapply nodeAppendKV_overflow; eauto. lia.
Qed.

Lemma drop_cons_lookup {A} (l : list A) (s : nat) x r :
  drop s l = x :: r -> l !! s = Some x /\ drop (S s) l = r.
Proof.
  intros H. split.
  - rewrite <- (Nat.add_0_r s), <- lookup_drop, H. done.
  - replace (S s) with (s + 1)%nat by lia. rewrite <- drop_drop, H. done.
Qed.

Lemma nodeAppendRange_loop_appended todo dst src cap cap' ty ty' n m es ss (i s : nat) d :
  built dst cap ty n es -> built src cap' ty' m ss ->
  len es = d + Z.of_nat i -> 0 <= d -> len es + Z.of_nat todo <= n ->
  (s + i + todo <= length ss)%nat ->
  Forall (entry_ok ty) (take todo (drop (s + i) ss)) ->
  ssorted (map e_key (es ++ take todo (drop (s + i) ss))) ->
  appended cap ty n es (take todo (drop (s + i) ss))
    (nodeAppendRange_loop todo dst src d (Z.of_nat s) (Z.of_nat i)).
Proof.
  revert dst es i. induction todo as [|todo IH]; intros dst es i B BS Hd Hd0 Hn Hlen Hok Hs.
  - cbn [take nodeAppendRange_loop]. unfold appended. rewrite app_nil_r.
    pose proof (built_bounds B). zdecide. eauto.
  - destruct (drop (s + i) ss) as [|e rest] eqn:Hdrop.
    { exfalso. apply (f_equal length) in Hdrop. rewrite length_drop in Hdrop. cbn in Hdrop. lia. }
    apply drop_cons_lookup in Hdrop as [He Hrest].
    cbn [take nodeAppendRange_loop] in *. pose proof (built_bounds B). pose proof (built_bounds BS) as Hbs.
    assert (0 <= Z.of_nat s + Z.of_nat i < 65536) by (unfold len in Hbs; lia).
    rewrite !u16_small by lia. rewrite <- Nat2Z.inj_add.
    rewrite (built_getPtr BS _ _ He), (built_getKey BS _ _ He), (built_getVal BS _ _ He).
    apply Forall_cons in Hok as [Hoke Hok].
    change (e :: take todo rest) with ([e] ++ take todo rest).
    replace (d + Z.of_nat i) with (len es) by lia.
    apply appended_bind; [by eapply nodeAppendKV_appended; eauto; lia|].
    intros b' B'. replace (Z.of_nat i + 1) with (Z.of_nat (S i)) by lia.
    rewrite <- Hrest. replace (S (s + i)) with (s + S i)%nat by lia.
    assert (len (es ++ [e]) = len es + 1) by (by rewrite len_app).
    apply IH; try done; try lia; replace (s + S i)%nat with (S (s + i)) by lia; rewrite Hrest; [done|].
    rewrite <- app_assoc. done.
Qed.

(** [nodeAppendRange] copies [count] entries of [src], from index [s] on, to the
    end of [dst]. *)
Lemma nodeAppendRange_appended dst src cap cap' ty ty' n es ss (s count : nat) :
  built dst cap ty n es -> built src cap' ty' (len ss) ss ->
  len es + Z.of_nat count <= n -> (s + count <= length ss)%nat ->
  Forall (entry_ok ty) (take count (drop s ss)) ->
  ssorted (map e_key (es ++ take count (drop s ss))) ->
  appended cap ty n es (take count (drop s ss))
    (nodeAppendRange dst src (len es) (Z.of_nat s) (Z.of_nat count)).
Proof.
  intros B BS Hn Hlen Hok Hs. unfold nodeAppendRange.
  rewrite (built_nkeys B), (built_nkeys BS).
  assert (Z.of_nat s + Z.of_nat count <= len ss) by (unfold len; lia). zdecide.
  rewrite Nat2Z.id. change 0 with (Z.of_nat 0).
  pose proof (nodeAppendRange_loop_appended count dst src cap cap' ty ty' n (len ss) es ss 0 s (len es)) as L.
  rewrite Nat.add_0_r in L. pose proof (len_nonneg es). apply L; auto; lia.
Qed.

(** ** [validateBNode] accepts exactly the valid pages *)

(** Re-encoding a 16-bit field read from a page gives the bytes read. *)
Lemma read_u16 b q :
  0 <= q -> q + 2 <= len b ->
  0 <= le_get (sub b q 2) < 65536 /\ le_put 2 (le_get (sub b q 2)) = sub b q 2.
Proof.
  intros ??. pose proof (le_get_bound (sub b q 2)) as Hb. pose proof (len_sub b q 2) as L.
  rewrite L in Hb by lia. split; [cbn in Hb; lia|].
  rewrite <- (le_put_get (sub b q 2)) at 2. f_equal. unfold len in *. lia.
Qed.

Lemma le_get_sub_put n b pos z :
  sub b pos (Z.of_nat n) = le_put n z -> 0 <= z < 256 ^ Z.of_nat n ->
  le_get (sub b pos (Z.of_nat n)) = z.
Proof. intros -> ?. by apply le_get_put_small. Qed.

Lemma entry_ok_type ty e : entry_ok ty e -> ty = nodeTypeLeaf \/ ty = nodeTypeInternal.
Proof. intros (_&_&_&_&[[-> _]|[-> _]]); auto. Qed.

Lemma validatePtrs_complete b cap ty n es todo i :
  built b cap ty n es -> (i + todo = length es)%nat ->
  validatePtrs todo b ty (Z.of_nat i) = Ok tt.
Proof.
  intros B. revert i. induction todo as [|todo IH]; intros i Hi; [done|]. cbn [validatePtrs].
  destruct (lookup_lt_is_Some_2 es i) as [e He]; [lia|].
  change (getU 8 b _) with (getPtr b (Z.of_nat i)). rewrite (built_getPtr B _ _ He).
  destruct (built_sizes B _ _ He) as [(_&_&_&_&Hty) _].
  replace (Z.of_nat i + 1) with (Z.of_nat (S i)) by lia. rewrite IH by lia.
  unfold nodeTypeInternal, nodeTypeLeaf in *.
  destruct Hty as [[-> ->]|(-> & Hp & _)]; cbn; [done|]. by zdecide.
Qed.

Lemma ssorted_lookup_S ks i a b :
  ssorted ks -> ks !! i = Some a -> ks !! S i = Some b -> blt a b.
Proof.
  intros Hs Ha Hb. rewrite <- (take_drop_middle _ _ _ Ha) in Hs.
  apply ssorted_app in Hs as (_ & Hs & _). apply ssorted_cons in Hs as [_ Hs].
  apply Hs. apply list_elem_of_lookup. exists 0%nat. rewrite lookup_drop, Nat.add_0_r. done.
Qed.

Lemma validateRecords_complete b ty es todo i prev :
  page_of b ty es -> (i + todo = length es)%nat ->
  (forall j, i = S j -> map e_key es !! j = Some prev) ->
  validateRecords todo b ty (len es) (meta_size (len es)) (Z.of_nat i)
    (recs_size (take i es)) prev = Ok tt.
Proof.
  intros [B Hs]. revert i prev. induction todo as [|todo IH]; intros i prev Hi Hprev; [done|].
  destruct (lookup_lt_is_Some_2 es i) as [e He]; [lia|]. cbn [validateRecords].
  pose proof (built_bounds B). pose proof (built_lookup_bounds _ _ He).
  destruct (built_sizes B _ _ He) as (Hok & Hk & Hv). pose proof Hok as (_&_&Hsv&_&Hty).
  destruct (enc_rec_fields e) as (F1 & F2 & F3 & F4); [lia..|].
  assert (Hr : rec_size e = 4 + len (e_key e) + len (e_val e)) by done.
  pose proof (recs_size_take_S _ _ _ He) as HS.
  unfold pageHeaderSize, pagePtrSize, pageOffsetSize, pageSize in *.
  assert (Hm : meta_size (len es) = 16 + len es * 10) by done.
  rewrite getU_ok by lia. rewrite (le_get_sub_put 2 b _ _ (built_off _ _ _ _ _ B _ _ He)) by (cbn; lia).
  rewrite HS. zdecide. rewrite !getU_ok by lia. change (Z.of_nat 2) with 2.
  rewrite (built_rec_sub B _ _ 2 2 He), F2 by lia.
  rewrite <- (Z.add_0_r (meta_size (len es) + _)), (built_rec_sub B _ _ 0 2 He), F1 by lia.
  rewrite Z.add_0_r. rewrite slice_ok by lia.
  replace (_ - _) with (len (e_key e)) by lia. rewrite (built_rec_sub B _ _ 4 _ He), F3 by lia.
  unfold maxKeySize, maxValueSize. zdecide.
  assert (S0 : (len (e_key e) =? 0) && negb (Z.of_nat i =? 0) = false).
  { destruct (len (e_key e) =? 0) eqn:Ek; [|done]. zbool. apply len_0 in Ek.
    rewrite <- (take_drop_middle _ _ _ He) in Hs. apply sentinel_first in Hs; [|done].
    apply (f_equal length) in Hs. rewrite length_take in Hs. cbn in Hs. by zdecide. }
  assert (S1 : (len (e_key e) =? 0) && negb (len (e_val e) =? 0) = false).
  { destruct (len (e_key e) =? 0) eqn:Ek; [|done]. zbool. apply len_0, Hsv in Ek. by rewrite Ek. }
  assert (S2 : (ty =? nodeTypeInternal) && negb (len (e_val e) =? 0) = false).
  { destruct Hty as [[-> _]|(-> & _ & ->)]; done. }
  assert (S3 : (0 <? Z.of_nat i) && bleb (e_key e) prev = false).
  { destruct i as [|j]; [done|]. assert (Hlt : blt prev (e_key e)).
    { eapply ssorted_lookup_S; [done|by apply Hprev|]. by rewrite list_lookup_fmap, He. }
    apply andb_false_iff. right. border. }
  rewrite S0, S1, S2, S3.
  replace (Z.of_nat i + 1) with (Z.of_nat (S i)) by lia. rewrite <- HS. apply IH; [lia|].
  intros j [= <-]. by rewrite list_lookup_fmap, He.
Qed.

Lemma page_of_nonempty_type b ty es :
  page_of b ty es -> es <> [] -> ty = nodeTypeLeaf \/ ty = nodeTypeInternal.
Proof.
  intros [B _] Hne. destruct es as [|e es]; [done|].
  apply (entry_ok_type ty e), (built_sizes B 0). done.
Qed.

Lemma validateBNode_complete b ty es :
  page_of b ty es -> ty = nodeTypeLeaf \/ ty = nodeTypeInternal -> validateBNode b = Ok tt.
Proof.
  intros P Hty. pose proof P as [B Hs]. pose proof (built_bounds B) as Hb. unfold validateBNode.
  unfold pageSize in *. zdecide. rewrite slice_ok by lia.
  replace (4 - 0) with 4 by lia. rewrite (built_magic _ _ _ _ _ B), beqb_refl. cbn [negb].
  change (getU 2 b 6) with (btype b). change (getU 2 b 8) with (nkeys b).
  rewrite getU_ok by lia. rewrite (le_get_sub_put 2 _ _ _ (built_format _ _ _ _ _ B)) by (unfold pageFormat; cbn; lia).
  rewrite (built_btype B), (built_nkeys B).
  assert (C : negb (ty =? nodeTypeLeaf) && negb (ty =? nodeTypeInternal) = false)
    by (destruct Hty as [-> | ->]; done).
  rewrite C. cbn [negb pageFormat Z.eqb Pos.eqb].
  change (pageHeaderSize + len es * (pagePtrSize + pageOffsetSize)) with (meta_size (len es)).
  zdecide. replace (Z.to_nat (len es)) with (length es) by (unfold len; lia).
  rewrite (validatePtrs_complete _ _ _ _ _ (length es) 0 B : _ -> validatePtrs _ _ _ 0 = _) by lia.
  apply (validateRecords_complete b ty es (length es) 0 []); [done|lia|done].
Qed.

(** Validating arbitrary bytes never reads outside them. *)
Lemma validatePtrs_total b ty todo : forall i,
  0 <= i -> 16 + (i + Z.of_nat todo) * 8 <= len b -> gives (validatePtrs todo b ty i) (fun _ => True).
Proof.
  induction todo as [|todo IH]; intros i Hi Hl; cbn [validatePtrs]; [done|].
  eapply gives_bind; [apply getU_gives; unfold pageHeaderSize, pagePtrSize; lia|]. intros p _.
  do 2 (apply gives_guard; intros _). apply IH; lia.
Qed.
Lemma validateRecords_total b ty n todo : forall i off prev,
  len b = pageSize -> 0 <= i -> n = i + Z.of_nat todo -> 0 <= off -> meta_size n <= pageSize ->
  gives (validateRecords todo b ty n (meta_size n) i off prev) (fun _ => True).
Proof.
  unfold meta_size, pageSize.
  induction todo as [|todo IH]; intros i off prev Hl Hi Hn Hoff Hm; cbn [validateRecords]; [done|].
  eapply gives_bind; [apply getU_gives; unfold pageHeaderSize, pagePtrSize, pageOffsetSize; lia|].
  intros eo Heo. do 3 (apply gives_guard; intros ?). unfold pageSize in *. zbool. cbn beta in *.
  eapply gives_bind; [apply getU_gives; lia|]. intros ks Hks.
  eapply gives_bind; [apply getU_gives; lia|]. intros vs Hvs. cbn beta in *.
  do 6 (apply gives_guard; intros ?). zbool.
  eapply gives_bind; [apply slice_gives; lia|]. intros key _. apply gives_guard. intros _.
  apply IH; lia.
Qed.
Lemma validateBNode_total b : gives (validateBNode b) (fun _ => True).
Proof.
  unfold validateBNode. apply gives_guard. intros Hl. zbool. unfold pageSize in Hl.
  eapply gives_bind; [apply slice_gives; lia|]. intros m _. apply gives_guard. intros _.
  eapply gives_bind; [apply getU_gives; lia|]. intros v _. apply gives_guard. intros _.
  eapply gives_bind; [apply getU_gives; lia|]. intros ty _. apply gives_guard. intros _.
  eapply gives_bind; [apply getU_gives; lia|]. intros n Hn. apply gives_guard. intros Hr.
  change (pageHeaderSize + n * (pagePtrSize + pageOffsetSize)) with (meta_size n) in *.
  zbool. cbn beta in *. unfold meta_size, pageSize in Hr.
  eapply gives_bind; [apply validatePtrs_total; lia|]. intros _ _.
  apply validateRecords_total; unfold meta_size, pageSize; lia.
Qed.

Lemma validatePtrs_sound b ty todo i :
  validatePtrs todo b ty (Z.of_nat i) = Ok tt -> 16 + Z.of_nat (i + todo) * 8 <= len b ->
  forall j, (i <= j < i + todo)%nat ->
    let p := le_get (sub b (16 + Z.of_nat j * 8) 8) in
    (ty = nodeTypeInternal -> p <> 0) /\ (ty = nodeTypeLeaf -> p = 0).
Proof.
  revert i. induction todo as [|todo IH]; intros i H Hl j Hj; [lia|]. cbn [validatePtrs] in H.
  unfold pageHeaderSize, pagePtrSize in *. rewrite getU_ok in H by lia.
  change (Z.of_nat 8) with 8 in H.
  destruct ((ty =? nodeTypeInternal) && _) eqn:C1; [done|].
  destruct ((ty =? nodeTypeLeaf) && _) eqn:C2; [done|].
  destruct (decide (j = i)) as [->|Hne].
  - apply andb_false_iff in C1, C2. split; intros ->.
    + destruct C1 as [C1|C1]; [done|]. by zbool.
    + destruct C2 as [C2|C2]; [done|]. by zbool.
  - replace (Z.of_nat i + 1) with (Z.of_nat (S i)) in H by lia. apply (IH (S i)); [done|lia..].
Qed.

(** What the record loop establishes about the entries from [i] on. *)
Record records_at (b : bytes) (ty n i off : Z) (fs : list entry) : Prop := {
  ra_off : forall j e, fs !! j = Some e ->
    sub b (16 + n * 8 + (i + Z.of_nat j) * 2) 2 = le_put 2 (off + recs_size (take (S j) fs));
  ra_rec : forall j e, fs !! j = Some e ->
    sub b (meta_size n + off + recs_size (take j fs)) (rec_size e) = enc_rec e;
  ra_ptr : forall j e, fs !! j = Some e -> e_ptr e = le_get (sub b (16 + (i + Z.of_nat j) * 8) 8);
  ra_sizes : Forall (fun e => len (e_key e) <= maxKeySize /\ len (e_val e) <= maxValueSize /\
    (e_key e = [] -> e_val e = []) /\ (ty = nodeTypeInternal -> e_val e = [])) fs;
  ra_fits : meta_size n + off + recs_size fs <= pageSize;
  ra_sorted : ssorted (map e_key fs);
}.

Lemma sub_record b pos ks vs :
  0 <= pos -> pos + 4 + ks + vs <= len b -> 0 <= ks < 65536 -> 0 <= vs < 65536 ->
  le_get (sub b pos 2) = ks -> le_get (sub b (pos + 2) 2) = vs ->
  let e p := mkEntry p (sub b (pos + 4) ks) (sub b (pos + 4 + ks) vs) in
  forall p, rec_size (e p) = 4 + ks + vs /\ sub b pos (rec_size (e p)) = enc_rec (e p).
Proof.
  intros ? Hl Hk Hv Ek Ev e p.
  assert (Hs : rec_size (e p) = 4 + ks + vs).
  { unfold rec_size, e. cbn. rewrite !len_sub by lia. done. }
  split; [done|]. rewrite Hs. unfold enc_rec, e. cbn [e_key e_val].
  rewrite !len_sub by lia.
  replace (4 + ks + vs) with (2 + (2 + (ks + vs))) by lia. rewrite !sub_split by lia.
  replace (pos + 2 + 2) with (pos + 4) by lia. rewrite <- Ek, <- Ev.
  rewrite !(fun q H1 H2 => proj2 (read_u16 b q H1 H2)) by lia. done.
Qed.

Lemma records_at_cons b ty n i off e fs :
  records_at b ty n (i + 1) (off + rec_size e) fs ->
  sub b (16 + n * 8 + i * 2) 2 = le_put 2 (off + rec_size e) ->
  sub b (meta_size n + off) (rec_size e) = enc_rec e ->
  e_ptr e = le_get (sub b (16 + i * 8) 8) ->
  len (e_key e) <= maxKeySize /\ len (e_val e) <= maxValueSize /\
    (e_key e = [] -> e_val e = []) /\ (ty = nodeTypeInternal -> e_val e = []) ->
  Forall (fun f => blt (e_key e) (e_key f)) fs ->
  records_at b ty n i off (e :: fs).
Proof.
  intros [] Ho Hr Hp He Hlt. split.
  - intros [|j] x; cbn [lookup list_lookup take recs_size].
    + intros [= ->]. rewrite !Z.add_0_r. done.
    + intros Hx. specialize (ra_off0 _ _ Hx). rewrite Z.add_assoc.
      rewrite <- ra_off0. f_equal. lia.
  - intros [|j] x; cbn [lookup list_lookup take recs_size].
    + intros [= ->]. rewrite Z.add_0_r. done.
    + intros Hx. rewrite <- (ra_rec0 _ _ Hx). f_equal. lia.
  - intros [|j] x; cbn [lookup list_lookup].
    + intros [= ->]. rewrite Z.add_0_r. done.
    + intros Hx. rewrite (ra_ptr0 _ _ Hx). f_equal. f_equal. lia.
  - by constructor.
  - cbn. lia.
  - cbn. apply ssorted_cons. split; [done|]. intros k Hk.
    apply list_elem_of_fmap in Hk as (f & -> & Hf). rewrite Forall_forall in Hlt. auto.
Qed.

(** One iteration of the record loop that does not fail reads one entry. *)
Lemma validateRecords_step b ty n todo i off prev :
  len b = pageSize -> 0 <= i < n -> 0 <= off -> meta_size n + off <= pageSize ->
  validateRecords (S todo) b ty n (meta_size n) i off prev = Ok tt ->
  exists e,
    sub b (16 + n * 8 + i * 2) 2 = le_put 2 (off + rec_size e) /\
    sub b (meta_size n + off) (rec_size e) = enc_rec e /\
    e_ptr e = le_get (sub b (16 + i * 8) 8) /\
    (len (e_key e) <= maxKeySize /\ len (e_val e) <= maxValueSize /\
     (e_key e = [] -> e_val e = []) /\ (ty = nodeTypeInternal -> e_val e = [])) /\
    (0 < i -> blt prev (e_key e)) /\ meta_size n + (off + rec_size e) <= pageSize /\
    validateRecords todo b ty n (meta_size n) (i + 1) (off + rec_size e) (e_key e) = Ok tt.
Proof.
  intros Hl Hi Hoff Hm H. cbn [validateRecords] in H.
  unfold pageHeaderSize, pagePtrSize, pageOffsetSize, pageSize in *.
  assert (Hms : meta_size n = 16 + n * 10) by done.
  rewrite getU_ok in H by lia. change (Z.of_nat 2) with 2 in H.
  destruct (read_u16 b (16 + n * 8 + i * 2)) as [_ Hput]; [lia..|].
  set (endOff := le_get _) in H, Hput.
  destruct (endOff <? off) eqn:C1; [done|]. destruct (_ >? 4096) eqn:C2; [done|].
  destruct (_ <? 4) eqn:C3; [done|]. zbool. rewrite !getU_ok in H by lia. change (Z.of_nat 2) with 2 in H.
  destruct (read_u16 b (meta_size n + off)) as [Hks _]; [lia..|].
  destruct (read_u16 b (meta_size n + off + 2)) as [Hvs _]; [lia..|].
  set (ks := le_get (sub b (meta_size n + off) 2)) in H, Hks.
  set (vs := le_get (sub b (meta_size n + off + 2) 2)) in H, Hvs.
  destruct ((ks =? 0) && negb (i =? 0)); [done|].
  destruct ((ks =? 0) && negb (vs =? 0)) eqn:C5; [done|].
  destruct (ks >? _) eqn:C6; [done|]. destruct (vs >? _) eqn:C7; [done|].
  destruct ((ty =? _) && _) eqn:C8; [done|].
  destruct (meta_size n + off + 4 + ks + vs =? _) eqn:C9; [|done]. cbn [negb] in H. zbool.
  rewrite slice_ok in H by lia. replace (_ + ks - _) with ks in H by lia.
  destruct (sub_record b (meta_size n + off) ks vs) with (p := le_get (sub b (16 + i * 8) 8))
    as [Hsz Hrec]; [lia..|done|done|].
  eexists (mkEntry _ (sub b (meta_size n + off + 4) ks) _). rewrite Hsz in *. cbn [e_key e_val e_ptr].
  destruct ((i >? 0) && bleb _ prev) eqn:C10; [done|].
  replace (off + (4 + ks + vs)) with endOff by lia. rewrite !len_sub by lia.
  split_and!; try done; try lia.
  - intros E0%(f_equal len). rewrite len_sub in E0 by lia. change (len []) with 0 in E0.
    rewrite E0 in C5. destruct (vs =? 0) eqn:V; [|done]. zbool. rewrite V. done.
  - intros ->. destruct (vs =? 0) eqn:V; [|done]. zbool. rewrite V. done.
  - intros. rewrite (proj2 (Z.gtb_lt i 0)) in C10 by lia. cbn in C10. border.
Qed.

Lemma validateRecords_sound b ty n todo i off prev :
  len b = pageSize -> 0 <= i -> n = i + Z.of_nat todo -> 0 <= off ->
  meta_size n + off <= pageSize ->
  validateRecords todo b ty n (meta_size n) i off prev = Ok tt ->
  exists fs, length fs = todo /\ records_at b ty n i off fs /\
    (0 < i -> Forall (fun e => blt prev (e_key e)) fs).
Proof.
  revert i off prev. induction todo as [|todo IH]; intros i off prev Hl Hi Hn Hoff Hm H.
  - exists []. split; [done|]. split; [|by constructor].
    split; try done; try (cbn; lia); constructor.
  - apply validateRecords_step in H as (e & Ho & Hr & Hp & He & Hlt & Hfit & H); [|done|lia..].
    pose proof (rec_size_pos e).
    destruct (IH (i + 1) (off + rec_size e) (e_key e)) as (fs & Hlen & Hra & Hfs); [done|lia..|done|].
    exists (e :: fs). split; [cbn; lia|]. split; [apply records_at_cons; auto; apply Hfs; lia|].
    intros Hi0. constructor; [auto|]. eapply Forall_impl; [apply Hfs; lia|].
    cbn. intros f Hf. specialize (Hlt Hi0). border.
Qed.

Lemma validateBNode_sound b :
  validateBNode b = Ok tt ->
  exists ty es, page_of b ty es /\ (ty = nodeTypeLeaf \/ ty = nodeTypeInternal).
Proof.
  unfold validateBNode. intros H.
  destruct (len b =? pageSize) eqn:Cl; [|done]. cbn [negb] in H. zbool.
  assert (Hl : len b = 4096) by done.
  rewrite slice_ok in H by lia. replace (4 - 0) with 4 in H by lia.
  destruct (beqb (sub b 0 4) pageMagic) eqn:Cm; [|done]. apply beqb_eq in Cm. cbn [negb] in H.
  rewrite !getU_ok in H by lia. change (Z.of_nat 2) with 2 in H.
  destruct (read_u16 b 4) as [_ P4], (read_u16 b 6) as [T6 P6], (read_u16 b 8) as [T8 P8]; [lia..|].
  set (ty := le_get (sub b 6 2)) in *. set (n := le_get (sub b 8 2)) in *.
  destruct (_ =? pageFormat) eqn:Cf; [|done]. cbn [negb] in H. zbool.
  destruct (negb _ && negb _) eqn:Ct; [done|].
  assert (Hty : ty = nodeTypeLeaf \/ ty = nodeTypeInternal).
  { apply andb_false_iff in Ct as [Ct|Ct]; zbool; auto. }
  change (pageHeaderSize + n * (pagePtrSize + pageOffsetSize)) with (meta_size n) in H.
  destruct (meta_size n >? pageSize) eqn:Cs; [done|]. zbool.
  destruct (validatePtrs _ _ _ _) as [[]| | |] eqn:Hp; try done.
  apply validateRecords_sound in H as (fs & Hlen & Hra & _); [|done|lia..].
  assert (Hn : len fs = n) by (unfold len; lia).
  pose proof (validatePtrs_sound b ty _ 0 Hp) as Hptr. cbn [Nat.add] in Hptr.
  unfold meta_size, pageSize in *.
  exists ty, fs. split; [|done]. destruct Hra as [Ho Hr Hq Hsz Hfit Hs]. split; [|done]. rewrite Hn.
  split; try done; unfold pageSize; try lia; try congruence; auto.
  - unfold meta_size in *. unfold pageSize in *. lia.
  - intros i e He. rewrite (Hq _ _ He), Z.add_0_l. pose proof (lookup_lt_Some _ _ _ He).
    rewrite <- (le_put_get (sub b (16 + Z.of_nat i * 8) 8)) at 1. f_equal.
    pose proof (len_sub b (16 + Z.of_nat i * 8) 8) as L. unfold len in *. lia.
  - intros i e He. rewrite <- (Hr _ _ He). f_equal. lia.
  - apply Forall_lookup. intros i e He. pose proof (lookup_lt_Some _ _ _ He).
    rewrite Forall_lookup in Hsz. destruct (Hsz _ _ He) as (?&?&?&Hint).
    destruct (Hptr ltac:(lia) i ltac:(lia)) as [P1 P2]. rewrite <- (Z.add_0_l (Z.of_nat i)) in P1, P2.
    rewrite <- (Hq _ _ He) in P1, P2.
    split; [done|]. split; [done|]. split; [done|]. split.
    + rewrite (Hq _ _ He). pose proof (le_get_bound (sub b (16 + (0 + Z.of_nat i) * 8) 8)) as Hb.
      rewrite len_sub in Hb by lia. cbn in Hb. lia.
    + destruct Hty as [->| ->]; [left|right]; auto.
Qed.

(** ** Decoded nodes *)

(** The entries of a decoded node, and back. *)
Definition entries_of (n : pageNode) : list entry :=
  if leaf n then zip_with (fun k v => mkEntry 0 k v) (keys n) (values n)
  else zip_with (fun k c => mkEntry c k []) (keys n) (childPages n).
Definition node_from (ty : Z) (es : list entry) : pageNode :=
  let isLeaf := ty =? nodeTypeLeaf in
  {| leaf := isLeaf; keys := map e_key es;
     values := if isLeaf then map e_val es else [];
     childPages := if isLeaf then [] else map e_ptr es |}.

(** What [validatePageNode] checks. *)
Record pageNode_wf (n : pageNode) : Prop := {
  wf_meta : meta_size (len (keys n)) <= pageSize;
  wf_sorted : ssorted (keys n);
  wf_keys : Forall (fun k => len k <= maxKeySize) (keys n);
  wf_values : Forall (fun v => len v <= maxValueSize) (values n);
  wf_sentinel : leaf n = true -> forall i, keys n !! i = Some [] -> values n !! i = Some [];
  wf_children : Forall (fun c => c <> 0) (childPages n);
  wf_shape : if leaf n then length (values n) = length (keys n) /\ childPages n = []
             else values n = [] /\ length (childPages n) = length (keys n);
}.

Lemma ssorted_nil_first ks i : ssorted ks -> ks !! i = Some [] -> i = O.
Proof.
  intros Hs Hi. rewrite <- (take_drop_middle _ _ _ Hi) in Hs.
  apply ssorted_app in Hs as (_ & _ & Hs). apply lookup_lt_Some in Hi.
  destruct (take i ks) as [|k l] eqn:E.
  - apply (f_equal length) in E. rewrite length_take in E. cbn in E. lia.
  - exfalso. apply (not_blt_nil k). apply Hs; by left.
Qed.

Lemma validateKeys_ok n ks i prev :
  validateKeys n ks (Z.of_nat i) prev = Ok tt <->
  Forall (fun k => len k <= maxKeySize) ks /\ ssorted ks /\
  (i <> O -> Forall (fun k => blt prev k) ks /\ Forall (fun k => k <> []) ks) /\
  (leaf n = true -> forall j, ks !! j = Some [] ->
     forall v, values n !! (i + j)%nat = Some v -> v = []).
Proof.
  revert i prev. induction ks as [|k ks IH]; intros i prev.
  { cbn. split; [|done]. intros _. split_and!; try done; try by constructor. }
  cbn [validateKeys]. replace (Z.of_nat i + 1) with (Z.of_nat (S i)) by lia. rewrite Nat2Z.id.
  specialize (IH (S i) k). split.
  - destruct ((len k =? 0) && negb (Z.of_nat i =? 0)) eqn:C1; [done|].
    destruct (_ && _ && match _ with _ => _ end) eqn:C2; [done|].
    destruct (len k >? maxKeySize) eqn:C3; [done|].
    destruct ((Z.of_nat i >? 0) && bleb k prev) eqn:C4; [done|]. zbool.
    intros H. apply IH in H as (Hf & Hs & Hne & Hsent). destruct (Hne ltac:(done)) as [Hlt Hnn].
    split_and!.
    + by constructor.
    + apply ssorted_cons. rewrite <- Forall_forall. done.
    + intros Hi. rewrite (proj2 (Z.gtb_lt _ _)) in C4 by lia. cbn in C4. apply bleb_gt in C4.
      rewrite (proj2 (Z.eqb_neq (Z.of_nat i) 0)) in C1 by lia. cbn [negb] in C1. rewrite andb_true_r in C1. zbool.
      split; constructor; try done; [|by intros ->].
      eapply Forall_impl; [exact Hlt|]. cbn. intros x Hx. border.
    + intros Hl [|j] Hj v Hv.
      * cbn in Hj. injection Hj as ->. rewrite Nat.add_0_r in Hv. rewrite Hl, Hv in C2.
        change (len []) with 0 in C2. cbn in C2. zbool. by apply len_0.
      * cbn in Hj. apply (Hsent Hl j Hj). rewrite <- Hv. f_equal. lia.
  - intros (Hf & Hs & Hne & Hsent). apply Forall_cons in Hf as [Hk Hf].
    assert (C1 : (len k =? 0) && negb (Z.of_nat i =? 0) = false).
    { destruct (len k =? 0) eqn:E; [|done]. zbool. apply len_0 in E as ->.
      destruct i; [done|]. destruct Hne as [_ Hnn]; [done|]. by inversion Hnn. }
    assert (C2 : (len k =? 0) && leaf n && match values n !! i with
                   Some v => negb (len v =? 0) | None => false end = false).
    { destruct (len k =? 0) eqn:E; [|done]. zbool. apply len_0 in E as ->.
      destruct (leaf n) eqn:El; [|done]. destruct (values n !! i) as [v|] eqn:Ev; [|done].
      rewrite (Hsent eq_refl O eq_refl v) by (by rewrite Nat.add_0_r). done. }
    assert (C4 : (Z.of_nat i >? 0) && bleb k prev = false).
    { destruct i; [done|]. destruct Hne as [Hlt _]; [done|]. inversion Hlt. apply andb_false_iff.
      right. border. }
    rewrite C1, C2, C4. zdecide. apply IH. apply ssorted_cons in Hs as [Hs Hlt].
    split_and!; try done.
    + intros _. split; [by apply Forall_forall|]. apply Forall_forall.
      intros x Hx ->. by apply (not_blt_nil k), Hlt.
    + intros Hl j Hj v Hv. apply (Hsent Hl (S j) Hj). rewrite <- Hv. f_equal. lia.
Qed.

Lemma validateValues_ok vs i :
  validateValues vs i = Ok tt <-> Forall (fun v => len v <= maxValueSize) vs.
Proof.
  revert i. induction vs as [|v vs IH]; intros i; [by split|]. cbn [validateValues].
  destruct (len v >? maxValueSize) eqn:C; zbool; rewrite Forall_cons.
  - split; [done|]. intros [??]. lia.
  - rewrite IH. intuition.
Qed.
Lemma validateChildPages_ok cs i :
  validateChildPages cs i = Ok tt <-> Forall (fun c => c <> 0) cs.
Proof.
  revert i. induction cs as [|c cs IH]; intros i; [by split|]. cbn [validateChildPages].
  destruct (c =? 0) eqn:C; zbool; rewrite Forall_cons.
  - split; [done|]. by intros [??].
  - rewrite IH. intuition.
Qed.

Lemma len_length_eq {A B} (l : list A) (k : list B) : len l = len k <-> length l = length k.
Proof. unfold len. lia. Qed.

Lemma validatePageNode_ok n : validatePageNode (Some n) = Ok tt <-> pageNode_wf n.
Proof.
  unfold validatePageNode.
  change (pageHeaderSize + len (keys n) * (pagePtrSize + pageOffsetSize)) with (meta_size (len (keys n))).
  pose proof (validateKeys_ok n (keys n) 0 []) as HK. change (Z.of_nat 0) with 0 in HK.
  pose proof (len_nonneg (keys n)).
  split.
  - intros H'. destruct (len (keys n) >? 65535); [done|].
    destruct (meta_size _ >? _) eqn:Cm; [done|]. zbool.
    destruct (validateKeys _ _ _ _) as [[]| | |] eqn:Ek; try done.
    destruct HK as [HK _]. destruct (HK eq_refl) as (Hk & Hs & _ & Hsent). cbn [Nat.add] in Hsent.
    destruct (leaf n) eqn:El.
    + destruct (len (values n) =? _) eqn:C1; [|done]. destruct (len (childPages n) =? 0) eqn:C2; [|done].
      cbn [negb] in H'. zbool. apply len_0 in C2. apply validateValues_ok in H'.
      apply len_length_eq in C1. split; rewrite ?El, ?C2; try done.
      intros _ i Hi. destruct (lookup_lt_is_Some_2 (values n) i) as [v Hv].
      { rewrite C1. by eapply lookup_lt_Some. }
      rewrite Hv. f_equal. eauto.
    + destruct (len (values n) =? 0) eqn:C1; [|done].
      destruct (len (childPages n) =? _) eqn:C2; [|done]. cbn [negb] in H'. zbool.
      apply len_0 in C1. apply validateChildPages_ok in H'. apply len_length_eq in C2.
      split; rewrite ?El, ?C1; try done.
  - intros []. unfold meta_size, pageSize in *.
    destruct HK as [_ HK]. rewrite HK.
    + zdecide. destruct (leaf n) eqn:El.
      * destruct wf_shape0 as [Hlen ->]. rewrite (proj2 (len_length_eq _ _) Hlen). change (len []) with 0.
        rewrite !Z.eqb_refl. by apply validateValues_ok.
      * destruct wf_shape0 as [-> Hlen]. rewrite (proj2 (len_length_eq _ _) Hlen). change (len []) with 0.
        rewrite !Z.eqb_refl. by apply validateChildPages_ok.
    + split_and!; try done. cbn. intros Hl i Hi v Hv. rewrite wf_sentinel0 in Hv by done. by injection Hv.
Qed.

Lemma map_key_entries n : pageNode_wf n -> map e_key (entries_of n) = keys n.
Proof.
  intros []. unfold entries_of. destruct (leaf n); destruct wf_shape0 as [H1 H2];
    apply fmap_zip_with_l; auto; lia.
Qed.

Lemma entries_of_ok n :
  pageNode_wf n -> Forall (fun c => 0 <= c < 2 ^ 64) (childPages n) ->
  Forall (entry_ok (pageNodeType n)) (entries_of n).
Proof.
  intros [] Hc. apply Forall_lookup. intros i e He. unfold entries_of, pageNodeType in *.
  rewrite Forall_lookup in wf_keys0. rewrite Forall_lookup in wf_values0.
  rewrite Forall_lookup in wf_children0. rewrite Forall_lookup in Hc.
  destruct (leaf n) eqn:El; apply lookup_zip_with_Some in He as (k & x & -> & Hk & Hx);
    unfold entry_ok; cbn.
  - split; [eauto|]. split; [eauto|]. split; [|split; [lia|by left]].
    intros ->. rewrite wf_sentinel0 in Hx by done. by injection Hx.
  - split; [eauto|]. split; [change (len []) with 0; unfold maxValueSize; lia|]. split; [done|]. split; [eauto|].
    right. eauto.
Qed.

Lemma encode_loop_appended n b cap :
  pageNode_wf n -> Forall (fun c => 0 <= c < 2 ^ 64) (childPages n) ->
  forall es fs, entries_of n = es ++ fs ->
  built b cap (pageNodeType n) (len (keys n)) es ->
  appended cap (pageNodeType n) (len (keys n)) es fs
    (encode_loop n (map e_key fs) (len es) b).
Proof.
  intros W Hc es fs. pose proof (map_key_entries n W) as HK. pose proof (entries_of_ok n W Hc) as Hok.
  assert (Hl : length (entries_of n) = length (keys n)) by (rewrite <- HK; by rewrite length_map).
  revert es b. induction fs as [|e fs IH]; intros es b Heq B; cbn [encode_loop map].
  { unfold appended. rewrite app_nil_r. pose proof (built_bounds B). zdecide. eauto. }
  assert (He : entries_of n !! length es = Some e) by (rewrite Heq; apply list_lookup_middle; done).
  pose proof (built_bounds B) as Hb. rewrite u16_small by lia.
  assert (Hlt : len es < len (keys n)) by (apply lookup_lt_Some in He; unfold len; lia).
  assert (Hv : (if leaf n then index (values n) (len es) else Ok []) = (Ok (e_val e) : res bytes) /\
               (if leaf n then Ok 0 else index (childPages n) (len es)) = (Ok (e_ptr e) : res Z)).
  { unfold entries_of in He. unfold index. pose proof (len_nonneg es). zdecide.
    replace (Z.to_nat (len es)) with (length es) by (unfold len; lia).
    destruct (leaf n); apply lookup_zip_with_Some in He as (k & x & -> & Hk & Hx); rewrite Hx; done. }
  destruct Hv as [-> ->]. change (e :: fs) with ([e] ++ fs).
  apply appended_bind.
  - apply (nodeAppendKV_appended b cap _ _ es e fs); try done.
    + rewrite Forall_lookup in Hok. eauto.
    + rewrite <- Heq, HK. apply W.
  - intros b' B'. replace (len es + 1) with (len (es ++ [e])) by (by rewrite len_app).
    apply IH; [by rewrite <- app_assoc|done].
Qed.

(** [encodePageNode] on a valid node: the encoded page when it fits, the
    overflow error otherwise. *)
Lemma encodePageNode_spec n :
  pageNode_wf n -> Forall (fun c => 0 <= c < 2 ^ 64) (childPages n) ->
  if node_size (entries_of n) <=? pageSize
  then exists p, encodePageNode (Some n) = Ok p /\ page_of p (pageNodeType n) (entries_of n)
  else encodePageNode (Some n) = Err ENodeExceedsPage.
Proof.
  intros W Hc. unfold encodePageNode. rewrite (proj2 (validatePageNode_ok n) W).
  pose proof (wf_meta n W) as Hm. pose proof (len_nonneg (keys n)).
  assert (Hty : 0 <= pageNodeType n < 65536) by (unfold pageNodeType, nodeTypeLeaf, nodeTypeInternal; destruct (leaf n); lia).
  rewrite u16_small by (unfold meta_size, pageSize in *; lia).
  destruct (built_setHeader (make pageSize) pageSize (pageNodeType n) (len (keys n)))
    as (b0 & -> & B0); auto; [unfold pageSize; lia|].
  assert (Hl : len (keys n) = len (entries_of n)).
  { rewrite <- (map_key_entries n W). unfold len. by rewrite length_map. }
  pose proof (encode_loop_appended n b0 pageSize W Hc [] (entries_of n) eq_refl B0) as A.
  rewrite (map_key_entries n W) in A. unfold appended in A. cbn [app] in A. change (len []) with 0 in A.
  unfold node_size. rewrite <- Hl. destruct (_ <=? pageSize); [|by rewrite A].
  destruct A as (p & -> & B). rewrite Hl in B.
  assert (P : page_of p (pageNodeType n) (entries_of n)).
  { split; [done|]. rewrite (map_key_entries n W). apply W. }
  rewrite (validateBNode_complete _ _ _ P); [eauto|]. unfold pageNodeType. destruct (leaf n); auto.
Qed.

Lemma decode_loop_ok b ty es todo i :
  page_of b ty es -> (i + todo = length es)%nat ->
  decode_loop todo b (ty =? nodeTypeLeaf) (Z.of_nat i) =
  Ok (map (fun e => (e_key e, e_val e, e_ptr e)) (drop i es)).
Proof.
  intros [B _]. revert i. induction todo as [|todo IH]; intros i Hi; cbn [decode_loop].
  { rewrite drop_ge by lia. done. }
  destruct (lookup_lt_is_Some_2 es i) as [e He]; [lia|]. pose proof (built_bounds B) as Hb.
  rewrite u16_small by (apply lookup_lt_Some in He; unfold len in Hb; lia).
  rewrite (built_getKey B _ _ He), (built_getVal B _ _ He), (built_getPtr B _ _ He).
  replace (Z.of_nat i + 1) with (Z.of_nat (S i)) by lia. rewrite IH by lia.
  rewrite (drop_S _ _ _ He). cbn [map].
  destruct (built_sizes B _ _ He) as [(_&_&_&_&Hty) _].
  destruct Hty as [[-> ->]|(-> & _ & ->)]; done.
Qed.

Lemma decodePageNode_ok b ty es :
  page_of b ty es -> ty = nodeTypeLeaf \/ ty = nodeTypeInternal ->
  decodePageNode b = Ok (node_from ty es).
Proof.
  intros P Hty. unfold decodePageNode. rewrite (validateBNode_complete _ _ _ P Hty).
  pose proof P as [B _]. rewrite (built_nkeys B), (built_btype B).
  replace (Z.to_nat (len es)) with (length es) by (unfold len; lia).
  rewrite (decode_loop_ok b ty es (length es) 0 P eq_refl : decode_loop _ _ _ 0 = _).
  rewrite drop_0, !map_map. done.
Qed.

Lemma node_from_entries n : pageNode_wf n -> node_from (pageNodeType n) (entries_of n) = n.
Proof.
  intros W. pose proof (map_key_entries n W) as HK. destruct n as [l ks vs cs].
  destruct W as [_ _ _ _ _ _ Hsh]. cbn in Hsh.
  unfold node_from, pageNodeType in *. rewrite HK. unfold entries_of. cbn [leaf keys values childPages].
  destruct l; destruct Hsh as [H1 H2]; cbn.
  - subst cs. f_equal. by apply fmap_zip_with_r; [|lia].
  - subst vs. f_equal. by apply fmap_zip_with_r; [|lia].
Qed.

Lemma entries_node_from b ty es :
  page_of b ty es -> ty = nodeTypeLeaf \/ ty = nodeTypeInternal ->
  pageNodeType (node_from ty es) = ty /\ entries_of (node_from ty es) = es.
Proof.
  intros [B _] Hty. unfold pageNodeType, entries_of, node_from.
  pose proof (built_entries _ _ _ _ _ B) as Hf. destruct Hty as [-> | ->]; cbn; (split; [done|]).
  - clear B. induction Hf as [|e es He _ IH]; cbn; [done|]. f_equal; [|done].
    destruct He as (_&_&_&_&[[_ Hp]|[? _]]); [|done]. destruct e; cbn in *; by subst.
  - clear B. induction Hf as [|e es He _ IH]; cbn; [done|]. f_equal; [|done].
    destruct He as (_&_&_&_&[[? _]|(_&_&Hv)]); [done|]. destruct e; cbn in *; by subst.
Qed.
