(* ===== verification/PageTree.v ===== *)
(** * The copy-on-write page tree (src/internal/btree/page_tree.go)

    A B+Tree of encoded pages behind three callbacks. Every update builds new
    pages and reports the replaced ones as obsolete; no page is overwritten. *)

From S2P Require Import Prelude Errors Page.

(** ** Callbacks

    [pageTree.get], [pageTree.new] and [pageTree.del] over an arbitrary state
    [St] of their owner; [cb_set] records whether all three are non-nil. *)

Record callbacks (St : Type) := {
  cb_set : bool;
  cb_get : Z -> stM St error bytes;
  cb_new : bytes -> stM St error Z;
  cb_del : Z -> stM St error unit;
}.
Arguments cb_set {St} _.
Arguments cb_get {St} _ _.
Arguments cb_new {St} _ _.
Arguments cb_del {St} _ _.

(** ** Node-level operations *)

Definition validateTreeEntry (key value : bytes) : res unit :=
  fail_if len key =? 0 with ETreeKeyEmpty ;;
  fail_if len key >? maxKeySize with ETreeKeyExceeds ;;
  fail_if len value >? maxValueSize with ETreeValueExceeds ;;
  Ok tt.

Definition nodeLookupLE (node key : bytes) : res Z :=
  keyCount <- nkeys node ;;
  i <- search keyCount (fun i => k <- getKey node (u16 i) ;; Ok (bltb key k)) ;;
  let idx := i - 1 in
  fail_if idx <? 0 with ENoLowerBound ;;
  Ok (u16 idx).

Definition leafInsertEncoded (old : bytes) (idx : Z) (key value : bytes) : res bytes :=
  n <- nkeys old ;;
  u0 <- setHeader (make (2 * pageSize)) nodeTypeLeaf (u16 (n + 1)) ;;
  u1 <- nodeAppendRange u0 old 0 0 idx ;;
  u2 <- nodeAppendKV u1 idx 0 key value ;;
  nodeAppendRange u2 old (u16 (idx + 1)) idx (u16 (n - idx)).

Definition leafUpdateEncoded (old : bytes) (idx : Z) (key value : bytes) : res bytes :=
  n <- nkeys old ;;
  u0 <- setHeader (make (2 * pageSize)) nodeTypeLeaf n ;;
  u1 <- nodeAppendRange u0 old 0 0 idx ;;
  u2 <- nodeAppendKV u1 idx 0 key value ;;
  nodeAppendRange u2 old (u16 (idx + 1)) (u16 (idx + 1)) (u16 (n - idx - 1)).

Definition leafDeleteEncoded (old : bytes) (idx : Z) : res bytes :=
  n <- nkeys old ;;
  u0 <- setHeader (make pageSize) nodeTypeLeaf (u16 (n - 1)) ;;
  u1 <- nodeAppendRange u0 old 0 0 idx ;;
  nodeAppendRange u1 old idx (u16 (idx + 1)) (u16 (n - idx - 1)).

Definition removeChildEncoded (parent : bytes) (idx : Z) : res bytes :=
  n <- nkeys parent ;;
  u0 <- setHeader (make pageSize) nodeTypeInternal (u16 (n - 1)) ;;
  u1 <- nodeAppendRange u0 parent 0 0 idx ;;
  nodeAppendRange u1 parent idx (u16 (idx + 1)) (u16 (n - idx - 1)).

(** [None] is "the two nodes do not fit in one page". *)
Definition mergeEncodedNodes (left right : bytes) : res (option bytes) :=
  lt <- btype left ;;
  rt <- btype right ;;
  fail_if negb (lt =? rt) with EMergeTypes ;;
  ln <- nkeys left ;;
  rn <- nkeys right ;;
  let keyCount := u16 (ln + rn) in
  lo <- getOffset left ln ;;
  ro <- getOffset right rn ;;
  let recordBytes := lo + ro in
  let mergedSize := pageHeaderSize + keyCount * (pagePtrSize + pageOffsetSize) + recordBytes in
  if mergedSize >? pageSize then Ok None
  else
    m0 <- setHeader (make pageSize) lt keyCount ;;
    m1 <- nodeAppendRange m0 left 0 0 ln ;;
    m2 <- nodeAppendRange m1 right ln 0 rn ;;
    Ok (Some m2).

Definition nodeRangeSize (node : bytes) (start count : Z) : res Z :=
  o1 <- getOffset node (u16 (start + count)) ;;
  o0 <- getOffset node start ;;
  Ok (pageHeaderSize + count * (pagePtrSize + pageOffsetSize) + u16 (o1 - o0)).

Definition copyNodeRange (node : bytes) (start count : Z) : res bytes :=
  ty <- btype node ;;
  c0 <- setHeader (make pageSize) ty count ;;
  c1 <- nodeAppendRange c0 node 0 start count ;;
  _ <- validateBNode c1 ;;
  Ok c1.

(** The inner loop of [nodeSplit3]: the end of the longest run from [start] that
    fits in one page; [n - start] iterations are enough. *)
Fixpoint splitEnd (fuel : nat) (node : bytes) (n start end_ : Z) : res Z :=
  if end_ <? n then
    match fuel with
    | O => NoFuel
    | S fuel =>
        size <- nodeRangeSize node start (u16 (end_ - start + 1)) ;;
        if size <=? pageSize then splitEnd fuel node n start (u16 (end_ + 1)) else Ok end_
    end
  else Ok end_.

(** The outer loop of [nodeSplit3]; [parts] are the pages cut so far. *)
Fixpoint split_loop (fuel : nat) (node : bytes) (n start : Z) (parts : list bytes) : res (list bytes) :=
  if start <? n then
    match fuel with
    | O => NoFuel
    | S fuel =>
        end_ <- splitEnd (Z.to_nat n) node n start (u16 (start + 1)) ;;
        let count := u16 (end_ - start) in
        size <- nodeRangeSize node start count ;;
        fail_if size >? pageSize with EEntryDoesNotFit ;;
        part <- copyNodeRange node start count ;;
        let parts' := parts ++ [part] in
        fail_if len parts' >? 3 with EMoreThanThreePages ;;
        split_loop fuel node n end_ parts'
    end
  else Ok parts.

Definition nodeSplit3 (node : bytes) : res (list bytes) :=
  size <- nbytes node ;;
  n <- nkeys node ;;
  if size <=? pageSize then
    fixed <- copyNodeRange node 0 n ;; Ok [fixed]
  else split_loop (Z.to_nat n) node n 0 [].

(** ** Tree operations *)

Section Tree.
Context {St : Type} (cb : callbacks St).
Abbreviation M := (stM St error).

Definition validateCallbacks : res unit :=
  if cb_set cb then Ok tt else Err ECallbacks.

(** The descent loop of [getValue]; [None] is "not found". *)
Fixpoint getValue_loop (fuel : nat) (node key : bytes) : M (option bytes) :=
  match fuel with
  | O => diverge
  | S fuel =>
      _ <! map_err EReadPage (validateBNode node) ;;
      idx <! nodeLookupLE node key ;;
      ty <! btype node ;;
      if ty =? nodeTypeLeaf then
        k <! getKey node idx ;;
        if negb (beqb k key) then ret None
        else v <! getVal node idx ;; ret (Some v)
      else
        p <! getPtr node idx ;;
        child <~ cb_get cb p ;;
        getValue_loop fuel child key
  end.

Definition getValue (fuel : nat) (root : Z) (key : bytes) : M (option bytes) :=
  throw_if len key =? 0 with ETreeKeyEmpty ;;
  if root =? 0 then ret None
  else
    _ <! validateCallbacks ;;
    node <~ cb_get cb root ;;
    getValue_loop fuel node key.

(** [pageTreeCursorFrame]; a path is kept innermost frame first. *)
Record frame := mkFrame { f_node : bytes; f_childIdx : Z }.

Fixpoint seek_loop (fuel : nat) (node start : bytes) (path : list frame) : M (bytes * Z * list frame) :=
  match fuel with
  | O => diverge
  | S fuel =>
      _ <! map_err EReadRangePage (validateBNode node) ;;
      ty <! btype node ;;
      if ty =? nodeTypeLeaf then
        n <! nkeys node ;;
        idx <! search n (fun i => k <- getKey node (u16 i) ;; Ok (bleb start k)) ;;
        ret (node, u16 idx, path)
      else
        idx <! nodeLookupLE node start ;;
        p <! getPtr node idx ;;
        child <~ cb_get cb p ;;
        seek_loop fuel child start (mkFrame node idx :: path)
  end.

Definition seekRangeStart (fuel : nat) (root : Z) (start : bytes) : M (bytes * Z * list frame) :=
  node <~ cb_get cb root ;; seek_loop fuel node start [].

(** The inner loop of [nextLeaf]: descend along first children. *)
Fixpoint leftmost_loop (fuel : nat) (node : bytes) (path : list frame) : M (option bytes * list frame) :=
  match fuel with
  | O => diverge
  | S fuel =>
      _ <! map_err EReadRangePage (validateBNode node) ;;
      ty <! btype node ;;
      if ty =? nodeTypeLeaf then ret (Some node, path)
      else
        p <! getPtr node 0 ;;
        child <~ cb_get cb p ;;
        leftmost_loop fuel child (mkFrame node 0 :: path)
  end.

(** [nextLeaf]; [None] is the nil leaf at the end of the tree. *)
Fixpoint nextLeaf (fuel : nat) (path : list frame) : M (option bytes * list frame) :=
  match path with
  | [] => ret (None, [])
  | fr :: path' =>
      n <! nkeys (f_node fr) ;;
      if u16 (f_childIdx fr + 1) >=? n then nextLeaf fuel path'
      else
        let idx := u16 (f_childIdx fr + 1) in
        p <! getPtr (f_node fr) idx ;;
        node <~ cb_get cb p ;;
        leftmost_loop fuel node (mkFrame (f_node fr) idx :: path')
  end.

(** The entry loop of [rangeValues] over one leaf: [true] when an entry beyond
    [end] was met. *)
Fixpoint leafEntries (todo : nat) (leaf start end_ : bytes) (idx : Z) : res (list (bytes * bytes) * bool) :=
  match todo with
  | O => Ok ([], false)
  | S todo =>
      key <- getKey leaf idx ;;
      if (len key =? 0) || bltb key start then leafEntries todo leaf start end_ (u16 (idx + 1))
      else if bltb end_ key then Ok ([], true)
      else
        value <- getVal leaf idx ;;
        '(rest, stop) <- leafEntries todo leaf start end_ (u16 (idx + 1)) ;;
        Ok ((key, value) :: rest, stop)
  end.

Fixpoint range_loop (fuel depth : nat) (leaf start end_ : bytes) (entryIdx : Z) (path : list frame)
    : M (list (bytes * bytes)) :=
  match fuel with
  | O => diverge
  | S fuel =>
      n <! nkeys leaf ;;
      es <! leafEntries (Z.to_nat (n - entryIdx)) leaf start end_ entryIdx ;;
      if es.2 then ret es.1
      else
        next <~ nextLeaf depth path ;;
        match next with
        | (None, _) => ret es.1
        | (Some leaf', path') =>
            rest <~ range_loop fuel depth leaf' start end_ 0 path' ;;
            ret (es.1 ++ rest)
        end
  end.

Definition rangeValues (fuel : nat) (root : Z) (start end_ : bytes) : M (list (bytes * bytes)) :=
  throw_if len start >? maxKeySize with EStartExceeds ;;
  throw_if len end_ >? maxKeySize with EEndExceeds ;;
  if bltb end_ start || (root =? 0) then ret []
  else
    _ <! validateCallbacks ;;
    '(leaf, entryIdx, path) <~ seekRangeStart fuel root start ;;
    range_loop fuel fuel leaf start end_ entryIdx path.

(** The child loop of [replaceChild]: allocate every part and append its
    separator entry at [idx + i]. *)
Fixpoint appendChildren (updated : bytes) (idx i : Z) (children : list bytes) : M bytes :=
  match children with
  | [] => ret updated
  | child :: children =>
      pageID <~ cb_new cb child ;;
      k <! getKey child 0 ;;
      updated' <! nodeAppendKV updated (u16 (idx + u16 i)) pageID k [] ;;
      appendChildren updated' idx (i + 1) children
  end.

Definition replaceChild (parent : bytes) (idx : Z) (children : list bytes) : M bytes :=
  n <! nkeys parent ;;
  let keyCount := n + len children - 1 in
  u0 <! setHeader (make (2 * pageSize)) nodeTypeInternal (u16 keyCount) ;;
  u1 <! nodeAppendRange u0 parent 0 0 idx ;;
  u2 <~ appendChildren u1 idx 0 children ;;
  let tailCount := u16 (n - idx - 1) in
  lift (nodeAppendRange u2 parent (u16 (idx + u16 (len children))) (u16 (idx + 1)) tailCount).

Fixpoint insertNode (fuel : nat) (node key value : bytes) (obsolete : list Z) : M (bytes * list Z) :=
  match fuel with
  | O => diverge
  | S fuel =>
      idx <! nodeLookupLE node key ;;
      ty <! btype node ;;
      if ty =? nodeTypeLeaf then
        k <! getKey node idx ;;
        if beqb k key then u <! leafUpdateEncoded node idx key value ;; ret (u, obsolete)
        else u <! leafInsertEncoded node (u16 (idx + 1)) key value ;; ret (u, obsolete)
      else
        childPageID <! getPtr node idx ;;
        child <~ cb_get cb childPageID ;;
        _ <! map_err (EReadChildPage childPageID) (validateBNode child) ;;
        '(updatedChild, obs) <~ insertNode fuel child key value obsolete ;;
        childParts <! nodeSplit3 updatedChild ;;
        u <~ replaceChild node idx childParts ;;
        ret (u, obs ++ [childPageID])
  end.

Fixpoint deleteAll (ids : list Z) : M unit :=
  match ids with
  | [] => ret tt
  | id :: ids => _ <~ cb_del cb id ;; deleteAll ids
  end.

(** [insert] returns the new root; on an error the root is unchanged. *)
Definition insert (fuel : nat) (root : Z) (key value : bytes) : M Z :=
  _ <! validateTreeEntry key value ;;
  _ <! validateCallbacks ;;
  if root =? 0 then
    r0 <! setHeader (make pageSize) nodeTypeLeaf 2 ;;
    r1 <! nodeAppendKV r0 0 0 [] [] ;;
    r2 <! nodeAppendKV r1 1 0 key value ;;
    cb_new cb r2
  else
    oldRoot <~ cb_get cb root ;;
    _ <! map_err EReadRootPage (validateBNode oldRoot) ;;
    '(updatedRoot, obs) <~ insertNode fuel oldRoot key value [] ;;
    let obsolete := obs ++ [root] in
    rootParts <! nodeSplit3 updatedRoot ;;
    newRootID <~
      match rootParts with
      | [part] => cb_new cb part
      | _ =>
          n0 <! setHeader (make pageSize) nodeTypeInternal (u16 (len rootParts)) ;;
          n1 <~ appendChildren n0 0 0 rootParts ;;
          cb_new cb n1
      end ;;
    _ <~ deleteAll obsolete ;;
    ret newRootID.

(** [replaceChildrenAfterDelete]. *)
Definition replaceChildrenAfterDelete (parent : bytes) (idx removeCount : Z) (child : bytes) : M bytes :=
  n <! nkeys parent ;;
  let updatedCount := u16 (n - removeCount + 1) in
  u0 <! setHeader (make pageSize) nodeTypeInternal updatedCount ;;
  u1 <! nodeAppendRange u0 parent 0 0 idx ;;
  childPageID <~ cb_new cb child ;;
  k <! getKey child 0 ;;
  u2 <! nodeAppendKV u1 idx childPageID k [] ;;
  let tailStart := u16 (idx + removeCount) in
  lift (nodeAppendRange u2 parent (u16 (idx + 1)) tailStart (u16 (n - tailStart))).

(** The tail of [deleteNode] once no sibling absorbed the child. *)
Definition deleteFinish (node : bytes) (idx : Z) (updatedChild : bytes) (cn : Z) (obs : list Z)
    : M (bytes * bool * list Z) :=
  if cn =? 0 then u <! removeChildEncoded node idx ;; ret (u, true, obs)
  else u <~ replaceChildrenAfterDelete node idx 1 updatedChild ;; ret (u, true, obs).

(** The part of [deleteNode] after the recursive call removed the key from the
    child: merge an underfull child with its left or its right sibling, or put
    it back alone. [obs] already holds the replaced child. *)
Definition deleteTryRight (node : bytes) (idx : Z) (updatedChild : bytes) (cn n : Z) (obs : list Z)
    : M (bytes * bool * list Z) :=
  if u16 (idx + 1) <? n then
    rightID <! getPtr node (u16 (idx + 1)) ;;
    right <~ cb_get cb rightID ;;
    merged <! mergeEncodedNodes updatedChild right ;;
    match merged with
    | Some m =>
        u <~ replaceChildrenAfterDelete node idx 2 m ;;
        ret (u, true, obs ++ [rightID])
    | None => deleteFinish node idx updatedChild cn obs
    end
  else deleteFinish node idx updatedChild cn obs.

Definition deleteRebalance (node : bytes) (idx : Z) (updatedChild : bytes) (obs : list Z)
    : M (bytes * bool * list Z) :=
  cn <! nkeys updatedChild ;;
  small <! (if cn =? 0 then Ok true
            else sz <- nbytes updatedChild ;; Ok (sz <=? pageSize / 4)) ;;
  n <! nkeys node ;;
  if (small : bool) then
    if idx >? 0 then
      leftID <! getPtr node (u16 (idx - 1)) ;;
      left <~ cb_get cb leftID ;;
      merged <! mergeEncodedNodes left updatedChild ;;
      match merged with
      | Some m =>
          u <~ replaceChildrenAfterDelete node (u16 (idx - 1)) 2 m ;;
          ret (u, true, obs ++ [leftID])
      | None => deleteTryRight node idx updatedChild cn n obs
      end
    else deleteTryRight node idx updatedChild cn n obs
  else deleteFinish node idx updatedChild cn obs.

(** [deleteNode] returns the updated node, whether the key was deleted, and
    the obsolete pages. *)
Fixpoint deleteNode (fuel : nat) (node key : bytes) (obsolete : list Z) : M (bytes * bool * list Z) :=
  match fuel with
  | O => diverge
  | S fuel =>
      idx <! nodeLookupLE node key ;;
      ty <! btype node ;;
      if ty =? nodeTypeLeaf then
        k <! getKey node idx ;;
        if negb (beqb k key) then ret (node, false, obsolete)
        else u <! leafDeleteEncoded node idx ;; ret (u, true, obsolete)
      else
        childPageID <! getPtr node idx ;;
        child <~ cb_get cb childPageID ;;
        _ <! map_err (EReadChildPage childPageID) (validateBNode child) ;;
        '(updatedChild, deleted, obs) <~ deleteNode fuel child key obsolete ;;
        if negb deleted then ret (node, false, obs)
        else deleteRebalance node idx updatedChild (obs ++ [childPageID])
  end.

(** [delete] returns the new root and whether the key existed. *)
Definition delete (fuel : nat) (root : Z) (key : bytes) : M (Z * bool) :=
  throw_if len key =? 0 with ETreeKeyEmpty ;;
  throw_if len key >? maxKeySize with ETreeKeyExceeds ;;
  if root =? 0 then ret (root, false)
  else
    _ <! validateCallbacks ;;
    oldRoot <~ cb_get cb root ;;
    _ <! map_err EReadRootPage (validateBNode oldRoot) ;;
    '(updatedRoot, deleted, obs) <~ deleteNode fuel oldRoot key [] ;;
    if negb deleted then ret (root, false)
    else
      let obsolete := obs ++ [root] in
      ty <! btype updatedRoot ;;
      n <! nkeys updatedRoot ;;
      newRoot <~
        (if (ty =? nodeTypeLeaf) && (n =? 1) then ret 0
         else if (ty =? nodeTypeInternal) && (n =? 0) then ret 0
         else if (ty =? nodeTypeInternal) && (n =? 1) then lift (getPtr updatedRoot 0)
         else cb_new cb updatedRoot) ;;
      _ <~ deleteAll obsolete ;;
      ret (newRoot, true).
End Tree.
