(* ===== verification/PageNodeSpec.v ===== *)
(** * Node-level correctness of page_tree.go

    What the pure helpers of the page tree do to the entry list of a node:
    position lookup, leaf edits, merging, and the split into at most three
    pages. *)

From S2P Require Import Prelude Errors Page PageTree.

Lemma len_take_drop {A} (a b c : list A) :
  take (length b) (drop (length a) (a ++ b ++ c)) = b.
Proof. rewrite drop_app_length. apply take_app_length. Qed.

Lemma node_sizes_app es fs : node_size (es ++ fs) = node_size es + node_size fs - 16.
Proof. unfold node_size, meta_size. rewrite len_app, recs_size_app. lia. Qed.
Lemma node_size_nonneg es : 16 <= node_size es.
Proof. unfold node_size, meta_size. pose proof (len_nonneg es). pose proof (recs_size_nonneg es). lia. Qed.
Lemma node_size_one ty e : entry_ok ty e -> node_size [e] <= 4030.
Proof.
  intros H. pose proof (entry_ok_size _ _ H). unfold node_size, meta_size.
  change (len [e]) with 1. cbn [recs_size]. lia.
Qed.

Lemma node_of_fits b cap ty es : node_of b cap ty es -> node_size es <= cap.
Proof. intros [B _]. apply (built_fits _ _ _ _ _ B). Qed.

(** Copying a segment of a node. *)
Lemma nodeAppendRange_seg dst src cap cap' ty ty' n ds p seg q :
  built dst cap ty n ds -> built src cap' ty' (len (p ++ seg ++ q)) (p ++ seg ++ q) ->
  len ds + len seg <= n -> Forall (entry_ok ty) seg -> ssorted (map e_key (ds ++ seg)) ->
  appended cap ty n ds seg (nodeAppendRange dst src (len ds) (len p) (len seg)).
Proof.
  intros B BS Hn Hok Hs.
  pose proof (nodeAppendRange_appended dst src cap cap' ty ty' n ds (p ++ seg ++ q) (length p) (length seg)) as L.
  rewrite len_take_drop in L. apply L; try done. rewrite !length_app. lia.
Qed.

(** ** Position lookup *)

Lemma nodeLookupLE_ok b cap ty es1 e es2 key :
  node_of b cap ty (es1 ++ e :: es2) ->
  ble (e_key e) key -> Forall (fun x => blt key (e_key x)) es2 ->
  nodeLookupLE b key = Ok (len es1).
Proof.
  intros [B Hs] He Hgt. pose proof (built_bounds B) as Hb. unfold nodeLookupLE. rewrite (built_nkeys B).
  rewrite map_app in Hs. cbn in Hs.
  change (e :: es2) with ([e] ++ es2) in *. rewrite app_assoc in *.
  rewrite (search_list _ (fun x => bltb key (e_key x)) (es1 ++ [e]) es2).
  - rewrite len_app. change (len [e]) with 1. pose proof (len_nonneg es1).
    rewrite !len_app in Hb. change (len [e]) with 1 in Hb. pose proof (len_nonneg es2).
    replace (len es1 + 1 - 1) with (len es1) by lia. zdecide. by rewrite u16_small by lia.
  - intros i x Hx. pose proof (lookup_lt_Some _ _ _ Hx). rewrite u16_small by (unfold len in Hb; lia).
    by rewrite (built_getKey B _ _ Hx).
  - apply Forall_app. split; [|repeat constructor; border].
    apply ssorted_app in Hs as (_ & _ & Hs). apply Forall_forall. intros x Hx.
    assert (blt (e_key x) (e_key e)) by (apply Hs; [by apply list_elem_of_fmap; eauto|by left]). border.
  - eapply Forall_impl; [done|]. cbn. intros. border.
Qed.

(** A sorted node splits at the last key not above a given one. *)
Lemma lookup_split es key :
  ssorted (map e_key es) -> (exists e0 r, es = e0 :: r /\ ble (e_key e0) key) ->
  exists es1 e es2, es = es1 ++ e :: es2 /\ ble (e_key e) key /\
    Forall (fun x => blt key (e_key x)) es2.
Proof.
  intros Hs (e0 & r & -> & He0). revert e0 He0 Hs.
  induction r as [|e1 r IH]; intros e0 He0 Hs; [by exists [], e0, []|].
  cbn in Hs. apply ssorted_cons in Hs as [Hs Hlt].
  destruct (decide (ble (e_key e1) key)) as [Hle|Hgt].
  - destruct (IH e1 Hle Hs) as (es1 & e & es2 & -> & ? & ?). by exists (e0 :: es1), e, es2.
  - exists [], e0, (e1 :: r). split_and!; [done..|]. constructor; [border|].
    apply ssorted_cons in Hs as [_ Hs]. apply Forall_forall. intros x Hx.
    assert (blt (e_key e1) (e_key x)) by (apply Hs, list_elem_of_fmap; eauto). border.
Qed.

(** ** Fresh nodes *)

Lemma fresh_node cap ty n :
  10 <= cap <= 2 * pageSize -> 0 <= ty < 65536 -> 0 <= n -> meta_size n <= cap ->
  exists b, setHeader (make cap) ty n = Ok b /\ built b cap ty n [].
Proof.
  intros. apply built_setHeader; try done. unfold make, len. rewrite length_replicate. lia.
Qed.

(** Building [p ++ mid ++ q] out of a node [p ++ old ++ q] by copying the prefix,
    appending the entries [mid] and copying the suffix. *)
Lemma splice src cap cap' ty p old mid q (k : bytes -> res bytes) u0 n :
  built src cap' ty (len (p ++ old ++ q)) (p ++ old ++ q) ->
  built u0 cap ty n [] -> n = len (p ++ mid ++ q) ->
  ssorted (map e_key (p ++ mid ++ q)) ->
  (forall b, built b cap ty n p -> appended cap ty n p mid (k b)) ->
  appended cap ty n [] (p ++ mid ++ q)
    (u1 <- nodeAppendRange u0 src 0 0 (len p) ;;
     u2 <- k u1 ;;
     nodeAppendRange u2 src (len (p ++ mid)) (len (p ++ old)) (len q)).
Proof.
  intros BS B0 -> Hs Hk. pose proof (built_entries _ _ _ _ _ BS) as Hok.
  apply Forall_app in Hok as [Hp Hq]. apply Forall_app in Hq as [_ Hq].
  pose proof (len_nonneg mid). pose proof (len_nonneg q).
  apply appended_bind.
  - apply (nodeAppendRange_seg u0 src cap cap' ty ty _ [] [] p (old ++ q)); try done.
    + rewrite !len_app. change (len []) with 0. lia.
    + rewrite map_app in Hs. cbn. by apply ssorted_app in Hs as (? & _).
  - intros u1 B1. cbn [app] in *. apply appended_bind; [by apply Hk|].
    intros u2 B2. rewrite app_assoc in BS.
    apply (nodeAppendRange_seg u2 src cap cap' ty ty _ (p ++ mid) (p ++ old) q []); rewrite ?app_nil_r; try done.
    + rewrite !len_app. lia.
    + by rewrite <- app_assoc.
Qed.

Lemma appended_node cap ty es r :
  appended cap ty (len es) [] es r -> ssorted (map e_key es) -> node_size es <= cap ->
  exists b, r = Ok b /\ node_of b cap ty es.
Proof.
  intros A Hs Hf. apply appended_ok in A as (b & -> & B); [|done]. exists b. split; [done|].
  by split.
Qed.

(** ** Leaf edits *)

Lemma len_one {A} (x : A) : len [x] = 1.
Proof. done. Qed.

Lemma two_pages : 2 * pageSize = 8192.
Proof. done. Qed.

Lemma leafInsertEncoded_ok old p q e :
  page_of old nodeTypeLeaf (p ++ q) -> entry_ok nodeTypeLeaf e ->
  ssorted (map e_key (p ++ e :: q)) ->
  exists u, leafInsertEncoded old (len p) (e_key e) (e_val e) = Ok u /\
    node_of u (2 * pageSize) nodeTypeLeaf (p ++ e :: q).
Proof.
  intros [B Hso] He Hs. pose proof (built_bounds B) as Hb. unfold leafInsertEncoded.
  pose proof (entry_ok_size _ _ He) as Hsz. pose proof (len_nonneg p). pose proof (len_nonneg q).
  assert (Hn : len (p ++ e :: q) = len (p ++ q) + 1) by (rewrite !len_app, len_cons; lia).
  assert (Hfit : node_size (p ++ e :: q) <= 2 * pageSize).
  { pose proof (node_of_fits _ _ _ _ {| node_built := B; node_sorted := Hso |}) as Hf.
    unfold node_size, meta_size in *. rewrite Hn, recs_size_app in *. cbn [recs_size].
    unfold pageSize in *. lia. }
  rewrite (built_nkeys B). rewrite u16_small by lia.
  destruct (fresh_node (2 * pageSize) nodeTypeLeaf (len (p ++ q) + 1)) as (u0 & -> & B0);
    [unfold pageSize; lia|unfold nodeTypeLeaf; lia|lia| |].
  { rewrite <- Hn. pose proof (recs_size_nonneg (p ++ e :: q)). unfold node_size in Hfit. lia. }
  rewrite len_app in *. replace (len p + len q - len p) with (len q) by lia.
  rewrite !u16_small by lia. apply appended_node; [|done..].
  pose proof (splice old (2 * pageSize) pageSize nodeTypeLeaf p [] [e] q
    (fun b => nodeAppendKV b (len p) 0 (e_key e) (e_val e)) u0 (len p + len q + 1)) as A.
  rewrite app_nil_r, !len_app, !len_one in A. cbn [app] in A. rewrite len_app in Hn. rewrite len_app, Hn.
  apply A; auto.
  - rewrite len_cons in Hn. lia.
  - intros b Bb. assert (e_ptr e = 0) as <-.
    { destruct He as (_&_&_&_&[[_ ->]|[? _]]); done. }
    eapply nodeAppendKV_appended; eauto. lia.
Qed.

Lemma leafUpdateEncoded_ok old p x q e :
  page_of old nodeTypeLeaf (p ++ x :: q) -> entry_ok nodeTypeLeaf e ->
  ssorted (map e_key (p ++ e :: q)) ->
  exists u, leafUpdateEncoded old (len p) (e_key e) (e_val e) = Ok u /\
    node_of u (2 * pageSize) nodeTypeLeaf (p ++ e :: q).
Proof.
  intros [B Hso] He Hs. pose proof (built_bounds B) as Hb. unfold leafUpdateEncoded.
  pose proof (entry_ok_size _ _ He) as Hsz. pose proof (len_nonneg p). pose proof (len_nonneg q).
  assert (Hn : len (p ++ e :: q) = len (p ++ x :: q)) by (rewrite !len_app, !len_cons; lia).
  assert (Hx : len (p ++ x :: q) = len p + len q + 1) by (rewrite len_app, len_cons; lia).
  assert (Hfit : node_size (p ++ e :: q) <= 2 * pageSize).
  { pose proof (node_of_fits _ _ _ _ {| node_built := B; node_sorted := Hso |}) as Hf.
    unfold node_size, meta_size in *. rewrite Hn, recs_size_app in *. cbn [recs_size] in *.
    pose proof (rec_size_pos x). unfold pageSize in *. lia. }
  rewrite (built_nkeys B).
  destruct (fresh_node (2 * pageSize) nodeTypeLeaf (len (p ++ x :: q))) as (u0 & -> & B0);
    [unfold pageSize; lia|unfold nodeTypeLeaf; lia|lia| |].
  { rewrite <- Hn. pose proof (recs_size_nonneg (p ++ e :: q)). unfold node_size in Hfit. lia. }
  rewrite Hx in *. replace (len p + len q + 1 - len p - 1) with (len q) by lia.
  rewrite !u16_small by lia. apply appended_node; [|done..].
  pose proof (splice old (2 * pageSize) pageSize nodeTypeLeaf p [x] [e] q
    (fun b => nodeAppendKV b (len p) 0 (e_key e) (e_val e)) u0 (len p + len q + 1)) as A.
  rewrite !len_app, !len_one in A. cbn [app] in A. rewrite Hn. apply A; auto.
  - by replace (len p + (1 + len q)) with (len p + len q + 1) by lia.
  - lia.
  - intros b Bb. assert (e_ptr e = 0) as <-.
    { destruct He as (_&_&_&_&[[_ ->]|[? _]]); done. }
    eapply nodeAppendKV_appended; eauto. lia.
Qed.

(** Removing one entry: the common body of [leafDeleteEncoded] and
    [removeChildEncoded]. *)
Lemma removeEntry_ok old ty p x q :
  page_of old ty (p ++ x :: q) ->
  exists u,
    (u0 <- setHeader (make pageSize) ty (u16 (len (p ++ x :: q) - 1)) ;;
     u1 <- nodeAppendRange u0 old 0 0 (len p) ;;
     nodeAppendRange u1 old (len p) (u16 (len p + 1)) (u16 (len (p ++ x :: q) - len p - 1))) = Ok u /\
    page_of u ty (p ++ q).
Proof.
  intros [B Hso]. pose proof (built_bounds B) as Hb.
  pose proof (len_nonneg p). pose proof (len_nonneg q). pose proof (rec_size_pos x).
  assert (Hx : len (p ++ x :: q) = len p + len q + 1) by (rewrite len_app, len_cons; lia).
  assert (Hs : ssorted (map e_key (p ++ q))).
  { rewrite !map_app in *. cbn in Hso. apply ssorted_app in Hso as (? & Hc & Hlt).
    apply ssorted_cons in Hc as [? _]. apply ssorted_app. split_and!; [done..|].
    intros. apply Hlt; [done|by right]. }
  assert (Hfit : node_size (p ++ q) <= pageSize).
  { pose proof (node_of_fits _ _ _ _ {| node_built := B; node_sorted := Hso |}) as Hf.
    unfold node_size, meta_size in *. rewrite !len_app, len_cons, !recs_size_app in *. cbn [recs_size] in *. lia. }
  rewrite Hx in *. replace (len p + len q + 1 - len p - 1) with (len q) by lia.
  rewrite !u16_small by lia. replace (len p + len q + 1 - 1) with (len (p ++ q)) by (rewrite len_app; lia).
  destruct (fresh_node pageSize ty (len (p ++ q))) as (u0 & -> & B0);
    [unfold pageSize; lia|apply (built_ty _ _ _ _ _ B)|apply len_nonneg| |].
  { pose proof (recs_size_nonneg (p ++ q)). unfold node_size in Hfit. lia. }
  apply appended_node; [|done..].
  pose proof (splice old pageSize pageSize ty p [x] [] q (fun b => Ok b) u0 (len (p ++ q))) as A.
  rewrite app_nil_r in A. rewrite !len_app, len_one in A. cbn [app] in A. rewrite len_app.
  apply A; auto.
  - by replace (len p + (1 + len q)) with (len p + len q + 1) by lia.
  - by rewrite <- len_app.
  - intros b Bb. unfold appended. rewrite app_nil_r. pose proof (built_fits _ _ _ _ _ Bb). zdecide. eauto.
Qed.

Lemma leafDeleteEncoded_ok old p x q :
  page_of old nodeTypeLeaf (p ++ x :: q) ->
  exists u, leafDeleteEncoded old (len p) = Ok u /\ page_of u nodeTypeLeaf (p ++ q).
Proof.
  intros P. pose proof P as [B _]. unfold leafDeleteEncoded. rewrite (built_nkeys B).
  by apply removeEntry_ok.
Qed.
Lemma removeChildEncoded_ok old p x q :
  page_of old nodeTypeInternal (p ++ x :: q) ->
  exists u, removeChildEncoded old (len p) = Ok u /\ page_of u nodeTypeInternal (p ++ q).
Proof.
  intros P. pose proof P as [B _]. unfold removeChildEncoded. rewrite (built_nkeys B).
  by apply removeEntry_ok.
Qed.

(** ** Merging siblings *)

Lemma mergeEncodedNodes_ok l r ty es1 es2 :
  page_of l ty es1 -> page_of r ty es2 -> ssorted (map e_key (es1 ++ es2)) ->
  if node_size (es1 ++ es2) <=? pageSize
  then exists m, mergeEncodedNodes l r = Ok (Some m) /\ page_of m ty (es1 ++ es2)
  else mergeEncodedNodes l r = Ok None.
Proof.
  intros [Bl Hl] [Br Hr] Hs. unfold mergeEncodedNodes.
  pose proof (built_bounds Bl). pose proof (built_bounds Br).
  rewrite (built_btype Bl), (built_btype Br), (built_nkeys Bl), (built_nkeys Br), Z.eqb_refl.
  cbn [negb]. rewrite (built_getOffset_end Bl), (built_getOffset_end Br), u16_small by lia.
  assert (Hsz : pageHeaderSize + (len es1 + len es2) * (pagePtrSize + pageOffsetSize) +
    (recs_size es1 + recs_size es2) = node_size (es1 ++ es2)).
  { unfold node_size, meta_size, pageHeaderSize, pagePtrSize, pageOffsetSize.
    rewrite len_app, recs_size_app. lia. }
  rewrite Hsz. rewrite Z.gtb_ltb, Z.ltb_antisym.
  destruct (node_size (es1 ++ es2) <=? pageSize) eqn:C; [|done]. cbn [negb]. zbool.
  rewrite <- len_app. destruct (fresh_node pageSize ty (len (es1 ++ es2))) as (m0 & -> & B0);
    [unfold pageSize; lia|apply (built_ty _ _ _ _ _ Bl)|apply len_nonneg| |].
  { unfold node_size in C. pose proof (recs_size_nonneg (es1 ++ es2)). lia. }
  assert (A : appended pageSize ty (len (es1 ++ es2)) [] (es1 ++ es2)
    (m1 <- nodeAppendRange m0 l 0 0 (len es1) ;; nodeAppendRange m1 r (len es1) 0 (len es2))).
  { apply appended_bind.
    - apply (nodeAppendRange_seg m0 l pageSize pageSize ty ty _ [] [] es1 []);
        rewrite ?app_nil_r; try done.
      + rewrite len_app, len_nil. lia.
      + apply (built_entries _ _ _ _ _ Bl).
    - intros m1 B1. cbn [app] in *.
      apply (nodeAppendRange_seg m1 r pageSize pageSize ty ty _ es1 [] es2 []);
        rewrite ?app_nil_r; try done.
      + rewrite len_app. lia.
      + apply (built_entries _ _ _ _ _ Br). }
  apply appended_node in A as (m & Hm & P); [|done..]. exists m. split; [|done].
  destruct (nodeAppendRange m0 l 0 0 (len es1)) as [m1| | |]; try done. by rewrite Hm.
Qed.

(** ** Splitting an oversized node *)

Lemma nodeRangeSize_ok u cap ty a seg c :
  built u cap ty (len (a ++ seg ++ c)) (a ++ seg ++ c) ->
  nodeRangeSize u (len a) (len seg) = Ok (node_size seg).
Proof.
  intros B. pose proof (built_bounds B) as Hb. unfold nodeRangeSize.
  rewrite !len_app in Hb. pose proof (len_nonneg a). pose proof (len_nonneg seg). pose proof (len_nonneg c).
  rewrite u16_small by lia.
  assert (O1 : getOffset u (len a + len seg) = Ok (recs_size (a ++ seg))).
  { rewrite <- len_app. unfold len. rewrite (built_getOffset B) by (rewrite !length_app; lia).
    by rewrite app_assoc, take_app_length. }
  assert (O0 : getOffset u (len a) = Ok (recs_size a)).
  { unfold len. rewrite (built_getOffset B) by (rewrite !length_app; lia). by rewrite take_app_length. }
  rewrite O1, O0, recs_size_app. replace (recs_size a + recs_size seg - recs_size a) with (recs_size seg) by lia.
  rewrite !recs_size_app in Hb. pose proof (recs_size_nonneg a). pose proof (recs_size_nonneg c).
  pose proof (recs_size_nonneg seg). unfold meta_size in Hb.
  rewrite u16_small by lia. done.
Qed.

Lemma copyNodeRange_ok u cap ty a seg c :
  node_of u cap ty (a ++ seg ++ c) -> ty = nodeTypeLeaf \/ ty = nodeTypeInternal ->
  node_size seg <= pageSize ->
  exists p, copyNodeRange u (len a) (len seg) = Ok p /\ page_of p ty seg.
Proof.
  intros [B Hso] Hty Hf. unfold copyNodeRange. rewrite (built_btype B).
  destruct (fresh_node pageSize ty (len seg)) as (c0 & -> & B0);
    [unfold pageSize; lia|apply (built_ty _ _ _ _ _ B)|apply len_nonneg| |].
  { unfold node_size in Hf. pose proof (recs_size_nonneg seg). lia. }
  assert (Hs : ssorted (map e_key seg)).
  { rewrite !map_app in Hso. apply ssorted_app in Hso as (_ & Hso & _). by apply ssorted_app in Hso as (? & _). }
  assert (A : appended pageSize ty (len seg) [] seg (nodeAppendRange c0 u 0 (len a) (len seg))).
  { apply (nodeAppendRange_seg c0 u pageSize cap ty ty _ [] a seg c); try done.
    pose proof (built_entries _ _ _ _ _ B) as Hok. apply Forall_app in Hok as [_ Hok].
    by apply Forall_app in Hok as [? _]. }
  apply appended_node in A as (p & -> & P); [|done..].
  rewrite (validateBNode_complete _ _ _ P Hty). eauto.
Qed.

(** [es] can be cut into at most [k] consecutive runs that each fit in a page. *)
Definition covers (k : nat) (es : list entry) : Prop :=
  exists segs, (length segs <= k)%nat /\ concat segs = es /\
    Forall (fun s => node_size s <= pageSize) segs.

Lemma node_size_prefix a b : node_size a <= node_size (a ++ b).
Proof. rewrite node_sizes_app. pose proof (node_size_nonneg b). lia. Qed.
Lemma node_size_suffix a b : node_size b <= node_size (a ++ b).
Proof. rewrite node_sizes_app. pose proof (node_size_nonneg a). lia. Qed.

Lemma covers_suffix k a b : covers k (a ++ b) -> covers k b.
Proof.
  intros (segs & Hl & Hc & Hf). revert k a Hl Hc. induction Hf as [|s segs Hs Hf IH]; intros k a Hl Hc.
  - cbn in Hc. symmetry in Hc. apply app_eq_nil in Hc as [-> ->]. exists []. by cbn in *.
  - cbn in Hc, Hl. destruct k as [|k]; [lia|].
    apply app_eq_app in Hc as [l [[-> Hb]|[-> Hb]]].
    + exists (l :: segs). split; [cbn; lia|]. split; [cbn; by subst|]. constructor; [|done].
      pose proof (node_size_suffix a l). lia.
    + destruct (IH k l) as (segs' & ? & ? & ?); [lia|done|]. exists segs'. split; [lia|done].
Qed.

(** The greedy cut: after the longest fitting prefix, one run fewer is needed. *)
Lemma covers_cut k p r :
  covers (S k) (p ++ r) ->
  (r = [] \/ exists x r', r = x :: r' /\ pageSize < node_size (p ++ [x])) ->
  covers k r.
Proof.
  intros (segs & Hl & Hc & Hf) [->|(x & r' & -> & Hbig)].
  { exists []. split; [cbn; lia|]. by split. }
  destruct segs as [|s segs]; [by destruct p|].
  apply Forall_cons in Hf as [Hs Hf]. cbn in Hl, Hc.
  apply app_eq_app in Hc as [l [[-> Hc]|[-> Hc]]].
  - destruct l as [|y l].
    + exists segs. split; [lia|]. by split.
    + exfalso. injection Hc as Hxy _. rewrite Hxy in Hbig.
      change (y :: l) with ([y] ++ l) in Hs. rewrite app_assoc in Hs.
      pose proof (node_size_prefix (p ++ [y]) l). lia.
  - assert (covers k (l ++ x :: r')) by (exists segs; split; [lia|by split]).
    by apply covers_suffix in H.
Qed.

Lemma splitEnd_ok fuel u cap ty a p r :
  built u cap ty (len (a ++ p ++ r)) (a ++ p ++ r) -> p <> [] -> (length r <= fuel)%nat ->
  node_size p <= pageSize ->
  exists p' r', p ++ r = p' ++ r' /\ p' <> [] /\
    splitEnd fuel u (len (a ++ p ++ r)) (len a) (len (a ++ p)) = Ok (len (a ++ p')) /\
    node_size p' <= pageSize /\
    (r' = [] \/ exists x r'', r' = x :: r'' /\ pageSize < node_size (p' ++ [x])).
Proof.
  revert p r. induction fuel as [|fuel IH]; intros p r B Hp Hfuel Hsz.
  - destruct r; [|cbn in Hfuel; lia]. exists p, []. split; [done|]. split; [done|].
    rewrite !app_nil_r. unfold splitEnd. rewrite Z.ltb_irrefl. eauto.
  - destruct r as [|x r].
    { exists p, []. split; [done|]. split; [done|]. rewrite !app_nil_r.
      cbn [splitEnd]. rewrite Z.ltb_irrefl. eauto. }
    pose proof (built_bounds B) as Hb. cbn [splitEnd].
    rewrite !len_app, len_cons in *. pose proof (len_nonneg a). pose proof (len_nonneg p).
    pose proof (len_nonneg r). zdecide.
    replace (len a + len p - len a + 1) with (len (p ++ [x])) by (rewrite len_app, len_one; lia).
    rewrite u16_small by (rewrite len_app, len_one; lia).
    assert (B' : built u cap ty (len (a ++ (p ++ [x]) ++ r)) (a ++ (p ++ [x]) ++ r)).
    { rewrite !len_app, len_one, <- !app_assoc. cbn [app].
      by replace (len a + (len p + 1 + len r)) with (len a + (len p + (1 + len r))) by lia. }
    rewrite (nodeRangeSize_ok u cap ty a (p ++ [x]) r B').
    destruct (node_size (p ++ [x]) <=? pageSize) eqn:C; zbool.
    + destruct (IH (p ++ [x]) r B') as (p' & r' & Heq & Hp' & He & ?); [by destruct p|cbn in Hfuel; lia|done|].
      exists p', r'. split; [by rewrite <- Heq, <- app_assoc|]. split; [done|]. split; [|done].
      rewrite u16_small by lia. rewrite !len_app, len_one in He.
      rewrite len_app, <- He. f_equal; lia.
    + exists p, (x :: r). split; [done|]. split; [done|]. rewrite len_app. split; [done|]. split; [done|].
      right. by exists x, r.
Qed.

Lemma split_loop_ok fuel u cap ty a r k parts :
  node_of u cap ty (a ++ r) -> ty = nodeTypeLeaf \/ ty = nodeTypeInternal ->
  (length r <= fuel)%nat -> covers k r -> (length parts + k <= 3)%nat ->
  exists ps rss, split_loop fuel u (len (a ++ r)) (len a) parts = Ok (parts ++ ps) /\
    (length ps <= k)%nat /\ concat rss = r /\
    Forall2 (fun p rs => page_of p ty rs /\ rs <> []) ps rss.
Proof.
  intros N Hty. pose proof N as [B Hso]. pose proof (built_bounds B) as Hb.
  revert a r k parts N B Hso Hb. induction fuel as [|fuel IH]; intros a r k parts N B Hso Hb Hfuel Hcov Hk;
    (destruct r as [|x r];
      [exists [], []; rewrite !app_nil_r; cbn [split_loop]; rewrite Z.ltb_irrefl;
       split_and!; try done; cbn; lia|]); [cbn in Hfuel; lia|].
  cbn [split_loop]. rewrite len_app in Hb. pose proof (len_nonneg a). pose proof (len_nonneg r).
  rewrite len_cons in Hb. rewrite (proj2 (Z.ltb_lt _ _)) by (rewrite len_app, len_cons; lia).
  change (x :: r) with ([x] ++ r) in *.
  assert (He : node_size [x] <= pageSize).
  { pose proof (built_entries _ _ _ _ _ B) as Hok. apply Forall_app in Hok as [_ Hok].
    apply Forall_app in Hok as [Hok _]. inversion Hok. unfold pageSize.
    pose proof (node_size_one ty x ltac:(done)). lia. }
  rewrite u16_small by lia. replace (len a + 1) with (len (a ++ [x])) by (by rewrite len_app).
  destruct (splitEnd_ok (Z.to_nat (len (a ++ [x] ++ r))) u cap ty a [x] r B) as (p & r' & Heq & Hp & -> & Hsz & Hmax);
    [done|unfold len; rewrite !length_app; lia|done|].
  pose proof (len_nonneg p). pose proof (len_nonneg r').
  assert (Hlp : len p + len r' = 1 + len r).
  { pose proof (f_equal len Heq) as Hl. rewrite !len_app, len_one in Hl. lia. }
  assert (Hfl : (length r' <= fuel)%nat).
  { pose proof (f_equal length Heq) as Hl. cbn in Hl, Hfuel. rewrite length_app in Hl.
    destruct p; [done|]. cbn in Hl. lia. }
  rewrite Heq in *. replace (len (a ++ p) - len a) with (len p) by (rewrite len_app; lia).
  rewrite u16_small by lia. rewrite (nodeRangeSize_ok u cap ty a p r') by done. zdecide.
  destruct (copyNodeRange_ok u cap ty a p r' N Hty Hsz) as (page & -> & P).
  destruct k as [|k]; [destruct Hcov as ([|] & ? & Hcov & _); [by destruct p|cbn in *; lia]|].
  apply covers_cut in Hcov; [|done].
  assert (len (parts ++ [page]) <= 3) by (unfold len; rewrite length_app; cbn; lia). zdecide.
  rewrite (app_assoc a p r') in N |- *.
  destruct (IH (a ++ p) r' k (parts ++ [page])) as (ps & rss & Hl & ? & <- & ?); try apply N; try done.
  - apply (built_bounds (node_built _ _ _ _ N)).
  - rewrite length_app. cbn. lia.
  - exists (page :: ps), (p :: rss). rewrite Hl.
    split; [by rewrite <- app_assoc|]. split; [cbn; lia|]. split; [done|]. by constructor.
Qed.

(** [nodeSplit3] cuts a node into at most three pages that hold its entries in
    order, whenever three pages can hold them. *)
Lemma nodeSplit3_ok u cap ty es :
  node_of u cap ty es -> ty = nodeTypeLeaf \/ ty = nodeTypeInternal -> es <> [] -> covers 3 es ->
  exists ps rss, nodeSplit3 u = Ok ps /\ (1 <= length ps <= 3)%nat /\ concat rss = es /\
    Forall2 (fun p rs => page_of p ty rs /\ rs <> []) ps rss.
Proof.
  intros N Hty Hne Hcov. pose proof N as [B Hso]. unfold nodeSplit3.
  rewrite (built_nbytes _ _ _ _ B), (built_nkeys B).
  destruct (node_size es <=? pageSize) eqn:C; zbool.
  - destruct (copyNodeRange_ok u cap ty [] es []) as (p & Hp & P); rewrite ?app_nil_r; try done.
    change (len []) with 0 in Hp. rewrite Hp. exists [p], [es]. cbn. rewrite app_nil_r.
    split_and!; try done; try lia. constructor; [done|constructor].
  - destruct (split_loop_ok (Z.to_nat (len es)) u cap ty [] es 3 [] N Hty) as (ps & rss & Hs & Hl & <- & HF);
      [unfold len; lia|done|cbn; lia|].
    change (len []) with 0 in Hs. cbn [app] in Hs. rewrite Hs. exists ps, rss.
    split_and!; try done. destruct ps; [|cbn; lia]. inversion HF; subst. done.
Qed.
