(* ===== verification/PageResults.v ===== *)
(** * Results on encoded pages (src/internal/btree/page.go)

    The page format and its validator, the encoder and decoder of nodes, and
    the bounds of the page-building primitives. *)

From S2P Require Import Prelude Errors Page PageTree PageNodeSpec.

Definition is_node_type (ty : Z) : Prop := ty = nodeTypeLeaf \/ ty = nodeTypeInternal.

(** ** The validator *)

(** C27: [validateBNode] accepts a byte slice exactly when it is a well-formed
    page: one page long, magic, format and type of the header correct, and
    records that are contiguous from the end of the pointer and offset arrays,
    within the size limits, legal for the node type and strictly ascending by
    key with the empty sentinel only in front. On any other bytes it returns an
    error; it never reads out of range. *)
Theorem validateBNode_exact b :
  (validateBNode b = Ok tt <-> exists ty es, page_of b ty es /\ is_node_type ty) /\
  gives (validateBNode b) (fun _ => True).
Proof.
  split; [|apply validateBNode_total]. split; [apply validateBNode_sound|]. intros (ty & es & P & Hty). by eapply validateBNode_complete.
Qed.

(** On an accepted page every accessor is total below [nkeys]: no read
    leaves the page, keys and values respect their limits, and the keys increase
    strictly. *)
Theorem validated_reads b :
  validateBNode b = Ok tt ->
  exists n, nkeys b = Ok n /\ forall i, 0 <= i < n ->
    exists k v p, getKey b i = Ok k /\ getVal b i = Ok v /\ getPtr b i = Ok p /\
      len k <= maxKeySize /\ len v <= maxValueSize /\
      forall j, i < j < n -> exists k', getKey b j = Ok k' /\ blt k k'.
Proof.
  intros (ty & es & [B Hs] & _)%validateBNode_sound. exists (len es). split; [apply (built_nkeys B)|].
  assert (Hl : forall i, 0 <= i < len es -> exists e, es !! Z.to_nat i = Some e /\ i = Z.of_nat (Z.to_nat i)).
  { intros i Hi. destruct (lookup_lt_is_Some_2 es (Z.to_nat i)) as [e He]; [unfold len in Hi; lia|].
    exists e. split; [done|lia]. }
  intros i Hi. destruct (Hl i Hi) as (e & He & Hie).
  exists (e_key e), (e_val e), (e_ptr e). rewrite Hie.
  destruct (built_sizes B _ _ He) as [(Hk & Hv & _) _].
  split_and!; [by apply (built_getKey B)|by apply (built_getVal B)|by apply (built_getPtr B)|done|done|].
  intros j Hj. destruct (Hl j) as (e' & He' & Hje); [lia|]. exists (e_key e').
  rewrite Hje. split; [by apply (built_getKey B)|].
  rewrite <- (take_drop_middle _ _ _ He), map_app in Hs. cbn in Hs.
  apply ssorted_app in Hs as (_ & Hs & _). apply ssorted_cons in Hs as [_ Hs]. apply Hs, list_elem_of_fmap.
  exists e'. split; [done|]. apply list_elem_of_lookup. exists (Z.to_nat j - S (Z.to_nat i))%nat.
  rewrite lookup_drop. rewrite <- He'. f_equal. lia.
Qed.

(** ** Encoding and decoding *)

Definition uint64s (cs : list Z) : Prop := Forall (fun c => 0 <= c < 2 ^ 64) cs.

Lemma node_from_wf b ty es :
  page_of b ty es -> is_node_type ty ->
  pageNode_wf (node_from ty es) /\ uint64s (childPages (node_from ty es)) /\
  node_size (entries_of (node_from ty es)) <= pageSize.
Proof.
  intros P Hty. destruct (entries_node_from b ty es P Hty) as [_ He]. rewrite He.
  pose proof (node_of_fits _ _ _ _ P) as Hsz. pose proof P as [B Hs].
  pose proof (built_entries _ _ _ _ _ B) as Hok. split; [|split; [|done]].
  - unfold node_from. split; cbn.
    + unfold node_size in Hsz. pose proof (recs_size_nonneg es). unfold len in *. rewrite length_map. lia.
    + done.
    + apply Forall_map. eapply Forall_impl; [exact Hok|]. intros e He'. apply He'.
    + destruct (ty =? nodeTypeLeaf); [|done]. apply Forall_map. eapply Forall_impl; [exact Hok|]. intros e He'. apply He'.
    + intros -> i. rewrite !list_lookup_fmap. destruct (es !! i) as [e|] eqn:Hi; [|done]. cbn.
      intros [= Hk]. f_equal. rewrite Forall_lookup in Hok. apply (Hok _ _ Hi). done.
    + destruct Hty as [-> | ->]; cbn; [done|]. apply Forall_map. eapply Forall_impl; [exact Hok|].
      intros e (_&_&_&_&[[? _]|(_&?&_)]); done.
    + destruct (ty =? nodeTypeLeaf); by rewrite !length_map.
  - unfold node_from. destruct Hty as [-> | ->]; cbn; [constructor|]. apply Forall_map.
    eapply Forall_impl; [exact Hok|]. intros e He'. apply He'.
Qed.

(** A result that is a value or an error, never a panic. *)
Definition settles {A} (r : res A) : Prop := (exists a, r = Ok a) \/ exists e, r = Err e.

Lemma validateKeys_settles n ks : forall i prev, settles (validateKeys n ks i prev).
Proof.
  induction ks as [|k ks IH]; intros i prev; cbn [validateKeys]; [left; eauto|].
  repeat match goal with |- settles (if ?c then _ else _) => destruct c; [right; eauto; fail|] end. apply IH.
Qed.
Lemma validateValues_settles vs : forall i, settles (validateValues vs i).
Proof.
  induction vs as [|v vs IH]; intros i; cbn [validateValues]; [left; eauto|].
  destruct (_ >? _); [right; eauto|apply IH].
Qed.
Lemma validateChildPages_settles cs : forall i, settles (validateChildPages cs i).
Proof.
  induction cs as [|c cs IH]; intros i; cbn [validateChildPages]; [left; eauto|].
  destruct (_ =? _); [right; eauto|apply IH].
Qed.
Lemma validatePageNode_settles p : settles (validatePageNode p).
Proof.
  destruct p as [n|]; cbn [validatePageNode]; [|right; eauto].
  do 2 (match goal with |- settles (if ?c then _ else _) => destruct c; [right; eauto; fail|] end).
  destruct (validateKeys_settles n (keys n) 0 []) as [[a ->]|[e ->]]; [|right; eauto].
  destruct (leaf n);
    do 2 (match goal with |- settles (if ?c then _ else _) => destruct c; [right; eauto; fail|] end);
    [apply validateValues_settles|apply validateChildPages_settles].
Qed.

(** Decoding the page [encodePageNode] produced gives back the node. *)
Theorem encode_decode n b :
  uint64s (childPages n) -> encodePageNode (Some n) = Ok b -> decodePageNode b = Ok n.
Proof.
  intros Hc He. assert (W : pageNode_wf n).
  { apply validatePageNode_ok. unfold encodePageNode in He. by destruct (validatePageNode (Some n)) as [[]| | |]. }
  pose proof (encodePageNode_spec n W Hc) as S. destruct (_ <=? pageSize); [|congruence].
  destruct S as (p & Hp & P). rewrite He in Hp. injection Hp as ->.
  rewrite (decodePageNode_ok _ _ _ P); [by rewrite node_from_entries|].
  unfold pageNodeType. destruct (leaf n); auto.
Qed.

(** a decoded node encodes again, to a page that decodes to the same node
    (the bytes after the last record may differ). *)
Theorem decode_encode b n :
  decodePageNode b = Ok n ->
  exists b', encodePageNode (Some n) = Ok b' /\ decodePageNode b' = Ok n.
Proof.
  intros Hd. assert (Hv : validateBNode b = Ok tt)
    by (unfold decodePageNode in Hd; by destruct (validateBNode b) as [[]| | |]).
  apply validateBNode_sound in Hv as (ty & es & P & Hty).
  rewrite (decodePageNode_ok _ _ _ P Hty) in Hd. injection Hd as <-.
  destruct (node_from_wf b ty es P Hty) as (W & Hc & Hsz).
  pose proof (encodePageNode_spec _ W Hc) as S. rewrite (proj2 (Z.leb_le _ _) Hsz) in S.
  destruct S as (p & Hp & Pp). exists p. split; [done|].
  destruct (entries_node_from b ty es P Hty) as [Ht He]. rewrite Ht, He in Pp.
  by apply decodePageNode_ok.
Qed.

(** [encodePageNode] is total: it returns a page holding exactly the node's
    entries when the node is well-formed and its encoding fits in one page, and
    an error in every other case, a nil node included. *)
Theorem encode_total p :
  match p with Some n => uint64s (childPages n) | None => True end ->
  (exists n b, p = Some n /\ pageNode_wf n /\ node_size (entries_of n) <= pageSize /\
     encodePageNode p = Ok b /\ page_of b (pageNodeType n) (entries_of n)) \/
  ((forall n, p = Some n -> pageNode_wf n -> pageSize < node_size (entries_of n)) /\
   exists e, encodePageNode p = Err e).
Proof.
  intros Hc. destruct (validatePageNode_settles p) as [[[] Hv]|[e Hv]].
  - destruct p as [n|]; [|done]. pose proof (proj1 (validatePageNode_ok n) Hv) as W.
    pose proof (encodePageNode_spec n W Hc) as S.
    destruct (node_size (entries_of n) <=? pageSize) eqn:C; zbool.
    + left. destruct S as (b & ? & ?). by exists n, b.
    + right. split; [by intros ? [= <-]|eauto].
  - right. split.
    + intros n -> W%validatePageNode_ok. congruence.
    + exists e. unfold encodePageNode. by rewrite Hv.
Qed.

(** ** Building nodes *)

(** [nodeAppendKV] writes the next entry of a partially built node: when
    the record fits, the node holds that entry after the existing ones, which
    are unchanged; when it does not fit, the error is the overflow error; no
    write ever leaves the buffer. *)
Theorem nodeAppendKV_correct b cap ty n es e :
  built b cap ty n es -> len es < n -> entry_ok ty e -> ssorted (map e_key (es ++ [e])) ->
  if meta_size n + recs_size es + rec_size e <=? cap
  then exists b', nodeAppendKV b (len es) (e_ptr e) (e_key e) (e_val e) = Ok b' /\
         built b' cap ty n (es ++ [e])
  else nodeAppendKV b (len es) (e_ptr e) (e_key e) (e_val e) = Err ENodeExceedsPage.
Proof.
  intros B Hn He Hs. pose proof (nodeAppendKV_appended b cap ty n es e [] B Hn He Hs) as A.
  unfold appended in A. rewrite recs_size_app in A. cbn [recs_size] in A.
  by replace (meta_size n + (recs_size es + (rec_size e + 0))) with (meta_size n + recs_size es + rec_size e) in A by lia.
Qed.

(** [nodeSplit3] cuts an oversized node into at most three valid pages that
    hold its entries in order, whenever any division into three pages exists: the
    greedy cut never needs more pages than the best one, and no entry is lost. *)
Theorem nodeSplit3_correct u cap ty es :
  node_of u cap ty es -> is_node_type ty -> es <> [] -> covers 3 es ->
  exists ps rss, nodeSplit3 u = Ok ps /\ (1 <= length ps <= 3)%nat /\ concat rss = es /\
    Forall2 (fun p rs => page_of p ty rs /\ rs <> []) ps rss.
Proof. apply nodeSplit3_ok. Qed.

(** [mergeEncodedNodes] joins two adjacent siblings of one type exactly
    when their entries fit in one page together, and reports "does not fit"
    otherwise. *)
Theorem mergeEncodedNodes_correct l r ty es1 es2 :
  page_of l ty es1 -> page_of r ty es2 -> ssorted (map e_key (es1 ++ es2)) ->
  if node_size (es1 ++ es2) <=? pageSize
  then exists m, mergeEncodedNodes l r = Ok (Some m) /\ page_of m ty (es1 ++ es2)
  else mergeEncodedNodes l r = Ok None.
Proof. apply mergeEncodedNodes_ok. Qed.

(** ** Witnesses *)

Definition demo_leaf : pageNode :=
  {| leaf := true; keys := [[]; [Byte.x61]]; values := [[]; [Byte.x62]]; childPages := [] |}.
Definition demo_entries : list entry := [mkEntry 0 [] []; mkEntry 0 [Byte.x61] [Byte.x62]].

Lemma demo_leaf_wf : pageNode_wf demo_leaf.
Proof. apply validatePageNode_ok. reflexivity. Qed.
Lemma demo_page : exists b, encodePageNode (Some demo_leaf) = Ok b /\ page_of b nodeTypeLeaf demo_entries.
Proof. apply (encodePageNode_spec demo_leaf demo_leaf_wf). constructor. Qed.
Lemma demo_sorted : ssorted (map e_key demo_entries).
Proof. destruct demo_page as (b & _ & [_ H]). exact H. Qed.

Lemma validated_reads_witness : exists b n, nkeys b = Ok n /\ 0 <= 1 < 2 /\
  forall i, 0 <= i < n -> exists k, getKey b i = Ok k.
Proof.
  destruct demo_page as (b & _ & P).
  destruct (validated_reads b (validateBNode_complete _ _ _ P (or_introl eq_refl))) as (n & Hn & Hr).
  exists b, n. split; [exact Hn|]. split; [lia|]. intros i Hi. destruct (Hr i Hi) as (k & _ & _ & Hk & _). eauto.
Defined.
Lemma encode_decode_witness : exists b, encodePageNode (Some demo_leaf) = Ok b /\ decodePageNode b = Ok demo_leaf.
Proof.
  destruct demo_page as (b & Hb & _). exists b. split; [exact Hb|].
  apply (encode_decode demo_leaf b); [constructor|exact Hb].
Defined.
Lemma decode_encode_witness : exists b n, decodePageNode b = Ok n /\
  exists b', encodePageNode (Some n) = Ok b' /\ decodePageNode b' = Ok n.
Proof.
  destruct demo_page as (b & _ & P). pose proof (decodePageNode_ok b _ _ P (or_introl eq_refl)) as Hd.
  exists b, (node_from nodeTypeLeaf demo_entries). split; [exact Hd|]. exact (decode_encode b _ Hd).
Defined.
Lemma encode_total_witness : encodePageNode None = Err ENodeNil /\
  ((exists n b, None = Some n /\ pageNode_wf n /\ node_size (entries_of n) <= pageSize /\
     encodePageNode None = Ok b /\ page_of b (pageNodeType n) (entries_of n)) \/
   ((forall n, None = Some n -> pageNode_wf n -> pageSize < node_size (entries_of n)) /\
    exists e, encodePageNode None = Err e)).
Proof. split; [reflexivity|]. exact (encode_total None I). Defined.
Lemma nodeAppendKV_correct_witness : exists b0 b',
  nodeAppendKV b0 0 0 [] [] = Ok b' /\ built b' pageSize nodeTypeLeaf 1 [mkEntry 0 [] []].
Proof.
  destruct (fresh_node pageSize nodeTypeLeaf 1) as (b0 & _ & B0);
    [unfold pageSize; lia|unfold nodeTypeLeaf; lia|lia|unfold meta_size, pageSize; lia|].
  exists b0. apply (nodeAppendKV_correct b0 pageSize nodeTypeLeaf 1 [] (mkEntry 0 [] []) B0).
  - reflexivity.
  - destruct demo_page as (b & _ & [B _]). pose proof (built_entries _ _ _ _ _ B) as H. by inversion H.
  - apply ssorted_one.
Defined.
Lemma nodeSplit3_correct_witness : exists b ps rss, nodeSplit3 b = Ok ps /\ (1 <= length ps <= 3)%nat /\
  concat rss = demo_entries.
Proof.
  destruct demo_page as (b & _ & P).
  destruct (nodeSplit3_correct b pageSize nodeTypeLeaf demo_entries P (or_introl eq_refl) ltac:(discriminate))
    as (ps & rss & H1 & H2 & H3 & _).
  - exists [demo_entries]. split; [cbn; lia|]. split; [reflexivity|].
    constructor; [exact (node_of_fits _ _ _ _ P)|constructor].
  - exists b, ps, rss. split; [exact H1|]. split; [exact H2|exact H3].
Defined.
Lemma mergeEncodedNodes_correct_witness : exists l r m,
  mergeEncodedNodes l r = Ok (Some m) /\ page_of m nodeTypeLeaf demo_entries.
Proof.
  destruct demo_page as (b & _ & P).
  destruct (copyNodeRange_ok b pageSize nodeTypeLeaf [] [mkEntry 0 [] []] [mkEntry 0 [Byte.x61] [Byte.x62]] P (or_introl eq_refl))
    as (l & _ & Pl); [by vm_compute|].
  destruct (copyNodeRange_ok b pageSize nodeTypeLeaf [mkEntry 0 [] []] [mkEntry 0 [Byte.x61] [Byte.x62]] [] P (or_introl eq_refl))
    as (r & _ & Pr); [by vm_compute|].
  exists l, r. exact (mergeEncodedNodes_correct l r nodeTypeLeaf _ _ Pl Pr demo_sorted).
Defined.
