(* ===== verification/PageTreeSpec.v ===== *)
(** * Correctness of the page tree

    What a copy-on-write page tree represents, and that lookup, range scan,
    insertion and deletion implement the ordered contents of [KvList] over any
    page store that satisfies the [PageStore] interface. *)

From S2P Require Import Prelude KvList Errors Page PageTree PageNodeSpec.

(** ** The page store the tree runs on

    What the tree relies on about its three callbacks: [get] returns a stored
    page, [new] stores a page under an unused non-zero id as long as there is
    [room], [del] forgets a stored page and touches no other. *)
Class PageStore {St : Type} (cb : callbacks St) := {
  pages : St -> gmap Z bytes;
  room : St -> nat -> Prop;
  store_set : cb_set cb = true;
  room_le : forall st n n', (n <= n')%nat -> room st n' -> room st n;
  store_get : forall id b st, pages st !! id = Some b ->
    ends (cb_get cb id) st
      (fun b' st' => b' = b /\ pages st' = pages st /\ forall n, room st n -> room st' n) no_err;
  store_new : forall p st n, room st (S n) -> len p = pageSize ->
    ends (cb_new cb p) st
      (fun id st' => 0 < id < 2 ^ 64 /\ pages st !! id = None /\
         pages st' = <[id := p]> (pages st) /\ room st' n) no_err;
  store_del : forall id st n, is_Some (pages st !! id) -> room st n ->
    ends (cb_del cb id) st
      (fun _ st' => pages st' = base.delete id (pages st) /\ room st' n) no_err;
}.

(** ** Representation *)

Definition kv_of (e : entry) : kv := (e_key e, e_val e).
(** Node type at height [h] above the leaves. *)
Definition ty_of (h : nat) : Z := match h with O => nodeTypeLeaf | S _ => nodeTypeInternal end.
Definition first_key (es : list entry) : bytes :=
  match es with [] => [] | e :: _ => e_key e end.

(** [rep m h es kvs F]: in the pages [m], a node at height [h] with entries [es]
    holds the contents [kvs], and its descendants are exactly the pages [F],
    each referenced once. *)
Inductive rep (m : gmap Z bytes) : nat -> list entry -> list kv -> gset Z -> Prop :=
| rep_leaf es : rep m 0 es (map kv_of es) ∅
| rep_nil h : rep m (S h) [] [] ∅
| rep_cons h e es b ces kvs1 kvs2 F1 F2 :
    m !! e_ptr e = Some b -> page_of b (ty_of h) ces -> ces <> [] ->
    first_key ces = e_key e ->
    rep m h ces kvs1 F1 -> rep m (S h) es kvs2 F2 ->
    e_ptr e ∉ F1 -> {[e_ptr e]} ∪ F1 ## F2 ->
    rep m (S h) (e :: es) (kvs1 ++ kvs2) ({[e_ptr e]} ∪ F1 ∪ F2).

(** The tree rooted at page [root] stores [kvs] in the pages [F]: page 0 is the
    empty tree; otherwise the leftmost leaf starts with the empty sentinel. *)
Definition tree (m : gmap Z bytes) (h : nat) (root : Z) (kvs : list kv) (F : gset Z) : Prop :=
  (root = 0 /\ kvs = [] /\ F = ∅) \/
  (root <> 0 /\ kv_sorted (([], []) :: kvs) /\
   rep m (S h) [mkEntry root [] []] (([], []) :: kvs) F).

(** Disjointness of unions of footprints, by splitting it into its parts. *)
Ltac disj_split :=
  repeat match goal with
  | H : _ ∪ _ ## _ |- _ => rewrite disjoint_union_l in H; destruct H
  | H : _ ## _ ∪ _ |- _ => rewrite disjoint_union_r in H; destruct H
  end.
Ltac disj :=
  cbn [list_to_set] in *; disj_split;
  repeat first [rewrite disjoint_union_l | rewrite disjoint_union_r | split];
  first [assumption | symmetry; assumption | apply disjoint_empty_l | apply disjoint_empty_r | set_solver].

(** Pages added by two growing steps. *)
Lemma diff_trans (A B C : gset Z) : A ⊆ B -> B ⊆ C -> (B ∖ A) ∪ (C ∖ B) = C ∖ A.
Proof.
  intros H1 H2. apply set_eq. intros x. destruct (decide (x ∈ B)); set_solver.
Qed.

Lemma rep_agree m m' h es kvs F :
  rep m h es kvs F -> (forall id, id ∈ F -> m' !! id = m !! id) -> rep m' h es kvs F.
Proof.
  induction 1 as [es|h|h e es b ces kvs1 kvs2 F1 F2 Hm ? ? ? R1 IH1 R2 IH2 ? ?]; intros Ha; [constructor..|].
  econstructor; eauto.
  - rewrite Ha; [done|]. set_solver.
  - apply IH1. intros. apply Ha. set_solver.
  - apply IH2. intros. apply Ha. set_solver.
Qed.
Lemma rep_dom m h es kvs F : rep m h es kvs F -> F ⊆ dom m.
Proof.
  induction 1 as [es|h|h e es b ces kvs1 kvs2 F1 F2 Hm ? ? ? R1 IH1 R2 IH2 ? ?]; [set_solver..|].
  apply elem_of_dom_2 in Hm. set_solver.
Qed.
Lemma rep_mono m m' h es kvs F : rep m h es kvs F -> m ⊆ m' -> rep m' h es kvs F.
Proof.
  intros R Hs. eapply rep_agree; [done|]. intros id Hid.
  apply (rep_dom _ _ _ _ _ R) in Hid. apply elem_of_dom in Hid as [b Hb].
  rewrite Hb. eapply lookup_weaken; eauto.
Qed.

Lemma rep_empty m h kvs F : rep m h [] kvs F -> kvs = [] /\ F = ∅.
Proof. by inversion 1. Qed.

Lemma rep_app m h es1 es2 kvs F :
  rep m h (es1 ++ es2) kvs F <->
  exists kvs1 kvs2 F1 F2, rep m h es1 kvs1 F1 /\ rep m h es2 kvs2 F2 /\
    F1 ## F2 /\ kvs = kvs1 ++ kvs2 /\ F = F1 ∪ F2.
Proof.
  split.
  - destruct h as [|h].
    { inversion 1; subst. exists (map kv_of es1), (map kv_of es2), ∅, ∅.
      rewrite map_app. split_and!; try constructor; set_solver. }
    revert kvs F. induction es1 as [|e es1 IH]; cbn [app]; intros kvs F R.
    { exists [], kvs, ∅, F. split_and!; try done; try constructor; set_solver. }
    inversion R as [| |? ? ? b ces k1 k2 F1 F2]; subst.
    destruct (IH k2 F2) as (ka & kb & Fa & Fb & ? & ? & ? & -> & ->); [done|].
    exists (k1 ++ ka), kb, ({[e_ptr e]} ∪ F1 ∪ Fa), Fb.
    split_and!; [econstructor; eauto; set_solver|done|set_solver|by rewrite app_assoc|set_solver].
  - intros (kvs1 & kvs2 & F1 & F2 & R1 & R2 & D & -> & ->). destruct h as [|h].
    { inversion R1; inversion R2; subst. rewrite <- map_app, union_empty_r_L. constructor. }
    remember (S h) as h' eqn:Hh. revert D R2.
    induction R1 as [|h0|h0 e es b ces k1 k2 F1 F2' ? ? ? ? R1 IH1 R2' IH2 ? ?]; intros D R2; [done| |].
    { by rewrite union_empty_l_L. }
    cbn [app]. rewrite <- app_assoc, <- union_assoc_L. econstructor; eauto; [|set_solver].
    apply IH2; [done|set_solver|done].
Qed.

Lemma rep_one m h e kvs F :
  rep m (S h) [e] kvs F <->
  exists b ces F1, m !! e_ptr e = Some b /\ page_of b (ty_of h) ces /\ ces <> [] /\
    first_key ces = e_key e /\ rep m h ces kvs F1 /\ e_ptr e ∉ F1 /\ F = {[e_ptr e]} ∪ F1.
Proof.
  split.
  - inversion 1 as [| |? ? ? b ces k1 k2 F1 F2 ? ? ? ? ? R2]; subst.
    apply rep_empty in R2 as [-> ->]. exists b, ces, F1.
    rewrite app_nil_r, union_empty_r_L. done.
  - intros (b & ces & F1 & ? & ? & ? & ? & ? & ? & ->).
    rewrite <- (app_nil_r kvs), <- (union_empty_r_L ({[e_ptr e]} ∪ F1)).
    econstructor; eauto; [constructor|set_solver].
Qed.

(** The contents of a node start with its first key. *)
Lemma rep_head m h es kvs F :
  rep m h es kvs F -> es <> [] -> exists v kvs', kvs = (first_key es, v) :: kvs'.
Proof.
  induction 1 as [es|h|h e es b ces k1 k2 F1 F2 ? ? Hne Hk R1 IH1 R2 IH2 ? ?]; intros Hn; [|done|].
  - destruct es as [|e es]; [done|]. eexists _, _. done.
  - destruct (IH1 Hne) as (v & kvs' & ->). cbn. rewrite <- Hk. eauto.
Qed.

(** The separators of a node occur among the keys of its contents, in order. *)
Lemma rep_keys m h es kvs F : rep m h es kvs F -> map e_key es `sublist_of` kv_keys kvs.
Proof.
  induction 1 as [es|h|h e es b ces k1 k2 F1 F2 ? ? Hne Hk R1 IH1 R2 IH2 ? ?].
  - unfold kv_keys. rewrite map_map. done.
  - constructor.
  - destruct (rep_head _ _ _ _ _ R1 Hne) as (v & kvs' & ->). cbn. rewrite Hk.
    apply sublist_skip. unfold kv_keys in *. rewrite map_app. by apply sublist_inserts_l.
Qed.

Lemma above_head k p l : kv_sorted (p :: l) -> blt k p.1 -> above k (p :: l).
Proof.
  rewrite kv_sorted_cons. intros [_ Ha] Hk. constructor; [done|].
  eapply Forall_impl; [exact Ha|]. cbn. intros. border.
Qed.

(** The child a lookup for [key] descends into, and the contents before and
    after it. *)
Record focus (m : gmap Z bytes) (h : nat) (key : bytes) (es1 : list entry) (e : entry) (es2 : list entry)
    (k1 kc k2 : list kv) (F1 Fc F2 : gset Z) (b : bytes) (ces : list entry) : Prop := {
  fo_left : rep m (S h) es1 k1 F1;
  fo_page : m !! e_ptr e = Some b;
  fo_node : page_of b (ty_of h) ces;
  fo_ne : ces <> [];
  fo_first : first_key ces = e_key e;
  fo_child : rep m h ces kc Fc;
  fo_right : rep m (S h) es2 k2 F2;
  fo_fresh : e_ptr e ∉ Fc;
  fo_disj1 : F1 ## {[e_ptr e]} ∪ Fc ∪ F2;
  fo_disj2 : {[e_ptr e]} ∪ Fc ## F2;
  fo_below : below key k1;
  fo_above : above key k2;
  fo_sorted : kv_sorted kc;
}.

Lemma rep_focus m h key es1 e es2 kvs F :
  rep m (S h) (es1 ++ e :: es2) kvs F -> kv_sorted kvs ->
  ble (e_key e) key -> Forall (fun x => blt key (e_key x)) es2 ->
  exists k1 kc k2 F1 Fc F2 b ces, focus m h key es1 e es2 k1 kc k2 F1 Fc F2 b ces /\
    kvs = k1 ++ kc ++ k2 /\ F = F1 ∪ ({[e_ptr e]} ∪ Fc ∪ F2).
Proof.
  intros R Hs Hle Hgt.
  apply rep_app in R as (k1 & kr & F1 & Fr & R1 & R & D & -> & ->).
  inversion R as [| |? ? ? b ces kc k2 Fc F2 ? ? ? ? Rc R2]; subst.
  apply kv_sorted_app in Hs as (S1 & Hs & Hlt). apply kv_sorted_app in Hs as (Sc & S2 & _).
  exists k1, kc, k2, F1, Fc, F2, b, ces. split; [|done]. split; try done.
  - destruct (rep_head _ _ _ _ _ Rc) as (v & kc' & ->); [done|].
    apply Forall_forall. intros p Hp. specialize (Hlt p (first_key ces, v) Hp). cbn in Hlt.
    assert (blt p.1 (first_key ces)) by (apply Hlt; left). replace (first_key ces) with (e_key e) in *. border.
  - destruct es2 as [|e2 es2]; [apply rep_empty in R2 as [-> _]; constructor|].
    destruct (rep_head _ _ _ _ _ R2) as (v & k2' & ->); [done|].
    apply above_head; [done|]. by inversion Hgt.
Qed.

(** ** Lookup *)

Lemma page_valid b h es : page_of b (ty_of h) es -> validateBNode b = Ok tt.
Proof. intros P. eapply validateBNode_complete; [done|]. destruct h; cbn; auto. Qed.

Lemma kv_get_leaf es1 e es2 key :
  ssorted (map e_key (es1 ++ e :: es2)) -> Forall (fun x => blt key (e_key x)) es2 ->
  ble (e_key e) key ->
  kv_get key (map kv_of (es1 ++ e :: es2)) = if beqb (e_key e) key then Some (e_val e) else None.
Proof.
  intros Hs Hgt Hle. rewrite map_app. rewrite map_app in Hs. cbn in Hs.
  apply ssorted_app in Hs as (_ & _ & Hlt).
  rewrite kv_get_below.
  - cbn [map]. cbn [kv_get kv_of]. destruct (beqb (e_key e) key); [done|].
    apply kv_get_above, Forall_map. done.
  - apply Forall_map, Forall_forall. intros x Hx. cbn.
    assert (blt (e_key x) (e_key e)) by (apply Hlt; [by apply list_elem_of_fmap; eauto|by left]). border.
Qed.

Section Correct.
Context {St : Type} (cb : callbacks St) {PS : PageStore cb}.

(** A read leaves the stored pages and the room alone. *)
Definition same (st st' : St) : Prop :=
  pages st' = pages st /\ forall n, room st n -> room st' n.

Lemma same_refl st : same st st.
Proof. by split. Qed.
Lemma same_trans st st1 st2 : same st st1 -> same st1 st2 -> same st st2.
Proof. intros [E1 R1] [E2 R2]. split; [by rewrite E2|auto]. Qed.

Lemma get_step {B} id b st (k : bytes -> stM St error B) Q R :
  pages st !! id = Some b ->
  (forall st', same st st' -> ends (k b) st' Q R) -> ends (bind (cb_get cb id) k) st Q R.
Proof.
  intros Hb K. eapply ends_step; [by apply store_get|]. cbn. intros b' st' [-> H]. by apply K.
Qed.

Lemma getValue_loop_ok h : forall fuel node key es kvs F st,
  (h < fuel)%nat -> page_of node (ty_of h) es -> es <> [] -> ble (first_key es) key ->
  rep (pages st) h es kvs F -> kv_sorted kvs ->
  ends (getValue_loop cb fuel node key) st (fun r st' => r = kv_get key kvs /\ same st st') no_err.
Proof.
  induction h as [|h IH]; intros [|fuel] node key es kvs F st Hf P Hne Hk R Hs; try lia;
    cbn [getValue_loop];
    (eapply ends_lift; [by rewrite (page_valid _ _ _ P)|]);
    pose proof P as [B Hso];
    (destruct (lookup_split es key Hso) as (es1 & e & es2 & -> & He & Hgt);
      [destruct es; [done|]; eauto|]);
    (eapply ends_lift; [by eapply nodeLookupLE_ok|]);
    (eapply ends_lift; [apply (built_btype B)|]).
  - cbn [ty_of]. rewrite Z.eqb_refl. inversion R; subst.
    eapply ends_lift; [apply (built_getKey B (length es1) e); by rewrite list_lookup_middle|].
    rewrite kv_get_leaf by done. destruct (beqb (e_key e) key); cbn [negb].
    + eapply ends_lift; [apply (built_getVal B (length es1) e); by rewrite list_lookup_middle|].
      split; [done|apply same_refl].
    + split; [done|apply same_refl].
  - change (ty_of (S h) =? nodeTypeLeaf) with false. cbv iota.
    eapply ends_lift; [apply (built_getPtr B (length es1) e); by rewrite list_lookup_middle|].
    destruct (rep_focus _ _ _ _ _ _ _ _ R Hs He Hgt)
      as (k1 & kc & k2 & F1 & Fc & F2 & b & ces & Fo & -> & ->). destruct Fo.
    eapply get_step; [done|]. intros st1 Hst1.
    eapply ends_mono; [apply (IH fuel b key ces kc Fc st1)| |done]; try done; [lia|by rewrite fo_first0| |].
    + by rewrite (proj1 Hst1).
    + cbn. intros r st2 [-> Hst2]. split; [|by eapply same_trans].
      rewrite kv_get_below, kv_get_app_above by done. done.
Qed.

Lemma getValue_ok h fuel root key kvs F st :
  tree (pages st) h root kvs F -> (h < fuel)%nat -> key <> [] ->
  ends (getValue cb fuel root key) st (fun r st' => r = kv_get key kvs /\ same st st') no_err.
Proof.
  intros T Hf Hk. unfold getValue.
  assert (len key <> 0) by (intros ?%len_0; done). zdecide.
  destruct T as [(-> & -> & ->)|(Hr & Hs & R)]; [split; [done|apply same_refl]|]. zdecide.
  eapply ends_lift; [unfold validateCallbacks; by rewrite store_set|].
  apply rep_one in R as (b & ces & F1 & Hb & P & Hne & Hfk & R & _ & _). cbn in *.
  eapply get_step; [done|]. intros st1 Hst1.
  eapply ends_mono; [apply (getValue_loop_ok h fuel b key ces (([], []) :: kvs) F1 st1)| |done]; try done.
  - rewrite Hfk. apply ble_nil.
  - by rewrite (proj1 Hst1).
  - cbn. intros r st2 [-> ?]. split; [|by eapply same_trans]. by destruct key.
Qed.
End Correct.
