(* ===== verification/PageInsertSpec.v ===== *)
(** * Insertion into the page tree

    [insert] returns a new root whose tree holds the contents with the key set,
    without overwriting a page of the old tree, and retires exactly pages the
    new tree does not use. *)

From S2P Require Import Prelude KvList Errors Page PageTree PageNodeSpec PageTreeSpec.

(** Record bytes of separator entries, which carry no value. *)
Fixpoint seps_size (ks : list bytes) : Z :=
  match ks with [] => 0 | k :: ks => 4 + len k + seps_size ks end.

Lemma seps_size_nonneg ks : 0 <= seps_size ks.
Proof. induction ks as [|k ks IH]; cbn [seps_size]; [lia|]. pose proof (len_nonneg k). lia. Qed.
Lemma seps_size_recs es :
  Forall (entry_ok nodeTypeInternal) es -> recs_size es = seps_size (map e_key es).
Proof.
  induction 1 as [|e es He _ IH]; [done|]. cbn. rewrite IH. unfold rec_size.
  destruct He as (_&_&_&_&[[? _]|(_&_&->)]); [done|]. rewrite len_nil. lia.
Qed.

Lemma separator_ok id k :
  0 < id < 2 ^ 64 -> len k <= maxKeySize -> entry_ok nodeTypeInternal (mkEntry id k []).
Proof.
  intros Hid Hk. unfold entry_ok. cbn. change (len (@nil byte)) with 0. unfold maxValueSize.
  split_and!; try done; try lia. right. split_and!; [done|lia|done].
Qed.

Lemma first_key_ok b ty es : page_of b ty es -> len (first_key es) <= maxKeySize.
Proof.
  intros [B _]. destruct es as [|e es]; [cbn; unfold maxKeySize; change (len (@nil byte)) with 0; lia|].
  pose proof (built_entries _ _ _ _ _ B) as Hok. inversion Hok as [|? ? He]. apply He.
Qed.
Lemma getKey_first b ty es : page_of b ty es -> es <> [] -> getKey b 0 = Ok (first_key es).
Proof. intros [B _] Hne. destruct es as [|e es]; [done|]. by apply (built_getKey B 0). Qed.

(** First keys of non-empty runs, in order. *)
Lemma first_keys_sublist rss :
  Forall (fun rs => rs <> []) rss -> map first_key rss `sublist_of` map e_key (concat rss).
Proof.
  induction 1 as [|rs rss Hne _ IH]; [done|]. cbn. rewrite map_app.
  destruct rs as [|e rs]; [done|]. cbn. apply sublist_skip. by apply sublist_inserts_l.
Qed.

(** The entry a leaf stores for a binding, and what setting it does to the
    contents of a leaf. *)
Definition leaf_entry (key value : bytes) : entry := mkEntry 0 key value.

Lemma leaf_entry_ok key value :
  key <> [] -> len key <= maxKeySize -> len value <= maxValueSize ->
  entry_ok nodeTypeLeaf (leaf_entry key value).
Proof. intros. unfold entry_ok. cbn. split_and!; try done. by left. Qed.

Lemma sentinel_ok : entry_ok nodeTypeLeaf (mkEntry 0 [] []).
Proof. unfold entry_ok. cbn [e_key e_val e_ptr]. split_and!; [by vm_compute..|]. by left. Qed.

Lemma kv_set_leaf es1 e es2 key value :
  ssorted (map e_key (es1 ++ e :: es2)) -> Forall (fun x => blt key (e_key x)) es2 ->
  ble (e_key e) key ->
  kv_set key value (map kv_of (es1 ++ e :: es2)) =
  map kv_of (es1 ++ (if beqb (e_key e) key then [] else [e]) ++ leaf_entry key value :: es2).
Proof.
  intros Hs Hgt Hle. rewrite !map_app in *. cbn [map] in *.
  apply ssorted_app in Hs as (_ & _ & Hlt). rewrite kv_set_below.
  - f_equal. change (kv_of e :: map kv_of es2) with ([kv_of e] ++ map kv_of es2).
    rewrite kv_set_above by (by apply Forall_map). cbn [kv_set kv_of].
    rewrite (bcmp_antisym (e_key e) key). unfold beqb.
    destruct (bcmp (e_key e) key) eqn:C; [done..|]. by destruct Hle.
  - apply Forall_map, Forall_forall. intros x Hx. cbn.
    assert (blt (e_key x) (e_key e)) by (apply Hlt; [by apply list_elem_of_fmap; eauto|by left]). border.
Qed.

Lemma leaf_set_sorted es1 e es2 key value :
  ssorted (map e_key (es1 ++ e :: es2)) -> Forall (fun x => blt key (e_key x)) es2 ->
  ble (e_key e) key ->
  ssorted (map e_key (es1 ++ (if beqb (e_key e) key then [] else [e]) ++ leaf_entry key value :: es2)).
Proof.
  intros Hs Hgt Hle.
  assert (Hk : forall es, map e_key es = kv_keys (map kv_of es)) by (intros; unfold kv_keys; by rewrite map_map).
  rewrite Hk in *. rewrite <- kv_set_leaf by (by rewrite ?Hk). by apply kv_sorted_set.
Qed.

Lemma leaf_covers p e q n b :
  page_of b nodeTypeLeaf n -> (n = p ++ q \/ exists x, n = p ++ x :: q) -> entry_ok nodeTypeLeaf e ->
  covers 3 (p ++ e :: q).
Proof.
  intros P Hn He. apply node_of_fits in P. exists [p; [e]; q]. split; [done|].
  split; [cbn; by rewrite app_nil_r|]. pose proof (node_size_one _ _ He).
  assert (node_size p <= pageSize /\ node_size q <= pageSize) as [? ?].
  { destruct Hn as [->|[x ->]]; [|change (x :: q) with ([x] ++ q) in P];
      rewrite !node_sizes_app in P; pose proof (node_size_nonneg p); pose proof (node_size_nonneg q);
      [|pose proof (node_size_nonneg [x])]; lia. }
  rewrite !Forall_cons. unfold pageSize in *. split_and!; [lia..|done].
Qed.

Lemma kv_set_sentinel key value kvs :
  key <> [] -> kv_set key value (([], []) :: kvs) = ([], []) :: kv_set key value kvs.
Proof. by destruct key. Qed.

(** A leaf edit: the node [insertNode] builds at height 0. *)
Lemma leafSet_ok node es1 e es2 key value :
  page_of node nodeTypeLeaf (es1 ++ e :: es2) -> Forall (fun x => blt key (e_key x)) es2 ->
  ble (e_key e) key -> entry_ok nodeTypeLeaf (leaf_entry key value) ->
  let es' := es1 ++ (if beqb (e_key e) key then [] else [e]) ++ leaf_entry key value :: es2 in
  exists u,
    (if beqb (e_key e) key then leafUpdateEncoded node (len es1) key value
     else leafInsertEncoded node (u16 (len es1 + 1)) key value) = Ok u /\
    node_of u (2 * pageSize) nodeTypeLeaf es' /\ covers 3 es' /\ first_key es' = first_key (es1 ++ [e]).
Proof.
  intros P Hgt Hle Hok es'. pose proof P as [B Hs]. pose proof (built_bounds B) as Hb.
  pose proof (leaf_set_sorted _ _ _ key value Hs Hgt Hle) as Hs'. subst es'.
  destruct (beqb (e_key e) key) eqn:C; cbn [app] in *.
  - destruct (leafUpdateEncoded_ok node es1 e es2 (leaf_entry key value) P Hok Hs') as (u & Hu & N).
    exists u. split; [exact Hu|]. split; [done|]. apply beqb_eq in C.
    split; [eapply leaf_covers; eauto|]. destruct es1; [by symmetry|done].
  - change (e :: leaf_entry key value :: es2) with ([e] ++ leaf_entry key value :: es2) in *.
    change (e :: es2) with ([e] ++ es2) in *. rewrite app_assoc in *.
    destruct (leafInsertEncoded_ok node (es1 ++ [e]) es2 (leaf_entry key value) P Hok Hs') as (u & Hu & N).
    exists u. rewrite !len_app, len_one in *. pose proof (len_nonneg es1). pose proof (len_nonneg es2).
    rewrite u16_small by lia. split; [exact Hu|]. split; [done|].
    split; [eapply leaf_covers; eauto|]. by destruct es1.
Qed.

Section Insert.
Context {St : Type} (cb : callbacks St) {PS : PageStore cb}.

Lemma new_step {B} p st n (k : Z -> stM St error B) Q R :
  room st (S n) -> len p = pageSize ->
  (forall id st', 0 < id < 2 ^ 64 -> id ∉ dom (pages st) -> pages st' = <[id := p]> (pages st) ->
     pages st ⊆ pages st' -> room st' n -> ends (k id) st' Q R) ->
  ends (bind (cb_new cb p) k) st Q R.
Proof.
  intros Hr Hp K. eapply ends_step; [by apply store_new|]. cbn. intros id st' (? & Hn & Hpg & ?).
  apply K; try done; [by apply not_elem_of_dom|]. rewrite Hpg. by apply insert_subseteq.
Qed.

(** Allocating the parts of a child and appending their separators. *)
Lemma appendChildren_ok h ps rss :
  Forall2 (fun p rs => page_of p (ty_of h) rs /\ rs <> []) ps rss ->
  forall u cap n pre idx i kvs F st k,
  built u cap nodeTypeInternal n pre ->
  idx + i = len pre -> 0 <= idx -> 0 <= i -> len pre + len rss <= n ->
  ssorted (map e_key pre ++ map first_key rss) ->
  meta_size n + recs_size pre + seps_size (map first_key rss) <= cap ->
  rep (pages st) h (concat rss) kvs F -> room st (length ps + k) ->
  ends (appendChildren cb u idx i ps) st (fun u' st' => exists mid F',
     built u' cap nodeTypeInternal n (pre ++ mid) /\ map e_key mid = map first_key rss /\
     rep (pages st') (S h) mid kvs F' /\ pages st ⊆ pages st' /\ room st' k /\
     F' = F ∪ (dom (pages st') ∖ dom (pages st))) no_err.
Proof.
  induction 1 as [|p rs ps rss [P Hne] Hps IH]; intros u cap n pre idx i kvs F st k B Hi Hi0 Hi1 Hn Hs Hf R Hr.
  { cbn in R. apply rep_empty in R as [-> ->]. exists [], ∅. rewrite app_nil_r.
    split_and!; try done; [constructor|]. by rewrite difference_diag_L, union_empty_l_L. }
  cbn [appendChildren]. pose proof (built_bounds B) as Hb. pose proof P as [BP _].
  eapply new_step; [exact Hr|apply (built_len _ _ _ _ _ BP)|].
  intros id st1 Hid Hfresh Hst1 Hsub Hroom.
  eapply ends_lift; [by eapply getKey_first|].
  set (e := mkEntry id (first_key rs) []).
  assert (He : entry_ok nodeTypeInternal e) by (apply separator_ok; [done|by eapply first_key_ok]).
  cbn [map seps_size] in Hf, Hs. rewrite len_cons in Hn. pose proof (len_nonneg rss).
  pose proof (seps_size_nonneg (map first_key rss)).
  assert (Hsz : rec_size e = 4 + len (first_key rs)) by (unfold rec_size; cbn; rewrite len_nil; lia).
  destruct (built_append u cap nodeTypeInternal n pre e B) as (u' & Hu & B'); [lia|done| |lia|].
  { intros Hk. cbn in Hk. destruct pre as [|x pre]; [done|]. rewrite Hk in Hs.
    apply ssorted_app in Hs as (_ & _ & Hs). exfalso. apply (not_blt_nil (e_key x)).
    apply Hs; [by left|by left]. }
  eapply ends_lift; [rewrite (u16_small i), u16_small, Hi by lia; exact Hu|].
  cbn [concat] in R. apply rep_app in R as (kv1 & kv2 & F1 & F2 & R1 & R2 & D & -> & ->).
  pose proof (rep_dom _ _ _ _ _ R1) as D1. pose proof (rep_dom _ _ _ _ _ R2) as D2.
  eapply ends_mono; [eapply (IH u' cap n (pre ++ [e]) idx (i + 1) kv2 F2 st1 k B')| |done]; try lia.
  - rewrite len_app, len_one. lia.
  - rewrite len_app, len_one. lia.
  - rewrite map_app, <- app_assoc. done.
  - rewrite recs_size_app. cbn [recs_size]. lia.
  - by eapply rep_mono.
  - done.
  - cbn. intros u2 st2 (mid & F' & B2 & Hk & R3 & Hsub2 & Hr2 & HF).
    exists (e :: mid), ({[id]} ∪ F1 ∪ F'). rewrite <- app_assoc in B2.
    assert (dom (pages st1) = {[id]} ∪ dom (pages st)) as Hd by (by rewrite Hst1, dom_insert_L).
    pose proof (subseteq_dom _ _ Hsub2) as Hd2.
    assert (Hdis : {[id]} ∪ F1 ## F').
    { rewrite HF, Hd. clear - D D1 D2 Hfresh. set_solver. }
    split_and!; try done.
    + cbn. by rewrite Hk.
    + apply (rep_cons _ h e mid p rs kv1 kv2 F1 F'); try done.
      * cbn. eapply lookup_weaken; [|exact Hsub2]. by rewrite Hst1, lookup_insert_eq.
      * eapply rep_mono; [exact R1|]. by etrans.
      * cbn. clear - D1 Hfresh. set_solver.
    + by etrans.
    + rewrite HF, <- (diff_trans (dom (pages st)) (dom (pages st1))) by (done || set_solver).
      rewrite Hd. clear - Hfresh. set_solver.
Qed.

Lemma replaceChild_covers p e mid q :
  node_size (p ++ e :: q) <= pageSize -> (length mid <= 3)%nat ->
  Forall (entry_ok nodeTypeInternal) (e :: mid) -> first_key mid = e_key e -> mid <> [] ->
  covers 3 (p ++ mid ++ q) /\ node_size (p ++ mid ++ q) <= 2 * pageSize.
Proof.
  intros Hsz Hl Hok Hk Hne. destruct mid as [|m1 mid]; [done|]. cbn in Hk.
  apply Forall_cons in Hok as [He Hok]. apply Forall_cons in Hok as [H1 Hok].
  assert (Hrec : forall x, entry_ok nodeTypeInternal x -> rec_size x = 4 + len (e_key x) /\ len (e_key x) <= 1000).
  { intros x (Hlk&_&_&_&[[? _]|(_&_&Hv)]); [done|]. unfold rec_size. rewrite Hv, len_nil.
    unfold maxKeySize in Hlk. lia. }
  pose proof (Hrec _ He). pose proof (Hrec _ H1). rewrite <- Hk in *. pose proof (len_nonneg (e_key m1)).
  assert (Htl : len mid <= 2 /\ recs_size mid <= 1004 * len mid).
  { split; [cbn in Hl; unfold len; lia|]. clear - Hok Hrec.
    induction Hok as [|x l Hx _ IH]; [done|]. rewrite len_cons. cbn [recs_size].
    pose proof (Hrec _ Hx). lia. }
  unfold node_size, meta_size in *.
  rewrite ?len_app, ?len_cons, ?recs_size_app in Hsz. cbn [recs_size] in Hsz.
  pose proof (len_nonneg p). pose proof (len_nonneg q). pose proof (len_nonneg mid).
  pose proof (recs_size_nonneg p). pose proof (recs_size_nonneg q). unfold pageSize in *.
  split.
  - exists [p ++ [m1]; mid; q]. split; [done|]. split; [cbn; by rewrite app_nil_r, <- app_assoc|].
    rewrite !Forall_cons. unfold node_size, meta_size, pageSize.
    rewrite len_app, len_one, recs_size_app. cbn [recs_size]. split_and!; [lia..|done].
  - rewrite ?len_app, ?len_cons, ?recs_size_app. cbn [recs_size]. lia.
Qed.

Lemma replaceChild_size p e q rss :
  node_size (p ++ e :: q) <= pageSize -> entry_ok nodeTypeInternal e ->
  Forall (fun rs => len (first_key rs) <= maxKeySize) rss -> (length rss <= 3)%nat ->
  (exists r0 rss0, rss = r0 :: rss0 /\ first_key r0 = e_key e) ->
  meta_size (len p + (len rss + len q)) +
    (recs_size p + (seps_size (map first_key rss) + recs_size q)) <= 2 * pageSize.
Proof.
  intros Hfit He Hok Hl (r0 & rss0 & Hrss & Hr0).
  set (fake := map (fun rs => mkEntry 1 (first_key rs) []) rss).
  assert (Hff : Forall (entry_ok nodeTypeInternal) fake).
  { apply Forall_map. eapply Forall_impl; [exact Hok|]. intros rs ?. by apply separator_ok. }
  destruct (replaceChild_covers p e fake q Hfit) as [_ Hsz]; unfold fake in *.
  { by rewrite length_map. } { by constructor. } { by rewrite Hrss. } { by rewrite Hrss. }
  unfold node_size in Hsz. rewrite !len_app, !recs_size_app in Hsz. rewrite (seps_size_recs _ Hff), map_map in Hsz.
  unfold len in *. rewrite length_map in Hsz. exact Hsz.
Qed.

Lemma replaceChild_ok h parent p e q ps rss kvs F st k :
  page_of parent nodeTypeInternal (p ++ e :: q) ->
  Forall2 (fun p rs => page_of p (ty_of h) rs /\ rs <> []) ps rss ->
  (1 <= length ps <= 3)%nat -> first_key (concat rss) = e_key e ->
  ssorted (map e_key p ++ map first_key rss ++ map e_key q) ->
  rep (pages st) h (concat rss) kvs F -> room st (length ps + k) ->
  ends (replaceChild cb parent (len p) ps) st (fun u st' => exists mid F',
     node_of u (2 * pageSize) nodeTypeInternal (p ++ mid ++ q) /\
     covers 3 (p ++ mid ++ q) /\ mid <> [] /\ first_key mid = e_key e /\
     rep (pages st') (S h) mid kvs F' /\ pages st ⊆ pages st' /\ room st' k /\
     F' = F ∪ (dom (pages st') ∖ dom (pages st))) no_err.
Proof.
  intros [BP HsP] Hps Hl Hfk Hs R Hr.
  pose proof (built_bounds BP) as Hb. pose proof (built_entries _ _ _ _ _ BP) as Hok.
  apply Forall_app in Hok as [Hokp Hok]. apply Forall_cons in Hok as [Hoke Hokq].
  assert (Hlen : length rss = length ps) by (symmetry; by eapply Forall2_length).
  assert (Hl' : len ps = len rss) by (unfold len; lia).
  pose proof (node_of_fits _ _ _ _ {| node_built := BP; node_sorted := HsP |}) as Hfit.
  assert (Hhd : exists r0 rss0, rss = r0 :: rss0 /\ first_key r0 = e_key e).
  { destruct rss as [|r0 rss0]; [cbn in Hlen; lia|]. exists r0, rss0. split; [done|].
    inversion Hps as [|? ? ? ? [_ Hne]]. by destruct r0. }
  assert (Hsz : meta_size (len p + (len rss + len q)) +
    (recs_size p + (seps_size (map first_key rss) + recs_size q)) <= 2 * pageSize).
  { apply (replaceChild_size p e q rss); try done; [|lia]. clear - Hps.
    induction Hps as [|? ? ? ? [P _] _ IH]; constructor; [by eapply first_key_ok|done]. }
  pose proof (len_nonneg p). pose proof (len_nonneg q). pose proof (len_nonneg rss).
  pose proof (recs_size_nonneg q).
  assert (Hn : len (p ++ e :: q) = len p + len q + 1) by (rewrite len_app, len_cons; lia).
  assert (len rss <= 3) by (unfold len; lia).
  unfold replaceChild. eapply ends_lift; [apply (built_nkeys BP)|]. rewrite Hn in *.
  replace (len p + len q + 1 + len ps - 1) with (len p + (len rss + len q)) by lia.
  rewrite (u16_small (len p + (len rss + len q))) by lia.
  destruct (fresh_node (2 * pageSize) nodeTypeInternal (len p + (len rss + len q))) as (u0 & Hu0 & B0);
    [unfold pageSize; lia|unfold nodeTypeInternal; lia|lia| |].
  { pose proof (recs_size_nonneg p). pose proof (seps_size_nonneg (map first_key rss)). lia. }
  eapply ends_lift; [exact Hu0|].
  destruct (appended_ok (2 * pageSize) nodeTypeInternal (len p + (len rss + len q)) [] p
    (nodeAppendRange u0 parent 0 0 (len p))) as (u1 & Hu1 & B1).
  { apply (nodeAppendRange_seg u0 parent _ pageSize _ nodeTypeInternal _ [] [] p (e :: q) B0); cbn [app].
    - by rewrite Hn.
    - rewrite len_nil. lia.
    - exact Hokp.
    - by apply ssorted_app in Hs as (? & _). }
  { cbn [app]. pose proof (seps_size_nonneg (map first_key rss)). lia. }
  cbn [app] in B1.
  eapply ends_lift; [exact Hu1|]. apply ends_bind.
  assert (Hs1 : ssorted (map e_key p ++ map first_key rss))
    by (rewrite app_assoc in Hs; by apply ssorted_app in Hs as (? & _)).
  eapply ends_mono; [apply (appendChildren_ok h ps rss Hps u1 (2 * pageSize) _ p (len p) 0 kvs F st k B1)|
    |done]; [lia..|exact Hs1|lia|exact R|exact Hr|].
  cbn beta. intros u2 st2 (mid & F' & B2 & Hk & R2 & Hsub & Hr2 & HF).
  assert (Hlm : len mid = len rss) by (apply (f_equal len) in Hk; unfold len in *; rewrite !length_map in Hk; lia).
  assert (Hokm : Forall (entry_ok nodeTypeInternal) mid)
    by (pose proof (built_entries _ _ _ _ _ B2) as Ho; by apply Forall_app in Ho as [_ ?]).
  assert (Hsall : ssorted (map e_key (p ++ mid ++ q))) by (by rewrite !map_app, Hk).
  assert (Hrm : recs_size mid = seps_size (map first_key rss)) by (by rewrite seps_size_recs, Hk).
  replace (u16 (len p + u16 (len ps))) with (len (p ++ mid))
    by (rewrite len_app, Hl', Hlm, (u16_small (len rss)), u16_small; lia).
  replace (u16 (len p + 1)) with (len (p ++ [e])) by (rewrite len_app, len_one, u16_small; lia).
  replace (u16 (len p + len q + 1 - len p - 1)) with (len q) by (rewrite u16_small; lia).
  destruct (appended_ok (2 * pageSize) nodeTypeInternal (len p + (len rss + len q)) (p ++ mid) q
    (nodeAppendRange u2 parent (len (p ++ mid)) (len (p ++ [e])) (len q))) as (u3 & Hu3 & B3).
  { apply (nodeAppendRange_seg u2 parent _ pageSize _ nodeTypeInternal _ (p ++ mid) (p ++ [e]) q [] B2);
      rewrite ?app_nil_r, <- ?app_assoc; cbn [app].
    - by rewrite Hn.
    - rewrite len_app. lia.
    - exact Hokq.
    - exact Hsall. }
  { rewrite <- app_assoc, !recs_size_app. lia. }
  unfold ends, lift. rewrite Hu3. rewrite <- app_assoc in B3.
  assert (Hmk : first_key mid = e_key e /\ mid <> []).
  { clear - Hk Hhd. destruct Hhd as (r0 & rss0 & -> & Hr0). destruct mid as [|m1 mid]; [done|]. cbn in *.
    injection Hk as -> _. by rewrite Hr0. }
  assert (Hn3 : len (p ++ mid ++ q) = len p + (len rss + len q)) by (rewrite !len_app; lia).
  rewrite <- Hn3 in B3.
  destruct (replaceChild_covers p e mid q Hfit) as [Hcov _];
    [unfold len in *; lia|by constructor|apply Hmk..|].
  clear - B3 Hsall Hcov Hmk R2 Hsub Hr2 HF. destruct Hmk. by exists mid, F'.
Qed.

(** The pages an update adds, keeps and retires. *)
Record grows (st st' : St) (F F' : gset Z) (O : list Z) : Prop := {
  gr_sub : pages st ⊆ pages st';
  gr_new : F' = (F ∖ list_to_set O) ∪ (dom (pages st') ∖ dom (pages st));
  gr_nodup : NoDup O;
  gr_old : list_to_set O ⊆ F;
}.

Lemma grows_refl st F : grows st st F F [].
Proof.
  split; [done|cbn; by rewrite difference_empty_L, difference_diag_L, union_empty_r_L|constructor|set_solver].
Qed.

Lemma separators_sorted m m' h es1 es2 rss ps k1 kc k2 F1 Fc F2 :
  rep m (S h) es1 k1 F1 -> rep m' h (concat rss) kc Fc -> rep m (S h) es2 k2 F2 ->
  Forall2 (fun p rs => page_of p (ty_of h) rs /\ rs <> []) ps rss ->
  kv_sorted (k1 ++ kc ++ k2) ->
  ssorted (map e_key es1 ++ map first_key rss ++ map e_key es2).
Proof.
  intros R1 Rc R2 Hps. apply ssorted_sublist. unfold kv_keys. rewrite !map_app.
  apply rep_keys in R1, Rc, R2. repeat apply sublist_app; try done.
  etrans; [apply first_keys_sublist|exact Rc]. clear - Hps. induction Hps as [|? ? ? ? []]; by constructor.
Qed.

(** Footprints of a node whose child was rebuilt: the siblings stay, the new
    child pages are disjoint from them. *)
Lemma insert_rep st st2 st3 h key es1 e es2 mid k1 kc kc' k2 F1 Fc F2 Fc' F' O b ces :
  focus (pages st) h key es1 e es2 k1 kc k2 F1 Fc F2 b ces ->
  grows st st2 Fc Fc' O -> pages st2 ⊆ pages st3 ->
  rep (pages st3) (S h) mid kc' F' -> F' = Fc' ∪ (dom (pages st3) ∖ dom (pages st2)) ->
  rep (pages st3) (S h) (es1 ++ mid ++ es2) (k1 ++ kc' ++ k2) (F1 ∪ F' ∪ F2).
Proof.
  intros [Rl Hpg Pc Hnec Hfc Rc Rr Hfr D1 D2 Hbl Hab Hsc] [Gs Gn _ Go] Hsub Rm HF'.
  pose proof (rep_dom _ _ _ _ _ Rl) as d1. pose proof (rep_dom _ _ _ _ _ Rr) as d2.
  pose proof (subseteq_dom _ _ Gs) as ds.
  assert (D3 : F1 ## F') by (clear - D1 HF' Gn d1 ds; set_solver).
  assert (D4 : F2 ## F') by (clear - D2 HF' Gn d2 ds; set_solver).
  apply rep_app. exists k1, (kc' ++ k2), F1, (F' ∪ F2). split_and!; try done.
  - eapply rep_mono; [done|by etrans].
  - apply rep_app. exists kc', k2, F', F2. split_and!; try done.
    eapply rep_mono; [done|by etrans].
  - clear - D1 D3. set_solver.
  - by rewrite union_assoc_L.
Qed.

Lemma insert_grows st st2 st3 h key es1 e es2 k1 kc k2 F1 Fc F2 Fc' F' O b ces :
  focus (pages st) h key es1 e es2 k1 kc k2 F1 Fc F2 b ces ->
  grows st st2 Fc Fc' O -> pages st2 ⊆ pages st3 ->
  F' = Fc' ∪ (dom (pages st3) ∖ dom (pages st2)) ->
  grows st st3 (F1 ∪ ({[e_ptr e]} ∪ Fc ∪ F2)) (F1 ∪ F' ∪ F2) (O ++ [e_ptr e]).
Proof.
  intros [Rl Hpg Pc Hnec Hfc Rc Rr Hfr D1 D2 Hbl Hab Hsc] [Gs Gn Gd Go] Hsub HF'.
  pose proof (subseteq_dom _ _ Gs) as ds. pose proof (subseteq_dom _ _ Hsub) as ds'.
  apply elem_of_dom_2 in Hpg. pose proof (rep_dom _ _ _ _ _ Rc) as dc.
  split; [by etrans| | |].
  - rewrite list_to_set_app_L. cbn [list_to_set].
    assert (A1 : F' = (Fc ∖ list_to_set O) ∪ (dom (pages st3) ∖ dom (pages st)))
      by (by rewrite HF', Gn, <- union_assoc_L, diff_trans).
    assert (A2 : F1 ## {[e_ptr e]} ∪ list_to_set O) by (clear - D1 Go; set_solver).
    assert (A3 : F2 ## {[e_ptr e]} ∪ list_to_set O) by (clear - D2 Go; set_solver).
    rewrite A1. clear - A2 A3 Hfr. set_solver.
  - apply NoDup_app. split_and!; [done| |apply NoDup_singleton].
    intros x Hx ->%list_elem_of_singleton. apply Hfr, Go, elem_of_list_to_set, Hx.
  - rewrite list_to_set_app_L. cbn [list_to_set]. clear - Go. set_solver.
Qed.

Lemma insertNode_ok h : forall fuel node key value obs es kvs F st k,
  (h < fuel)%nat -> page_of node (ty_of h) es -> es <> [] -> ble (first_key es) key ->
  rep (pages st) h es kvs F -> kv_sorted kvs ->
  entry_ok nodeTypeLeaf (leaf_entry key value) -> room st (3 * h + k) ->
  ends (insertNode cb fuel node key value obs) st (fun r st' => exists es' F' O,
     r.2 = obs ++ O /\ node_of r.1 (2 * pageSize) (ty_of h) es' /\ covers 3 es' /\ es' <> [] /\
     first_key es' = first_key es /\ rep (pages st') h es' (kv_set key value kvs) F' /\
     room st' k /\ grows st st' F F' O) no_err.
Proof.
  induction h as [|h IH]; intros [|fuel] node key value obs es kvs F st k Hf P Hne Hk R Hs Hok Hr; try lia;
    cbn [insertNode]; pose proof P as [B Hso];
    (destruct (lookup_split es key Hso) as (es1 & e & es2 & -> & He & Hgt);
      [destruct es; [done|]; eauto|]);
    (eapply ends_lift; [by eapply nodeLookupLE_ok|]);
    (eapply ends_lift; [apply (built_btype B)|]).
  - cbn [ty_of] in *. rewrite Z.eqb_refl. inversion R; subst.
    eapply ends_lift; [apply (built_getKey B (length es1) e); by rewrite list_lookup_middle|].
    destruct (leafSet_ok node es1 e es2 key value P Hgt He Hok) as (u & Hu & N & Hc & Hfk).
    rewrite kv_set_leaf by done.
    destruct (beqb (e_key e) key); (eapply ends_lift; [exact Hu|]);
      (eexists _, ∅, []; split; [by rewrite app_nil_r|]; split; [exact N|]; split; [exact Hc|];
       split; [by destruct es1|]; split; [by rewrite Hfk; destruct es1|]; split; [constructor|];
       split; [done|apply grows_refl]).
  - change (ty_of (S h) =? nodeTypeLeaf) with false. cbv iota.
    eapply ends_lift; [apply (built_getPtr B (length es1) e); by rewrite list_lookup_middle|].
    destruct (rep_focus _ _ _ _ _ _ _ _ R Hs He Hgt)
      as (k1 & kc & k2 & F1 & Fc & F2 & b & ces & Fo & -> & ->).
    pose proof Fo as [Rl Hpg Pc Hnec Hfc Rc Rr Hfr D1 D2 Hbl Hab Hsc].
    eapply get_step; [exact Hpg|]. intros st1 [Hp1 Hr1].
    eapply ends_lift; [by rewrite (page_valid _ _ _ Pc)|]. apply ends_bind.
    eapply ends_mono; [apply (IH fuel b key value obs ces kc Fc st1 (3 + k)%nat)| |done]; try done;
      [lia|by rewrite Hfc|by rewrite Hp1|apply Hr1; eapply room_le; [|exact Hr]; lia|].
    cbn beta. intros [uc obs'] st2 (ces' & Fc' & O & Ho & N & Hc & Hne' & Hfk & Rc' & Hr2 & G).
    cbn [fst snd] in *. subst obs'.
    assert (G' : grows st st2 Fc Fc' O) by (destruct G; split; by rewrite <- ?Hp1).
    destruct (nodeSplit3_ok _ _ _ _ N) as (ps & rss & Hsp & Hlp & Hcat & Hps); [destruct h; cbn; auto|done..|].
    eapply ends_lift; [exact Hsp|]. apply ends_bind. subst ces'.
    assert (Hset : kv_set key value (k1 ++ kc ++ k2) = k1 ++ kv_set key value kc ++ k2)
      by (by rewrite kv_set_below, kv_set_above).
    assert (Hs' : kv_sorted (k1 ++ kv_set key value kc ++ k2)) by (rewrite <- Hset; by apply kv_sorted_set).
    eapply ends_mono; [apply (replaceChild_ok h node es1 e es2 ps rss (kv_set key value kc) Fc' st2 (3 - length ps + k)%nat)|
      |done]; try done.
    + by rewrite Hfk.
    + eapply separators_sorted; eauto.
    + eapply room_le; [|exact Hr2]. lia.
    + cbn beta. intros u st3 (mid & F' & Nu & Hcu & Hnm & Hfm & Rm & Hsub & Hr3 & HF').
      exists (es1 ++ mid ++ es2), (F1 ∪ F' ∪ F2), (O ++ [e_ptr e]).
      split; [by rewrite app_assoc|]. split; [exact Nu|]. split; [exact Hcu|].
      split; [by destruct es1, mid|]. split; [by destruct es1, mid|].
      split; [|split; [eapply room_le; [|exact Hr3]; lia|]].
      * rewrite Hset. by eapply (insert_rep st st2 st3).
      * by eapply (insert_grows st st2 st3).
Qed.

(** Storing a page as the root of a one-entry list. *)
Lemma new_root_ok p h es kvs F st k :
  page_of p (ty_of h) es -> es <> [] -> first_key es = [] -> rep (pages st) h es kvs F -> room st (S k) ->
  ends (cb_new cb p) st (fun id st' =>
    id <> 0 /\ rep (pages st') (S h) [mkEntry id [] []] kvs (F ∪ (dom (pages st') ∖ dom (pages st))) /\
    pages st ⊆ pages st' /\ room st' k) no_err.
Proof.
  intros P Hne Hfk R Hr. pose proof P as [B _].
  eapply ends_mono; [apply (store_new p st k Hr); apply (built_len _ _ _ _ _ B)| |done].
  cbn. intros id st' (Hid & Hn & Hpg & Hr').
  assert (Hsub : pages st ⊆ pages st') by (rewrite Hpg; by apply insert_subseteq).
  apply not_elem_of_dom in Hn. pose proof (rep_dom _ _ _ _ _ R) as Hd.
  split; [lia|]. split; [|done]. apply rep_one. exists p, es, F. split_and!; try done.
  - cbn. by rewrite Hpg, lookup_insert_eq.
  - by eapply rep_mono.
  - cbn. set_solver.
  - cbn. rewrite Hpg, dom_insert_L. set_solver.
Qed.

Lemma newRoot_ok h ps rss kvs F st k :
  Forall2 (fun p rs => page_of p (ty_of h) rs /\ rs <> []) ps rss -> (1 <= length ps <= 3)%nat ->
  first_key (concat rss) = [] -> kv_sorted kvs ->
  rep (pages st) h (concat rss) kvs F -> room st (4 + k) ->
  ends (match ps with
        | [part] => cb_new cb part
        | _ =>
            n0 <! setHeader (make pageSize) nodeTypeInternal (u16 (len ps)) ;;
            n1 <~ appendChildren cb n0 0 0 ps ;;
            cb_new cb n1
        end) st (fun id st' => exists h', (h <= h' <= S h)%nat /\ id <> 0 /\
    rep (pages st') (S h') [mkEntry id [] []] kvs (F ∪ (dom (pages st') ∖ dom (pages st))) /\
    pages st ⊆ pages st' /\ room st' k) no_err.
Proof.
  intros Hps Hl Hfk Hs R Hr. destruct ps as [|p1 [|p2 ps]]; [cbn in Hl; lia| |].
  - inversion Hps as [|? rs ? ? [P Hne] Hnil]; subst. inversion Hnil; subst. cbn in *.
    rewrite app_nil_r in *. eapply ends_mono; [apply (new_root_ok p1 h rs kvs F st k); try done| |done].
    + eapply room_le; [|exact Hr]. lia.
    + cbn. intros id st' ?. exists h. split; [lia|done].
  - set (qs := p1 :: p2 :: ps) in *. assert (Hlen := Forall2_length _ _ _ Hps).
    assert (Hseps : ssorted (map first_key rss)).
    { pose proof (separators_sorted (pages st) (pages st) h [] [] rss qs [] kvs [] ∅ F ∅) as H.
      cbn [app map] in H. rewrite !app_nil_r in H. apply H; try done; constructor. }
    assert (Hlr : len qs = len rss /\ 1 <= len rss <= 3) by (unfold len; lia).
    rewrite u16_small by lia.
    assert (Hsz : meta_size (len rss) + seps_size (map first_key rss) <= pageSize).
    { assert (seps_size (map first_key rss) <= 1004 * len rss); [|unfold meta_size, pageSize; lia].
      clear - Hps. induction Hps as [|? ? ? ? [P _] _ IH]; [done|].
      rewrite len_cons. cbn [map seps_size]. apply first_key_ok in P. unfold maxKeySize in P. lia. }
    destruct (fresh_node pageSize nodeTypeInternal (len rss)) as (n0 & Hn0 & B0);
      [unfold pageSize; lia|unfold nodeTypeInternal; lia|lia| |].
    { pose proof (seps_size_nonneg (map first_key rss)). lia. }
    eapply ends_lift; [rewrite (proj1 Hlr); exact Hn0|]. apply ends_bind.
    assert (Hhd : exists r0 rss0, rss = r0 :: rss0 /\ first_key r0 = []).
    { clear - Hps Hfk. inversion Hps as [|? r0 ? rss0 [_ Hne] _]; subst. exists r0, rss0.
      split; [done|]. by destruct r0. }
    eapply ends_mono; [apply (appendChildren_ok h qs rss Hps n0 pageSize _ [] 0 0 kvs F st (4 - length qs + k)%nat B0)|
      |done]; [change (len (@nil entry)) with 0; lia..|exact Hseps|cbn [recs_size]; lia|exact R|
               eapply room_le; [|exact Hr]; lia|].
    cbn beta. intros n1 st1 (mid & F' & B1 & Hk & Rm & Hsub & Hr1 & HF). cbn [app] in B1.
    assert (Hlm : len mid = len rss) by (apply (f_equal length) in Hk; rewrite !length_map in Hk; unfold len; lia).
    assert (Pn : page_of n1 (ty_of (S h)) mid) by (split; [by rewrite Hlm|by rewrite Hk]).
    assert (Hm : mid <> [] /\ first_key mid = []).
    { destruct Hhd as (r0 & rss0 & -> & Hr0). destruct mid; [done|]. cbn in *. injection Hk as -> _. auto. }
    eapply ends_mono; [apply (new_root_ok n1 (S h) mid kvs F' st1 k Pn)| |done]; try apply Hm; [done| |].
    + eapply room_le; [|exact Hr1]. lia.
    + cbn beta. intros id st2 (Hid & R2 & Hsub2 & Hr2). exists (S h). split; [lia|]. split; [done|].
      split; [|split; [by etrans|done]].
      rewrite HF, <- union_assoc_L, diff_trans in R2 by (by apply subseteq_dom). exact R2.
Qed.

Lemma deleteAll_ok ids : forall st k,
  NoDup ids -> list_to_set ids ⊆ dom (pages st) -> room st k ->
  ends (deleteAll cb ids) st (fun _ st' => room st' k /\
    forall id, pages st' !! id = if decide (id ∈ ids) then None else pages st !! id) no_err.
Proof.
  induction ids as [|i ids IH]; intros st k Hn Hd Hr.
  { split; [done|]. intros id. by rewrite decide_False by set_solver. }
  apply NoDup_cons in Hn as [Hi Hn]. cbn [deleteAll list_to_set] in *.
  eapply ends_step; [apply (store_del i st k); [apply elem_of_dom; set_solver|done]|].
  cbn beta. intros _ st1 [Hp1 Hr1]. eapply ends_mono; [apply (IH st1 k)| |done]; try done.
  - rewrite Hp1, dom_delete_L. set_solver.
  - cbn beta. intros _ st2 [Hr2 Hp2]. split; [done|]. intros id. rewrite Hp2, Hp1.
    destruct (decide (id = i)) as [->|Hne].
    + rewrite (decide_False (P := i ∈ ids)), (decide_True (P := i ∈ i :: ids)) by set_solver.
      apply lookup_delete_eq.
    + rewrite lookup_delete_ne by done.
      destruct (decide (id ∈ ids)); [rewrite decide_True|rewrite decide_False]; set_solver.
Qed.

(** What a tree update does to the store: no page is overwritten, no page
    outside the old tree [F] is touched, and afterwards exactly the pages of
    the new tree [F'] remain of the tree's pages. *)
Record updated (st st' : St) (F F' : gset Z) : Prop := {
  up_cow : forall id, id ∈ dom (pages st) -> id ∈ dom (pages st') -> pages st' !! id = pages st !! id;
  up_dom : dom (pages st') = (dom (pages st) ∖ F) ∪ F';
  up_sep : F' ## dom (pages st) ∖ F;
}.

Lemma grows_delete st st1 st2 F F' O h es kvs :
  grows st st1 F F' O -> F ⊆ dom (pages st) -> rep (pages st1) h es kvs F' ->
  (forall id, pages st2 !! id = if decide (id ∈ O) then None else pages st1 !! id) ->
  rep (pages st2) h es kvs F' /\ updated st st2 F F'.
Proof.
  intros [Gs Gn Gd Go] HF R Hdel. pose proof (subseteq_dom _ _ Gs) as ds.
  assert (Hout : forall id, id ∈ F' -> id ∉ O).
  { intros id Hid HO. rewrite Gn in Hid. clear - Hid HO Go HF. set_solver. }
  assert (Hd2 : dom (pages st2) = dom (pages st1) ∖ list_to_set O).
  { apply set_eq. intros id. rewrite elem_of_difference, elem_of_list_to_set, !elem_of_dom, Hdel.
    destruct (decide (id ∈ O)); [|tauto]. split; [intros [? ?]; done|tauto]. }
  split; [|split].
  - eapply rep_agree; [exact R|]. intros id Hid. rewrite Hdel, decide_False; auto.
  - intros id H1 H2. rewrite Hd2 in H2. rewrite Hdel, decide_False by set_solver.
    apply elem_of_dom in H1 as [b Hb]. rewrite Hb. by eapply lookup_weaken.
  - rewrite Hd2, Gn. apply set_eq. intros id.
    destruct (decide (id ∈ dom (pages st))), (decide (id ∈ F)); set_solver.
  - rewrite Gn. clear. set_solver.
Qed.

Lemma root_grows st st2 st3 F1 F' O root b :
  grows st st2 F1 F' O -> pages st2 ⊆ pages st3 -> root ∉ F1 -> pages st !! root = Some b ->
  grows st st3 ({[root]} ∪ F1) (F' ∪ (dom (pages st3) ∖ dom (pages st2))) (O ++ [root]).
Proof.
  intros [Gs Gn Gd Go] Hsub Hr Hb. pose proof (subseteq_dom _ _ Gs) as ds.
  pose proof (subseteq_dom _ _ Hsub) as ds'. split; [by etrans| | |].
  - rewrite Gn, <- union_assoc_L, diff_trans by done. rewrite list_to_set_app_L. cbn [list_to_set].
    clear - Hr Go. set_solver.
  - apply NoDup_app. split_and!; [done| |apply NoDup_singleton].
    intros x Hx ->%list_elem_of_singleton. apply Hr, Go, elem_of_list_to_set, Hx.
  - rewrite list_to_set_app_L. cbn [list_to_set]. clear - Go. set_solver.
Qed.

Lemma validateTreeEntry_ok key value :
  validateTreeEntry key value = Ok tt <->
  key <> [] /\ len key <= maxKeySize /\ len value <= maxValueSize.
Proof.
  unfold validateTreeEntry. rewrite !Z.gtb_ltb.
  destruct (len key =? 0) eqn:C0; zbool.
  { apply len_0 in C0 as ->. split; [done|tauto]. }
  assert (key <> []) by (by intros ->).
  destruct (maxKeySize <? len key) eqn:C1; zbool; [split; [done|lia]|].
  destruct (maxValueSize <? len value) eqn:C2; zbool; split; done || lia.
Qed.

Lemma insert_empty_ok key value st k :
  entry_ok nodeTypeLeaf (leaf_entry key value) -> key <> [] -> room st (S k) ->
  ends (r0 <! setHeader (make pageSize) nodeTypeLeaf 2 ;;
        r1 <! nodeAppendKV r0 0 0 [] [] ;;
        r2 <! nodeAppendKV r1 1 0 key value ;;
        cb_new cb r2) st (fun id st' =>
    id <> 0 /\ rep (pages st') 1 [mkEntry id [] []] [([], []); (key, value)] (dom (pages st') ∖ dom (pages st)) /\
    pages st ⊆ pages st' /\ room st' k) no_err.
Proof.
  intros Hok Hk Hr.
  destruct (fresh_node pageSize nodeTypeLeaf 2) as (r0 & Hr0 & B0);
    [unfold pageSize; lia|unfold nodeTypeLeaf; lia|lia|unfold meta_size, pageSize; lia|].
  eapply ends_lift; [exact Hr0|].
  set (e0 := mkEntry 0 [] []). pose proof sentinel_ok as He0. fold e0 in He0.
  destruct (built_append r0 pageSize nodeTypeLeaf 2 [] e0 B0) as (r1 & Hr1 & B1);
    [reflexivity|exact He0|done|by vm_compute|].
  eapply ends_lift; [exact Hr1|]. cbn [app] in B1. pose proof (entry_ok_size _ _ Hok).
  destruct (built_append r1 pageSize nodeTypeLeaf 2 [e0] (leaf_entry key value) B1) as (r2 & Hr2 & B2);
    [reflexivity|exact Hok|intros H0; by destruct (Hk H0)| |].
  { change (recs_size [e0]) with 4. change (meta_size 2) with 36. unfold pageSize. lia. }
  eapply ends_lift; [exact Hr2|]. cbn [app] in B2.
  assert (P : page_of r2 (ty_of 0) [e0; leaf_entry key value]).
  { split; [done|]. cbn. apply ssorted_cons. split; [apply ssorted_one|].
    intros b ->%list_elem_of_singleton. by apply blt_nil. }
  eapply ends_mono; [apply (new_root_ok r2 0 _ [([], []); (key, value)] ∅ st k P);
    [discriminate|reflexivity|apply (rep_leaf _ [e0; leaf_entry key value])|exact Hr]| |done].
  cbn beta. intros id st' (? & R & ?). rewrite union_empty_l_L in R. auto.
Qed.

Lemma insert_ok h fuel root key value kvs F st k :
  tree (pages st) h root kvs F -> (h < fuel)%nat ->
  key <> [] -> len key <= maxKeySize -> len value <= maxValueSize -> room st (3 * h + 4 + k) ->
  ends (insert cb fuel root key value) st (fun root' st' => exists h' F',
    (h' <= S h)%nat /\ tree (pages st') h' root' (kv_set key value kvs) F' /\
    root' <> 0 /\ updated st st' F F' /\ room st' k) no_err.
Proof.
  intros T Hf Hk Hlk Hlv Hr. unfold insert. pose proof (leaf_entry_ok key value Hk Hlk Hlv) as Hok.
  eapply ends_lift; [by apply validateTreeEntry_ok|].
  eapply ends_lift; [unfold validateCallbacks; by rewrite store_set|].
  destruct T as [(-> & -> & ->)|(Hroot & Hs & R)].
  { cbn [Z.eqb]. eapply ends_mono; [apply (insert_empty_ok key value st (3 + k)); try done| |done].
    - eapply room_le; [|exact Hr]. lia.
    - cbn beta. intros id st' (Hid & R & Hsub & Hr'). exists 0%nat, (dom (pages st') ∖ dom (pages st)).
      split; [lia|]. split; [|split; [done|split; [|eapply room_le; [|exact Hr']; lia]]].
      + right. split; [done|]. split; [|exact R].
        rewrite <- kv_set_sentinel by done. apply kv_sorted_set, ssorted_one.
      + eapply (grows_delete st st' st' ∅ _ []); [|set_solver|exact R|done].
        split; [done| |constructor|done]. clear. set_solver. }
  zdecide. apply rep_one in R as (b & ces & F1 & Hb & P & Hne & Hfk & R & Hnin & ->). cbn [e_ptr e_key] in *.
  eapply get_step; [exact Hb|]. intros st1 [Hp1 Hr1].
  eapply ends_lift; [by rewrite (page_valid _ _ _ P)|]. apply ends_bind.
  eapply ends_mono; [apply (insertNode_ok h fuel b key value [] ces (([], []) :: kvs) F1 st1 (4 + k)%nat)| |done];
    try done; [rewrite Hfk; apply ble_nil|by rewrite Hp1|apply Hr1; eapply room_le; [|exact Hr]; lia|].
  cbn beta. intros [u obs] st2 (ces' & F' & O & Ho & N & Hc & Hne' & Hfk' & R' & Hr2 & G).
  cbn [fst snd app] in *. subst obs.
  destruct (nodeSplit3_ok _ _ _ _ N) as (ps & rss & Hsp & Hlp & Hcat & Hps); [destruct h; cbn; auto|done..|].
  eapply ends_lift; [exact Hsp|]. apply ends_bind. subst ces'.
  rewrite Hfk in Hfk'. pose proof (kv_sorted_set key value _ Hs) as Hs'.
  eapply ends_mono; [apply (newRoot_ok h ps rss _ F' st2 k Hps Hlp Hfk' Hs' R' Hr2)| |done].
  cbn beta. intros id st3 (h' & Hh & Hid & R3 & Hsub & Hr3). apply ends_bind.
  assert (G' : grows st st3 ({[root]} ∪ F1) (F' ∪ (dom (pages st3) ∖ dom (pages st2))) (O ++ [root])).
  { eapply root_grows; eauto. destruct G. split; by rewrite <- ?Hp1. }
  assert (HFd : {[root]} ∪ F1 ⊆ dom (pages st))
    by (apply rep_dom in R; apply elem_of_dom_2 in Hb; clear - R Hb; set_solver).
  eapply ends_mono; [apply (deleteAll_ok (O ++ [root]) st3 k)| |done];
    [apply G'| |done|].
  { etrans; [apply G'|]. etrans; [exact HFd|]. apply subseteq_dom, G'. }
  cbn beta. intros _ st4 [Hr4 Hdel]. unfold ends, ret.
  destruct (grows_delete _ _ _ _ _ _ _ _ _ G' HFd R3 Hdel) as [R4 Hup].
  exists h', (F' ∪ (dom (pages st3) ∖ dom (pages st2))). split; [lia|]. split; [|done].
  right. rewrite kv_set_sentinel in * by done. auto.
Qed.
End Insert.
