(* ===== verification/PageRangeSpec.v ===== *)
(** * Range scans over the page tree

    The cursor of [rangeValues] visits the leaves from left to right without
    sibling links; its result is the inclusive range of the contents. *)

From S2P Require Import Prelude KvList Errors Page PageTree PageNodeSpec PageTreeSpec.

(** The entries a scan reports: inside the bounds and not the sentinel. *)
Definition scanned (lo hi : bytes) (p : kv) : bool :=
  negb (len p.1 =? 0) && (bleb lo p.1 && bleb p.1 hi).

Lemma scanned_below lo hi l : below lo l -> List.filter (scanned lo hi) l = [].
Proof.
  induction 1 as [|p l Hp _ IH]; [done|]. cbn. unfold scanned at 1.
  rewrite (proj2 (bleb_gt lo p.1)), andb_false_r by border. done.
Qed.
Lemma scanned_above lo hi l : above hi l -> List.filter (scanned lo hi) l = [].
Proof.
  induction 1 as [|p l Hp _ IH]; [done|]. cbn. unfold scanned at 1.
  rewrite (proj2 (bleb_gt p.1 hi)), !andb_false_r by border. done.
Qed.
Lemma scanned_user lo hi kvs :
  kv_sorted (([], []) :: kvs) -> List.filter (scanned lo hi) (([], []) :: kvs) = kv_range lo hi kvs.
Proof.
  rewrite kv_sorted_cons. intros [_ Ha]. cbn. unfold scanned at 1. cbn [fst].
  change (len (@nil byte)) with 0. cbn [Z.eqb negb andb]. unfold kv_range.
  induction Ha as [|p l Hp _ IH]; [done|]. cbn. unfold scanned at 1.
  assert (len p.1 <> 0) by (intros E%len_0; rewrite E in Hp; by apply not_blt_nil in Hp).
  zdecide. by rewrite IH.
Qed.

(** One leaf: the reported entries and whether the upper bound was passed. *)
Lemma leafEntries_ok leaf les lo hi rest : forall pre,
  page_of leaf nodeTypeLeaf les -> les = pre ++ rest ->
  exists stop, leafEntries (length rest) leaf lo hi (len pre) =
    Ok (List.filter (scanned lo hi) (map kv_of rest), stop) /\
    (stop = true -> exists e, e ∈ rest /\ blt hi (e_key e)).
Proof.
  induction rest as [|e rest IH]; intros pre P ->; [by exists false|].
  pose proof P as [B Hs]. pose proof (built_bounds B) as Hb.
  cbn [length leafEntries map].
  assert (Hgk : getKey leaf (len pre) = Ok (e_key e))
    by (apply (built_getKey B (length pre) e); by rewrite list_lookup_middle).
  assert (Hgv : getVal leaf (len pre) = Ok (e_val e))
    by (apply (built_getVal B (length pre) e); by rewrite list_lookup_middle).
  rewrite Hgk. rewrite len_app, len_cons in Hb. pose proof (len_nonneg pre). pose proof (len_nonneg rest).
  replace (u16 (len pre + 1)) with (len (pre ++ [e])) by (rewrite len_app, len_one, u16_small; lia).
  destruct (IH (pre ++ [e])) as (stop & Hl & Hst); [by rewrite <- ?app_assoc|by rewrite <- app_assoc|].
  cbn [List.filter]. unfold scanned at 1. cbn [kv_of fst].
  destruct (len (e_key e) =? 0); cbn [orb negb andb].
  { exists stop. split; [done|]. intros (x & ? & ?)%Hst. exists x. split; [by right|done]. }
  destruct (bltb (e_key e) lo) eqn:C1; bool_order.
  { rewrite (proj2 (bleb_gt lo (e_key e))) by done. exists stop. split; [done|].
    intros (x & ? & ?)%Hst. exists x. split; [by right|done]. }
  rewrite (proj2 (bleb_le lo (e_key e))) by done. cbn [andb].
  destruct (bltb hi (e_key e)) eqn:C2; bool_order.
  - exists true. rewrite (proj2 (bleb_gt (e_key e) hi)) by done. split; [|intros _; exists e; split; [by left|done]].
    rewrite scanned_above; [done|]. apply Forall_map, Forall_forall. intros x Hx. cbn.
    rewrite map_app in Hs. cbn in Hs. apply ssorted_app in Hs as (_ & Hs & _).
    apply ssorted_cons in Hs as [_ Hs]. assert (blt (e_key e) (e_key x)) by (apply Hs, list_elem_of_fmap; eauto).
    border.
  - rewrite Hgv, Hl, (proj2 (bleb_le (e_key e) hi)) by done. exists stop. split; [done|].
    intros (x & ? & ?)%Hst. exists x. split; [by right|done].
Qed.

(** A sorted leaf cut at the first key not below [lo]. *)
Lemma leaf_cut es lo :
  ssorted (map e_key es) ->
  exists l1 l2, es = l1 ++ l2 /\ Forall (fun x => blt (e_key x) lo) l1 /\ Forall (fun x => ble lo (e_key x)) l2.
Proof.
  induction es as [|e es IH]; cbn; [by exists [], []|]. rewrite ssorted_cons. intros [Hs Hlt].
  destruct (decide (ble lo (e_key e))) as [Hle|Hgt].
  - exists [], (e :: es). split_and!; try done. constructor; [done|]. apply Forall_forall. intros x Hx.
    assert (blt (e_key e) (e_key x)) by (apply Hlt, list_elem_of_fmap; eauto). border.
  - destruct (IH Hs) as (l1 & l2 & -> & ? & ?). exists (e :: l1), l2. split_and!; try done.
    constructor; [border|done].
Qed.

(** What a cursor path still has to visit: the later children of each frame. *)
Inductive path_rest (m : gmap Z bytes) : nat -> list frame -> list kv -> Prop :=
| path_nil h : path_rest m h [] []
| path_cons h node pre e suf path krest kup F :
    page_of node nodeTypeInternal (pre ++ e :: suf) ->
    rep m (S h) suf krest F -> path_rest m (S h) path kup ->
    path_rest m h (mkFrame node (len pre) :: path) (krest ++ kup).

Section Range.
Context {St : Type} (cb : callbacks St) {PS : PageStore cb}.

(** Descending along first children reaches the first leaf of a subtree. *)
Lemma leftmost_loop_ok h : forall fuel node path es kvs F kup st,
  (h < fuel)%nat -> page_of node (ty_of h) es -> es <> [] -> rep (pages st) h es kvs F ->
  path_rest (pages st) h path kup ->
  ends (leftmost_loop cb fuel node path) st (fun r st' => exists leaf les path' kr,
    r = (Some leaf, path') /\ page_of leaf nodeTypeLeaf les /\ les <> [] /\
    path_rest (pages st) 0 path' kr /\ (length path' = h + length path)%nat /\
    kvs ++ kup = map kv_of les ++ kr /\ same cb st st') no_err.
Proof.
  induction h as [|h IH]; intros [|fuel] node path es kvs F kup st Hf P Hne R Hp; try lia;
    cbn [leftmost_loop]; pose proof P as [B _];
    (eapply ends_lift; [by rewrite (page_valid _ _ _ P)|]);
    (eapply ends_lift; [apply (built_btype B)|]).
  - cbn [ty_of] in *. rewrite Z.eqb_refl. inversion R; subst.
    exists node, es, path, kup. split_and!; try done.
  - change (ty_of (S h) =? nodeTypeLeaf) with false. cbv iota.
    destruct es as [|e es]; [done|].
    eapply ends_lift; [by apply (built_getPtr B 0 e)|].
    inversion R as [| |? ? ? b ces k1 k2 F1 F2 Hb Pc Hnc Hfc Rc R2]; subst.
    eapply get_step; [exact Hb|]. intros st1 [Hp1 Hr1].
    eapply ends_mono; [eapply (IH fuel b (mkFrame node 0 :: path) ces k1 F1 (k2 ++ kup) st1)| |done]; try done.
    + lia.
    + by rewrite Hp1.
    + rewrite Hp1. by eapply (path_cons _ h node [] e es).
    + cbn beta. intros r st2 (leaf & les & path' & kr & -> & ? & ? & Hp' & Hl & Heq & Hst).
      exists leaf, les, path', kr. rewrite Hp1 in Hp'. cbn in Hl. split_and!; try done; [lia|by rewrite <- app_assoc|].
      eapply same_trans; [|exact Hst]. by split.
Qed.

Lemma nextLeaf_ok depth path : forall h kr st,
  path_rest (pages st) h path kr -> (h + length path <= depth)%nat ->
  ends (nextLeaf cb depth path) st (fun r st' => same cb st st' /\
    ((exists p, r = (None, p) /\ kr = []) \/
     exists leaf les path' kr', r = (Some leaf, path') /\ page_of leaf nodeTypeLeaf les /\ les <> [] /\
       path_rest (pages st) 0 path' kr' /\ (length path' <= depth)%nat /\ kr = map kv_of les ++ kr')) no_err.
Proof.
  induction path as [|fr path IH]; intros h kr st Hp Hd.
  { inversion Hp; subst. split; [apply same_refl|]. left. by exists []. }
  inversion Hp as [|? node pre e suf ? krest kup F P Rs Hup]; subst. pose proof P as [B _].
  pose proof (built_bounds B) as Hb. rewrite len_app, len_cons in Hb.
  pose proof (len_nonneg pre). pose proof (len_nonneg suf).
  cbn [nextLeaf f_node f_childIdx]. eapply ends_lift; [apply (built_nkeys B)|].
  rewrite u16_small, len_app, len_cons by lia. destruct suf as [|e2 suf].
  - change (len (@nil entry)) with 0. zdecide. apply rep_empty in Rs as [-> _].
    apply (IH (S h) kup st); [done|]. cbn in Hd. lia.
  - rewrite len_cons in *. pose proof (len_nonneg suf). zdecide.
    eapply ends_lift.
    { replace (len pre + 1) with (Z.of_nat (length (pre ++ [e]))) by (unfold len; rewrite length_app; cbn; lia).
      apply (built_getPtr B _ e2). change (e :: e2 :: suf) with ([e] ++ e2 :: suf).
      by rewrite app_assoc, list_lookup_middle. }
    inversion Rs as [| |? ? ? b ces k1 k2 F1 F2 Hbp Pc Hnc Hfc Rc R2]; subst.
    eapply get_step; [exact Hbp|]. intros st1 [Hp1 Hr1].
    eapply ends_mono; [eapply (leftmost_loop_ok h depth b _ ces k1 F1 (k2 ++ kup) st1)| |done]; try done.
    + cbn in Hd. lia.
    + by rewrite Hp1.
    + rewrite Hp1. replace (len pre + 1) with (len (pre ++ [e])) by (by rewrite len_app, len_one).
      eapply (path_cons _ h node (pre ++ [e]) e2 suf); [by rewrite <- app_assoc|done..].
    + cbn beta. intros r st2 (leaf & les & path' & kr & -> & ? & ? & Hp' & Hl & Heq & Hst).
      rewrite Hp1 in Hp'. split; [eapply same_trans; [|exact Hst]; by split|]. right.
      exists leaf, les, path', kr. split_and!; try done; [cbn in Hl, Hd; lia|by rewrite <- app_assoc].
Qed.

(** The descent to the first leaf that can hold [lo]. *)
Lemma seek_loop_ok h : forall fuel node lo path es kvs F kup st,
  (h < fuel)%nat -> page_of node (ty_of h) es -> es <> [] -> ble (first_key es) lo ->
  rep (pages st) h es kvs F -> kv_sorted kvs -> path_rest (pages st) h path kup ->
  ends (seek_loop cb fuel node lo path) st (fun r st' => exists leaf l1 l2 path' kl kr,
    r = (leaf, len l1, path') /\ page_of leaf nodeTypeLeaf (l1 ++ l2) /\
    below lo (kl ++ map kv_of l1) /\
    path_rest (pages st) 0 path' kr /\ (length path' = h + length path)%nat /\
    kvs ++ kup = kl ++ map kv_of (l1 ++ l2) ++ kr /\ same cb st st') no_err.
Proof.
  induction h as [|h IH]; intros [|fuel] node lo path es kvs F kup st Hf P Hne Hk R Hs Hp; try lia;
    cbn [seek_loop]; pose proof P as [B Hso];
    (eapply ends_lift; [by rewrite (page_valid _ _ _ P)|]);
    (eapply ends_lift; [apply (built_btype B)|]).
  - cbn [ty_of] in *. rewrite Z.eqb_refl. inversion R; subst.
    eapply ends_lift; [apply (built_nkeys B)|]. pose proof (built_bounds B) as Hb.
    destruct (leaf_cut es lo Hso) as (l1 & l2 & -> & H1 & H2).
    eapply ends_lift.
    { apply (search_list _ (fun x => bleb lo (e_key x)) l1 l2).
      - intros i x Hx. pose proof (lookup_lt_Some _ _ _ Hx). rewrite u16_small by (unfold len in Hb; lia).
        by rewrite (built_getKey B _ _ Hx).
      - eapply Forall_impl; [exact H1|]. cbn. intros. by apply bleb_gt.
      - eapply Forall_impl; [exact H2|]. cbn. intros. by apply bleb_le. }
    rewrite len_app in Hb. pose proof (len_nonneg l1). pose proof (len_nonneg l2).
    rewrite u16_small by lia. exists node, l1, l2, path, [], kup. split_and!; try done. by apply Forall_map.
  - change (ty_of (S h) =? nodeTypeLeaf) with false. cbv iota.
    destruct (lookup_split es lo Hso) as (es1 & e & es2 & -> & He & Hgt); [destruct es; [done|]; eauto|].
    eapply ends_lift; [by eapply nodeLookupLE_ok|].
    eapply ends_lift; [apply (built_getPtr B (length es1) e); by rewrite list_lookup_middle|].
    destruct (rep_focus _ _ _ _ _ _ _ _ R Hs He Hgt)
      as (k1 & kc & k2 & F1 & Fc & F2 & b & ces & Fo & -> & ->).
    destruct Fo as [Rl Hpg Pc Hnec Hfc Rc Rr Hfr D1 D2 Hbl Hab Hsc].
    eapply get_step; [exact Hpg|]. intros st1 [Hp1 Hr1].
    eapply ends_mono; [eapply (IH fuel b lo (mkFrame node (len es1) :: path) ces kc Fc (k2 ++ kup) st1)| |done];
      try done; [lia|by rewrite Hfc|by rewrite Hp1|rewrite Hp1; by eapply path_cons|].
    cbn beta. intros r st2 (leaf & l1 & l2 & path' & kl & kr & -> & Pl & Hbe & Hp' & Hl & Heq & Hst).
    exists leaf, l1, l2, path', (k1 ++ kl), kr. rewrite Hp1 in Hp'. cbn in Hl.
    split_and!; try done.
    + rewrite <- app_assoc. by apply Forall_app.
    + lia.
    + by rewrite <- !app_assoc, Heq.
    + eapply same_trans; [|exact Hst]. by split.
Qed.

Lemma range_loop_ok fuel : forall depth leaf l1 l2 lo hi path kr st,
  page_of leaf nodeTypeLeaf (l1 ++ l2) -> path_rest (pages st) 0 path kr ->
  (length path <= depth)%nat -> (length kr < fuel)%nat -> kv_sorted (map kv_of l2 ++ kr) ->
  ends (range_loop cb fuel depth leaf lo hi (len l1) path) st (fun r st' =>
    r = List.filter (scanned lo hi) (map kv_of l2 ++ kr) /\ same cb st st') no_err.
Proof.
  induction fuel as [|fuel IH]; intros depth leaf l1 l2 lo hi path kr st P Hp Hd Hf Hs; [lia|].
  pose proof P as [B Hso]. cbn [range_loop]. eapply ends_lift; [apply (built_nkeys B)|].
  replace (Z.to_nat (len (l1 ++ l2) - len l1)) with (length l2) by (rewrite len_app; unfold len; lia).
  destruct (leafEntries_ok leaf (l1 ++ l2) lo hi l2 l1 P eq_refl) as (stop & Hl & Hst).
  eapply ends_lift; [exact Hl|]. cbn [fst snd]. rewrite List.filter_app. destruct stop.
  - destruct Hst as (e & He & Hhi); [done|].
    rewrite (scanned_above lo hi kr); [rewrite app_nil_r; split; [done|apply same_refl]|].
    apply kv_sorted_app in Hs as (_ & _ & Hlt). apply Forall_forall. intros q Hq.
    assert (blt (e_key e) q.1) by (apply (Hlt (kv_of e)); [apply list_elem_of_fmap; eauto|done]). border.
  - apply ends_bind. eapply ends_mono; [apply (nextLeaf_ok depth path 0 kr st); [done|lia]| |done].
    cbn beta. intros r st1 [Hst1 [(p & -> & ->)|(leaf' & les & path' & kr' & -> & P' & Hne & Hp' & Hl' & ->)]].
    + cbn. rewrite app_nil_r. by split.
    + apply ends_bind. eapply ends_mono; [apply (IH depth leaf' [] les lo hi path' kr' st1)| |done]; try done.
      * by rewrite (proj1 Hst1).
      * rewrite length_app, length_map in Hf. destruct les; [done|]. cbn in Hf. lia.
      * by apply kv_sorted_app in Hs as (_ & ? & _).
      * cbn beta. intros r st2 [-> Hst2]. split; [done|]. by eapply same_trans.
Qed.

Lemma rangeValues_ok h fuel root lo hi kvs F st :
  tree (pages st) h root kvs F -> (h < fuel)%nat -> (S (length kvs) < fuel)%nat ->
  len lo <= maxKeySize -> len hi <= maxKeySize ->
  ends (rangeValues cb fuel root lo hi) st (fun r st' => r = kv_range lo hi kvs /\ same cb st st') no_err.
Proof.
  intros T Hf Hf2 Hlo Hhi. unfold rangeValues. rewrite !Z.gtb_ltb. zdecide.
  destruct (bltb hi lo) eqn:C; bool_order; cbn [orb].
  { split; [|apply same_refl]. unfold kv_range. induction kvs as [|p l IHl]; [done|]. symmetry. clear - C.
    induction (p :: l) as [|x xs IHx]; [done|]. cbn. rewrite IHx.
    destruct (bleb lo x.1) eqn:C1, (bleb x.1 hi) eqn:C2; bool_order; try done. exfalso. border. }
  destruct T as [(-> & -> & ->)|(Hr & Hs & R)]; [split; [done|apply same_refl]|]. zdecide.
  eapply ends_lift; [unfold validateCallbacks; by rewrite store_set|].
  apply rep_one in R as (b & ces & F1 & Hb & P & Hne & Hfk & R & _ & _). cbn [e_ptr e_key] in *.
  apply ends_bind. unfold seekRangeStart. eapply get_step; [exact Hb|]. intros st1 [Hp1 Hr1].
  eapply ends_mono; [apply (seek_loop_ok h fuel b lo [] ces (([], []) :: kvs) F1 [] st1)| |done]; try done;
    [rewrite Hfk; apply ble_nil|by rewrite Hp1|constructor|].
  cbn beta. intros r st2 (leaf & l1 & l2 & path & kl & kr & -> & Pl & Hbe & Hp & Hl & Heq & Hst).
  rewrite app_nil_r in Heq. rewrite map_app, <- app_assoc in Heq.
  eapply ends_mono; [apply (range_loop_ok fuel fuel leaf l1 l2 lo hi path kr st2)| |done].
  - done.
  - by rewrite (proj1 Hst).
  - cbn in Hl. lia.
  - pose proof (f_equal length Heq) as E. cbn in E. rewrite !length_app, !length_map in E. lia.
  - rewrite Heq in Hs. apply kv_sorted_app in Hs as (_ & Hs & _). by apply kv_sorted_app in Hs as (_ & ? & _).
  - cbn beta. intros r st3 [-> Hst3]. split.
    + rewrite <- scanned_user by done. rewrite Heq, (app_assoc kl), (List.filter_app _ (kl ++ _)), (scanned_below _ _ (kl ++ _)) by done. done.
    + eapply same_trans; [|exact Hst3]. eapply same_trans; [|exact Hst]. by split.
Qed.
End Range.
