(* ===== verification/PageDeleteSpec.v ===== *)
(** * Deletion from the page tree

    [delete] returns a new root whose tree holds the contents without the key,
    merging underfull siblings on the way up. It fails only when the deleted key
    separates the children of an internal page, the key after it is longer and
    takes its place there, and the page then overflows; every old page is left as
    it was. *)

From S2P Require Import Prelude KvList Errors Page PageTree PageNodeSpec PageTreeSpec PageInsertSpec.

Lemma kv_del_leaf es1 e es2 key :
  ssorted (map e_key (es1 ++ e :: es2)) -> Forall (fun x => blt key (e_key x)) es2 ->
  ble (e_key e) key ->
  kv_del key (map kv_of (es1 ++ e :: es2)) =
  map kv_of (es1 ++ (if beqb (e_key e) key then [] else [e]) ++ es2).
Proof.
  intros Hs Hgt Hle. rewrite !map_app in *. cbn [map] in *.
  apply ssorted_app in Hs as (_ & _ & Hlt).
  change (kv_of e :: map kv_of es2) with ([kv_of e] ++ map kv_of es2). rewrite !kv_del_app.
  rewrite (kv_del_above key (map kv_of es2)) by (by apply Forall_map).
  rewrite kv_del_below.
  - f_equal. f_equal. unfold kv_del. cbn. by destruct (beqb (e_key e) key).
  - apply Forall_map, Forall_forall. intros x Hx. cbn.
    assert (blt (e_key x) (e_key e)) by (apply Hlt; [by apply list_elem_of_fmap; eauto|by left]). border.
Qed.

Lemma rep_focus_get m h key es1 e es2 k1 kc k2 F1 Fc F2 b ces :
  focus m h key es1 e es2 k1 kc k2 F1 Fc F2 b ces ->
  kv_get key (k1 ++ kc ++ k2) = kv_get key kc /\
  kv_del key (k1 ++ kc ++ k2) = k1 ++ kv_del key kc ++ k2.
Proof.
  intros []. split.
  - by rewrite kv_get_below, kv_get_app_above.
  - by rewrite !kv_del_app, kv_del_below, (kv_del_above key k2).
Qed.

(** One separator, or two neighbours, of the entries [es] start at [key] and do
    not fit in a page with [next] in their place. *)
Definition crowded (es : list entry) (key next : bytes) : Prop := exists p old q,
  es = p ++ old ++ q /\ old <> [] /\ (length old <= 2)%nat /\ first_key old = key /\
  pageSize < node_size (p ++ mkEntry 0 next [] :: q).
(** That is so in an internal page of the tree. *)
Definition overfull (m : gmap Z bytes) (F : gset Z) (key next : bytes) : Prop := exists id b es,
  id ∈ F /\ m !! id = Some b /\ page_of b nodeTypeInternal es /\ crowded es key next.
(** Why a deletion of [key] from a tree with pages [F] and contents [kvs] fails. *)
Definition separator_grows (m : gmap Z bytes) (F : gset Z) (key : bytes) (kvs : list kv) : Prop :=
  is_Some (kv_get key kvs) /\ exists next, kv_next key kvs = Some next /\ len key < len next /\ overfull m F key next.
(** The same below a node with entries [es] that is not among the pages [F]. *)
Definition blocked (m : gmap Z bytes) (h : nat) (es : list entry) (F : gset Z) (key : bytes) (kvs : list kv) : Prop :=
  is_Some (kv_get key kvs) /\ exists next, kv_next key kvs = Some next /\ len key < len next /\
    ((0 < h)%nat /\ crowded es key next \/ overfull m F key next).

Lemma separator_grows_outgrown m F key kvs : separator_grows m F key kvs -> outgrown key kvs.
Proof. intros (H & next & ? & ? & _). split; [done|]. by exists next. Qed.

(** Separators that take no more space fit. *)
Lemma separator_size p x q : node_size (p ++ x :: q) = node_size (p ++ q) + 14 + len (e_key x) + len (e_val x).
Proof.
  unfold node_size, meta_size. rewrite !len_app, !recs_size_app, len_cons. cbn [recs_size]. unfold rec_size. lia.
Qed.
Lemma page_fits b ty p old q x key :
  page_of b ty (p ++ old ++ q) -> x ∈ old -> len key <= len (e_key x) -> node_size (p ++ mkEntry 0 key [] :: q) <= pageSize.
Proof.
  intros P Hx Hk. pose proof (node_of_fits _ _ _ _ P) as Hf.
  apply list_elem_of_split in Hx as (o1 & o2 & ->). rewrite <- (app_assoc o1), (app_assoc p) in Hf. cbn [app] in Hf.
  rewrite separator_size in Hf. rewrite separator_size. cbn [e_key e_val]. change (len (@nil byte)) with 0.
  pose proof (len_nonneg (e_val x)).
  assert (node_size (p ++ q) <= node_size ((p ++ o1) ++ o2 ++ q)); [|lia].
  rewrite <- app_assoc, (app_assoc o1). rewrite !(node_sizes_app p), (node_sizes_app (o1 ++ o2)).
  pose proof (node_size_nonneg (o1 ++ o2)). lia.
Qed.
Lemma crowded_longer b ty es key next : page_of b ty es -> crowded es key next -> len key < len next.
Proof.
  intros P (p & old & q & -> & Hne & _ & <- & Hover). destruct old as [|x old]; [done|]. cbn [first_key] in *.
  destruct (Z.lt_ge_cases (len (e_key x)) (len next)) as [|Hle]; [done|].
  pose proof (page_fits b ty p (x :: old) q x next P ltac:(left) Hle). lia.
Qed.

Section Delete.
Context {St : Type} (cb : callbacks St) {PS : PageStore cb}.

Lemma ends_err {A} (m : stM St error A) s (Q : A -> St -> Prop) (R R' : error -> St -> Prop) :
  ends m s Q R -> (forall e s', R e s' -> R' e s') -> ends m s Q R'.
Proof. intros H HR. by eapply ends_mono. Qed.

(** A failed deletion has only added pages, and had the reason [P]. *)
Definition del_err (P : Prop) (st : St) (e : error) (st' : St) : Prop :=
  (e = ENodeExceedsPage /\ pages st ⊆ pages st' /\ room st' 0) /\ P.

Lemma replaceAfterDelete_ok h parent p old q child ces kvs F st k :
  page_of parent nodeTypeInternal (p ++ old ++ q) -> old <> [] ->
  page_of child (ty_of h) ces -> ces <> [] ->
  ssorted (map e_key p ++ first_key ces :: map e_key q) ->
  rep (pages st) h ces kvs F -> room st (S k) ->
  ends (replaceChildrenAfterDelete cb parent (len p) (len old) child) st (fun u st' => exists e F',
     page_of u nodeTypeInternal (p ++ e :: q) /\
     rep (pages st') (S h) [e] kvs F' /\ pages st ⊆ pages st' /\ room st' k /\
     F' = F ∪ (dom (pages st') ∖ dom (pages st)))
    (del_err (pageSize < node_size (p ++ mkEntry 0 (first_key ces) [] :: q)) st).
Proof.
  intros [BP HsP] Hold P Hne Hs R Hr. pose proof (built_bounds BP) as Hb.
  pose proof (built_entries _ _ _ _ _ BP) as Hok. apply Forall_app in Hok as [Hokp Hok].
  apply Forall_app in Hok as [_ Hokq]. pose proof P as [BC _].
  pose proof (len_nonneg p). pose proof (len_nonneg q).
  assert (Ho : 1 <= len old) by (destruct old; [done|]; rewrite len_cons; pose proof (len_nonneg old); lia).
  unfold replaceChildrenAfterDelete. eapply ends_lift; [apply (built_nkeys BP)|].
  rewrite !len_app in *. replace (len p + (len old + len q) - len old + 1) with (len p + (1 + len q)) by lia.
  rewrite (u16_small (len p + (1 + len q))) by lia.
  destruct (fresh_node pageSize nodeTypeInternal (len p + (1 + len q))) as (u0 & Hu0 & B0);
    [unfold pageSize; lia|unfold nodeTypeInternal; lia|lia|unfold meta_size in *; lia|].
  eapply ends_lift; [exact Hu0|].
  pose proof (recs_size_nonneg old). pose proof (recs_size_nonneg q).
  destruct (appended_ok pageSize nodeTypeInternal (len p + (1 + len q)) [] p
    (nodeAppendRange u0 parent 0 0 (len p))) as (u1 & Hu1 & B1).
  { apply (nodeAppendRange_seg u0 parent _ pageSize _ nodeTypeInternal _ [] [] p (old ++ q) B0); cbn [app].
    - by rewrite !len_app.
    - change (len (@nil entry)) with 0. lia.
    - exact Hokp.
    - by apply ssorted_app in Hs as (? & _). }
  { cbn [app]. rewrite !recs_size_app in Hb. unfold meta_size in *. lia. }
  eapply ends_lift; [exact Hu1|]. cbn [app] in B1.
  eapply new_step; [exact Hr|apply (built_len _ _ _ _ _ BC)|].
  intros id st1 Hid Hfresh Hst1 Hsub Hroom.
  eapply ends_lift; [by eapply getKey_first|]. set (e := mkEntry id (first_key ces) []).
  assert (He : entry_ok nodeTypeInternal e) by (apply separator_ok; [done|by eapply first_key_ok]).
  assert (Hsall : ssorted (map e_key (p ++ e :: q))) by (by rewrite map_app).
  pose proof (nodeAppendKV_appended u1 pageSize nodeTypeInternal (len p + (1 + len q)) p e q B1
    ltac:(lia) He Hsall) as A2.
  replace (u16 (len p + 1)) with (len (p ++ [e])) by (rewrite len_app, len_one, u16_small; lia).
  replace (u16 (len p + len old)) with (len (p ++ old)) by (rewrite len_app, u16_small; lia).
  replace (u16 (len p + (len old + len q) - len (p ++ old))) with (len q) by (rewrite len_app, u16_small; lia).
  assert (A : appended pageSize nodeTypeInternal (len p + (1 + len q)) p ([e] ++ q)
    (u2 <- nodeAppendKV u1 (len p) id (first_key ces) [] ;;
     nodeAppendRange u2 parent (len (p ++ [e])) (len (p ++ old)) (len q))).
  { apply appended_bind; [exact A2|]. intros u2 B2.
    apply (nodeAppendRange_seg u2 parent _ pageSize _ nodeTypeInternal _ (p ++ [e]) (p ++ old) q [] B2);
      rewrite ?app_nil_r, <- ?app_assoc; cbn [app].
    - by rewrite !len_app.
    - rewrite len_app, len_one. lia.
    - exact Hokq.
    - exact Hsall. }
  assert (HS : meta_size (len p + (1 + len q)) + recs_size (p ++ [e] ++ q) = node_size (p ++ mkEntry 0 (first_key ces) [] :: q)).
  { unfold node_size. cbn [app]. by rewrite len_app, len_cons, !recs_size_app. }
  unfold appended in A. rewrite HS in A. destruct (_ <=? pageSize) eqn:C; zbool.
  - destruct A as (u & Hu & B). destruct (nodeAppendKV u1 _ _ _ _) as [u2| | |] eqn:E2; try discriminate Hu.
    eapply ends_lift; [reflexivity|]. unfold ends, lift. rewrite Hu. cbn [app] in B.
    exists e, ({[id]} ∪ F). pose proof (rep_dom _ _ _ _ _ R) as Hd. split_and!.
    + split; [|exact Hsall]. by rewrite len_app, len_cons.
    + apply rep_one. exists child, ces, F. subst e. clear - P Hne R Hst1 Hsub Hd Hfresh. split_and!; try done; cbn.
      * by rewrite Hst1, lookup_insert_eq.
      * by eapply rep_mono.
      * clear - Hd Hfresh. set_solver.
    + done.
    + done.
    + rewrite Hst1, dom_insert_L. clear - Hfresh. set_solver.
  - destruct (nodeAppendKV u1 _ _ _ _) as [u2|e2| |] eqn:E2; try discriminate A.
    + eapply ends_lift; [reflexivity|]. unfold ends, lift. rewrite A.
      split; [|done]. split_and!; [done..|]. eapply room_le; [|exact Hroom]. lia.
    + injection A as ->. eapply ends_lift_err; [reflexivity|].
      split; [|done]. split_and!; [done..|]. eapply room_le; [|exact Hroom]. lia.
Qed.

Definition del_post (st : St) (h : nat) (kvs' : list kv) (F : gset Z) (obs : list Z) (k : nat)
    (r : bytes * bool * list Z) (st' : St) : Prop :=
  exists es' F' O, r.1.2 = true /\ r.2 = obs ++ O /\ page_of r.1.1 (ty_of h) es' /\
    rep (pages st') h es' kvs' F' /\ room st' k /\ grows cb st st' F F' O.

Lemma grows_same st st1 st2 F F' O :
  grows cb st st1 F F' O -> pages st2 = pages st1 -> grows cb st st2 F F' O.
Proof. intros [] E. split; by rewrite ?E. Qed.

Lemma grows_ext st st' F F' G G' O :
  grows cb st st' F F' O -> F = G -> F' = G' -> grows cb st st' G G' O.
Proof. by intros ? <- <-. Qed.

(** Rebuilding one subtree [Fc] of a node: [A] stays, the pages [D] are
    replaced, and [K] moves below a new page. *)
Lemma rebuild_grows st st2 st3 (A K Fc Fc' : gset Z) O D :
  grows cb st st2 Fc Fc' O -> pages st2 ⊆ pages st3 ->
  NoDup D -> list_to_set D ## Fc -> K ## list_to_set D ∪ Fc -> A ## list_to_set D ∪ Fc ∪ K ->
  grows cb st st3 (A ∪ list_to_set D ∪ Fc ∪ K) (A ∪ ((K ∪ Fc') ∪ (dom (pages st3) ∖ dom (pages st2)))) (O ++ D).
Proof.
  intros [Gs Gn Gd Go] Hsub HD D1 D2 D3. pose proof (subseteq_dom _ _ Gs) as ds.
  pose proof (subseteq_dom _ _ Hsub) as ds'. split; [by etrans| | |].
  - rewrite Gn, <- (union_assoc_L K), <- (union_assoc_L (Fc ∖ _)), diff_trans by done.
    rewrite list_to_set_app_L. set (N := dom (pages st3) ∖ dom (pages st)). set (o := list_to_set O) in *.
    set (d := list_to_set D) in *. clear - Go D1 D2 D3. set_solver.
  - apply NoDup_app. split_and!; [done| |done]. intros x Hx Hd. apply (D1 x); [by apply elem_of_list_to_set|].
    by apply Go, elem_of_list_to_set.
  - rewrite list_to_set_app_L. clear - Go. set_solver.
Qed.

Lemma rebuild_rep st st3 h es1 e es2 k1 kc k2 F1 F2 F' :
  rep (pages st) (S h) es1 k1 F1 -> rep (pages st) (S h) es2 k2 F2 -> pages st ⊆ pages st3 ->
  rep (pages st3) (S h) [e] kc F' -> F1 ## F' -> F2 ## F' -> F1 ## F2 ->
  rep (pages st3) (S h) (es1 ++ e :: es2) (k1 ++ kc ++ k2) ((F1 ∪ F2) ∪ F').
Proof.
  intros R1 R2 Hsub R D1 D2 D3. apply rep_app. exists k1, (kc ++ k2), F1, (F' ∪ F2). split_and!.
  - by eapply rep_mono.
  - apply (rep_app _ _ [e] es2). exists kc, k2, F', F2. split_and!; try done. by eapply rep_mono.
  - set_solver.
  - done.
  - set_solver.
Qed.

(** The parent after one of its children was rebuilt, in terms of the entries
    [p] and [q] that stay, the contents [kc] of the rebuilt part and its pages. *)
Lemma rebuild_ok st st2 h node p old q child ces kp kc kq F Fk Fp Fq K Fc Fc' O D obs k :
  page_of node nodeTypeInternal (p ++ old ++ q) -> old <> [] ->
  page_of child (ty_of h) ces -> ces <> [] ->
  rep (pages st) (S h) p kp Fp -> rep (pages st) (S h) q kq Fq -> Fp ## Fq ->
  rep (pages st2) h ces kc Fk -> Fk = K ∪ Fc' -> kv_sorted (kp ++ kc ++ kq) ->
  grows cb st st2 Fc Fc' O -> NoDup D -> list_to_set D ## Fc -> K ## list_to_set D ∪ Fc ->
  Fp ∪ Fq ## list_to_set D ∪ Fc ∪ K -> F = (Fp ∪ Fq) ∪ list_to_set D ∪ Fc ∪ K -> room st2 (S k) ->
  ends (u <~ replaceChildrenAfterDelete cb node (len p) (len old) child ;; ret (u, true, (obs ++ O) ++ D)) st2
    (del_post st (S h) (kp ++ kc ++ kq) F obs k) (del_err (pageSize < node_size (p ++ mkEntry 0 (first_key ces) [] :: q)) st).
Proof.
  intros P Ho Pc Hne Rp Rq Dpq Rc -> Hs G HD D1 D2 D3 -> Hr. apply ends_bind.
  eapply ends_mono; [apply (replaceAfterDelete_ok h node p old q child ces kc (K ∪ Fc') st2 k); try done| |].
  - pose proof (separators_sorted (pages st) (pages st2) h p q [ces] [child] kp kc kq Fp (K ∪ Fc') Fq) as L.
    cbn [concat map app] in L. rewrite app_nil_r in L. apply L; try done. constructor; [done|constructor].
  - cbn beta. intros u st3 (e & F' & Pu & Re & Hsub & Hr3 & ->).
    pose proof (rebuild_grows st st2 st3 (Fp ∪ Fq) K Fc Fc' O D G Hsub HD D1 D2 D3) as G3.
    eexists (p ++ e :: q), _, (O ++ D). cbn [fst snd]. split; [done|]. split; [by rewrite app_assoc|].
    split; [exact Pu|]. split; [|split; [exact Hr3|exact G3]].
    pose proof (rep_dom _ _ _ _ _ Rp) as dp. pose proof (rep_dom _ _ _ _ _ Rq) as dq.
    destruct G as [Gs Gn Gd Go]. pose proof (subseteq_dom _ _ Gs) as ds.
    assert (A : Fp ∪ Fq ## K ∪ Fc' ∪ dom (pages st3) ∖ dom (pages st2)).
    { rewrite Gn. set (o := list_to_set O) in *. set (d := list_to_set D) in *.
      clear - D3 dp dq ds. set_solver. }
    apply (rebuild_rep st); try done; [by etrans|set_solver|set_solver].
  - cbn beta. intros err st3 [(-> & Hsub & Hr0) HP]. split; [|exact HP]. split_and!; [done| |done]. etrans; [apply G|done].
Qed.

(** The first key of the child [ces] does not fit for the separator [e]. *)
Definition swollen (es1 : list entry) (e : entry) (es2 ces : list entry) : Prop :=
  ces <> [] /\ crowded (es1 ++ e :: es2) (e_key e) (first_key ces).

(** *** One level of [deleteNode], after the child was rebuilt *)
Section Step.
Context (st st2 : St) (h : nat) (key node : bytes) (es1 : list entry) (e : entry) (es2 : list entry).
Context (k1 kc kc' k2 : list kv) (F1 Fc F2 Fc' : gset Z) (O : list Z) (b uc : bytes) (ces ces' : list entry).
Context (obs : list Z) (k : nat).
Hypothesis Hfo : focus (pages st) h key es1 e es2 k1 kc k2 F1 Fc F2 b ces.
Hypothesis HP : page_of node nodeTypeInternal (es1 ++ e :: es2).
Hypothesis HG : grows cb st st2 Fc Fc' O.
Hypothesis HPc : page_of uc (ty_of h) ces'.
Hypothesis HRc : rep (pages st2) h ces' kc' Fc'.
Hypothesis Hs : kv_sorted (k1 ++ kc' ++ k2).
Hypothesis Hr : room st2 (S k).

Lemma deleteFinish_ok :
  ends (deleteFinish cb node (len es1) uc (len ces') ((obs ++ O) ++ [e_ptr e])) st2
    (del_post st (S h) (k1 ++ kc' ++ k2) (F1 ∪ ({[e_ptr e]} ∪ Fc ∪ F2)) obs k) (del_err (swollen es1 e es2 ces') st).
Proof.
  destruct Hfo as [Rl Hpg Pc Hnec Hfc Rc Rr Hfr D1 D2 Hbl Hab Hsc]. unfold deleteFinish.
  destruct (len ces' =? 0) eqn:C; zbool.
  - apply len_0 in C as ->. apply rep_empty in HRc as [-> ->]. cbn [app] in *.
    destruct (removeChildEncoded_ok node es1 e es2 HP) as (u & Hu & Pu).
    eapply ends_lift; [exact Hu|]. eexists (es1 ++ es2), (F1 ∪ F2), (O ++ [e_ptr e]). cbn [fst snd].
    split; [done|]. split; [by rewrite app_assoc|]. split; [exact Pu|].
    split; [|split; [by eapply room_le; [|exact Hr]; lia|]].
    + apply rep_app. exists k1, k2, F1, F2. destruct HG as [Gs _ _ _].
      split_and!; [by eapply rep_mono..|clear - D1; set_solver|done|done].
    + eapply grows_ext; [apply (rebuild_grows st st2 st2 (F1 ∪ F2) ∅ Fc ∅ O [e_ptr e] HG)| |];
        [done|apply NoDup_singleton|..]; rewrite ?difference_diag_L; clear - D1 D2 Hfr; set_solver.
  - assert (Hne : ces' <> []) by (by intros ->).
    eapply ends_err.
    + apply (rebuild_ok st st2 h node es1 [e] es2 uc ces' k1 kc' k2 _ Fc' F1 F2 ∅ Fc Fc' O [e_ptr e] obs k);
        try done; [clear - D1; set_solver|by rewrite union_empty_l_L|apply NoDup_singleton|..];
        clear - D1 D2 Hfr; set_solver.
    + intros err st3 [HE HX]. split; [exact HE|]. split; [exact Hne|]. exists es1, [e], es2. split_and!; [done|done|cbn; lia|done|exact HX].
Qed.

Lemma merged_sorted m m' h' as_ bs ka kb Fa Fb kx ky :
  rep m h' as_ ka Fa -> rep m' h' bs kb Fb -> kv_sorted (kx ++ (ka ++ kb) ++ ky) ->
  ssorted (map e_key (as_ ++ bs)).
Proof.
  intros Ra Rb H. apply kv_sorted_app in H as (_ & H & _). apply kv_sorted_app in H as (H & _).
  eapply ssorted_sublist; [|exact H]. unfold kv_keys. rewrite !map_app.
  apply rep_keys in Ra, Rb. by apply sublist_app.
Qed.

(** Absorbing the rebuilt child into its left sibling. *)
Lemma mergeLeft_ok es0 el :
  es1 = es0 ++ [el] ->
  exists lb, pages st2 !! e_ptr el = Some lb /\
    (mergeEncodedNodes lb uc = Ok None \/
     exists m, mergeEncodedNodes lb uc = Ok (Some m) /\
       forall st3, same cb st2 st3 ->
         ends (u <~ replaceChildrenAfterDelete cb node (len es0) 2 m ;;
               ret (u, true, ((obs ++ O) ++ [e_ptr e]) ++ [e_ptr el])) st3
           (del_post st (S h) (k1 ++ kc' ++ k2) (F1 ∪ ({[e_ptr e]} ∪ Fc ∪ F2)) obs k) (del_err (swollen es1 e es2 ces') st)).
Proof.
  intros ->. destruct Hfo as [Rl Hpg Pc Hnec Hfc Rc Rr Hfr D1 D2 Hbl Hab Hsc].
  apply rep_app in Rl as (k0 & kl & F0 & Fl' & R0 & Rl & D0 & -> & ->).
  apply rep_one in Rl as (lb & les & Fl & Hlb & Pl & Hnel & Hfl & Rl & Hpl & ->).
  exists lb. pose proof HG as [Gs Gn Gd Go]. split; [by eapply lookup_weaken|].
  rewrite <- !app_assoc in Hs. rewrite (app_assoc kl kc') in Hs.
  assert (Hso : ssorted (map e_key (les ++ ces'))) by (by eapply (merged_sorted (pages st) (pages st2) h)).
  pose proof (mergeEncodedNodes_ok lb uc (ty_of h) les ces' Pl HPc Hso) as M.
  destruct (node_size (les ++ ces') <=? pageSize); [|by left]. right.
  destruct M as (m & Hm & Pm). exists m. split; [exact Hm|]. intros st3 [Hp3 Hr3].
  assert (Hfl' : Fl ∪ {[e_ptr el]} ∪ F0 ## {[e_ptr e]} ∪ Fc ∪ F2) by (clear - D1; disj).
  assert (Hd : Fl ## Fc').
  { pose proof (rep_dom _ _ _ _ _ Rl) as dl. pose proof (subseteq_dom _ _ Gs) as ds.
    assert (Fl ## Fc) as Hlc by (clear - Hfl'; disj). rewrite Gn. clear - Hlc dl. set_solver. }
  assert (Hne : e_ptr e <> e_ptr el) by (clear - Hfl'; disj_split; set_solver).
  rewrite <- (app_assoc (obs ++ O)). cbn [app].
  replace ((k0 ++ kl) ++ kc' ++ k2) with (k0 ++ (kl ++ kc') ++ k2) by (by rewrite !app_assoc).
  eapply (ends_err _ _ _ (del_err (pageSize < node_size (es0 ++ mkEntry 0 (first_key (les ++ ces')) [] :: es2)) st)).
  2:{ intros err st4 [_ HX]. exfalso. assert (Hfk : first_key (les ++ ces') = e_key el) by (rewrite <- Hfl; by destruct les).
      rewrite Hfk in HX. assert (HP' : page_of node nodeTypeInternal (es0 ++ [el; e] ++ es2)) by (by rewrite <- app_assoc in HP).
      pose proof (page_fits node _ es0 [el; e] es2 el (e_key el) HP' ltac:(left) ltac:(lia)). lia. }
  apply (rebuild_ok st st3 h node es0 [el; e] es2 m (les ++ ces') k0 (kl ++ kc') k2 _ (Fl ∪ Fc') F0 F2 Fl Fc Fc' O
    [e_ptr e; e_ptr el] obs k); try done.
  - by rewrite <- app_assoc in HP.
  - by destruct les.
  - clear - Hfl'. disj.
  - rewrite Hp3. apply rep_app. exists kl, kc', Fl, Fc'. split_and!; try done. by eapply rep_mono.
  - by apply grows_same with st2.
  - apply NoDup_cons. split; [clear - Hne; set_solver|apply NoDup_singleton].
  - clear - Hfl' Hfr. disj.
  - clear - Hfl' Hpl. disj.
  - clear - Hfl' D0 D2. disj.
  - cbn. clear. set_solver.
  - by apply Hr3.
Qed.

(** Absorbing the right sibling into the rebuilt child. *)
Lemma mergeRight_ok er es3 :
  es2 = er :: es3 ->
  exists rb, pages st2 !! e_ptr er = Some rb /\
    (mergeEncodedNodes uc rb = Ok None \/
     exists m, mergeEncodedNodes uc rb = Ok (Some m) /\
       forall st3, same cb st2 st3 ->
         ends (u <~ replaceChildrenAfterDelete cb node (len es1) 2 m ;;
               ret (u, true, ((obs ++ O) ++ [e_ptr e]) ++ [e_ptr er])) st3
           (del_post st (S h) (k1 ++ kc' ++ k2) (F1 ∪ ({[e_ptr e]} ∪ Fc ∪ F2)) obs k) (del_err (swollen es1 e es2 ces') st)).
Proof.
  intros ->. destruct Hfo as [Rl Hpg Pc Hnec Hfc Rc Rr Hfr D1 D2 Hbl Hab Hsc].
  apply (rep_app _ _ [er] es3) in Rr as (kr & k3 & Fr' & F3 & Rr & R3 & D0 & -> & ->).
  apply rep_one in Rr as (rb & res & Fr & Hrb & Pr & Hner & Hfrr & Rr & Hpr & ->).
  exists rb. pose proof HG as [Gs Gn Gd Go]. split; [by eapply lookup_weaken|].
  rewrite (app_assoc kc' kr) in Hs.
  assert (Hso : ssorted (map e_key (ces' ++ res))) by (by eapply (merged_sorted (pages st2) (pages st) h)).
  pose proof (mergeEncodedNodes_ok uc rb (ty_of h) ces' res HPc Pr Hso) as M.
  destruct (node_size (ces' ++ res) <=? pageSize); [|by left]. right.
  destruct M as (m & Hm & Pm). exists m. split; [exact Hm|]. intros st3 [Hp3 Hr3].
  assert (Hd : Fc' ## Fr).
  { pose proof (rep_dom _ _ _ _ _ Rr) as dl. pose proof (subseteq_dom _ _ Gs) as ds.
    assert (Fc ## Fr) as Hlc by (clear - D2; disj). rewrite Gn. clear - Hlc dl. set_solver. }
  assert (Hne : e_ptr e <> e_ptr er) by (clear - D2; disj_split; set_solver).
  rewrite <- (app_assoc (obs ++ O)). cbn [app].
  replace (k1 ++ kc' ++ kr ++ k3) with (k1 ++ (kc' ++ kr) ++ k3) by (by rewrite !app_assoc).
  eapply (ends_err _ _ _ (del_err (pageSize < node_size (es1 ++ mkEntry 0 (first_key (ces' ++ res)) [] :: es3)) st)).
  2:{ intros err st4 [HE HX]. split; [exact HE|].
      destruct ces' as [|c ces'']; [exfalso|by split; [|exists es1, [e; er], es3; split_and!; [..|exact HX]]].
      cbn [app] in HX. rewrite Hfrr in HX.
      pose proof (page_fits node _ es1 [e; er] es3 er (e_key er) HP ltac:(right; left) ltac:(lia)). lia. }
  apply (rebuild_ok st st3 h node es1 [e; er] es3 m (ces' ++ res) k1 (kc' ++ kr) k3 _ (Fc' ∪ Fr) F1 F3 Fr Fc Fc' O
    [e_ptr e; e_ptr er] obs k); try done.
  - by destruct ces', res.
  - clear - D1. disj.
  - rewrite Hp3. apply rep_app. exists kc', kr, Fc', Fr. split_and!; try done. by eapply rep_mono.
  - clear. set_solver.
  - by apply grows_same with st2.
  - apply NoDup_cons. split; [clear - Hne; set_solver|apply NoDup_singleton].
  - clear - D2 Hfr. disj.
  - clear - D2 Hpr. disj.
  - clear - D0 D1 D2. disj.
  - cbn. clear. set_solver.
  - by apply Hr3.
Qed.
End Step.

Lemma deleteTryRight_ok st st2 h key node es1 e es2 k1 kc kc' k2 F1 Fc F2 Fc' O b uc ces ces' obs k :
  focus (pages st) h key es1 e es2 k1 kc k2 F1 Fc F2 b ces ->
  page_of node nodeTypeInternal (es1 ++ e :: es2) -> grows cb st st2 Fc Fc' O ->
  page_of uc (ty_of h) ces' -> rep (pages st2) h ces' kc' Fc' -> kv_sorted (k1 ++ kc' ++ k2) -> room st2 (S k) ->
  ends (deleteTryRight cb node (len es1) uc (len ces') (len (es1 ++ e :: es2)) ((obs ++ O) ++ [e_ptr e])) st2
    (del_post st (S h) (k1 ++ kc' ++ k2) (F1 ∪ ({[e_ptr e]} ∪ Fc ∪ F2)) obs k) (del_err (swollen es1 e es2 ces') st).
Proof.
  intros Fo P G Pc Rc Hs Hr. pose proof P as [B _]. pose proof (built_bounds B) as Hb.
  rewrite len_app, len_cons in Hb. pose proof (len_nonneg es1). pose proof (len_nonneg es2).
  unfold deleteTryRight. rewrite u16_small, len_app, len_cons by lia. destruct es2 as [|er es3].
  { change (len (@nil entry)) with 0. zdecide. by eapply deleteFinish_ok. }
  rewrite len_cons in *. pose proof (len_nonneg es3). zdecide.
  eapply ends_lift.
  { replace (len es1 + 1) with (Z.of_nat (length (es1 ++ [e]))) by (unfold len; rewrite length_app; cbn; lia).
    apply (built_getPtr B _ er). change (e :: er :: es3) with ([e] ++ er :: es3).
    by rewrite app_assoc, list_lookup_middle. }
  destruct (mergeRight_ok st st2 h key node es1 e (er :: es3) k1 kc kc' k2 F1 Fc F2 Fc' O b uc ces ces' obs k
    Fo P G Pc Rc Hs Hr er es3 eq_refl) as (rb & Hrb & M).
  eapply get_step; [exact Hrb|]. intros st3 [Hp3 Hr3].
  destruct M as [M|(m & M & K)]; (eapply ends_lift; [exact M|]).
  - eapply deleteFinish_ok; eauto; [by eapply grows_same|by rewrite Hp3].
  - apply K. by split.
Qed.

Lemma deleteRebalance_ok st st2 h key node es1 e es2 k1 kc kc' k2 F1 Fc F2 Fc' O b uc ces ces' obs k :
  focus (pages st) h key es1 e es2 k1 kc k2 F1 Fc F2 b ces ->
  page_of node nodeTypeInternal (es1 ++ e :: es2) -> grows cb st st2 Fc Fc' O ->
  page_of uc (ty_of h) ces' -> rep (pages st2) h ces' kc' Fc' -> kv_sorted (k1 ++ kc' ++ k2) -> room st2 (S k) ->
  ends (deleteRebalance cb node (len es1) uc ((obs ++ O) ++ [e_ptr e])) st2
    (del_post st (S h) (k1 ++ kc' ++ k2) (F1 ∪ ({[e_ptr e]} ∪ Fc ∪ F2)) obs k) (del_err (swollen es1 e es2 ces') st).
Proof.
  intros Fo P G Pc Rc Hs Hr. pose proof P as [B _]. pose proof Pc as [Bc _]. pose proof (built_bounds B) as Hb.
  rewrite len_app, len_cons in Hb. pose proof (len_nonneg es1). pose proof (len_nonneg es2).
  unfold deleteRebalance. eapply ends_lift; [apply (built_nkeys Bc)|].
  eapply (ends_lift _ _ _ _ _ ((len ces' =? 0) || (node_size ces' <=? pageSize / 4))).
  { destruct (len ces' =? 0); [done|]. by rewrite (built_nbytes _ _ _ _ Bc). }
  eapply ends_lift; [apply (built_nkeys B)|].
  destruct ((len ces' =? 0) || _); [|by eapply deleteFinish_ok].
  destruct (decide (es1 = [])) as [->|Hne]; [by eapply deleteTryRight_ok|].
  destruct (exists_last Hne) as (es0 & el & Hes). rewrite Hes, len_app, len_one in *.
  pose proof (len_nonneg es0). zdecide.
  eapply ends_lift.
  { replace (u16 (len es0 + 1 - 1)) with (Z.of_nat (length es0)) by (rewrite u16_small; unfold len in *; lia).
    apply (built_getPtr B _ el). rewrite <- app_assoc. cbn [app]. by rewrite list_lookup_middle. }
  destruct (mergeLeft_ok st st2 h key node (es0 ++ [el]) e es2 k1 kc kc' k2 F1 Fc F2 Fc' O b uc ces ces' obs k
    Fo P G Pc Rc Hs Hr es0 el eq_refl) as (lb & Hlb & M).
  eapply get_step; [exact Hlb|]. intros st3 [Hp3 Hr3].
  destruct M as [M|(m & M & K)]; (eapply ends_lift; [exact M|]).
  - replace (len es0 + 1) with (len (es0 ++ [el])) by (by rewrite len_app).
    eapply deleteTryRight_ok; eauto; [by eapply grows_same|by rewrite Hp3].
  - replace (u16 (len es0 + 1 - 1)) with (len es0) by (rewrite u16_small; lia). apply K. by split.
Qed.

(** A separator that does not fit is the key after the deleted one. *)
Lemma swollen_blocked m m2 h key node es1 e es2 k1 kc k2 F1 Fc F2 b ces ces' Fc' F :
  focus m h key es1 e es2 k1 kc k2 F1 Fc F2 b ces -> page_of node nodeTypeInternal (es1 ++ e :: es2) ->
  is_Some (kv_get key kc) -> rep m2 h ces' (kv_del key kc) Fc' -> swollen es1 e es2 ces' ->
  blocked m (S h) (es1 ++ e :: es2) F key (k1 ++ kc ++ k2).
Proof.
  intros Fo P Hget R' [Hne' HX]. pose proof (rep_focus_get _ _ _ _ _ _ _ _ _ _ _ _ _ _ Fo) as [Hg _].
  destruct Fo as [_ _ _ Hnec Hfc Rc _ _ _ _ Hbl _ Hsc].
  pose proof (crowded_longer _ _ _ _ _ P HX) as Hlen.
  destruct (rep_head _ _ _ _ _ Rc Hnec) as (v & kc0 & ->). destruct (rep_head _ _ _ _ _ R' Hne') as (v' & kc1 & Hk).
  rewrite Hfc in *. unfold kv_del in Hk. cbn [List.filter fst] in Hk. destruct (beqb (e_key e) key) eqn:E; cbn [negb] in Hk.
  - apply beqb_eq in E. apply kv_sorted_cons in Hsc as [_ Ha]. cbn [fst] in Ha. rewrite E in *.
    pose proof (kv_del_above key kc0 Ha) as Hd. unfold kv_del in Hd. rewrite Hd in Hk. subst kc0.
    apply Forall_cons in Ha as [Hlt _]. split; [by rewrite Hg|]. exists (first_key ces').
    split; [rewrite kv_next_below by done; by apply kv_next_app, kv_next_first|].
    split; [done|]. left. split; [lia|done].
  - injection Hk as Hk _ _. rewrite <- Hk in Hlen. lia.
Qed.
(** What blocks the child of a node blocks the node. *)
Lemma blocked_child m h key es1 e es2 k1 kc k2 F1 Fc F2 b ces F :
  focus m h key es1 e es2 k1 kc k2 F1 Fc F2 b ces -> {[e_ptr e]} ∪ Fc ⊆ F -> blocked m h ces Fc key kc ->
  blocked m (S h) (es1 ++ e :: es2) F key (k1 ++ kc ++ k2).
Proof.
  intros Fo HF (Hget & next & Hn & Hl & Hx). pose proof (rep_focus_get _ _ _ _ _ _ _ _ _ _ _ _ _ _ Fo) as [Hg _].
  destruct Fo as [_ Hpg Pc _ _ _ _ _ _ _ Hbl _ _]. split; [by rewrite Hg|]. exists next.
  split; [rewrite kv_next_below by done; by apply kv_next_app|]. split; [done|]. right.
  destruct Hx as [[Hh Hc]|(id & b' & es & Hid & Hb & P & Hc)].
  - exists (e_ptr e), b, ces. split; [set_solver|]. split; [done|]. split; [by destruct h; [lia|]|done].
  - exists id, b', es. split; [set_solver|done].
Qed.

Lemma deleteNode_ok h : forall fuel node key obs es kvs F st k,
  (h < fuel)%nat -> page_of node (ty_of h) es -> es <> [] -> ble (first_key es) key ->
  rep (pages st) h es kvs F -> kv_sorted kvs -> room st (h + k) ->
  ends (deleteNode cb fuel node key obs) st (fun r st' =>
    match kv_get key kvs with
    | None => r = (node, false, obs) /\ same cb st st'
    | Some _ => del_post st h (kv_del key kvs) F obs k r st'
    end) (del_err (blocked (pages st) h es F key kvs) st).
Proof.
  induction h as [|h IH]; intros [|fuel] node key obs es kvs F st k Hf P Hne Hk R Hs Hr; try lia;
    cbn [deleteNode]; pose proof P as [B Hso];
    (destruct (lookup_split es key Hso) as (es1 & e & es2 & -> & He & Hgt);
      [destruct es; [done|]; eauto|]);
    (eapply ends_lift; [by eapply nodeLookupLE_ok|]);
    (eapply ends_lift; [apply (built_btype B)|]).
  - cbn [ty_of] in *. rewrite Z.eqb_refl. inversion R; subst.
    eapply ends_lift; [apply (built_getKey B (length es1) e); by rewrite list_lookup_middle|].
    rewrite kv_get_leaf, kv_del_leaf by done. destruct (beqb (e_key e) key); cbn [negb].
    + destruct (leafDeleteEncoded_ok node es1 e es2 P) as (u & Hu & Pu).
      eapply ends_lift; [exact Hu|]. exists (es1 ++ es2), ∅, []. cbn [fst snd app].
      split; [done|]. split; [by rewrite app_nil_r|]. split; [done|]. split; [constructor|].
      split; [done|apply grows_refl].
    + split; [done|apply same_refl].
  - change (ty_of (S h) =? nodeTypeLeaf) with false. cbv iota.
    eapply ends_lift; [apply (built_getPtr B (length es1) e); by rewrite list_lookup_middle|].
    destruct (rep_focus _ _ _ _ _ _ _ _ R Hs He Hgt)
      as (k1 & kc & k2 & F1 & Fc & F2 & b & ces & Fo & -> & ->).
    destruct (rep_focus_get _ _ _ _ _ _ _ _ _ _ _ _ _ _ Fo) as [Hget Hdel]. rewrite Hget, Hdel.
    pose proof Fo as [Rl Hpg Pc Hnec Hfc Rc Rr Hfr D1 D2 Hbl Hab Hsc].
    eapply get_step; [exact Hpg|]. intros st1 Hst1. pose proof Hst1 as [Hp1 Hr1].
    eapply ends_lift; [by rewrite (page_valid _ _ _ Pc)|]. apply ends_bind.
    eapply ends_mono; [apply (IH fuel b key obs ces kc Fc st1 (S k))| |]; try done;
      [lia|by rewrite Hfc|by rewrite Hp1|apply Hr1; eapply room_le; [|exact Hr]; lia| |].
    + cbn beta. intros r st2. destruct (kv_get key kc) eqn:Eg.
      * destruct r as [[uc del] obs']. intros (ces' & Fc' & O & Hd & Ho & Pu & Ru & Hr2 & G).
        cbn [fst snd] in *. subst del obs'. cbn [negb].
        eapply ends_err; [eapply deleteRebalance_ok; eauto|].
        -- destruct G. split; by rewrite <- ?Hp1.
        -- rewrite <- Hdel. by apply kv_sorted_del.
        -- intros err st3 [HE HX]. split; [exact HE|]. by eapply swollen_blocked.
      * intros [-> Hst2]. split; [done|by eapply same_trans].
    + cbn beta. intros err st2 [(-> & Hsub & Hr0) HX]. rewrite Hp1 in Hsub, HX. split; [done|].
      eapply blocked_child; [exact Fo| |exact HX]. clear. set_solver.
Qed.

(** *** The root *)

Lemma tree_delete st st1 st2 F F' O h root kvs :
  grows cb st st1 F F' O -> F ⊆ dom (pages st) -> tree (pages st1) h root kvs F' ->
  (forall id, pages st2 !! id = if decide (id ∈ O) then None else pages st1 !! id) ->
  tree (pages st2) h root kvs F' /\ updated cb st st2 F F'.
Proof.
  intros G HF [(-> & -> & ->)|(Hr & Hs & R)] Hdel.
  - destruct (grows_delete cb _ _ _ _ _ _ _ _ _ G HF (rep_nil _ 0) Hdel). split; [by left|done].
  - destruct (grows_delete cb _ _ _ _ _ _ _ _ _ G HF R Hdel). split; [by right|done].
Qed.

(** Choosing the new root from the rebuilt one: an empty tree, the only child
    of an internal root, or a new page. *)
Definition chooseRoot (updatedRoot : bytes) (ty n : Z) : stM St error Z :=
  if (ty =? nodeTypeLeaf) && (n =? 1) then ret 0
  else if (ty =? nodeTypeInternal) && (n =? 0) then ret 0
  else if (ty =? nodeTypeInternal) && (n =? 1) then lift (getPtr updatedRoot 0)
  else cb_new cb updatedRoot.

Lemma chooseRoot_ok h u es kvs F st k :
  page_of u (ty_of h) es -> rep (pages st) h es (([], []) :: kvs) F ->
  kv_sorted (([], []) :: kvs) -> room st (S k) ->
  ends (chooseRoot u (ty_of h) (len es)) st (fun root' st' => exists h',
    (h' <= h)%nat /\ tree (pages st') h' root' kvs (F ∪ (dom (pages st') ∖ dom (pages st))) /\
    pages st ⊆ pages st' /\ room st' k) no_err.
Proof.
  intros P R Hs Hr. pose proof P as [B _].
  assert (Hne : es <> []) by (intros ->; apply rep_empty in R as [? _]; done).
  destruct (rep_head _ _ _ _ _ R Hne) as (v & kvs' & [= Hfk _ _]).
  assert (Hroom : room st k) by (eapply room_le; [|exact Hr]; lia).
  assert (Hz : F ∪ dom (pages st) ∖ dom (pages st) = F) by (by rewrite difference_diag_L, union_empty_r_L).
  assert (Hnew : ends (cb_new cb u) st (fun root' st' => exists h',
    (h' <= h)%nat /\ tree (pages st') h' root' kvs (F ∪ (dom (pages st') ∖ dom (pages st))) /\
    pages st ⊆ pages st' /\ room st' k) no_err).
  { eapply ends_mono; [apply (new_root_ok cb u h es _ F st k P Hne (eq_sym Hfk) R Hr)| |done].
    cbn beta. intros id st' (? & ? & ? & ?). exists h. split; [lia|]. split; [by right|done]. }
  unfold chooseRoot. destruct h as [|h]; cbn [ty_of].
  - change (nodeTypeLeaf =? nodeTypeInternal) with false. rewrite Z.eqb_refl. cbn [andb].
    destruct (len es =? 1) eqn:C; [|exact Hnew]. zbool. exists 0%nat. split; [lia|]. rewrite Hz.
    destruct es as [|e es]; [done|]. assert (es = []) as -> by (apply len_0; rewrite len_cons in C; lia).
    inversion R; subst. split; [|done]. by left.
  - change (nodeTypeInternal =? nodeTypeLeaf) with false. rewrite Z.eqb_refl. cbn [andb].
    destruct es as [|e es]; [done|]. rewrite len_cons. pose proof (len_nonneg es). zdecide.
    destruct (1 + len es =? 1) eqn:C; [|exact Hnew]. zbool.
    assert (es = []) as -> by (apply len_0; lia).
    unfold ends, lift. rewrite (built_getPtr B 0 e eq_refl : getPtr u 0 = _), Hz. exists h. split; [lia|].
    split; [|done]. right. pose proof (built_entries _ _ _ _ _ B) as Hok.
    inversion Hok as [|? ? He _]; subst. destruct He as (_ & _ & _ & _ & [[? _]|(_ & Hp & Hv)]); [done|].
    split; [done|]. split; [done|]. destruct e as [ep ek ev]. cbn in *. by subst.
Qed.

Lemma blocked_root m h root b ces key kvs F :
  key <> [] -> m !! root = Some b -> page_of b (ty_of h) ces -> blocked m h ces F key (([], []) :: kvs) ->
  separator_grows m ({[root]} ∪ F) key kvs.
Proof.
  intros Hk Hb P (Hget & next & Hn & Hl & Hx).
  assert (Hlt : blt [] key) by (destruct key; done).
  change (([], []) :: kvs) with ([([], [])] ++ kvs) in Hget, Hn.
  rewrite (kv_get_below key [([], [])]) in Hget by (by repeat constructor).
  rewrite (kv_next_below key [([], [])]) in Hn by (by repeat constructor).
  split; [done|]. exists next. split; [done|]. split; [done|].
  destruct Hx as [[Hh Hc]|(id & b' & es & Hid & Hb' & P' & Hc)].
  - exists root, b, ces. split; [set_solver|]. split; [done|]. split; [by destruct h; [lia|]|done].
  - exists id, b', es. split; [set_solver|done].
Qed.

Lemma delete_ok h fuel root key kvs F st k :
  tree (pages st) h root kvs F -> (h < fuel)%nat -> key <> [] -> len key <= maxKeySize -> room st (S h + k) ->
  ends (delete cb fuel root key) st (fun r st' =>
    match kv_get key kvs with
    | None => r = (root, false) /\ same cb st st'
    | Some _ => exists h' F', (h' <= h)%nat /\ r.2 = true /\ tree (pages st') h' r.1 (kv_del key kvs) F' /\
        updated cb st st' F F' /\ room st' k
    end) (del_err (separator_grows (pages st) F key kvs) st).
Proof.
  intros T Hf Hk Hlk Hr. unfold delete.
  assert (len key <> 0) by (intros ?%len_0; done). rewrite Z.gtb_ltb. zdecide.
  destruct T as [(-> & -> & ->)|(Hroot & Hs & R)]; [split; [done|apply same_refl]|]. zdecide.
  eapply ends_lift; [unfold validateCallbacks; by rewrite store_set|].
  apply rep_one in R as (b & ces & F1 & Hb & P & Hne & Hfk & R & Hnin & ->). cbn [e_ptr e_key] in *.
  eapply get_step; [exact Hb|]. intros st1 Hst1. pose proof Hst1 as [Hp1 Hr1].
  eapply ends_lift; [by rewrite (page_valid _ _ _ P)|]. apply ends_bind.
  eapply ends_mono; [apply (deleteNode_ok h fuel b key [] ces (([], []) :: kvs) F1 st1 (S k))| |];
    try done; [rewrite Hfk; apply ble_nil|by rewrite Hp1|apply Hr1; eapply room_le; [|exact Hr]; lia| |].
  2:{ cbn beta. intros err st2 [(-> & Hsub & Hr0) HX]. rewrite Hp1 in Hsub, HX. split; [done|].
      by eapply blocked_root. }
  cbn beta. intros r st2. replace (kv_get key (([], []) :: kvs)) with (kv_get key kvs) by (by destruct key).
  destruct (kv_get key kvs) as [v|]; [|intros [-> Hst2]; split; [done|by eapply same_trans]].
  destruct r as [[u del] obs]. intros (ces' & F' & O & Hd & Ho & Pu & Ru & Hr2 & G).
  cbn [fst snd app] in *. subst del obs. cbn [negb]. pose proof Pu as [Bu _].
  assert (Hdel : kv_del key (([], []) :: kvs) = ([], []) :: kv_del key kvs) by (by destruct key).
  pose proof (kv_sorted_del key _ Hs) as Hs'. rewrite Hdel in *.
  eapply ends_lift; [apply (built_btype Bu)|]. eapply ends_lift; [apply (built_nkeys Bu)|]. apply ends_bind.
  eapply ends_mono; [apply (chooseRoot_ok h u ces' (kv_del key kvs) F' st2 k Pu Ru Hs' Hr2)| |done].
  cbn beta. intros root' st3 (h' & Hh & T' & Hsub & Hr3).
  assert (G' : grows cb st st3 ({[root]} ∪ F1) (F' ∪ (dom (pages st3) ∖ dom (pages st2))) (O ++ [root])).
  { eapply root_grows; eauto. destruct G. split; by rewrite <- ?Hp1. }
  assert (HFd : {[root]} ∪ F1 ⊆ dom (pages st))
    by (apply rep_dom in R; apply elem_of_dom_2 in Hb; clear - R Hb; set_solver).
  apply ends_bind. eapply ends_mono; [apply (deleteAll_ok cb (O ++ [root]) st3 k)| |done];
    [apply G'| |done|].
  { etrans; [apply G'|]. etrans; [exact HFd|]. apply subseteq_dom, G'. }
  cbn beta. intros _ st4 [Hr4 Hd4]. unfold ends, ret.
  exists h', (F' ∪ (dom (pages st3) ∖ dom (pages st2))). split; [lia|]. split; [done|]. cbn [fst].
  destruct (tree_delete _ _ _ _ _ _ _ _ _ G' HFd T' Hd4). auto.
Qed.
End Delete.
