(* ===== verification/TreeResults.v ===== *)
(** * Results on the page tree (src/internal/btree/page_tree.go)

    Total correctness of lookup, range scan, insertion and deletion over any
    page store that satisfies [PageStore], and a map-backed store that does. *)

From S2P Require Import Prelude KvList Errors Page PageTree PageNodeSpec PageTreeSpec PageInsertSpec.
From S2P Require Import PageRangeSpec PageDeleteSpec.

(** ** A map-backed page store *)

Record mem := { mem_pages : gmap Z bytes; mem_next : Z }.

(** A missing page is the nil slice, as from a Go map. *)
Definition mem_callbacks : callbacks mem := {|
  cb_set := true;
  cb_get id st := (Ok (default [] (mem_pages st !! id)), st);
  cb_new p st :=
    (Ok (mem_next st),
     {| mem_pages := <[mem_next st := p]> (mem_pages st); mem_next := mem_next st + 1 |});
  cb_del id st := (Ok tt, {| mem_pages := base.delete id (mem_pages st); mem_next := mem_next st |});
|}.

#[global] Program Instance mem_store : PageStore mem_callbacks := {|
  pages := mem_pages;
  room st n := 0 < mem_next st /\ mem_next st + Z.of_nat n < 2 ^ 64 /\
    forall id, mem_next st <= id -> mem_pages st !! id = None;
|}.
Next Obligation. done. Qed.
Next Obligation. cbn. intros st n n' Hn (? & ? & ?). split_and!; [lia|lia|done]. Qed.
Next Obligation. intros id b st Hb. unfold ends. cbn. by rewrite Hb. Qed.
Next Obligation.
  intros p st n (H0 & H1 & Hf) _. unfold ends. cbn. split_and!; [lia|lia|apply Hf; lia|done|lia|lia|].
  intros id Hid. rewrite lookup_insert_ne by lia. apply Hf. lia.
Qed.
Next Obligation.
  intros id st n _ (H0 & H1 & Hf). unfold ends. cbn. split_and!; [done|lia|lia|].
  intros id' Hid. destruct (decide (id = id')) as [->|]; [apply lookup_delete_eq|].
  rewrite lookup_delete_ne by done. auto.
Qed.

Definition mem0 : mem := {| mem_pages := ∅; mem_next := 1 |}.
Lemma mem0_tree : tree (pages mem0) 0 0 [] ∅.
Proof. by left. Qed.
Lemma mem0_room : room mem0 100.
Proof. split_and!; [done|done|]. intros. apply lookup_empty. Qed.

Lemma tree_mono m m' h root kvs F : tree m h root kvs F -> m ⊆ m' -> tree m' h root kvs F.
Proof. intros [?|(? & ? & ?)] Hs; [by left|right]. split_and!; try done. by eapply rep_mono. Qed.

(** ** Theorems *)

Section Results.
Context {St : Type} (cb : callbacks St) {PS : PageStore cb}.

(** [getValue] returns the value stored for the key, or "not found" when
    the key is absent, and changes nothing. *)
Theorem getValue_correct h fuel root key kvs F st :
  tree (pages st) h root kvs F -> (h < fuel)%nat -> key <> [] ->
  exists st', getValue cb fuel root key st = (Ok (kv_get key kvs), st') /\ same cb st st'.
Proof.
  intros T Hf Hk. pose proof (getValue_ok cb h fuel root key kvs F st T Hf Hk) as E.
  apply ends_returns in E as (r & st' & Hr & -> & Hs). eauto.
Qed.

(** C24: [rangeValues] returns exactly the stored entries with
    [start <= key <= end], in ascending key order, each once, for every pair of
    bounds within the key limit; empty bounds are ordinary keys and the
    sentinel is never reported. *)
Theorem rangeValues_correct h fuel root lo hi kvs F st :
  tree (pages st) h root kvs F -> (h < fuel)%nat -> (S (length kvs) < fuel)%nat ->
  len lo <= maxKeySize -> len hi <= maxKeySize ->
  exists st', rangeValues cb fuel root lo hi st = (Ok (kv_range lo hi kvs), st') /\ same cb st st'.
Proof.
  intros T Hf Hf2 Hlo Hhi. pose proof (rangeValues_ok cb h fuel root lo hi kvs F st T Hf Hf2 Hlo Hhi) as E.
  apply ends_returns in E as (r & st' & Hr & -> & Hs). eauto.
Qed.

Lemma insert_run h fuel root key value kvs F st k :
  tree (pages st) h root kvs F -> (h < fuel)%nat ->
  key <> [] -> len key <= maxKeySize -> len value <= maxValueSize -> room st (3 * h + 4 + k) ->
  exists root' st' h' F', insert cb fuel root key value st = (Ok root', st') /\
    (h' <= S h)%nat /\ tree (pages st') h' root' (kv_set key value kvs) F' /\
    updated cb st st' F F' /\ room st' k.
Proof.
  intros T Hf Hk Hlk Hlv Hr. pose proof (insert_ok cb h fuel root key value kvs F st k T Hf Hk Hlk Hlv Hr) as E.
  apply ends_returns in E as (root' & st' & Hi & h' & F' & ? & ? & _ & ? & ?). exists root', st', h', F'. auto.
Qed.

(** C10: [insert] of a legal entry always succeeds: the new root's tree holds
    the old contents with the key set, its height grows by at most one, no
    existing page is overwritten, no page outside the old tree is touched, and
    exactly the pages the new tree no longer uses are released. *)
Theorem insert_correct h fuel root key value kvs F st k :
  tree (pages st) h root kvs F -> (h < fuel)%nat ->
  key <> [] -> len key <= maxKeySize -> len value <= maxValueSize -> room st (3 * h + 4 + k) ->
  exists root' st' h' F', insert cb fuel root key value st = (Ok root', st') /\
    (h' <= S h)%nat /\ tree (pages st') h' root' (kv_set key value kvs) F' /\
    updated cb st st' F F' /\ room st' k.
Proof. apply insert_run. Qed.

(** C23: [delete] of a present key yields a tree with exactly that key removed,
    under the same page discipline; of an absent key it always returns false and
    changes nothing. It fails in one case only, with the old tree intact: the key
    is stored and is a separator in an internal page of the tree, the next stored
    key is longer, and that page overflows with the next key in its place; so it
    succeeds whenever the next key is not longer. *)
Theorem delete_correct h fuel root key kvs F st k :
  tree (pages st) h root kvs F -> (h < fuel)%nat -> key <> [] -> len key <= maxKeySize ->
  room st (S h + k) ->
  match delete cb fuel root key st with
  | (Ok (root', found), st') =>
      match kv_get key kvs with
      | None => found = false /\ root' = root /\ same cb st st'
      | Some _ => found = true /\ exists h' F', (h' <= h)%nat /\
          tree (pages st') h' root' (kv_del key kvs) F' /\ updated cb st st' F F' /\ room st' k
      end
  | (Err e, st') => e = ENodeExceedsPage /\ tree (pages st') h root kvs F /\ separator_grows (pages st) F key kvs
  | (Panic, _) | (NoFuel, _) => False
  end.
Proof.
  intros T Hf Hk Hlk Hr. pose proof (delete_ok cb h fuel root key kvs F st k T Hf Hk Hlk Hr) as E.
  unfold ends in E. destruct (delete cb fuel root key st) as [[[root' found]|e| |] st']; try done.
  - destruct (kv_get key kvs); [|by destruct E as [[= -> ->] ?]].
    destruct E as (h' & F' & ? & ? & ?). split; [done|]. by exists h', F'.
  - destruct E as [(-> & Hsub & _) HX]. split; [done|]. split; [by eapply tree_mono|done].
Qed.

(** the guards of the tree operations: an empty or oversized key, an
    oversized value or an oversized bound is refused with its own error before
    any page is read or written. *)
Theorem tree_guards fuel root key value lo hi st :
  (key = [] -> getValue cb fuel root key st = (Err ETreeKeyEmpty, st) /\
     insert cb fuel root key value st = (Err ETreeKeyEmpty, st) /\
     delete cb fuel root key st = (Err ETreeKeyEmpty, st)) /\
  (maxKeySize < len key -> insert cb fuel root key value st = (Err ETreeKeyExceeds, st) /\
     delete cb fuel root key st = (Err ETreeKeyExceeds, st)) /\
  (key <> [] -> len key <= maxKeySize -> maxValueSize < len value ->
     insert cb fuel root key value st = (Err ETreeValueExceeds, st)) /\
  (maxKeySize < len lo -> rangeValues cb fuel root lo hi st = (Err EStartExceeds, st)) /\
  (len lo <= maxKeySize -> maxKeySize < len hi -> rangeValues cb fuel root lo hi st = (Err EEndExceeds, st)).
Proof.
  unfold getValue, insert, delete, rangeValues, validateTreeEntry, bind, lift, maxKeySize, maxValueSize.
  split_and!.
  - by intros ->.
  - intros H. zdecide. done.
  - intros Hk H1 H2. assert (len key <> 0) by (intros ?%len_0; done). zdecide. done.
  - intros H. zdecide. done.
  - intros H1 H2. zdecide. done.
Qed.
End Results.

(** ** Witnesses *)

Definition kA : bytes := [Byte.x61].
Definition vB : bytes := [Byte.x62].

Lemma getValue_correct_witness : exists st',
  getValue mem_callbacks 1 0 kA mem0 = (Ok None, st') /\ same mem_callbacks mem0 st'.
Proof. apply (getValue_correct mem_callbacks 0 1 0 kA [] ∅ mem0 mem0_tree); [lia|discriminate]. Defined.
Lemma rangeValues_correct_witness : exists st',
  rangeValues mem_callbacks 2 0 kA vB mem0 = (Ok [], st') /\ same mem_callbacks mem0 st'.
Proof. apply (rangeValues_correct mem_callbacks 0 2 0 kA vB [] ∅ mem0 mem0_tree); (cbn; lia) || discriminate. Defined.
Lemma insert_correct_witness : exists root' st' h' F',
  insert mem_callbacks 1 0 kA vB mem0 = (Ok root', st') /\ tree (pages st') h' root' [(kA, vB)] F'.
Proof.
  destruct (insert_correct mem_callbacks 0 1 0 kA vB [] ∅ mem0 96 mem0_tree) as (r & st' & h' & F' & Hi & _ & T & _);
    [lia|discriminate|discriminate|discriminate|exact mem0_room|].
  exists r, st', h', F'. split; [exact Hi|exact T].
Defined.
Lemma delete_correct_witness : exists root st h F root' st' h' F',
  tree (pages st) h root [(kA, vB)] F /\ delete mem_callbacks (S h) root kA st = (Ok (root', true), st') /\
  tree (pages st') h' root' [] F'.
Proof.
  destruct (insert_run mem_callbacks 0 1 0 kA vB [] ∅ mem0 96 mem0_tree) as (r & st & h & F & _ & Hh & T & _ & Hr);
    [lia|discriminate|discriminate|discriminate|exact mem0_room|].
  pose proof (delete_correct mem_callbacks h (S h) r kA [(kA, vB)] F st 0 T ltac:(lia) ltac:(discriminate)
    ltac:(discriminate) (room_le st (S h + 0) 96 ltac:(lia) Hr)) as D.
  destruct (delete mem_callbacks (S h) r kA st) as [[[r' found]|e| |] st'] eqn:E.
  - destruct D as (-> & h' & F' & _ & T' & _). exists r, st, h, F, r', st', h', F'. exact (conj T (conj E T')).
  - exfalso. destruct D as (_ & _ & _ & next & Hn & _). discriminate Hn.
  - destruct D.
  - destruct D.
Defined.
