(* ===== verification/File.v ===== *)
(** * Files

    The part of [os.File] the durable store uses: positioned reads and writes,
    truncation, size and synchronisation of one open file, with injected I/O
    faults. Every call consumes one fault decision; when the list is exhausted
    all calls succeed. *)

From S2P Require Import Prelude Errors Page.

(** [Fault n]: the call fails after transferring [n] bytes. *)
Inductive fault := Pass | Fault (n : Z).

Record file := mkFile {
  f_data : bytes;          (* what a reader of the descriptor sees *)
  f_synced : bytes;        (* the contents at the last successful Sync *)
  f_faults : list fault;   (* outcomes of the coming calls *)
}.

Definition next_fault : stM file error fault := fun f =>
  match f_faults f with
  | [] => (Ok Pass, f)
  | x :: xs => (Ok x, mkFile (f_data f) (f_synced f) xs)
  end.
(** A call that transfers nothing and can fail. *)
Definition checked : stM file error unit :=
  x <~ next_fault ;;
  match x with Pass => ret tt | Fault _ => throw EFile end.

Definition set_data (d : bytes) : stM file error unit := fun f =>
  (Ok tt, mkFile d (f_synced f) (f_faults f)).
Definition get_data : stM file error bytes := fun f => (Ok (f_data f), f).

(** Contents after [d] was written at [pos]: a gap is filled with zeros. *)
Definition write_data (data : bytes) (pos : Z) (d : bytes) : bytes :=
  if len d =? 0 then data
  else upd (data ++ make (pos + len d - len data)) pos d.

(** [file.ReadAt(make([]byte, n), pos)]: reading past the end is [io.EOF]. *)
Definition ReadAt (n pos : Z) : stM file error bytes :=
  _ <~ checked ;;
  data <~ get_data ;;
  throw_if pos + n >? len data with EEOF ;;
  ret (sub data pos n).

(** [file.WriteAt(d, pos)]: a failing call may have written a prefix. *)
Definition WriteAt (d : bytes) (pos : Z) : stM file error unit :=
  x <~ next_fault ;;
  data <~ get_data ;;
  match x with
  | Pass => set_data (write_data data pos d)
  | Fault n => _ <~ set_data (write_data data pos (take (Z.to_nat n) d)) ;; throw EFile
  end.

Definition Truncate (n : Z) : stM file error unit :=
  _ <~ checked ;;
  data <~ get_data ;;
  set_data (sub data 0 n ++ make (n - len data)).

(** [info, err := file.Stat(); info.Size()]: the size is an [int64]; the call
    fails ([EOVERFLOW]) on a file whose size is not representable. *)
Definition maxInt64 : Z := 2 ^ 63 - 1.
Definition StatSize : stM file error Z :=
  _ <~ checked ;;
  data <~ get_data ;;
  throw_if len data >? maxInt64 with EFile ;;
  ret (len data).

Definition Sync : stM file error unit :=
  _ <~ checked ;;
  fun f => (Ok tt, mkFile (f_data f) (f_data f) (f_faults f)).

(** [crc32.ChecksumIEEE]: the reflected polynomial 0xEDB88320, bit by bit. *)
Fixpoint crc_bits (n : nat) (c : Z) : Z :=
  match n with
  | O => c
  | S n =>
      let c' := Z.shiftr c 1 in
      crc_bits n (if Z.testbit c 0 then Z.lxor c' 0xEDB88320 else c')
  end.
Definition crc_byte (c : Z) (b : byte) : Z := crc_bits 8 (Z.lxor c (bZ b)).
Definition crc32 (bs : bytes) : Z :=
  Z.lxor (fold_left crc_byte bs 0xFFFFFFFF) 0xFFFFFFFF.

(** The check value of CRC-32/ISO-HDLC, the code's polynomial. *)
Example crc32_check :
  crc32 [Byte.x31; Byte.x32; Byte.x33; Byte.x34; Byte.x35; Byte.x36; Byte.x37; Byte.x38; Byte.x39] = 0xCBF43926.
Proof. vm_compute. reflexivity. Qed.

(** ** Writes and reads *)

Lemma len_make n : len (make n) = Z.max 0 n.
Proof. unfold make, len. rewrite length_replicate. lia. Qed.

Lemma write_data_len data pos d :
  0 <= pos -> len (write_data data pos d) = if len d =? 0 then len data else Z.max (len data) (pos + len d).
Proof.
  intros Hp. unfold write_data. destruct (len d =? 0) eqn:C; [done|]. zbool. pose proof (len_nonneg d).
  assert (len (data ++ make (pos + len d - len data)) = Z.max (len data) (pos + len d))
    by (rewrite len_app, len_make; lia).
  rewrite len_upd; lia.
Qed.

Lemma sub_write_same data pos d :
  0 <= pos -> d <> [] -> sub (write_data data pos d) pos (len d) = d.
Proof.
  intros Hp Hd. unfold write_data. assert (len d <> 0) by (intros ?%len_0; done). zdecide.
  apply sub_upd_eq; [lia|]. rewrite len_app, len_make. lia.
Qed.

Lemma sub_write_other data pos d p n :
  0 <= pos -> 0 <= p -> 0 <= n -> p + n <= len data -> p + n <= pos \/ pos + len d <= p ->
  sub (write_data data pos d) p n = sub data p n.
Proof.
  intros Hpos Hp Hn Hle Hd. unfold write_data. destruct (len d =? 0); [done|].
  rewrite sub_upd_ne; [apply sub_app_l; lia|..]; pose proof (len_nonneg d); try lia.
  rewrite len_app, len_make. lia.
Qed.
