(* ===== verification/FreeList.v ===== *)
(** * Free-list pages (src/internal/btree/free_list.go)

    The durable free list is a chain of pages, each with a sequence number, the
    next page of the chain, a checksum and the page ids it lists. *)

From S2P Require Import Prelude Errors Page File.

(** ** Definitions *)

Definition metadataSlotCount : Z := 2.
Definition metadataSize : Z := metadataSlotCount * pageSize.

Definition freeListMagic : bytes := [Byte.x47; Byte.x44; Byte.x46; Byte.x4c]. (* "GDFL" *)
Definition freeListVersion : Z := 1.
Definition freeListHeaderSize : Z := 32.
Definition freeListPageCapacity : Z := (pageSize - freeListHeaderSize) / 8.
Definition freeListVersionOffset : Z := 4.
Definition freeListCountOffset : Z := 6.
Definition freeListNextOffset : Z := 8.
Definition freeListSequenceOffset : Z := 16.
Definition freeListChecksumOffset : Z := 24.

Record freeListNode := mkFreeListNode {
  fl_next : Z;
  fl_sequence : Z;
  fl_pageIDs : list Z;
}.

(** The id loop of [encodeFreeListNode]. *)
Fixpoint putPageIDs (ids : list Z) (i : Z) (page : bytes) : res bytes :=
  match ids with
  | [] => Ok page
  | id :: ids =>
      fail_if id =? 0 with EFreeListZero ;;
      page' <- putU 8 page (freeListHeaderSize + i * 8) id ;;
      putPageIDs ids (i + 1) page'
  end.

Definition encodeFreeListNode (node : freeListNode) : res bytes :=
  let count := len (fl_pageIDs node) in
  fail_if (count =? 0) || (count >? freeListPageCapacity) with EFreeListCount count ;;
  p1 <- put (make pageSize) 0 freeListMagic ;;
  p2 <- putU 2 p1 freeListVersionOffset freeListVersion ;;
  p3 <- putU 2 p2 freeListCountOffset (u16 count) ;;
  p4 <- putU 8 p3 freeListNextOffset (fl_next node) ;;
  p5 <- putU 8 p4 freeListSequenceOffset (fl_sequence node) ;;
  p6 <- putPageIDs (fl_pageIDs node) 0 p5 ;;
  putU 4 p6 freeListChecksumOffset (crc32 p6).

(** The id loop of [decodeFreeListNode]. *)
Fixpoint getPageIDs (todo : nat) (i : Z) (page : bytes) : res (list Z) :=
  match todo with
  | O => Ok []
  | S todo =>
      id <- getU 8 page (freeListHeaderSize + i * 8) ;;
      fail_if id =? 0 with errInvalidPageData ;;
      ids <- getPageIDs todo (i + 1) page ;;
      Ok (id :: ids)
  end.

Definition decodeFreeListNode (page : bytes) : res freeListNode :=
  fail_if negb (len page =? pageSize) with errInvalidPageSize ;;
  magic <- slice page 0 4 ;;
  version <- getU 2 page freeListVersionOffset ;;
  fail_if negb (beqb magic freeListMagic) || negb (version =? freeListVersion) with errInvalidPageData ;;
  wantChecksum <- getU 4 page freeListChecksumOffset ;;
  copyPage <- putU 4 page freeListChecksumOffset 0 ;;
  fail_if negb (crc32 copyPage =? wantChecksum) with errInvalidPageData ;;
  count <- getU 2 page freeListCountOffset ;;
  fail_if (count =? 0) || (count >? freeListPageCapacity) with errInvalidPageData ;;
  next <- getU 8 page freeListNextOffset ;;
  sequence <- getU 8 page freeListSequenceOffset ;;
  ids <- getPageIDs (Z.to_nat count) 0 page ;;
  Ok (mkFreeListNode next sequence ids).

(** [dataPageOffset] (page_manager.go): the file offset of a data page, when it
    is representable. *)
Definition dataPageOffset (pageID : Z) : res Z :=
  fail_if pageID =? 0 with errInvalidPageID pageID ;;
  fail_if pageID >? (maxInt64 - metadataSize) / pageSize + 1 with EPageIDOverflow pageID ;;
  Ok (metadataSize + (pageID - 1) * pageSize).

Definition readRawDataPage (pageID : Z) : stM file error bytes :=
  offset <! dataPageOffset pageID ;;
  ReadAt pageSize offset.

(** ** Round trip *)

Definition uint64 (z : Z) : Prop := 0 <= z < 2 ^ 64.

Record freeListNode_wf (n : freeListNode) : Prop := {
  fw_count : 0 < len (fl_pageIDs n) <= freeListPageCapacity;
  fw_next : uint64 (fl_next n);
  fw_seq : uint64 (fl_sequence n);
  fw_ids : Forall (fun id => uint64 id /\ id <> 0) (fl_pageIDs n);
}.

Lemma lxor_bound n a b : 0 <= n -> 0 <= a < 2 ^ n -> 0 <= b < 2 ^ n -> 0 <= Z.lxor a b < 2 ^ n.
Proof.
  intros Hn Ha Hb. assert (0 <= Z.lxor a b) by (apply Z.lxor_nonneg; lia). split; [done|].
  apply Z.bounded_iff_bits_nonneg; [done..|]. intros l Hl. rewrite Z.lxor_spec.
  assert (Hbit : forall x, 0 <= x < 2 ^ n -> Z.testbit x l = false).
  { intros x Hx. apply (Z.bounded_iff_bits_nonneg n x); lia. }
  by rewrite !Hbit.
Qed.
Lemma crc_bits_bound n c : 0 <= c < 2 ^ 32 -> 0 <= crc_bits n c < 2 ^ 32.
Proof.
  revert c. induction n as [|n IH]; intros c Hc; cbn [crc_bits]; [done|]. apply IH.
  assert (Hs : 0 <= Z.shiftr c 1 < 2 ^ 32).
  { rewrite Z.shiftr_div_pow2 by lia. change (2 ^ 1) with 2. split; [apply Z.div_pos; lia|].
    apply Z.div_lt_upper_bound; lia. }
  destruct (Z.testbit c 0); [|done]. by apply lxor_bound.
Qed.
Lemma crc32_bound bs : 0 <= crc32 bs < 2 ^ 32.
Proof.
  unfold crc32. apply lxor_bound; [lia| |lia]. assert (H : 0 <= 0xFFFFFFFF < 2 ^ 32) by lia. revert H.
  generalize 0xFFFFFFFF. induction bs as [|b bs IH]; intros c Hc; cbn [fold_left]; [done|].
  apply IH, crc_bits_bound, lxor_bound; [lia|done|]. pose proof (bZ_range b). lia.
Qed.

(** The id fields of a page. *)
Fixpoint idFields (i : Z) (ids : list Z) : list (Z * bytes) :=
  match ids with
  | [] => []
  | id :: ids => (freeListHeaderSize + i * 8, le_put 8 id) :: idFields (i + 1) ids
  end.

Lemma idFields_lookup ids : forall i k id, ids !! k = Some id ->
  idFields i ids !! k = Some (freeListHeaderSize + (i + Z.of_nat k) * 8, le_put 8 id).
Proof.
  induction ids as [|x ids IH]; intros i [|k] id; cbn; try done.
  - intros [= ->]. by rewrite Z.add_0_r.
  - intros Hk. rewrite (IH _ _ _ Hk). do 3 f_equal. lia.
Qed.
Lemma idFields_in ids : forall i, 0 <= i -> freeListHeaderSize + (i + len ids) * 8 <= pageSize ->
  forallb (field_in pageSize) (idFields i ids) = true.
Proof.
  unfold freeListHeaderSize. induction ids as [|x ids IH]; intros i Hi Hl; [done|]. rewrite len_cons in Hl.
  pose proof (len_nonneg ids). cbn [idFields forallb fields_apart]. rewrite IH by (unfold freeListHeaderSize; lia). unfold field_in. cbn [fst snd].
  rewrite len_le_put. unfold freeListHeaderSize. zdecide. done.
Qed.
Lemma idFields_apart p n ids : forall i, p + n <= freeListHeaderSize + i * 8 ->
  forallb (apart p n) (idFields i ids) = true.
Proof.
  induction ids as [|x ids IH]; intros i Hi; [done|]. cbn [idFields forallb fields_apart]. rewrite IH by lia. unfold apart. cbn [fst].
  zdecide. done.
Qed.
Lemma idFields_disjoint ids : forall i, fields_apart (idFields i ids) = true.
Proof.
  induction ids as [|x ids IH]; intros i; [done|]. cbn [idFields forallb fields_apart]. rewrite IH, idFields_apart; [done|].
  rewrite len_le_put. lia.
Qed.
Lemma idFields_above q d ids : forall i, 0 <= i -> q + len d <= freeListHeaderSize ->
  Forall (fun f => forallb (apart f.1 (len f.2)) [(q, d)] = true) (idFields i ids).
Proof.
  intros i Hi Hq. revert i Hi. induction ids as [|x ids IH]; intros i Hi; cbn [idFields]; constructor; [|apply IH; lia].
  cbn [fst snd forallb]. unfold apart. cbn [fst snd].
  rewrite (proj2 (Z.leb_le (q + len d) _)) by lia. by rewrite orb_true_r.
Qed.

Lemma putPageIDs_layout ids : forall i fs b,
  Forall (fun id => uint64 id /\ id <> 0) ids -> len b = pageSize ->
  forallb (field_in pageSize) fs = true -> 0 <= i -> freeListHeaderSize + (i + len ids) * 8 <= pageSize ->
  putPageIDs ids i (layout fs b) = Ok (layout (fs ++ idFields i ids) b).
Proof.
  induction ids as [|x ids IH]; intros i fs b Hid Hb Hf Hi Hl; cbn [putPageIDs idFields]; [by rewrite app_nil_r|].
  apply Forall_cons in Hid as [[Hx Hx0] Hid]. rewrite len_cons in Hl. pose proof (len_nonneg ids). zdecide.
  unfold freeListHeaderSize in *.
  rewrite putU_layout by (rewrite ?Hb; done || lia). rewrite IH; try done; try lia.
  - by rewrite <- app_assoc.
  - rewrite forallb_app, Hf. cbn [forallb andb]. unfold field_in. cbn [fst snd]. rewrite len_le_put. zdecide. done.
Qed.

Lemma getPageIDs_read page ids : forall i,
  len page = pageSize -> Forall (fun id => uint64 id /\ id <> 0) ids ->
  0 <= i -> freeListHeaderSize + (i + len ids) * 8 <= pageSize ->
  (forall k id, ids !! k = Some id -> sub page (freeListHeaderSize + (i + Z.of_nat k) * 8) 8 = le_put 8 id) ->
  getPageIDs (length ids) i page = Ok ids.
Proof.
  unfold freeListHeaderSize. induction ids as [|x ids IH]; intros i Hp Hid Hi Hl Hs; cbn [length getPageIDs]; [done|].
  apply Forall_cons in Hid as [[Hx Hx0] Hid]. rewrite len_cons in Hl. pose proof (len_nonneg ids).
  unfold freeListHeaderSize. rewrite getU_ok by lia. change (Z.of_nat 8) with 8.
  assert (H0 := Hs O x eq_refl). rewrite Z.add_0_r in H0. rewrite H0, le_get_put_small by done. zdecide.
  rewrite IH; try done; try lia. intros k id Hk. rewrite <- (Hs (S k) id Hk). f_equal. lia.
Qed.

Definition headerFields (count : Z) (n : freeListNode) : list (Z * bytes) :=
  [(0, freeListMagic); (freeListVersionOffset, le_put 2 freeListVersion);
   (freeListCountOffset, le_put 2 (u16 count)); (freeListNextOffset, le_put 8 (fl_next n));
   (freeListSequenceOffset, le_put 8 (fl_sequence n))].
Definition nodeFields (n : freeListNode) : list (Z * bytes) :=
  headerFields (len (fl_pageIDs n)) n ++ idFields 0 (fl_pageIDs n).

Lemma len_blank : len (make pageSize) = pageSize.
Proof. by rewrite len_make. Qed.

(** Writing the fields of a fresh page, decided by the positions alone. *)
Lemma putU_page {E} n fs pos z :
  forallb (field_in pageSize) fs = true -> (0 <=? pos) && (pos + Z.of_nat n <=? pageSize) = true ->
  @putU E n (layout fs (make pageSize)) pos z = Ok (layout (fs ++ [(pos, le_put n z)]) (make pageSize)).
Proof. intros Hf Hp. zbool. apply putU_layout; rewrite ?len_blank; done. Qed.
Lemma getU_page {E} n fs i pos z :
  fs !! i = Some (pos, le_put n z) -> forallb (field_in pageSize) fs = true -> fields_apart fs = true ->
  (0 <=? pos) && (pos + Z.of_nat n <=? pageSize) = true -> 0 <= z < 256 ^ Z.of_nat n ->
  @getU E n (layout fs (make pageSize)) pos = Ok z.
Proof.
  intros Hi Hf Ha Hp Hz. zbool. rewrite (getU_layout n fs (make pageSize) i pos z); rewrite ?len_blank; try done.
  by rewrite Z.mod_small.
Qed.

Lemma nodeFields_in n : freeListNode_wf n -> forallb (field_in (len (make pageSize))) (nodeFields n) = true.
Proof.
  intros W. rewrite len_blank. unfold nodeFields. rewrite forallb_app. apply andb_true_iff. split; [done|].
  apply idFields_in; [lia|]. pose proof (fw_count n W) as Hc. unfold freeListPageCapacity in Hc.
  change ((pageSize - freeListHeaderSize) / 8) with 508 in Hc. unfold freeListHeaderSize, pageSize. lia.
Qed.
Lemma nodeFields_apart n q d :
  24 <= q -> q + len d <= freeListHeaderSize ->
  fields_apart (nodeFields n ++ [(q, d)]) = true.
Proof.
  intros Hq Hl. unfold freeListHeaderSize in *. unfold nodeFields. rewrite <- app_assoc.
  apply fields_apart_app; [done| |].
  - apply fields_apart_app; [apply idFields_disjoint|done|]. apply idFields_above; [lia|done].
  - assert (Hh : forall p (c : bytes), p + len c <= 24 ->
      forallb (apart p (len c)) (idFields 0 (fl_pageIDs n) ++ [(q, d)]) = true).
    { intros p c Hp. rewrite forallb_app, idFields_apart by (unfold freeListHeaderSize; lia).
      cbn [forallb]. unfold apart. cbn [fst]. zdecide. done. }
    unfold headerFields. rewrite !Forall_cons. cbn [fst snd].
    split_and!; [apply Hh; rewrite ?len_le_put; done..|constructor].
Qed.

Lemma encodeFreeListNode_ok n :
  freeListNode_wf n ->
  encodeFreeListNode n =
  Ok (layout (nodeFields n ++ [(freeListChecksumOffset, le_put 4 (crc32 (layout (nodeFields n) (make pageSize))))])
        (make pageSize)).
Proof.
  intros W. pose proof (fw_count n W) as Hc. unfold encodeFreeListNode. rewrite Z.gtb_ltb. zdecide.
  change (put (make pageSize) 0 freeListMagic) with (@put error _ (layout [] (make pageSize)) 0 freeListMagic).
  rewrite put_layout by done. do 4 (rewrite putU_layout by done). cbn [app].
  rewrite putPageIDs_layout; [|apply W|apply len_blank|done|lia|].
  2:{ unfold freeListPageCapacity in Hc. change ((pageSize - freeListHeaderSize) / 8) with 508 in Hc.
      unfold freeListHeaderSize, pageSize. lia. }
  change ([_; _; _; _; _] ++ idFields 0 (fl_pageIDs n)) with (nodeFields n).
  rewrite putU_layout; [done|by apply nodeFields_in|done|done].
Qed.

(** Clearing the checksum of a page restores what the checksum was taken of. *)
Lemma clear_checksum {E} fs off c :
  forallb (field_in (len (make pageSize))) fs = true -> forallb (apart off 4) fs = true -> 0 <= off ->
  off + 4 <= pageSize ->
  putU 4 (layout (fs ++ [(off, le_put 4 c)]) (make pageSize)) off 0 = @Ok E _ (layout fs (make pageSize)).
Proof.
  intros Hin Hap H0 Hle. rewrite layout_snoc. set (body := layout fs _).
  assert (Hbody : len body = pageSize) by (unfold body; rewrite len_layout, len_blank by done; done).
  assert (Hck : off + len (le_put 4 c) <= len body) by (rewrite len_le_put, Hbody; lia).
  rewrite putU_ok; [|done|rewrite len_upd, Hbody; [lia|done|exact Hck]].
  rewrite upd_upd; [|done|exact Hck|by rewrite !len_le_put]. f_equal.
  assert (Hz : sub body off 4 = le_put 4 0).
  { unfold body. rewrite layout_frame by done. unfold make, sub. rewrite drop_replicate, take_replicate.
    replace (_ `min` _)%nat with 4%nat by (unfold pageSize in *; lia). reflexivity. }
  rewrite <- Hz. apply upd_same; rewrite ?Hbody; lia.
Qed.

Lemma decode_encoded n page :
  freeListNode_wf n -> encodeFreeListNode n = Ok page -> decodeFreeListNode page = Ok n.
Proof.
  intros W. rewrite (encodeFreeListNode_ok n W). intros <-%ok_inj.
  set (body := layout (nodeFields n) (make pageSize)).
  set (fs := nodeFields n ++ [(freeListChecksumOffset, le_put 4 (crc32 body))]).
  pose proof (fw_count n W) as Hc. change freeListPageCapacity with 508 in Hc.
  assert (Hin : forallb (field_in (len (make pageSize))) fs = true).
  { unfold fs. rewrite forallb_app, nodeFields_in by done. done. }
  assert (Hap : fields_apart fs = true) by (apply nodeFields_apart; rewrite ?len_le_put; done).
  assert (Hlen : len (layout fs (make pageSize)) = pageSize) by (rewrite len_layout, len_blank; done).
  assert (Hcopy : putU 4 (layout fs (make pageSize)) freeListChecksumOffset 0 = @Ok error _ body).
  { apply clear_checksum; [by apply nodeFields_in| |done|done].
    unfold nodeFields. rewrite forallb_app, idFields_apart by done. done. }
  unfold decodeFreeListNode. rewrite Hlen, Z.eqb_refl. cbn [negb].
  rewrite slice_ok; [|lia|rewrite Hlen; discriminate].
  change (sub (layout fs (make pageSize)) 0 (4 - 0)) with (sub (layout fs (make pageSize)) 0 (len freeListMagic)).
  rewrite (layout_field fs (make pageSize) 0 0 freeListMagic eq_refl Hin Hap), beqb_refl.
  rewrite (getU_layout 2 fs (make pageSize) 1 freeListVersionOffset freeListVersion eq_refl Hin Hap) by done.
  change (freeListVersion mod 256 ^ Z.of_nat 2 =? freeListVersion) with true. cbn [negb orb].
  assert (Hck : fs !! (5 + length (fl_pageIDs n))%nat = Some (freeListChecksumOffset, le_put 4 (crc32 body))).
  { unfold fs, nodeFields. rewrite list_lookup_middle; [done|]. rewrite length_app.
    cbn [length headerFields]. do 2 f_equal. clear. generalize 0. induction (fl_pageIDs n) as [|x l IH]; intros i; cbn; [done|].
    by rewrite <- IH. }
  rewrite (getU_layout 4 fs (make pageSize) _ freeListChecksumOffset (crc32 body) Hck Hin Hap) by done.
  rewrite Hcopy. rewrite (Z.mod_small (crc32 body)) by (change (256 ^ Z.of_nat 4) with (2 ^ 32); apply crc32_bound). rewrite Z.eqb_refl. cbn [negb].
  rewrite (getU_layout 2 fs (make pageSize) 2 freeListCountOffset (u16 (len (fl_pageIDs n))) eq_refl Hin Hap) by done.
  rewrite (u16_small (len _)), Z.mod_small by (cbn; lia). change freeListPageCapacity with 508. rewrite Z.gtb_ltb. zdecide.
  rewrite (getU_layout 8 fs (make pageSize) 3 freeListNextOffset (fl_next n) eq_refl Hin Hap) by done.
  rewrite (getU_layout 8 fs (make pageSize) 4 freeListSequenceOffset (fl_sequence n) eq_refl Hin Hap) by done.
  rewrite !Z.mod_small by (apply W).
  replace (Z.to_nat (len (fl_pageIDs n))) with (length (fl_pageIDs n)) by (unfold len; lia).
  rewrite (getPageIDs_read _ (fl_pageIDs n) 0 Hlen); [by destruct n|apply W|lia|unfold freeListHeaderSize, pageSize; lia|].
  intros k id Hk. change 8 with (len (le_put 8 id)) at 2.
  apply (layout_field fs (make pageSize) (5 + k)); [|done..].
  unfold fs, nodeFields. rewrite <- app_assoc. rewrite lookup_app_r by (cbn; lia).
  replace (5 + k - length _)%nat with k by (cbn; lia).
  pose proof (idFields_lookup _ 0 _ _ Hk) as Hf. rewrite lookup_app_l by (by eapply lookup_lt_Some). exact Hf.
Qed.

Lemma getPageIDs_sound page todo : forall i ids,
  len page = pageSize -> getPageIDs todo i page = Ok ids -> 0 <= i ->
  length ids = todo /\ Forall (fun id => uint64 id /\ id <> 0) ids.
Proof.
  induction todo as [|todo IH]; intros i ids Hp H Hi; cbn [getPageIDs] in H; [by injection H as <-|].
  destruct (getU 8 page (freeListHeaderSize + i * 8)) as [id| | |] eqn:Eg; try discriminate H.
  destruct (id =? 0) eqn:C; [discriminate H|]. zbool.
  destruct (getPageIDs todo (i + 1) page) as [ids'| | |] eqn:E; try discriminate H. injection H as <-.
  destruct (IH (i + 1) ids' Hp E) as [Hl Hf]; [lia|]. split; [cbn; by rewrite Hl|]. constructor; [|done].
  split; [|done]. unfold getU in Eg. destruct (slice page _ _) as [s| | |] eqn:Es; try discriminate Eg.
  injection Eg as <-. unfold slice in Es. destruct (_ && _) eqn:Cb; [|discriminate Es]. injection Es as <-.
  pose proof (le_get_bound (sub page (freeListHeaderSize + i * 8)
    (freeListHeaderSize + i * 8 + Z.of_nat 8 - (freeListHeaderSize + i * 8)))) as Hb.
  zbool. rewrite len_sub in Hb by lia.
  replace (freeListHeaderSize + i * 8 + Z.of_nat 8 - (freeListHeaderSize + i * 8)) with 8 in Hb |- * by lia.
  exact Hb.
Qed.
