(* ===== verification/PageManager.v ===== *)
(** * The page manager (src/internal/btree/page_manager.go)

    Allocation state of the database file: reusable, retired and newly freed
    pages, the page ids that store the free list, and the two metadata slots
    through which a root is published. The test hooks [beforeFreeListWrite] and
    [syncFreeList] are nil outside the tests and are left out; I/O failures
    enter through the faults of the file model. *)

From S2P Require Import Prelude Errors Page File FreeList.

(** ** State *)

Record pageManager := mkPM {
  pm_file : file;
  nextPageID : Z;
  committedPageCount : Z;
  rootPageID : Z;
  generation : Z;
  freePageIDs : list Z;
  retiredPageIDs : list Z;
  pendingFreePageIDs : list Z;
  freePageSet : gset Z;
  freeListPageIDs : list Z;
}.

Record rootMetadata := mkMeta {
  m_generation : Z;
  m_rootPageID : Z;
  m_pageCount : Z;
  m_freeListHead : Z;
  m_freeListTail : Z;
  m_headSequence : Z;
  m_tailSequence : Z;
  m_maxSequence : Z;
  m_freePageIDs : list Z;
  m_retiredPageIDs : list Z;
  m_freeListPageIDs : list Z;
}.
(** [rootMetadata{}]. *)
Definition meta0 : rootMetadata := mkMeta 0 0 0 0 0 0 0 0 [] [] [].

(** [pageManagerState]. *)
Record pageManagerState := mkPMState {
  s_nextPageID : Z;
  s_committedPageCount : Z;
  s_rootPageID : Z;
  s_generation : Z;
  s_freePageIDs : list Z;
  s_retiredPageIDs : list Z;
  s_pendingFreePageIDs : list Z;
  s_freeListPageIDs : list Z;
}.

Definition metadataMagic : bytes := [Byte.x47; Byte.x44; Byte.x42; Byte.x4d]. (* "GDBM" *)
Definition metadataVersion : Z := 3.
Definition metadataMagicOffset : Z := 0.
Definition metadataVersionOffset : Z := 4.
Definition metadataGenerationOffset : Z := 8.
Definition metadataRootPageOffset : Z := 16.
Definition metadataPageCountOffset : Z := 24.
Definition metadataFreeListHeadOffset : Z := 32.
Definition metadataFreeListTailOffset : Z := 40.
Definition metadataHeadSequenceOffset : Z := 48.
Definition metadataTailSequenceOffset : Z := 56.
Definition metadataMaxSequenceOffset : Z := 64.
Definition metadataChecksumOffset : Z := 72.
Definition legacyFreeCountOffset : Z := 32.
Definition legacyRetiredCountOffset : Z := 34.
Definition legacyChecksumOffset : Z := 36.
Definition legacyPageIDsOffset : Z := 40.
Definition legacyMaxPageIDs : Z := (pageSize - legacyPageIDsOffset) / 8.

Abbreviation PM := (stM pageManager error).
Abbreviation FM := (stM file error).

(** File calls of a page-manager method. *)
Definition on_file {A} (m : FM A) : PM A := fun pm =>
  let '(r, f) := m (pm_file pm) in
  (r, mkPM f (nextPageID pm) (committedPageCount pm) (rootPageID pm) (generation pm) (freePageIDs pm)
         (retiredPageIDs pm) (pendingFreePageIDs pm) (freePageSet pm) (freeListPageIDs pm)).
Definition asks {S E A} (f : S -> A) : stM S E A := fun s => (Ok (f s), s).
Definition modify {S E} (f : S -> S) : stM S E unit := fun s => (Ok tt, f s).

(** Field updates. *)
Definition set_next (n : Z) (pm : pageManager) : pageManager :=
  mkPM (pm_file pm) n (committedPageCount pm) (rootPageID pm) (generation pm) (freePageIDs pm)
    (retiredPageIDs pm) (pendingFreePageIDs pm) (freePageSet pm) (freeListPageIDs pm).
Definition set_free (ids : list Z) (s : gset Z) (pm : pageManager) : pageManager :=
  mkPM (pm_file pm) (nextPageID pm) (committedPageCount pm) (rootPageID pm) (generation pm) ids
    (retiredPageIDs pm) (pendingFreePageIDs pm) s (freeListPageIDs pm).
Definition set_pending (ids : list Z) (pm : pageManager) : pageManager :=
  mkPM (pm_file pm) (nextPageID pm) (committedPageCount pm) (rootPageID pm) (generation pm) (freePageIDs pm)
    (retiredPageIDs pm) ids (freePageSet pm) (freeListPageIDs pm).
Definition set_lists (free retired lists : list Z) (pm : pageManager) : pageManager :=
  mkPM (pm_file pm) (nextPageID pm) (committedPageCount pm) (rootPageID pm) (generation pm) free
    retired (pendingFreePageIDs pm) (freePageSet pm) lists.
Definition set_commit (root gen count : Z) (pm : pageManager) : pageManager :=
  mkPM (pm_file pm) (nextPageID pm) count root gen (freePageIDs pm)
    (retiredPageIDs pm) [] (list_to_set (freePageIDs pm)) (freeListPageIDs pm).

(** ** Page ids *)

Definition containsPageID (pageIDs : list Z) (target : Z) : bool :=
  existsb (fun id => id =? target) pageIDs.
Fixpoint removePageID (pageIDs : list Z) (target : Z) : list Z :=
  match pageIDs with
  | [] => []
  | id :: ids => if id =? target then ids else id :: removePageID ids target
  end.

Definition validateExistingPageID (pm : pageManager) (pageID : Z) : res unit :=
  fail_if (pageID =? 0) || (pageID >=? nextPageID pm) with errInvalidPageID pageID ;;
  fail_if bool_decide (pageID ∈ freePageSet pm) with EPageIsFree pageID ;;
  Ok tt.

Definition snapshot (pm : pageManager) : pageManagerState :=
  mkPMState (nextPageID pm) (committedPageCount pm) (rootPageID pm) (generation pm) (freePageIDs pm)
    (retiredPageIDs pm) (pendingFreePageIDs pm) (freeListPageIDs pm).
Definition restore (s : pageManagerState) (pm : pageManager) : pageManager :=
  mkPM (pm_file pm) (s_nextPageID s) (s_committedPageCount s) (s_rootPageID s) (s_generation s)
    (s_freePageIDs s) (s_retiredPageIDs s) (s_pendingFreePageIDs s)
    (list_to_set (s_freePageIDs s)) (s_freeListPageIDs s).

(** ** Allocation *)

Definition reservePage : PM Z := fun pm =>
  match last (freePageIDs pm) with
  | Some pageID =>
      (Ok pageID, set_free (removelast (freePageIDs pm)) (freePageSet pm ∖ {[pageID]}) pm)
  | None =>
      let pageID := nextPageID pm in
      match dataPageOffset pageID with
      | Ok _ => (Ok pageID, set_next (u64 (pageID + 1)) pm)
      | Err e => (Err e, pm)
      | Panic => (Panic, pm)
      | NoFuel => (NoFuel, pm)
      end
  end.

Definition freePage (pageID : Z) : PM unit := fun pm =>
  match validateExistingPageID pm pageID with
  | Ok _ =>
      if containsPageID (freeListPageIDs pm) pageID then (Err (EStoresFreeList pageID), pm)
      else if containsPageID (retiredPageIDs pm) pageID || containsPageID (pendingFreePageIDs pm) pageID
      then (Err (EAlreadyFreed pageID), pm)
      else (Ok tt, set_pending (pendingFreePageIDs pm ++ [pageID]) pm)
  | Err e => (Err e, pm)
  | Panic => (Panic, pm)
  | NoFuel => (NoFuel, pm)
  end.

(** ** Page I/O *)

Definition readPage (pageID : Z) : PM bytes :=
  v <~ asks (fun pm => validateExistingPageID pm pageID) ;;
  _ <! v ;;
  offset <! dataPageOffset pageID ;;
  on_file (ReadAt pageSize offset).

Definition writePage (pageID : Z) (page : bytes) : PM unit :=
  v <~ asks (fun pm => validateExistingPageID pm pageID) ;;
  _ <! v ;;
  throw_if negb (len page =? pageSize) with EPageSize (len page) ;;
  offset <! dataPageOffset pageID ;;
  on_file (WriteAt page offset).

(** Only the tests call [allocatePage] and [commitRoot]; a failed step puts the
    allocation state back. *)
Definition allocatePage : PM Z :=
  state <~ asks snapshot ;;
  pageID <~ reservePage ;;
  fun pm =>
    match (offset <! dataPageOffset pageID ;; on_file (WriteAt (make pageSize) offset)) pm with
    | (Ok _, pm') => (Ok pageID, pm')
    | (Err e, pm') => (Err e, restore state pm')
    | (Panic, pm') => (Panic, pm')
    | (NoFuel, pm') => (NoFuel, pm')
    end.

(** ** Publishing a root *)

(** The eligible pages whose current contents decode as a free-list page; read
    errors and undecodable pages are skipped. *)
Fixpoint recyclablePages (eligible : list Z) : PM (list Z) :=
  match eligible with
  | [] => ret []
  | pageID :: eligible =>
      ok <~ (fun pm =>
        match on_file (readRawDataPage pageID) pm with
        | (Ok page, pm') => (Ok (is_ok (decodeFreeListNode page)), pm')
        | (Err _, pm') => (Ok false, pm')
        | (Panic, pm') => (Panic, pm')
        | (NoFuel, pm') => (NoFuel, pm')
        end) ;;
      rest <~ recyclablePages eligible ;;
      ret (if (ok : bool) then pageID :: rest else rest)
  end.

(** The search for the number of free-list pages: the first [candidate] in
    [1..maxNodes] that is exactly enough once it reuses what it can. *)
Fixpoint findNodeCount (todo : nat) (candidate total recyclable : Z) : option (Z * Z) :=
  match todo with
  | O => None
  | S todo =>
      let reused := if candidate >? recyclable then recyclable else candidate in
      let needed := (total - reused + freeListPageCapacity - 1) / freeListPageCapacity in
      if needed =? candidate then Some (candidate, reused)
      else findNodeCount todo (candidate + 1) total recyclable
  end.
Definition nodeCounts (total recyclable : Z) : Z * Z :=
  if total >? 0 then
    let maxNodes := (total + freeListPageCapacity - 1) / freeListPageCapacity in
    match findNodeCount (Z.to_nat maxNodes) 1 total recyclable with
    | Some r => r
    | None => (maxNodes, 0)
    end
  else (0, 0).

(** Choosing the free-list pages: recycled ones first, then new ids. Returns the
    chosen ids and the eligible pages that remain. *)
Fixpoint nodePages (todo : nat) (i reused : Z) (recyclable eligible : list Z) : PM (list Z * list Z) :=
  match todo with
  | O => ret ([], eligible)
  | S todo =>
      if i <? reused then
        pageID <! match last recyclable with Some id => Ok id | None => Panic end ;;
        _ <~ modify (fun pm => set_free (freePageIDs pm) (freePageSet pm ∖ {[pageID]}) pm) ;;
        '(ids, rest) <~ nodePages todo (i + 1) reused (removelast recyclable) (removePageID eligible pageID) ;;
        ret (pageID :: ids, rest)
      else
        pageID <~ asks nextPageID ;;
        _ <! dataPageOffset pageID ;;
        _ <~ modify (set_next (u64 (pageID + 1))) ;;
        '(ids, rest) <~ nodePages todo (i + 1) reused recyclable eligible ;;
        ret (pageID :: ids, rest)
  end.

(** Writing the chain: page [i] lists the entries from [i * capacity] on. *)
Fixpoint writeChain (ids : list Z) (i : Z) (entries : list Z) : PM unit :=
  match ids with
  | [] => ret tt
  | pageID :: ids =>
      let start := i * freeListPageCapacity in
      let end_ := if start + freeListPageCapacity >? len entries then len entries
                  else start + freeListPageCapacity in
      part <! slice entries start end_ ;;
      page <! encodeFreeListNode (mkFreeListNode (default 0 (head ids)) start part) ;;
      _ <~ writePage pageID page ;;
      writeChain ids (i + 1) entries
  end.

Definition writeFreeListSnapshot (gen root : Z) : PM rootMetadata :=
  pm <~ asks id ;;
  let eligible0 := freePageIDs pm ++ retiredPageIDs pm in
  let protected := pendingFreePageIDs pm ++ freeListPageIDs pm in
  let totalEntries := len eligible0 + len protected in
  recyclable <~ recyclablePages eligible0 ;;
  let '(nodeCount, reusedNodeCount) := nodeCounts totalEntries (len recyclable) in
  '(nodePageIDs, eligible) <~ nodePages (Z.to_nat nodeCount) 0 reusedNodeCount recyclable eligible0 ;;
  let entries := eligible ++ protected in
  _ <~ writeChain nodePageIDs 0 entries ;;
  _ <~ modify (set_lists eligible protected nodePageIDs) ;;
  next <~ asks nextPageID ;;
  ret (mkMeta gen root (u64 (next - 1)) (default 0 (head nodePageIDs)) (default 0 (last nodePageIDs))
         0 (len entries) (len eligible) eligible protected nodePageIDs).

(** The checksum is computed while its own field is still zero. *)
Definition encodeMetadata (m : rootMetadata) : res bytes :=
  p1 <- put (make pageSize) metadataMagicOffset metadataMagic ;;
  p2 <- putU 2 p1 metadataVersionOffset metadataVersion ;;
  p3 <- putU 8 p2 metadataGenerationOffset (m_generation m) ;;
  p4 <- putU 8 p3 metadataRootPageOffset (m_rootPageID m) ;;
  p5 <- putU 8 p4 metadataPageCountOffset (m_pageCount m) ;;
  p6 <- putU 8 p5 metadataFreeListHeadOffset (m_freeListHead m) ;;
  p7 <- putU 8 p6 metadataFreeListTailOffset (m_freeListTail m) ;;
  p8 <- putU 8 p7 metadataHeadSequenceOffset (m_headSequence m) ;;
  p9 <- putU 8 p8 metadataTailSequenceOffset (m_tailSequence m) ;;
  p10 <- putU 8 p9 metadataMaxSequenceOffset (m_maxSequence m) ;;
  putU 4 p10 metadataChecksumOffset (crc32 p10).
Definition writeRootMetadataSlot (slot : Z) (m : rootMetadata) : FM unit :=
  page <! encodeMetadata m ;;
  WriteAt page (slot * pageSize).

Definition publishRoot (root : Z) : PM unit :=
  pm <~ asks id ;;
  _ <! (if negb (root =? 0) then validateExistingPageID pm root else Ok tt) ;;
  throw_if negb (root =? 0) &&
           (containsPageID (retiredPageIDs pm) root || containsPageID (pendingFreePageIDs pm) root)
    with ERootObsolete root ;;
  throw_if containsPageID (freeListPageIDs pm) root with EStoresFreeList root ;;
  let nextGeneration := u64 (generation pm + 1) in
  let slot := nextGeneration mod metadataSlotCount in
  metadata <~ writeFreeListSnapshot nextGeneration root ;;
  _ <~ on_file Sync ;;
  _ <~ on_file (writeRootMetadataSlot slot metadata) ;;
  _ <~ on_file Sync ;;
  modify (set_commit root nextGeneration (m_pageCount metadata)).

Definition commitRoot (root : Z) : PM unit :=
  _ <~ on_file Sync ;; publishRoot root.

(** ** Reading metadata *)

(** One free-list page's ids, appended to the free ids up to [maxSequence] and to
    the retired ids after it. *)
Fixpoint loadEntries (ids : list Z) (m : rootMetadata) (seenPages seenEntries : gset Z) (seq : Z)
    : res (rootMetadata * gset Z * Z) :=
  match ids with
  | [] => Ok (m, seenEntries, seq)
  | entryID :: ids =>
      fail_if (entryID >? m_pageCount m) || (entryID =? m_rootPageID m) with errInvalidPageData ;;
      fail_if bool_decide (entryID ∈ seenPages) with errInvalidPageData ;;
      fail_if bool_decide (entryID ∈ seenEntries) with errInvalidPageData ;;
      let m' :=
        if seq <? m_maxSequence m
        then mkMeta (m_generation m) (m_rootPageID m) (m_pageCount m) (m_freeListHead m) (m_freeListTail m)
               (m_headSequence m) (m_tailSequence m) (m_maxSequence m) (m_freePageIDs m ++ [entryID])
               (m_retiredPageIDs m) (m_freeListPageIDs m)
        else mkMeta (m_generation m) (m_rootPageID m) (m_pageCount m) (m_freeListHead m) (m_freeListTail m)
               (m_headSequence m) (m_tailSequence m) (m_maxSequence m) (m_freePageIDs m)
               (m_retiredPageIDs m ++ [entryID]) (m_freeListPageIDs m) in
      loadEntries ids m' seenPages ({[entryID]} ∪ seenEntries) (u64 (seq + 1))
  end.

Definition add_list_page (id : Z) (m : rootMetadata) : rootMetadata :=
  mkMeta (m_generation m) (m_rootPageID m) (m_pageCount m) (m_freeListHead m) (m_freeListTail m)
    (m_headSequence m) (m_tailSequence m) (m_maxSequence m) (m_freePageIDs m)
    (m_retiredPageIDs m) (m_freeListPageIDs m ++ [id]).

(** The chain loop of [loadFreeListMetadata]; every round visits a new page id
    of [1..pageCount], so [pageCount + 1] rounds are enough. *)
Fixpoint loadChain (fuel : nat) (m : rootMetadata) (pageID : Z) (seenPages seenEntries : gset Z) (seq : Z)
    : FM (rootMetadata * gset Z * gset Z * Z) :=
  if pageID =? 0 then ret (m, seenPages, seenEntries, seq)
  else
    match fuel with
    | O => diverge
    | S fuel =>
        throw_if (pageID >? m_pageCount m) || (pageID =? m_rootPageID m) with errInvalidPageData ;;
        throw_if bool_decide (pageID ∈ seenPages) with errInvalidPageData ;;
        let seenPages' := {[pageID]} ∪ seenPages in
        page <~ readRawDataPage pageID ;;
        node <! (match decodeFreeListNode page with
                 | Ok node => fail_if negb (fl_sequence node =? seq) with errInvalidPageData ;; Ok node
                 | Err _ => Err errInvalidPageData
                 | Panic => Panic
                 | NoFuel => NoFuel
                 end) ;;
        '(m', seenEntries', seq') <! loadEntries (fl_pageIDs node) (add_list_page pageID m) seenPages' seenEntries seq ;;
        throw_if (fl_next node =? 0) && negb (pageID =? m_freeListTail m) with errInvalidPageData ;;
        loadChain fuel m' (fl_next node) seenPages' seenEntries' seq'
    end.

Definition loadFreeListMetadata (m : rootMetadata) : FM rootMetadata :=
  if m_freeListHead m =? 0 then
    throw_if negb (m_freeListTail m =? 0) || negb (m_headSequence m =? 0) ||
             negb (m_tailSequence m =? 0) || negb (m_maxSequence m =? 0) with errInvalidPageData ;;
    ret m
  else
    throw_if (m_freeListTail m =? 0) || (m_headSequence m >? m_maxSequence m) ||
             (m_maxSequence m >? m_tailSequence m) with errInvalidPageData ;;
    '(m', seenPages, seenEntries, seq) <~
      loadChain (S (Z.to_nat (m_pageCount m))) m (m_freeListHead m) ∅ ∅ (m_headSequence m) ;;
    throw_if negb (seq =? m_tailSequence m) with errInvalidPageData ;;
    throw_if negb (bool_decide (seenPages ∩ seenEntries = ∅)) with errInvalidPageData ;;
    ret m'.

(** The legacy version 2 page ids: first the free, then the retired ones. *)
Fixpoint loadLegacyIDs (todo : nat) (page : bytes) (i freeCount : Z) (m : rootMetadata) (seen : gset Z)
    : res rootMetadata :=
  match todo with
  | O => Ok m
  | S todo =>
      pageID <- getU 8 page (legacyPageIDsOffset + i * 8) ;;
      fail_if (pageID =? 0) || (pageID >? m_pageCount m) || (pageID =? m_rootPageID m)
        with errInvalidPageData ;;
      fail_if bool_decide (pageID ∈ seen) with errInvalidPageData ;;
      let m' :=
        if i <? freeCount
        then mkMeta (m_generation m) (m_rootPageID m) (m_pageCount m) (m_freeListHead m) (m_freeListTail m)
               (m_headSequence m) (m_tailSequence m) (m_maxSequence m) (m_freePageIDs m ++ [pageID])
               (m_retiredPageIDs m) (m_freeListPageIDs m)
        else mkMeta (m_generation m) (m_rootPageID m) (m_pageCount m) (m_freeListHead m) (m_freeListTail m)
               (m_headSequence m) (m_tailSequence m) (m_maxSequence m) (m_freePageIDs m)
               (m_retiredPageIDs m ++ [pageID]) (m_freeListPageIDs m) in
      loadLegacyIDs todo page (i + 1) freeCount m' ({[pageID]} ∪ seen)
  end.

(** The magic, version and checksum checks; returns the version and the page with
    its checksum field cleared. *)
Definition checkMetadataPage (page : bytes) : res (Z * bytes) :=
  magic <- slice page metadataMagicOffset metadataVersionOffset ;;
  fail_if negb (beqb magic metadataMagic) with errInvalidPageData ;;
  version <- getU 2 page metadataVersionOffset ;;
  fail_if negb (version =? 1) && negb (version =? 2) && negb (version =? metadataVersion)
    with errInvalidPageData ;;
  if version =? 1 then
    want <- getU 4 page 32 ;;
    page' <- putU 4 page 32 0 ;;
    prefix <- slice page' 0 36 ;;
    fail_if negb (crc32 prefix =? want) with errInvalidPageData ;;
    Ok (version, page')
  else
    let checksumOffset := if version =? 2 then legacyChecksumOffset else metadataChecksumOffset in
    want <- getU 4 page checksumOffset ;;
    page' <- putU 4 page checksumOffset 0 ;;
    fail_if negb (crc32 page' =? want) with errInvalidPageData ;;
    Ok (version, page').

Definition readRootMetadataSlot (slot : Z) : FM rootMetadata :=
  page0 <~ ReadAt pageSize (slot * pageSize) ;;
  '(version, page) <! checkMetadataPage page0 ;;
  gen <! getU 8 page metadataGenerationOffset ;;
  root <! getU 8 page metadataRootPageOffset ;;
  count <! getU 8 page metadataPageCountOffset ;;
  throw_if root >? count with errInvalidPageData ;;
  size <~ StatSize ;;
  throw_if (size <? metadataSize) || (count >? (size - metadataSize) / pageSize) with errInvalidPageData ;;
  let m := mkMeta gen root count 0 0 0 0 0 [] [] [] in
  if version =? 2 then
    freeCount <! getU 2 page legacyFreeCountOffset ;;
    retiredCount <! getU 2 page legacyRetiredCountOffset ;;
    throw_if freeCount + retiredCount >? legacyMaxPageIDs with errInvalidPageData ;;
    lift (loadLegacyIDs (Z.to_nat (freeCount + retiredCount)) page 0 freeCount m ∅)
  else if version =? metadataVersion then
    h <! getU 8 page metadataFreeListHeadOffset ;;
    t <! getU 8 page metadataFreeListTailOffset ;;
    hs <! getU 8 page metadataHeadSequenceOffset ;;
    ts <! getU 8 page metadataTailSequenceOffset ;;
    ms <! getU 8 page metadataMaxSequenceOffset ;;
    loadFreeListMetadata (mkMeta gen root count h t hs ts ms [] [] [])
  else ret m.

(** Runs [m]; an error that wraps [errInvalidPageData] becomes [None]. *)
Definition skip_invalid {A} (m : FM A) : FM (option A) := fun f =>
  match m f with
  | (Ok a, f') => (Ok (Some a), f')
  | (Err e, f') => if is_invalid_page_data e then (Ok None, f') else (Err e, f')
  | (Panic, f') => (Panic, f')
  | (NoFuel, f') => (NoFuel, f')
  end.

Definition readRootMetadata : FM rootMetadata :=
  m0 <~ skip_invalid (readRootMetadataSlot 0) ;;
  m1 <~ skip_invalid (readRootMetadataSlot 1) ;;
  match m0, m1 with
  | Some a, Some b => ret (if m_generation b >? m_generation a then b else a)
  | Some a, None => ret a
  | None, Some b => ret b
  | None, None => throw ENoMetadata
  end.

(** ** Opening *)

(** [lockDatabaseFile]: the exclusive, non-blocking lock of the open file;
    [Fault 0] stands for [EWOULDBLOCK], any other fault for another error. *)
Definition lockDatabaseFile : FM unit :=
  x <~ next_fault ;;
  match x with
  | Pass => ret tt
  | Fault n => throw_if n =? 0 with ErrDatabaseLocked ;; throw EFile
  end.

Fixpoint checkFreePages (ids : list Z) (root next : Z) : res unit :=
  match ids with
  | [] => Ok tt
  | id :: ids =>
      fail_if (id =? root) || (id >=? next) with EInvalidFreePage id ;; checkFreePages ids root next
  end.

(** [openPageManager] on the opened file; every failure closes the file. *)
Definition openPageManager : FM pageManager :=
  _ <~ lockDatabaseFile ;;
  size0 <~ StatSize ;;
  size <~ (if size0 =? 0 then
             _ <~ Truncate metadataSize ;;
             _ <~ writeRootMetadataSlot 0 meta0 ;;
             _ <~ Sync ;;
             StatSize
           else ret size0) ;;
  throw_if (size <? metadataSize) || negb ((size - metadataSize) mod pageSize =? 0) with EFileAlignment size ;;
  metadata <~ readRootMetadata ;;
  let next := (size - metadataSize) / pageSize + 1 in
  throw_if negb (m_rootPageID metadata =? 0) && (m_rootPageID metadata >=? next)
    with ERootNotAllocated (m_rootPageID metadata) ;;
  _ <! checkFreePages (m_freePageIDs metadata) (m_rootPageID metadata) next ;;
  fun f => (Ok (mkPM f next (m_pageCount metadata) (m_rootPageID metadata) (m_generation metadata)
      (m_freePageIDs metadata) (m_retiredPageIDs metadata) [] (list_to_set (m_freePageIDs metadata))
      (m_freeListPageIDs metadata)), f).
