(* ===== verification/KV.v ===== *)
(** * The durable key-value store (src/internal/btree/kv.go)

    [KV] keeps the committed pages in memory and runs every update as a
    copy-on-write transaction: the tree works on a private page map through
    callbacks, the new pages are written and synchronised, and the root is
    published in the alternate metadata slot. Tracing and the test hooks are
    left out; the mutex serialises all methods, so each is one step. *)

From S2P Require Import Prelude KvList Errors Page PageTree File FreeList PageManager.

(** ** State *)

Record KV := mkKV {
  k_pm : pageManager;
  k_root : Z;
  k_pages : gmap Z bytes;
  k_closed : bool;
  k_uncertain : bool;
}.
Record Mutation := mkMutation { mu_key : bytes; mu_value : bytes; mu_delete : bool }.

(** ** Page callbacks

    Outside an update ([bindTree]): pages come from the committed map, and the
    allocation callbacks panic. *)
Definition bindTree : callbacks (gmap Z bytes) := {|
  cb_set := true;
  cb_get id m := (Ok (default [] (m !! id)), m);
  cb_new _ m := (Panic, m);
  cb_del _ m := (Panic, m);
|}.

(** The state of a running update: [working] and [pending] page maps and the
    first callback error. *)
Record work := mkWork {
  w_pm : pageManager;
  w_root : Z;
  w_working : gmap Z bytes;
  w_pending : gmap Z bytes;
  w_err : option error;
}.

Definition fail_work (e : error) (w : work) : work :=
  mkWork (w_pm w) (w_root w) (w_working w) (w_pending w)
    (match w_err w with Some e0 => Some e0 | None => Some e end).

(** The callbacks [update] installs. A page a map does not hold is the nil
    slice. *)
Definition work_get (id : Z) : stM work error bytes := fun w =>
  match w_working w !! id with
  | Some page => (Ok page, w)
  | None => (Ok [], fail_work (EPageNotLoaded id) w)
  end.
Definition work_new (node : bytes) : stM work error Z := fun w =>
  match w_err w with
  | Some _ => (Ok 0, w)
  | None =>
      match reservePage (w_pm w) with
      | (Ok pageID, pm) =>
          (Ok pageID, mkWork pm (w_root w) (<[pageID := node]> (w_working w)) (<[pageID := node]> (w_pending w)) None)
      | (Err e, pm) => (Ok 0, mkWork pm (w_root w) (w_working w) (w_pending w) (Some e))
      | (Panic, pm) => (Panic, w)
      | (NoFuel, pm) => (NoFuel, w)
      end
  end.
Definition work_del (id : Z) : stM work error unit := fun w =>
  match w_err w with
  | Some _ => (Ok tt, w)
  | None =>
      match freePage id (w_pm w) with
      | (Ok _, pm) => (Ok tt, mkWork pm (w_root w) (w_working w) (w_pending w) None)
      | (Err e, pm) => (Ok tt, mkWork pm (w_root w) (w_working w) (w_pending w) (Some e))
      | (Panic, pm) => (Panic, w)
      | (NoFuel, pm) => (NoFuel, w)
      end
  end.
Definition work_cb : callbacks work := {|
  cb_set := true; cb_get := work_get; cb_new := work_new; cb_del := work_del;
|}.

Definition set_root (root : Z) : stM work error unit := fun w =>
  (Ok tt, mkWork (w_pm w) root (w_working w) (w_pending w) (w_err w)).

(** [kv.tree.insert] and [kv.tree.delete] with the root kept in the tree. *)
Definition treeInsert (fuel : nat) (key value : bytes) : stM work error unit :=
  root <~ asks w_root ;;
  root' <~ insert work_cb fuel root key value ;;
  set_root root'.
Definition treeDelete (fuel : nat) (key : bytes) : stM work error bool :=
  root <~ asks w_root ;;
  '(root', deleted) <~ delete work_cb fuel root key ;;
  _ <~ set_root root' ;;
  ret deleted.

(** ** Recovery *)

Record walkState := mkWalk {
  wk_pm : pageManager;
  wk_pages : gmap Z bytes;
  wk_visiting : gset Z;
  wk_leafDepth : Z;
}.
Abbreviation WM := (stM walkState error).

Definition walk_read (pageID : Z) : WM bytes := fun w =>
  let '(r, pm) := readPage pageID (wk_pm w) in
  (map_err (ELoadRead pageID) r, mkWalk pm (wk_pages w) (wk_visiting w) (wk_leafDepth w)).

(** The guards of [walk] on one loaded page. *)
Definition checkWalkPage (pageID : Z) (node : bytes) (lower upper : option bytes) (root : bool) : res unit :=
  _ <- map_err (ELoadValidate pageID) (validateBNode node) ;;
  n <- nkeys node ;;
  fail_if n =? 0 with ENoEntries pageID ;;
  size <- nbytes node ;;
  fail_if size >? pageSize with EPageOverflow pageID ;;
  firstKey <- getKey node 0 ;;
  fail_if root && negb (len firstKey =? 0) with ENoSentinel pageID ;;
  ty <- btype node ;;
  fail_if root && (ty =? nodeTypeInternal) && (n <? 2) with EThinRoot pageID ;;
  lastKey <- getKey node (u16 (n - 1)) ;;
  fail_if match lower with Some l => negb (beqb firstKey l) | None => false end
    with ELowerBound pageID firstKey (default [] lower) ;;
  fail_if match upper with Some u => bleb u lastKey | None => false end
    with EUpperBound pageID lastKey (default [] upper) ;;
  Ok tt.

Definition encodedMergeSize (left right : bytes) : res Z :=
  ln <- nkeys left ;;
  rn <- nkeys right ;;
  lo <- getOffset left ln ;;
  ro <- getOffset right rn ;;
  Ok (pageHeaderSize + u16 (ln + rn) * (pagePtrSize + pageOffsetSize) + lo + ro).

(** The sibling loop of [walk]: no underfull child may fit beside a neighbour. *)
Fixpoint checkSiblings (todo : nat) (pageID : Z) (node : bytes) (n i : Z) (pages : gmap Z bytes) : res unit :=
  match todo with
  | O => Ok tt
  | S todo =>
      let page p := default [] (pages !! p) in
      p <- getPtr node (u16 i) ;;
      size <- nbytes (page p) ;;
      _ <- (if size >? pageSize / 4 then Ok tt
            else
              _ <- (if i >? 0 then
                      l <- getPtr node (u16 (i - 1)) ;;
                      s <- encodedMergeSize (page l) (page p) ;;
                      fail_if s <=? pageSize with EMergeableLeft pageID p ;; Ok tt
                    else Ok tt) ;;
              if u16 (i + 1) <? n then
                r <- getPtr node (u16 (i + 1)) ;;
                s <- encodedMergeSize (page p) (page r) ;;
                fail_if s <=? pageSize with EMergeableRight pageID p ;; Ok tt
              else Ok tt) ;;
      checkSiblings todo pageID node n (i + 1) pages
  end.

(** The child loop of [walk], over the recursive call [rec]. *)
Fixpoint walkChildren (rec : Z -> option bytes -> option bytes -> WM unit)
    (todo : nat) (node : bytes) (n i : Z) (upper : option bytes) : WM unit :=
  match todo with
  | O => ret tt
  | S todo =>
      childID <! getPtr node (u16 i) ;;
      lo <! getKey node (u16 i) ;;
      hi <! (if u16 (i + 1) <? n then k <- getKey node (u16 (i + 1)) ;; Ok (Some k) else Ok upper) ;;
      _ <~ rec childID (Some lo) hi ;;
      walkChildren rec todo node n (i + 1) upper
  end.

Fixpoint walk (fuel : nat) (pageID depth : Z) (lower upper : option bytes) (root : bool) : WM unit :=
  match fuel with
  | O => diverge
  | S fuel =>
      w <~ asks id ;;
      throw_if (pageID =? 0) || (pageID >? committedPageCount (wk_pm w)) with EInvalidChild pageID ;;
      throw_if bool_decide (pageID ∈ wk_visiting w) with EPageCycle pageID ;;
      throw_if bool_decide (is_Some (wk_pages w !! pageID)) with EPageTwice pageID ;;
      _ <~ modify (fun w => mkWalk (wk_pm w) (wk_pages w) ({[pageID]} ∪ wk_visiting w) (wk_leafDepth w)) ;;
      node <~ walk_read pageID ;;
      _ <! checkWalkPage pageID node lower upper root ;;
      _ <~ modify (fun w => mkWalk (wk_pm w) (<[pageID := node]> (wk_pages w)) (wk_visiting w) (wk_leafDepth w)) ;;
      ty <! btype node ;;
      n <! nkeys node ;;
      _ <~ (if ty =? nodeTypeLeaf then
              d <~ asks wk_leafDepth ;;
              if d =? -1 then
                modify (fun w => mkWalk (wk_pm w) (wk_pages w) (wk_visiting w) depth)
              else throw_if negb (d =? depth) with ELeafDepth depth d ;; ret tt
            else
              _ <~ walkChildren (fun c lo hi => walk fuel c (depth + 1) lo hi false) (Z.to_nat n) node n 0 upper ;;
              pages <~ asks wk_pages ;;
              lift (checkSiblings (Z.to_nat n) pageID node n 0 pages)) ;;
      modify (fun w => mkWalk (wk_pm w) (wk_pages w) (wk_visiting w ∖ {[pageID]}) (wk_leafDepth w))
  end.

(** [loadCommittedPages]; along a path the ids are distinct and at most
    [committedPageCount], which bounds the depth. *)
Definition loadCommittedPages : PM (gmap Z bytes) := fun pm =>
  if rootPageID pm =? 0 then (Ok ∅, pm)
  else
    match walk (S (Z.to_nat (committedPageCount pm))) (rootPageID pm) 0 None None true
            (mkWalk pm ∅ ∅ (-1)) with
    | (Ok _, w) => (Ok (wk_pages w), wk_pm w)
    | (Err e, w) => (Err e, wk_pm w)
    | (Panic, w) => (Panic, wk_pm w)
    | (NoFuel, w) => (NoFuel, wk_pm w)
    end.

(** The claims of [reconcilePageOwnership]: every owned page id once. *)
Fixpoint claimAll (ids : list Z) (next : Z) (owners : gset Z) : res (gset Z) :=
  match ids with
  | [] => Ok owners
  | id :: ids =>
      fail_if (id =? 0) || (id >=? next) with EOwnerInvalid id ;;
      fail_if bool_decide (id ∈ owners) with EOwnedTwice id ;;
      claimAll ids next ({[id]} ∪ owners)
  end.
Definition reconcilePageOwnership (livePages : gmap Z bytes) : PM unit := fun pm =>
  match claimAll (elements (dom livePages) ++ freePageIDs pm ++ retiredPageIDs pm ++ freeListPageIDs pm)
          (nextPageID pm) ∅ with
  | Ok owners =>
      let orphans := filter (fun id => id ∉ owners) (seqZ 1 (nextPageID pm - 1)) in
      (Ok tt, set_pending (pendingFreePageIDs pm ++ orphans) pm)
  | Err e => (Err e, pm)
  | Panic => (Panic, pm)
  | NoFuel => (NoFuel, pm)
  end.

(** One candidate generation; [None] is "try the next one", with its error. *)
Definition tryCandidate (m : rootMetadata) : PM (gmap Z bytes + error) := fun pm =>
  if m_rootPageID m >=? nextPageID pm
  then (Ok (inr (EGenerationRoot (m_generation m) (m_rootPageID m))), pm)
  else
    let pm1 := restore (mkPMState (nextPageID pm) (m_pageCount m) (m_rootPageID m) (m_generation m)
                 (m_freePageIDs m) (m_retiredPageIDs m) [] (m_freeListPageIDs m)) pm in
    match (pages <~ loadCommittedPages ;; _ <~ reconcilePageOwnership pages ;; ret pages) pm1 with
    | (Ok pages, pm2) => (Ok (inl pages), pm2)
    | (Err e, pm2) => (Ok (inr (EGeneration (m_generation m) e)), pm2)
    | (Panic, pm2) => (Panic, pm2)
    | (NoFuel, pm2) => (NoFuel, pm2)
    end.
Fixpoint tryCandidates (ms : list rootMetadata) (errs : list error) : PM (gmap Z bytes) :=
  match ms with
  | [] => throw (ENoValidTree (EJoin errs))
  | m :: ms =>
      r <~ tryCandidate m ;;
      match r with
      | inl pages => ret pages
      | inr e => tryCandidates ms (errs ++ [e])
      end
  end.

(** [recoverCommittedPages]: the valid slots, newest generation first. *)
Definition recoverCommittedPages : PM (gmap Z bytes) :=
  m0 <~ on_file (skip_invalid (readRootMetadataSlot 0)) ;;
  m1 <~ on_file (skip_invalid (readRootMetadataSlot 1)) ;;
  let candidates :=
    match m0, m1 with
    | Some a, Some b => if m_generation b >? m_generation a then [b; a] else [a; b]
    | Some a, None => [a]
    | None, Some b => [b]
    | None, None => []
    end in
  throw_if len candidates =? 0 with ENoMetadata ;;
  tryCandidates candidates [].

(** ** Opening, reading and closing *)

(** [Open]: [created] tells whether the path did not exist before. *)
Definition Open (path : bytes) (created : bool) : FM KV :=
  throw_if len path =? 0 with EPathEmpty ;;
  pm <~ openPageManager ;;
  _ <~ (if created then _ <~ Sync ;; checked else ret tt) ;;
  fun f =>
    match recoverCommittedPages (mkPM f (nextPageID pm) (committedPageCount pm) (rootPageID pm) (generation pm)
            (freePageIDs pm) (retiredPageIDs pm) (pendingFreePageIDs pm) (freePageSet pm) (freeListPageIDs pm)) with
    | (Ok pages, pm') => (Ok (mkKV pm' (rootPageID pm') pages false false), pm_file pm')
    | (Err e, pm') => (Err e, pm_file pm')
    | (Panic, pm') => (Panic, pm_file pm')
    | (NoFuel, pm') => (NoFuel, pm_file pm')
    end.

Abbreviation KM := (stM KV error).

Definition Close : KM unit := fun kv =>
  if k_closed kv then (Ok tt, kv)
  else
    let '(r, pm) := on_file checked (k_pm kv) in
    (r, mkKV pm (k_root kv) (k_pages kv) true (k_uncertain kv)).

Definition Get (fuel : nat) (key : bytes) : KM (option bytes) := fun kv =>
  if k_closed kv then (Err ErrClosed, kv)
  else ((getValue bindTree fuel (k_root kv) key (k_pages kv)).1, kv).

Definition Range (fuel : nat) (start end_ : bytes) : KM (list (bytes * bytes)) := fun kv =>
  if k_closed kv then (Err ErrClosed, kv)
  else ((rangeValues bindTree fuel (k_root kv) start end_ (k_pages kv)).1, kv).

(** ** Updating *)

(** [kv.repair]: recover again on the owned descriptor. *)
Definition repair : KM unit := fun kv =>
  let put_file f := mkKV (on_file (fun _ => (@Ok error unit tt, f)) (k_pm kv)).2
                      (k_root kv) (k_pages kv) (k_closed kv) (k_uncertain kv) in
  match StatSize (pm_file (k_pm kv)) with
  | (Ok size, f) =>
      if (size <? metadataSize) || negb ((size - metadataSize) mod pageSize =? 0)
      then (Err (EFileAlignment size), put_file f)
      else
        let pm := mkPM f ((size - metadataSize) / pageSize + 1) 0 0 0 [] [] [] ∅ [] in
        match recoverCommittedPages pm with
        | (Ok pages, pm') => (Ok tt, mkKV pm' (rootPageID pm') pages (k_closed kv) false)
        | (Err e, pm') => (Err e, put_file (pm_file pm'))
        | (Panic, pm') => (Panic, put_file (pm_file pm'))
        | (NoFuel, pm') => (NoFuel, put_file (pm_file pm'))
        end
  | (Err e, f) => (Err e, put_file f)
  | (Panic, f) => (Panic, put_file f)
  | (NoFuel, f) => (NoFuel, put_file f)
  end.

(** [kv.rollback]; the truncation error is ignored. *)
Definition rollback (kv : KV) (pm : pageManager) (originalSize : Z) : KV :=
  let pm1 := restore (snapshot (k_pm kv)) pm in
  mkKV (on_file (Truncate originalSize) pm1).2 (k_root kv) (k_pages kv) (k_closed kv) (k_uncertain kv).

(** Writing the new pages in ascending id order. *)
Fixpoint writePages (pending : list (Z * bytes)) : PM unit :=
  match pending with
  | [] => ret tt
  | (pageID, page) :: pending => _ <~ writePage pageID page ;; writePages pending
  end.
Definition sortedPending (m : gmap Z bytes) : list (Z * bytes) :=
  omap (fun id => p ← m !! id; Some (id, p)) (merge_sort Z.le (elements (dom m))).

(** [reachablePageMap], with the tree depth as fuel. *)
Fixpoint reachableChildren (rec : Z -> res (gmap Z bytes)) (todo : nat) (node : bytes) (i : Z)
    : res (gmap Z bytes) :=
  match todo with
  | O => Ok ∅
  | S todo =>
      p <- getPtr node (u16 i) ;;
      m <- rec p ;;
      rest <- reachableChildren rec todo node (i + 1) ;;
      Ok (m ∪ rest)
  end.
Fixpoint reachablePageMap (fuel : nat) (pages : gmap Z bytes) (root : Z) : res (gmap Z bytes) :=
  if root =? 0 then Ok ∅
  else
    match fuel with
    | O => NoFuel
    | S fuel =>
        let node := default [] (pages !! root) in
        ty <- btype node ;;
        if ty =? nodeTypeInternal then
          n <- nkeys node ;;
          rest <- reachableChildren (reachablePageMap fuel pages) (Z.to_nat n) node 0 ;;
          Ok (<[root := node]> rest)
        else Ok {[root := node]}
    end.

(** The commit of a changed tree. A failure before publication rolls back; a
    failure while publishing leaves the file in doubt. *)
Definition commitWork (fuel : nat) (kv : KV) (w : work) (originalSize : Z) : outcome error bool * KV :=
  match (_ <~ writePages (sortedPending (w_pending w)) ;; on_file Sync) (w_pm w) with
  | (Ok _, pm1) =>
      match publishRoot (w_root w) pm1 with
      | (Ok _, pm2) =>
          match reachablePageMap fuel (w_working w) (w_root w) with
          | Ok pages => (Ok true, mkKV pm2 (w_root w) pages (k_closed kv) (k_uncertain kv))
          | Err e => (Err e, kv)
          | Panic => (Panic, kv)
          | NoFuel => (NoFuel, kv)
          end
      | (Err e, pm2) =>
          (Err e, mkKV (restore (snapshot (k_pm kv)) pm2) (k_root kv) (k_pages kv) (k_closed kv) true)
      | (Panic, pm2) => (Panic, kv)
      | (NoFuel, pm2) => (NoFuel, kv)
      end
  | (Err e, pm1) => (Err e, rollback kv pm1 originalSize)
  | (Panic, _) => (Panic, kv)
  | (NoFuel, _) => (NoFuel, kv)
  end.

(** [kv.update] up to the change: repair when the file is in doubt, and the size
    of the file. *)
Definition beginUpdate : KM Z := fun kv0 =>
  match (if k_uncertain kv0 then repair kv0 else (Ok tt, kv0)) with
  | (Ok _, kv1) =>
      match on_file StatSize (k_pm kv1) with
      | (Ok originalSize, pm) => (Ok originalSize, mkKV pm (k_root kv1) (k_pages kv1) (k_closed kv1) (k_uncertain kv1))
      | (Err e, pm) => (Err e, mkKV pm (k_root kv1) (k_pages kv1) (k_closed kv1) (k_uncertain kv1))
      | (Panic, pm) => (Panic, kv1)
      | (NoFuel, pm) => (NoFuel, kv1)
      end
  | (Err e, kv1) => (Err (ERepairMetadata e), kv1)
  | (Panic, kv1) => (Panic, kv1)
  | (NoFuel, kv1) => (NoFuel, kv1)
  end.
(** The maps and the callback error an update starts with. *)
Definition newWork (kv : KV) : work := mkWork (k_pm kv) (k_root kv) (k_pages kv) ∅ None.
(** The rest of [kv.update], for the result of the change. *)
Definition endUpdate (fuel : nat) (kv : KV) (originalSize : Z) (r : outcome error bool * work) : outcome error bool * KV :=
  match r with
  | (Ok changed, w) =>
      match w_err w with
      | Some e => (Err (EJoin [e]), rollback kv (w_pm w) originalSize)
      | None =>
          if (changed : bool) then commitWork fuel kv w originalSize
          else (Ok false, rollback kv (w_pm w) originalSize)
      end
  | (Err e, w) =>
      (Err (EJoin (e :: match w_err w with Some e' => [e'] | None => [] end)),
       rollback kv (w_pm w) originalSize)
  | (Panic, _) => (Panic, kv)
  | (NoFuel, _) => (NoFuel, kv)
  end.

(** [kv.update]: the change reports whether it changed anything; that flag is
    returned with success (the Go callers keep it in a captured variable). *)
Definition update (fuel : nat) (change : stM work error bool) : KM bool := fun kv0 =>
  match beginUpdate kv0 with
  | (Ok originalSize, kv) => endUpdate fuel kv originalSize (change (newWork kv))
  | (Err e, kv) => (Err e, kv)
  | (Panic, kv) => (Panic, kv)
  | (NoFuel, kv) => (NoFuel, kv)
  end.

Definition Set_ (fuel : nat) (key value : bytes) : KM unit :=
  closed <~ asks k_closed ;;
  throw_if closed with ErrClosed ;;
  _ <~ update fuel (_ <~ treeInsert fuel key value ;; ret true) ;;
  ret tt.

Definition Delete (fuel : nat) (key : bytes) : KM bool :=
  closed <~ asks k_closed ;;
  throw_if closed with ErrClosed ;;
  update fuel (treeDelete fuel key).
(** The first result of [KV.Delete], which Go returns beside an error too: the
    variable the closure sets. It is true beside an error when the key was removed
    from the tree and the commit then failed. *)
Definition deletedFlag (fuel : nat) (key : bytes) (kv0 : KV) : bool :=
  if k_closed kv0 then false
  else
    match beginUpdate kv0 with
    | (Ok _, kv) => match treeDelete fuel key (newWork kv) with (Ok deleted, _) => deleted | _ => false end
    | _ => false
    end.

(** The change of [ApplyBatch]. *)
Fixpoint batchLoop (fuel : nat) (ms : list Mutation) (changed : bool) : stM work error bool :=
  match ms with
  | [] => ret changed
  | m :: ms =>
      if mu_delete m then
        deleted <~ treeDelete fuel (mu_key m) ;;
        batchLoop fuel ms (changed || deleted)
      else
        _ <~ treeInsert fuel (mu_key m) (mu_value m) ;;
        batchLoop fuel ms true
  end.
Definition ApplyBatch (fuel : nat) (ms : list Mutation) : KM unit :=
  closed <~ asks k_closed ;;
  throw_if closed with ErrClosed ;;
  _ <~ update fuel (batchLoop fuel ms false) ;;
  ret tt.
