(* ===== verification/PageManagerSpec.v ===== *)
(** * The allocation invariant of the page manager

    Free, retired, newly freed and free-list pages are pairwise distinct, below
    the allocation mark, and disjoint from the live pages of the tree; every
    allocation operation keeps it so, whatever the file does. *)

From S2P Require Import Prelude Errors Page File FreeList PageManager.

(** The largest page id with a representable file offset. *)
Definition maxPage : Z := (maxInt64 - metadataSize) / pageSize + 1.

Definition owned (pm : pageManager) : list Z :=
  freePageIDs pm ++ retiredPageIDs pm ++ pendingFreePageIDs pm ++ freeListPageIDs pm.

Record pm_inv (live : gset Z) (pm : pageManager) : Prop := {
  pi_next : 0 < nextPageID pm <= maxPage + 1;
  pi_nodup : NoDup (owned pm);
  pi_owned : forall id, id ∈ owned pm -> 0 < id < nextPageID pm /\ id ∉ live;
  pi_live : forall id, id ∈ live -> 0 < id < nextPageID pm;
  pi_set : freePageSet pm = list_to_set (freePageIDs pm);
}.

(** How many more pages can be allocated. *)
Definition pm_room (pm : pageManager) : Z := len (freePageIDs pm) + (maxPage + 1 - nextPageID pm).

Lemma maxPage_bound : maxPage + 2 < 2 ^ 64 /\ 0 < maxPage.
Proof. by vm_compute. Qed.

Lemma dataPageOffset_ok id :
  0 < id <= maxPage -> dataPageOffset id = Ok (metadataSize + (id - 1) * pageSize).
Proof. intros. unfold dataPageOffset, maxPage in *. rewrite Z.gtb_ltb. zdecide. done. Qed.

Lemma containsPageID_spec ids id : containsPageID ids id = true <-> id ∈ ids.
Proof.
  unfold containsPageID. rewrite existsb_exists. split.
  - intros (x & Hx & ->%Z.eqb_eq). by apply list_elem_of_In.
  - intros H. exists id. split; [by apply list_elem_of_In|apply Z.eqb_refl].
Qed.
Lemma containsPageID_false ids id : id ∉ ids -> containsPageID ids id = false.
Proof. intros H. apply not_true_iff_false. by rewrite containsPageID_spec. Qed.

Lemma last_removelast {A} (l : list A) x : last l = Some x -> l = removelast l ++ [x].
Proof.
  intros H. destruct l as [|y l] using rev_ind; [done|]. rewrite last_snoc in H. injection H as ->.
  by rewrite removelast_last.
Qed.

(** ** Allocation *)

Lemma reservePage_ok live pm :
  pm_inv live pm -> 0 < pm_room pm ->
  exists id pm', reservePage pm = (Ok id, pm') /\ 0 < id < 2 ^ 64 /\ id ∉ live /\ id ∉ owned pm' /\
    pm_inv ({[id]} ∪ live) pm' /\ pm_room pm' = pm_room pm - 1 /\
    pendingFreePageIDs pm' = pendingFreePageIDs pm.
Proof.
  intros [Hn Hd Ho Hl Hs] Hr. pose proof maxPage_bound as Hm. unfold reservePage, pm_room in *.
  destruct (last (freePageIDs pm)) as [id|] eqn:El.
  - apply last_removelast in El. eexists id, _. split; [done|].
    assert (Hmid : owned pm = removelast (freePageIDs pm) ++ id ::
      (retiredPageIDs pm ++ pendingFreePageIDs pm ++ freeListPageIDs pm))
      by (unfold owned; rewrite El at 1; by rewrite <- app_assoc).
    rewrite Hmid in Hd, Ho. destruct (Ho id) as [Hid Hil]; [set_solver|].
    set (pm' := set_free _ _ pm).
    assert (Hown : owned pm' = removelast (freePageIDs pm) ++
      (retiredPageIDs pm ++ pendingFreePageIDs pm ++ freeListPageIDs pm)) by done.
    apply NoDup_app in Hd as (Hd1 & Hd2 & Hd3). apply NoDup_cons in Hd3 as [Hd3 Hd4].
    assert (Hnin : id ∉ owned pm').
    { rewrite Hown, elem_of_app. intros [H|H]; [|done]. apply (Hd2 id H). left. }
    split; [lia|]. split; [done|]. split; [done|]. split; [|split; [|done]].
    + split.
      * done.
      * rewrite Hown. apply NoDup_app. split_and!; [done| |done]. intros x Hx Hx'. apply (Hd2 x Hx). by right.
      * intros x Hx. destruct (Ho x) as [? ?]; [rewrite Hown in Hx; set_solver|]. split; [done|].
        intros [->%elem_of_singleton|?]%elem_of_union; done.
      * intros x [->%elem_of_singleton|Hx]%elem_of_union; [done|by apply Hl].
      * cbn. rewrite Hs. rewrite El at 1. rewrite list_to_set_app_L. cbn [list_to_set].
        assert (id ∉ removelast (freePageIDs pm)) by (intros H; apply (Hd2 id H); left).
        set_solver.
    + cbn. rewrite El at 2. rewrite len_app. change (len [id]) with 1. lia.
  - apply last_None in El. rewrite El in Hr. change (len (@nil Z)) with 0 in Hr.
    assert (Hid : 0 < nextPageID pm <= maxPage) by lia. rewrite (dataPageOffset_ok _ Hid).
    eexists _, _. split; [done|]. rewrite u64_small by lia. set (id := nextPageID pm) in *.
    assert (Hil : id ∉ live) by (intros H%Hl; lia).
    assert (Hio : id ∉ owned pm) by (intros H%Ho; lia).
    split; [lia|]. split; [done|]. split; [done|]. split; [|split; [cbn; rewrite El; change (len (@nil Z)) with 0; lia|done]].
    split; cbn; [lia|exact Hd| | |exact Hs].
    + intros x Hx. destruct (Ho x Hx). split; [lia|]. set_solver.
    + intros x [->%elem_of_singleton|Hx]%elem_of_union; [lia|]. specialize (Hl x Hx). lia.
Qed.

Lemma validateExisting_ok live pm id : pm_inv live pm -> id ∈ live -> validateExistingPageID pm id = Ok tt.
Proof.
  intros [Hn Hd Ho Hl Hs] Hi. specialize (Hl id Hi). unfold validateExistingPageID. rewrite Z.geb_leb. zdecide.
  rewrite bool_decide_false; [done|]. rewrite Hs, elem_of_list_to_set. intros H.
  destruct (Ho id) as [_ ?]; [unfold owned; set_solver|done].
Qed.

Lemma freePage_ok live pm id :
  pm_inv live pm -> id ∈ live ->
  exists pm', freePage id pm = (Ok tt, pm') /\ pm_inv (live ∖ {[id]}) pm' /\ pm_room pm' = pm_room pm /\
    pendingFreePageIDs pm' = pendingFreePageIDs pm ++ [id].
Proof.
  intros I Hi. pose proof I as [Hn Hd Ho Hl Hs]. unfold freePage. rewrite (validateExisting_ok _ _ _ I Hi).
  assert (Hio : id ∉ owned pm) by (intros H%Ho; tauto). unfold owned in Hio.
  rewrite !containsPageID_false by set_solver. cbn [orb]. eexists. split; [done|].
  assert (Hp : owned (set_pending (pendingFreePageIDs pm ++ [id]) pm) ≡ₚ id :: owned pm).
  { unfold owned. cbn. rewrite !app_assoc, <- (app_assoc _ [id]). cbn [app].
    by rewrite <- Permutation_middle. }
  split; [|done]. split; cbn; try done.
  - rewrite Hp. apply NoDup_cons. split; [|done]. by unfold owned.
  - intros x Hx. rewrite Hp, elem_of_cons in Hx. destruct Hx as [->|Hx]; [specialize (Hl id Hi); set_solver|].
    destruct (Ho x Hx). set_solver.
  - intros x Hx. apply Hl. set_solver.
Qed.

(** ** File calls leave the allocation state alone *)

Definition same_alloc (pm pm' : pageManager) : Prop :=
  snapshot pm' = snapshot pm /\ freePageSet pm' = freePageSet pm.
Lemma same_alloc_refl pm : same_alloc pm pm.
Proof. by split. Qed.
Lemma same_alloc_trans pm pm1 pm2 : same_alloc pm pm1 -> same_alloc pm1 pm2 -> same_alloc pm pm2.
Proof. intros [E1 S1] [E2 S2]. split; congruence. Qed.
Lemma same_alloc_fields pm pm' :
  same_alloc pm pm' ->
  nextPageID pm' = nextPageID pm /\ rootPageID pm' = rootPageID pm /\ generation pm' = generation pm /\
  freePageIDs pm' = freePageIDs pm /\ retiredPageIDs pm' = retiredPageIDs pm /\
  pendingFreePageIDs pm' = pendingFreePageIDs pm /\ freeListPageIDs pm' = freeListPageIDs pm /\
  freePageSet pm' = freePageSet pm.
Proof. intros [E ->]. destruct pm, pm'. cbn in *. by simplify_eq. Qed.
Lemma pm_inv_alloc live pm pm' : pm_inv live pm -> same_alloc pm pm' -> pm_inv live pm'.
Proof.
  intros [] (Hn & _ & _ & Hf & Hr & Hp & Hl & Hs)%same_alloc_fields.
  assert (Ho : owned pm' = owned pm) by (unfold owned; congruence).
  split; rewrite ?Hn, ?Ho, ?Hs, ?Hf; done.
Qed.

(** A step that returns a value or an error. *)
Definition safe {S E A} (m : stM S E A) (s : S) (Q : S -> Prop) : Prop :=
  ends m s (fun _ s' => Q s') (fun _ s' => Q s').

Lemma checked_safe f : safe checked f (fun _ => True).
Proof. unfold safe, ends, checked, next_fault, bind. by destruct (f_faults f) as [|[] ?]. Qed.
Lemma ReadAt_safe n pos f : safe (ReadAt n pos) f (fun _ => True).
Proof.
  unfold safe, ReadAt. apply ends_bind. eapply ends_mono; [apply checked_safe| |done].
  intros _ f' _. unfold ends, bind, get_data. by destruct (_ >? _).
Qed.
Lemma WriteAt_safe d pos f : safe (WriteAt d pos) f (fun _ => True).
Proof.
  unfold safe, ends, WriteAt, next_fault, get_data, set_data, bind. by destruct (f_faults f) as [|[] ?].
Qed.
Lemma Sync_safe f : safe Sync f (fun _ => True).
Proof. unfold safe, Sync. apply ends_bind. eapply ends_mono; [apply checked_safe| |done]. done. Qed.
Lemma StatSize_safe f : safe StatSize f (fun _ => True).
Proof.
  unfold safe, StatSize. apply ends_bind. eapply ends_mono; [apply checked_safe| |done].
  intros _ f' _. unfold ends, bind, get_data. by destruct (_ >? _).
Qed.
Lemma Truncate_safe n f : safe (Truncate n) f (fun _ => True).
Proof. unfold safe, Truncate. apply ends_bind. eapply ends_mono; [apply checked_safe| |done]. done. Qed.

Lemma on_file_safe {A} (m : FM A) pm :
  safe m (pm_file pm) (fun _ => True) -> safe (on_file m) pm (same_alloc pm).
Proof. unfold safe, ends, on_file. destruct (m (pm_file pm)) as [[] f]; done. Qed.

Lemma lift_safe {S E A} (m : outcome E A) (s : S) : (exists a, m = Ok a) \/ (exists e, m = Err e) ->
  safe (lift m) s (fun s' => s' = s).
Proof. by intros [[a ->]|[e ->]]. Qed.

Lemma dataPageOffset_settles id : (exists a, dataPageOffset id = Ok a) \/ (exists e, dataPageOffset id = Err e).
Proof. unfold dataPageOffset. destruct (_ =? _); [eauto|]. destruct (_ >? _); eauto. Qed.
Lemma validateExisting_settles pm id :
  (exists a, validateExistingPageID pm id = Ok a) \/ (exists e, validateExistingPageID pm id = Err e).
Proof. unfold validateExistingPageID. destruct (_ || _); [eauto|]. destruct (bool_decide _); eauto. Qed.

Lemma safe_bind {S E A B} (m : stM S E A) (k : A -> stM S E B) s (P Q : S -> Prop) :
  safe m s P -> (forall s', P s' -> Q s') -> (forall a s', P s' -> safe (k a) s' Q) -> safe (bind m k) s Q.
Proof. intros Hm Hpq Hk. apply ends_bind. eapply ends_mono; [exact Hm|intros a s' H; by apply Hk|auto]. Qed.

Lemma writePage_safe id page pm : safe (writePage id page) pm (same_alloc pm).
Proof.
  unfold writePage, bind, asks, lift, safe, ends. destruct (validateExisting_settles pm id) as [[a ->]|[e ->]];
    [|apply same_alloc_refl]. destruct (negb _); [apply same_alloc_refl|].
  destruct (dataPageOffset_settles id) as [[o ->]|[e ->]]; [|apply same_alloc_refl].
  apply (on_file_safe (WriteAt page o) pm), WriteAt_safe.
Qed.

Lemma readRaw_safe id f : safe (readRawDataPage id) f (fun _ => True).
Proof.
  unfold readRawDataPage, bind, lift, safe, ends. destruct (dataPageOffset_settles id) as [[o ->]|[e ->]]; [|done].
  apply ReadAt_safe.
Qed.

Lemma recyclablePages_ok el : forall pm,
  ends (recyclablePages el) pm (fun rs pm' => same_alloc pm pm' /\ rs `sublist_of` el) no_err.
Proof.
  induction el as [|id el IH]; intros pm; cbn [recyclablePages]; [by split; [apply same_alloc_refl|]|].
  apply ends_bind. pose proof (on_file_safe _ pm (readRaw_safe id (pm_file pm))) as Hr. unfold safe, ends in Hr.
  unfold ends at 1. destruct (on_file (readRawDataPage id) pm) as [[page|e| |] pm1]; try done;
    (apply ends_bind; eapply ends_mono; [apply (IH pm1)| |done]; cbn beta; intros rs pm2 [H2 Hs];
     split; [by eapply same_alloc_trans|]).
  - destruct (is_ok _); [by apply sublist_skip|by apply sublist_cons].
  - by apply sublist_cons.
Qed.

(** ** Sizing the free list *)

(** Pages needed for [n] entries. *)
Definition chainPages (n : Z) : Z := (n + freeListPageCapacity - 1) / freeListPageCapacity.

Lemma findNodeCount_spec todo : forall c total rec nc ru,
  findNodeCount todo c total rec = Some (nc, ru) -> 0 <= rec -> 1 <= c ->
  0 <= ru <= rec /\ ru <= nc /\ 1 <= nc /\ chainPages (total - ru) = nc.
Proof.
  induction todo as [|todo IH]; intros c total rec nc ru H Hr Hc; cbn [findNodeCount] in H; [done|].
  set (r := if c >? rec then rec else c) in *.
  assert (0 <= r <= rec /\ r <= c) by (unfold r; rewrite Z.gtb_ltb; destruct (Z.ltb_spec rec c); lia).
  destruct (_ =? c) eqn:E.
  - injection H as <- <-. zbool. unfold chainPages. lia.
  - apply (IH (c + 1)) in H; lia.
Qed.

(** The chosen number of pages is exactly what the listed entries need. *)
Lemma nodeCounts_spec total rec nc ru :
  nodeCounts total rec = (nc, ru) -> 0 <= total -> 0 <= rec ->
  0 <= ru <= rec /\ ru <= nc /\ nc = chainPages (total - ru) /\ (nc = 0 -> total = 0).
Proof.
  unfold nodeCounts. intros H Ht Hr. rewrite Z.gtb_ltb in H. destruct (Z.ltb_spec 0 total).
  - change ((total + freeListPageCapacity - 1) / freeListPageCapacity) with (chainPages total) in H.
    destruct (findNodeCount (Z.to_nat (chainPages total)) 1 total rec) as [[nc' ru']|] eqn:E.
    + injection H as <- <-. apply findNodeCount_spec in E; lia.
    + injection H as <- <-. rewrite Z.sub_0_r. split_and!; try lia.
      * unfold chainPages. apply Z.div_pos; [|done]. change freeListPageCapacity with 508. lia.
      * unfold chainPages. change freeListPageCapacity with 508. intros Hz.
        assert (1 <= (total + 508 - 1) / 508) by (apply Z.div_le_lower_bound; lia). lia.
  - injection H as <- <-. assert (total = 0) as -> by lia. done.
Qed.

(** Every page of the chain has at least one entry to list. *)
Lemma chainPages_last n i : 0 <= i < chainPages n -> i * freeListPageCapacity < n.
Proof.
  unfold chainPages. change freeListPageCapacity with 508. intros [Hi Hl].
  assert (508 * (i + 1) <= n + 508 - 1); [|lia].
  etrans; [|apply (Z.mul_div_le _ 508); lia]. lia.
Qed.

Lemma removePageID_perm ids id : id ∈ ids -> ids ≡ₚ id :: removePageID ids id.
Proof.
  induction ids as [|x ids IH]; [by intros ?%not_elem_of_nil|]. intros Hin. cbn.
  destruct (Z.eqb_spec x id) as [->|Hne]; [done|]. apply elem_of_cons in Hin as [?|Hin]; [done|].
  rewrite (IH Hin) at 1. apply Permutation_swap.
Qed.

(** The part of the allocation state that choosing list pages keeps. *)
Definition same_lists (pm pm' : pageManager) : Prop :=
  freePageIDs pm' = freePageIDs pm /\ retiredPageIDs pm' = retiredPageIDs pm /\
  pendingFreePageIDs pm' = pendingFreePageIDs pm /\ freeListPageIDs pm' = freeListPageIDs pm /\
  generation pm' = generation pm /\ pm_file pm' = pm_file pm.

Lemma nodePages_ok todo : forall i ru rec el pm,
  rec ⊆ el -> NoDup el -> NoDup rec -> 0 <= i -> ru - i <= len rec -> 0 < nextPageID pm <= maxPage + 1 ->
  (forall x, x ∈ el -> x < nextPageID pm) -> (forall x, x ∈ freePageSet pm -> x < nextPageID pm) ->
  ends (nodePages todo i ru rec el) pm (fun r pm' => exists news,
    length r.1 = todo /\ r.1 ++ r.2 ≡ₚ news ++ el /\ NoDup news /\
    (forall x, x ∈ news -> nextPageID pm <= x < nextPageID pm') /\
    nextPageID pm <= nextPageID pm' <= maxPage + 1 /\ same_lists pm pm' /\
    (ru - i <= Z.of_nat todo -> len r.2 = len el - Z.max 0 (ru - i)) /\
    (forall x, nextPageID pm <= x < nextPageID pm' -> x ∈ r.1) /\
    (forall x, x ∈ r.1 -> x ∉ freePageSet pm') /\ freePageSet pm' ⊆ freePageSet pm)
    (fun _ pm' => pm_file pm' = pm_file pm /\ maxPage + 1 < nextPageID pm + Z.of_nat todo).
Proof.
  induction todo as [|todo IH]; intros i ru rec el pm Hsub Hde Hdr Hi Hru Hn Hel Hfs; cbn [nodePages].
  { exists []. cbn [fst snd length app].
    split_and!; try done; try lia; [apply NoDup_nil_2|..]; intros; first [lia|set_solver]. }
  destruct (Z.ltb_spec i ru).
  - destruct (last rec) as [id|] eqn:El; [|apply last_None in El; subst rec; change (len (@nil Z)) with 0 in Hru; lia].
    apply last_removelast in El. set (rec' := removelast rec) in *.
    assert (Hin : id ∈ el) by (apply Hsub; rewrite El; apply elem_of_app; right; left).
    pose proof (removePageID_perm el id Hin) as Hp. rewrite El in Hdr.
    apply NoDup_app in Hdr as (Hd1 & Hd2 & _).
    eapply ends_lift; [reflexivity|]. apply ends_bind. unfold ends at 1, modify. apply ends_bind.
    assert (Hde' : NoDup (id :: removePageID el id)) by (by rewrite <- Hp). apply NoDup_cons in Hde' as [_ Hde'].
    eapply ends_mono; [eapply (IH (i + 1) ru rec' (removePageID el id))| |cbn; intros ? ? [? ?]; split; [done|lia]].
    + intros x Hx. assert (x ∈ id :: removePageID el id) as Hx'
        by (rewrite <- Hp; apply Hsub; rewrite El; apply elem_of_app; by left).
      apply elem_of_cons in Hx' as [->|?]; [|done]. exfalso. apply (Hd2 id Hx). left.
    + done.
    + done.
    + lia.
    + rewrite El, len_app in Hru. change (len [id]) with 1 in Hru. lia.
    + done.
    + intros x Hx. cbn. apply Hel. rewrite Hp. by right.
    + intros x Hx. cbn in Hx. apply elem_of_difference in Hx as [Hx _]. by apply Hfs.
    + cbn beta. intros [ids rest] pm' (news & Hl & Hpm & Hdn & Hnw & Hnx & Hsl & Hlr & Hcv & Hns & Hss). cbn [fst snd] in *.
      cbn in Hss. exists news. cbn [fst snd]. split_and!; try done; try (cbn in *; lia).
      * cbn [app]. rewrite Hpm, Permutation_middle. apply Permutation_app_head. by symmetry.
      * intros Ht. rewrite Hlr by lia. apply Permutation_length in Hp. cbn in Hp. unfold len. lia.
      * intros x Hx. right. by apply Hcv.
      * intros x [->|Hx]%elem_of_cons; [|by apply Hns]. intros [_ Hx]%Hss%elem_of_difference. apply Hx. by apply elem_of_singleton.
      * etrans; [exact Hss|apply subseteq_difference_l]. done.
  - apply ends_bind. unfold ends at 1, asks.
    destruct (decide (nextPageID pm <= maxPage)) as [Hle|Hgt].
    2:{ eapply ends_lift_err; [|split; [done|lia]]. unfold dataPageOffset. rewrite Z.gtb_ltb. unfold maxPage in *. zdecide. done. }
    eapply ends_lift; [apply dataPageOffset_ok; lia|]. apply ends_bind. unfold ends at 1, modify.
    pose proof maxPage_bound. rewrite u64_small by lia. apply ends_bind.
    eapply ends_mono; [eapply (IH (i + 1) ru rec el (set_next (nextPageID pm + 1) pm))| |cbn; intros ? ? [? ?]; split; [done|lia]]; cbn; try done; try lia.
    + intros x Hx. specialize (Hel x Hx). lia.
    + intros x Hx. specialize (Hfs x Hx). lia.
    + intros [ids rest] pm' (news & Hl & Hpm & Hdn & Hnw & Hnx & Hsl & Hlr & Hcv & Hns & Hss). cbn [fst snd] in *.
      exists (nextPageID pm :: news). split_and!; try done; try (cbn in *; lia).
      * cbn [fst snd app]. by rewrite Hpm.
      * apply NoDup_cons. split; [|done]. intros Hx. specialize (Hnw _ Hx). lia.
      * intros x Hx. apply elem_of_cons in Hx as [->|Hx]; [lia|]. specialize (Hnw x Hx). lia.
      * intros x Hx. destruct (decide (x = nextPageID pm)) as [->|]; [left|right; apply Hcv; lia].
      * intros x [->|Hx]%elem_of_cons; [|by apply Hns]. intros Hx%Hss%Hfs. lia.
Qed.

(** ** Writing the chain *)

Definition page_id (id : Z) : Prop := 0 < id < 2 ^ 64.

Definition metaFields (m : rootMetadata) : list (Z * bytes) :=
  [(metadataMagicOffset, metadataMagic); (metadataVersionOffset, le_put 2 metadataVersion);
   (metadataGenerationOffset, le_put 8 (m_generation m)); (metadataRootPageOffset, le_put 8 (m_rootPageID m));
   (metadataPageCountOffset, le_put 8 (m_pageCount m)); (metadataFreeListHeadOffset, le_put 8 (m_freeListHead m));
   (metadataFreeListTailOffset, le_put 8 (m_freeListTail m)); (metadataHeadSequenceOffset, le_put 8 (m_headSequence m));
   (metadataTailSequenceOffset, le_put 8 (m_tailSequence m)); (metadataMaxSequenceOffset, le_put 8 (m_maxSequence m))].
(** The page a checksum was taken of, with the checksum filled in. *)
Definition sealed (fs : list (Z * bytes)) (off : Z) : bytes :=
  layout (fs ++ [(off, le_put 4 (crc32 (layout fs (make pageSize))))]) (make pageSize).

Lemma encodeMetadata_layout m : encodeMetadata m = Ok (sealed (metaFields m) metadataChecksumOffset).
Proof.
  unfold encodeMetadata.
  change (put (make pageSize) metadataMagicOffset metadataMagic)
    with (@put error _ (layout [] (make pageSize)) metadataMagicOffset metadataMagic).
  rewrite put_layout; [|done|done|rewrite len_blank; discriminate].
  do 9 (rewrite putU_page by reflexivity). cbn [app]. by apply putU_page.
Qed.
Lemma encodeMetadata_ok m : exists b, encodeMetadata m = Ok b /\ len b = pageSize.
Proof.
  exists (sealed (metaFields m) metadataChecksumOffset). split; [apply encodeMetadata_layout|].
  unfold sealed. rewrite len_layout; rewrite len_blank; reflexivity.
Qed.
Lemma writeRootMetadataSlot_safe slot m f : safe (writeRootMetadataSlot slot m) f (fun _ => True).
Proof.
  unfold writeRootMetadataSlot. destruct (encodeMetadata_ok m) as (b & Hb & _).
  eapply ends_lift; [exact Hb|]. apply WriteAt_safe.
Qed.

(** ** Counting page ids *)

Lemma ids_bounded ids n : 0 < n -> NoDup ids -> (forall x, x ∈ ids -> 0 < x < n) -> len ids < n.
Proof.
  intros Hn Hd Hb. assert (Hs : ids ⊆+ seqZ 1 (n - 1)).
  { apply NoDup_submseteq; [done|]. intros x Hx. apply elem_of_seqZ. specialize (Hb x Hx). lia. }
  apply submseteq_length in Hs. rewrite length_seqZ in Hs. unfold len. lia.
Qed.
