(* ===== verification/DiskSpec.v ===== *)
(** * What the durable store leaves in its file

    The file as page-sized blocks: two metadata slots, then the data pages. File
    calls under arbitrary faults change only the blocks they are meant to
    change, in the descriptor's view and in what has been synchronised, and a
    file without faults answers every call. *)

From S2P Require Import Prelude Errors Page File FreeList PageManager PageManagerSpec KV.

(** ** Blocks *)

Definition block (d : bytes) (k : Z) : bytes := sub d (k * pageSize) pageSize.
(** The block of a data page. *)
Definition page_block (id : Z) : Z := id + 1.

Lemma page_block_off id : metadataSize + (id - 1) * pageSize = page_block id * pageSize.
Proof. unfold page_block. change metadataSize with (2 * pageSize). lia. Qed.

(** [kept n K d d']: of the blocks in the first [n] bytes of [d], [d'] has all but
    those in [K] unchanged. *)
Record kept (n : Z) (K : Z -> Prop) (d d' : bytes) : Prop := {
  kp_len : n <= len d';
  kp_same : forall k, 0 <= k -> (k + 1) * pageSize <= n -> ~ K k -> block d' k = block d k;
}.

Lemma kept_self n K d : n <= len d -> kept n K d d.
Proof. by split. Qed.
Lemma kept_trans n K d d1 d2 : kept n K d d1 -> kept n K d1 d2 -> kept n K d d2.
Proof. intros [L1 S1] [L2 S2]. split; [done|]. intros k H0 Hk Hn. by rewrite S2, S1. Qed.
Lemma kept_mono n n' (K K' : Z -> Prop) d d' :
  kept n K d d' -> n' <= n -> (forall k, K k -> K' k) -> kept n' K' d d'.
Proof. intros [L S] Hn HK. split; [lia|]. intros k H0 Hk Hn'. apply S; [done|lia|auto]. Qed.

Lemma block_write d k p : 0 <= k -> len p = pageSize -> block (write_data d (k * pageSize) p) k = p.
Proof.
  intros Hk Hp. pose proof (sub_write_same d (k * pageSize) p) as H. rewrite Hp in H.
  apply H; [unfold pageSize; lia|]. by intros ->.
Qed.
Lemma block_write_other d k j p :
  0 <= k -> 0 <= j -> j <> k -> len p <= pageSize -> (j + 1) * pageSize <= len d ->
  block (write_data d (k * pageSize) p) j = block d j.
Proof. intros. unfold block, pageSize in *. apply sub_write_other; lia. Qed.
Lemma len_write d k p :
  0 <= k -> len p = pageSize -> len (write_data d (k * pageSize) p) = Z.max (len d) ((k + 1) * pageSize).
Proof. intros Hk Hp. rewrite write_data_len by (unfold pageSize; lia). rewrite Hp. change (pageSize =? 0) with false. cbv iota. f_equal. unfold pageSize. lia. Qed.
Lemma len_write_le d k p : 0 <= k -> len d <= len (write_data d (k * pageSize) p).
Proof. intros Hk. rewrite write_data_len by (unfold pageSize; lia). destruct (_ =? 0); lia. Qed.

Lemma kept_write n (K : Z -> Prop) d k p :
  n <= len d -> 0 <= k -> K k -> len p <= pageSize -> kept n K d (write_data d (k * pageSize) p).
Proof.
  intros Hn Hk HK Hp. split; [etrans; [exact Hn|by apply len_write_le]|].
  intros j Hj Hl Hnj. apply block_write_other; try done; [by intros ->|lia].
Qed.
Lemma kept_truncate n K d m : n <= m -> n <= len d -> kept n K d (sub d 0 m ++ make (m - len d)).
Proof.
  intros Hm Hn. assert (Hl : len (sub d 0 m) = Z.min (Z.max 0 m) (len d)).
  { unfold sub, len. rewrite drop_0, length_take. lia. }
  pose proof (len_nonneg d). split; [rewrite len_app, len_make, Hl; lia|].
  intros k Hk Hkn _. unfold block. unfold pageSize in *. rewrite sub_app_l by lia. rewrite sub_sub by lia. done.
Qed.

(** ** Runs of file calls

    [runs pf I m s Q]: the run ends; whatever happens the file satisfies [I]; when
    it returns, [Q] holds; it fails only when the file has faults left, and a
    file without faults stays so. *)
Definition calm (f : file) : Prop := f_faults f = [].

Section Runs.
Context {S : Type} (pf : S -> file) (I : file -> Prop).

Definition runs {A} (m : stM S error A) (s : S) (Q : A -> S -> Prop) : Prop :=
  ends m s (fun a s' => I (pf s') /\ (calm (pf s) -> calm (pf s')) /\ Q a s')
    (fun _ s' => I (pf s') /\ ~ calm (pf s)).

Lemma runs_ret {A} (a : A) s (Q : A -> S -> Prop) : I (pf s) -> Q a s -> runs (ret a) s Q.
Proof. by repeat split. Qed.
Lemma runs_bind {A B} (m : stM S error A) (k : A -> stM S error B) s P Q :
  runs m s P -> (forall a s', I (pf s') -> P a s' -> runs (k a) s' Q) -> runs (bind m k) s Q.
Proof.
  intros Hm Hk. apply ends_bind. eapply ends_mono; [exact Hm| |done]. cbn beta. intros a s' (HI & Hc & HP).
  eapply ends_mono; [exact (Hk a s' HI HP)| |]; cbn beta.
  - intros b s2 (? & ? & ?). auto.
  - intros e s2 (? & Hn). split; [done|]. auto.
Qed.
Lemma runs_lift {A B} (m : outcome error A) (k : A -> stM S error B) s Q a :
  m = Ok a -> runs (k a) s Q -> runs (bind (lift m) k) s Q.
Proof. intros -> H. exact H. Qed.
Lemma runs_mono {A} (m : stM S error A) s (P Q : A -> S -> Prop) :
  runs m s P -> (forall a s', I (pf s') -> P a s' -> Q a s') -> runs m s Q.
Proof. intros H HPQ. eapply ends_mono; [exact H| |done]. cbn beta. intros a s' (? & ? & ?). auto. Qed.
End Runs.

(** The invariant of a file that keeps the blocks outside [K] of [d0], both as
    read and as synchronised. *)
Record intact (n : Z) (K : Z -> Prop) (d0 : bytes) (f : file) : Prop := {
  in_data : kept n K d0 (f_data f);
  in_synced : kept n K d0 (f_synced f);
}.

Abbreviation fruns := (runs (fun f : file => f)).

(** A failing write leaves a prefix of its data. *)
Lemma WriteAt_ends p pos f :
  ends (WriteAt p pos) f
    (fun _ f' => f_data f' = write_data (f_data f) pos p /\ f_synced f' = f_synced f /\ (calm f -> calm f'))
    (fun _ f' => (exists j, f_data f' = write_data (f_data f) pos (take j p)) /\ f_synced f' = f_synced f /\ ~ calm f).
Proof.
  unfold ends, WriteAt, next_fault, get_data, set_data, bind, calm.
  destruct (f_faults f) as [|[|j] fs] eqn:E; cbn; rewrite ?E; try done. split_and!; [by eexists|done|done].
Qed.
Lemma Sync_ends f :
  ends Sync f (fun _ f' => f_data f' = f_data f /\ f_synced f' = f_data f /\ (calm f -> calm f'))
    (fun _ f' => f_data f' = f_data f /\ f_synced f' = f_synced f /\ ~ calm f).
Proof.
  unfold ends, Sync, checked, next_fault, bind, calm.
  destruct (f_faults f) as [|[|j] fs] eqn:E; cbn; by rewrite ?E.
Qed.

Lemma WriteAt_runs n (K : Z -> Prop) d0 k p f :
  intact n K d0 f -> 0 <= k -> K k -> len p <= pageSize ->
  fruns (intact n K d0) (WriteAt p (k * pageSize)) f
    (fun _ f' => f_data f' = write_data (f_data f) (k * pageSize) p /\ f_synced f' = f_synced f).
Proof.
  intros [D Sy] Hk HK Hp.
  assert (W : forall q f', len q <= pageSize -> f_data f' = write_data (f_data f) (k * pageSize) q ->
    f_synced f' = f_synced f -> intact n K d0 f').
  { intros q f' Hq Hd Hs. split; [|by rewrite Hs]. rewrite Hd. eapply kept_trans; [exact D|].
    apply kept_write; try done. apply D. }
  eapply ends_mono; [apply WriteAt_ends| |]; cbn beta.
  - intros _ f' (Hd & Hs & Hc). split_and!; [by eapply W|done..].
  - intros _ f' ([j Hd] & Hs & Hc). split; [|done]. eapply W; [|done..]. unfold len in *. rewrite length_take. lia.
Qed.
Lemma Sync_runs n K d0 f :
  intact n K d0 f ->
  fruns (intact n K d0) Sync f (fun _ f' => f_data f' = f_data f /\ f_synced f' = f_data f).
Proof.
  intros [D Sy]. eapply ends_mono; [apply Sync_ends| |]; cbn beta.
  - intros _ f' (Hd & Hs & Hc). split; [split; congruence|]. split; [exact Hc|by split].
  - intros _ f' (Hd & Hs & Hc). split; [split; congruence|exact Hc].
Qed.

Lemma StatSize_runs I f :
  I f -> (forall fs, I (mkFile (f_data f) (f_synced f) fs)) -> len (f_data f) <= maxInt64 ->
  fruns I StatSize f (fun n f' => n = len (f_data f) /\ f_data f' = f_data f /\ f_synced f' = f_synced f).
Proof.
  intros HI HI' Hl. unfold runs, ends, StatSize, checked, next_fault, get_data, bind, calm.
  rewrite ?Z.gtb_ltb. destruct (f_faults f) as [|[|j] fs] eqn:E; cbn; rewrite ?Z.gtb_ltb; zdecide; cbn; rewrite ?E; done.
Qed.

(** ** Writing pages *)

Abbreviation pruns := (runs pm_file).

Definition set_file (f : file) (pm : pageManager) : pageManager :=
  mkPM f (nextPageID pm) (committedPageCount pm) (rootPageID pm) (generation pm) (freePageIDs pm)
    (retiredPageIDs pm) (pendingFreePageIDs pm) (freePageSet pm) (freeListPageIDs pm).
Lemma ends_on_file {A} (m : FM A) pm (Q : A -> pageManager -> Prop) (R : error -> pageManager -> Prop) :
  ends m (pm_file pm) (fun a f => Q a (set_file f pm)) (fun e f => R e (set_file f pm)) -> ends (on_file m) pm Q R.
Proof. unfold ends, on_file. by destruct (m (pm_file pm)) as [[] f]. Qed.
Lemma on_file_runs I {A} (m : FM A) pm Q :
  fruns I m (pm_file pm) Q ->
  pruns I (on_file m) pm (fun a pm' => Q a (pm_file pm') /\ same_alloc pm pm').
Proof.
  unfold runs, ends, on_file. destruct (m (pm_file pm)) as [[a|e| |] f]; try done.
  intros (HI & Hc & HQ). split_and!; [exact HI|exact Hc|exact HQ|done..].
Qed.

(** The contents after a list of pages was written. *)
Definition write_pages (d : bytes) (ps : list (Z * bytes)) : bytes :=
  fold_left (fun d q => write_data d (page_block q.1 * pageSize) q.2) ps d.
Definition writes (ps : list (Z * bytes)) (k : Z) : Prop := exists q, q ∈ ps /\ page_block q.1 = k.
Definition page_sized (q : Z * bytes) : Prop := 0 < q.1 <= maxPage /\ len q.2 = pageSize.

Lemma writes_cons q ps k : page_block q.1 <> k -> ~ writes ps k -> ~ writes (q :: ps) k.
Proof. intros H1 H2 (q' & [->|H]%elem_of_cons & <-); [done|]. apply H2. by exists q'. Qed.

Lemma write_pages_kept n (K : Z -> Prop) ps : forall d,
  n <= len d -> Forall page_sized ps -> (forall k, writes ps k -> K k) -> kept n K d (write_pages d ps).
Proof.
  unfold write_pages. induction ps as [|q ps IH]; intros d Hn Hps HK; cbn [fold_left]; [by apply kept_self|].
  apply Forall_cons in Hps as [[Hq Hl] Hps]. eapply kept_trans.
  - apply (kept_write n K d (page_block q.1) q.2); [done|unfold page_block; lia| |lia]. apply HK. exists q. split; [left|done].
  - apply IH; [|done|].
    + etrans; [exact Hn|]. apply len_write_le. unfold page_block. lia.
    + intros k (q' & Hq' & <-). apply HK. exists q'. split; [by right|done].
Qed.
Lemma write_pages_at ps : forall d id p,
  Forall page_sized ps -> NoDup ps.*1 -> (id, p) ∈ ps -> block (write_pages d ps) (page_block id) = p.
Proof.
  unfold write_pages. induction ps as [|q ps IH]; intros d id p Hps Hd Hin; [by apply not_elem_of_nil in Hin|].
  apply Forall_cons in Hps as [[Hq Hl] Hps]. cbn in Hd. apply NoDup_cons in Hd as [Hnq Hd]. cbn [fold_left].
  apply elem_of_cons in Hin as [<-|Hin]; [|by apply IH]. cbn [fst snd] in *.
  assert (Hpb : 0 <= page_block id) by (unfold page_block; lia).
  transitivity (block (write_data d (page_block id * pageSize) p) (page_block id)); [|by apply block_write].
  eapply (kp_same _ (writes ps)); [apply write_pages_kept; [reflexivity|done|done]|done|rewrite len_write by done; lia|].
  intros (q' & Hq' & Hk). apply Hnq, list_elem_of_fmap. exists q'. split; [|done]. unfold page_block in Hk. lia.
Qed.
Lemma write_pages_other ps d k :
  Forall page_sized ps -> 0 <= k -> (k + 1) * pageSize <= len d -> ~ writes ps k ->
  block (write_pages d ps) k = block d k.
Proof. intros. by apply (kp_same (len d) (writes ps)); [apply write_pages_kept|..]. Qed.
Lemma write_pages_len_le d ps : Forall page_sized ps -> len d <= len (write_pages d ps).
Proof. intros H. apply (kp_len _ (writes ps) d). by apply write_pages_kept. Qed.
Lemma write_pages_covers ps : forall d q, Forall page_sized ps -> q ∈ ps -> (page_block q.1 + 1) * pageSize <= len (write_pages d ps).
Proof.
  unfold write_pages. induction ps as [|q' ps IH]; intros d q Hps Hq; [by apply not_elem_of_nil in Hq|].
  apply Forall_cons in Hps as [[Hq' Hl] Hps]. cbn [fold_left]. apply elem_of_cons in Hq as [->|Hq]; [|by apply IH].
  etrans; [|by apply write_pages_len_le]. rewrite len_write by (unfold page_block; lia || done). lia.
Qed.
Lemma write_pages_bound ps B : forall d,
  Forall page_sized ps -> len d <= B -> (forall q, q ∈ ps -> (page_block q.1 + 1) * pageSize <= B) -> len (write_pages d ps) <= B.
Proof.
  unfold write_pages. induction ps as [|q ps IH]; intros d Hps Hd HB; cbn [fold_left]; [done|].
  apply Forall_cons in Hps as [[Hq Hl] Hps]. apply IH; [done| |intros q' Hq'; apply HB; by right].
  rewrite len_write by (unfold page_block; lia || done). apply Z.max_lub; [done|]. apply HB. left.
Qed.

(** The page manager lets a page be written. *)
Definition writable (pm : pageManager) (q : Z * bytes) : Prop :=
  page_sized q /\ q.1 < nextPageID pm /\ q.1 ∉ freePageSet pm.

Lemma writable_alloc pm pm' q : same_alloc pm pm' -> writable pm q -> writable pm' q.
Proof. intros (Hn & _ & _ & _ & _ & _ & _ & Hs)%same_alloc_fields. unfold writable. by rewrite Hn, Hs. Qed.

Lemma writePage_runs n (K : Z -> Prop) d0 id p pm :
  intact n K d0 (pm_file pm) -> writable pm (id, p) -> K (page_block id) ->
  pruns (intact n K d0) (writePage id p) pm (fun _ pm' => same_alloc pm pm' /\
    f_data (pm_file pm') = write_data (f_data (pm_file pm)) (page_block id * pageSize) p /\
    f_synced (pm_file pm') = f_synced (pm_file pm)).
Proof.
  intros HI ((Hid & Hl) & Hn & Hs) HK. cbn in *. unfold writePage. eapply runs_bind.
  { apply (runs_ret _ _ _ _ (fun a pm' => a = validateExistingPageID pm id /\ pm' = pm)); done. }
  cbn beta. intros v pm' _ [-> ->].
  eapply runs_lift.
  { unfold validateExistingPageID. rewrite Z.geb_leb. zdecide. by rewrite bool_decide_false. }
  rewrite Hl, Z.eqb_refl. cbn [negb]. eapply runs_lift; [by apply dataPageOffset_ok|].
  rewrite page_block_off.
  eapply runs_mono; [apply on_file_runs, (WriteAt_runs n K d0); [done|unfold page_block; lia|done|lia]|].
  cbn beta. naive_solver.
Qed.

Lemma writePages_runs n (K : Z -> Prop) d0 ps : forall pm,
  intact n K d0 (pm_file pm) -> Forall (writable pm) ps -> (forall k, writes ps k -> K k) ->
  pruns (intact n K d0) (writePages ps) pm (fun _ pm' => same_alloc pm pm' /\
    f_data (pm_file pm') = write_pages (f_data (pm_file pm)) ps /\ f_synced (pm_file pm') = f_synced (pm_file pm)).
Proof.
  induction ps as [|[id p] ps IH]; intros pm HI Hps HK; cbn [writePages].
  { apply runs_ret; [done|]. split; [apply same_alloc_refl|done]. }
  apply Forall_cons in Hps as [Hq Hps].
  eapply runs_bind; [apply (writePage_runs n K d0); [done|done|]|].
  { apply HK. exists (id, p). split; [left|done]. }
  cbn beta. intros _ pm1 HI1 (A1 & D1 & S1).
  eapply runs_mono; [apply (IH pm1); [done| |]|].
  - eapply Forall_impl; [exact Hps|]. intros q. by apply writable_alloc.
  - intros k (q & Hq' & <-). apply HK. exists q. split; [by right|done].
  - cbn beta. intros _ pm2 _ (A2 & D2 & S2). rewrite D1 in D2. split_and!; [by eapply same_alloc_trans|exact D2|congruence].
Qed.
