(* ===== verification/PublishSpec.v ===== *)
(** * Publishing a root

    [publishRoot] chooses the pages of the new free list, writes the list,
    synchronises, writes the alternate metadata slot and synchronises again.
    Whatever the file calls answer, the allocation invariant holds afterwards
    and only blocks outside the committed generation have changed before the
    slot is written. *)

From S2P Require Import Prelude Errors Page File FreeList PageManager PageManagerSpec KV DiskSpec.

(** ** The pages of a free list *)

Definition node_page (n : freeListNode) : bytes :=
  match encodeFreeListNode n with Ok b => b | _ => [] end.
(** The part of the list that chain page [i] holds. *)
Definition part (entries : list Z) (i : Z) : list Z :=
  sub entries (i * freeListPageCapacity) (Z.min freeListPageCapacity (len entries - i * freeListPageCapacity)).
Definition chain_node (ids : list Z) (i : Z) (entries : list Z) : freeListNode :=
  mkFreeListNode (default 0 (head ids)) (i * freeListPageCapacity) (part entries i).
(** The pages [ids] of a chain, from its [i]-th page on. *)
Fixpoint chain (ids : list Z) (i : Z) (entries : list Z) : list (Z * bytes) :=
  match ids with
  | [] => []
  | id :: ids => (id, node_page (chain_node ids i entries)) :: chain ids (i + 1) entries
  end.

(** Page [i] exists and has entries to list. *)
Record chain_ok (ids : list Z) (i : Z) (entries : list Z) : Prop := {
  co_ids : Forall page_id ids;
  co_entries : Forall page_id entries;
  co_index : 0 <= i;
  co_full : forall j, 0 <= j < len ids -> (i + j) * freeListPageCapacity < len entries;
  co_len : len entries < 2 ^ 64;
}.

Lemma chain_ok_tail id ids i entries : chain_ok (id :: ids) i entries -> chain_ok ids (i + 1) entries.
Proof.
  intros [H1 H2 H3 H4 H5]. apply Forall_cons in H1 as [_ H1]. split; try done; [lia|].
  intros j Hj. replace (i + 1 + j) with (i + (j + 1)) by lia. apply H4. rewrite len_cons. lia.
Qed.
Lemma chain_ok_head id ids i entries :
  chain_ok (id :: ids) i entries -> 0 <= i * freeListPageCapacity < len entries.
Proof.
  intros [_ _ H3 H4 _]. split; [change freeListPageCapacity with 508; lia|].
  specialize (H4 0). rewrite Z.add_0_r in H4. apply H4. rewrite len_cons. pose proof (len_nonneg ids). lia.
Qed.
Lemma chain_node_wf id ids i entries : chain_ok (id :: ids) i entries -> freeListNode_wf (chain_node ids i entries).
Proof.
  intros C. pose proof (chain_ok_head _ _ _ _ C) as Hs. destruct C as [H1 H2 H3 H4 H5].
  apply Forall_cons in H1 as [_ H1]. unfold chain_node, part.
  assert (Hc : 0 < freeListPageCapacity) by done.
  split; cbn [fl_pageIDs fl_next fl_sequence].
  - rewrite len_sub by lia. lia.
  - unfold uint64. destruct H1 as [|x l [? ?] _]; cbn; lia.
  - unfold uint64. lia.
  - unfold sub. apply Forall_take, Forall_drop. eapply Forall_impl; [exact H2|]. intros x [? ?]. unfold uint64. lia.
Qed.
Lemma node_page_ok n : freeListNode_wf n -> encodeFreeListNode n = Ok (node_page n) /\ len (node_page n) = pageSize.
Proof.
  intros W. unfold node_page. rewrite (encodeFreeListNode_ok n W). split; [done|].
  rewrite len_layout; [apply len_blank|]. rewrite forallb_app, nodeFields_in by done. rewrite len_blank. done.
Qed.
Lemma chain_ids ids : forall i entries, (chain ids i entries).*1 = ids.
Proof. induction ids as [|id ids IH]; intros i entries; cbn; [done|]. by rewrite IH. Qed.
Lemma chain_sized ids : forall i entries,
  chain_ok ids i entries -> Forall (fun id => id <= maxPage) ids -> Forall page_sized (chain ids i entries).
Proof.
  induction ids as [|id ids IH]; intros i entries C Hm; cbn [chain]; constructor.
  - apply Forall_cons in Hm as [Hm _]. pose proof (co_ids _ _ _ C) as [[? _] _]%Forall_cons.
    split; [cbn; lia|]. by apply node_page_ok, (chain_node_wf id).
  - apply IH; [by eapply chain_ok_tail|]. by apply Forall_cons in Hm as [_ Hm].
Qed.

(** Writing a chain is writing its pages. *)
Lemma writeChain_runs n (K : Z -> Prop) d0 ids : forall i entries pm,
  intact n K d0 (pm_file pm) -> chain_ok ids i entries ->
  Forall (fun id => id < nextPageID pm /\ id <= maxPage /\ id ∉ freePageSet pm) ids ->
  (forall id, id ∈ ids -> K (page_block id)) ->
  pruns (intact n K d0) (writeChain ids i entries) pm (fun _ pm' => same_alloc pm pm' /\
    f_data (pm_file pm') = write_pages (f_data (pm_file pm)) (chain ids i entries)).
Proof.
  induction ids as [|id ids IH]; intros i entries pm HI C Hids HK; cbn [writeChain].
  { apply runs_ret; [done|]. split; [apply same_alloc_refl|done]. }
  pose proof (chain_ok_head _ _ _ _ C) as Hs. pose proof (chain_node_wf _ _ _ _ C) as W.
  destruct (node_page_ok _ W) as [He Hl]. apply Forall_cons in Hids as [(Hn & Hm & Hf) Hids].
  pose proof (co_ids _ _ _ C) as [[Hid _] _]%Forall_cons.
  set (st := i * freeListPageCapacity) in *.
  assert (Hc : 0 < freeListPageCapacity) by done.
  eapply (runs_lift _ _ _ _ _ _ (part entries i)).
  { rewrite Z.gtb_ltb. unfold part. fold st. destruct (Z.ltb_spec (len entries) (st + freeListPageCapacity)).
    - rewrite slice_ok by lia. rewrite Z.min_r by lia. done.
    - rewrite slice_ok by lia. rewrite Z.min_l by lia. do 2 f_equal. lia. }
  eapply runs_lift; [exact He|].
  eapply runs_bind; [apply (writePage_runs n K d0 id (node_page (chain_node ids i entries)))|].
  { done. } { split; [split; [cbn; lia|exact Hl]|done]. } { apply HK. left. }
  cbn beta. intros _ pm1 HI1 (A1 & D1 & _). pose proof (same_alloc_fields _ _ A1) as (Hn1 & _ & _ & _ & _ & _ & _ & Hs1).
  eapply runs_mono; [apply (IH (i + 1) entries pm1); [done|by eapply chain_ok_tail|by rewrite Hn1, Hs1|]|].
  - intros x Hx. apply HK. by right.
  - cbn beta. intros _ pm2 _ (A2 & D2). split; [by eapply same_alloc_trans|]. by rewrite D2, D1.
Qed.

(** ** Choosing the pages of the list *)

(** Reading moves nothing. *)
Definition same_bytes (f f' : file) : Prop :=
  f_data f' = f_data f /\ f_synced f' = f_synced f /\ (calm f -> calm f').

Lemma same_bytes_refl f : same_bytes f f.
Proof. done. Qed.
Lemma same_bytes_trans f f1 f2 : same_bytes f f1 -> same_bytes f1 f2 -> same_bytes f f2.
Proof. intros (D1 & S1 & C1) (D2 & S2 & C2). split_and!; [congruence..|auto]. Qed.
Lemma intact_same n K d0 f f' : same_bytes f f' -> intact n K d0 f -> intact n K d0 f'.
Proof. intros (D & S & _) [H1 H2]. split; congruence. Qed.

Lemma ReadAt_quiet n pos f : safe (ReadAt n pos) f (same_bytes f).
Proof.
  unfold safe, ends, ReadAt, checked, next_fault, get_data, bind, same_bytes, calm.
  destruct (f_faults f) as [|[|k] fs] eqn:E; cbn; try done; destruct (_ >? _); cbn; by rewrite ?E.
Qed.
Lemma readRaw_quiet id f : safe (readRawDataPage id) f (same_bytes f).
Proof.
  unfold readRawDataPage, bind, lift, safe, ends. destruct (dataPageOffset_settles id) as [[o ->]|[e ->]]; [|apply same_bytes_refl].
  apply ReadAt_quiet.
Qed.
Lemma recyclablePages_quiet el : forall pm,
  ends (recyclablePages el) pm (fun _ pm' => same_bytes (pm_file pm) (pm_file pm')) no_err.
Proof.
  induction el as [|id el IH]; intros pm; cbn [recyclablePages]; [apply same_bytes_refl|].
  apply ends_bind. pose proof (readRaw_quiet id (pm_file pm)) as Hr. unfold safe, ends in Hr. unfold ends at 1, on_file.
  destruct (readRawDataPage id (pm_file pm)) as [[page|e| |] f1]; try done;
    (apply ends_bind; eapply ends_mono; [apply IH| |done]; cbn beta; intros rs pm2 H2;
     by eapply same_bytes_trans).
Qed.

(** The lists after [writeFreeListSnapshot]: the pages freed since the last
    publication and the old list pages are retired; free and retired pages are
    free, except those that now hold the list. *)
Record relisted (pm pm' : pageManager) : Prop := {
  rl_owned : exists news, freePageIDs pm' ++ retiredPageIDs pm' ++ freeListPageIDs pm' ≡ₚ news ++ owned pm /\
    NoDup news /\ forall x, x ∈ news -> nextPageID pm <= x < nextPageID pm';
  rl_next : nextPageID pm <= nextPageID pm' <= maxPage + 1;
  rl_retired : retiredPageIDs pm' = pendingFreePageIDs pm ++ freeListPageIDs pm;
  rl_lists : forall x, x ∈ freeListPageIDs pm' -> x ∈ freePageIDs pm ++ retiredPageIDs pm \/ nextPageID pm <= x;
  rl_new : forall x, nextPageID pm <= x < nextPageID pm' -> x ∈ freeListPageIDs pm';
  rl_count : len (freeListPageIDs pm') = chainPages (len (freePageIDs pm' ++ retiredPageIDs pm'));
}.

(** The metadata that describes the lists of a page manager. *)
Definition meta_of (gen root count : Z) (pm : pageManager) : rootMetadata :=
  mkMeta gen root count (default 0 (head (freeListPageIDs pm))) (default 0 (last (freeListPageIDs pm)))
    0 (len (freePageIDs pm ++ retiredPageIDs pm)) (len (freePageIDs pm))
    (freePageIDs pm) (retiredPageIDs pm) (freeListPageIDs pm).
Definition list_pages (pm : pageManager) : list (Z * bytes) :=
  chain (freeListPageIDs pm) 0 (freePageIDs pm ++ retiredPageIDs pm).

Lemma chainPages_mono a b : a <= b -> chainPages a <= chainPages b.
Proof. intros. unfold chainPages. apply Z.div_le_mono; [done|lia]. Qed.

(** What a successful publication leaves: the same live pages, nothing newly
    freed, and every previously owned page still owned. *)
Record published (live : gset Z) (root : Z) (pm pm' : pageManager) : Prop := {
  pb_inv : pm_inv live pm';
  pb_root : rootPageID pm' = root;
  pb_gen : generation pm' = u64 (generation pm + 1);
  pb_pending : pendingFreePageIDs pm' = [];
  pb_owned : forall id, id ∈ owned pm -> id ∈ owned pm';
}.
(** The metadata page of the committed generation, and its slot. *)
Definition commit_meta (pm : pageManager) : rootMetadata :=
  meta_of (generation pm) (rootPageID pm) (committedPageCount pm) pm.
Definition meta_page (m : rootMetadata) : bytes := sealed (metaFields m) metadataChecksumOffset.
Lemma len_meta_page m : len (meta_page m) = pageSize.
Proof. unfold meta_page, sealed. rewrite len_layout; rewrite len_blank; reflexivity. Qed.
Definition commit_slot (pm : pageManager) : Z := generation pm mod metadataSlotCount.

Section Publish.
Context (n : Z) (K : Z -> Prop) (d0 : bytes) (live : gset Z).
Context (pm : pageManager) (I : pm_inv live pm) (HI : intact n K d0 (pm_file pm)).
Hypothesis HK : forall id, id ∈ freePageIDs pm ++ retiredPageIDs pm \/ nextPageID pm <= id -> K (page_block id).

(** The file can hold no further free-list pages. *)
Definition list_full : Prop := maxPage + 1 < nextPageID pm + chainPages (len (owned pm)).

Lemma writeFreeListSnapshot_ok gen root :
  ends (writeFreeListSnapshot gen root) pm
    (fun m pm' => relisted pm pm' /\ m = meta_of gen root (nextPageID pm' - 1) pm' /\
       intact n K d0 (pm_file pm') /\ (calm (pm_file pm) -> calm (pm_file pm')) /\
       chain_ok (freeListPageIDs pm') 0 (freePageIDs pm' ++ retiredPageIDs pm') /\
       f_data (pm_file pm') = write_pages (f_data (pm_file pm)) (list_pages pm'))
    (fun _ pm' => intact n K d0 (pm_file pm') /\ (calm (pm_file pm) -> list_full)).
Proof.
  pose proof I as [Hn Hd Ho Hl Hs]. unfold writeFreeListSnapshot.
  apply ends_bind. unfold ends at 1, asks. cbn [id].
  set (el := freePageIDs pm ++ retiredPageIDs pm). set (pr := pendingFreePageIDs pm ++ freeListPageIDs pm).
  assert (Hown : owned pm = el ++ pr) by (unfold owned, el, pr; by rewrite <- !app_assoc).
  rewrite Hown in Hd, Ho. apply NoDup_app in Hd as (Hde & Hdp & Hdpr).
  assert (Hids : forall x, x ∈ el ++ pr -> page_id x).
  { intros x Hx. destruct (Ho x Hx) as [Hx' _]. pose proof maxPage_bound. unfold page_id. lia. }
  apply ends_bind. eapply ends_mono; [apply ends_and; [apply recyclablePages_ok|apply recyclablePages_quiet]| |by intros ? ? [[] _]].
  cbn beta. intros rec pm1 [[H1 Hrec] B1].
  pose proof (same_alloc_fields _ _ H1) as (Hn1 & _ & _ & Hf1 & Hr1 & Hp1 & Hl1 & Hs1).
  destruct (nodeCounts (len el + len pr) (len rec)) as [nc ru] eqn:Enc.
  pose proof (len_nonneg el). pose proof (len_nonneg pr). pose proof (len_nonneg rec).
  apply nodeCounts_spec in Enc as (Hru & Hrn & Hnc & _); [|lia..].
  apply ends_bind. eapply ends_mono; [apply (nodePages_ok (Z.to_nat nc) 0 ru rec el pm1)| |].
  { by apply sublist_subseteq. } { done. } { eapply sublist_NoDup; [exact Hde|exact Hrec]. } { lia. } { lia. } { by rewrite Hn1. }
  { intros x Hx. rewrite Hn1. apply Ho, elem_of_app. by left. }
  { intros x. rewrite Hs1, Hn1, Hs, elem_of_list_to_set.
    intros Hx. apply Ho. rewrite <- Hown. unfold owned. set_solver. }
  2:{ cbn beta. intros e pm2 [Hf Hroom]. rewrite Hf. split; [by eapply intact_same|]. intros _.
      unfold list_full. rewrite Hown, len_app, <- Hn1.
      pose proof (chainPages_mono (len el + len pr - ru) (len el + len pr)). lia. }
  cbn beta. intros [ids rest] pm2 (news & Hli & Hperm & Hdn & Hnw & Hnx & Hsl & Hlr & Hcv & Hns & _). cbn [fst snd] in *.
  specialize (Hlr ltac:(lia)). rewrite Z.sub_0_r, Z.max_r in Hlr by lia. rewrite Hn1 in Hnw, Hnx, Hcv.
  assert (Hin : forall x, x ∈ ids ++ rest -> nextPageID pm <= x < nextPageID pm2 \/ x ∈ el).
  { intros x Hx. rewrite Hperm, elem_of_app in Hx. destruct Hx as [Hx|Hx]; [left; by apply Hnw|by right]. }
  assert (Hall : forall x, x ∈ ids ++ rest -> page_id x).
  { intros x [?|Hx]%Hin; [pose proof maxPage_bound; unfold page_id; lia|]. apply Hids, elem_of_app. by left. }
  assert (Hlen : len (rest ++ pr) = len el + len pr - ru) by (rewrite len_app, Hlr; lia).
  assert (Hidl : len ids = chainPages (len (rest ++ pr))) by (rewrite Hlen, <- Hnc; unfold len; lia).
  assert (C : chain_ok ids 0 (rest ++ pr)).
  { split.
    - apply Forall_forall. intros x Hx. apply Hall, elem_of_app. by left.
    - apply Forall_forall. intros x Hx. apply elem_of_app in Hx as [Hx|Hx];
        [apply Hall, elem_of_app; by right|apply Hids, elem_of_app; by right].
    - done.
    - intros j Hj. apply chainPages_last. lia.
    - assert (Hle : len (el ++ pr) < nextPageID pm).
      { apply ids_bounded; [lia| |intros x Hx; by apply Ho]. apply NoDup_app. done. }
      rewrite Hlen. rewrite len_app in Hle. pose proof maxPage_bound. lia. }
  destruct Hsl as (_ & _ & _ & _ & _ & Hfile).
  assert (B2 : same_bytes (pm_file pm) (pm_file pm2)) by (by rewrite Hfile).
  apply ends_bind. eapply ends_mono; [apply (writeChain_runs n K d0 ids 0 (rest ++ pr) pm2)| |].
  { by eapply intact_same. } { exact C. }
  { apply Forall_forall. intros x Hx. split_and!; [| |by apply Hns].
    - destruct (Hin x) as [?|Hx']; [apply elem_of_app; by left|lia|].
      destruct (Ho x) as [? _]; [apply elem_of_app; by left|lia].
    - destruct (Hin x) as [?|Hx']; [apply elem_of_app; by left|lia|].
      destruct (Ho x) as [? _]; [apply elem_of_app; by left|lia]. }
  { intros x Hx. apply HK. destruct (Hin x) as [?|Hx']; [apply elem_of_app; by left|right; lia|by left]. }
  2:{ cbn beta. intros e pm3 [HI3 Hc]. split; [done|]. intros Hcalm. exfalso. by apply Hc, B2. }
  cbn beta. intros a pm3 (HI3 & Hc3 & H3 & D3). pose proof (same_alloc_fields _ _ H3) as (Hn3 & _).
  apply ends_bind. unfold ends at 1, modify. apply ends_bind. unfold ends at 1, asks. unfold ends, ret.
  split_and!.
  - split; cbn; rewrite ?Hn3; try done; try lia.
    + exists news. split_and!; try done. rewrite Hown.
      rewrite (Permutation_app_comm pr ids), app_assoc, (Permutation_app_comm rest ids), Hperm. by rewrite <- app_assoc.
    + intros x Hx. destruct (Hin x) as [?|Hx']; [apply elem_of_app; by left|right; lia|by left].
  - unfold meta_of. cbn. rewrite Hn3. rewrite u64_small; [done|]. pose proof maxPage_bound. lia.
  - done.
  - cbn. intros Hcalm. by apply Hc3, B2.
  - exact C.
  - cbn. rewrite D3. unfold list_pages. cbn. by rewrite (proj1 B2).
Qed.

(** The generation a publication is about to install: [d1] is the file with the
    new free list written, before the metadata slot is. *)
Record publication (root : Z) (pm' : pageManager) (d1 : bytes) : Prop := {
  pu_published : published live root pm pm';
  pu_lists : relisted pm pm';
  pu_chain : chain_ok (freeListPageIDs pm') 0 (freePageIDs pm' ++ retiredPageIDs pm');
  pu_count : committedPageCount pm' = nextPageID pm' - 1;
  pu_data : d1 = write_pages (f_data (pm_file pm)) (list_pages pm');
  pu_kept : kept n K d0 d1;
}.

Lemma relisted_inv pm1 root gen :
  relisted pm pm1 -> pm_inv live (set_commit root gen (nextPageID pm1 - 1) pm1).
Proof.
  intros [(news & Hperm & Hdn & Hnw) Hnx _ _ _ _]. pose proof I as [Hn Hd Ho Hl Hs].
  assert (Hown : owned (set_commit root gen (nextPageID pm1 - 1) pm1) ≡ₚ news ++ owned pm).
  { unfold owned at 1. cbn. exact Hperm. }
  split; try done.
  - cbn. lia.
  - rewrite Hown. apply NoDup_app. split_and!; [done| |done]. intros x Hx Hx'. specialize (Hnw x Hx).
    destruct (Ho x Hx') as [? _]. lia.
  - intros x Hx. cbn. rewrite Hown, elem_of_app in Hx. destruct Hx as [Hx|Hx].
    + specialize (Hnw x Hx). split; [lia|]. intros Hx'%Hl. lia.
    + destruct (Ho x Hx). split; [lia|done].
  - intros x Hx. cbn. specialize (Hl x Hx). lia.
Qed.

Lemma publication_file root pm' d1 f : publication root pm' d1 -> publication root (set_file f pm') d1.
Proof.
  intros [[P1 P2 P3 P4 P5] [L1 L2 L3 L4 L5 L6] Ch C D Kp]. split; try assumption; split; try assumption.
  by destruct P1; split.
Qed.

(** The file holds the new generation with the first [j] bytes of its metadata
    page written; nothing of that page has been synchronised. *)
Definition slot_torn (root : Z) (f : file) : Prop := exists pm' d1 j, publication root pm' d1 /\
  f_data f = write_data d1 (commit_slot pm' * pageSize) (take j (meta_page (commit_meta pm'))) /\ f_synced f = d1.

Lemma publishRoot_runs root :
  root = 0 \/ root ∈ live ->
  ends (publishRoot root) pm
    (fun _ pm' => exists d1, publication root pm' d1 /\
       f_data (pm_file pm') = write_data d1 (commit_slot pm' * pageSize) (meta_page (commit_meta pm')) /\
       f_synced (pm_file pm') = f_data (pm_file pm') /\ (calm (pm_file pm) -> calm (pm_file pm')))
    (fun _ pm' => (intact n K d0 (pm_file pm') \/ slot_torn root (pm_file pm')) /\ (calm (pm_file pm) -> list_full)).
Proof.
  intros Hroot. pose proof I as [Hn Hd Ho Hl Hs]. unfold publishRoot.
  apply ends_bind. unfold ends at 1, asks. cbn [id].
  assert (Hro : root ∉ owned pm).
  { intros H. destruct Hroot as [->|Hr]; destruct (Ho _ H) as [H1 H2]; [lia|done]. }
  eapply ends_lift.
  { destruct Hroot as [->|Hr]; [reflexivity|]. destruct (root =? 0); [reflexivity|]. by apply (validateExisting_ok live). }
  unfold owned in Hro. rewrite !containsPageID_false by set_solver. cbn [orb]. rewrite andb_false_r.
  set (gen := u64 (generation pm + 1)).
  apply ends_bind. eapply ends_mono; [apply writeFreeListSnapshot_ok| |].
  2:{ cbn beta. intros e pm1 [? ?]. split; [by left|done]. }
  cbn beta. intros m pm1 (L1 & -> & I1 & C1 & Ch1 & D1).
  set (pmN := set_commit root gen (nextPageID pm1 - 1) pm1).
  assert (P : publication root pmN (f_data (pm_file pm1))).
  { split; [|by destruct L1 as [? ? ? ? ? ?]; split|exact Ch1|reflexivity|exact D1|apply I1].
    split; try reflexivity; [by apply relisted_inv|]. intros x Hx. destruct L1 as [(news & Hperm & _) _ _ _ _ _].
    unfold owned at 1. cbn. rewrite Hperm, elem_of_app. by right. }
  apply ends_bind, ends_on_file. eapply ends_mono; [apply Sync_ends| |]; cbn beta.
  2:{ intros e f2 (? & ? & Hnc). split; [left; by destruct I1; split; cbn; congruence|]. intros Hc. exfalso. auto. }
  intros _ f2 (D2 & S2 & C2).
  apply ends_bind, ends_on_file. unfold writeRootMetadataSlot. rewrite encodeMetadata_layout. eapply ends_lift; [reflexivity|].
  eapply ends_mono; [apply WriteAt_ends| |]; cbn beta.
  2:{ intros e f3 ([j D3] & S3 & Hnc). split; [right|intros Hc; exfalso; auto].
      exists pmN, (f_data (pm_file pm1)), j. split_and!; [exact P|cbn [pm_file set_file]; rewrite D3; cbn [pm_file set_file]; rewrite D2; reflexivity|].
      cbn [pm_file set_file] in *. congruence. }
  intros _ f3 (D3 & S3 & C3). cbn [pm_file set_file] in D3, S3, C3.
  apply ends_bind, ends_on_file. eapply ends_mono; [apply Sync_ends| |]; cbn beta; cbn [pm_file set_file].
  2:{ intros e f4 (D4 & S4 & Hnc). split; [right|intros Hc; exfalso; auto].
      exists pmN, (f_data (pm_file pm1)), (Z.to_nat pageSize). split_and!; [exact P| |congruence].
      rewrite D4, D3, D2. rewrite take_ge; [reflexivity|]. apply Nat2Z.inj_le. fold (len (meta_page (commit_meta pmN))).
      rewrite len_meta_page. done. }
  intros _ f4 (D4 & S4 & C4). unfold ends, modify.
  exists (f_data (pm_file pm1)). split_and!; cbn [pm_file set_commit set_file m_pageCount meta_of]; [|rewrite D4, D3, D2; reflexivity|congruence|auto].
  exact (publication_file root pmN _ f4 P).
Qed.
End Publish.

(** Without an invariant of the file to keep. *)
Lemma intact_any d0 f : intact 0 (fun _ => True) d0 f.
Proof. split; (split; [apply len_nonneg|]); by intros k ? ? []. Qed.
Lemma publishRoot_ok live root pm :
  pm_inv live pm -> root = 0 \/ root ∈ live ->
  ends (publishRoot root) pm (fun _ pm' => published live root pm pm') (fun _ _ => True).
Proof.
  intros I Hroot. eapply ends_mono; [apply (publishRoot_runs 0 (fun _ => True) [] live pm I (intact_any _ _)); done| |done].
  cbn beta. intros _ pm' (d1 & [P _ _ _ _ _] & _). exact P.
Qed.
