(* ===== verification/KVSpec.v ===== *)
(** * Correctness of the durable store in memory

    The callbacks of a running update implement the [PageStore] interface; every
    update either installs exactly the changed contents or leaves the store as
    it was, whatever the file operations answer. *)

From S2P Require Import Prelude KvList Errors Page PageTree PageNodeSpec PageTreeSpec PageInsertSpec.
From S2P Require Import PageRangeSpec PageDeleteSpec File FreeList PageManager PageManagerSpec PublishSpec KV.

(** ** The update callbacks as a page store *)

(** The pages a running update still uses: loaded or allocated, and not freed. *)
Definition visible (w : work) : gmap Z bytes :=
  filter (fun p => p.1 ∉ pendingFreePageIDs (w_pm w)) (w_working w).
Record work_room (w : work) (n : nat) : Prop := {
  wr_err : w_err w = None;
  wr_inv : pm_inv (dom (visible w)) (w_pm w);
  wr_room : Z.of_nat n <= pm_room (w_pm w);
}.

Lemma visible_lookup w id b :
  visible w !! id = Some b <-> w_working w !! id = Some b /\ id ∉ pendingFreePageIDs (w_pm w).
Proof. unfold visible. by rewrite map_lookup_filter_Some. Qed.

(** A further invariant of a running update: a predicate that allocating,
    freeing and moving the root keep. *)
Class WorkInv (X : work -> nat -> Prop) := {
  wi_le : forall w n n', (n <= n')%nat -> X w n' -> X w n;
  wi_new : forall p w n, work_room w (S n) -> X w (S n) -> len p = pageSize ->
    ends (work_new p) w (fun _ w' => X w' n) no_err;
  wi_del : forall id w n, is_Some (visible w !! id) -> work_room w n -> X w n ->
    ends (work_del id) w (fun _ w' => X w' n) no_err;
  wi_root : forall w root n, X w n -> X (mkWork (w_pm w) root (w_working w) (w_pending w) (w_err w)) n;
}.
Definition wroom (X : work -> nat -> Prop) (w : work) (n : nat) : Prop := work_room w n /\ X w n.

Lemma work_new_ok p w n :
  work_room w (S n) -> len p = pageSize ->
  ends (work_new p) w (fun id w' => 0 < id < 2 ^ 64 /\ visible w !! id = None /\
    visible w' = <[id := p]> (visible w) /\ work_room w' n) no_err.
Proof.
  intros [He Hi Hr] Hp. unfold ends. unfold work_new. rewrite He.
  destruct (reservePage_ok _ _ Hi) as (id & pm' & -> & Hid & Hil & Hio & Hi' & Hrm & Hpd); [lia|].
  assert (Hnp : id ∉ pendingFreePageIDs pm') by (unfold owned in Hio; set_solver).
  assert (Hv : visible (mkWork pm' (w_root w) (<[id := p]> (w_working w)) (<[id := p]> (w_pending w)) None) =
    <[id := p]> (visible w)).
  { unfold visible. cbn. rewrite <- Hpd. by rewrite map_filter_insert_True. }
  split; [done|]. split; [by apply not_elem_of_dom|]. split; [done|]. split; [done| |cbn; lia].
  rewrite Hv, dom_insert_L. done.
Qed.
Lemma work_del_ok id w n :
  is_Some (visible w !! id) -> work_room w n ->
  ends (work_del id) w (fun _ w' => visible w' = base.delete id (visible w) /\ work_room w' n) no_err.
Proof.
  intros Hid [He Hi Hr]. unfold ends. unfold work_del. rewrite He.
  apply elem_of_dom in Hid. destruct (freePage_ok _ _ _ Hi Hid) as (pm' & -> & Hi' & Hrm & Hpd).
  assert (Hv : visible (mkWork pm' (w_root w) (w_working w) (w_pending w) None) = base.delete id (visible w)).
  { apply map_eq. intros j. apply option_eq. intros b. rewrite lookup_delete_Some, !visible_lookup. cbn.
    rewrite Hpd, not_elem_of_app, list_elem_of_singleton. naive_solver. }
  split; [done|]. split; [done| |cbn; lia]. rewrite Hv, dom_delete_L. done.
Qed.

Lemma work_room_le w n n' : (n <= n')%nat -> work_room w n' -> work_room w n.
Proof. intros Hn [? ? ?]. split; [done..|lia]. Qed.

(** No further invariant. *)
Definition any_work (w : work) (n : nat) : Prop := True.
#[global] Instance any_work_inv : WorkInv any_work.
Proof.
  split; try done.
  - intros p w n Hr _ Hp. eapply ends_mono; [by apply (work_new_ok p w n)|done|done].
  - intros id w n Hid Hr _. eapply ends_mono; [by apply (work_del_ok id w n)|done|done].
Qed.
Lemma wroom_any w n : work_room w n <-> wroom any_work w n.
Proof. unfold wroom, any_work. tauto. Qed.

(** The running update's tree holds [kvs], in all the pages it still uses. *)
Definition work_tree (w : work) (h : nat) (kvs : list kv) : Prop :=
  tree (visible w) h (w_root w) kvs (dom (visible w)).

Section WithInv.
Context (X : work -> nat -> Prop) {HX : WorkInv X}.

Lemma wroom_le w n n' : (n <= n')%nat -> wroom X w n' -> wroom X w n.
Proof. intros Hn [? ?]. split; [by eapply work_room_le|by apply (wi_le w n n')]. Qed.

Program Definition work_store : PageStore work_cb := {|
  pages := visible;
  room := wroom X;
|}.
Next Obligation. done. Qed.
Next Obligation. intros w n n' Hn. by apply wroom_le. Qed.
Next Obligation.
  intros id b w [Hb _]%visible_lookup. unfold ends. cbn. unfold work_get. by rewrite Hb.
Qed.
Next Obligation.
  intros p w n [Hw Hx] Hp. eapply ends_mono; [apply ends_and; [by apply (work_new_ok p w n)|by apply wi_new]| |by intros ? ? [? _]].
  cbn beta. intros id w' [(? & ? & ? & ?) ?]. split; [done|]. split; [done|]. split; [done|by split].
Qed.
Next Obligation.
  intros id w n Hid [Hw Hx]. eapply ends_mono; [apply ends_and; [by apply (work_del_ok id w n)|by apply wi_del]| |by intros ? ? [? _]].
  cbn beta. intros u w' [(? & ?) ?]. split; [done|by split].
Qed.
#[local] Existing Instance work_store.
Lemma wroom_root w root n : wroom X w n -> wroom X (mkWork (w_pm w) root (w_working w) (w_pending w) (w_err w)) n.
Proof. intros [[? ? ?] Hx]. split; [by split|by apply (wi_root w)]. Qed.

(** ** Tree updates inside a change *)

Lemma updated_dom w w' F' :
  updated work_cb w w' (dom (visible w)) F' -> F' = dom (visible w').
Proof. intros U. pose proof (up_dom _ _ _ _ _ U) as E. cbn in E. rewrite E. set_solver. Qed.

Lemma treeInsert_ok fuel key value w h kvs k :
  work_tree w h kvs -> (h < fuel)%nat -> key <> [] -> len key <= maxKeySize -> len value <= maxValueSize ->
  wroom X w (3 * h + 4 + k) ->
  ends (treeInsert fuel key value) w (fun _ w' => exists h', (h' <= S h)%nat /\
    work_tree w' h' (kv_set key value kvs) /\ wroom X w' k) no_err.
Proof.
  intros T Hf Hk Hlk Hlv Hr. unfold treeInsert. apply ends_bind. unfold ends at 1, asks. apply ends_bind.
  eapply ends_mono; [apply (insert_ok (PS := work_store) work_cb h fuel (w_root w) key value kvs _ w k T Hf Hk Hlk Hlv Hr)| |done].
  cbn beta. intros root' w1 (h' & F' & Hh & T' & _ & U & Hr'). unfold ends, set_root.
  exists h'. split; [done|]. rewrite (updated_dom _ _ _ U) in T'. split; [exact T'|].
  by apply wroom_root.
Qed.

Lemma treeDelete_ok fuel key w h kvs k :
  work_tree w h kvs -> (h < fuel)%nat -> key <> [] -> len key <= maxKeySize -> wroom X w (S h + k) ->
  ends (treeDelete fuel key) w (fun deleted w' => exists h', (h' <= h)%nat /\
    deleted = bool_decide (is_Some (kv_get key kvs)) /\
    work_tree w' h' (kv_del key kvs) /\ wroom X w' k)
    (fun e w' => wroom X w' 0 /\ e = ENodeExceedsPage /\ separator_grows (visible w) (dom (visible w)) key kvs).
Proof.
  intros T Hf Hk Hlk Hr. unfold treeDelete. apply ends_bind. unfold ends at 1, asks. apply ends_bind.
  eapply ends_mono; [apply (delete_ok (PS := work_store) work_cb h fuel (w_root w) key kvs _ w k T Hf Hk Hlk Hr)| |by intros e w' [(-> & _ & ?) ?]].
  cbn beta. intros [root' d] w1 H. destruct (kv_get key kvs) as [v|] eqn:E.
  - destruct H as (h' & F' & Hh & Hd & T' & U & Hr'). cbn [fst snd] in *. subst d. unfold ends, bind, set_root, ret.
    exists h'. split; [done|]. split; [done|]. rewrite (updated_dom _ _ _ U) in T'. split; [exact T'|].
    by apply wroom_root.
  - destruct H as [[= -> ->] [Hp Hrm]]. unfold ends, bind, set_root, ret. exists h. split; [done|].
    split; [done|]. rewrite (kv_del_absent key kvs E). cbn in Hp. split.
    + unfold work_tree, visible in *. cbn in *. rewrite Hp. exact T.
    + assert (Hr' : wroom X w1 k) by (apply Hrm; eapply wroom_le; [|exact Hr]; lia).
      by apply wroom_root.
Qed.

(** What a mutation does to the contents. *)
Definition apply_mutation (kvs : list kv) (m : Mutation) : list kv :=
  if mu_delete m then kv_del (mu_key m) kvs else kv_set (mu_key m) (mu_value m) kvs.
Definition apply_batch (kvs : list kv) (ms : list Mutation) : list kv := fold_left apply_mutation ms kvs.
Definition mutation_ok (m : Mutation) : Prop :=
  mu_key m <> [] /\ len (mu_key m) <= maxKeySize /\ (mu_delete m = false -> len (mu_value m) <= maxValueSize).
(** Allocations that [n] mutations of a tree of height [h] can need. *)
Definition batch_room (h n : nat) : nat := n * (3 * (h + n) + 4).

#[global] Instance mutation_ok_dec m : Decision (mutation_ok m).
Proof. unfold mutation_ok. apply _. Defined.

(** An illegal entry is refused before the tree is touched, so a step that
    returns was legal. *)
Lemma treeInsert_any fuel key value w h kvs k :
  work_tree w h kvs -> (h < fuel)%nat -> wroom X w (3 * h + 4 + k) ->
  ends (treeInsert fuel key value) w (fun _ w' => mutation_ok (mkMutation key value false) /\
    (exists h', (h' <= S h)%nat /\ work_tree w' h' (kv_set key value kvs) /\ wroom X w' k))
    (fun _ w' => wroom X w' 0 /\ ~ mutation_ok (mkMutation key value false)).
Proof.
  intros T Hf Hr. pose proof (wroom_le _ 0 _ (Nat.le_0_l _) Hr) as Hr0. destruct (decide (mutation_ok (mkMutation key value false))) as [Hm|Hm].
  - destruct Hm as (Hk & Hlk & Hlv). eapply ends_mono; [apply (treeInsert_ok fuel key value w h kvs k); try done; by apply Hlv| |by intros ? ? []].
    cbn beta. intros _ w' H. done.
  - unfold treeInsert, insert, validateTreeEntry, ends, bind, asks, lift.
    destruct (len key =? 0) eqn:E1; [by split|]. destruct (len key >? _) eqn:E2; [by split|].
    destruct (len value >? _) eqn:E3; [by split|]. exfalso. apply Hm. zbool. unfold mutation_ok. cbn [mu_key mu_value mu_delete].
    split; [by intros ->|]. split; [lia|intros _; lia].
Qed.
Lemma treeDelete_any fuel key value w h kvs k :
  work_tree w h kvs -> (h < fuel)%nat -> wroom X w (S h + k) ->
  ends (treeDelete fuel key) w (fun deleted w' => mutation_ok (mkMutation key value true) /\
    deleted = bool_decide (is_Some (kv_get key kvs)) /\
    exists h', (h' <= h)%nat /\ work_tree w' h' (kv_del key kvs) /\ wroom X w' k)
    (fun e w' => wroom X w' 0 /\ (mutation_ok (mkMutation key value true) ->
       e = ENodeExceedsPage /\ separator_grows (visible w) (dom (visible w)) key kvs)).
Proof.
  intros T Hf Hr. pose proof (wroom_le _ 0 _ (Nat.le_0_l _) Hr) as Hr0. destruct (decide (mutation_ok (mkMutation key value true))) as [Hm|Hm].
  - destruct Hm as (Hk & Hlk & _). eapply ends_mono; [by apply (treeDelete_ok fuel key w h kvs k)| |by intros e w' [? ?]; split].
    cbn beta. intros d w' (h' & ? & ? & ?). split; [done|]. split; [done|]. by exists h'.
  - unfold treeDelete, delete, ends, bind, asks, lift.
    destruct (len key =? 0) eqn:E1; [by split|]. destruct (len key >? _) eqn:E2; [by split|].
    exfalso. apply Hm. zbool. unfold mutation_ok. cbn [mu_key mu_value mu_delete].
    split; [by intros ->|]. split; [lia|done].
Qed.

(** One of the mutations deletes a key whose next key is longer at that point. *)
Definition stuck (ms : list Mutation) (kvs : list kv) : Prop := exists ms1 m ms2,
  ms = ms1 ++ m :: ms2 /\ mu_delete m = true /\ outgrown (mu_key m) (apply_batch kvs ms1).
(** Legal mutations fail only when such a deletion overfills a node. *)
Definition batch_err (ms : list Mutation) (kvs : list kv) (e : error) : Prop :=
  Forall mutation_ok ms -> e = ENodeExceedsPage /\ stuck ms kvs.
Lemma batch_err_cons m ms kvs e : batch_err ms (apply_mutation kvs m) e -> batch_err (m :: ms) kvs e.
Proof.
  intros H [_ Hms]%Forall_cons. destruct (H Hms) as [-> (ms1 & m' & ms2 & -> & Hd & Ho)]. split; [done|].
  by exists (m :: ms1), m', ms2.
Qed.

Lemma batchLoop_ok fuel ms : forall changed w h kvs k,
  work_tree w h kvs -> (h + length ms < fuel)%nat -> wroom X w (batch_room h (length ms) + k) ->
  ends (batchLoop fuel ms changed) w (fun r w' => exists h', (h' <= h + length ms)%nat /\
    Forall mutation_ok ms /\ work_tree w' h' (apply_batch kvs ms) /\ wroom X w' k /\
    (r = false -> changed = false /\ apply_batch kvs ms = kvs))
    (fun e w' => wroom X w' 0 /\ batch_err ms kvs e).
Proof.
  induction ms as [|[key value del] ms IH]; intros changed w h kvs k T Hf Hr; cbn [batchLoop mu_delete mu_key mu_value].
  { exists h. cbn in *. split_and!; try done; lia. }
  cbn [length] in *.
  assert (Hroom : (3 * h + 4 + (batch_room (S h) (length ms) + k) <= batch_room h (S (length ms)) + k)%nat)
    by (unfold batch_room; nia).
  unfold apply_batch. cbn [fold_left]. unfold apply_mutation at 2 4. cbn [mu_delete mu_key mu_value]. destruct del; apply ends_bind.
  - eapply ends_mono; [apply (treeDelete_any fuel key value w h kvs (batch_room h (length ms) + k) T)| |];
      [lia|eapply wroom_le; [|exact Hr]; unfold batch_room in *; nia| |].
    2:{ cbn beta. intros e w1 [Hr0 He]. split; [done|]. intros [Hm _]%Forall_cons. destruct (He Hm) as [-> Hg]. split; [done|].
        exists [], (mkMutation key value true), ms. split; [done|]. split; [done|]. by eapply separator_grows_outgrown. }
    cbn beta. intros d w1 (Hm & -> & h1 & Hh1 & T1 & Hr1).
    eapply ends_mono; [apply (IH _ w1 h1 (kv_del key kvs) k T1); [lia|eapply wroom_le; [|exact Hr1]; unfold batch_room; nia]| |by intros e w2 [? He]; split; [|apply batch_err_cons, He]].
    cbn beta. intros r w2 (h2 & Hh2 & Hms & T2 & Hr2 & Hc). exists h2. split_and!; [lia|by constructor|exact T2|done|].
    intros Hfalse. destruct (Hc Hfalse) as [Hch He]. apply orb_false_iff in Hch as [? Hd].
    split; [done|]. unfold apply_batch in He. rewrite He. apply kv_del_absent.
    destruct (kv_get key kvs); [|done]. by rewrite bool_decide_true in Hd.
  - eapply ends_mono; [apply (treeInsert_any fuel key value w h kvs (batch_room (S h) (length ms) + k) T)| |];
      [lia|eapply wroom_le; [|exact Hr]; lia| |].
    2:{ cbn beta. intros e w1 [Hr0 He]. split; [done|]. intros [Hm _]%Forall_cons. by destruct He. }
    cbn beta. intros _ w1 (Hm & h1 & Hh1 & T1 & Hr1).
    eapply ends_mono; [apply (IH true w1 h1 (kv_set key value kvs) k T1); [lia|eapply wroom_le; [|exact Hr1]; unfold batch_room; nia]| |by intros e w2 [? He]; split; [|apply batch_err_cons, He]].
    cbn beta. intros r w2 (h2 & Hh2 & Hms & T2 & Hr2 & Hc). exists h2. split_and!; [lia|by constructor|exact T2|done|].
    intros Hfalse. by destruct (Hc Hfalse).
Qed.

End WithInv.

(** ** Reachable pages *)

Definition restrict (F : gset Z) (m : gmap Z bytes) : gmap Z bytes := filter (fun p => p.1 ∈ F) m.

Lemma restrict_lookup F m id : restrict F m !! id = if decide (id ∈ F) then m !! id else None.
Proof.
  unfold restrict. apply option_eq. intros b. rewrite map_lookup_filter_Some. cbn.
  destruct (decide (id ∈ F)); naive_solver.
Qed.
Lemma restrict_union A B m : restrict A m ∪ restrict B m = restrict (A ∪ B) m.
Proof.
  apply map_eq. intros id. rewrite lookup_union, !restrict_lookup.
  destruct (decide (id ∈ A)), (decide (id ∈ B)), (decide (id ∈ A ∪ B)); try set_solver;
    by destruct (m !! id).
Qed.
Lemma restrict_insert F m id b : m !! id = Some b -> <[id := b]> (restrict F m) = restrict ({[id]} ∪ F) m.
Proof.
  intros Hb. apply map_eq. intros j. rewrite restrict_lookup. destruct (decide (j = id)) as [->|Hne].
  - rewrite lookup_insert_eq, decide_True by set_solver. done.
  - rewrite lookup_insert_ne, restrict_lookup by done.
    destruct (decide (j ∈ F)); [rewrite decide_True|rewrite decide_False]; set_solver.
Qed.
Lemma dom_restrict F m : F ⊆ dom m -> dom (restrict F m) = F.
Proof.
  intros Hs. apply set_eq. intros id. rewrite elem_of_dom, restrict_lookup.
  destruct (decide (id ∈ F)) as [Hi|Hi]; [|split; [by intros []|done]].
  split; [done|]. intros _. apply elem_of_dom. by apply Hs.
Qed.

(** [reachablePageMap] keeps exactly the pages of the tree. *)
Lemma reachable_ok M h : forall fuel e kvs F,
  rep M (S h) [e] kvs F -> (h < fuel)%nat -> e_ptr e <> 0 ->
  reachablePageMap fuel M (e_ptr e) = Ok (restrict F M).
Proof.
  induction h as [|h IH]; intros [|fuel] e kvs F R Hf Hp; try lia;
    apply rep_one in R as (b & ces & F1 & Hb & P & Hne & _ & R & Hnin & ->);
    cbn [reachablePageMap]; zdecide; rewrite Hb; cbn [default from_option]; unfold id; pose proof P as [B _];
    rewrite (built_btype B); cbn [ty_of].
  - change (nodeTypeLeaf =? nodeTypeInternal) with false. cbv iota. inversion R; subst.
    rewrite <- insert_empty. f_equal. rewrite <- (restrict_insert ∅ M _ b Hb). f_equal.
    apply map_eq. intros j. by rewrite restrict_lookup, decide_False, lookup_empty by set_solver.
  - rewrite Z.eqb_refl, (built_nkeys B).
    assert (Hch : forall suf pre Fs ks, ces = pre ++ suf -> rep M (S h) suf ks Fs ->
      reachableChildren (reachablePageMap fuel M) (length suf) b (len pre) = Ok (restrict Fs M)).
    { induction suf as [|c suf IHs]; intros pre Fs ks Hces Rs; cbn [length reachableChildren].
      - apply rep_empty in Rs as [_ ->]. f_equal. apply map_eq. intros j.
        by rewrite restrict_lookup, decide_False, lookup_empty by set_solver.
      - apply (rep_app _ _ [c] suf) in Rs as (k1 & k2 & Fa & Fb & R1 & R2 & _ & -> & ->).
        assert (Hl : ces !! length pre = Some c) by (by rewrite Hces, list_lookup_middle).
        pose proof (built_bounds B) as Hbb. pose proof (lookup_lt_Some _ _ _ Hl) as Hlt.
        assert (Hu : u16 (len pre) = len pre) by (apply u16_small; unfold len in *; lia).
        rewrite Hu. rewrite (built_getPtr B _ _ Hl : getPtr b (len pre) = _).
        assert (Hcp : e_ptr c <> 0).
        { destruct (built_sizes B _ _ Hl) as [(_&_&_&_&[[? _]|(_&?&_)]) _]; done. }
        rewrite (IH fuel c k1 Fa R1) by (lia || done).
        assert (Hpl : len pre + 1 = len (pre ++ [c])) by (by rewrite len_app). rewrite Hpl.
        rewrite (IHs (pre ++ [c]) Fb k2); [|by rewrite <- app_assoc|done]. by rewrite restrict_union. }
    replace (Z.to_nat (len ces)) with (length ces) by (unfold len; lia).
    rewrite (Hch ces [] F1 kvs eq_refl R : reachableChildren _ _ _ 0 = _). by rewrite (restrict_insert F1 M _ b Hb).
Qed.

(** ** Updates *)

(** The committed state of a store: its pages are exactly the pages of a tree
    with contents [kvs], and the allocation state protects them. *)
Record kv_rep (db : KV) (h : nat) (kvs : list kv) : Prop := {
  kr_tree : tree (k_pages db) h (k_root db) kvs (dom (k_pages db));
  kr_inv : pm_inv (dom (k_pages db)) (k_pm db);
}.

Lemma restore_inv live pm pm' : pm_inv live pm -> pm_inv live (restore (snapshot pm) pm').
Proof. intros [? ? ? ? ?]. by split. Qed.

Lemma rollback_rep db pm size h kvs : kv_rep db h kvs -> kv_rep (rollback db pm size) h kvs.
Proof.
  intros [T I]. split; [exact T|]. cbn.
  pose proof (on_file_safe (Truncate size) (restore (snapshot (k_pm db)) pm) (Truncate_safe _ _)) as H.
  unfold safe, ends in H.
  destruct (on_file (Truncate size) (restore (snapshot (k_pm db)) pm)) as [[] pm1]; try done;
    (eapply pm_inv_alloc; [by apply restore_inv|exact H]).
Qed.

Lemma writePages_safe ps : forall pm, safe (writePages ps) pm (same_alloc pm).
Proof.
  induction ps as [|[id p] ps IH]; intros pm; cbn [writePages]; [apply same_alloc_refl|].
  eapply (safe_bind _ _ _ (same_alloc pm)); [apply writePage_safe|done|]. intros _ pm1 H1.
  eapply ends_mono; [apply (IH pm1)| |]; cbn; intros; by eapply same_alloc_trans.
Qed.
Lemma writeSync_safe ps pm : safe (_ <~ writePages ps ;; on_file Sync) pm (same_alloc pm).
Proof.
  eapply (safe_bind _ _ _ (same_alloc pm)); [apply writePages_safe|done|]. intros _ pm1 H1.
  eapply ends_mono; [apply on_file_safe, Sync_safe| |]; cbn; intros; by eapply same_alloc_trans.
Qed.

Lemma visible_sub w : visible w ⊆ w_working w.
Proof. unfold visible. apply map_filter_subseteq. Qed.

(** What a commit keeps in memory is exactly the pages in use. *)
Lemma reachable_visible fuel w h kvs :
  work_tree w h kvs -> (h < fuel)%nat -> reachablePageMap fuel (w_working w) (w_root w) = Ok (visible w).
Proof.
  intros [(Hr & _ & HF)|(Hr & _ & R)] Hf.
  - rewrite Hr. apply dom_empty_inv_L in HF. rewrite HF. by destruct fuel.
  - pose proof (rep_mono _ _ _ _ _ _ R (visible_sub w)) as RM.
    rewrite (reachable_ok _ _ fuel _ _ _ RM Hf Hr : reachablePageMap fuel _ (w_root w) = _). f_equal.
    apply map_eq. intros id. rewrite restrict_lookup. destruct (decide (id ∈ dom (visible w))) as [Hi|Hi].
    + apply elem_of_dom in Hi as [b Hb]. rewrite Hb. by apply visible_lookup in Hb as [? _].
    + symmetry. by apply not_elem_of_dom.
Qed.
Lemma work_root w h kvs : work_tree w h kvs -> w_root w = 0 \/ w_root w ∈ dom (visible w).
Proof.
  intros [(-> & _)|(_ & _ & R)]; [by left|right]. apply rep_one in R as (b & ces & F1 & Hb & _).
  by apply elem_of_dom_2 in Hb.
Qed.

Lemma commitWork_ok fuel db w size h kvs h' kvs' :
  kv_rep db h kvs -> k_uncertain db = false -> work_tree w h' kvs' -> work_room w 0 -> (h' < fuel)%nat ->
  match commitWork fuel db w size with
  | (Ok r, db') => r = true /\ kv_rep db' h' kvs' /\ k_uncertain db' = false /\ k_closed db' = k_closed db
  | (Err _, db') => kv_rep db' h kvs /\ k_closed db' = k_closed db
  | (Panic, _) | (NoFuel, _) => False
  end.
Proof.
  intros K Hu T [He Hi _] Hf. unfold commitWork.
  pose proof (writeSync_safe (sortedPending (w_pending w)) (w_pm w)) as Hw. unfold safe, ends in Hw.
  destruct ((_ <~ writePages (sortedPending (w_pending w)) ;; on_file Sync) (w_pm w)) as [[u|e| |] pm1]; try done.
  2:{ split; [by apply rollback_rep|done]. }
  pose proof (pm_inv_alloc _ _ _ Hi Hw) as I1.
  pose proof (work_root _ _ _ T) as Hroot.
  pose proof (publishRoot_ok _ _ _ I1 Hroot) as Hp. unfold ends in Hp.
  destruct (publishRoot (w_root w) pm1) as [[u'|e| |] pm2]; try done.
  2:{ destruct K as [KT KI]. split; [|done]. split; [exact KT|by apply restore_inv]. }
  rewrite (reachable_visible fuel w h' kvs' T Hf). split; [done|]. split; [|done]. split; [exact T|apply Hp].
Qed.

(** The outcome of an update whose change succeeds with contents [Q]. *)
Definition update_post (db : KV) (h : nat) (kvs : list kv) (hmax : nat)
    (Q : bool -> list kv -> Prop) (r : outcome error bool * KV) : Prop :=
  match r with
  | (Ok b, db') => exists h' kvs', (h' <= hmax)%nat /\ kv_rep db' h' kvs' /\ Q b kvs' /\
      k_uncertain db' = false /\ k_closed db' = k_closed db
  | (Err _, db') => kv_rep db' h kvs /\ k_closed db' = k_closed db
  | (Panic, _) | (NoFuel, _) => False
  end.

Lemma update_ok fuel change db h kvs n hmax (Q : bool -> list kv -> Prop) :
  kv_rep db h kvs -> k_uncertain db = false -> Z.of_nat n <= pm_room (k_pm db) ->
  (h <= hmax < fuel)%nat ->
  (forall w, work_tree w h kvs -> work_room w n ->
     ends change w (fun b w' => exists h' kvs', (h' <= hmax)%nat /\ work_tree w' h' kvs' /\ work_room w' 0 /\
       Q b kvs' /\ (b = false -> kvs' = kvs)) (fun _ _ => True)) ->
  update_post db h kvs hmax Q (update fuel change db).
Proof.
  intros K Hu Hn Hh Hch. unfold update, beginUpdate, endUpdate, newWork, update_post. rewrite Hu.
  pose proof (on_file_safe StatSize (k_pm db) (StatSize_safe _)) as Hst. unfold safe, ends in Hst.
  pose proof K as [KT KI].
  destruct (on_file StatSize (k_pm db)) as [[size|e| |] pm]; try done.
  2:{ split; [|done]. split; [exact KT|by eapply pm_inv_alloc]. }
  set (kv1 := mkKV pm (k_root db) (k_pages db) (k_closed db) (k_uncertain db)).
  pose proof (pm_inv_alloc _ _ _ KI Hst) as I1.
  assert (K1 : kv_rep kv1 h kvs) by (split; done).
  set (w0 := mkWork pm (k_root kv1) (k_pages kv1) ∅ None).
  assert (Hv : visible w0 = k_pages db).
  { unfold visible. apply map_filter_id. intros id b Hb. cbn. intros Hp. apply elem_of_dom_2 in Hb.
    apply (pi_owned _ _ I1 id); [unfold owned; set_solver|exact Hb]. }
  assert (T0 : work_tree w0 h kvs) by (unfold work_tree; rewrite Hv; exact KT).
  assert (R0 : work_room w0 n).
  { split; [done|by rewrite Hv|]. cbn. apply same_alloc_fields in Hst as (Hnx & _ & _ & Hfr & _).
    unfold pm_room in *. by rewrite Hnx, Hfr. }
  specialize (Hch w0 T0 R0). unfold ends in Hch.
  cbv beta iota zeta. change (mkWork (k_pm kv1) (k_root kv1) (k_pages kv1) ∅ None) with w0.
  destruct (change w0) as [[b|e| |] w']; try done.
  - destruct Hch as (h' & kvs' & Hh' & T' & R' & HQ & Hb). rewrite (wr_err _ _ R'). destruct b.
    + pose proof (commitWork_ok fuel kv1 w' size h kvs h' kvs' K1 Hu T' R') as C.
      destruct (commitWork fuel kv1 w' size) as [[r|e| |] kv2]; try (apply C; lia).
      destruct C as (-> & ? & ? & ?); [lia|]. by exists h', kvs'.
    + rewrite (Hb eq_refl) in HQ. exists h, kvs. split; [lia|].
      split; [by apply (rollback_rep kv1)|done].
  - split; [by apply (rollback_rep kv1)|done].
Qed.
