(* ===== verification/RecoverySpec.v ===== *)
(** * Correctness of recovery

    Reading metadata, the free list and the committed tree from an arbitrary
    file: every read loop terminates without a panic, and a store that recovery
    accepts satisfies the representation invariant of [KVSpec]. *)

From S2P Require Import Prelude KvList Errors Page PageTree PageNodeSpec PageTreeSpec File FreeList.
From S2P Require Import PageManager PageManagerSpec PublishSpec KV KVSpec.

(** ** Decoding arbitrary pages *)

(** Steps through the guards and field reads of a decoder. *)
Ltac page_arith H :=
  unfold metadataMagicOffset, metadataVersionOffset, metadataGenerationOffset, metadataRootPageOffset,
    metadataPageCountOffset, metadataFreeListHeadOffset, metadataFreeListTailOffset, metadataHeadSequenceOffset,
    metadataTailSequenceOffset, metadataMaxSequenceOffset, metadataChecksumOffset, legacyFreeCountOffset,
    legacyRetiredCountOffset, legacyChecksumOffset, legacyPageIDsOffset, freeListVersionOffset, freeListCountOffset,
    freeListNextOffset, freeListSequenceOffset, freeListChecksumOffset, freeListHeaderSize, pageSize in *;
  rewrite ?H; cbn; lia.
Ltac decode_step H :=
  first
  [ apply gives_guard; intros ?
  | eapply gives_bind; [eapply getU_gives; page_arith H|intros ? ?]
  | eapply gives_bind; [eapply slice_gives; page_arith H|intros ? ?]
  | eapply gives_bind; [eapply putU_gives; page_arith H|intros ? ?] ].

Lemma getPageIDs_gives page todo : forall i,
  len page = pageSize -> 0 <= i -> freeListHeaderSize + (i + Z.of_nat todo) * 8 <= pageSize ->
  gives (getPageIDs todo i page) (Forall page_id).
Proof.
  induction todo as [|todo IH]; intros i Hp Hi Hl; cbn [getPageIDs]; [by constructor|].
  decode_step Hp. decode_step Hp. zbool.
  eapply gives_bind; [apply IH; [done|lia|lia]|]. intros ids Hids. constructor; [|done].
  change (256 ^ Z.of_nat 8) with (2 ^ 64) in *. cbn beta in *. unfold page_id. lia.
Qed.

Lemma decodeFreeListNode_gives page :
  gives (decodeFreeListNode page) (fun n => 0 <= fl_next n < 2 ^ 64 /\ Forall page_id (fl_pageIDs n)).
Proof.
  unfold decodeFreeListNode. apply gives_guard. intros Hp. zbool. repeat decode_step Hp.
  eapply gives_bind; [apply getPageIDs_gives; [done|lia|]|].
  - zbool. cbn beta in *. change freeListPageCapacity with 508 in *.
    unfold freeListHeaderSize, pageSize. lia.
  - intros ids Hids. cbn. done.
Qed.

(** What reading a metadata slot establishes about it. *)
Record meta_ok (m : rootMetadata) : Prop := {
  mo_root : 0 <= m_rootPageID m <= m_pageCount m;
  mo_free : Forall (Z.lt 0) (m_freePageIDs m);
  mo_retired : Forall (Z.lt 0) (m_retiredPageIDs m);
  mo_lists : Forall (Z.lt 0) (m_freeListPageIDs m);
}.
Lemma snoc_pos ids id : Forall (Z.lt 0) ids -> 0 < id -> Forall (Z.lt 0) (ids ++ [id]).
Proof. intros. apply Forall_app. split; [done|by constructor]. Qed.

Lemma loadEntries_gives ids : forall m sp se seq,
  Forall page_id ids -> meta_ok m ->
  gives (loadEntries ids m sp se seq) (fun r => m_pageCount r.1.1 = m_pageCount m /\ meta_ok r.1.1).
Proof.
  induction ids as [|id ids IH]; intros m sp se seq Hids [M1 M2 M3 M4]; cbn [loadEntries]; [by split|].
  apply Forall_cons in Hids as [[Hid _] Hids]. do 3 (apply gives_guard; intros _).
  eapply gives_mono; [apply IH; [done|]|]; destruct (seq <? m_maxSequence m); try done;
    split; cbn; auto using snoc_pos.
Qed.

(** The chain of free-list pages ends: no page id is visited twice. *)
Lemma loadChain_ok fuel : forall m pageID sp se seq f,
  meta_ok m -> 0 <= pageID < 2 ^ 64 -> (forall x, x ∈ sp -> 0 < x <= m_pageCount m) ->
  m_pageCount m < Z.of_nat (size sp) + Z.of_nat fuel ->
  ends (loadChain fuel m pageID sp se seq) f
    (fun r _ => m_pageCount r.1.1.1 = m_pageCount m /\ meta_ok r.1.1.1) (fun _ _ => True).
Proof.
  induction fuel as [|fuel IH]; intros m pageID sp se seq f Hm Hid Hsp Hfuel; cbn [loadChain].
  - destruct (pageID =? 0); [done|]. exfalso.
    assert (Hb : size sp = length (elements sp)) by done.
    assert (len (elements sp) < m_pageCount m + 1); [|unfold len in *; lia].
    apply ids_bounded; [destruct Hm; lia|apply NoDup_elements|]. intros x Hx%elem_of_elements. specialize (Hsp x Hx). lia.
  - destruct (pageID =? 0) eqn:E0; [done|]. zbool.
    apply ends_guard; [done|]. intros [Hg1 Hg2]%orb_false_iff. zbool.
    apply ends_guard; [done|]. intros Hseen%bool_decide_eq_false.
    apply ends_bind. eapply ends_mono; [apply readRaw_safe| |done]. cbn beta. intros page f1 _.
    apply (ends_gives _ _ _ (fun n => 0 <= fl_next n < 2 ^ 64 /\ Forall page_id (fl_pageIDs n))); [| |done].
    { pose proof (decodeFreeListNode_gives page) as Hd. destruct (decodeFreeListNode page); try done.
      by apply gives_guard. }
    intros n [Hn Hids]. eapply ends_gives; [apply loadEntries_gives; [done|]| |done].
    { destruct Hm. split; cbn; try done. apply snoc_pos; [done|lia]. }
    intros [[m' se'] seq'] [Hc Hr]. cbn in Hc, Hr. apply ends_guard; [done|]. intros _.
    eapply ends_mono; [apply IH| |done].
    + done.
    + done.
    + intros x [->%elem_of_singleton|Hx]%elem_of_union; rewrite Hc; [lia|by apply Hsp].
    + rewrite size_union by set_solver. rewrite size_singleton, Hc. lia.
    + cbn beta. intros r _ [-> ?]. done.
Qed.

(** ** Reading a metadata slot *)

Lemma loadFreeListMetadata_ok m f :
  meta_ok m -> 0 <= m_freeListHead m < 2 ^ 64 ->
  ends (loadFreeListMetadata m) f (fun m' _ => meta_ok m') (fun _ _ => True).
Proof.
  intros Hm Hh. unfold loadFreeListMetadata. destruct (_ =? 0); [by apply ends_guard|].
  apply ends_guard; [done|]. intros _. apply ends_bind.
  eapply ends_mono; [apply loadChain_ok; [done|done|set_solver|]| |done].
  { rewrite size_empty. destruct Hm. lia. }
  intros [[[m' sp] se] seq] f' [Hc Hr]. cbn in Hc, Hr. apply ends_guard; [done|]. intros _.
  by apply ends_guard.
Qed.

Lemma loadLegacyIDs_gives page todo : forall i fc m seen,
  len page = pageSize -> 0 <= i -> legacyPageIDsOffset + (i + Z.of_nat todo) * 8 <= pageSize -> meta_ok m ->
  gives (loadLegacyIDs todo page i fc m seen) meta_ok.
Proof.
  induction todo as [|todo IH]; intros i fc m seen Hp Hi Hl Hm; cbn [loadLegacyIDs]; [done|].
  repeat decode_step Hp. apply IH; [done|lia|lia|]. zbool. cbn beta in *. destruct Hm.
  destruct (i <? fc); split; cbn; auto with lia; apply snoc_pos; auto with lia.
Qed.

Lemma checkMetadataPage_gives page :
  len page = pageSize -> gives (checkMetadataPage page) (fun r => len r.2 = pageSize).
Proof.
  intros Hp. unfold checkMetadataPage. repeat decode_step Hp.
  destruct (_ =? 1); [|destruct (_ =? 2)]; repeat decode_step Hp.
  all: apply gives_ok; cbn beta in *; cbn; congruence.
Qed.

Lemma ReadAt_ok n pos f :
  0 <= n -> 0 <= pos -> ends (ReadAt n pos) f (fun b _ => len b = n) (fun _ _ => True).
Proof.
  intros Hn Hp. unfold ReadAt. apply ends_bind. eapply ends_mono; [apply checked_safe| |done].
  cbn beta. intros _ f' _. apply ends_bind. unfold ends at 1, get_data. apply ends_guard; [done|].
  intros Hg. zbool. unfold ends, ret. rewrite len_sub; lia.
Qed.
Lemma StatSize_ok f : ends StatSize f (fun n _ => 0 <= n <= maxInt64) (fun _ _ => True).
Proof.
  unfold StatSize. apply ends_bind. eapply ends_mono; [apply checked_safe| |done].
  cbn beta. intros _ f' _. apply ends_bind. unfold ends at 1, get_data. apply ends_guard; [done|].
  intros Hg. zbool. unfold ends, ret. pose proof (len_nonneg (f_data f')). lia.
Qed.

Lemma readRootMetadataSlot_ok slot f :
  0 <= slot -> ends (readRootMetadataSlot slot) f (fun m _ => meta_ok m) (fun _ _ => True).
Proof.
  intros Hs. unfold readRootMetadataSlot. apply ends_bind.
  eapply ends_mono; [apply ReadAt_ok; [done|unfold pageSize; lia]| |done]. cbn beta. intros page0 f0 Hp0.
  eapply ends_gives; [by apply checkMetadataPage_gives| |done]. intros [version page] Hp. cbn in Hp.
  do 3 (eapply ends_gives; [eapply getU_gives; page_arith Hp| |done]; intros ? ?).
  apply ends_guard; [done|]. intros Hrc. zbool.
  apply ends_bind. eapply ends_mono; [apply StatSize_ok| |done]. cbn beta. intros size f1 Hsz.
  apply ends_guard; [done|]. intros _. destruct (version =? 2); [|destruct (version =? metadataVersion)].
  - do 2 (eapply ends_gives; [eapply getU_gives; page_arith Hp| |done]; intros ? ?).
    apply ends_guard; [done|]. intros Hm. zbool. cbn beta in *. change legacyMaxPageIDs with 507 in Hm.
    eapply ends_pure; [apply loadLegacyIDs_gives; [done|lia| |]|done|done].
    + unfold legacyPageIDsOffset, pageSize. lia.
    + cbn beta in *. split; cbn; [lia|constructor..].
  - do 5 (eapply ends_gives; [eapply getU_gives; page_arith Hp| |done]; intros ? ?).
    cbn beta in *; apply loadFreeListMetadata_ok; [split; cbn; [lia|constructor..]|done].
  - cbn beta in *. split; cbn; [lia|constructor..].
Qed.

(** ** Loading the committed tree *)

Definition under (upper : option bytes) (k : bytes) : Prop :=
  match upper with Some u => blt k u | None => True end.
Definition starts (lower : option bytes) (root : bool) (k : bytes) : Prop :=
  (forall l, lower = Some l -> k = l) /\ (root = true -> k = []).

Lemma first_key_at es : es <> [] -> exists e, es !! 0%nat = Some e /\ first_key es = e_key e.
Proof. destruct es as [|e es]; [done|]. by exists e. Qed.

Lemma checkWalkPage_gives id node lower upper root :
  gives (checkWalkPage id node lower upper root) (fun _ => exists ty ces,
    page_of node ty ces /\ (ty = nodeTypeLeaf \/ ty = nodeTypeInternal) /\ ces <> [] /\
    starts lower root (first_key ces) /\ Forall (fun e => under upper (e_key e)) ces).
Proof.
  unfold checkWalkPage.
  pose proof (validateBNode_total node) as Hs.
  destruct (validateBNode node) as [[]|e| |] eqn:Hv; try done. cbn [map_err].
  destruct (validateBNode_sound _ Hv) as (ty & ces & P & Hty). pose proof P as [B Hso].
  rewrite (built_nkeys B). apply gives_guard. intros Hn. zbool.
  assert (Hne : ces <> []) by (by intros ->).
  rewrite (built_nbytes _ _ _ _ B). apply gives_guard. intros _.
  destruct (first_key_at ces Hne) as (e0 & H0 & Hfk).
  rewrite (built_getKey B _ _ H0 : getKey node 0 = _), <- Hfk.
  apply gives_guard. intros Hroot. rewrite (built_btype B). apply gives_guard. intros _.
  destruct (lookup_lt_is_Some_2 ces (length ces - 1)) as [el Hl]; [destruct ces; cbn; [done|lia]|].
  pose proof (built_bounds B) as Hb. pose proof (lookup_lt_Some _ _ _ Hl) as Hlt.
  replace (u16 (len ces - 1)) with (Z.of_nat (length ces - 1)) by (rewrite u16_small; unfold len in *; lia).
  rewrite (built_getKey B _ _ Hl). apply gives_guard. intros Hlow. apply gives_guard. intros Hup.
  apply gives_ok. exists ty, ces. split_and!; try done.
  - split.
    + intros l ->. cbn in Hlow. apply negb_false_iff, beqb_eq in Hlow. done.
    + intros ->. cbn in Hroot. by apply negb_false_iff, Z.eqb_eq, len_0 in Hroot.
  - destruct upper as [u|]; cbn; [|by apply Forall_forall].
    apply Forall_lookup. intros i e He. assert (blt (e_key el) u).
    { destruct (bleb u (e_key el)) eqn:E; [done|]. by apply bleb_gt in E. }
    destruct (decide (i = length ces - 1)%nat) as [->|Hne'].
    + rewrite Hl in He. by injection He as ->.
    + pose proof (lookup_lt_Some _ _ _ He).
      assert (blt (e_key e) (e_key el)); [|border].
      apply (ssorted_lookup_lt (map e_key ces) i (length ces - 1)); [done|lia|..];
        rewrite list_lookup_fmap; [by rewrite He|by rewrite Hl].
Qed.

(** Every child of a node has been loaded. *)
Definition loaded (pages : gmap Z bytes) (e : entry) : Prop :=
  exists b ty es, pages !! e_ptr e = Some b /\ page_of b ty es.

Lemma loaded_merge_size pages l r :
  loaded pages l -> loaded pages r ->
  gives (encodedMergeSize (default [] (pages !! e_ptr l)) (default [] (pages !! e_ptr r))) (fun _ => True).
Proof.
  intros (b & ty & es & -> & [B _]) (b' & ty' & es' & -> & [B' _]). cbn. unfold encodedMergeSize.
  by rewrite (built_nkeys B), (built_nkeys B'), (built_getOffset_end B), (built_getOffset_end B').
Qed.

Lemma checkSiblings_gives node ces pages id todo : forall i,
  page_of node nodeTypeInternal ces -> Forall (loaded pages) ces -> (i + todo = length ces)%nat ->
  gives (checkSiblings todo id node (len ces) (Z.of_nat i) pages) (fun _ => True).
Proof.
  intros i [B Hso] Hall. revert i. pose proof (built_bounds B) as Hb. rewrite Forall_lookup in Hall.
  assert (Hptr : forall j e, ces !! j = Some e -> getPtr node (u16 (Z.of_nat j)) = Ok (e_ptr e)).
  { intros j e He. rewrite u16_small; [by apply (built_getPtr B)|].
    apply lookup_lt_Some in He. unfold len in *. lia. }
  induction todo as [|todo IH]; intros i Hi; cbn [checkSiblings]; [done|].
  destruct (lookup_lt_is_Some_2 ces i) as [e He]; [lia|]. rewrite (Hptr i e He). cbn zeta.
  destruct (Hall i e He) as (b & ty & es & Hpg & [Be _]). rewrite Hpg. cbn [default from_option].
  change (Datatypes.id b) with b.
  rewrite (built_nbytes _ _ _ _ Be). eapply (gives_bind _ _ (fun _ => True)).
  2:{ intros _ _. replace (Z.of_nat i + 1) with (Z.of_nat (S i)) by lia. apply IH. lia. }
  destruct (_ >? pageSize / 4); [done|].
  assert (Hme : b = default [] (pages !! e_ptr e)) by (by rewrite Hpg). rewrite Hme.
  eapply (gives_bind _ _ (fun _ => True)).
  - destruct (Z.of_nat i >? 0) eqn:Ci; [|done]. zbool.
    replace (Z.of_nat i - 1) with (Z.of_nat (i - 1)) by lia.
    destruct (lookup_lt_is_Some_2 ces (i - 1)) as [l Hl]; [lia|]. rewrite (Hptr _ l Hl).
    eapply gives_bind; [apply loaded_merge_size; [by eapply Hall|by eapply Hall]|]. intros s _. by apply gives_guard.
  - intros _ _. rewrite u16_small by (unfold len in *; lia).
    destruct (Z.of_nat i + 1 <? len ces) eqn:Ci; [|done]. zbool.
    replace (Z.of_nat i + 1) with (Z.of_nat (i + 1)) by lia.
    destruct (lookup_lt_is_Some_2 ces (i + 1)) as [r Hr]; [unfold len in Ci; lia|].
    pose proof (Hptr _ r Hr) as Hp. rewrite u16_small in Hp by (unfold len in *; lia). rewrite Hp.
    eapply gives_bind; [apply loaded_merge_size; [by eapply Hall|by eapply Hall]|]. intros s _. by apply gives_guard.
Qed.

(** What walking a subtree adds: the pages [F], all new. *)
Record walked (w w' : walkState) (F : gset Z) : Prop := {
  wd_alloc : same_alloc (wk_pm w) (wk_pm w');
  wd_visit : wk_visiting w' = wk_visiting w;
  wd_sub : wk_pages w ⊆ wk_pages w';
  wd_dom : dom (wk_pages w') = dom (wk_pages w) ∪ F;
  wd_new : F ## dom (wk_pages w);
  wd_ids : forall id, id ∈ F -> 0 < id <= committedPageCount (wk_pm w);
}.

Lemma walked_refl w : walked w w ∅.
Proof. split; try done; set_solver. Qed.
Lemma alloc_count pm pm' : same_alloc pm pm' -> committedPageCount pm' = committedPageCount pm.
Proof. intros [E _]. by injection E. Qed.
Lemma walked_trans w w1 w2 F1 F2 : walked w w1 F1 -> walked w1 w2 F2 -> walked w w2 (F1 ∪ F2) /\ F1 ## F2.
Proof.
  intros [A1 V1 S1 D1 N1 I1] [A2 V2 S2 D2 N2 I2]. rewrite D1 in N2. split; [|set_solver]. split.
  - by eapply same_alloc_trans.
  - congruence.
  - by etrans.
  - rewrite D2, D1. set_solver.
  - set_solver.
  - rewrite (alloc_count _ _ A1) in I2. intros id [H|H]%elem_of_union; auto.
Qed.

(** The leaves met so far are all at the depth that [h] levels below [depth] is. *)
Definition depth_ok (w w' : walkState) (depth : Z) (h : nat) : Prop :=
  wk_leafDepth w' = depth + Z.of_nat h /\ (wk_leafDepth w = -1 \/ wk_leafDepth w = depth + Z.of_nat h).

(** A walk from page [id] at [depth] that returned. *)
Definition walk_post (id depth : Z) (lower upper : option bytes) (root : bool) (w w' : walkState) : Prop :=
  exists h e kvs F, e_ptr e = id /\ rep (wk_pages w') (S h) [e] kvs F /\ kv_sorted kvs /\
    Forall (fun p => under upper p.1) kvs /\ starts lower root (e_key e) /\ walked w w' F /\ depth_ok w w' depth h.
(** The bounded stack of pages on the current path. *)
Definition walk_pre (fuel : nat) (w : walkState) : Prop :=
  (forall x, x ∈ wk_visiting w -> 0 < x <= committedPageCount (wk_pm w)) /\
  committedPageCount (wk_pm w) < Z.of_nat (size (wk_visiting w)) + Z.of_nat fuel /\
  0 <= committedPageCount (wk_pm w).

Lemma walk_pre_walked fuel w w' F : walk_pre fuel w -> walked w w' F -> walk_pre fuel w'.
Proof.
  intros (H1 & H2 & H3) W. pose proof (alloc_count _ _ (wd_alloc _ _ _ W)) as Hc. unfold walk_pre.
  rewrite (wd_visit _ _ _ W), Hc. done.
Qed.

Lemma under_trans u a b : blt a b -> under u b -> under u a.
Proof. destruct u; cbn; [intros; border|done]. Qed.

Lemma walkChildren_ok rec fuel node ces depth upper :
  page_of node nodeTypeInternal ces -> 0 <= depth ->
  (forall id lo hi w, 0 <= id -> walk_pre fuel w ->
    ends (rec id lo hi) w (fun _ w' => walk_post id depth lo hi false w w')
      (fun _ w' => same_alloc (wk_pm w) (wk_pm w'))) ->
  forall suf pre w, ces = pre ++ suf -> walk_pre fuel w -> 
  ends (walkChildren rec (length suf) node (len ces) (len pre) upper) w
    (fun _ w' => exists h kvs F, rep (wk_pages w') (S h) suf kvs F /\ kv_sorted kvs /\
       Forall (fun p => under upper p.1) kvs /\ walked w w' F /\ (if suf then w' = w else depth_ok w w' depth h))
    (fun _ w' => same_alloc (wk_pm w) (wk_pm w')).
Proof.
  intros P Hd Hrec. pose proof P as [B Hso]. pose proof (built_bounds B) as Hb.
  induction suf as [|e suf IH]; intros pre w Hces Hw; cbn [length walkChildren].
  { exists O, [], ∅. split_and!; [apply rep_nil|apply ssorted_nil|by constructor|apply walked_refl|done]. }
  assert (He : ces !! length pre = Some e) by (by rewrite Hces, list_lookup_middle).
  pose proof (lookup_lt_Some _ _ _ He) as Hlt.
  rewrite (u16_small (len pre)) by (unfold len in *; lia).
  eapply ends_lift; [exact (built_getPtr B _ _ He)|]. eapply ends_lift; [exact (built_getKey B _ _ He)|].
  set (hi := match suf with [] => upper | e' :: _ => Some (e_key e') end).
  eapply (ends_lift _ _ _ _ _ hi).
  { rewrite u16_small by (unfold len in *; lia). destruct suf as [|e' suf].
    - rewrite Hces, len_app. change (len [e]) with 1. rewrite Z.ltb_irrefl. done.
    - assert (He' : ces !! S (length pre) = Some e').
      { rewrite Hces. rewrite (lookup_app_r pre) by lia. by replace (S (length pre) - length pre)%nat with 1%nat by lia. }
      apply lookup_lt_Some in He' as Hlt'. replace (len pre + 1) with (Z.of_nat (S (length pre))) by (unfold len; lia).
      rewrite (proj2 (Z.ltb_lt _ _)) by (unfold len; lia). by rewrite (built_getKey B _ _ He'). }
  destruct (built_sizes B _ _ He) as [(_ & _ & _ & Hpr & _) _].
  apply ends_bind. eapply ends_mono; [apply (Hrec (e_ptr e) (Some (e_key e)) hi w); [lia|done]| |done].
  cbn beta. intros _ w1 (h1 & e1 & k1 & F1 & Hp1 & R1 & S1 & U1 & [L1 _] & W1 & D1).
  specialize (L1 _ eq_refl).
  replace (len pre + 1) with (len (pre ++ [e])) by (by rewrite len_app).
  eapply ends_mono; [apply (IH (pre ++ [e]) w1); [by rewrite <- app_assoc|by eapply walk_pre_walked]| |].
  2:{ cbn beta. intros er w2 H2. eapply same_alloc_trans; [apply W1|exact H2]. }
  cbn beta. intros _ w2 (h2 & k2 & F2 & R2 & S2 & U2 & W2 & D2).
  destruct (walked_trans _ _ _ _ _ W1 W2) as [W12 Hdisj].
  exists h1, (k1 ++ k2), (F1 ∪ F2).
  assert (Re : rep (wk_pages w2) (S h1) [e] k1 F1).
  { eapply rep_mono; [|apply W2]. apply rep_one in R1 as (b & cs & F & ? & ? & ? & Hk & ? & ? & ->).
    apply rep_one. exists b, cs, F. rewrite <- Hp1. split_and!; try done. congruence. }
  destruct suf as [|e' suf].
  { apply rep_empty in R2 as [-> ->]. cbn [hi] in U1. rewrite app_nil_r, union_empty_r_L in *.
    subst w2. done. }
  destruct D1 as [D1 D1'], D2 as [D2 D2']. assert (h2 = h1) as -> by lia.
  destruct (rep_head _ _ _ _ _ R2) as (v & k2' & ->); [done|]. cbn [first_key hi under] in *.
  assert (Hlt1 : forall a, a ∈ k1 -> blt a.1 (e_key e')) by (by rewrite Forall_forall in U1).
  pose proof (Forall_inv U2) as Hu. cbn in Hu. split_and!.
  - apply (rep_app _ _ [e]). exists k1, ((e_key e', v) :: k2'), F1, F2. done.
  - apply kv_sorted_app. split_and!; [done..|]. intros a c Ha Hc. specialize (Hlt1 a Ha).
    apply kv_sorted_cons in S2 as [_ Hab]. apply elem_of_cons in Hc as [->|Hc]; [done|].
    unfold above in Hab. rewrite Forall_forall in Hab. specialize (Hab c Hc). cbn in Hab. border.
  - apply Forall_app. split; [|done]. eapply Forall_impl; [exact U1|]. cbn. intros a Ha. by eapply under_trans.
  - done.
  - split; [done|lia].
Qed.

Lemma readPage_safe id pm : safe (readPage id) pm (same_alloc pm).
Proof.
  unfold readPage, bind, asks, lift, safe, ends. destruct (validateExisting_settles pm id) as [[a ->]|[e ->]];
    [|apply same_alloc_refl].
  destruct (dataPageOffset_settles id) as [[o ->]|[e ->]]; [|apply same_alloc_refl].
  apply (on_file_safe (ReadAt pageSize o) pm), ReadAt_safe.
Qed.
Lemma walk_read_ok id w :
  ends (walk_read id) w
    (fun _ w' => exists pm, same_alloc (wk_pm w) pm /\ w' = mkWalk pm (wk_pages w) (wk_visiting w) (wk_leafDepth w))
    (fun _ w' => same_alloc (wk_pm w) (wk_pm w')).
Proof.
  pose proof (readPage_safe id (wk_pm w)) as H. unfold safe, ends, walk_read in *.
  destruct (readPage id (wk_pm w)) as [[] pm]; cbn; try done. eauto.
Qed.

Lemma rep_loaded m h es kvs F : rep m (S h) es kvs F -> Forall (loaded m) es.
Proof.
  remember (S h) as h' eqn:Eh. induction 1 as [es|h0|h0 e es b ces k1 k2 F1 F2 Hm P ? ? R1 IH1 R2 IH2 ? ?];
    [done|constructor|]. constructor; [by exists b, (ty_of h0), ces|by apply IH2].
Qed.

(** The state after [walk] has loaded a page, and when it leaves it again. *)
Definition enter (w : walkState) (pm : pageManager) (id : Z) (node : bytes) : walkState :=
  mkWalk pm (<[id := node]> (wk_pages w)) ({[id]} ∪ wk_visiting w) (wk_leafDepth w).
Definition leave (id : Z) (w : walkState) : walkState :=
  mkWalk (wk_pm w) (wk_pages w) (wk_visiting w ∖ {[id]}) (wk_leafDepth w).

(** The page has not been met yet. *)
Definition fresh_page (w : walkState) (id : Z) : Prop :=
  0 < id <= committedPageCount (wk_pm w) /\ id ∉ wk_visiting w /\ id ∉ dom (wk_pages w).

Lemma walked_around w pm id node w3 F :
  fresh_page w id -> same_alloc (wk_pm w) pm -> walked (enter w pm id node) w3 F ->
  walked w (leave id w3) ({[id]} ∪ F) /\ id ∉ F /\ wk_pages w3 !! id = Some node.
Proof.
  intros (Hid & Hv & Hp) Ha [WA WV WS WD WN WI]. cbn in WA, WV, WS, WD, WN, WI. rewrite dom_insert_L in WD, WN.
  split_and!.
  - split; cbn [leave wk_pm wk_pages wk_visiting].
    + by eapply same_alloc_trans.
    + rewrite WV. set_solver.
    + etrans; [|exact WS]. apply insert_subseteq. by apply not_elem_of_dom.
    + rewrite WD. set_solver.
    + set_solver.
    + intros x [->%elem_of_singleton|Hx]%elem_of_union; [lia|]. rewrite <- (alloc_count _ _ Ha). by apply WI.
  - set_solver.
  - eapply lookup_weaken; [apply lookup_insert_eq|exact WS].
Qed.

(** A loaded node whose entries represent [kvs]. *)
Lemma node_post w pm id node ces h depth lower upper root w3 kvs F :
  fresh_page w id -> same_alloc (wk_pm w) pm -> page_of node (ty_of h) ces -> ces <> [] ->
  starts lower root (first_key ces) -> walked (enter w pm id node) w3 F ->
  rep (wk_pages w3) h ces kvs F -> kv_sorted kvs -> Forall (fun p => under upper p.1) kvs ->
  depth_ok w w3 depth h ->
  walk_post id depth lower upper root w (leave id w3).
Proof.
  intros Hf Ha P Hne Hst W R Hs Hu D. destruct (walked_around _ _ _ _ _ _ Hf Ha W) as (W' & Hn & Hb).
  exists h, (mkEntry id (first_key ces) []), kvs, ({[id]} ∪ F). split_and!; try done.
  apply rep_one. by exists node, ces, F.
Qed.

Lemma walk_leaf_ok w pm id node ces depth lower upper root :
  fresh_page w id -> same_alloc (wk_pm w) pm -> page_of node nodeTypeLeaf ces -> ces <> [] ->
  starts lower root (first_key ces) -> Forall (fun e => under upper (e_key e)) ces ->
  ends (d <~ asks wk_leafDepth ;;
        if d =? -1 then modify (fun w => mkWalk (wk_pm w) (wk_pages w) (wk_visiting w) depth)
        else throw_if negb (d =? depth) with ELeafDepth depth d ;; ret tt) (enter w pm id node)
    (fun (_ : unit) w3 => walk_post id depth lower upper root w (leave id w3))
    (fun (_ : error) w3 => same_alloc (wk_pm w) (wk_pm w3)).
Proof.
  intros Hf Ha P Hne Hst Hu.
  assert (Hpost : wk_leafDepth w = -1 \/ wk_leafDepth w = depth -> walk_post id depth lower upper root w
    (leave id (mkWalk pm (<[id := node]> (wk_pages w)) ({[id]} ∪ wk_visiting w) depth))).
  { intros Hd. apply (node_post w pm id node ces O depth lower upper root _ (map kv_of ces) ∅); try done.
    - destruct (walked_refl (enter w pm id node)). by split.
    - apply rep_leaf.
    - unfold kv_sorted, kv_keys. rewrite map_map. apply P.
    - by apply Forall_map.
    - unfold depth_ok. cbn. rewrite Z.add_0_r. done. }
  apply ends_bind. unfold ends at 1, asks. cbn [wk_leafDepth enter].
  destruct (wk_leafDepth w =? -1) eqn:C1; zbool; [apply Hpost; auto|].
  apply ends_guard; [done|]. intros C2. zbool. unfold ends, ret, enter. rewrite C2. auto.
Qed.

Lemma walk_inner_ok rec fuel w pm id node ces depth lower upper root :
  fresh_page w id -> same_alloc (wk_pm w) pm -> page_of node nodeTypeInternal ces -> ces <> [] ->
  starts lower root (first_key ces) -> 0 <= depth -> walk_pre (S fuel) w ->
  (forall id lo hi w, 0 <= id -> walk_pre fuel w ->
    ends (rec id lo hi) w (fun _ w' => walk_post id (depth + 1) lo hi false w w')
      (fun _ w' => same_alloc (wk_pm w) (wk_pm w'))) ->
  ends (_ <~ walkChildren rec (Z.to_nat (len ces)) node (len ces) 0 upper ;;
        pages <~ asks wk_pages ;;
        lift (checkSiblings (Z.to_nat (len ces)) id node (len ces) 0 pages)) (enter w pm id node)
    (fun _ w3 => walk_post id depth lower upper root w (leave id w3))
    (fun _ w3 => same_alloc (wk_pm w) (wk_pm w3)).
Proof.
  intros Hf Ha P Hne Hst Hdep (Hv & Hfu & Hc) Hrec. pose proof Hf as (Hid & Hnv & _).
  assert (Hw2 : walk_pre fuel (enter w pm id node)).
  { unfold walk_pre. cbn. rewrite (alloc_count _ _ Ha). rewrite size_union, size_singleton by set_solver.
    split_and!; [|lia|done]. intros x [->%elem_of_singleton|Hx]%elem_of_union; [lia|by apply Hv]. }
  apply ends_bind. replace (Z.to_nat (len ces)) with (length ces) by (unfold len; lia).
  eapply ends_mono; [apply (walkChildren_ok rec fuel node ces (depth + 1) upper P ltac:(lia) Hrec ces [] _ eq_refl Hw2)| |].
  2:{ cbn beta. intros er w3 H3. by eapply same_alloc_trans. }
  cbn beta. intros _ w3 (h & kvs & F & R & Hs & Hu & W & D). destruct ces as [|c0 ces]; [done|].
  apply ends_bind. unfold ends at 1, asks. pose proof (rep_loaded _ _ _ _ _ R) as Hld.
  eapply ends_pure; [apply (checkSiblings_gives node (c0 :: ces) (wk_pages w3) id _ 0 P Hld); done| |].
  2:{ intros er. eapply same_alloc_trans; [exact Ha|apply W]. }
  intros _ _. eapply (node_post w pm id node (c0 :: ces) (S h)); try done.
  destruct D as [D1 D2]. unfold depth_ok. cbn in *. lia.
Qed.

(** Walking an arbitrary file from page [pageID] ends, and when it returns it has
    loaded a tree. *)
Lemma walk_ok fuel : forall pageID depth lower upper root w,
  0 <= pageID -> 0 <= depth -> walk_pre fuel w ->
  ends (walk fuel pageID depth lower upper root) w
    (fun _ w' => walk_post pageID depth lower upper root w w')
    (fun _ w' => same_alloc (wk_pm w) (wk_pm w')).
Proof.
  induction fuel as [|fuel IH]; intros pageID depth lower upper root w Hid Hdep Hw; pose proof Hw as (Hv & Hf & Hc);
    cbn [walk].
  { exfalso. assert (len (elements (wk_visiting w)) < committedPageCount (wk_pm w) + 1).
    - apply ids_bounded; [lia|apply NoDup_elements|]. intros x Hx%elem_of_elements. specialize (Hv x Hx). lia.
    - assert (size (wk_visiting w) = length (elements (wk_visiting w))) by done. unfold len in *. lia. }
  apply ends_bind. unfold ends at 1, asks. change (Datatypes.id w) with w.
  apply ends_guard; [apply same_alloc_refl|]. intros Hg. zbool.
  apply ends_guard; [apply same_alloc_refl|]. intros Hnv%bool_decide_eq_false.
  apply ends_guard; [apply same_alloc_refl|]. intros Hnp%bool_decide_eq_false.
  assert (Hfr : fresh_page w pageID).
  { split; [lia|]. split; [done|]. intros [b Hb]%elem_of_dom. apply Hnp. eauto. }
  apply ends_bind. unfold ends at 1, modify. set (w0 := mkWalk _ _ _ _).
  apply ends_bind. eapply ends_mono; [apply (walk_read_ok pageID w0)| |done]. cbn beta.
  intros node w1 (pm1 & Hpm1 & ->). cbn [wk_pm wk_pages wk_visiting wk_leafDepth w0] in *.
  eapply ends_gives; [apply checkWalkPage_gives| |done].
  intros _ (ty & ces & P & Hty & Hne & Hst & Hund). pose proof P as [B Hso].
  apply ends_bind. unfold ends at 1, modify. cbn [wk_pm wk_pages wk_visiting wk_leafDepth].
  eapply ends_lift; [apply (built_btype B)|]. eapply ends_lift; [apply (built_nkeys B)|].
  match goal with |- ends _ ?x _ _ => change x with (enter w pm1 pageID node) end.
  apply ends_bind. destruct Hty as [-> | ->].
  - eapply ends_mono; [by apply (walk_leaf_ok w pm1 pageID node ces depth lower upper root)| |done]. done.
  - eapply ends_mono; [apply (walk_inner_ok _ fuel w pm1 pageID node ces depth lower upper root); try done|done|done].
    intros c lo hi w' Hcid Hw'. by apply IH; [|lia|].
Qed.

(** The contents of a node whose first key is the sentinel start with it. *)
Lemma rep_sentinel m h es kvs F :
  rep m h es kvs F -> Forall (fun e => e_key e = [] -> e_val e = []) es -> es <> [] -> first_key es = [] ->
  exists kvs', kvs = ([], []) :: kvs'.
Proof.
  induction 1 as [es|h|h e es b ces k1 k2 F1 F2 Hm P Hne Hk R1 IH1 R2 IH2 ? ?]; intros Hv Hn Hf; [|done|].
  - destruct es as [|e es]; [done|]. apply Forall_cons in Hv as [Hv _]. cbn in *. eexists. unfold kv_of.
    by rewrite Hf, Hv.
  - destruct IH1 as [kvs' ->]; [|done|by rewrite Hk|by eexists]. destruct P as [B _].
    eapply Forall_impl; [exact (built_entries _ _ _ _ _ B)|]. by intros x (_ & _ & ? & _).
Qed.

Lemma loadCommittedPages_ok pm :
  0 <= rootPageID pm -> 0 <= committedPageCount pm ->
  ends loadCommittedPages pm
    (fun pages pm' => same_alloc pm pm' /\ (forall id, id ∈ dom pages -> 0 < id) /\
       exists h kvs, tree pages h (rootPageID pm) kvs (dom pages))
    (fun _ pm' => same_alloc pm pm').
Proof.
  intros Hr Hc. unfold loadCommittedPages, ends. destruct (Z.eqb_spec (rootPageID pm) 0) as [H0|H0].
  { split_and!; [apply same_alloc_refl|set_solver|]. exists O, []. left. by rewrite dom_empty_L. }
  pose proof (walk_ok (S (Z.to_nat (committedPageCount pm))) (rootPageID pm) 0 None None true (mkWalk pm ∅ ∅ (-1))) as W.
  unfold ends in W. destruct (walk _ _ _ _ _ _ _) as [[u|e| |] w].
  2-4: apply W; [done|lia|]; unfold walk_pre; cbn; rewrite size_empty; split_and!; [set_solver|lia|done].
  destruct W as (h & e & kvs & F & He & R & Hs & _ & [_ Hk] & W & _); [done|lia| |].
  { unfold walk_pre. cbn. rewrite size_empty. split_and!; [set_solver|lia|done]. }
  destruct W as [WA _ _ WD _ WI]. cbn in WA, WD, WI. rewrite dom_empty_L, union_empty_l_L in WD. subst F.
  split_and!; [done|intros id Hid; specialize (WI id Hid); lia|].
  specialize (Hk eq_refl). pose proof R as R'. apply rep_one in R' as (b & ces & F1 & Hb & P & Hne & Hfk & R' & _).
  destruct (rep_sentinel _ _ _ _ _ R') as [kvs' ->]; [|done|by rewrite Hfk|].
  { destruct P as [B _]. eapply Forall_impl; [exact (built_entries _ _ _ _ _ B)|]. by intros x (_ & _ & ? & _). }
  exists h, kvs'. right. split_and!; try done. destruct e as [p k v]. cbn in *. subst p k.
  apply rep_one in R as (b' & ces' & F2 & ? & ? & ? & ? & ? & ? & HF).
  apply rep_one. exists b', ces', F2. done.
Qed.

(** ** Ownership of pages *)

Lemma claimAll_ok ids next : forall owners,
  Forall (Z.lt 0) ids ->
  gives (claimAll ids next owners) (fun o => NoDup ids /\ o = list_to_set ids ∪ owners /\
    forall id, id ∈ ids -> 0 < id < next /\ id ∉ owners).
Proof.
  induction ids as [|id ids IH]; intros owners Hp; cbn [claimAll].
  { cbn. split_and!; [constructor|set_solver|]. by intros ? ?%not_elem_of_nil. }
  apply Forall_cons in Hp as [Hid Hp]. apply gives_guard. intros Hg. rewrite Z.geb_leb in Hg. zbool.
  apply gives_guard. intros Hn%bool_decide_eq_false.
  eapply gives_mono; [by apply IH|]. intros o (Hd & -> & Hall). split_and!.
  - apply NoDup_cons. split; [|done]. intros [_ Hx]%Hall. apply Hx, elem_of_union. left.
    by apply elem_of_singleton.
  - cbn. by rewrite union_assoc_L, (union_comm_L (list_to_set ids)).
  - intros x [->|Hx]%elem_of_cons; [done|]. destruct (Hall x Hx) as [? Hx']. split; [done|].
    intros Ho. apply Hx', elem_of_union. by right.
Qed.

Lemma reconcile_ok pages pm :
  0 < nextPageID pm <= maxPage + 1 -> pendingFreePageIDs pm = [] -> freePageSet pm = list_to_set (freePageIDs pm) ->
  (forall id, id ∈ dom pages -> 0 < id) -> Forall (Z.lt 0) (freePageIDs pm) -> Forall (Z.lt 0) (retiredPageIDs pm) ->
  Forall (Z.lt 0) (freeListPageIDs pm) ->
  ends (reconcilePageOwnership pages) pm
    (fun _ pm' => pm_inv (dom pages) pm' /\ rootPageID pm' = rootPageID pm) (fun _ pm' => pm' = pm).
Proof.
  intros Hn Hpe Hs Hpos P1 P2 P3. unfold ends, reconcilePageOwnership.
  pose proof (claimAll_ok (elements (dom pages) ++ freePageIDs pm ++ retiredPageIDs pm ++ freeListPageIDs pm)
    (nextPageID pm) ∅) as C.
  destruct (claimAll _ _ _) as [o|e| |]; try done.
  2-3: apply C; rewrite !Forall_app; split_and!; try done; apply Forall_forall; intros x Hx%elem_of_elements; by apply Hpos.
  destruct C as (Hd & Ho & Hall).
  { rewrite !Forall_app; split_and!; try done; apply Forall_forall; intros x Hx%elem_of_elements; by apply Hpos. }
  set (own := freePageIDs pm ++ retiredPageIDs pm ++ freeListPageIDs pm) in *.
  set (orphans := filter _ _). apply NoDup_app in Hd as (_ & Hdl & Hdo).
  assert (Horp : forall x, x ∈ orphans -> 0 < x < nextPageID pm /\ x ∉ own /\ x ∉ dom pages).
  { intros x [Hx Hq]%list_elem_of_filter. apply elem_of_seqZ in Hq. rewrite Ho in Hx. split; [lia|]. set_solver. }
  assert (Hown : forall pm', pm' = set_pending (pendingFreePageIDs pm ++ orphans) pm -> owned pm' ≡ₚ orphans ++ own).
  { intros pm' ->. unfold owned, own. cbn. rewrite Hpe. cbn [app].
    rewrite (Permutation_app_swap_app orphans (freePageIDs pm)). apply Permutation_app_head.
    apply Permutation_app_swap_app. }
  specialize (Hown _ eq_refl). split; [|done]. split; cbn [nextPageID set_pending freePageSet freePageIDs]; try done.
  - rewrite Hown. apply NoDup_app. split_and!; [apply NoDup_filter, NoDup_seqZ| |done].
    intros x Hx. by destruct (Horp x Hx) as (_ & ? & _).
  - intros x Hx. rewrite Hown, elem_of_app in Hx. destruct Hx as [Hx|Hx].
    + by destruct (Horp x Hx) as (? & _ & ?).
    + destruct (Hall x) as [? _]; [apply elem_of_app; by right|]. split; [done|].
      intros Hl. apply (Hdl x); [by apply elem_of_elements|done].
  - intros x Hx. apply Hall, elem_of_app. left. by apply elem_of_elements.
Qed.

(** ** Recovering a generation *)

(** A page manager and pages that make up a consistent store. *)
Definition recovered (pages : gmap Z bytes) (pm : pageManager) : Prop :=
  exists h kvs, tree pages h (rootPageID pm) kvs (dom pages) /\ pm_inv (dom pages) pm.

Lemma tryCandidate_ok m pm :
  meta_ok m -> 0 < nextPageID pm <= maxPage + 1 ->
  ends (tryCandidate m) pm
    (fun r pm' => match r with inl pages => recovered pages pm' | inr _ => nextPageID pm' = nextPageID pm end)
    (fun _ _ => False).
Proof.
  intros [M1 M2 M3 M4] Hn. unfold ends, tryCandidate. destruct (_ >=? _); [done|].
  set (pm1 := restore _ pm). pose proof (loadCommittedPages_ok pm1) as L. unfold ends in L.
  unfold bind. destruct (loadCommittedPages pm1) as [[pages|e| |] pm2].
  2-4: cbn in L; (apply L; lia) || (destruct L as [L _]; [lia..|]; by injection L).
  destruct L as (A & Hpos & h & kvs & T); [cbn; lia..|].
  pose proof (same_alloc_fields _ _ A) as (A1 & A2 & _ & A3 & A4 & A5 & A6 & A7).
  pose proof (reconcile_ok pages pm2) as Rc. rewrite A1, A3, A4, A5, A6, A7 in Rc. unfold ends in Rc.
  cbn in Rc. specialize (Rc Hn eq_refl eq_refl Hpos M2 M3 M4).
  destruct (reconcilePageOwnership pages pm2) as [[u|e| |] pm3]; try done.
  - destruct Rc as [I Hr]. exists h, kvs. split; [|done]. rewrite Hr, A2. done.
  - rewrite Rc, A1. done.
Qed.

Lemma tryCandidates_ok ms : forall errs pm,
  Forall meta_ok ms -> 0 < nextPageID pm <= maxPage + 1 ->
  ends (tryCandidates ms errs) pm recovered (fun _ _ => True).
Proof.
  induction ms as [|m ms IH]; intros errs pm Hms Hn; cbn [tryCandidates]; [done|].
  apply Forall_cons in Hms as [Hm Hms]. apply ends_bind.
  eapply ends_mono; [by apply tryCandidate_ok| |done]. cbn beta. intros [pages|e] pm' H; [done|].
  apply IH; [done|]. by rewrite H.
Qed.

Lemma skip_invalid_ok {A} (m : FM A) f (Q : A -> Prop) :
  ends m f (fun a _ => Q a) (fun _ _ => True) ->
  ends (skip_invalid m) f (fun o _ => match o with Some a => Q a | None => True end) (fun _ _ => True).
Proof. unfold ends, skip_invalid. destruct (m f) as [[a|e| |] f']; try done. by destruct (is_invalid_page_data e). Qed.
Lemma on_file_ok {A} (m : FM A) pm (Q : A -> Prop) :
  ends m (pm_file pm) (fun a _ => Q a) (fun _ _ => True) ->
  ends (on_file m) pm (fun a pm' => Q a /\ same_alloc pm pm') (fun _ _ => True).
Proof. unfold ends, on_file. by destruct (m (pm_file pm)) as [[a|e| |] f']. Qed.

Lemma recoverCommittedPages_ok pm :
  0 < nextPageID pm <= maxPage + 1 -> ends recoverCommittedPages pm recovered (fun _ _ => True).
Proof.
  intros Hn. unfold recoverCommittedPages.
  apply ends_bind. eapply ends_mono; [by apply on_file_ok, skip_invalid_ok, readRootMetadataSlot_ok| |done].
  cbn beta. intros m0 pm1 [H0 A0].
  apply ends_bind. eapply ends_mono; [by apply on_file_ok, skip_invalid_ok, readRootMetadataSlot_ok| |done].
  cbn beta. intros m1 pm2 [H1 A1]. apply ends_guard; [done|]. intros _. apply tryCandidates_ok.
  - destruct m0, m1; [destruct (_ >? _)|..]; rewrite ?Forall_cons, ?Forall_nil; done.
  - pose proof (same_alloc_fields _ _ (same_alloc_trans _ _ _ A0 A1)) as [-> _]. done.
Qed.

(** ** Opening and repairing *)

Lemma size_pages size : metadataSize <= size <= maxInt64 -> 0 < (size - metadataSize) / pageSize + 1 <= maxPage + 1.
Proof.
  intros Hs. assert (0 <= (size - metadataSize) / pageSize) by (apply Z.div_pos; unfold pageSize; lia).
  assert ((size - metadataSize) / pageSize <= (maxInt64 - metadataSize) / pageSize) by (apply Z.div_le_mono; unfold pageSize; lia).
  unfold maxPage. lia.
Qed.

Lemma checkFreePages_total ids root next : gives (checkFreePages ids root next) (fun _ => True).
Proof. induction ids as [|id ids IH]; cbn [checkFreePages]; [done|]. apply gives_guard. auto. Qed.

Lemma readRootMetadata_ok f : ends readRootMetadata f (fun m _ => meta_ok m) (fun _ _ => True).
Proof.
  unfold readRootMetadata.
  apply ends_bind. eapply ends_mono; [by apply skip_invalid_ok, readRootMetadataSlot_ok| |done]. cbn beta. intros m0 f0 H0.
  apply ends_bind. eapply ends_mono; [by apply skip_invalid_ok, readRootMetadataSlot_ok| |done]. cbn beta. intros m1 f1 H1.
  destruct m0, m1; try done. unfold ends, ret. by destruct (_ >? _).
Qed.

Lemma lock_safe f : safe lockDatabaseFile f (fun _ => True).
Proof.
  unfold safe, ends, lockDatabaseFile, next_fault, bind. destruct (f_faults f) as [|[|n] ?]; try done.
  by destruct (n =? 0).
Qed.

Lemma openPageManager_ok f :
  ends openPageManager f (fun pm _ => 0 < nextPageID pm <= maxPage + 1) (fun _ _ => True).
Proof.
  unfold openPageManager. apply ends_bind. eapply ends_mono; [apply lock_safe| |done]. cbn beta. intros _ f0 _.
  apply ends_bind. eapply ends_mono; [apply StatSize_ok| |done]. cbn beta. intros size0 f1 Hs0.
  apply ends_bind. apply (ends_mono _ _ (fun size _ => 0 <= size <= maxInt64) _ (fun _ _ => True)); [|cbn beta; intros size f2 Hsz|done].
  { destruct (size0 =? 0); [|done].
    apply ends_bind. eapply ends_mono; [apply Truncate_safe| |done]. cbn beta. intros _ f2 _.
    apply ends_bind. eapply ends_mono; [apply writeRootMetadataSlot_safe| |done]. cbn beta. intros _ f3 _.
    apply ends_bind. eapply ends_mono; [apply Sync_safe| |done]. cbn beta. intros _ f4 _. apply StatSize_ok. }
  apply ends_guard; [done|]. intros Hg. zbool.
  apply ends_bind. eapply ends_mono; [apply readRootMetadata_ok| |done]. cbn beta. intros m f3 Hm.
  apply ends_guard; [done|]. intros _. eapply ends_gives; [apply checkFreePages_total| |done]. intros _ _.
  unfold ends. cbn [nextPageID]. apply size_pages. lia.
Qed.

(** Opening any file ends, and a store it returns is consistent. *)
Lemma Open_ok path created f :
  ends (Open path created) f (fun db _ => exists h kvs, kv_rep db h kvs /\ k_uncertain db = false /\ k_closed db = false)
    (fun _ _ => True).
Proof.
  unfold Open. apply ends_guard; [done|]. intros _.
  apply ends_bind. eapply ends_mono; [apply openPageManager_ok| |done]. cbn beta. intros pm f0 Hn.
  apply ends_bind. apply (ends_mono _ _ (fun _ _ => True) _ (fun _ _ => True)); [|cbn beta; intros _ f1 _|done].
  { destruct created; [|done]. apply ends_bind. eapply ends_mono; [apply Sync_safe| |done]. intros. apply checked_safe. }
  unfold ends. set (pm1 := mkPM f1 _ _ _ _ _ _ _ _ _). pose proof (recoverCommittedPages_ok pm1 Hn) as R. unfold ends in R.
  destruct (recoverCommittedPages pm1) as [[pages|e| |] pm2]; try done.
  destruct R as (h & kvs & T & I). by exists h, kvs.
Qed.

Lemma repair_ok db h kvs :
  kv_rep db h kvs ->
  ends repair db (fun _ db' => exists h' kvs', kv_rep db' h' kvs' /\ k_uncertain db' = false /\ k_closed db' = k_closed db)
    (fun _ db' => kv_rep db' h kvs /\ k_uncertain db' = k_uncertain db /\ k_closed db' = k_closed db).
Proof.
  intros [T I]. unfold ends, repair. set (put := fun f : file =>
    mkKV (on_file (fun _ => (@Ok error unit tt, f)) (k_pm db)).2 (k_root db) (k_pages db) (k_closed db) (k_uncertain db)).
  assert (Hput : forall f, kv_rep (put f) h kvs /\ k_uncertain (put f) = k_uncertain db /\ k_closed (put f) = k_closed db).
  { intros f. split; [|done]. split; [done|]. destruct I. by split. }
  pose proof (StatSize_ok (pm_file (k_pm db))) as St. unfold ends in St.
  destruct (StatSize (pm_file (k_pm db))) as [[size|e| |] f]; try done; try apply Hput.
  destruct ((size <? metadataSize) || _) eqn:C; [apply Hput|]. zbool.
  set (pm1 := mkPM f _ 0 0 0 [] [] [] ∅ []).
  pose proof (recoverCommittedPages_ok pm1 (size_pages size ltac:(lia))) as R. unfold ends in R.
  destruct (recoverCommittedPages pm1) as [[pages|e| |] pm2]; try done; [|apply Hput].
  destruct R as (h' & kvs' & T' & I'). exists h', kvs'. done.
Qed.
