(* ===== verification/KVResults.v ===== *)
(** * Results on the durable store (src/internal/btree/kv.go)

    Reads, atomic updates and recovery of the copy-on-write store, for arbitrary
    outcomes of the file calls and arbitrary file contents. *)

From S2P Require Import Prelude KvList Errors Page PageTree PageNodeSpec PageTreeSpec PageInsertSpec.
From S2P Require Import PageRangeSpec PageDeleteSpec File FreeList PageManager PageManagerSpec PublishSpec KV KVSpec.
From S2P Require Import RecoverySpec.

(** ** Reads *)

(** Outside an update the tree only reads: nothing can be allocated. *)
#[global] Program Instance read_store : PageStore bindTree := {|
  pages m := m;
  room _ _ := False;
|}.
Next Obligation. done. Qed.
Next Obligation. done. Qed.
Next Obligation. intros id b m Hb. unfold ends. cbn. by rewrite Hb. Qed.
Next Obligation. done. Qed.
Next Obligation. done. Qed.

Lemma Get_ok fuel key db h kvs :
  kv_rep db h kvs -> k_closed db = false -> (h < fuel)%nat -> key <> [] ->
  Get fuel key db = (Ok (kv_get key kvs), db).
Proof.
  intros [T _] Hc Hf Hk. unfold Get. rewrite Hc.
  pose proof (getValue_ok (PS := read_store) bindTree h fuel (k_root db) key kvs _ (k_pages db) T Hf Hk) as E.
  apply ends_returns in E as (r & st' & -> & -> & _). done.
Qed.
Lemma Range_ok fuel lo hi db h kvs :
  kv_rep db h kvs -> k_closed db = false -> (h < fuel)%nat -> (S (length kvs) < fuel)%nat ->
  len lo <= maxKeySize -> len hi <= maxKeySize ->
  Range fuel lo hi db = (Ok (kv_range lo hi kvs), db).
Proof.
  intros [T _] Hc Hf Hf2 Hlo Hhi. unfold Range. rewrite Hc.
  pose proof (rangeValues_ok (PS := read_store) bindTree h fuel (k_root db) lo hi kvs _ (k_pages db) T Hf Hf2 Hlo Hhi) as E.
  apply ends_returns in E as (r & st' & -> & -> & _). done.
Qed.

(** [KV.Get] on an open store returns the value the store holds for the key
    and changes nothing. *)
Theorem Get_correct fuel key db h kvs :
  kv_rep db h kvs -> k_closed db = false -> (h < fuel)%nat -> key <> [] ->
  Get fuel key db = (Ok (kv_get key kvs), db).
Proof. apply Get_ok. Qed.

(** [KV.Range] on an open store returns exactly the entries within the
    bounds, in ascending key order. *)
Theorem Range_correct fuel lo hi db h kvs :
  kv_rep db h kvs -> k_closed db = false -> (h < fuel)%nat -> (S (length kvs) < fuel)%nat ->
  len lo <= maxKeySize -> len hi <= maxKeySize ->
  Range fuel lo hi db = (Ok (kv_range lo hi kvs), db).
Proof. apply Range_ok. Qed.

(** ** Atomic updates *)

(** What an update leaves behind: the new contents when it returned, the old
    contents when it failed; it neither panics nor diverges. [hmax] bounds the
    height of the new tree. *)
Definition atomic {A} (db : KV) (h hmax : nat) (kvs : list kv) (Q : A -> list kv -> Prop) (r : outcome error A * KV) : Prop :=
  match r with
  | (Ok a, db') => exists h' kvs', (h' <= hmax)%nat /\ kv_rep db' h' kvs' /\ Q a kvs' /\
      k_uncertain db' = false /\ k_closed db' = k_closed db
  | (Err _, db') => kv_rep db' h kvs /\ k_closed db' = k_closed db
  | (Panic, _) | (NoFuel, _) => False
  end.

Lemma update_atomic fuel change db h kvs n hmax (Q : bool -> list kv -> Prop) :
  kv_rep db h kvs -> k_uncertain db = false -> Z.of_nat n <= pm_room (k_pm db) -> (h <= hmax < fuel)%nat ->
  (forall w, work_tree w h kvs -> work_room w n ->
     ends change w (fun b w' => exists h' kvs', (h' <= hmax)%nat /\ work_tree w' h' kvs' /\ work_room w' 0 /\
       Q b kvs' /\ (b = false -> kvs' = kvs)) (fun _ _ => True)) ->
  atomic db h hmax kvs Q (update fuel change db).
Proof. apply update_ok. Qed.

(** The guard of the mutating methods, and dropping the changed flag. *)
Lemma atomic_open {A} (m : KM A) db h hmax kvs Q :
  k_closed db = false -> atomic db h hmax kvs Q (m db) ->
  atomic db h hmax kvs Q ((closed <~ asks k_closed ;; throw_if closed with ErrClosed ;; m) db).
Proof. intros Hc H. unfold bind, asks. by rewrite Hc. Qed.
Lemma atomic_unit {A} (m : KM A) db h hmax kvs (P : list kv -> Prop) :
  atomic db h hmax kvs (fun _ => P) (m db) -> atomic db h hmax kvs (fun _ : unit => P) ((_ <~ m ;; ret tt) db).
Proof. unfold atomic, bind. by destruct (m db) as [[] ?]. Qed.

Lemma Set_ok fuel key value db h kvs :
  kv_rep db h kvs -> k_closed db = false -> k_uncertain db = false ->
  (S h < fuel)%nat -> Z.of_nat (3 * h + 4) <= pm_room (k_pm db) ->
  atomic db h (S h) kvs (fun _ kvs' => mutation_ok (mkMutation key value false) /\ kvs' = kv_set key value kvs)
    (Set_ fuel key value db).
Proof.
  intros K Hc Hu Hf Hr. apply atomic_open, atomic_unit; [done|].
  apply (update_atomic _ _ _ _ _ (3 * h + 4) (S h)); try done; try lia. intros w T R. apply ends_bind.
  eapply ends_mono; [apply (treeInsert_any any_work fuel key value w h kvs 0 T); [lia|by apply wroom_any; rewrite Nat.add_0_r]| |done].
  cbn beta. intros _ w' (Hm & h' & Hh & T' & [R' _]). by exists h', (kv_set key value kvs).
Qed.
Lemma Delete_ok fuel key value db h kvs :
  kv_rep db h kvs -> k_closed db = false -> k_uncertain db = false ->
  (h < fuel)%nat -> Z.of_nat (S h) <= pm_room (k_pm db) ->
  atomic db h h kvs (fun deleted kvs' => mutation_ok (mkMutation key value true) /\
    deleted = bool_decide (is_Some (kv_get key kvs)) /\ kvs' = kv_del key kvs) (Delete fuel key db).
Proof.
  intros K Hc Hu Hf Hr. apply atomic_open; [done|].
  apply (update_atomic _ _ _ _ _ (S h) h); try done; try lia. intros w T R.
  eapply ends_mono; [apply (treeDelete_any any_work fuel key value w h kvs 0 T Hf); by apply wroom_any; rewrite Nat.add_0_r| |done].
  cbn beta. intros d w' (Hm & -> & h' & Hh & T' & [R' _]). exists h', (kv_del key kvs). split_and!; try done.
  intros Hd%bool_decide_eq_false. apply kv_del_absent. destruct (kv_get key kvs); [|done]. by destruct Hd.
Qed.
Lemma ApplyBatch_ok fuel ms db h kvs :
  kv_rep db h kvs -> k_closed db = false -> k_uncertain db = false ->
  (h + length ms < fuel)%nat -> Z.of_nat (batch_room h (length ms)) <= pm_room (k_pm db) ->
  atomic db h (h + length ms) kvs (fun _ kvs' => Forall mutation_ok ms /\ kvs' = apply_batch kvs ms) (ApplyBatch fuel ms db).
Proof.
  intros K Hc Hu Hf Hr. apply atomic_open, atomic_unit; [done|].
  apply (update_atomic _ _ _ _ _ (batch_room h (length ms)) (h + length ms)); try done; try lia. intros w T R.
  eapply ends_mono; [apply (batchLoop_ok any_work fuel ms false w h kvs 0 T Hf); by apply wroom_any; rewrite Nat.add_0_r| |done].
  cbn beta. intros r w' (h' & Hh & Hm & T' & [R' _] & Hb). exists h', (apply_batch kvs ms). split_and!; try done.
  intros Hr'. by apply Hb.
Qed.

(** C1: [KV.Set] is atomic under any sequence of file-call outcomes: when it
    returns, the entry was legal and the store holds the old contents with the
    key set; when it fails, it still holds exactly the old contents; the file
    calls can neither make it panic nor corrupt the allocation state, and the
    tree grows by at most one level. *)
Theorem Set_atomic fuel key value db h kvs :
  kv_rep db h kvs -> k_closed db = false -> k_uncertain db = false ->
  (S h < fuel)%nat -> Z.of_nat (3 * h + 4) <= pm_room (k_pm db) ->
  atomic db h (S h) kvs (fun _ kvs' => mutation_ok (mkMutation key value false) /\ kvs' = kv_set key value kvs)
    (Set_ fuel key value db).
Proof. apply Set_ok. Qed.

(** [KV.Delete] is atomic in the same sense, and its result tells whether
    the key was present. *)
Theorem Delete_atomic fuel key db h kvs :
  kv_rep db h kvs -> k_closed db = false -> k_uncertain db = false ->
  (h < fuel)%nat -> Z.of_nat (S h) <= pm_room (k_pm db) ->
  atomic db h h kvs (fun deleted kvs' => mutation_ok (mkMutation key [] true) /\
    deleted = bool_decide (is_Some (kv_get key kvs)) /\ kvs' = kv_del key kvs) (Delete fuel key db).
Proof. apply Delete_ok. Qed.

(** C2: [KV.ApplyBatch] installs all its mutations, in order, or none; it
    returns only when every mutation was legal. *)
Theorem ApplyBatch_atomic fuel ms db h kvs :
  kv_rep db h kvs -> k_closed db = false -> k_uncertain db = false ->
  (h + length ms < fuel)%nat -> Z.of_nat (batch_room h (length ms)) <= pm_room (k_pm db) ->
  atomic db h (h + length ms) kvs (fun _ kvs' => Forall mutation_ok ms /\ kvs' = apply_batch kvs ms) (ApplyBatch fuel ms db).
Proof. apply ApplyBatch_ok. Qed.

(** a closed store refuses every operation with [ErrClosed] and stays as it
    is; closing it again succeeds. *)
Theorem closed_refuses fuel key value lo hi ms db :
  k_closed db = true ->
  Get fuel key db = (Err ErrClosed, db) /\ Range fuel lo hi db = (Err ErrClosed, db) /\
  Set_ fuel key value db = (Err ErrClosed, db) /\ Delete fuel key db = (Err ErrClosed, db) /\
  ApplyBatch fuel ms db = (Err ErrClosed, db) /\ Close db = (Ok tt, db).
Proof. intros Hc. unfold Get, Range, Set_, Delete, ApplyBatch, Close, bind, asks. by rewrite Hc. Qed.

(** Without an error the two results of [KV.Delete] agree; with an error after a
    failed commit the flag can be true although the store is unchanged. *)
Lemma Delete_flag fuel key db b db' : Delete fuel key db = (Ok b, db') -> deletedFlag fuel key db = b.
Proof.
  unfold Delete, deletedFlag, bind, asks. destruct (k_closed db); [discriminate|]. unfold update.
  destruct (beginUpdate db) as [[size|e| |] kv]; try discriminate. unfold endUpdate.
  destruct (treeDelete fuel key (newWork kv)) as [[d|e| |] w]; try discriminate. destruct (w_err w); [discriminate|].
  destruct d; [|by intros [= <- _]]. unfold commitWork. destruct (bind _ _ _) as [[u|e| |] pm1]; try discriminate.
  destruct (publishRoot _ _) as [[u'|e| |] pm2]; try discriminate. destruct (reachablePageMap _ _ _); try discriminate.
  by intros [= <- _].
Qed.

(** ** Recovery *)

(** C7: opening any file, whatever its bytes and whatever the file calls
    answer, terminates without a panic; a store that is returned is a
    well-formed tree with sorted contents whose pages are distinct, owned once
    and disjoint from the free ones. *)
Theorem Open_sound path created f :
  match Open path created f with
  | (Ok db, _) => exists h kvs, kv_rep db h kvs /\ k_uncertain db = false /\ k_closed db = false
  | (Err _, _) => True
  | (Panic, _) | (NoFuel, _) => False
  end.
Proof. apply (Open_ok path created f). Qed.

(** After a failed publication the next update first recovers from the
    file: when that fails the update fails and the contents stay, otherwise it
    continues on a store that is consistent again. *)
Theorem repair_sound fuel change db h kvs :
  kv_rep db h kvs -> k_uncertain db = true ->
  match repair db with
  | (Ok _, db') => (exists h' kvs', kv_rep db' h' kvs') /\ k_uncertain db' = false /\
      k_closed db' = k_closed db /\ update fuel change db = update fuel change db'
  | (Err e, db') => kv_rep db' h kvs /\ update fuel change db = (Err (ERepairMetadata e), db')
  | (Panic, _) | (NoFuel, _) => False
  end.
Proof.
  intros K Hu. pose proof (repair_ok db h kvs K) as R. unfold ends in R.
  destruct (repair db) as [[u|e| |] db'] eqn:E; try done.
  - destruct R as (h' & kvs' & K' & Hu' & Hc'). split_and!; [by exists h', kvs'|done|done|].
    unfold update, beginUpdate. rewrite Hu, Hu', E. done.
  - destruct R as (K' & _). split; [done|]. unfold update, beginUpdate. by rewrite Hu, E.
Qed.

(** ** Witnesses *)

(** A freshly created store: one page of metadata, nothing allocated. *)
Definition pm0 : pageManager := mkPM (mkFile [] [] []) 1 0 0 0 [] [] [] ∅ [].
Definition db0 : KV := mkKV pm0 0 ∅ false false.
Definition k1 : bytes := [Byte.x6b].
Definition v1 : bytes := [Byte.x76].

Lemma empty_rep closed uncertain : kv_rep (mkKV pm0 0 ∅ closed uncertain) 0 [].
Proof.
  split; [left; cbn; by rewrite dom_empty_L|]. split; cbn.
  - by vm_compute.
  - constructor.
  - by intros id ?%not_elem_of_nil.
  - intros id. rewrite dom_empty_L. by intros ?%elem_of_empty.
  - done.
Qed.
Definition db0_rep : kv_rep db0 0 [] := empty_rep false false.
Lemma db0_room n : (n <= 1000)%nat -> Z.of_nat n <= pm_room (k_pm db0).
Proof. intros. assert (1000 <= pm_room (k_pm db0)) by (by vm_compute). lia. Qed.

Lemma Get_correct_witness : Get 1 k1 db0 = (Ok None, db0).
Proof. apply (Get_correct 1 k1 db0 0 []); [exact db0_rep|done|lia|discriminate]. Defined.
Lemma Range_correct_witness : Range 2 k1 v1 db0 = (Ok [], db0).
Proof. apply (Range_correct 2 k1 v1 db0 0 []); [exact db0_rep|done|lia|cbn; lia|discriminate|discriminate]. Defined.
Lemma Set_atomic_witness :
  atomic db0 0 1 [] (fun _ kvs' => mutation_ok (mkMutation k1 v1 false) /\ kvs' = [(k1, v1)]) (Set_ 2 k1 v1 db0).
Proof. apply (Set_atomic 2 k1 v1 db0 0 []); [exact db0_rep|done|done|lia|]. apply db0_room. lia. Defined.
Lemma Delete_atomic_witness :
  atomic db0 0 0 [] (fun d kvs' => mutation_ok (mkMutation k1 [] true) /\ d = false /\ kvs' = []) (Delete 1 k1 db0).
Proof. apply (Delete_atomic 1 k1 db0 0 []); [exact db0_rep|done|done|lia|]. apply db0_room. lia. Defined.
Lemma ApplyBatch_atomic_witness :
  atomic db0 0 2 []
    (fun _ kvs' => Forall mutation_ok [mkMutation v1 v1 true; mkMutation k1 v1 false] /\ kvs' = [(k1, v1)])
    (ApplyBatch 3 [mkMutation v1 v1 true; mkMutation k1 v1 false] db0).
Proof.
  apply (ApplyBatch_atomic 3 [mkMutation v1 v1 true; mkMutation k1 v1 false] db0 0 []);
    [exact db0_rep|done|done|cbn; lia|apply db0_room; cbn; lia].
Defined.
Lemma closed_refuses_witness :
  Get 1 k1 (mkKV pm0 0 ∅ true false) = (Err ErrClosed, mkKV pm0 0 ∅ true false).
Proof. exact (proj1 (closed_refuses 1 k1 v1 k1 v1 [] (mkKV pm0 0 ∅ true false) eq_refl)). Defined.
Lemma repair_sound_witness :
  match repair (mkKV pm0 0 ∅ false true) with
  | (Ok _, db') => k_uncertain db' = false
  | (Err e, db') => kv_rep db' 0 []
  | _ => False
  end.
Proof.
  pose proof (repair_sound 1 (ret true) (mkKV pm0 0 ∅ false true) 0 []) as R.
  destruct (repair (mkKV pm0 0 ∅ false true)) as [[u|e| |] db'].
  - apply R; [apply empty_rep|done].
  - apply R; [apply empty_rep|done].
  - apply R; [apply empty_rep|done].
  - apply R; [apply empty_rep|done].
Defined.
