(* ===== verification/StorageResults.v ===== *)
(** * Results on the page manager (src/internal/btree/page_manager.go, free_list.go)

    Round trips of free-list pages and metadata, the allocation invariant, and
    the page layout of the file. *)

From S2P Require Import Prelude Errors Page File FreeList PageManager PageManagerSpec PublishSpec RecoverySpec.

(** ** Encodings *)

(** decoding a free-list page that [encodeFreeListNode] wrote gives back
    the node, and decoding arbitrary bytes gives a node or an error, never a
    panic. *)
Theorem freeList_roundtrip n page bytes :
  freeListNode_wf n -> encodeFreeListNode n = Ok page ->
  decodeFreeListNode page = Ok n /\ gives (decodeFreeListNode bytes) (fun _ => True).
Proof.
  intros W E. split; [by apply decode_encoded|].
  eapply gives_mono; [apply decodeFreeListNode_gives|done].
Qed.

Lemma checkMetadata_sealed m :
  checkMetadataPage (sealed (metaFields m) metadataChecksumOffset) =
  Ok (metadataVersion, layout (metaFields m) (make pageSize)).
Proof.
  unfold sealed. set (body := layout (metaFields m) (make pageSize)).
  set (fs := metaFields m ++ [(metadataChecksumOffset, le_put 4 (crc32 body))]).
  set (page := layout fs (make pageSize)).
  assert (Hin : forallb (field_in (len (make pageSize))) fs = true) by (rewrite len_blank; reflexivity).
  assert (Hlen : len page = pageSize) by (unfold page; rewrite len_layout by exact Hin; apply len_blank).
  assert (Hm : sub page 0 4 = metadataMagic)
    by exact (layout_field fs (make pageSize) 0 0 metadataMagic eq_refl Hin eq_refl).
  assert (Hv : getU 2 page metadataVersionOffset = @Ok error _ metadataVersion)
    by (apply (getU_page 2 fs 1); reflexivity || (split; reflexivity || discriminate)).
  assert (Hc : getU 4 page metadataChecksumOffset = @Ok error _ (crc32 body))
    by (apply (getU_page 4 fs 10); [reflexivity..|apply crc32_bound]).
  assert (Hcl : putU 4 page metadataChecksumOffset 0 = @Ok error _ body)
    by (apply clear_checksum; [rewrite len_blank; reflexivity|reflexivity|discriminate|discriminate]).
  clear Hin. clearbody page body. clear fs. unfold checkMetadataPage.
  rewrite slice_ok; [|split; discriminate|rewrite Hlen; discriminate].
  change (metadataVersionOffset - metadataMagicOffset) with 4. change metadataMagicOffset with 0.
  rewrite Hm, beqb_refl, Hv. cbn [negb metadataVersion Z.eqb Pos.eqb andb]. rewrite Hc, Hcl. by rewrite Z.eqb_refl.
Qed.

(** A metadata page that [writeRootMetadataSlot] wrote passes the magic,
    version and checksum tests of [readRootMetadataSlot], and every field reads
    back as it was. *)
Theorem metadata_roundtrip m page :
  uint64 (m_generation m) -> uint64 (m_rootPageID m) -> uint64 (m_pageCount m) -> uint64 (m_freeListHead m) ->
  uint64 (m_freeListTail m) -> uint64 (m_headSequence m) -> uint64 (m_tailSequence m) -> uint64 (m_maxSequence m) ->
  encodeMetadata m = Ok page ->
  exists page', checkMetadataPage page = Ok (metadataVersion, page') /\
    getU 8 page' metadataGenerationOffset = @Ok error _ (m_generation m) /\
    getU 8 page' metadataRootPageOffset = @Ok error _ (m_rootPageID m) /\
    getU 8 page' metadataPageCountOffset = @Ok error _ (m_pageCount m) /\
    getU 8 page' metadataFreeListHeadOffset = @Ok error _ (m_freeListHead m) /\
    getU 8 page' metadataFreeListTailOffset = @Ok error _ (m_freeListTail m) /\
    getU 8 page' metadataHeadSequenceOffset = @Ok error _ (m_headSequence m) /\
    getU 8 page' metadataTailSequenceOffset = @Ok error _ (m_tailSequence m) /\
    getU 8 page' metadataMaxSequenceOffset = @Ok error _ (m_maxSequence m).
Proof.
  intros H1 H2 H3 H4 H5 H6 H7 H8. rewrite encodeMetadata_layout. intros <-%ok_inj.
  exists (layout (metaFields m) (make pageSize)). split; [apply checkMetadata_sealed|].
  split_and!; [apply (getU_page 8 _ 2)|apply (getU_page 8 _ 3)|apply (getU_page 8 _ 4)|apply (getU_page 8 _ 5)
    |apply (getU_page 8 _ 6)|apply (getU_page 8 _ 7)|apply (getU_page 8 _ 8)|apply (getU_page 8 _ 9)];
    first [reflexivity | assumption].
Qed.

(** ** Allocation *)

(** While pages can be represented, [reservePage] hands out a page id that
    no live page, free list or pending list uses, and keeps the ownership
    invariant with that page live. *)
Theorem reservePage_correct live pm :
  pm_inv live pm -> 0 < pm_room pm ->
  exists id pm', reservePage pm = (Ok id, pm') /\ 0 < id < 2 ^ 64 /\ id ∉ live /\ id ∉ owned pm' /\
    pm_inv ({[id]} ∪ live) pm' /\ pm_room pm' = pm_room pm - 1.
Proof.
  intros I Hr. destruct (reservePage_ok live pm I Hr) as (id & pm' & E & H1 & H2 & H3 & H4 & H5 & _).
  by exists id, pm'.
Qed.

(** [freePage] accepts exactly the live pages: a live page moves to the
    pending list, which the current generation still protects; page 0, an
    unallocated page and a page that is already free, retired, pending or part
    of the free list are refused and nothing changes. *)
Theorem freePage_correct live pm id :
  pm_inv live pm ->
  (id ∈ live -> exists pm', freePage id pm = (Ok tt, pm') /\ pm_inv (live ∖ {[id]}) pm' /\
     pendingFreePageIDs pm' = pendingFreePageIDs pm ++ [id] /\ freePageIDs pm' = freePageIDs pm) /\
  (id = 0 \/ nextPageID pm <= id \/ id ∈ owned pm -> exists e, freePage id pm = (Err e, pm)).
Proof.
  intros I. split.
  - intros Hi. destruct (freePage_ok live pm id I Hi) as (pm' & E & I' & _ & Hp). exists pm'.
    split_and!; try done. unfold freePage in E. destruct (validateExistingPageID pm id); try done.
    destruct (containsPageID (freeListPageIDs pm) id); [done|]. destruct (_ || _); [done|]. by injection E as <-.
  - intros H. unfold freePage, validateExistingPageID. destruct (id =? 0) eqn:E0; [eauto|]. zbool. cbn [orb].
    rewrite Z.geb_leb. destruct (Z.leb_spec (nextPageID pm) id); [eauto|]. destruct H as [?|[?|H]]; [lia..|].
    destruct (bool_decide_reflect (id ∈ freePageSet pm)) as [|Hn]; [eauto|].
    rewrite (pi_set _ _ I), elem_of_list_to_set in Hn. unfold owned in H. rewrite !elem_of_app in H.
    destruct (containsPageID (freeListPageIDs pm) id) eqn:C1; [eauto|].
    destruct (containsPageID (retiredPageIDs pm) id || containsPageID (pendingFreePageIDs pm) id) eqn:C2; [eauto|].
    exfalso. apply orb_false_iff in C2 as [C2 C3].
    rewrite <- !not_true_iff_false, containsPageID_spec in C1, C2, C3. tauto.
Qed.

(** [publishRoot] of a live root, under any outcome of the file calls, fails
    or leaves the ownership invariant with the new root and the next generation;
    the pages freed since the last publication join the protected pages and no
    owned page is lost. *)
Theorem publishRoot_correct live root pm :
  pm_inv live pm -> root = 0 \/ root ∈ live ->
  match publishRoot root pm with
  | (Ok _, pm') => published live root pm pm'
  | (Err _, _) => True
  | (Panic, _) | (NoFuel, _) => False
  end.
Proof. apply publishRoot_ok. Qed.

(** ** Pages in the file *)

Definition page_off (id : Z) : Z := metadataSize + (id - 1) * pageSize.

Lemma live_offset live pm id : pm_inv live pm -> id ∈ live -> dataPageOffset id = Ok (page_off id) /\ metadataSize <= page_off id.
Proof.
  intros I Hi. pose proof (pi_live _ _ I id Hi). pose proof (pi_next _ _ I). unfold page_off, pageSize.
  split; [apply dataPageOffset_ok; lia|lia].
Qed.
Lemma readPage_live live pm id :
  pm_inv live pm -> id ∈ live -> readPage id pm = on_file (ReadAt pageSize (page_off id)) pm.
Proof.
  intros I Hi. unfold readPage, bind, asks, lift. rewrite (validateExisting_ok live pm id I Hi).
  by rewrite (proj1 (live_offset live pm id I Hi)).
Qed.

Lemma readPage_data live pm id :
  pm_inv live pm -> id ∈ live -> f_faults (pm_file pm) = [] -> page_off id + pageSize <= len (f_data (pm_file pm)) ->
  readPage id pm = (Ok (sub (f_data (pm_file pm)) (page_off id) pageSize), pm).
Proof.
  intros I Hi Hf Hl. rewrite (readPage_live live pm id I Hi).
  unfold on_file, ReadAt, checked, next_fault, get_data, bind. rewrite Hf. cbn [ret].
  rewrite Z.gtb_ltb, (proj2 (Z.ltb_ge _ _)) by lia. destruct pm as [[]]. done.
Qed.
Lemma page_off_apart id id' : id <> id' -> page_off id' + pageSize <= page_off id \/ page_off id + pageSize <= page_off id'.
Proof. unfold page_off, pageSize. lia. Qed.

(** a page written to the file reads back as written; every other page
    that lies in the file and both metadata slots keep their bytes. *)
Theorem writePage_readPage live pm id p :
  pm_inv live pm -> id ∈ live -> len p = pageSize -> f_faults (pm_file pm) = [] ->
  metadataSize <= len (f_data (pm_file pm)) ->
  exists pm', writePage id p pm = (Ok tt, pm') /\ readPage id pm' = (Ok p, pm') /\
    (forall id', id' ∈ live -> id' <> id -> page_off id' + pageSize <= len (f_data (pm_file pm)) ->
       (readPage id' pm').1 = (readPage id' pm).1) /\
    sub (f_data (pm_file pm')) 0 metadataSize = sub (f_data (pm_file pm)) 0 metadataSize.
Proof.
  intros I Hi Hp Hf Hm. destruct (live_offset _ _ _ I Hi) as [Ho Hlo].
  assert (H0 : 0 <= page_off id) by (change metadataSize with 8192 in *; lia).
  set (d := f_data (pm_file pm)) in *. set (d' := write_data d (page_off id) p).
  set (pm' := mkPM (mkFile d' (f_synced (pm_file pm)) []) (nextPageID pm) (committedPageCount pm) (rootPageID pm)
    (generation pm) (freePageIDs pm) (retiredPageIDs pm) (pendingFreePageIDs pm) (freePageSet pm) (freeListPageIDs pm)).
  assert (Hl : len d' = Z.max (len d) (page_off id + pageSize)).
  { unfold d'. rewrite write_data_len, Hp by done. done. }
  assert (I' : pm_inv live pm') by (by apply (pm_inv_alloc live pm)).
  exists pm'. split_and!.
  - unfold writePage, bind, asks, lift. rewrite (validateExisting_ok live pm id I Hi), Hp, Ho, Z.eqb_refl. cbn [negb].
    unfold on_file, WriteAt, next_fault, get_data, set_data, bind. rewrite Hf. by rewrite Hf.
  - rewrite (readPage_data live pm' id I' Hi eq_refl) by (cbn; lia). cbn.
    rewrite <- Hp at 1. unfold d'. rewrite sub_write_same; [done|done|]. intros ->. done.
  - intros id' Hi' Hne Hle. destruct (live_offset _ _ _ I Hi') as [_ Hlo'].
    rewrite (readPage_data live pm' id' I' Hi' eq_refl) by (cbn; lia).
    rewrite (readPage_data live pm id' I Hi' Hf Hle). cbn [fst]. f_equal.
    apply sub_write_other; try (change metadataSize with 8192 in *; unfold pageSize; lia); [done|].
    rewrite Hp. by apply page_off_apart.
  - apply sub_write_other; try (change metadataSize with 8192 in *; lia).
Qed.

(** ** Witnesses *)

Definition fl1 : freeListNode := mkFreeListNode 0 0 [1; 2].
Lemma fl1_wf : freeListNode_wf fl1.
Proof. split; cbn; repeat constructor; by vm_compute. Qed.
Lemma freeList_roundtrip_witness :
  exists page, encodeFreeListNode fl1 = Ok page /\ decodeFreeListNode page = Ok fl1.
Proof.
  destruct (encodeFreeListNode fl1) as [page| | |] eqn:E;
    [|rewrite (encodeFreeListNode_ok fl1 fl1_wf) in E; discriminate E..].
  exists page. split; [done|]. exact (proj1 (freeList_roundtrip fl1 page [] fl1_wf E)).
Defined.

Lemma u64_dec z : (0 <=? z) && (z <? 2 ^ 64) = true -> uint64 z.
Proof. intros H. zbool. by split. Qed.
Definition meta1 : rootMetadata := mkMeta 7 3 9 0 0 0 0 0 [] [] [].
Lemma metadata_roundtrip_witness :
  exists page page', encodeMetadata meta1 = Ok page /\ checkMetadataPage page = Ok (metadataVersion, page').
Proof.
  destruct (metadata_roundtrip meta1 (sealed (metaFields meta1) metadataChecksumOffset) (u64_dec 7 eq_refl) (u64_dec 3 eq_refl)
    (u64_dec 9 eq_refl) (u64_dec 0 eq_refl) (u64_dec 0 eq_refl) (u64_dec 0 eq_refl) (u64_dec 0 eq_refl) (u64_dec 0 eq_refl)
    (encodeMetadata_layout meta1)) as (page' & H & _).
  exists (sealed (metaFields meta1) metadataChecksumOffset), page'. split; [apply encodeMetadata_layout|exact H].
Defined.

(** A page manager with page 1 live, page 2 free and page 3 pending. *)
Definition pm3 : pageManager := mkPM (mkFile (make (metadataSize + 3 * pageSize)) [] []) 4 3 1 1 [2] [] [3] {[2]} [].
Lemma pm3_inv : pm_inv {[1]} pm3.
Proof.
  split; cbn.
  - by vm_compute.
  - apply (bool_decide_unpack _). by vm_compute.
  - intros id. rewrite !elem_of_cons. intros [->|[->|H]]; [split; [lia|]; set_solver..|set_solver].
  - intros id ->%elem_of_singleton. lia.
  - set_solver.
Qed.
Lemma reservePage_correct_witness : exists id pm', reservePage pm3 = (Ok id, pm') /\ id ∉ owned pm'.
Proof.
  destruct (reservePage_correct {[1]} pm3 pm3_inv) as (id & pm' & H & _ & _ & Hn & _); [by vm_compute|].
  exists id, pm'. split; [exact H|exact Hn].
Defined.
Lemma freePage_correct_witness :
  (exists pm', freePage 1 pm3 = (Ok tt, pm')) /\ exists e, freePage 3 pm3 = (Err e, pm3).
Proof.
  destruct (freePage_correct {[1]} pm3 1 pm3_inv) as [H _].
  destruct (freePage_correct {[1]} pm3 3 pm3_inv) as [_ H'].
  destruct H as (pm' & E & _); [by apply elem_of_singleton|]. split; [by exists pm'|].
  apply H'. right. right. right. left.
Defined.
Lemma publishRoot_correct_witness :
  match publishRoot 1 pm3 with (Ok _, pm') => published {[1]} 1 pm3 pm' | (Err _, _) => True | _ => False end.
Proof. apply (publishRoot_correct {[1]} 1 pm3 pm3_inv). right. by apply elem_of_singleton. Defined.
Lemma writePage_readPage_witness :
  exists pm', writePage 1 (make pageSize) pm3 = (Ok tt, pm') /\ readPage 1 pm' = (Ok (make pageSize), pm').
Proof.
  destruct (writePage_readPage {[1]} pm3 1 (make pageSize) pm3_inv) as (pm' & H1 & H2 & _);
    [by apply elem_of_singleton|apply len_blank|done|by vm_compute|].
  exists pm'. split; [exact H1|exact H2].
Defined.
