(* ===== verification/DurableSpec.v ===== *)
(** * The committed generation in the file

    What a file must hold for a store to be recovered from it, that a running
    update touches none of it, and that a commit replaces it by the new
    generation in one step: whatever the file calls answer, what is in the file
    is the old generation or the new one. *)

From S2P Require Import Prelude KvList Errors Page PageTree PageNodeSpec PageTreeSpec File FreeList.
From S2P Require Import PageManager PageManagerSpec KV DiskSpec PublishSpec KVSpec RecoverySpec StorageResults.

(** ** The pages a running update has allocated *)

(** [w] is a running update of [db]: the file is untouched; the pages it wrote
    were free or beyond the end of the file, everything beyond the end is among
    them, and the pages it did not write are those of [db]. At most [B] page ids
    are in use when the promised allocations are done. *)
Record work_disk (db : KV) (B : Z) (w : work) (n : nat) : Prop := {
  wd_file : pm_file (w_pm w) = pm_file (k_pm db);
  wd_gen : generation (w_pm w) = generation (k_pm db);
  wd_retired : retiredPageIDs (w_pm w) = retiredPageIDs (k_pm db);
  wd_lists : freeListPageIDs (w_pm w) = freeListPageIDs (k_pm db);
  wd_free : forall id, id ∈ freePageIDs (w_pm w) -> id ∈ freePageIDs (k_pm db);
  wd_next : nextPageID (k_pm db) <= nextPageID (w_pm w);
  wd_cover : forall id, nextPageID (k_pm db) <= id < nextPageID (w_pm w) -> is_Some (w_pending w !! id);
  wd_pend : forall id p, w_pending w !! id = Some p -> w_working w !! id = Some p /\ len p = pageSize /\
    0 < id < nextPageID (w_pm w) /\ id ∉ freePageIDs (w_pm w) /\
    (id ∈ freePageIDs (k_pm db) \/ nextPageID (k_pm db) <= id);
  wd_old : forall id, w_pending w !! id = None -> w_working w !! id = k_pages db !! id;
  wd_bound : nextPageID (w_pm w) + Z.of_nat n <= B;
}.

(** [reservePage] by cases: the last free page, or the next id. *)
Lemma reservePage_cases live pm id pm' :
  pm_inv live pm -> reservePage pm = (Ok id, pm') ->
  pm_file pm' = pm_file pm /\ generation pm' = generation pm /\ retiredPageIDs pm' = retiredPageIDs pm /\
  freeListPageIDs pm' = freeListPageIDs pm /\ 0 < id < nextPageID pm' /\ id ∉ freePageIDs pm' /\
  (forall x, x ∈ freePageIDs pm' -> x ∈ freePageIDs pm) /\
  ((id ∈ freePageIDs pm /\ nextPageID pm' = nextPageID pm) \/ (id = nextPageID pm /\ nextPageID pm' = nextPageID pm + 1)).
Proof.
  intros I E. pose proof I as [Hn Hd Ho Hl Hs]. unfold reservePage in E.
  destruct (last (freePageIDs pm)) as [x|] eqn:El.
  - injection E as -> <-. apply last_removelast in El.
    assert (Hin : id ∈ freePageIDs pm) by (rewrite El; apply elem_of_app; right; left).
    assert (Hd' : NoDup (freePageIDs pm)) by (unfold owned in Hd; by apply NoDup_app in Hd as (? & _)).
    rewrite El in Hd'. apply NoDup_app in Hd' as (_ & Hd' & _).
    cbn. split_and!; try done.
    + apply Ho. unfold owned. apply elem_of_app. by left.
    + apply Ho. unfold owned. apply elem_of_app. by left.
    + intros Hx. apply (Hd' id Hx). left.
    + intros y Hy. rewrite El. apply elem_of_app. by left.
    + by left.
  - apply last_None in El. destruct (dataPageOffset (nextPageID pm)); try done. injection E as <- <-.
    pose proof maxPage_bound. rewrite u64_small by lia. cbn. rewrite El.
    split_and!; try done; try lia; by intros ?%not_elem_of_nil.
Qed.

Section Running.
Context (db : KV) (B : Z).

#[global] Instance work_disk_inv : WorkInv (work_disk db B).
Proof.
  split.
  - intros w n n' Hn []. split; try done. lia.
  - intros p w n [He Hi Hr] [] Hp. unfold ends, work_new. rewrite He.
    destruct (reservePage_ok _ _ Hi) as (id & pm' & E & _ & Hil & _); [lia|]. rewrite E.
    destruct (reservePage_cases _ _ _ _ Hi E) as (F1 & F2 & F3 & F4 & F5 & F6 & F7 & F8).
    split; cbn; try congruence.
    + intros x Hx. by apply wd_free0, F7.
    + destruct F8; lia.
    + intros x Hx. destruct (decide (x = id)) as [->|Hne]; [rewrite lookup_insert_eq; by eexists|].
      rewrite lookup_insert_ne by done. apply wd_cover0. destruct F8 as [[_ ?]|[? ?]]; lia.
    + intros x q. destruct (decide (x = id)) as [->|Hne].
      * rewrite !lookup_insert_eq. intros [= <-]. split_and!; try done; try lia.
        destruct F8 as [[? _]|[-> _]]; [left; by apply wd_free0|by right].
      * rewrite !lookup_insert_ne by done. intros Hq. destruct (wd_pend0 x q Hq) as (? & ? & ? & ? & ?).
        split_and!; try done; try lia; by intros ?%F7.
    + intros x Hx. assert (x <> id) by (intros ->; by rewrite lookup_insert_eq in Hx).
      rewrite lookup_insert_ne in Hx |- * by done. auto.
    + destruct F8; lia.
  - intros id w n Hid [He Hi Hr] []. unfold ends, work_del. rewrite He.
    assert (Hidd : id ∈ dom (visible w)) by (by apply elem_of_dom).
    pose proof (freePage_ok _ _ _ Hi Hidd) as (pm' & E & _). rewrite E. unfold freePage in E.
    destruct (validateExistingPageID _ _); try done. destruct (containsPageID _ _); [done|].
    destruct (_ || _); [done|]. injection E as <-. by split.
  - intros w root n []. by split.
Qed.
End Running.

(** ** The committed generation *)

(** Whatever slot [s] holds is not taken for a generation from [g] on. *)
Definition older (d : bytes) (s g : Z) : Prop := forall v page g',
  checkMetadataPage (block d s) = Ok (v, page) -> getU 8 page metadataGenerationOffset = @Ok error _ g' -> g' < g.

(** The bytes [d] hold the generation of [pm] with the tree pages [pages]. *)
Record committed (d : bytes) (pm : pageManager) (pages : gmap Z bytes) : Prop := {
  cm_gen : uint64 (generation pm);
  cm_count : 0 <= committedPageCount pm <= maxPage;
  cm_len : metadataSize + committedPageCount pm * pageSize <= len d;
  cm_slot : block d (commit_slot pm) = meta_page (commit_meta pm);
  cm_other : older d (1 - commit_slot pm) (generation pm);
  cm_pages : forall id b, pages !! id = Some b -> 0 < id <= committedPageCount pm /\ block d (page_block id) = b;
  cm_lists : forall q, q ∈ list_pages pm -> block d (page_block q.1) = q.2;
  cm_chain : chain_ok (freeListPageIDs pm) 0 (freePageIDs pm ++ retiredPageIDs pm);
  cm_nodes : len (freeListPageIDs pm) = chainPages (len (freePageIDs pm ++ retiredPageIDs pm));
  cm_ids : forall x, x ∈ freePageIDs pm ++ retiredPageIDs pm ++ freeListPageIDs pm ->
    0 < x <= committedPageCount pm /\ x ∉ dom pages;
  cm_nodup : NoDup (freePageIDs pm ++ retiredPageIDs pm ++ freeListPageIDs pm);
  cm_root : rootPageID pm = 0 \/ rootPageID pm ∈ dom pages;
}.

Lemma slot_range pm : 0 <= commit_slot pm <= 1.
Proof. unfold commit_slot. change metadataSlotCount with 2. pose proof (Z.mod_pos_bound (generation pm) 2). lia. Qed.
Lemma slot_next pm pm' : generation pm' = generation pm + 1 -> commit_slot pm' = 1 - commit_slot pm.
Proof.
  intros E. unfold commit_slot. rewrite E. change metadataSlotCount with 2.
  pose proof (Z.mod_pos_bound (generation pm) 2). pose proof (Z.mod_pos_bound (generation pm + 1) 2).
  pose proof (Z.div_mod (generation pm) 2). pose proof (Z.div_mod (generation pm + 1) 2). lia.
Qed.

(** Changes outside the generation's slot, tree pages and list pages keep it, as
    long as the other slot does not become newer. *)
Lemma committed_kept n (K : Z -> Prop) d d' pm pages :
  committed d pm pages -> kept n K d d' -> metadataSize + committedPageCount pm * pageSize <= n ->
  ~ K (commit_slot pm) -> older d' (1 - commit_slot pm) (generation pm) ->
  (forall id, id ∈ dom pages \/ id ∈ freeListPageIDs pm -> ~ K (page_block id)) ->
  committed d' pm pages.
Proof.
  intros [] [KL KS] Hn Hslot Hold HK.
  assert (Hb : forall id, 0 < id <= committedPageCount pm -> ~ K (page_block id) -> block d' (page_block id) = block d (page_block id)).
  { intros id Hid Hk. apply KS; [unfold page_block; lia| |done]. unfold page_block, pageSize in *.
    change metadataSize with 8192 in *. lia. }
  split; try done.
  - lia.
  - rewrite KS; [done|apply slot_range| |done]. pose proof (slot_range pm). unfold pageSize in *.
    change metadataSize with 8192 in *. lia.
  - intros id b Hi. destruct (cm_pages0 id b Hi) as [? <-]. split; [done|]. apply Hb; [done|].
    apply HK. left. by apply elem_of_dom_2 in Hi.
  - intros q Hq. rewrite <- (cm_lists0 q Hq).
    assert (Hin : q.1 ∈ freeListPageIDs pm).
    { unfold list_pages in Hq. rewrite <- (chain_ids (freeListPageIDs pm) 0 (freePageIDs pm ++ retiredPageIDs pm)).
      apply list_elem_of_fmap. by exists q. }
    apply Hb; [|apply HK; by right]. apply cm_ids0. rewrite !elem_of_app. by right; right.
Qed.

(** The blocks an update of [db] may write before it publishes. *)
Definition unowned (db : KV) (k : Z) : Prop := exists id, k = page_block id /\ 0 < id /\
  id ∉ dom (k_pages db) /\ id ∉ freeListPageIDs (k_pm db).
Lemma unowned_slot db s : s < 2 -> ~ unowned db s.
Proof. intros Hs (id & -> & Hid & _). unfold page_block in Hs. lia. Qed.
Lemma unowned_page db id : id ∈ dom (k_pages db) \/ id ∈ freeListPageIDs (k_pm db) -> ~ unowned db (page_block id).
Proof. intros H (id' & E & _ & H1 & H2). unfold page_block in E. assert (id' = id) as -> by lia. tauto. Qed.

Lemma committed_update n d d' db :
  committed d (k_pm db) (k_pages db) -> kept n (unowned db) d d' ->
  metadataSize + committedPageCount (k_pm db) * pageSize <= n -> committed d' (k_pm db) (k_pages db).
Proof.
  intros C Hk Hn. pose proof (slot_range (k_pm db)). pose proof (cm_count _ _ _ C).
  apply (committed_kept n (unowned db) d d'); try done.
  - apply unowned_slot. lia.
  - unfold older. rewrite (kp_same _ _ _ _ Hk); [apply C|lia| |apply unowned_slot; lia].
    unfold pageSize in *. change metadataSize with 8192 in *. lia.
  - apply unowned_page.
Qed.

(** A store whose file holds exactly its committed generation. *)
Record on_disk (db : KV) : Prop := {
  od_committed : committed (f_data (pm_file (k_pm db))) (k_pm db) (k_pages db);
  od_len : len (f_data (pm_file (k_pm db))) = metadataSize + (nextPageID (k_pm db) - 1) * pageSize;
  od_synced : f_synced (pm_file (k_pm db)) = f_data (pm_file (k_pm db));
  od_root : rootPageID (k_pm db) = k_root db;
}.

(** ** The contents a crash can leave *)

(** Every block is what was written last or what was synchronised last. *)
Record crash_image (f : file) (d : bytes) : Prop := {
  ci_len : Z.min (len (f_data f)) (len (f_synced f)) <= len d;
  ci_blocks : forall k, 0 <= k -> (k + 1) * pageSize <= Z.min (len (f_data f)) (len (f_synced f)) ->
    block d k = block (f_data f) k \/ block d k = block (f_synced f) k;
}.
Lemma crash_now f : crash_image f (f_data f).
Proof. split; [lia|by left]. Qed.
Lemma crash_synced f : crash_image f (f_synced f).
Proof. split; [lia|by right]. Qed.
Lemma crash_kept n K d0 f d : intact n K d0 f -> crash_image f d -> kept n K d0 d.
Proof.
  intros [[L1 S1] [L2 S2]] [CL CB]. split; [lia|]. intros k H0 Hk Hn.
  destruct (CB k) as [-> | ->]; [done|lia|by apply S1|by apply S2].
Qed.
(** Between updates a crash loses nothing. *)
Lemma disk_crash f db d :
  on_disk db -> f_data f = f_data (pm_file (k_pm db)) -> f_synced f = f_synced (pm_file (k_pm db)) -> crash_image f d ->
  committed d (k_pm db) (k_pages db).
Proof.
  intros O H1 H2 HC. eapply committed_update; [apply O| |apply (cm_len _ _ _ (od_committed _ O))].
  eapply (crash_kept _ _ _ f); [|exact HC]. split; rewrite ?H1, ?H2, ?(od_synced _ O); by apply kept_self.
Qed.

(** ** Growth *)

(** One update: at most one generation, and page numbers up to [B] and those of
    a free list over all of them. *)
Definition grows (B : Z) (db db' : KV) : Prop :=
  generation (k_pm db') <= generation (k_pm db) + 1 /\ nextPageID (k_pm db') <= B + chainPages (nextPageID (k_pm db')).
Lemma grows_none B db db' :
  generation (k_pm db') = generation (k_pm db) -> nextPageID (k_pm db') = nextPageID (k_pm db) -> 0 <= nextPageID (k_pm db) <= B ->
  grows B db db'.
Proof.
  intros Hg Hn HB. unfold grows. rewrite Hg, Hn. pose proof (chainPages_mono 0 (nextPageID (k_pm db)) ltac:(lia)) as H.
  change (chainPages 0) with 0 in H. lia.
Qed.

(** ** Commit *)

Lemma sortedPending_elem m id p : (id, p) ∈ sortedPending m <-> m !! id = Some p.
Proof.
  unfold sortedPending. rewrite list_elem_of_omap. split.
  - intros (x & _ & Hx). destruct (m !! x) as [q|] eqn:E; [|done]. by injection Hx as <- <-.
  - intros Hp. exists id. rewrite Hp. split; [|done].
    rewrite merge_sort_Permutation, elem_of_elements. by apply elem_of_dom_2 in Hp.
Qed.
Lemma omap_keys_sublist (m : gmap Z bytes) l : (omap (fun id => p ← m !! id; Some (id, p)) l).*1 `sublist_of` l.
Proof.
  induction l as [|x l IH]; [constructor|]. cbn. destruct (m !! x); cbn; [by apply sublist_skip|by apply sublist_cons].
Qed.
Lemma sortedPending_nodup m : NoDup (sortedPending m).*1.
Proof.
  eapply sublist_NoDup; [|apply omap_keys_sublist]. rewrite merge_sort_Permutation. apply NoDup_elements.
Qed.

Lemma chainPages_le x : 0 <= x -> chainPages x <= x.
Proof.
  intros Hx. unfold chainPages. change freeListPageCapacity with 508.
  destruct (decide (x = 0)) as [->|]; [done|]. apply Z.div_le_upper_bound; lia.
Qed.

Lemma meta_generation m : uint64 (m_generation m) ->
  checkMetadataPage (meta_page m) = Ok (metadataVersion, layout (metaFields m) (make pageSize)) /\
  getU 8 (layout (metaFields m) (make pageSize)) metadataGenerationOffset = @Ok error _ (m_generation m).
Proof.
  intros H. split; [unfold meta_page; exact (checkMetadata_sealed m)|].
  apply (getU_page 8 (metaFields m) 2); first [reflexivity|exact H].
Qed.
Lemma page_end id : (page_block id + 1) * pageSize = metadataSize + id * pageSize.
Proof. unfold page_block. change metadataSize with (2 * pageSize). lia. Qed.

Section Commit.
Context (db : KV) (B : Z) (w : work) (h' : nat) (kvs' : list kv).
Context (Inv : pm_inv (dom (k_pages db)) (k_pm db)) (O : on_disk db).
Context (R : work_room w 0) (D : work_disk db B w 0) (Hgen : generation (k_pm db) + 1 < 2 ^ 64).

Let d0 := f_data (pm_file (k_pm db)).
Let n0 := len d0.
Let ps := sortedPending (w_pending w).

Lemma commit_intact : intact n0 (unowned db) d0 (pm_file (w_pm w)).
Proof. rewrite (wd_file _ _ _ _ D). split; [|rewrite (od_synced _ O)]; by apply kept_self. Qed.

Lemma commit_writable : Forall (writable (w_pm w)) ps.
Proof.
  apply Forall_forall. intros [id p] Hq. apply sortedPending_elem in Hq.
  destruct (wd_pend _ _ _ _ D id p Hq) as (_ & Hl & Hid & Hf & _).
  pose proof (pi_next _ _ (wr_inv _ _ R)). split; [split; [cbn; lia|done]|]. cbn. split; [lia|].
  by rewrite (pi_set _ _ (wr_inv _ _ R)), elem_of_list_to_set.
Qed.
Lemma fresh_unowned id : id ∈ freePageIDs (k_pm db) ++ retiredPageIDs (k_pm db) \/ nextPageID (k_pm db) <= id ->
  unowned db (page_block id).
Proof.
  pose proof Inv as [Hn Hd Ho Hl Hs]. intros H. exists id. split; [done|]. destruct H as [H|H].
  - destruct (Ho id) as [? ?]; [unfold owned; rewrite !elem_of_app in *; tauto|]. split; [lia|]. split; [done|].
    intros Hli. unfold owned in Hd. rewrite app_assoc in Hd. apply NoDup_app in Hd as (_ & Hd & _).
    apply (Hd id H). apply elem_of_app. by right.
  - split; [lia|]. split; [intros Hx%Hl; lia|]. intros Hx. destruct (Ho id) as [? _]; [|lia].
    unfold owned. rewrite !elem_of_app. tauto.
Qed.
Lemma commit_unowned k : writes ps k -> unowned db k.
Proof.
  intros ([id p] & Hq & <-). apply sortedPending_elem in Hq.
  destruct (wd_pend _ _ _ _ D id p Hq) as (_ & _ & _ & _ & Hs). apply fresh_unowned. rewrite elem_of_app. tauto.
Qed.
Lemma commit_lists pm1 id : same_alloc (w_pm w) pm1 ->
  id ∈ freePageIDs pm1 ++ retiredPageIDs pm1 \/ nextPageID pm1 <= id -> unowned db (page_block id).
Proof.
  intros (Hn & _ & _ & Hf & Hr & _)%same_alloc_fields. rewrite Hn, Hf, Hr, (wd_retired _ _ _ _ D), elem_of_app.
  intros H. apply fresh_unowned. rewrite elem_of_app. pose proof (wd_next _ _ _ _ D).
  destruct H as [[H|H]|H]; [left; left; by apply (wd_free _ _ _ _ D)|tauto|right; lia].
Qed.

(** The file after the new pages and the new free list are written. *)
Context (pm1 : pageManager) (A1 : same_alloc (w_pm w) pm1) (D1 : f_data (pm_file pm1) = write_pages d0 ps).
Context (pmN : pageManager) (d1 : bytes) (root : Z).
Context (P : publication n0 (unowned db) d0 (dom (visible w)) pm1 root pmN d1).

Lemma sized_ps : Forall page_sized ps.
Proof. eapply Forall_impl; [apply commit_writable|]. by intros q [? _]. Qed.
Lemma commit_ids id : id ∈ freeListPageIDs pmN -> 0 < id < nextPageID pmN /\ id ∉ dom (visible w).
Proof. intros H. apply (pi_owned _ _ (pb_inv _ _ _ _ (pu_published _ _ _ _ _ _ _ _ P))). unfold owned. rewrite !elem_of_app. tauto. Qed.
Lemma sized_lists : Forall page_sized (list_pages pmN).
Proof.
  apply chain_sized; [apply (pu_chain _ _ _ _ _ _ _ _ P)|]. apply Forall_forall. intros id Hid.
  destruct (commit_ids id Hid). pose proof (rl_next _ _ (pu_lists _ _ _ _ _ _ _ _ P)). lia.
Qed.
Lemma list_ids q : q ∈ list_pages pmN -> q.1 ∈ freeListPageIDs pmN.
Proof.
  intros Hq. rewrite <- (chain_ids (freeListPageIDs pmN) 0 (freePageIDs pmN ++ retiredPageIDs pmN)).
  apply list_elem_of_fmap. by exists q.
Qed.
Lemma next_same : nextPageID pm1 = nextPageID (w_pm w).
Proof. by apply same_alloc_fields in A1 as [? _]. Qed.

Lemma commit_len : len d1 = metadataSize + (nextPageID pmN - 1) * pageSize.
Proof.
  pose proof (rl_next _ _ (pu_lists _ _ _ _ _ _ _ _ P)) as Hnx. rewrite next_same in Hnx.
  pose proof (wd_next _ _ _ _ D) as Hnw. rewrite (pu_data _ _ _ _ _ _ _ _ P), D1.
  assert (Hmono : forall a b, a <= b -> metadataSize + a * pageSize <= metadataSize + b * pageSize) by (unfold pageSize; intros; lia).
  apply Z.le_antisymm.
  - apply write_pages_bound; [apply sized_lists| |].
    + apply write_pages_bound; [apply sized_ps| |].
      * unfold d0. rewrite (od_len _ O). apply Hmono. lia.
      * intros [id p] Hq. apply sortedPending_elem in Hq. destruct (wd_pend _ _ _ _ D id p Hq) as (_ & _ & ? & _).
        rewrite page_end. apply Hmono. cbn. lia.
    + intros q Hq%list_ids%commit_ids. rewrite page_end. apply Hmono. lia.
  - destruct (decide (nextPageID pmN <= nextPageID (k_pm db))) as [Hle|Hgt].
    + etrans; [|apply write_pages_len_le, sized_lists]. etrans; [|apply write_pages_len_le, sized_ps].
      unfold d0. rewrite (od_len _ O). apply Hmono. lia.
    + destruct (decide (nextPageID pmN - 1 < nextPageID (w_pm w))) as [Hlt|Hge].
      * destruct (wd_cover _ _ _ _ D (nextPageID pmN - 1)) as [p Hp]; [lia|]. apply sortedPending_elem in Hp.
        etrans; [|apply write_pages_len_le, sized_lists].
        rewrite <- page_end. apply (write_pages_covers ps d0 (nextPageID pmN - 1, p)); [apply sized_ps|done].
      * pose proof (rl_new _ _ (pu_lists _ _ _ _ _ _ _ _ P) (nextPageID pmN - 1)) as Hin. rewrite next_same in Hin.
        specialize (Hin ltac:(lia)).
        rewrite <- (chain_ids (freeListPageIDs pmN) 0 (freePageIDs pmN ++ retiredPageIDs pmN)) in Hin.
        apply list_elem_of_fmap in Hin as (q & -> & Hq). rewrite <- page_end.
        apply (write_pages_covers (list_pages pmN)); [apply sized_lists|done].
Qed.

Lemma live_ids id b : visible w !! id = Some b -> 0 < id < nextPageID pmN.
Proof. intros Hb%elem_of_dom_2. apply (pi_live _ _ (pb_inv _ _ _ _ (pu_published _ _ _ _ _ _ _ _ P)) id Hb). Qed.

Lemma commit_page id b : visible w !! id = Some b -> block d1 (page_block id) = b.
Proof.
  intros Hb. pose proof (live_ids id b Hb) as Hid. rewrite (pu_data _ _ _ _ _ _ _ _ P), D1.
  assert (Hnl : ~ writes (list_pages pmN) (page_block id)).
  { intros (q & Hq%list_ids%commit_ids & E). unfold page_block in E. assert (q.1 = id) as Eq by lia.
    rewrite Eq in Hq. apply elem_of_dom_2 in Hb. tauto. }
  pose proof Hb as [Hw _]%visible_lookup. destruct (w_pending w !! id) as [p|] eqn:Ep.
  - destruct (wd_pend _ _ _ _ D id p Ep) as (Hw' & _). rewrite Hw in Hw'. injection Hw' as <-.
    apply sortedPending_elem in Ep. rewrite write_pages_other; [|apply sized_lists|unfold page_block; lia| |done].
    + apply write_pages_at; [apply sized_ps|apply sortedPending_nodup|done].
    + apply (write_pages_covers ps d0 (id, b)); [apply sized_ps|done].
  - rewrite (wd_old _ _ _ _ D id Ep) in Hw. destruct (cm_pages _ _ _ (od_committed _ O) id b Hw) as [Hc Hbl].
    pose proof (cm_len _ _ _ (od_committed _ O)) as Hl. fold d0 in Hl, Hbl.
    assert (Hin : (page_block id + 1) * pageSize <= len d0) by (rewrite page_end; unfold pageSize in *; lia).
    assert (Hnp : ~ writes ps (page_block id)).
    { intros ([x p] & Hq & E). apply sortedPending_elem in Hq. unfold page_block in E. cbn in E.
      assert (x = id) as -> by lia. by rewrite Ep in Hq. }
    rewrite write_pages_other; [|apply sized_lists|unfold page_block; lia| |done].
    + rewrite write_pages_other; [done|apply sized_ps|unfold page_block; lia|done..].
    + etrans; [exact Hin|apply write_pages_len_le, sized_ps].
Qed.

Context (Hr1 : generation pm1 = generation (k_pm db)).
Lemma commit_gen : generation pmN = generation (k_pm db) + 1.
Proof.
  rewrite (pb_gen _ _ _ _ (pu_published _ _ _ _ _ _ _ _ P)), Hr1.
  pose proof (cm_gen _ _ _ (od_committed _ O)) as [? _]. rewrite u64_small; lia.
Qed.
Lemma commit_growth : nextPageID pmN <= nextPageID (w_pm w) + chainPages (nextPageID pmN).
Proof.
  pose proof (pu_lists _ _ _ _ _ _ _ _ P) as L. pose proof (rl_next _ _ L) as Hn. rewrite next_same in Hn.
  pose proof (pu_published _ _ _ _ _ _ _ _ P) as [I _ _ _ _]. pose proof (pi_nodup _ _ I) as Hd. unfold owned in Hd.
  assert (Hlist : nextPageID pmN - nextPageID (w_pm w) <= len (freeListPageIDs pmN)).
  { assert (Hi : incl (seqZ (nextPageID (w_pm w)) (nextPageID pmN - nextPageID (w_pm w))) (freeListPageIDs pmN)).
    { intros x Hx%list_elem_of_In%elem_of_seqZ. apply list_elem_of_In, (rl_new _ _ L). rewrite next_same. lia. }
    apply NoDup_incl_length in Hi; [|apply NoDup_ListNoDup, NoDup_seqZ]. rewrite length_seqZ in Hi. unfold len. lia. }
  rewrite (rl_count _ _ L) in Hlist.
  assert (Hids : len (freePageIDs pmN ++ retiredPageIDs pmN) < nextPageID pmN).
  { apply ids_bounded; [apply I| |].
    - rewrite app_assoc in Hd. by apply NoDup_app in Hd as (? & _).
    - intros x Hx. apply (pi_owned _ _ I). unfold owned. rewrite !elem_of_app in *. tauto. }
  pose proof (chainPages_mono _ (nextPageID pmN) (Z.lt_le_incl _ _ Hids)). lia.
Qed.
Lemma commit_slots : commit_slot pmN = 1 - commit_slot (k_pm db).
Proof. apply slot_next, commit_gen. Qed.

(** Only the new generation's metadata slot differs from [d1]. *)
Context (d : bytes) (Hd : kept (len d1) (eq (commit_slot pmN)) d1 d).

Lemma commit_block k : 0 <= k -> k <> commit_slot pmN -> (k + 1) * pageSize <= len d1 -> block d k = block d1 k.
Proof. intros H0 Hne Hl. apply (kp_same _ _ _ _ Hd); [done|done|]. intros E. by apply Hne. Qed.
Lemma slots_in : 2 * pageSize <= n0.
Proof.
  unfold n0, d0. rewrite (od_len _ O). pose proof (pi_next _ _ Inv). change metadataSize with (2 * pageSize).
  unfold pageSize. lia.
Qed.
Lemma len_d1 : n0 <= len d1.
Proof. apply (kp_len _ _ _ _ (pu_kept _ _ _ _ _ _ _ _ P)). Qed.
(** The slot of the old generation. *)
Lemma commit_old_slot : block d (commit_slot (k_pm db)) = meta_page (commit_meta (k_pm db)).
Proof.
  pose proof (slot_range (k_pm db)) as Hs. pose proof slots_in as Hn. pose proof len_d1. pose proof commit_slots.
  rewrite commit_block; [|lia|lia|unfold pageSize in *; lia].
  rewrite (kp_same _ _ _ _ (pu_kept _ _ _ _ _ _ _ _ P)); [|lia|unfold pageSize in *; lia|apply unowned_slot; lia].
  apply (cm_slot _ _ _ (od_committed _ O)).
Qed.

Lemma page_in id : 0 < id < nextPageID pmN -> (page_block id + 1) * pageSize <= len d1.
Proof. intros Hid. rewrite page_end, commit_len. unfold pageSize. lia. Qed.
Lemma page_not_slot id : 0 < id -> page_block id <> commit_slot pmN.
Proof. intros Hid. pose proof (slot_range pmN). unfold page_block. lia. Qed.

Lemma commit_new :
  root = 0 \/ root ∈ dom (visible w) -> block d (commit_slot pmN) = meta_page (commit_meta pmN) ->
  committed d pmN (visible w).
Proof.
  intros Hroot Hslot. pose proof P as [[P1 P2 P3 P4 P5] PL PC Pn PD PK].
  pose proof commit_gen as Hg. pose proof (pi_next _ _ P1) as Hnx.
  assert (Hown : forall x, x ∈ freePageIDs pmN ++ retiredPageIDs pmN ++ freeListPageIDs pmN -> x ∈ owned pmN)
    by (unfold owned; intros x; rewrite !elem_of_app; tauto).
  split.
  - rewrite Hg. pose proof (cm_gen _ _ _ (od_committed _ O)) as [? _]. unfold uint64. lia.
  - rewrite Pn. lia.
  - rewrite Pn, <- commit_len. apply (kp_len _ _ _ _ Hd).
  - done.
  - intros v page g'. rewrite commit_slots. replace (1 - (1 - commit_slot (k_pm db))) with (commit_slot (k_pm db)) by lia.
    rewrite commit_old_slot. destruct (meta_generation (commit_meta (k_pm db))) as [-> Hgen'].
    { apply (cm_gen _ _ _ (od_committed _ O)). }
    intros E%ok_inj Hg'. apply (f_equal snd) in E. cbn [snd] in E. rewrite <- E, Hgen' in Hg'. apply ok_inj in Hg'.
    rewrite <- Hg', Hg. cbn [m_generation commit_meta meta_of]. lia.
  - intros id b Hb. pose proof (live_ids id b Hb). rewrite Pn. split; [lia|].
    rewrite commit_block; [by apply commit_page|unfold page_block; lia|apply page_not_slot; lia|by apply page_in].
  - intros q Hq. destruct (commit_ids q.1 (list_ids q Hq)) as [? _].
    rewrite commit_block; [|unfold page_block; lia|apply page_not_slot; lia|by apply page_in].
    rewrite PD. destruct q as [id p]. apply write_pages_at; [apply sized_lists| |done]. unfold list_pages. rewrite chain_ids.
    pose proof (pi_nodup _ _ P1) as Hnd. unfold owned in Hnd. rewrite !app_assoc in Hnd. by apply NoDup_app in Hnd as (_ & _ & ?).
  - done.
  - apply PL.
  - intros x Hx%Hown. destruct (pi_owned _ _ P1 x Hx). rewrite Pn. split; [lia|done].
  - pose proof (pi_nodup _ _ P1) as Hnd. unfold owned in Hnd. rewrite P4 in Hnd. exact Hnd.
  - rewrite P2. done.
Qed.

Lemma commit_old : older d (commit_slot pmN) (generation (k_pm db)) -> committed d (k_pm db) (k_pages db).
Proof.
  intros Hold. pose proof (slot_range (k_pm db)) as Hs. pose proof commit_slots as Hsl.
  assert (Hk : kept n0 (fun k => unowned db k \/ k = commit_slot pmN) d0 d).
  { eapply kept_trans.
    - eapply kept_mono; [apply (pu_kept _ _ _ _ _ _ _ _ P)|reflexivity|]. by left.
    - eapply kept_mono; [exact Hd|apply len_d1|]. by right. }
  apply (committed_kept n0 (fun k => unowned db k \/ k = commit_slot pmN) d0 d); [apply O|exact Hk| | | |].
  - unfold n0. apply (cm_len _ _ _ (od_committed _ O)).
  - intros [H|H]; [|lia]. revert H. apply unowned_slot. lia.
  - by rewrite <- Hsl.
  - intros id Hid [H|H]; [by apply (unowned_page db id)|]. revert H. apply page_not_slot.
    destruct Hid as [[b Hb]%elem_of_dom|Hid].
    + by apply (cm_pages _ _ _ (od_committed _ O)) in Hb as [[? _] _].
    + destruct (cm_ids _ _ _ (od_committed _ O) id) as [[? _] _]; [rewrite !elem_of_app; tauto|done].
Qed.
End Commit.
