(* ===== verification/CommitSpec.v ===== *)
(** * Updates of the durable store and their file

    An update of a store whose file holds its committed generation: without I/O
    faults it succeeds and the file holds the new generation; with faults, what a
    crash at any point leaves is the old generation or the new one, unless a
    half-written metadata page passes its checksum. *)

From S2P Require Import Prelude KvList Errors Page PageTree PageNodeSpec PageTreeSpec File FreeList.
From S2P Require Import PageManager PageManagerSpec KV DiskSpec PublishSpec KVSpec RecoverySpec StorageResults.
From S2P Require Import DurableSpec.

(** ** A half-written metadata slot *)

(** The first [j] bytes of the new page over the old one. *)
Definition torn (j : nat) (new old : bytes) : bytes := take j new ++ drop j old.
Definition accepted (page : bytes) : Prop := exists r, checkMetadataPage page = Ok r.
(** Slot [s] of [d] holds a mixture of its old page and some metadata page that
    is neither of the two and passes the checks of [readRootMetadataSlot]. *)
Definition collision (old : bytes) (s : Z) (d : bytes) : Prop := exists m j,
  block d s = torn j (meta_page m) old /\ block d s <> meta_page m /\ block d s <> old /\ accepted (block d s).

Lemma block_write_prefix d k j p :
  0 <= k -> (k + 1) * pageSize <= len d -> len p = pageSize ->
  block (write_data d (k * pageSize) (take j p)) k = torn j p (block d k).
Proof.
  intros Hk Hl Hp. unfold block, write_data, torn. set (q := take j p).
  assert (Hq : length q = Nat.min j (length p)) by (unfold q; apply length_take).
  destruct (len q =? 0) eqn:E; zbool.
  { assert (j = 0%nat) as -> by (unfold len, pageSize in *; lia). done. }
  assert (Hlq : len q <= pageSize) by (unfold len in *; lia). unfold pageSize in *.
  assert (Hm : make (k * 4096 + len q - len d) = []) by (unfold make; replace (Z.to_nat _) with 0%nat by lia; done).
  rewrite Hm, app_nil_r. unfold sub, upd. unfold len in *.
  rewrite drop_app_le by (rewrite length_take; lia).
  rewrite (drop_ge (take _ _)) by (rewrite length_take; lia). cbn [app].
  rewrite take_app_ge by lia. f_equal.
  rewrite skipn_firstn_comm, drop_drop. destruct (decide (j <= length p)%nat) as [Hj|Hj].
  - f_equal; [lia|]. f_equal. lia.
  - rewrite Hq. replace (Z.to_nat 4096 - (j `min` length p))%nat with 0%nat by lia.
    replace (Z.to_nat 4096 - j)%nat with 0%nat by lia. done.
Qed.

(** What a crash leaves of an update of [db]: the committed generation, or a
    generation with tree pages and root as [N] says. *)
Definition survives (db : KV) (N : gmap Z bytes -> Z -> Prop) (d : bytes) : Prop :=
  committed d (k_pm db) (k_pages db) \/
  (exists pm pages, committed d pm pages /\ N pages (rootPageID pm)) \/
  collision (block (f_data (pm_file (k_pm db))) (1 - commit_slot (k_pm db))) (1 - commit_slot (k_pm db)) d.

Lemma accepted_dec page : len page = pageSize -> accepted page \/ forall d s g, block d s = page -> older d s g.
Proof.
  intros Hl. pose proof (checkMetadataPage_gives page Hl) as G. unfold accepted, older.
  destruct (checkMetadataPage page) as [r| | |] eqn:E; [left; by eexists|right..]; intros d s g Hb v p g'; rewrite Hb, E; done.
Qed.

Lemma intact_survives db N f d :
  on_disk db -> intact (len (f_data (pm_file (k_pm db)))) (unowned db) (f_data (pm_file (k_pm db))) f ->
  crash_image f d -> survives db N d.
Proof.
  intros O HI HC. left. eapply committed_update; [apply O|by eapply crash_kept|]. apply (cm_len _ _ _ (od_committed _ O)).
Qed.

Section Update.
Context (db : KV) (B : Z) (Inv : pm_inv (dom (k_pages db)) (k_pm db)) (O : on_disk db).
Context (Hgen : generation (k_pm db) + 1 < 2 ^ 64).
Let d0 := f_data (pm_file (k_pm db)).
Let n0 := len d0.

Lemma torn_survives w pm1 f d N :
  work_room w 0 -> work_disk db B w 0 -> same_alloc (w_pm w) pm1 ->
  f_data (pm_file pm1) = write_pages d0 (sortedPending (w_pending w)) ->
  w_root w = 0 \/ w_root w ∈ dom (visible w) -> N (visible w) (w_root w) ->
  slot_torn n0 (unowned db) d0 (dom (visible w)) pm1 (w_root w) f -> crash_image f d ->
  survives db N d.
Proof.
  intros R D A1 D1 Hroot HN (pmN & d1 & j & P & Fd & Fs) HC.
  assert (Hr1 : generation pm1 = generation (k_pm db)).
  { apply same_alloc_fields in A1 as (_ & _ & -> & _). apply D. }
  pose proof (commit_slots db w O Hgen pm1 pmN d1 (w_root w) P Hr1) as Hsl.
  pose proof (slot_range (k_pm db)) as Hs. pose proof (slots_in db Inv O) as Hn0. fold d0 in Hn0.
  pose proof (kp_len _ _ _ _ (pu_kept _ _ _ _ _ _ _ _ P)) as Hl1. set (s := commit_slot pmN) in *.
  set (page := meta_page (commit_meta pmN)) in *.
  assert (Hin : (s + 1) * pageSize <= len d1) by (unfold n0, pageSize in *; lia).
  assert (HI : intact (len d1) (eq s) d1 f).
  { split; [rewrite Fd; apply kept_write; [done|lia|done|]|rewrite Fs; by apply kept_self].
    unfold page. pose proof (len_meta_page (commit_meta pmN)). unfold len in *. rewrite length_take. lia. }
  pose proof (crash_kept _ _ _ _ _ HI HC) as Hd.
  assert (Hb1 : block d1 s = block d0 s).
  { apply (kp_same _ _ _ _ (pu_kept _ _ _ _ _ _ _ _ P)); [lia|unfold n0, pageSize in *; lia|apply unowned_slot; lia]. }
  assert (Hnew : block d s = page -> survives db N d).
  { intros Hpg. right; left. exists pmN, (visible w). split; [by apply (commit_new db B w Inv O R D Hgen pm1 A1 D1 pmN d1 (w_root w))|].
    by rewrite (pb_root _ _ _ _ (pu_published _ _ _ _ _ _ _ _ P)). }
  assert (Hold : older d s (generation (k_pm db)) -> survives db N d).
  { intros Ho. left. by apply (commit_old db w O Hgen pm1 pmN d1 (w_root w) P Hr1 d Hd). }
  assert (Hsame : block d s = block d0 s -> survives db N d).
  { intros E. apply Hold. unfold older. rewrite E. pose proof (cm_other _ _ _ (od_committed _ O)) as Ho.
    rewrite <- Hsl in Ho. exact Ho. }
  destruct (ci_blocks _ _ HC s) as [E|E].
  { lia. } { rewrite Fd, Fs. pose proof (len_write_le d1 s (take j page)). lia. }
  2:{ apply Hsame. by rewrite E, Fs. }
  rewrite Fd, block_write_prefix in E; [|lia|done|apply len_meta_page]. rewrite Hb1 in E.
  destruct (beqb (block d s) page) eqn:E1; [by apply Hnew, beqb_eq|].
  destruct (beqb (block d s) (block d0 s)) eqn:E2; [by apply Hsame, beqb_eq|].
  apply beqb_neq in E1, E2.
  destruct (accepted_dec (block d s)) as [Ha|Hr]; [|right; right; rewrite <- Hsl|by apply Hold, Hr].
  - unfold block. rewrite len_sub; [done|unfold pageSize; lia|done|]. pose proof (kp_len _ _ _ _ Hd). unfold pageSize in *. lia.
  - exists (commit_meta pmN), j. done.
Qed.

Lemma rollback_intact pm f :
  pm_file pm = f -> intact n0 (unowned db) d0 f -> intact n0 (unowned db) d0 (pm_file (k_pm (rollback db pm n0))).
Proof.
  intros <- [H1 H2]. unfold rollback, on_file, Truncate, checked, next_fault, get_data, set_data, bind. cbn.
  assert (Ht : kept n0 (unowned db) d0 (sub (f_data (pm_file pm)) 0 n0 ++ make (n0 - len (f_data (pm_file pm))))).
  { eapply kept_trans; [exact H1|]. apply kept_truncate; [done|apply H1]. }
  destruct (f_faults (pm_file pm)) as [|[|k] fs]; by split.
Qed.

(** Committing a changed tree. *)
Lemma commitWork_disk fuel w h' kvs' (N : gmap Z bytes -> Z -> Prop) :
  work_tree w h' kvs' -> work_room w 0 -> work_disk db B w 0 -> (h' < fuel)%nat -> 2 * B <= maxPage + 1 ->
  N (visible w) (w_root w) ->
  match commitWork fuel db w n0 with
  | (Ok _, db') => on_disk db' /\ (calm (pm_file (k_pm db)) -> calm (pm_file (k_pm db'))) /\ N (k_pages db') (k_root db') /\
      grows B db db'
  | (Err _, db') => (forall d, crash_image (pm_file (k_pm db')) d -> survives db N d) /\ ~ calm (pm_file (k_pm db))
  | (Panic, _) | (NoFuel, _) => False
  end.
Proof.
  intros T R D Hf HB HN. pose proof (wd_file _ _ _ _ D) as Hfile. pose proof (work_root _ _ _ T) as Hroot. unfold commitWork.
  assert (W : pruns (intact n0 (unowned db) d0) (_ <~ writePages (sortedPending (w_pending w)) ;; on_file Sync) (w_pm w)
    (fun _ pm1 => same_alloc (w_pm w) pm1 /\ f_data (pm_file pm1) = write_pages d0 (sortedPending (w_pending w)))).
  { eapply runs_bind.
    - apply (writePages_runs n0 (unowned db) d0); [by apply (commit_intact db B w)|by apply (commit_writable db B w)|].
      by apply (commit_unowned db B w).
    - cbn beta. intros _ pm1 I1 (A1 & E1 & _). eapply runs_mono; [apply on_file_runs, Sync_runs, I1|].
      cbn beta. intros _ pm2 I2 ((E2 & _) & A2). split; [by eapply same_alloc_trans|]. rewrite E2, E1, Hfile. done. }
  unfold runs, ends in W. rewrite Hfile in W.
  destruct ((_ <~ writePages (sortedPending (w_pending w)) ;; on_file Sync) (w_pm w)) as [[u|e| |] pm1]; try done.
  2:{ destruct W as [I1 Hc]. split; [|done]. intros d HC. eapply intact_survives; [done| |exact HC].
      by eapply rollback_intact. }
  destruct W as (I1 & C1 & A1 & E1).
  assert (Hr1 : generation pm1 = generation (k_pm db)) by (apply same_alloc_fields in A1 as (_ & _ & -> & _); apply D).
  pose proof (pm_inv_alloc _ _ _ (wr_inv _ _ R) A1) as Inv1.
  pose proof (publishRoot_runs n0 (unowned db) d0 (dom (visible w)) pm1 Inv1 I1) as PR.
  specialize (PR ltac:(intros id; by apply (commit_lists db B w)) (w_root w) Hroot). unfold ends in PR.
  destruct (publishRoot (w_root w) pm1) as [[u'|e| |] pm2]; try done.
  - rewrite (reachable_visible fuel w h' kvs' T Hf). destruct PR as (d1 & P & Fd & Fs & Fc). split_and!; [|auto|done|].
    2:{ pose proof (commit_gen db w O Hgen pm1 pm2 d1 (w_root w) P Hr1). pose proof (wd_bound _ _ _ _ D).
      pose proof (commit_growth db w pm1 A1 pm2 d1 (w_root w) P). unfold grows. cbn [k_pm]. lia. }
    pose proof (commit_slots db w O Hgen pm1 pm2 d1 (w_root w) P Hr1) as Hsl. pose proof (slot_range (k_pm db)) as Hs.
    pose proof (commit_len db B w O R D pm1 A1 E1 pm2 d1 (w_root w) P) as Hlen. pose proof (slots_in db Inv O) as Hn0.
    pose proof (kp_len _ _ _ _ (pu_kept _ _ _ _ _ _ _ _ P)) as Hl1.
    assert (Hp : len (meta_page (commit_meta pm2)) = pageSize) by apply len_meta_page.
    split; cbn [k_pm k_pages k_root]; rewrite ?Fd, ?Fs; [| |exact Fd|].
    + apply (commit_new db B w Inv O R D Hgen pm1 A1 E1 pm2 d1 (w_root w) P Hr1); [|done|by apply block_write; [lia|]].
      apply kept_write; [done|lia|done|lia].
    + rewrite len_write by (lia || done). rewrite <- Hlen. fold d0 in Hn0. unfold n0, pageSize in *. lia.
    + apply (pu_published _ _ _ _ _ _ _ _ P).
  - destruct PR as [Hor Hfull]. split.
    + intros d HC. destruct Hor as [HI|HT].
      * by eapply intact_survives.
      * by eapply (torn_survives w pm1 (pm_file pm2)).
    + intros Hc%C1%Hfull. unfold list_full in Hc.
      assert (len (owned pm1) < nextPageID pm1).
      { apply ids_bounded; [apply Inv1|apply Inv1|]. intros x Hx. by apply (pi_owned _ _ Inv1). }
      pose proof (chainPages_le (len (owned pm1)) (len_nonneg _)). pose proof (wd_bound _ _ _ _ D).
      apply same_alloc_fields in A1 as [A1 _]. lia.
Qed.
End Update.

(** ** Updates *)

(** Nothing but the coming faults of the file tells the two stores apart. *)
Lemma committed_file d pm pages f : committed d pm pages -> committed d (set_file f pm) pages.
Proof. by intros []; split. Qed.
Lemma set_file_id f f' pm : set_file f' (set_file f pm) = set_file f' pm.
Proof. done. Qed.
Lemma set_file_same pm : set_file (pm_file pm) pm = pm.
Proof. by destruct pm. Qed.

(** The store a restart of the running update's file calls leaves. *)
Definition with_file (f : file) (db : KV) : KV :=
  mkKV (set_file f (k_pm db)) (k_root db) (k_pages db) (k_closed db) (k_uncertain db).

Lemma on_disk_file f db : on_disk db -> f_data f = f_data (pm_file (k_pm db)) -> f_synced f = f_synced (pm_file (k_pm db)) ->
  on_disk (with_file f db).
Proof. intros [C L S R] Hd Hs. split; cbn; rewrite ?Hd, ?Hs; try done. by apply committed_file. Qed.
Lemma survives_file f db N d : f_data f = f_data (pm_file (k_pm db)) -> survives (with_file f db) N d -> survives db N d.
Proof.
  intros Hd [C|[C|C]]; [left|right; by left|right; right].
  - rewrite <- (set_file_same (k_pm db)), <- (set_file_id f). by apply committed_file.
  - cbn in C. rewrite Hd in C. exact C.
Qed.

(** A rollback of an update that wrote nothing restores the store. *)
Lemma rollback_disk db pm :
  on_disk db -> pm_file pm = pm_file (k_pm db) -> freePageSet (k_pm db) = list_to_set (freePageIDs (k_pm db)) ->
  exists f, rollback db pm (len (f_data (pm_file (k_pm db)))) = with_file f db /\
    f_data f = f_data (pm_file (k_pm db)) /\ f_synced f = f_synced (pm_file (k_pm db)) /\
    (calm (pm_file (k_pm db)) -> calm f).
Proof.
  intros O Hf Hs. unfold rollback, on_file, Truncate, checked, next_fault, get_data, set_data, bind. cbn [pm_file restore]. rewrite Hf.
  assert (Ht : sub (f_data (pm_file (k_pm db))) 0 (len (f_data (pm_file (k_pm db)))) ++
    make (len (f_data (pm_file (k_pm db))) - len (f_data (pm_file (k_pm db)))) = f_data (pm_file (k_pm db))).
  { rewrite sub_all, Z.sub_diag. apply app_nil_r. }
  unfold calm. destruct (f_faults (pm_file (k_pm db))) as [|[|k] fs] eqn:E; cbn; rewrite ?Ht;
    (eexists (mkFile _ _ _); split; [unfold with_file, set_file; cbn; rewrite Hs; reflexivity|done]).
Qed.

(** Asking for the size of the file of such a store. *)
Lemma stat_disk db live : on_disk db -> pm_inv live (k_pm db) -> nextPageID (k_pm db) <= maxPage ->
  let f := pm_file (k_pm db) in
  pruns (fun f' => f_data f' = f_data f /\ f_synced f' = f_synced f) (on_file StatSize) (k_pm db)
    (fun sz pm => sz = len (f_data f) /\ pm = set_file (pm_file pm) (k_pm db)).
Proof.
  intros O I Hn f. assert (Hsize : len (f_data f) <= maxInt64).
  { unfold f. rewrite (od_len _ O). unfold maxPage in Hn.
    pose proof (Z.mul_div_le (maxInt64 - metadataSize) pageSize ltac:(done)) as Hq. revert Hq Hn.
    generalize ((maxInt64 - metadataSize) / pageSize). pose proof (pi_next _ _ I). assert (0 < metadataSize) by done.
    unfold pageSize. intros q. lia. }
  pose proof (StatSize_runs (fun f' => f_data f' = f_data f /\ f_synced f' = f_synced f) f) as H.
  specialize (H ltac:(done) ltac:(done) Hsize). unfold runs, ends, on_file in *. fold f.
  destruct (StatSize f) as [[sz|e| |] f']; try done. cbn. destruct H as (? & ? & ? & _). done.
Qed.

Lemma update_disk fuel change db h kvs n hmax B (Q : bool -> list kv -> Prop) (E : error -> Prop) :
  kv_rep db h kvs -> k_uncertain db = false -> on_disk db -> generation (k_pm db) + 1 < 2 ^ 64 ->
  Z.of_nat n <= pm_room (k_pm db) -> nextPageID (k_pm db) + Z.of_nat n <= B -> 2 * B <= maxPage + 1 ->
  (h <= hmax < fuel)%nat ->
  (forall db1 w, visible w = k_pages db -> work_tree w h kvs -> wroom (work_disk db1 B) w n ->
     ends change w (fun b w' => exists h' kvs', (h' <= hmax)%nat /\ work_tree w' h' kvs' /\ wroom (work_disk db1 B) w' 0 /\ Q b kvs')
       (fun e w' => wroom (work_disk db1 B) w' 0 /\ E e)) ->
  let f := pm_file (k_pm db) in
  match update fuel change db with
  | (Ok b, db') => on_disk db' /\ (calm f -> calm (pm_file (k_pm db'))) /\ grows B db db'
  | (Err e, db') =>
      (forall d, crash_image (pm_file (k_pm db')) d ->
         survives db (fun pages root => exists h' kvs', (h' <= hmax)%nat /\ tree pages h' root kvs' (dom pages) /\ Q true kvs') d) /\
      (calm f -> (exists e0, e = EJoin [e0] /\ E e0) /\ on_disk db' /\ calm (pm_file (k_pm db')) /\ k_uncertain db' = false /\
         grows B db db')
  | (Panic, _) | (NoFuel, _) => False
  end.
Proof.
  intros K Hu O Hgen Hn HnB HB Hh Hch f. unfold update, beginUpdate, endUpdate, newWork. rewrite Hu. pose proof K as [KT KI].
  set (N := fun pages root => exists h' kvs', (h' <= hmax)%nat /\ tree pages h' root kvs' (dom pages) /\ Q true kvs').
  pose proof (stat_disk db (dom (k_pages db)) O KI ltac:(pose proof (pi_next _ _ KI); lia)) as St. fold f in St.
  unfold runs, ends in St. destruct (on_file StatSize (k_pm db)) as [[size|e| |] pm]; try done.
  2:{ destruct St as [[H1 H2] Hc]. split; [|done]. intros d HC. left. by apply (disk_crash (pm_file pm)). }
  destruct St as ([H1 H2] & Hc & -> & Hpm). set (f1 := pm_file pm) in *. rewrite Hpm. clearbody f1. clear pm Hpm.
  set (db1 := with_file f1 db). change (mkKV (set_file f1 (k_pm db)) (k_root db) (k_pages db) (k_closed db) (k_uncertain db)) with db1.
  pose proof (on_disk_file f1 db O H1 H2) as O1. fold db1 in O1.
  assert (I1 : pm_inv (dom (k_pages db1)) (k_pm db1)) by (destruct KI; by split).
  set (w0 := mkWork (set_file f1 (k_pm db)) (k_root db1) (k_pages db1) ∅ None).
  assert (Hv : visible w0 = k_pages db).
  { unfold visible. apply map_filter_id. intros id b Hb. cbn. intros Hp. apply elem_of_dom_2 in Hb.
    apply (pi_owned _ _ I1 id); [unfold owned; cbn; set_solver|exact Hb]. }
  assert (R0 : wroom (work_disk db1 B) w0 n).
  { split; [split; [done|by rewrite Hv|exact Hn]|]. split; try done; cbn; intros; lia. }
  specialize (Hch db1 w0 Hv ltac:(unfold work_tree; rewrite Hv; exact KT) R0). unfold ends in Hch. cbv zeta.
  change (mkWork (k_pm db1) (k_root db1) (k_pages db1) ∅ None) with w0.
  assert (Hrb : forall w', wroom (work_disk db1 B) w' 0 -> exists f', rollback db1 (w_pm w') (len (f_data f)) = with_file f' db1 /\
    on_disk (with_file f' db1) /\ (calm f -> calm f') /\ grows B db (with_file f' db1)).
  { intros w' [_ D']. destruct (rollback_disk db1 (w_pm w') O1 (wd_file _ _ _ _ D') (pi_set _ _ I1)) as (f' & E' & F1 & F2 & F3).
    change (f_data (pm_file (k_pm db1))) with (f_data f1) in E'. rewrite H1 in E'.
    exists f'. split; [exact E'|]. split; [by apply on_disk_file|]. split; [auto|].
    apply grows_none; [done..|]. pose proof (wd_next _ _ _ _ D'). pose proof (wd_bound _ _ _ _ D'). pose proof (pi_next _ _ KI).
    cbn in *. lia. }
  destruct (change w0) as [[b|e| |] w']; try done.
  - destruct Hch as (h' & kvs' & Hh' & T' & [R' D'] & HQ). rewrite (wr_err _ _ R'). destruct b.
    + pose proof (commitWork_disk db1 B I1 O1 Hgen fuel w' h' kvs' N T' R' D') as C.
      specialize (C ltac:(lia) HB ltac:(by exists h', kvs')).
      change (f_data (pm_file (k_pm db1))) with (f_data f1) in C. rewrite H1 in C.
      destruct (commitWork fuel db1 w' (len (f_data f))) as [[r|e| |] db2]; try done.
      * destruct C as (C1 & C2 & _ & C3). split; [done|]. split; [|exact C3]. intros Hcalm. by apply C2, Hc.
      * destruct C as [C1 C2]. split; [|intros Hcalm; exfalso; by apply C2, Hc].
        intros d HC. eapply survives_file; [|by apply C1]. done.
    + destruct (Hrb w' (conj R' D')) as (f' & -> & O' & Hc' & Hg). done.
  - destruct Hch as [[R' D'] HE]. rewrite (wr_err _ _ R'). destruct (Hrb w' (conj R' D')) as (f' & -> & O' & Hc' & Hg).
    split; [|intros Hcalm; split; [by exists e|split; [exact O'|split; [by apply Hc'|by split]]]]. intros d HC. left.
    pose proof (disk_crash _ _ d O' eq_refl eq_refl HC) as C'.
    rewrite <- (set_file_same (k_pm db)), <- (set_file_id f'). by apply committed_file.
Qed.
