(* ===== verification/WalkSpec.v ===== *)
(** * Loading a committed tree

    [loadCommittedPages] accepts a tree of the representation invariant whose
    nodes pass the balance tests of the walk, and loads exactly its pages. *)

From S2P Require Import Prelude KvList Errors Page PageTree PageNodeSpec PageTreeSpec File FreeList.
From S2P Require Import PageManager PageManagerSpec PublishSpec KV KVSpec RecoverySpec.

(** ** The balance tests *)

(** The tests of [walk] that the tree operations do not establish: no underfull
    child of an internal node fits beside a neighbour, and an internal root has
    two children. *)
Definition settled_node (pages : gmap Z bytes) (q : Z * bytes) : bool :=
  match btype q.2, nkeys q.2 with
  | Ok ty, Ok n =>
      negb (ty =? nodeTypeInternal) || is_ok (checkSiblings (Z.to_nat n) q.1 q.2 n 0 pages)
  | _, _ => false
  end.
Definition wide_root (node : bytes) : bool :=
  match btype node, nkeys node with
  | Ok ty, Ok n => negb ((ty =? nodeTypeInternal) && (n <? 2))
  | _, _ => false
  end.
Definition settled (pages : gmap Z bytes) (root : Z) : bool :=
  forallb (settled_node pages) (map_to_list pages) &&
  match pages !! root with Some node => wide_root node | None => true end.

Lemma settled_at pages root id b : settled pages root = true -> pages !! id = Some b -> settled_node pages (id, b) = true.
Proof.
  intros [H _]%andb_true_iff Hb. rewrite forallb_forall in H. apply H, list_elem_of_In. by apply elem_of_map_to_list.
Qed.

Lemma checkSiblings_agree node ces pages pages' id todo : forall i,
  page_of node nodeTypeInternal ces -> (i + todo = length ces)%nat ->
  (forall c, c ∈ ces -> pages' !! e_ptr c = pages !! e_ptr c) ->
  checkSiblings todo id node (len ces) (Z.of_nat i) pages' = checkSiblings todo id node (len ces) (Z.of_nat i) pages.
Proof.
  intros i [B _] Hi Hag. revert i Hi. pose proof (built_bounds B) as Hb.
  assert (Hptr : forall j, (j < length ces)%nat -> exists c, c ∈ ces /\ getPtr node (u16 (Z.of_nat j)) = Ok (e_ptr c)).
  { intros j Hj. destruct (lookup_lt_is_Some_2 ces j Hj) as [c Hc]. exists c. split; [by eapply list_elem_of_lookup_2|].
    rewrite u16_small; [by apply (built_getPtr B)|]. unfold len in *. lia. }
  induction todo as [|todo IH]; intros i Hi; cbn [checkSiblings]; [done|]. cbn zeta.
  destruct (Hptr i) as (c & Hc & ->); [lia|]. rewrite (Hag c Hc).
  replace (Z.of_nat i + 1) with (Z.of_nat (S i)) by lia. rewrite IH by lia.
  destruct (nbytes _); try done. destruct (_ >? _); [done|].
  assert (Hl : forall (k : Z -> res unit) (k' : Z -> res unit), (forall s, k s = k' s) ->
    (if Z.of_nat i >? 0 then l <- getPtr node (u16 (Z.of_nat i - 1)) ;;
       s <- encodedMergeSize (default [] (pages' !! l)) (default [] (pages !! e_ptr c)) ;; k s else Ok tt) =
    (if Z.of_nat i >? 0 then l <- getPtr node (u16 (Z.of_nat i - 1)) ;;
       s <- encodedMergeSize (default [] (pages !! l)) (default [] (pages !! e_ptr c)) ;; k' s else Ok tt)).
  { intros k k' Hk. destruct (Z.of_nat i >? 0) eqn:Ci; [|done]. zbool.
    replace (Z.of_nat i - 1) with (Z.of_nat (i - 1)) by lia. destruct (Hptr (i - 1)%nat) as (l & Hl & ->); [lia|].
    rewrite (Hag l Hl). by destruct (encodedMergeSize _ _). }
  rewrite (Hl _ _ (fun s => eq_refl)).
  assert (Hr : forall (k : Z -> res unit),
    (if u16 (Z.of_nat (S i)) <? len ces then r <- getPtr node (u16 (Z.of_nat (S i))) ;;
       s <- encodedMergeSize (default [] (pages !! e_ptr c)) (default [] (pages' !! r)) ;; k s else Ok tt) =
    (if u16 (Z.of_nat (S i)) <? len ces then r <- getPtr node (u16 (Z.of_nat (S i))) ;;
       s <- encodedMergeSize (default [] (pages !! e_ptr c)) (default [] (pages !! r)) ;; k s else Ok tt)).
  { intros k. rewrite u16_small by (unfold len in *; lia). destruct (Z.of_nat (S i) <? len ces) eqn:Ci; [|done]. zbool.
    destruct (Hptr (S i)) as (r & Hr & E); [unfold len in Ci; lia|]. rewrite u16_small in E by (unfold len in *; lia).
    rewrite E, (Hag r Hr). done. }
  rewrite Hr. done.
Qed.

(** ** The walk *)

Lemma checkWalkPage_ok id node h ces lower upper root :
  page_of node (ty_of h) ces -> ces <> [] -> starts lower root (first_key ces) ->
  Forall (fun e => under upper (e_key e)) ces -> (root = true -> wide_root node = true) ->
  checkWalkPage id node lower upper root = Ok tt.
Proof.
  intros P Hne [Hlow Hroot] Hu Hw. unfold checkWalkPage. rewrite (page_valid _ _ _ P). cbn [map_err].
  pose proof P as [B Hso]. rewrite (built_nkeys B).
  assert (Hn0 : len ces <> 0) by (intros ?%len_0; done). zdecide.
  rewrite (built_nbytes _ _ _ _ B). pose proof (node_of_fits _ _ _ _ P) as Hfit. rewrite Z.gtb_ltb. zdecide.
  destruct (first_key_at ces Hne) as (e0 & H0 & Hfk).
  rewrite (built_getKey B _ _ H0 : getKey node 0 = _), <- Hfk.
  assert (Hr1 : root && negb (len (first_key ces) =? 0) = false) by (destruct root; [by rewrite Hroot|done]). rewrite Hr1.
  rewrite (built_btype B).
  assert (Hr2 : root && (ty_of h =? nodeTypeInternal) && (len ces <? 2) = false).
  { destruct root; [|done]. specialize (Hw eq_refl). unfold wide_root in Hw. rewrite (built_btype B), (built_nkeys B) in Hw.
    by apply negb_true_iff in Hw. }
  rewrite Hr2.
  destruct (lookup_lt_is_Some_2 ces (length ces - 1)) as [el Hl]; [destruct ces; cbn; [done|lia]|].
  pose proof (built_bounds B) as Hb. pose proof (lookup_lt_Some _ _ _ Hl) as Hlt.
  replace (u16 (len ces - 1)) with (Z.of_nat (length ces - 1)) by (rewrite u16_small; unfold len in *; lia).
  rewrite (built_getKey B _ _ Hl).
  assert (Hr3 : match lower with Some l => negb (beqb (first_key ces) l) | None => false end = false).
  { destruct lower as [l|]; [|done]. rewrite (Hlow l eq_refl), beqb_refl. done. }
  rewrite Hr3.
  assert (Hr4 : match upper with Some u => bleb u (e_key el) | None => false end = false).
  { destruct upper as [u|]; [|done]. apply bleb_gt. rewrite Forall_forall in Hu. apply (Hu el). by eapply list_elem_of_lookup_2. }
  by rewrite Hr4.
Qed.

Section Walk.
Context (M : gmap Z bytes) (pm : pageManager).
Hypothesis Hread : forall id b, M !! id = Some b -> readPage id pm = (Ok b, pm).
Hypothesis Hids : forall id b, M !! id = Some b -> 0 < id <= committedPageCount pm.
Hypothesis Hset : forall id b, M !! id = Some b -> settled_node M (id, b) = true.

(** The state with the pages [F] loaded. *)
Definition load (F : gset Z) (W : gmap Z bytes) (V : gset Z) (d : Z) : walkState := mkWalk pm (restrict F M ∪ W) V d.

Lemma restrict_empty m : restrict ∅ m = ∅.
Proof using Type. apply map_eq. intros j. by rewrite restrict_lookup, decide_False, lookup_empty by apply not_elem_of_empty. Qed.
Lemma load_nil W V d : load ∅ W V d = mkWalk pm W V d.
Proof using Type. unfold load. by rewrite restrict_empty, map_empty_union. Qed.
Lemma load_more F1 F2 W V d : load F2 (restrict F1 M ∪ W) V d = load (F1 ∪ F2) W V d.
Proof using Type. unfold load. by rewrite map_union_assoc, restrict_union, (union_comm_L F2). Qed.

(** The key that bounds a child is the next separator. *)
Definition next_upper (suf : list entry) (upper : option bytes) : option bytes :=
  match suf with [] => upper | e :: _ => Some (e_key e) end.

Lemma child_bounds m h e suf upper k1 k2 F1 F2 :
  rep m (S h) [e] k1 F1 -> rep m (S h) suf k2 F2 -> kv_sorted (k1 ++ k2) -> Forall (fun p => under upper p.1) (k1 ++ k2) ->
  kv_sorted k1 /\ kv_sorted k2 /\ Forall (fun p => under (next_upper suf upper) p.1) k1 /\ Forall (fun p => under upper p.1) k2.
Proof using Type.
  intros R1 R2 Hs Hu. apply kv_sorted_app in Hs as (S1 & S2 & Hlt). apply Forall_app in Hu as [U1 U2]. split_and!; try done.
  destruct suf as [|e' suf]; [done|]. destruct (rep_head _ _ _ _ _ R2) as (v & k2' & ->); [done|].
  apply Forall_forall. intros p Hp. cbn. apply (Hlt p (e_key e', v) Hp). left.
Qed.

Lemma upper_read node ces pre e suf upper :
  page_of node nodeTypeInternal ces -> ces = pre ++ e :: suf ->
  (if u16 (len pre + 1) <? len ces then k <- getKey node (u16 (len pre + 1)) ;; Ok (Some k) else Ok upper) = Ok (next_upper suf upper).
Proof using Type.
  intros [B Hso] Hces. pose proof (built_bounds B) as Hb.
  assert (Hlt : (length pre < length ces)%nat) by (rewrite Hces, length_app; cbn; lia).
  rewrite u16_small by (unfold len in *; lia). destruct suf as [|e' suf].
  - rewrite Hces, len_app. change (len [e]) with 1. by rewrite Z.ltb_irrefl.
  - assert (He' : ces !! S (length pre) = Some e').
    { rewrite Hces. rewrite (lookup_app_r pre) by lia. by replace (S (length pre) - length pre)%nat with 1%nat by lia. }
    apply lookup_lt_Some in He' as Hlt'. replace (len pre + 1) with (Z.of_nat (S (length pre))) by (unfold len; lia).
    rewrite (proj2 (Z.ltb_lt _ _)) by (unfold len; lia). by rewrite (built_getKey B _ _ He').
Qed.

(** Loading one child, as the induction on the height provides it. *)
Definition loads (rec : Z -> option bytes -> option bytes -> WM unit) (h : nat) (depth : Z) : Prop :=
  forall e kvs F lo hi W V ld, rep M (S h) [e] kvs F -> kv_sorted kvs -> Forall (fun p => under hi p.1) kvs ->
  lo = Some (e_key e) -> F ## dom W -> F ## V -> ld = -1 \/ ld = depth + Z.of_nat h ->
  rec (e_ptr e) lo hi (mkWalk pm W V ld) = (Ok tt, load F W V (depth + Z.of_nat h)).

Lemma walkChildren_loads rec h depth node ces upper :
  page_of node nodeTypeInternal ces -> loads rec h depth ->
  forall suf pre kvs F W V ld, ces = pre ++ suf -> rep M (S h) suf kvs F -> kv_sorted kvs ->
  Forall (fun p => under upper p.1) kvs -> F ## dom W -> F ## V -> ld = -1 \/ ld = depth + Z.of_nat h ->
  walkChildren rec (length suf) node (len ces) (len pre) upper (mkWalk pm W V ld) =
  (Ok tt, load F W V (if suf then ld else depth + Z.of_nat h)).
Proof.
  intros P Hrec. pose proof P as [B Hso]. pose proof (built_bounds B) as Hb.
  induction suf as [|e suf IH]; intros pre kvs F W V ld Hces R Hs Hu HW HV Hld; cbn [length walkChildren].
  { apply rep_empty in R as [_ ->]. by rewrite load_nil. }
  apply (rep_app _ _ [e]) in R as (k1 & k2 & F1 & F2 & R1 & R2 & Hd & -> & ->).
  destruct (child_bounds _ _ _ _ _ _ _ _ _ R1 R2 Hs Hu) as (S1 & S2 & U1 & U2).
  assert (He : ces !! length pre = Some e) by (by rewrite Hces, list_lookup_middle).
  pose proof (lookup_lt_Some _ _ _ He) as Hlt.
  rewrite (u16_small (len pre)) by (unfold len in *; lia).
  rewrite (bind_lift_ok _ _ _ _ (built_getPtr B _ _ He : getPtr node (len pre) = _)).
  rewrite (bind_lift_ok _ _ _ _ (built_getKey B _ _ He : getKey node (len pre) = _)).
  rewrite (bind_lift_ok _ _ _ (next_upper suf upper)) by (by eapply upper_read).
  assert (HF1 : F1 ⊆ dom M) by (by eapply rep_dom).
  rewrite (bind_ok _ _ _ _ _ (Hrec e k1 F1 (Some (e_key e)) (next_upper suf upper) W V ld R1 S1 U1 eq_refl ltac:(set_solver) ltac:(set_solver) Hld)).
  replace (len pre + 1) with (len (pre ++ [e])) by (by rewrite len_app).
  unfold load at 1. rewrite (IH (pre ++ [e]) k2 F2); [|by rewrite <- app_assoc|done..| |set_solver|by right].
  - rewrite load_more. by destruct suf.
  - rewrite dom_union_L, dom_restrict by done. set_solver.
Qed.

Lemma rep_under m h es kvs F upper :
  rep m h es kvs F -> Forall (fun p => under upper p.1) kvs -> Forall (fun e => under upper (e_key e)) es.
Proof using Type.
  intros R Hu. apply rep_keys in R. apply Forall_forall. intros e He. rewrite Forall_forall in Hu.
  assert (Hin : e_key e ∈ kv_keys kvs) by (apply (sublist_subseteq _ _ R), list_elem_of_fmap; by exists e).
  unfold kv_keys in Hin. apply list_elem_of_fmap in Hin as (p & -> & Hp). by apply Hu.
Qed.
Lemma restrict_add F W id b :
  M !! id = Some b -> id ∉ dom W -> restrict F M ∪ <[id := b]> W = restrict ({[id]} ∪ F) M ∪ W.
Proof using Type.
  intros Hb Hw. rewrite <- (restrict_insert F M id b Hb), <- insert_union_l.
  apply map_eq. intros j. destruct (decide (j = id)) as [->|Hne].
  - rewrite lookup_insert_eq, lookup_union, restrict_lookup, lookup_insert_eq, Hb. by destruct (decide _).
  - by rewrite lookup_insert_ne, !lookup_union, lookup_insert_ne.
Qed.

Lemma settled_siblings id b ces pages :
  M !! id = Some b -> page_of b nodeTypeInternal ces -> (forall c, c ∈ ces -> pages !! e_ptr c = M !! e_ptr c) ->
  checkSiblings (Z.to_nat (len ces)) id b (len ces) 0 pages = Ok tt.
Proof.
  intros Hb P Hag. pose proof (Hset id b Hb) as Hs. unfold settled_node in Hs. cbn [fst snd] in Hs. pose proof P as [B _].
  rewrite (built_btype B), (built_nkeys B) in Hs. change (nodeTypeInternal =? nodeTypeInternal) with true in Hs. cbn [negb orb] in Hs.
  pose proof (checkSiblings_agree b ces M pages id (Z.to_nat (len ces)) 0 P ltac:(unfold len; lia) Hag) as E.
  change (Z.of_nat 0) with 0 in E. rewrite E. destruct (checkSiblings _ _ _ _ _ _) as [[]| | |]; done.
Qed.

(** The walk up to the body of a node. *)
Lemma walk_enter fuel id b h ces depth lower upper root W V ld :
  M !! id = Some b -> page_of b (ty_of h) ces -> ces <> [] -> starts lower root (first_key ces) ->
  Forall (fun e => under upper (e_key e)) ces -> (root = true -> wide_root b = true) -> id ∉ dom W -> id ∉ V ->
  walk (S fuel) id depth lower upper root (mkWalk pm W V ld) =
  (_ <~ (if ty_of h =? nodeTypeLeaf then
           d <~ asks wk_leafDepth ;;
           if d =? -1 then modify (fun w => mkWalk (wk_pm w) (wk_pages w) (wk_visiting w) depth)
           else throw_if negb (d =? depth) with ELeafDepth depth d ;; ret tt
         else
           _ <~ walkChildren (fun c lo hi => walk fuel c (depth + 1) lo hi false) (Z.to_nat (len ces)) b (len ces) 0 upper ;;
           pages <~ asks wk_pages ;;
           lift (checkSiblings (Z.to_nat (len ces)) id b (len ces) 0 pages)) ;;
   modify (fun w => mkWalk (wk_pm w) (wk_pages w) (wk_visiting w ∖ {[id]}) (wk_leafDepth w)))
  (mkWalk pm (<[id := b]> W) ({[id]} ∪ V) ld).
Proof using Hread Hids.
  intros Hb P Hne Hst Hu Hw HW HV. cbn [walk]. destruct (Hids id b Hb) as [Hid Hcnt]. pose proof P as [B _].
  unfold bind at 1, asks at 1. change (Datatypes.id (mkWalk pm W V ld)) with (mkWalk pm W V ld).
  cbn [wk_pm wk_visiting wk_pages]. rewrite Z.gtb_ltb. zdecide.
  rewrite (bool_decide_false (id ∈ V)) by done.
  rewrite (bool_decide_false (is_Some _)) by (intros ?%elem_of_dom; done).
  unfold bind at 1, modify at 1. cbn [wk_pm wk_visiting wk_pages wk_leafDepth].
  unfold bind at 1, walk_read. cbn [wk_pm wk_visiting wk_pages wk_leafDepth]. rewrite (Hread id b Hb). cbn [map_err].
  rewrite (bind_lift_ok _ _ _ tt) by (by apply (checkWalkPage_ok id b h ces)).
  unfold bind at 1, modify at 1. cbn [wk_pm wk_visiting wk_pages wk_leafDepth].
  rewrite (bind_lift_ok _ _ _ _ (built_btype B)), (bind_lift_ok _ _ _ _ (built_nkeys B)). done.
Qed.

Lemma walk_loads h : forall fuel e kvs F depth lower upper root W V ld,
  rep M (S h) [e] kvs F -> kv_sorted kvs -> Forall (fun p => under upper p.1) kvs -> starts lower root (e_key e) ->
  (forall b, root = true -> M !! e_ptr e = Some b -> wide_root b = true) ->
  F ## dom W -> F ## V -> ld = -1 \/ ld = depth + Z.of_nat h -> 0 <= depth -> (h < fuel)%nat ->
  walk fuel (e_ptr e) depth lower upper root (mkWalk pm W V ld) = (Ok tt, load F W V (depth + Z.of_nat h)).
Proof.
  induction h as [|h IH]; intros [|fuel] e kvs F depth lower upper root W V ld R Hs Hu Hst Hw HW HV Hld Hdep Hf; try lia;
    apply rep_one in R as (b & ces & F1 & Hb & P & Hne & Hfk & R & Hnin & ->);
    (rewrite (walk_enter fuel (e_ptr e) b _ ces depth lower upper root W V ld Hb P Hne);
      [|by rewrite Hfk|by eapply rep_under|by intros ?; apply Hw|set_solver|set_solver]).
  - cbn [ty_of]. rewrite Z.eqb_refl. inversion R; subst. unfold bind, asks. cbn [wk_leafDepth]. rewrite Z.add_0_r in *.
    rewrite union_empty_r_L in *.
    assert (Hres : forall d, mkWalk pm (<[e_ptr e := b]> W) (({[e_ptr e]} ∪ V) ∖ {[e_ptr e]}) d = load {[e_ptr e]} W V d).
    { intros d. unfold load. rewrite <- (union_empty_r_L {[e_ptr e]}), <- (restrict_add ∅ W _ b Hb) by set_solver.
      rewrite restrict_empty, map_empty_union. f_equal. set_solver. }
    destruct Hld as [-> | ->].
    + change (-1 =? -1) with true. unfold modify. cbn. by rewrite Hres.
    + zdecide. unfold modify. cbn. by rewrite Hres.
  - cbn [ty_of]. change (nodeTypeInternal =? nodeTypeLeaf) with false. cbv iota.
    assert (Hd1 : F1 ⊆ dom M) by (by eapply rep_dom).
    assert (Hch : loads (fun c lo hi => walk fuel c (depth + 1) lo hi false) h (depth + 1)).
    { intros c k G lo hi W' V' ld' Rc Sc Uc -> Gw Gv Gl. apply (IH fuel c k); try done; [|lia|lia].
      split; [by intros l [= <-]|done]. }
    pose proof (walkChildren_loads _ h (depth + 1) b ces upper P Hch ces [] kvs F1 (<[e_ptr e := b]> W) ({[e_ptr e]} ∪ V) ld eq_refl R Hs Hu) as L.
    change (len (@nil entry)) with 0 in L. replace (Z.to_nat (len ces)) with (length ces) by (unfold len; lia).
    specialize (L ltac:(rewrite dom_insert_L; set_solver) ltac:(set_solver) ltac:(destruct Hld; [by left|right; lia])).
    replace (depth + 1 + Z.of_nat h) with (depth + Z.of_nat (S h)) in L by lia.
    destruct ces as [|c0 ces]; [done|]. set (cs := c0 :: ces) in *.
    unfold bind at 1. unfold bind at 1. rewrite L. unfold bind at 1, asks. unfold load at 1. cbn [wk_pages].
    replace (length cs) with (Z.to_nat (len cs)) by (unfold len; lia). rewrite (restrict_add F1 W _ b Hb) by set_solver.
    unfold lift. rewrite (settled_siblings (e_ptr e) b cs); [|done|done|].
    + unfold modify, load. cbn [wk_pm wk_pages wk_visiting wk_leafDepth]. rewrite (restrict_add F1 W _ b Hb) by set_solver.
      do 2 f_equal. set_solver.
    + intros c Hc. assert (Hcf : e_ptr c ∈ F1).
      { apply list_elem_of_split in Hc as (l1 & l2 & Hc). rewrite Hc in R.
        apply rep_app in R as (ka & kb & Fa & Fb & _ & R & _ & _ & ->). inversion R; subst. set_solver. }
      rewrite lookup_union, restrict_lookup, decide_True by set_solver. apply Hd1, elem_of_dom in Hcf as [x ->].
      by destruct (W !! e_ptr c).
Qed.
End Walk.

(** ** Trees the walk rejects

    Conversely, a walk that succeeds has made the balance tests on every page. *)

Lemma bind_back {S E A B} (m : stM S E A) (k : A -> stM S E B) s b s' :
  bind m k s = (Ok b, s') -> exists a s1, m s = (Ok a, s1) /\ k a s1 = (Ok b, s').
Proof. unfold bind. destruct (m s) as [[a|e| |] s1]; try discriminate. intros H. by exists a, s1. Qed.
Lemma bind_lift_back {S E A B} (m : outcome E A) (k : A -> stM S E B) s b s' :
  bind (lift m) k s = (Ok b, s') -> exists a, m = Ok a /\ k a s = (Ok b, s').
Proof. intros (a & s1 & Em & H)%bind_back. unfold lift in Em. injection Em as -> <-. by exists a. Qed.

Lemma checkWalkPage_wide id node lower upper : checkWalkPage id node lower upper true = Ok tt -> wide_root node = true.
Proof.
  unfold checkWalkPage, wide_root. destruct (map_err _ _); try discriminate. destruct (nkeys node) as [n| | |]; try discriminate.
  destruct (n =? 0); [discriminate|]. destruct (nbytes node); try discriminate. destruct (_ >? pageSize); [discriminate|].
  destruct (getKey node 0); try discriminate. destruct (_ && negb _); [discriminate|].
  destruct (btype node) as [ty| | |]; try discriminate. cbn [andb]. by destruct (_ && _).
Qed.

Section Rejected.
Context (M : gmap Z bytes) (pm : pageManager).
Hypothesis Hread : forall id b, M !! id = Some b -> readPage id pm = (Ok b, pm).
Hypothesis Hids : forall id b, M !! id = Some b -> 0 < id <= committedPageCount pm.

Definition settled_on (F : gset Z) : Prop := forall id b, id ∈ F -> M !! id = Some b -> settled_node M (id, b) = true.
Lemma settled_on_union F G : settled_on F -> settled_on G -> settled_on (F ∪ G).
Proof. intros H1 H2 id b [Hi|Hi]%elem_of_union; [by apply H1|by apply H2]. Qed.

(** What a successful walk of a subtree with pages [F] means. *)
Definition passes (F : gset Z) (W : gmap Z bytes) (V : gset Z) (d : Z) (s : walkState) : Prop :=
  settled_on F /\ s = load M pm F W V d.
Definition rejects (rec : Z -> option bytes -> option bytes -> WM unit) (h : nat) (depth : Z) : Prop :=
  forall e kvs F lo hi W V ld s, rep M (S h) [e] kvs F -> kv_sorted kvs -> Forall (fun p => under hi p.1) kvs ->
  lo = Some (e_key e) -> F ## dom W -> F ## V -> ld = -1 \/ ld = depth + Z.of_nat h ->
  rec (e_ptr e) lo hi (mkWalk pm W V ld) = (Ok tt, s) -> passes F W V (depth + Z.of_nat h) s.

Lemma walkChildren_rejects rec h depth node ces upper :
  page_of node nodeTypeInternal ces -> rejects rec h depth ->
  forall suf pre kvs F W V ld s, ces = pre ++ suf -> rep M (S h) suf kvs F -> kv_sorted kvs ->
  Forall (fun p => under upper p.1) kvs -> F ## dom W -> F ## V -> ld = -1 \/ ld = depth + Z.of_nat h ->
  walkChildren rec (length suf) node (len ces) (len pre) upper (mkWalk pm W V ld) = (Ok tt, s) ->
  passes F W V (if suf then ld else depth + Z.of_nat h) s.
Proof.
  intros P Hrec. pose proof P as [B Hso]. pose proof (built_bounds B) as Hb.
  induction suf as [|e suf IH]; intros pre kvs F W V ld s Hces R Hs Hu HW HV Hld; cbn [length walkChildren].
  { apply rep_empty in R as [_ ->]. intros [= <-]. split; [intros ? ? Hx; by apply elem_of_empty in Hx|]. by rewrite load_nil. }
  apply (rep_app _ _ [e]) in R as (k1 & k2 & F1 & F2 & R1 & R2 & Hd & -> & ->).
  destruct (child_bounds _ _ _ _ _ _ _ _ _ R1 R2 Hs Hu) as (S1 & S2 & U1 & U2).
  assert (He : ces !! length pre = Some e) by (by rewrite Hces, list_lookup_middle).
  pose proof (lookup_lt_Some _ _ _ He) as Hlt.
  rewrite (u16_small (len pre)) by (unfold len in *; lia).
  rewrite (bind_lift_ok _ _ _ _ (built_getPtr B _ _ He : getPtr node (len pre) = _)).
  rewrite (bind_lift_ok _ _ _ _ (built_getKey B _ _ He : getKey node (len pre) = _)).
  rewrite (bind_lift_ok _ _ _ (next_upper suf upper)) by (by eapply upper_read).
  intros ([] & s1 & E1 & E2)%bind_back.
  pose proof (rep_dom _ _ _ _ _ R1) as HF1.
  destruct (Hrec e k1 F1 (Some (e_key e)) (next_upper suf upper) W V ld s1 R1 S1 U1 eq_refl ltac:(set_solver) ltac:(set_solver) Hld E1) as [St1 ->].
  replace (len pre + 1) with (len (pre ++ [e])) in E2 by (by rewrite len_app).
  apply (IH (pre ++ [e]) k2 F2) in E2 as [St2 ->]; [|by rewrite <- app_assoc|done..| |set_solver|by right].
  - split; [by apply settled_on_union|]. rewrite load_more. by destruct suf.
  - rewrite dom_union_L, dom_restrict by done. set_solver.
Qed.

Lemma walk_narrow fuel id b depth lower upper W V ld s :
  M !! id = Some b -> id ∉ dom W -> id ∉ V ->
  walk (S fuel) id depth lower upper true (mkWalk pm W V ld) = (Ok tt, s) -> wide_root b = true.
Proof.
  intros Hb HW HV. cbn [walk]. destruct (Hids id b Hb) as [Hid Hcnt].
  unfold bind at 1, asks at 1. change (Datatypes.id (mkWalk pm W V ld)) with (mkWalk pm W V ld).
  cbn [wk_pm wk_visiting wk_pages]. rewrite Z.gtb_ltb. zdecide.
  rewrite (bool_decide_false (id ∈ V)) by done.
  rewrite (bool_decide_false (is_Some _)) by (intros ?%elem_of_dom; done).
  unfold bind at 1, modify at 1. cbn [wk_pm wk_visiting wk_pages wk_leafDepth].
  unfold bind at 1, walk_read. cbn [wk_pm wk_visiting wk_pages wk_leafDepth]. rewrite (Hread id b Hb). cbn [map_err].
  intros ([] & E & _)%bind_lift_back. by eapply checkWalkPage_wide.
Qed.

Lemma siblings_settled id b ces pages :
  M !! id = Some b -> page_of b nodeTypeInternal ces -> (forall c, c ∈ ces -> pages !! e_ptr c = M !! e_ptr c) ->
  checkSiblings (Z.to_nat (len ces)) id b (len ces) 0 pages = Ok tt -> settled_node M (id, b) = true.
Proof.
  intros Hb P Hag E. pose proof P as [B _]. unfold settled_node. cbn [fst snd].
  rewrite (built_btype B), (built_nkeys B). change (nodeTypeInternal =? nodeTypeInternal) with true. cbn [negb orb].
  pose proof (checkSiblings_agree b ces M pages id (Z.to_nat (len ces)) 0 P ltac:(unfold len; lia) Hag) as E'.
  change (Z.of_nat 0) with 0 in E'. by rewrite <- E', E.
Qed.
Lemma child_loaded h ces kvs F W c : rep M (S h) ces kvs F -> c ∈ ces -> (restrict F M ∪ W) !! e_ptr c = M !! e_ptr c.
Proof.
  intros R Hc. pose proof (rep_dom _ _ _ _ _ R) as Hd. assert (Hcf : e_ptr c ∈ F).
  { apply list_elem_of_split in Hc as (l1 & l2 & ->).
    apply rep_app in R as (ka & kb & Fa & Fb & _ & R & _ & _ & ->). inversion R; subst. clear. set_solver. }
  rewrite lookup_union, restrict_lookup, decide_True by done. apply Hd, elem_of_dom in Hcf as [x ->]. by destruct (W !! e_ptr c).
Qed.

Lemma walk_passes h : forall fuel e kvs F depth lower upper root W V ld s,
  rep M (S h) [e] kvs F -> kv_sorted kvs -> Forall (fun p => under upper p.1) kvs -> starts lower root (e_key e) ->
  F ## dom W -> F ## V -> ld = -1 \/ ld = depth + Z.of_nat h -> 0 <= depth -> (h < fuel)%nat ->
  walk fuel (e_ptr e) depth lower upper root (mkWalk pm W V ld) = (Ok tt, s) -> passes F W V (depth + Z.of_nat h) s.
Proof.
  induction h as [|h IH]; intros [|fuel] e kvs F depth lower upper root W V ld s R Hs Hu Hst HW HV Hld Hdep Hf; try lia;
    apply rep_one in R as (b & ces & F1 & Hb & P & Hne & Hfk & R & Hnin & ->);
    assert (HW' : e_ptr e ∉ dom W) by (clear - HW; set_solver); assert (HV' : e_ptr e ∉ V) by (clear - HV; set_solver);
    intros E; assert (Hw : root = true -> wide_root b = true) by (intros ->; by eapply walk_narrow);
    rewrite (walk_enter M pm Hread Hids fuel (e_ptr e) b _ ces depth lower upper root W V ld Hb P Hne
      ltac:(by rewrite Hfk) (rep_under _ _ _ _ _ _ R Hu) Hw HW' HV') in E.
  - cbn [ty_of] in E. rewrite Z.eqb_refl in E. unfold bind, asks in E. cbn [wk_leafDepth] in E. rewrite Z.add_0_r in *.
    inversion R; subst. rewrite union_empty_r_L. split.
    { intros id b' ->%elem_of_singleton Hb'. rewrite Hb in Hb'. injection Hb' as <-. pose proof P as [B _].
      unfold settled_node. cbn [fst snd]. by rewrite (built_btype B), (built_nkeys B). }
    assert (Hs' : s = mkWalk pm (<[e_ptr e := b]> W) (({[e_ptr e]} ∪ V) ∖ {[e_ptr e]}) depth).
    { destruct Hld as [-> | ->].
      - change (-1 =? -1) with true in E. unfold modify in E. cbn in E. by injection E.
      - destruct (depth =? -1) eqn:C; zbool; [lia|]. rewrite Z.eqb_refl in E. unfold modify in E. cbn in E. by injection E. }
    pose proof (restrict_add M ∅ W _ b Hb HW') as Ea. rewrite restrict_empty, map_empty_union, union_empty_r_L in Ea.
    rewrite Hs'. unfold load. rewrite <- Ea. f_equal. clear - HV'. set_solver.
  - cbn [ty_of] in E. change (nodeTypeInternal =? nodeTypeLeaf) with false in E. cbv iota in E.
    assert (Hch : rejects (fun c lo hi => walk fuel c (depth + 1) lo hi false) h (depth + 1)).
    { intros c k G lo hi W' V' ld' s' Rc Sc Uc -> Gw Gv Gl. apply (IH fuel c k); try done; [|lia|lia].
      split; [by intros l [= <-]|done]. }
    apply bind_back in E as ([] & s2 & E & E2). apply bind_back in E as ([] & s1 & E1 & E).
    pose proof (walkChildren_rejects _ h (depth + 1) b ces upper P Hch ces [] kvs F1 (<[e_ptr e := b]> W) ({[e_ptr e]} ∪ V) ld s1 eq_refl R Hs Hu) as L.
    change (len (@nil entry)) with 0 in L. replace (length ces) with (Z.to_nat (len ces)) in L by (unfold len; lia).
    destruct (L ltac:(rewrite dom_insert_L; set_solver) ltac:(set_solver) ltac:(destruct Hld; [by left|right; lia]) E1) as [St ->].
    replace (depth + 1 + Z.of_nat h) with (depth + Z.of_nat (S h)) in E by lia.
    destruct ces as [|c0 ces]; [done|]. set (cs := c0 :: ces) in *.
    unfold bind at 1, asks, load in E. cbn [wk_pages] in E. rewrite (restrict_add M F1 W _ b Hb HW') in E.
    unfold lift in E. injection E as Ec <-. unfold modify in E2. cbn in E2. injection E2 as <-. split.
    + apply settled_on_union; [|done]. intros id b' ->%elem_of_singleton Hb'. rewrite Hb in Hb'. injection Hb' as <-.
      apply (siblings_settled (e_ptr e) b cs _ Hb P) in Ec; [done|]. intros c Hc.
      rewrite <- (restrict_add M F1 W _ b Hb HW'). by eapply child_loaded.
    + unfold load. f_equal. clear - HV'. set_solver.
Qed.
End Rejected.
