(* ===== verification/ReopenSpec.v ===== *)
(** * Reopening a committed generation

    Reading a file that holds a committed generation gives it back: the metadata
    slot, the free list and the tree pages are read as they were written, and
    recovery accepts them. *)

From S2P Require Import Prelude KvList Errors Page PageTree PageNodeSpec PageTreeSpec File FreeList.
From S2P Require Import PageManager PageManagerSpec KV DiskSpec PublishSpec KVSpec RecoverySpec StorageResults.
From S2P Require Import DurableSpec WalkSpec.

(** ** Reads of a file without faults *)

Lemma ReadAt_calm n pos f : calm f -> pos + n <= len (f_data f) -> ReadAt n pos f = (Ok (sub (f_data f) pos n), f).
Proof.
  intros Hc Hl. unfold ReadAt, checked, next_fault, get_data, bind. rewrite Hc. cbn.
  rewrite Z.gtb_ltb. zdecide. done.
Qed.
Lemma StatSize_calm f : calm f -> len (f_data f) <= maxInt64 -> StatSize f = (Ok (len (f_data f)), f).
Proof.
  intros Hc Hl. unfold StatSize, checked, next_fault, get_data, bind. rewrite Hc. cbn.
  rewrite Z.gtb_ltb. zdecide. done.
Qed.
Lemma readRaw_calm id f :
  calm f -> 0 < id <= maxPage -> metadataSize + id * pageSize <= len (f_data f) ->
  readRawDataPage id f = (Ok (block (f_data f) (page_block id)), f).
Proof.
  intros Hc Hid Hl. unfold readRawDataPage, bind, lift. rewrite dataPageOffset_ok by done.
  rewrite page_block_off, ReadAt_calm; [done..|]. rewrite <- page_end in Hl. unfold pageSize in *. lia.
Qed.

(** ** The free list *)

(** The metadata [m] with the entries [es] and the list pages [ls] loaded. *)
Definition loaded_meta (m : rootMetadata) (es ls : list Z) : rootMetadata :=
  mkMeta (m_generation m) (m_rootPageID m) (m_pageCount m) (m_freeListHead m) (m_freeListTail m)
    (m_headSequence m) (m_tailSequence m) (m_maxSequence m)
    (take (Z.to_nat (m_maxSequence m)) es) (drop (Z.to_nat (m_maxSequence m)) es) ls.

Lemma loadEntries_exact m ls sp ids : forall es,
  0 <= m_maxSequence m -> len es + len ids < 2 ^ 64 -> NoDup (es ++ ids) ->
  Forall (fun x => x <= m_pageCount m /\ x <> m_rootPageID m /\ x ∉ sp) ids ->
  loadEntries ids (loaded_meta m es ls) sp (list_to_set es) (len es) =
  Ok (loaded_meta m (es ++ ids) ls, list_to_set (es ++ ids), len (es ++ ids)).
Proof.
  induction ids as [|x ids IH]; intros es Hm Hl Hd Hids; cbn [loadEntries]; [by rewrite app_nil_r|].
  apply Forall_cons in Hids as [(Hx1 & Hx2 & Hx3) Hids]. rewrite len_cons in Hl. pose proof (len_nonneg es). pose proof (len_nonneg ids).
  cbn [m_pageCount m_rootPageID loaded_meta m_maxSequence]. rewrite Z.gtb_ltb. zdecide.
  rewrite (bool_decide_false (x ∈ sp)) by done.
  rewrite bool_decide_false.
  2:{ rewrite elem_of_list_to_set. apply NoDup_app in Hd as (_ & Hd & _). intros Hx. apply (Hd x Hx). left. }
  rewrite u64_small by lia.
  replace (es ++ x :: ids) with ((es ++ [x]) ++ ids) by (by rewrite <- app_assoc).
  rewrite <- (IH (es ++ [x])); [|done|rewrite len_app; change (len [x]) with 1; lia|by rewrite <- app_assoc|done].
  replace (len (es ++ [x])) with (len es + 1) by (by rewrite len_app).
  assert (Hset : ({[x]} ∪ list_to_set es : gset Z) = list_to_set (es ++ [x])) by (rewrite list_to_set_app_L; cbn; set_solver).
  rewrite Hset. f_equal. unfold loaded_meta. cbn.
  destruct (Z.ltb_spec (len es) (m_maxSequence m)) as [Hlt|Hge]; unfold len in *.
  - rewrite !take_ge, !drop_ge by (rewrite ?length_app; cbn; lia). done.
  - rewrite take_app_le, drop_app_le by lia. done.
Qed.

(** Chain page [i] lists the next entries. *)
Lemma part_split entries es rest i :
  entries = es ++ rest -> len es = i * freeListPageCapacity ->
  exists rest', rest = part entries i ++ rest' /\ len (part entries i) = Z.min freeListPageCapacity (len rest).
Proof.
  intros He Hes. assert (Hcap : 0 < freeListPageCapacity) by done.
  assert (Hpart : part entries i = take (Z.to_nat (Z.min freeListPageCapacity (len rest))) rest).
  { unfold part, sub. rewrite <- Hes, He, len_app.
    replace (drop (Z.to_nat (len es)) (es ++ rest)) with rest by (unfold len; by rewrite Nat2Z.id, drop_app_length).
    do 2 f_equal. lia. }
  exists (drop (Z.to_nat (Z.min freeListPageCapacity (len rest))) rest). rewrite Hpart, take_drop. split; [done|].
  pose proof (len_nonneg rest). unfold len in *. rewrite length_take. lia.
Qed.

Section FreeListPages.
Context (f : file) (m : rootMetadata) (lists entries : list Z).
Hypothesis Hcalm : calm f.
Hypothesis Hcount : m_pageCount m <= maxPage.
Hypothesis Hlen : metadataSize + m_pageCount m * pageSize <= len (f_data f).
Hypothesis Hmax : 0 <= m_maxSequence m.
Hypothesis Htail : m_freeListTail m = default 0 (last lists).
Hypothesis Hnodup : NoDup (entries ++ lists).
Hypothesis Hids : forall x, x ∈ entries ++ lists -> 0 < x <= m_pageCount m /\ x <> m_rootPageID m.

Lemma loadChain_exact suf : forall pre es rest fuel,
  lists = pre ++ suf -> entries = es ++ rest -> chain_ok suf (len pre) entries ->
  (if suf then rest = [] else len es = len pre * freeListPageCapacity) ->
  len entries <= len lists * freeListPageCapacity ->
  (forall q, q ∈ chain suf (len pre) entries -> block (f_data f) (page_block q.1) = q.2) ->
  (length suf < fuel)%nat ->
  loadChain fuel (loaded_meta m es pre) (default 0 (head suf)) (list_to_set pre) (list_to_set es) (len es) f =
  (Ok (loaded_meta m entries lists, list_to_set lists, list_to_set entries, len entries), f).
Proof.
  induction suf as [|id suf IH]; intros pre es rest fuel Hl He C Hes Hfull Hon Hf.
  { rewrite Hes, app_nil_r in He. rewrite app_nil_r in Hl. rewrite Hl, He. by destruct fuel. }
  destruct fuel as [|fuel]; [cbn in Hf; lia|]. cbn [head default from_option loadChain]. unfold Datatypes.id.
  assert (Hil : id ∈ lists) by (rewrite Hl; apply elem_of_app; right; left).
  destruct (Hids id) as [Hid Hidr]; [apply elem_of_app; by right|].
  pose proof (chain_node_wf _ _ _ _ C) as W. destruct (node_page_ok _ W) as [Henc _].
  cbn [m_pageCount m_rootPageID loaded_meta m_freeListTail]. rewrite Z.gtb_ltb. zdecide.
  rewrite bool_decide_false.
  2:{ rewrite elem_of_list_to_set. apply NoDup_app in Hnodup as (_ & _ & Hd). rewrite Hl in Hd.
      apply NoDup_app in Hd as (_ & Hd & _). intros Hx. apply (Hd id Hx). left. }
  unfold bind at 1. rewrite readRaw_calm; [|done|lia|unfold pageSize in *; lia].
  pose proof (Hon (id, node_page (chain_node suf (len pre) entries)) ltac:(cbn [chain]; left)) as Hb. cbn [fst snd] in Hb.
  rewrite Hb.
  rewrite (decode_encoded _ _ W Henc). cbn [fl_sequence chain_node]. rewrite <- Hes, Z.eqb_refl. cbn [negb].
  unfold bind at 1, lift at 1. change (add_list_page id (loaded_meta m es pre)) with (loaded_meta m es (pre ++ [id])).
  cbn [fl_pageIDs fl_next chain_node].
  pose proof (chain_ok_head _ _ _ _ C) as Hh.
  destruct (part_split entries es rest (len pre) He Hes) as (rest' & Hrest & Hlp). set (pt := part entries (len pre)) in *.
  assert (Hcap : 0 < freeListPageCapacity) by done. clearbody pt.
  assert (He' : entries = (es ++ pt) ++ rest') by (rewrite <- app_assoc, <- Hrest; exact He).
  rewrite loadEntries_exact; [|done| | |].
  2:{ pose proof (co_len _ _ _ C) as Hcl. rewrite He', !len_app in Hcl. pose proof (len_nonneg rest'). lia. }
  2:{ apply NoDup_app in Hnodup as (Hd & _). rewrite He' in Hd. by apply NoDup_app in Hd as (? & _). }
  2:{ apply Forall_forall. intros x Hx.
      assert (Hxe : x ∈ entries) by (rewrite He', !elem_of_app; tauto).
      destruct (Hids x) as [? ?]; [apply elem_of_app; by left|]. split_and!; [lia|done|].
      apply NoDup_app in Hnodup as (_ & Hd & _). specialize (Hd x Hxe). rewrite Hl in Hd.
      rewrite elem_of_union, elem_of_singleton, elem_of_list_to_set. rewrite elem_of_app, elem_of_cons in Hd. tauto. }
  unfold bind at 1, lift at 1.
  assert (Htl : (default 0 (head suf) =? 0) && negb (id =? m_freeListTail m) = false).
  { destruct suf as [|y suf].
    - rewrite Htail, Hl, last_snoc. cbn. by rewrite Z.eqb_refl.
    - cbn. destruct (Hids y) as [? _]; [rewrite Hl, !elem_of_app; right; right; right; left|]. zdecide. done. }
  rewrite Htl.
  replace ({[id]} ∪ list_to_set pre : gset Z) with (list_to_set (pre ++ [id]) : gset Z) by (rewrite list_to_set_app_L; cbn; set_solver).
  assert (Hpl : len (pre ++ [id]) = len pre + 1) by (by rewrite len_app).
  apply (IH (pre ++ [id]) (es ++ pt) rest' fuel).
  - rewrite Hl. by rewrite <- app_assoc.
  - exact He'.
  - rewrite Hpl. by eapply chain_ok_tail.
  - assert (Hle : len entries = len es + len rest) by (rewrite He; apply len_app).
    assert (Hlr : len rest = len pt + len rest') by (rewrite Hrest; apply len_app). pose proof (len_nonneg rest').
    destruct suf as [|y suf].
    + apply len_0. assert (Hll : len lists = len pre + 1) by (by rewrite Hl, len_app). rewrite Hll in Hfull. lia.
    + apply chain_ok_tail, chain_ok_head in C. rewrite len_app, Hpl. lia.
  - done.
  - intros q Hq. apply Hon. cbn [chain]. right. by rewrite <- Hpl.
  - cbn in Hf. lia.
Qed.
End FreeListPages.

(** ** The metadata slots *)

Lemma loadFreeList_committed d pm pages f :
  committed d pm pages -> f_data f = d -> calm f ->
  loadFreeListMetadata (loaded_meta (commit_meta pm) [] []) f = (Ok (commit_meta pm), f).
Proof.
  intros C Hd Hc. pose proof C as [Cg Cc Cl Cs Co Cp Cli Cch Cn Ci Cnd Cr]. unfold loadFreeListMetadata.
  set (m := commit_meta pm). set (entries := freePageIDs pm ++ retiredPageIDs pm) in *. set (lists := freeListPageIDs pm) in *.
  cbn [m_freeListHead m_freeListTail m_headSequence m_tailSequence m_maxSequence loaded_meta m commit_meta meta_of m_pageCount].
  fold entries lists. pose proof (len_nonneg (freePageIDs pm)) as Hlf. pose proof (len_nonneg (retiredPageIDs pm)) as Hlr.
  assert (Hle : len entries = len (freePageIDs pm) + len (retiredPageIDs pm)) by apply len_app.
  assert (Hids : forall x, x ∈ entries ++ lists -> 0 < x <= committedPageCount pm /\ x <> rootPageID pm).
  { intros x Hx. unfold entries in Hx. rewrite <- app_assoc in Hx. destruct (Ci x Hx) as [? Hnp]. split; [done|].
    intros ->. destruct Cr as [Hr|Hr]; [lia|done]. }
  assert (Hnd : NoDup (entries ++ lists)) by (unfold entries; by rewrite <- app_assoc).
  destruct lists as [|l0 ls] eqn:El.
  { cbn [head default from_option last]. change (len (@nil Z)) with 0 in Cn.
    assert (He0 : len entries = 0).
    { destruct (decide (len entries = 0)); [done|]. unfold chainPages in Cn. change freeListPageCapacity with 508 in Cn.
      assert (1 <= (len entries + 508 - 1) / 508) by (apply Z.div_le_lower_bound; lia). lia. }
    assert (Hf0 : freePageIDs pm = []) by (apply len_0; lia). assert (Hr0 : retiredPageIDs pm = []) by (apply len_0; lia).
    unfold lists in El. unfold entries, m, commit_meta, meta_of, loaded_meta. rewrite Hf0, Hr0, El. done. }
  unfold lists in El. clear lists.
  assert (Hl0 : 0 < l0) by (apply Hids; rewrite elem_of_app; right; left).
  assert (Hlast : exists t, last (l0 :: ls) = Some t /\ 0 < t).
  { destruct (last (l0 :: ls)) as [t|] eqn:E; [|by apply last_None in E]. exists t. split; [done|].
    apply Hids. rewrite elem_of_app. right. by apply last_Some_elem_of in E. }
  destruct Hlast as (t & Ht & Htp). rewrite Ht. cbn [head default from_option]. unfold Datatypes.id.
  rewrite !Z.gtb_ltb. zdecide. unfold bind at 1.
  pose proof (loadChain_exact f m (l0 :: ls) entries Hc) as L. cbn [m_pageCount m commit_meta meta_of] in L.
  specialize (L ltac:(lia) ltac:(rewrite Hd; done) Hlf ltac:(cbn; by rewrite El) Hnd Hids (l0 :: ls) [] [] entries).
  specialize (L (S (Z.to_nat (committedPageCount pm))) eq_refl eq_refl Cch eq_refl).
  cbn [head default from_option] in L. unfold Datatypes.id in L. change (len (@nil Z)) with 0 in L.
  change (list_to_set []) with (∅ : gset Z) in L.
  rewrite L.
  - rewrite Z.eqb_refl. cbn [negb]. rewrite bool_decide_true.
    + cbn [negb]. unfold ret. do 2 f_equal. unfold loaded_meta, m, commit_meta, meta_of. cbn. rewrite El. fold entries.
      unfold entries, len. rewrite Nat2Z.id, take_app_length, drop_app_length. done.
    + apply NoDup_app in Hnd as (_ & Hdj & _). apply set_eq. intros x. rewrite elem_of_intersection, !elem_of_list_to_set.
      split; [|by intros ?%elem_of_empty]. intros [Hx1 Hx2]. exfalso. by apply (Hdj x).
  - rewrite Cn. unfold chainPages. change freeListPageCapacity with 508.
    pose proof (Z.div_mod (len entries + 508 - 1) 508). pose proof (Z.mod_pos_bound (len entries + 508 - 1) 508). lia.
  - intros q Hq. rewrite Hd. apply Cli. unfold list_pages. rewrite El. exact Hq.
  - assert (len (l0 :: ls) < committedPageCount pm + 1); [|unfold len in *; lia].
    apply ids_bounded; [lia|by apply NoDup_app in Hnd as (_ & _ & ?)|]. intros x Hx.
    destruct (Hids x) as [? _]; [rewrite elem_of_app; by right|lia].
Qed.

Lemma committed_fields d pm pages : committed d pm pages -> uint64 (m_rootPageID (commit_meta pm)) /\
  uint64 (m_pageCount (commit_meta pm)) /\ uint64 (m_freeListHead (commit_meta pm)) /\ uint64 (m_freeListTail (commit_meta pm)) /\
  uint64 (m_tailSequence (commit_meta pm)) /\ uint64 (m_maxSequence (commit_meta pm)) /\
  0 <= rootPageID pm <= committedPageCount pm.
Proof.
  intros [Cg Cc Cl Cs Co Cp Cli Cch Cn Ci Cnd Cr]. pose proof maxPage_bound as Hmb.
  assert (Hr : 0 <= rootPageID pm <= committedPageCount pm).
  { destruct Cr as [->|[b Hb]%elem_of_dom]; [lia|]. apply Cp in Hb as [? _]. lia. }
  assert (Hli : forall x, x ∈ freeListPageIDs pm -> uint64 x).
  { intros x Hx. destruct (Ci x) as [? _]; [rewrite !elem_of_app; tauto|]. unfold uint64. lia. }
  pose proof (co_len _ _ _ Cch) as Hl. pose proof (len_nonneg (freePageIDs pm)). pose proof (len_nonneg (retiredPageIDs pm)).
  cbn. rewrite len_app in *. unfold uint64 in *. split_and!; try lia.
  - destruct (freeListPageIDs pm) as [|x l]; cbn; [lia|]. apply Hli. left.
  - destruct (freeListPageIDs pm) as [|x l]; cbn; [lia|]. apply Hli. left.
  - destruct (last (freeListPageIDs pm)) eqn:E; cbn; [|lia]. by apply Hli, last_Some_elem_of.
  - destruct (last (freeListPageIDs pm)) eqn:E; cbn; [|lia]. by apply Hli, last_Some_elem_of.
Qed.

Lemma slot_in_file d pm pages : committed d pm pages -> 2 * pageSize <= len d.
Proof. intros [_ Cc Cl _ _ _ _ _ _ _ _ _]. change metadataSize with (2 * pageSize) in *. unfold pageSize in *. lia. Qed.

Lemma readSlot_committed d pm pages f :
  committed d pm pages -> f_data f = d -> calm f -> len d <= maxInt64 ->
  readRootMetadataSlot (commit_slot pm) f = (Ok (commit_meta pm), f).
Proof.
  intros C Hd Hc Hsz. pose proof (committed_fields _ _ _ C) as (F1 & F2 & F3 & F4 & F5 & F6 & Hr).
  pose proof (slot_range pm) as Hs. pose proof (slot_in_file _ _ _ C) as Hin. pose proof C as [Cg Cc Cl Cs _ _ _ _ _ _ _ _].
  unfold readRootMetadataSlot, bind at 1. rewrite ReadAt_calm; [|done|rewrite Hd; unfold pageSize in *; lia].
  change (sub (f_data f) (commit_slot pm * pageSize) pageSize) with (block (f_data f) (commit_slot pm)). rewrite Hd, Cs.
  set (m := commit_meta pm) in *.
  destruct (metadata_roundtrip m (meta_page m) Cg F1 F2 F3 F4 (u64_dec 0 eq_refl) F5 F6 (encodeMetadata_layout m))
    as (page & -> & G1 & G2 & G3 & G4 & G5 & G6 & G7 & G8).
  unfold bind at 1, lift at 1. rewrite (bind_lift_ok _ _ _ _ G1), (bind_lift_ok _ _ _ _ G2), (bind_lift_ok _ _ _ _ G3).
  change (m_rootPageID m) with (rootPageID pm). change (m_pageCount m) with (committedPageCount pm).
  rewrite Z.gtb_ltb. zdecide. unfold bind at 1. rewrite StatSize_calm, Hd by (rewrite ?Hd; done).
  assert (Hcnt : committedPageCount pm <= (len d - metadataSize) / pageSize)
    by (apply Z.div_le_lower_bound; [done|unfold pageSize in *; lia]).
  change metadataSize with (2 * pageSize) in *. rewrite !Z.gtb_ltb. zdecide.
  cbn [metadataVersion Z.eqb Pos.eqb].
  rewrite (bind_lift_ok _ _ _ _ G4), (bind_lift_ok _ _ _ _ G5), (bind_lift_ok _ _ _ _ G6), (bind_lift_ok _ _ _ _ G7), (bind_lift_ok _ _ _ _ G8).
  pose proof (loadFreeList_committed d pm pages f C Hd Hc) as L. unfold loaded_meta in L. rewrite take_nil, drop_nil in L. exact L.
Qed.

(** ** A slot with arbitrary contents

    On a file without faults reading it gives metadata with the generation in its
    page, or an error that recovery skips. *)
Definition yields {S E A} (m : stM S E A) (s : S) (Q : A -> S -> Prop) (R : E -> S -> Prop) : Prop :=
  match m s with
  | (Ok a, s') => Q a s'
  | (Err e, s') => R e s'
  | (Panic, _) | (NoFuel, _) => True
  end.
Lemma yields_bind {S E A B} (m : stM S E A) (k : A -> stM S E B) s Q R :
  yields m s (fun a s' => yields (k a) s' Q R) R -> yields (bind m k) s Q R.
Proof. unfold yields, bind. by destruct (m s) as [[] ?]. Qed.
Lemma yields_mono {S E A} (m : stM S E A) s (Q Q' : A -> S -> Prop) (R R' : E -> S -> Prop) :
  yields m s Q R -> (forall a s', Q a s' -> Q' a s') -> (forall e s', R e s' -> R' e s') -> yields m s Q' R'.
Proof. unfold yields. destruct (m s) as [[] ?]; auto. Qed.
Lemma yields_lift {S E A B} (m : outcome E A) (k : A -> stM S E B) s Q (R : E -> S -> Prop) :
  (forall a, m = Ok a -> yields (k a) s Q R) -> (forall e, m = Err e -> R e s) -> yields (bind (lift m) k) s Q R.
Proof. intros H1 H2. destruct m; [by apply (H1 a)|by apply (H2 e)|done|done]. Qed.
Lemma yields_guard {S E A} (c : bool) (e : E) (k : stM S E A) s (Q : A -> S -> Prop) (R : E -> S -> Prop) :
  R e s -> (c = false -> yields k s Q R) -> yields (throw_if c with e ;; k) s Q R.
Proof. intros H K. destruct c; [exact H|by apply K]. Qed.

(** Errors that [skip_invalid] skips. *)
Definition only_bad {A} (m : res A) : Prop := forall e, m = Err e -> is_invalid_page_data e = true.
Lemma only_bad_ok {A} (a : A) : only_bad (Ok a).
Proof. done. Qed.
Lemma only_bad_bind {A B} (m : res A) (k : A -> res B) :
  only_bad m -> (forall a, only_bad (k a)) -> only_bad (a <- m ;; k a).
Proof. intros H K e. destruct m; [apply K|intros [= ->]; by apply H|done|done]. Qed.
Lemma only_bad_guard {A} (c : bool) (k : res A) : only_bad k -> only_bad (fail_if c with errInvalidPageData ;; k).
Proof. intros K. destruct c; [by intros e [= <-]|done]. Qed.
Lemma only_bad_slice {A} (b : list A) lo hi : only_bad (slice b lo hi).
Proof. unfold slice. by destruct (_ && _). Qed.
Lemma only_bad_getU n b pos : only_bad (getU n b pos).
Proof. unfold getU. apply only_bad_bind; [apply only_bad_slice|done]. Qed.
Lemma only_bad_putU n b pos z : only_bad (putU n b pos z).
Proof. unfold putU, put. by destruct (_ && _). Qed.
#[local] Hint Resolve only_bad_ok only_bad_slice only_bad_getU only_bad_putU : core.
Ltac only_bad := repeat first [apply only_bad_guard | apply only_bad_bind; [by auto|intros ?] | by auto].

Lemma checkMetadataPage_bad page : only_bad (checkMetadataPage page).
Proof. unfold checkMetadataPage. only_bad. destruct (_ =? 1); only_bad. Qed.
Lemma loadEntries_bad ids : forall m sp se seq, only_bad (loadEntries ids m sp se seq).
Proof. induction ids as [|x ids IH]; intros m sp se seq; cbn [loadEntries]; only_bad. Qed.
Lemma loadLegacyIDs_bad page todo : forall i fc m seen, only_bad (loadLegacyIDs todo page i fc m seen).
Proof. induction todo as [|todo IH]; intros i fc m seen; cbn [loadLegacyIDs]; only_bad. Qed.

(** What loading the lists leaves of the metadata. *)
Definition same_head (m m' : rootMetadata) : Prop :=
  m_generation m' = m_generation m /\ m_pageCount m' = m_pageCount m.
Lemma loadEntries_head ids : forall m sp se seq r, loadEntries ids m sp se seq = Ok r -> same_head m r.1.1.
Proof.
  induction ids as [|x ids IH]; intros m sp se seq r; cbn [loadEntries]; [by intros [= <-]|].
  destruct (_ || _); [done|]. destruct (bool_decide _); [done|]. destruct (bool_decide _); [done|].
  intros H. apply IH in H. by destruct (_ <? _).
Qed.
Lemma loadLegacyIDs_head page todo : forall i fc m seen r, loadLegacyIDs todo page i fc m seen = Ok r -> same_head m r.
Proof.
  induction todo as [|todo IH]; intros i fc m seen r; cbn [loadLegacyIDs]; [by intros [= <-]|].
  destruct (getU _ _ _); try done. destruct (_ || _); [done|]. destruct (bool_decide _); [done|].
  intros H. apply IH in H. by destruct (_ <? _).
Qed.

Definition skipped (f : file) (e : error) (f' : file) : Prop := f' = f /\ is_invalid_page_data e = true.

Lemma loadChain_yields fuel f : forall m pageID sp se seq,
  calm f -> 0 <= pageID -> m_pageCount m <= maxPage -> metadataSize + m_pageCount m * pageSize <= len (f_data f) ->
  yields (loadChain fuel m pageID sp se seq) f (fun r f' => f' = f /\ same_head m r.1.1.1) (skipped f).
Proof.
  induction fuel as [|fuel IH]; intros m pageID sp se seq Hc Hid Hcnt Hlen; cbn [loadChain];
    (destruct (pageID =? 0) eqn:E0; [done|zbool]); [done|].
  apply yields_guard; [done|]. intros Hg. zbool. apply yields_guard; [done|]. intros _.
  apply yields_bind. unfold yields at 1. rewrite readRaw_calm; [|done|lia|unfold pageSize in *; lia].
  set (page := block _ _). apply yields_lift.
  2:{ intros e. pose proof (decodeFreeListNode_gives page). destruct (decodeFreeListNode page); try done.
      - destruct (negb _); by intros [= <-]. - by intros [= <-]. }
  intros node Hn. apply yields_lift; [|intros e He; split; [done|by eapply loadEntries_bad]].
  intros [[m' se'] seq'] Hm'. apply loadEntries_head in Hm'. cbn in Hm'. destruct Hm' as [Hg1 Hg2]. cbn in Hg1, Hg2.
  apply yields_guard; [done|]. intros _.
  assert (Hnx : 0 <= fl_next node).
  { pose proof (decodeFreeListNode_gives page) as G. destruct (decodeFreeListNode page) as [x| | |]; try done.
    destruct (negb _); [done|]. injection Hn as ->. by destruct G as [[? _] _]. }
  eapply yields_mono; [apply IH; [done|done|lia|rewrite Hg2; done]| |done]. cbn beta.
  intros r f' [-> [? ?]]. split; [done|]. split; congruence.
Qed.

(** Slot [s] is read as what its page says. *)
Definition slot_says (d : bytes) (s : Z) (m : rootMetadata) : Prop := exists v page,
  checkMetadataPage (block d s) = Ok (v, page) /\ getU 8 page metadataGenerationOffset = @Ok error _ (m_generation m).

Lemma readSlot_yields s f :
  calm f -> 0 <= s <= 1 -> 2 * pageSize <= len (f_data f) <= maxInt64 ->
  yields (readRootMetadataSlot s) f (fun m f' => f' = f /\ slot_says (f_data f) s m) (skipped f).
Proof.
  intros Hc Hs Hl. unfold readRootMetadataSlot. apply yields_bind. unfold yields at 1.
  rewrite ReadAt_calm; [|done|unfold pageSize in *; lia]. change (sub _ _ _) with (block (f_data f) s).
  assert (Hbl : len (block (f_data f) s) = pageSize) by (unfold block, pageSize in *; rewrite len_sub; lia).
  pose proof (checkMetadataPage_gives _ Hbl) as Gp.
  apply yields_lift; [|intros e He; split; [done|by eapply checkMetadataPage_bad]]. intros [v page] Hck. rewrite Hck in Gp. cbn in Gp.
  apply yields_lift; [|intros e He; split; [done|by eapply only_bad_getU]]. intros gen Hgen.
  apply yields_lift; [|intros e He; split; [done|by eapply only_bad_getU]]. intros root Hroot.
  apply yields_lift; [|intros e He; split; [done|by eapply only_bad_getU]]. intros count Hcount.
  apply yields_guard; [done|]. intros Hg. zbool.
  apply yields_bind. unfold yields at 1. rewrite StatSize_calm by (done || lia).
  apply yields_guard; [done|]. intros Hg2. zbool.
  assert (Hsays : forall m, m_generation m = gen -> slot_says (f_data f) s m).
  { intros m <-. by exists v, page. }
  assert (Hcm : count <= maxPage /\ metadataSize + count * pageSize <= len (f_data f)).
  { pose proof (Z.mul_div_le (len (f_data f) - metadataSize) pageSize ltac:(done)).
    assert ((len (f_data f) - metadataSize) / pageSize <= (maxInt64 - metadataSize) / pageSize)
      by (apply Z.div_le_mono; [done|lia]). unfold maxPage. unfold pageSize in *. lia. }
  destruct (v =? 2); [|destruct (v =? metadataVersion)].
  - apply yields_lift; [|intros e He; split; [done|by eapply only_bad_getU]]. intros fc _.
    apply yields_lift; [|intros e He; split; [done|by eapply only_bad_getU]]. intros rc _.
    apply yields_guard; [done|]. intros _. unfold yields, lift.
    destruct (loadLegacyIDs _ _ _ _ _ _) as [m|e| |] eqn:E; try done.
    + split; [done|]. apply loadLegacyIDs_head in E as [E _]. by apply Hsays.
    + split; [done|by eapply loadLegacyIDs_bad].
  - do 5 (apply yields_lift; [intros ? ?|intros e He; split; [done|by eapply only_bad_getU]]).
    unfold loadFreeListMetadata. cbn [m_freeListHead m_freeListTail m_headSequence m_tailSequence m_maxSequence m_pageCount].
    destruct (_ =? 0) eqn:Eh; [apply yields_guard; [done|]; intros _; split; [done|by apply Hsays]|].
    apply yields_guard; [done|]. intros _. apply yields_bind.
    eapply yields_mono; [apply loadChain_yields; cbn; try done; try lia| |done].
    { match goal with H : getU 8 page metadataFreeListHeadOffset = Ok ?x |- 0 <= ?x =>
        pose proof (getU_gives (E := error) 8 page metadataFreeListHeadOffset ltac:(done) ltac:(rewrite Gp; done)) as Gh; rewrite H in Gh; apply Gh end. }
    cbn beta. intros [[[m' sp] se] sq] f' [-> [E _]]. cbn in E. apply yields_guard; [done|]. intros _.
    apply yields_guard; [done|]. intros _. split; [done|by apply Hsays].
  - split; [done|by apply Hsays].
Qed.

Lemma slots_committed d pm pages f :
  committed d pm pages -> f_data f = d -> calm f -> len d <= maxInt64 ->
  skip_invalid (readRootMetadataSlot (commit_slot pm)) f = (Ok (Some (commit_meta pm)), f) /\
  exists o, skip_invalid (readRootMetadataSlot (1 - commit_slot pm)) f = (Ok o, f) /\
    forall m, o = Some m -> m_generation m < generation pm /\ meta_ok m.
Proof.
  intros C Hd Hc Hsz. unfold skip_invalid. rewrite (readSlot_committed d pm pages f C Hd Hc Hsz). split; [done|].
  pose proof (slot_range pm) as Hs. pose proof (slot_in_file _ _ _ C) as Hin.
  pose proof (readSlot_yields (1 - commit_slot pm) f Hc ltac:(lia) ltac:(rewrite Hd; lia)) as Y.
  pose proof (readRootMetadataSlot_ok (1 - commit_slot pm) f ltac:(lia)) as T. unfold yields, ends in *.
  destruct (readRootMetadataSlot (1 - commit_slot pm) f) as [[m|e| |] f']; try done.
  - destruct Y as [-> (v & page & Hck & Hg)]. exists (Some m). split; [done|]. intros m' [= <-].
    rewrite Hd in Hck. split; [by apply (cm_other _ _ _ C v page)|done].
  - destruct Y as [-> ->]. by exists None.
Qed.

Lemma readRootMetadata_committed d pm pages f :
  committed d pm pages -> f_data f = d -> calm f -> len d <= maxInt64 ->
  readRootMetadata f = (Ok (commit_meta pm), f).
Proof.
  intros C Hd Hc Hsz. destruct (slots_committed d pm pages f C Hd Hc Hsz) as (H1 & o & H2 & Ho).
  pose proof (slot_range pm) as Hs. unfold readRootMetadata.
  destruct (decide (commit_slot pm = 0)) as [E|E].
  - rewrite E in H1, H2. change (1 - 0) with 1 in H2. rewrite (bind_ok _ _ _ _ _ H1), (bind_ok _ _ _ _ _ H2).
    destruct o as [m|]; [|done]. destruct (Ho m eq_refl) as [Hm _]. cbn. rewrite Z.gtb_ltb. zdecide. done.
  - assert (E1 : commit_slot pm = 1) by lia. rewrite E1 in H1, H2. change (1 - 1) with 0 in H2.
    rewrite (bind_ok _ _ _ _ _ H2), (bind_ok _ _ _ _ _ H1).
    destruct o as [m|]; [|done]. destruct (Ho m eq_refl) as [Hm _]. cbn. rewrite Z.gtb_ltb. zdecide. done.
Qed.

(** ** The committed tree *)

Lemma rep_height m h es kvs F : rep m h es kvs F -> es <> [] -> (h <= size F)%nat.
Proof.
  induction 1 as [es|h|h e es b ces k1 k2 F1 F2 Hm P Hne Hk R1 IH1 R2 IH2 Hn Hd]; intros Hes; [lia|done|].
  specialize (IH1 Hne). assert (Hs : ({[e_ptr e]} ∪ F1 : gset Z) ⊆ {[e_ptr e]} ∪ F1 ∪ F2) by set_solver.
  apply subseteq_size in Hs. rewrite size_union, size_singleton in Hs by set_solver. lia.
Qed.

(** Two page managers with the same committed generation. *)
Record same_commit (pm pm' : pageManager) : Prop := {
  sc_gen : generation pm' = generation pm;
  sc_root : rootPageID pm' = rootPageID pm;
  sc_count : committedPageCount pm' = committedPageCount pm;
  sc_free : freePageIDs pm' = freePageIDs pm;
  sc_retired : retiredPageIDs pm' = retiredPageIDs pm;
  sc_lists : freeListPageIDs pm' = freeListPageIDs pm;
}.
Lemma committed_same d pm pm' pages : same_commit pm pm' -> committed d pm pages -> committed d pm' pages.
Proof.
  intros [] C. destruct pm, pm'. cbn in *. subst. destruct C. by split.
Qed.

Section Reopen.
Context (d : bytes) (pm : pageManager) (pages : gmap Z bytes) (h : nat) (kvs : list kv).
Hypothesis C : committed d pm pages.
Hypothesis T : tree pages h (rootPageID pm) kvs (dom pages).
Hypothesis Hset : settled pages (rootPageID pm) = true.
Hypothesis Hsz : len d <= maxInt64.

(** A page manager that is about to load the generation from the file. *)
Context (pm1 : pageManager).
Hypothesis Hf : f_data (pm_file pm1) = d.
Hypothesis Hc : calm (pm_file pm1).
Hypothesis Hn : nextPageID pm1 = (len d - metadataSize) / pageSize + 1.
Hypothesis Hsame : same_commit pm pm1.
Hypothesis Hfree : freePageSet pm1 = list_to_set (freePageIDs pm).

Lemma count_below : committedPageCount pm < nextPageID pm1.
Proof.
  rewrite Hn. assert (committedPageCount pm <= (len d - metadataSize) / pageSize); [|lia].
  apply Z.div_le_lower_bound; [done|]. pose proof (cm_len _ _ _ C). unfold pageSize in *. lia.
Qed.
Lemma readPage_committed id b : pages !! id = Some b -> readPage id pm1 = (Ok b, pm1).
Proof.
  intros Hb. destruct (cm_pages _ _ _ C id b Hb) as [Hid <-]. pose proof count_below. pose proof (cm_count _ _ _ C).
  unfold readPage. unfold bind at 1, asks. unfold validateExistingPageID. rewrite Z.geb_leb. zdecide.
  rewrite bool_decide_false.
  2:{ rewrite Hfree, elem_of_list_to_set. intros Hx. destruct (cm_ids _ _ _ C id) as [_ Hx']; [rewrite elem_of_app; by left|].
      apply Hx'. by apply elem_of_dom_2 in Hb. }
  unfold bind at 1, lift at 1. unfold bind, lift. rewrite dataPageOffset_ok by lia. rewrite page_block_off.
  unfold on_file. rewrite ReadAt_calm, Hf; [by destruct pm1|done|]. rewrite Hf.
  pose proof (cm_len _ _ _ C). pose proof (page_end id). unfold pageSize in *. lia.
Qed.

Lemma loadCommitted_exact : loadCommittedPages pm1 = (Ok pages, pm1).
Proof.
  unfold loadCommittedPages. rewrite (sc_root _ _ Hsame), (sc_count _ _ Hsame).
  destruct T as [(Hr & _ & HF)|(Hr & Hs & R)].
  { rewrite Hr. cbn. apply dom_empty_inv_L in HF. by rewrite HF. }
  zdecide.
  assert (Hcnt : forall id b, pages !! id = Some b -> 0 < id <= committedPageCount pm1).
  { intros id b Hb. rewrite (sc_count _ _ Hsame). by apply (cm_pages _ _ _ C) in Hb as [? _]. }
  assert (Hh : (h < S (Z.to_nat (committedPageCount pm)))%nat).
  { apply rep_height in R; [|done].
    assert (len (elements (dom pages)) < committedPageCount pm + 1).
    { apply ids_bounded; [pose proof (cm_count _ _ _ C); lia|apply NoDup_elements|].
      intros x Hx%elem_of_elements. apply elem_of_dom in Hx as [b Hb]. destruct (cm_pages _ _ _ C x b Hb). lia. }
    assert (size (dom pages) = length (elements (dom pages))) by done. unfold len in *. lia. }
  pose proof (walk_loads pages pm1 readPage_committed Hcnt (fun id b => settled_at pages (rootPageID pm) id b Hset) h
    (S (Z.to_nat (committedPageCount pm))) (mkEntry (rootPageID pm) [] []) (([], []) :: kvs) (dom pages) 0 None None true ∅ ∅ (-1)) as W.
  cbn [e_ptr e_key] in W. rewrite W; try done; try lia.
  - unfold load. cbn [wk_pages wk_pm]. rewrite map_union_empty. do 2 f_equal.
    apply map_eq. intros id. rewrite restrict_lookup. destruct (decide (id ∈ dom pages)) as [|Hi]; [done|].
    symmetry. by apply not_elem_of_dom.
  - by apply Forall_forall.
  - intros b _ Hb. unfold settled in Hset. rewrite Hb in Hset. by apply andb_true_iff in Hset as [_ ?].
Qed.
End Reopen.

(** ** Recovery *)

Lemma claimAll_all ids next : forall owners,
  NoDup ids -> (forall id, id ∈ ids -> 0 < id < next /\ id ∉ owners) -> exists o, claimAll ids next owners = Ok o.
Proof.
  induction ids as [|id ids IH]; intros owners Hd Hid; cbn [claimAll]; [by eexists|].
  apply NoDup_cons in Hd as [Hn Hd]. destruct (Hid id) as [? ?]; [left|]. rewrite Z.geb_leb. zdecide.
  rewrite bool_decide_false by done. apply IH; [done|]. intros x Hx. destruct (Hid x) as [? ?]; [by right|].
  split; [done|]. set_solver.
Qed.

(** What recovering the generation of [pm] from [f] leaves. *)
Record recovers (pm : pageManager) (f : file) (next : Z) (pm' : pageManager) : Prop := {
  rc_commit : same_commit pm pm';
  rc_file : pm_file pm' = f;
  rc_next : nextPageID pm' = next;
}.

(** Recovery tries the committed generation first, then older ones. *)
Lemma recover_candidates d pm pages pmX :
  committed d pm pages -> len d <= maxInt64 -> f_data (pm_file pmX) = d -> calm (pm_file pmX) ->
  exists rest, recoverCommittedPages pmX = tryCandidates (commit_meta pm :: rest) [] pmX /\
    Forall (fun m => m_generation m < generation pm /\ meta_ok m) rest.
Proof.
  intros C Hsz Hf Hc. destruct (slots_committed d pm pages (pm_file pmX) C Hf Hc Hsz) as (H1 & o & H2 & Ho).
  assert (Hon : forall s o', skip_invalid (readRootMetadataSlot s) (pm_file pmX) = (Ok o', pm_file pmX) ->
    on_file (skip_invalid (readRootMetadataSlot s)) pmX = (Ok o', pmX)).
  { intros s o' E. unfold on_file. rewrite E. by destruct pmX. }
  exists (match o with Some m => [m] | None => [] end).
  split; [|destruct o as [m|]; [apply Forall_singleton; by apply Ho|constructor]].
  pose proof (slot_range pm) as Hs. unfold recoverCommittedPages. destruct (decide (commit_slot pm = 0)) as [E|E].
  - rewrite E in H1, H2. change (1 - 0) with 1 in H2.
    rewrite (bind_ok _ _ _ _ _ (Hon _ _ H1)), (bind_ok _ _ _ _ _ (Hon _ _ H2)).
    destruct o as [m|]; [|done]. destruct (Ho m eq_refl) as [Hm _]. change (m_generation (commit_meta pm)) with (generation pm).
    rewrite Z.gtb_ltb. zdecide. done.
  - assert (E1 : commit_slot pm = 1) by lia. rewrite E1 in H1, H2. change (1 - 1) with 0 in H2.
    rewrite (bind_ok _ _ _ _ _ (Hon _ _ H2)), (bind_ok _ _ _ _ _ (Hon _ _ H1)).
    destruct o as [m|]; [|done]. destruct (Ho m eq_refl) as [Hm _]. change (m_generation (commit_meta pm)) with (generation pm).
    rewrite Z.gtb_ltb. zdecide. done.
Qed.

Section Recovery.
Context (d : bytes) (pm : pageManager) (pages : gmap Z bytes) (h : nat) (kvs : list kv).
Hypothesis C : committed d pm pages.
Hypothesis T : tree pages h (rootPageID pm) kvs (dom pages).
Hypothesis Hset : settled pages (rootPageID pm) = true.
Hypothesis Hsz : len d <= maxInt64.

Lemma tryCandidate_exact pmX :
  f_data (pm_file pmX) = d -> calm (pm_file pmX) -> nextPageID pmX = (len d - metadataSize) / pageSize + 1 ->
  exists pm2, tryCandidate (commit_meta pm) pmX = (Ok (inl pages), pm2) /\ recovers pm (pm_file pmX) (nextPageID pmX) pm2.
Proof.
  intros Hf Hc Hn. set (pm1 := restore (mkPMState (nextPageID pmX) (committedPageCount pm) (rootPageID pm) (generation pm)
    (freePageIDs pm) (retiredPageIDs pm) [] (freeListPageIDs pm)) pmX).
  assert (Hs1 : same_commit pm pm1) by done. pose proof (count_below d pm pages C pm1 Hn) as Hcnt.
  pose proof (committed_fields _ _ _ C) as (_ & _ & _ & _ & _ & _ & Hr).
  unfold tryCandidate. cbn [m_rootPageID m_generation m_pageCount m_freePageIDs m_retiredPageIDs m_freeListPageIDs commit_meta meta_of].
  cbn in Hcnt. rewrite Z.geb_leb. zdecide. fold pm1.
  unfold bind at 1. rewrite (loadCommitted_exact d pm pages h kvs C T Hset pm1 Hf Hc Hn Hs1 eq_refl).
  unfold bind at 1, reconcilePageOwnership.
  destruct (claimAll_all (elements (dom pages) ++ freePageIDs pm1 ++ retiredPageIDs pm1 ++ freeListPageIDs pm1) (nextPageID pm1) ∅) as [o ->].
  - apply NoDup_app. split_and!; [apply NoDup_elements| |apply C]. intros x Hx%elem_of_elements Hx'.
    by destruct (cm_ids _ _ _ C x Hx').
  - intros x Hx. split; [|set_solver]. rewrite elem_of_app in Hx. destruct Hx as [Hx|Hx].
    + apply elem_of_elements, elem_of_dom in Hx as [b Hb]. destruct (cm_pages _ _ _ C x b Hb). cbn. lia.
    + destruct (cm_ids _ _ _ C x Hx). cbn. lia.
  - eexists. split; [reflexivity|]. by split.
Qed.

Lemma recover_exact pmX :
  f_data (pm_file pmX) = d -> calm (pm_file pmX) -> nextPageID pmX = (len d - metadataSize) / pageSize + 1 ->
  exists pm2, recoverCommittedPages pmX = (Ok pages, pm2) /\ recovers pm (pm_file pmX) (nextPageID pmX) pm2.
Proof.
  intros Hf Hc Hn. destruct (tryCandidate_exact pmX Hf Hc Hn) as (pm2 & Ht & R). exists pm2. split; [|done].
  destruct (recover_candidates d pm pages pmX C Hsz Hf Hc) as (rest & -> & _). cbn [tryCandidates]. unfold bind. by rewrite Ht.
Qed.

(** [openPageManager] accepts the file. *)
Lemma checkFreePages_all ids root next :
  Forall (fun id => id <> root /\ id < next) ids -> checkFreePages ids root next = Ok tt.
Proof.
  induction 1 as [|id ids [H1 H2] _ IH]; cbn [checkFreePages]; [done|]. rewrite Z.geb_leb. zdecide. done.
Qed.

(** The page manager opening gives, before recovery. *)
Definition opened (f : file) : pageManager :=
  mkPM f ((len d - metadataSize) / pageSize + 1) (committedPageCount pm) (rootPageID pm) (generation pm)
    (freePageIDs pm) (retiredPageIDs pm) [] (list_to_set (freePageIDs pm)) (freeListPageIDs pm).

Lemma openPageManager_exact f :
  f_data f = d -> calm f -> (len d - metadataSize) mod pageSize = 0 -> openPageManager f = (Ok (opened f), f).
Proof.
  intros Hf Hc Hal. pose proof (slot_in_file _ _ _ C) as Hin. unfold opened. set (next := (len d - metadataSize) / pageSize + 1).
  assert (Hcnt : committedPageCount pm < next) by (apply (count_below d pm pages C (opened f)); done).
  pose proof (committed_fields _ _ _ C) as (_ & _ & _ & _ & _ & _ & Hr).
  unfold openPageManager, lockDatabaseFile. unfold bind at 1. unfold bind at 1, next_fault. rewrite Hc. cbn [ret].
  unfold bind at 1. rewrite StatSize_calm, Hf by (rewrite ?Hf; done).
  assert (len d =? 0 = false) as -> by (apply Z.eqb_neq; unfold pageSize in *; lia).
  unfold bind at 1, ret. change metadataSize with (2 * pageSize) in *. rewrite Hal. zdecide.
  rewrite (bind_ok _ _ _ _ _ (readRootMetadata_committed d pm pages f C Hf Hc Hsz)).
  cbn [m_rootPageID m_generation m_pageCount m_freePageIDs m_retiredPageIDs m_freeListPageIDs commit_meta meta_of].
  fold next. assert (rootPageID pm >=? next = false) as -> by (rewrite Z.geb_leb; apply Z.leb_gt; lia).
  rewrite andb_false_r. rewrite (bind_lift_ok _ _ _ tt); [done|]. apply checkFreePages_all, Forall_forall.
  intros x Hx. destruct (cm_ids _ _ _ C x) as [? Hnd]; [rewrite elem_of_app; by left|]. split; [|lia].
  intros ->. destruct (cm_root _ _ _ C); [lia|done].
Qed.

(** A store opened on the generation of [pm]. *)
Record reopened (db : KV) (f : file) : Prop := {
  ro_pages : k_pages db = pages;
  ro_root : k_root db = rootPageID pm;
  ro_closed : k_closed db = false;
  ro_uncertain : k_uncertain db = false;
  ro_recovers : recovers pm f ((len d - metadataSize) / pageSize + 1) (k_pm db);
}.

(** [Open] once the page manager is there; [f] is the file then. *)
Lemma Open_opened path (created : bool) f0 f1 f :
  path <> [] -> openPageManager f0 = (Ok (opened f1), f1) ->
  (if created then _ <~ Sync ;; checked else ret tt : FM unit) f1 = (Ok tt, f) -> f_data f = d -> calm f ->
  exists db, Open path created f0 = (Ok db, f) /\ reopened db f.
Proof.
  intros Hp Hopen Hcr Hf Hc. unfold Open. assert (len path <> 0) by (intros ?%len_0; done). zdecide.
  rewrite (bind_ok _ _ _ _ _ Hopen), (bind_ok _ _ _ _ _ Hcr).
  cbn [opened nextPageID committedPageCount rootPageID generation freePageIDs retiredPageIDs pendingFreePageIDs freePageSet freeListPageIDs].
  set (pmX := mkPM f _ _ _ _ _ _ _ _ _).
  destruct (recover_exact pmX Hf Hc eq_refl) as (pm2 & -> & R). pose proof R as [Rc Rf Rn]. rewrite Rf.
  exists (mkKV pm2 (rootPageID pm2) pages false false). split; [done|]. split; try done. apply Rc.
Qed.
Lemma Open_exact path f :
  f_data f = d -> calm f -> path <> [] -> (len d - metadataSize) mod pageSize = 0 ->
  exists db, Open path false f = (Ok db, f) /\ reopened db f.
Proof. intros Hf Hc Hp Hal. by apply (Open_opened path false f f f); [|apply openPageManager_exact|..]. Qed.
End Recovery.

(** ** Falling back

    A committed tree that fails the balance tests is not recovered: what is, is
    an older generation. *)
Section Unsettled.
Context (d : bytes) (pm : pageManager) (pages : gmap Z bytes) (h : nat) (kvs : list kv).
Hypothesis C : committed d pm pages.
Hypothesis T : tree pages h (rootPageID pm) kvs (dom pages).
Hypothesis Hsz : len d <= maxInt64.

Lemma settled_of root :
  settled_on pages (dom pages) -> (forall b, pages !! root = Some b -> wide_root b = true) -> settled pages root = true.
Proof using Type.
  intros Hs Hw. unfold settled. apply andb_true_iff. split.
  - apply forallb_forall. intros [id b] Hin%list_elem_of_In. apply elem_of_map_to_list in Hin.
    apply Hs; [by apply elem_of_dom_2 in Hin|done].
  - destruct (pages !! root); [by apply Hw|done].
Qed.
Lemma loadCommitted_settled pm1 ps pm2 :
  f_data (pm_file pm1) = d -> calm (pm_file pm1) -> nextPageID pm1 = (len d - metadataSize) / pageSize + 1 ->
  same_commit pm pm1 -> freePageSet pm1 = list_to_set (freePageIDs pm) ->
  loadCommittedPages pm1 = (Ok ps, pm2) -> settled pages (rootPageID pm) = true.
Proof using C T.
  intros Hf Hc Hn Hsame Hfree. unfold loadCommittedPages. rewrite (sc_root _ _ Hsame), (sc_count _ _ Hsame).
  destruct T as [(Hr & _ & HF)|(Hr & Hs & R)].
  { intros _. apply dom_empty_inv_L in HF. rewrite HF, Hr. by vm_compute. }
  zdecide. pose proof (readPage_committed d pm pages C pm1 Hf Hc Hn Hsame Hfree) as Hread.
  assert (Hids : forall id b, pages !! id = Some b -> 0 < id <= committedPageCount pm1).
  { intros id b Hb. rewrite (sc_count _ _ Hsame). by apply (cm_pages _ _ _ C) in Hb as [? _]. }
  destruct (walk _ _ _ _ _ _ _) as [[[]|e| |] w] eqn:E; try discriminate. intros _. apply settled_of.
  - pose proof (rep_height _ _ _ _ _ R ltac:(discriminate)) as Hh.
    apply (walk_passes pages pm1 Hread Hids h _ (mkEntry (rootPageID pm) [] []) (([], []) :: kvs) (dom pages) 0 None None true ∅ ∅ (-1) w) in E;
      try done; try lia; [apply E|by apply Forall_forall|].
    assert (len (elements (dom pages)) < committedPageCount pm + 1).
    { apply ids_bounded; [pose proof (cm_count _ _ _ C); lia|apply NoDup_elements|].
      intros x Hx%elem_of_elements. apply elem_of_dom in Hx as [b Hb]. destruct (cm_pages _ _ _ C x b Hb). lia. }
    assert (size (dom pages) = length (elements (dom pages))) by done. unfold len in *. lia.
  - intros b Hb. apply (walk_narrow pages pm1 Hread Hids _ _ b _ _ _ _ _ _ _ Hb) in E; [done|by rewrite dom_empty_L|apply not_elem_of_empty].
Qed.

Lemma tryCandidate_generation m pmX ps pm2 :
  meta_ok m -> tryCandidate m pmX = (Ok (inl ps), pm2) -> generation pm2 = m_generation m.
Proof using Type.
  intros Hm. unfold tryCandidate. destruct (_ >=? _); [discriminate|]. set (pm1 := restore _ _).
  destruct Hm as [Hr _ _ _]. pose proof (loadCommittedPages_ok pm1 ltac:(cbn; lia) ltac:(cbn; lia)) as L. unfold ends in L.
  unfold bind. destruct (loadCommittedPages pm1) as [[ps'|e| |] pm3]; try discriminate.
  destruct L as (A & _). apply same_alloc_fields in A as (_ & _ & A & _).
  unfold reconcilePageOwnership. destruct (claimAll _ _ _); try discriminate. cbn. intros [= _ <-]. exact A.
Qed.
Lemma older_candidates ms g : Forall (fun m => m_generation m < g /\ meta_ok m) ms -> forall errs pmX ps pm2,
  tryCandidates ms errs pmX = (Ok ps, pm2) -> generation pm2 < g.
Proof using Type.
  induction 1 as [|m ms [Hg Hm] _ IH]; intros errs pmX ps pm2; cbn [tryCandidates]; [discriminate|].
  intros ([ps'|e] & pm1 & E1 & E2)%bind_back; [|by apply IH in E2].
  injection E2 as <- <-. by rewrite (tryCandidate_generation m pmX ps' pm1 Hm E1).
Qed.

Lemma recover_unsettled pmX ps pm2 :
  settled pages (rootPageID pm) = false -> f_data (pm_file pmX) = d -> calm (pm_file pmX) ->
  nextPageID pmX = (len d - metadataSize) / pageSize + 1 -> recoverCommittedPages pmX = (Ok ps, pm2) ->
  generation pm2 < generation pm.
Proof using C T Hsz.
  intros Hu Hf Hc Hn. destruct (recover_candidates d pm pages pmX C Hsz Hf Hc) as (rest & -> & Hrest). cbn [tryCandidates].
  intros ([ps'|e] & pm1 & E1 & E2)%bind_back; [exfalso|by eapply older_candidates].
  unfold tryCandidate in E1. destruct (_ >=? _); [discriminate|].
  destruct (bind loadCommittedPages _ _) as [[x|e| |] pm3] eqn:E; try discriminate.
  apply bind_back in E as (ps2 & pm4 & E & _).
  apply loadCommitted_settled in E; [congruence|done..].
Qed.

(** Opening the file gives an older generation, or fails. *)
Lemma Open_unsettled path f db f' :
  settled pages (rootPageID pm) = false -> f_data f = d -> calm f -> (len d - metadataSize) mod pageSize = 0 ->
  Open path false f = (Ok db, f') -> generation (k_pm db) < generation pm.
Proof using C T Hsz.
  intros Hu Hf Hc Hal. unfold Open. destruct (len path =? 0); [discriminate|].
  rewrite (bind_ok _ _ _ _ _ (openPageManager_exact d pm pages C Hsz f Hf Hc Hal)). unfold bind, ret.
  set (pmX := mkPM f _ _ _ _ _ _ _ _ _). destruct (recoverCommittedPages pmX) as [[ps|e| |] pm2] eqn:E; try discriminate.
  intros [= <- _]. cbn [k_pm]. by apply (recover_unsettled pmX ps pm2).
Qed.
End Unsettled.

(** A reopened store is again one whose file holds its generation. *)
Lemma reopened_disk d pm pages h kvs path created f0 db f :
  committed d pm pages -> tree pages h (rootPageID pm) kvs (dom pages) -> Open path created f0 = (Ok db, f) ->
  reopened d pm pages db f -> f_data f = d -> f_synced f = d -> (len d - metadataSize) mod pageSize = 0 ->
  kv_rep db h kvs /\ on_disk db.
Proof.
  intros C T Eo [R1 R2 R3 R4 [R5 R6 R7]] Hd Hs Hal. pose proof (Open_ok path created f0) as Ok_. unfold ends in Ok_. rewrite Eo in Ok_.
  destruct Ok_ as (h' & kvs' & [_ I] & _). split.
  - split; [|done]. by rewrite R1, R2.
  - split; rewrite ?R6, ?Hd, ?Hs; try done.
    + rewrite R1. by eapply committed_same.
    + rewrite R7. pose proof (Z.div_mod (len d - metadataSize) pageSize ltac:(done)). rewrite Hal in *. unfold pageSize in *. lia.
    + by rewrite R2, (sc_root _ _ R5).
Qed.
