(* ===== verification/DurableResults.v ===== *)
(** * Durability of the store (src/internal/btree/kv.go, page_manager.go)

    On a store whose file holds its committed generation: updates succeed when no
    file call fails, what they commit is there after reopening, and a crash at
    any file call leaves the contents before or after the update. *)

From S2P Require Import Prelude KvList Errors Page PageTree PageNodeSpec PageTreeSpec PageDeleteSpec File FreeList.
From S2P Require Import PageManager PageManagerSpec KV DiskSpec PublishSpec KVSpec RecoverySpec KVResults StorageResults.
From S2P Require Import DurableSpec CommitSpec WalkSpec ReopenSpec.

(** ** Preconditions *)

(** Room for [n] more pages with a free list over all pages, and a further
    generation number. *)
Definition disk_room (db : KV) (n : nat) : Prop :=
  2 * (nextPageID (k_pm db) + Z.of_nat n) <= maxPage + 1 /\ generation (k_pm db) + 1 < 2 ^ 64.
Lemma disk_room_alloc db n h kvs : kv_rep db h kvs -> disk_room db n -> Z.of_nat n <= pm_room (k_pm db).
Proof.
  intros [_ I] [H _]. pose proof (pi_next _ _ I). unfold pm_room. pose proof (len_nonneg (freePageIDs (k_pm db))). lia.
Qed.

(** The bytes [d] hold a generation with contents [kvs]. *)
Definition holds (d : bytes) (kvs : list kv) : Prop := exists pm pages h,
  committed d pm pages /\ tree pages h (rootPageID pm) kvs (dom pages).

(** Growth by at most [n] tree pages. *)
Definition grown (n : nat) (db db' : KV) : Prop := grows (nextPageID (k_pm db) + Z.of_nat n) db db'.

(** The outcome of an update for the file: [P] is what it would commit. *)
Definition disk_post {A} (n : nat) (db : KV) (kvs : list kv) (P : list kv -> Prop) (E : error -> Prop) (r : outcome error A * KV) : Prop :=
  match r with
  | (Ok _, db') => on_disk db' /\ (calm (pm_file (k_pm db)) -> calm (pm_file (k_pm db'))) /\ grown n db db'
  | (Err e, db') =>
      (forall d, crash_image (pm_file (k_pm db')) d -> holds d kvs \/ (exists kvs', P kvs' /\ holds d kvs') \/
         collision (block (f_data (pm_file (k_pm db))) (1 - commit_slot (k_pm db))) (1 - commit_slot (k_pm db)) d) /\
      (calm (pm_file (k_pm db)) -> (exists e0, e = EJoin [e0] /\ E e0) /\ on_disk db' /\
         calm (pm_file (k_pm db')) /\ k_uncertain db' = false /\ grown n db db')
  | (Panic, _) | (NoFuel, _) => False
  end.

Lemma grown_mono n n' db1 db2 : (n <= n')%nat -> grown n db1 db2 -> grown n' db1 db2.
Proof. unfold grown, grows. lia. Qed.
Lemma disk_post_mono {A} n n' db kvs P (E E' : error -> Prop) (r : outcome error A * KV) :
  (n <= n')%nat -> (forall e, E e -> E' e) -> disk_post n db kvs P E r -> disk_post n' db kvs P E' r.
Proof.
  intros Hn HE. unfold disk_post. destruct r as [[a|e| |] db']; try done.
  - intros (H1 & H2 & H3). split; [done|]. split; [done|]. by eapply grown_mono.
  - intros [H1 H2]. split; [done|]. intros Hcalm. destruct (H2 Hcalm) as ((e0 & -> & He) & ? & ? & ? & G).
    split; [exists e0; auto|]. split_and!; try done. by eapply grown_mono.
Qed.
Lemma disk_open {A} (m : KM A) n db kvs P E :
  k_closed db = false -> disk_post n db kvs P E (m db) ->
  disk_post n db kvs P E ((closed <~ asks k_closed ;; throw_if closed with ErrClosed ;; m) db).
Proof. intros Hc H. unfold bind, asks. by rewrite Hc. Qed.
Lemma disk_unit {A B} (m : KM A) (x : B) n db kvs P E : disk_post n db kvs P E (m db) -> disk_post n db kvs P E ((_ <~ m ;; ret x) db).
Proof. unfold disk_post, bind. by destruct (m db) as [[] ?]. Qed.

Lemma update_post_disk fuel change db h kvs n hmax (Q : bool -> list kv -> Prop) (E : error -> Prop) :
  kv_rep db h kvs -> k_uncertain db = false -> on_disk db -> disk_room db n -> (h <= hmax < fuel)%nat ->
  (forall db1 w, let X := work_disk db1 (nextPageID (k_pm db) + Z.of_nat n) in visible w = k_pages db -> work_tree w h kvs -> wroom X w n ->
     ends change w (fun b w' => exists h' kvs', (h' <= hmax)%nat /\ work_tree w' h' kvs' /\ wroom X w' 0 /\ Q b kvs')
       (fun e w' => wroom X w' 0 /\ E e)) ->
  disk_post n db kvs (Q true) E (update fuel change db).
Proof.
  intros K Hu O [Hroom Hgen] Hh Hch.
  pose proof (update_disk fuel change db h kvs n hmax (nextPageID (k_pm db) + Z.of_nat n) Q E K Hu O Hgen) as U.
  specialize (U ltac:(eapply disk_room_alloc; [exact K|by split]) ltac:(lia) Hroom Hh Hch). cbv zeta in U.
  unfold disk_post. destruct (update fuel change db) as [[b|e| |] db']; try done.
  destruct U as [U1 U2]. split; [|exact U2]. intros d HC. destruct (U1 d HC) as [C|[(pm & pages & C & h' & kvs' & _ & T & HQ)|C]].
  - left. exists (k_pm db), (k_pages db), h. split; [done|]. rewrite (od_root _ O). apply K.
  - right; left. exists kvs'. split; [done|]. by exists pm, pages, h'.
  - by right; right.
Qed.

Lemma Set_disk fuel key value db h kvs :
  kv_rep db h kvs -> k_closed db = false -> k_uncertain db = false -> on_disk db -> disk_room db (3 * h + 4) -> (S h < fuel)%nat ->
  disk_post (3 * h + 4) db kvs (eq (kv_set key value kvs)) (fun _ => ~ mutation_ok (mkMutation key value false)) (Set_ fuel key value db).
Proof.
  intros K Hc Hu O Hr Hf. apply disk_open, disk_unit; [done|].
  eapply (update_post_disk _ _ _ _ _ (3 * h + 4) (S h) (fun _ => eq (kv_set key value kvs))); try done; try lia.
  intros db1 w X Hv T R. apply ends_bind.
  eapply ends_mono; [apply (treeInsert_any X fuel key value w h kvs 0 T); [lia|by rewrite Nat.add_0_r]| |done].
  cbn beta. intros _ w' (Hm & h' & Hh & T' & R'). by exists h', (kv_set key value kvs).
Qed.
Lemma Delete_disk fuel key db h kvs :
  kv_rep db h kvs -> k_closed db = false -> k_uncertain db = false -> on_disk db -> disk_room db (S h) -> (h < fuel)%nat ->
  disk_post (S h) db kvs (eq (kv_del key kvs)) (fun e => mutation_ok (mkMutation key [] true) ->
    e = ENodeExceedsPage /\ separator_grows (k_pages db) (dom (k_pages db)) key kvs) (Delete fuel key db).
Proof.
  intros K Hc Hu O Hr Hf. apply disk_open; [done|].
  eapply (update_post_disk _ _ _ _ _ (S h) h (fun _ => eq (kv_del key kvs))); try done; try lia.
  intros db1 w X Hv T R.
  eapply ends_mono; [apply (treeDelete_any X fuel key [] w h kvs 0 T Hf); by rewrite Nat.add_0_r| |by rewrite Hv].
  cbn beta. intros d w' (Hm & -> & h' & Hh & T' & R'). by exists h', (kv_del key kvs).
Qed.
Lemma ApplyBatch_disk fuel ms db h kvs :
  kv_rep db h kvs -> k_closed db = false -> k_uncertain db = false -> on_disk db ->
  disk_room db (batch_room h (length ms)) -> (h + length ms < fuel)%nat ->
  disk_post (batch_room h (length ms)) db kvs (eq (apply_batch kvs ms)) (batch_err ms kvs) (ApplyBatch fuel ms db).
Proof.
  intros K Hc Hu O Hr Hf. apply disk_open, disk_unit; [done|].
  eapply (update_post_disk _ _ _ _ _ (batch_room h (length ms)) (h + length ms) (fun _ => eq (apply_batch kvs ms))); try done; try lia.
  intros db1 w X Hv T R.
  eapply ends_mono; [apply (batchLoop_ok X fuel ms false w h kvs 0 T Hf); by rewrite Nat.add_0_r| |done].
  cbn beta. intros r w' (h' & Hh & Hm & T' & R' & Hb). by exists h', (apply_batch kvs ms).
Qed.

(** An open store with contents [kvs], all of it in a file without faults. *)
Record durable (db : KV) (h : nat) (kvs : list kv) : Prop := {
  du_rep : kv_rep db h kvs;
  du_disk : on_disk db;
  du_calm : calm (pm_file (k_pm db));
  du_open : k_closed db = false;
  du_certain : k_uncertain db = false;
}.

(** ** A new store *)

Definition new_data : bytes := write_data (make metadataSize) (0 * pageSize) (meta_page meta0).
Definition new_file : file := mkFile new_data new_data [].
Definition new_pm (f : file) : pageManager := mkPM f 1 0 0 0 [] [] [] ∅ [].

Lemma len_new : len new_data = metadataSize.
Proof.
  unfold new_data. rewrite len_write by (done || apply len_meta_page). rewrite len_make. done.
Qed.
Lemma new_committed d f :
  len d = metadataSize -> block d 0 = meta_page meta0 -> (forall r, checkMetadataPage (block d 1) <> Ok r) ->
  committed d (new_pm f) ∅.
Proof.
  intros Hl Hs Ho. assert (E : commit_meta (new_pm f) = meta0) by reflexivity.
  split; cbn [generation committedPageCount freePageIDs retiredPageIDs freeListPageIDs rootPageID new_pm list_pages chain app].
  - done.
  - split; [done|]. apply Z.lt_le_incl, maxPage_bound.
  - rewrite Hl. done.
  - rewrite E. exact Hs.
  - intros v page g' Hck. by apply Ho in Hck.
  - by intros id b ?%lookup_empty_Some.
  - by intros q ?%not_elem_of_nil.
  - split; [constructor|constructor|done| |done]. intros j Hj. change (len (@nil Z)) with 0 in Hj. lia.
  - done.
  - by intros x ?%not_elem_of_nil.
  - constructor.
  - by left.
Qed.
Lemma new_slots : block new_data 0 = meta_page meta0 /\ forall r, checkMetadataPage (block new_data 1) <> Ok r.
Proof.
  unfold new_data. split; [apply block_write; [done|apply len_meta_page]|].
  rewrite block_write_other; [|lia..|rewrite len_meta_page; lia|rewrite len_make; done].
  assert (E : checkMetadataPage (block (make metadataSize) 1) = Err errInvalidPageData) by (vm_compute; reflexivity).
  intros r. rewrite E. discriminate.
Qed.

Lemma lock_calm f : calm f -> lockDatabaseFile f = (Ok tt, f).
Proof. intros Hc. unfold lockDatabaseFile, next_fault, bind. by rewrite Hc. Qed.
Lemma Sync_calm f : calm f -> Sync f = (Ok tt, mkFile (f_data f) (f_data f) []).
Proof. intros Hc. unfold Sync, checked, next_fault, bind. rewrite Hc. cbn. by rewrite Hc. Qed.

(** Opening an empty file first makes it a new store. *)
Definition create (size0 : Z) : FM Z :=
  if size0 =? 0 then
    _ <~ Truncate metadataSize ;; _ <~ writeRootMetadataSlot 0 meta0 ;; _ <~ Sync ;; StatSize
  else ret size0.
Lemma openPageManager_create f f' :
  calm f -> len (f_data f) <= maxInt64 -> create (len (f_data f)) f = (Ok (len (f_data f')), f') ->
  calm f' -> len (f_data f') <= maxInt64 -> len (f_data f') <> 0 -> openPageManager f = openPageManager f'.
Proof.
  intros Hc Hl Hcr Hc' Hl' Hn. unfold openPageManager. etransitivity; [exact (bind_ok lockDatabaseFile _ f _ _ (lock_calm f Hc))|].
  symmetry. etransitivity; [exact (bind_ok lockDatabaseFile _ f' _ _ (lock_calm f' Hc'))|].
  etransitivity; [exact (bind_ok StatSize _ f' _ _ (StatSize_calm f' Hc' Hl'))|].
  symmetry. etransitivity; [exact (bind_ok StatSize _ f _ _ (StatSize_calm f Hc Hl))|].
  etransitivity; [exact (bind_ok (create (len (f_data f))) _ f _ _ Hcr)|].
  rewrite (proj2 (Z.eqb_neq _ _) Hn). reflexivity.
Qed.
Lemma create_empty s page d :
  encodeMetadata meta0 = Ok page -> d = write_data (make metadataSize) (0 * pageSize) page -> len d = metadataSize ->
  create 0 (mkFile [] s []) = (Ok (len d), mkFile d d []).
Proof.
  intros He Hd Hl. unfold create. change (0 =? 0) with true. cbv iota.
  unfold bind at 1. unfold Truncate, checked, next_fault, get_data, set_data, bind. cbn [f_faults f_data f_synced ret].
  unfold writeRootMetadataSlot, bind, lift. rewrite He.
  unfold WriteAt, next_fault, get_data, set_data, bind. cbn [f_faults f_data f_synced].
  rewrite Sync_calm by done. cbn [f_data].
  change (sub [] 0 metadataSize ++ make (metadataSize - len [])) with (make metadataSize).
  rewrite <- Hd. rewrite StatSize_calm; [done|done|]. cbn [f_data]. by rewrite Hl.
Qed.
Lemma openPageManager_created s : openPageManager (mkFile [] s []) = openPageManager new_file.
Proof.
  apply openPageManager_create; [reflexivity|discriminate| |reflexivity|..].
  2-3: cbn [f_data new_file]; rewrite len_new; discriminate.
  apply (create_empty s (meta_page meta0) new_data); [apply encodeMetadata_layout|reflexivity|apply len_new].
Qed.

Lemma Open_new path s d :
  path <> [] -> len d = metadataSize -> committed d (new_pm (mkFile d d [])) ∅ ->
  openPageManager (mkFile [] s []) = openPageManager (mkFile d d []) ->
  exists db, Open path true (mkFile [] s []) = (Ok db, mkFile d d []) /\ durable db 0 [] /\
    nextPageID (k_pm db) = 1 /\ generation (k_pm db) = 0.
Proof.
  intros Hp Hl C Ho. set (f := mkFile d d []) in *.
  assert (T : tree ∅ 0 (rootPageID (new_pm f)) [] (dom (∅ : gmap Z bytes)))
    by (left; exact (conj eq_refl (conj eq_refl dom_empty_L))).
  assert (Hal : (len d - metadataSize) mod pageSize = 0) by (by rewrite Hl).
  assert (Hsz : len d <= maxInt64) by (by rewrite Hl).
  assert (Hset : settled ∅ (rootPageID (new_pm f)) = true) by (vm_compute; reflexivity).
  destruct (Open_opened d (new_pm f) ∅ 0 [] C T Hset Hsz path true (mkFile [] s []) f f Hp) as (db & Eo & R).
  - rewrite Ho. exact (openPageManager_exact d (new_pm f) ∅ C Hsz f eq_refl eq_refl Hal).
  - unfold bind. rewrite Sync_calm by reflexivity. reflexivity.
  - reflexivity.
  - reflexivity.
  - exists db. split; [exact Eo|].
    destruct (reopened_disk d (new_pm f) ∅ 0 [] path true _ db f C T Eo R eq_refl eq_refl Hal) as [K O].
    pose proof (ro_recovers _ _ _ _ _ R) as [Rc Rf Rn]. split.
    + split; [exact K|exact O| |apply R..]. rewrite Rf. reflexivity.
    + split; [|exact (sc_gen _ _ Rc)]. rewrite Rn, Hl. reflexivity.
Qed.
Lemma Open_create path s : path <> [] -> exists db, Open path true (mkFile [] s []) = (Ok db, new_file) /\
  durable db 0 [] /\ nextPageID (k_pm db) = 1 /\ generation (k_pm db) = 0.
Proof.
  intros Hp. destruct new_slots as [S0 S1]. apply Open_new; [exact Hp|exact len_new| |apply openPageManager_created].
  exact (new_committed new_data new_file len_new S0 S1).
Qed.

(** ** Updates *)

(** An update of a durable store that is atomic and whose file is accounted for. *)
Definition durable_post {A} (n : nat) (db : KV) (h hmax : nat) (kvs : list kv) (Q : A -> list kv -> Prop) (E : error -> Prop)
    (r : outcome error A * KV) : Prop :=
  match r with
  | (Ok a, db') => exists h' kvs', (h' <= hmax)%nat /\ durable db' h' kvs' /\ Q a kvs' /\ grown n db db'
  | (Err e, db') => (exists e0, e = EJoin [e0] /\ E e0) /\ durable db' h kvs /\ grown n db db'
  | (Panic, _) | (NoFuel, _) => False
  end.
Lemma durable_both {A} n db h hmax kvs (Q : A -> list kv -> Prop) P E r :
  durable db h kvs -> atomic db h hmax kvs Q r -> disk_post n db kvs P E r -> durable_post n db h hmax kvs Q E r.
Proof.
  intros [K O Hc Ho Hu]. unfold atomic, disk_post, durable_post. destruct r as [[a|e| |] db']; try done.
  - intros (h' & kvs' & Hh & K' & HQ & Hu' & Hc') (O' & C' & G). exists h', kvs'. split_and!; try done. split; try done; [by apply C'|by rewrite Hc'].
  - intros [K' Hc'] [_ H]. destruct (H Hc) as (He & O' & C' & Hu' & G). split; [done|]. split; [|done]. split; try done. by rewrite Hc'.
Qed.

Lemma Set_post fuel key value db h kvs :
  durable db h kvs -> disk_room db (3 * h + 4) -> (S h < fuel)%nat ->
  durable_post (3 * h + 4) db h (S h) kvs (fun _ kvs' => mutation_ok (mkMutation key value false) /\ kvs' = kv_set key value kvs)
    (fun _ => ~ mutation_ok (mkMutation key value false)) (Set_ fuel key value db).
Proof.
  intros D Hr Hf. pose proof D as [K O Hc Ho Hu].
  eapply durable_both; [exact D|by apply Set_ok; try done; eapply disk_room_alloc|by apply (Set_disk fuel key value db h)].
Qed.
Lemma Delete_post fuel key db h kvs :
  durable db h kvs -> disk_room db (S h) -> (h < fuel)%nat ->
  durable_post (S h) db h h kvs (fun deleted kvs' => mutation_ok (mkMutation key [] true) /\
    deleted = bool_decide (is_Some (kv_get key kvs)) /\ kvs' = kv_del key kvs)
    (fun e => mutation_ok (mkMutation key [] true) ->
       e = ENodeExceedsPage /\ separator_grows (k_pages db) (dom (k_pages db)) key kvs) (Delete fuel key db).
Proof.
  intros D Hr Hf. pose proof D as [K O Hc Ho Hu].
  eapply durable_both; [exact D|by apply Delete_ok; try done; eapply disk_room_alloc|by apply (Delete_disk fuel key db h)].
Qed.
Lemma ApplyBatch_post fuel ms db h kvs :
  durable db h kvs -> disk_room db (batch_room h (length ms)) -> (h + length ms < fuel)%nat ->
  durable_post (batch_room h (length ms)) db h (h + length ms) kvs (fun _ kvs' => Forall mutation_ok ms /\ kvs' = apply_batch kvs ms) (batch_err ms kvs)
    (ApplyBatch fuel ms db).
Proof.
  intros D Hr Hf. pose proof D as [K O Hc Ho Hu].
  eapply durable_both; [exact D|by apply ApplyBatch_ok; try done; eapply disk_room_alloc|by apply (ApplyBatch_disk fuel ms db h)].
Qed.

(** On a file whose calls do not fail, [KV.Set] of a legal entry returns
    without an error, and the store and its file then hold the contents with the
    key set. *)
Theorem Set_durable fuel key value db h kvs :
  durable db h kvs -> disk_room db (3 * h + 4) -> (S h < fuel)%nat -> mutation_ok (mkMutation key value false) ->
  exists db' h', Set_ fuel key value db = (Ok tt, db') /\ (h' <= S h)%nat /\ durable db' h' (kv_set key value kvs).
Proof.
  intros D Hr Hf Hm. pose proof (Set_post fuel key value db h kvs D Hr Hf) as P. unfold durable_post in P.
  destruct (Set_ fuel key value db) as [[[]|e| |] db']; try done.
  - destruct P as (h' & kvs' & Hh & D' & [_ ->] & _). by exists db', h'.
  - by destruct P as [(e0 & _ & Hn) _].
Qed.

(** On a file whose calls do not fail, [KV.ApplyBatch] of legal mutations
    installs them all in the store and its file; the only other outcome is that
    one of them deletes a key whose next key is longer and does not fit for it in
    a node, and then nothing changed. *)
Theorem ApplyBatch_durable fuel ms db h kvs :
  durable db h kvs -> disk_room db (batch_room h (length ms)) -> (h + length ms < fuel)%nat -> Forall mutation_ok ms ->
  (exists db' h', ApplyBatch fuel ms db = (Ok tt, db') /\ (h' <= h + length ms)%nat /\ durable db' h' (apply_batch kvs ms)) \/
  (exists db', ApplyBatch fuel ms db = (Err (EJoin [ENodeExceedsPage]), db') /\ stuck ms kvs /\ durable db' h kvs).
Proof.
  intros D Hr Hf Hm. pose proof (ApplyBatch_post fuel ms db h kvs D Hr Hf) as P. unfold durable_post in P.
  destruct (ApplyBatch fuel ms db) as [[[]|e| |] db']; try done.
  - left. destruct P as (h' & kvs' & Hh & D' & [_ ->] & _). by exists db', h'.
  - right. destruct P as [(e0 & -> & He) [D' _]]. destruct (He Hm) as [-> Hx]. by exists db'.
Qed.
