(* ===== verification/HistoryResults.v ===== *)
(** * Histories with crashes (src/internal/btree/kv.go, page_manager.go)

    A store created on an empty file, then updated, read, restarted and crashed,
    keeps the contents an abstract store of sorted entries would have: an update
    that returned is there, one that failed is not, one that was cut off by a
    crash happened completely or not at all. This holds for histories in which
    every tree that is opened again passes the balance tests of recovery and every
    crash leaves a whole number of pages and no torn metadata page with a valid
    checksum; [restart_exact] and [misaligned_refused] say what happens when the
    first two fail. *)

From S2P Require Import Prelude KvList Errors Page PageTree PageNodeSpec PageTreeSpec PageDeleteSpec File FreeList.
From S2P Require Import PageManager PageManagerSpec KV DiskSpec PublishSpec KVSpec RecoverySpec KVResults StorageResults.
From S2P Require Import DurableSpec CommitSpec WalkSpec ReopenSpec DurableResults.

(** ** Updates *)

Inductive change := Put (key value : bytes) | Remove (key : bytes) | Batch (ms : list Mutation).

Definition mutations (u : change) : list Mutation :=
  match u with
  | Put key value => [mkMutation key value false]
  | Remove key => [mkMutation key [] true]
  | Batch ms => ms
  end.
(** The method a client calls; only [Delete] has a result of its own. *)
Definition perform (fuel : nat) (u : change) : KM bool :=
  match u with
  | Put key value => _ <~ Set_ fuel key value ;; ret true
  | Remove key => Delete fuel key
  | Batch ms => _ <~ ApplyBatch fuel ms ;; ret true
  end.

Definition legal (u : change) : Prop := Forall mutation_ok (mutations u).
(** Why a legal update of a working store can fail: at some point it deletes a
    key whose next key is longer, and that does not fit in the key's place; a
    single deletion names the page. *)
Definition hindered (db : KV) (u : change) (kvs : list kv) : Prop :=
  stuck (mutations u) kvs /\
  match u with Remove key => separator_grows (k_pages db) (dom (k_pages db)) key kvs | _ => True end.
Definition effect (u : change) (kvs : list kv) : list kv := apply_batch kvs (mutations u).
Definition answer (u : change) (kvs : list kv) : bool :=
  match u with Remove key => bool_decide (is_Some (kv_get key kvs)) | _ => true end.

(** Enough fuel and page numbers for [u] on any tree of the pages of [db]. *)
Definition enough (fuel : nat) (u : change) (db : KV) : Prop :=
  (size (k_pages db) + length (mutations u) < fuel)%nat /\ disk_room db (batch_room fuel (length (mutations u))).

Lemma disk_room_mono db n n' : (n <= n')%nat -> disk_room db n' -> disk_room db n.
Proof. unfold disk_room. lia. Qed.
Lemma batch_room_mono h h' n : (h <= h')%nat -> (batch_room h n <= batch_room h' n)%nat.
Proof. unfold batch_room. nia. Qed.
Lemma kv_rep_height db h kvs : kv_rep db h kvs -> exists h', (h' <= size (k_pages db))%nat /\ kv_rep db h' kvs.
Proof.
  intros [[(Hr & Hk & HF)|(Hr & Hs & R)] I].
  - exists 0%nat. split; [lia|]. split; [by left|done].
  - exists h. split; [|split; [by right|done]]. apply rep_height in R; [|done]. rewrite size_dom in R. lia.
Qed.
Lemma durable_height db h kvs : durable db h kvs -> exists h', (h' <= size (k_pages db))%nat /\ durable db h' kvs.
Proof. intros [K O Hc Ho Hu]. destruct (kv_rep_height db h kvs K) as (h' & ? & ?). by exists h'. Qed.

Section Perform.
Context (fuel : nat) (u : change) (db : KV) (h : nat) (kvs : list kv).
Context (K : kv_rep db h kvs) (Hh : (h <= size (k_pages db))%nat) (Hc : k_closed db = false) (Hu : k_uncertain db = false).
Context (Hen : enough fuel u db).

Let hmax : nat := h + length (mutations u).

Lemma enough_fuel : (h + length (mutations u) < fuel)%nat.
Proof. destruct Hen. lia. Qed.
Lemma enough_room n : (n <= batch_room h (length (mutations u)))%nat -> disk_room db n.
Proof.
  intros Hn. destruct Hen as [Hf Hr]. eapply disk_room_mono; [|exact Hr].
  etrans; [exact Hn|]. apply batch_room_mono. lia.
Qed.
Lemma enough_alloc n : (n <= batch_room h (length (mutations u)))%nat -> Z.of_nat n <= pm_room (k_pm db).
Proof. intros Hn. eapply disk_room_alloc; [exact K|]. by apply enough_room. Qed.

Lemma perform_atomic :
  atomic db h hmax kvs (fun b kvs' => legal u /\ b = answer u kvs /\ kvs' = effect u kvs) (perform fuel u db).
Proof.
  pose proof enough_fuel as Hf. pose proof enough_alloc as Hr. unfold hmax. destruct u as [key value|key|ms]; cbn [perform mutations length] in *.
  - pose proof (Set_ok fuel key value db h kvs K Hc Hu ltac:(lia) (Hr (3 * h + 4)%nat ltac:(unfold batch_room; lia))) as P.
    unfold atomic, bind in *. destruct (Set_ fuel key value db) as [[[]|e| |] db']; try done.
    destruct P as (h' & kvs' & ? & ? & (? & ->) & ?). exists h', (kv_set key value kvs). split; [lia|]. split; [done|].
    split; [|done]. split; [by apply Forall_singleton|done].
  - pose proof (Delete_ok fuel key [] db h kvs K Hc Hu ltac:(lia) (Hr (S h) ltac:(unfold batch_room; lia))) as P.
    unfold atomic in *. destruct (Delete fuel key db) as [[b|e| |] db']; try done.
    destruct P as (h' & kvs' & ? & ? & (? & -> & ->) & ?). exists h', (kv_del key kvs). split; [lia|]. split; [done|].
    split; [|done]. split; [by apply Forall_singleton|done].
  - pose proof (ApplyBatch_ok fuel ms db h kvs K Hc Hu ltac:(lia) (Hr _ (le_n _))) as P.
    unfold atomic, bind in *. destruct (ApplyBatch fuel ms db) as [[[]|e| |] db']; try done.
    destruct P as (h' & kvs' & ? & ? & (? & ->) & ?). by exists h', (apply_batch kvs ms).
Qed.

Lemma perform_disk : on_disk db ->
  disk_post (batch_room h (length (mutations u))) db kvs (eq (effect u kvs))
    (fun e => ~ legal u \/ e = ENodeExceedsPage /\ hindered db u kvs) (perform fuel u db).
Proof.
  intros O. pose proof enough_fuel as Hf. pose proof enough_room as Hr. destruct u as [key value|key|ms]; cbn [perform mutations length] in *.
  - apply disk_unit. eapply disk_post_mono; [| |apply (Set_disk fuel key value db h kvs K Hc Hu O); [apply Hr|lia]]; [unfold batch_room; lia| |unfold batch_room; lia].
    intros e Hn. left. intros Hl. apply Hn. by apply Forall_inv in Hl.
  - eapply disk_post_mono; [| |apply (Delete_disk fuel key db h kvs K Hc Hu O); [apply Hr|lia]]; [unfold batch_room; lia| |unfold batch_room; lia].
    intros e He. destruct (decide (mutation_ok (mkMutation key [] true))) as [Hm|Hm]; [right|left; by intros Hl%Forall_inv].
    destruct (He Hm) as [-> Hs]. split; [done|]. split; [|done]. exists [], (mkMutation key [] true), [].
    split; [done|]. split; [done|]. by eapply separator_grows_outgrown.
  - apply disk_unit. eapply disk_post_mono; [| |apply (ApplyBatch_disk fuel ms db h kvs K Hc Hu O); [apply Hr; lia|lia]]; [lia|].
    intros e He. destruct (decide (Forall mutation_ok ms)) as [Hm|Hm]; [right|by left].
    destruct (He Hm) as [-> Hs]. by split.
Qed.
End Perform.

(** ** Crashes *)

(** The store about to run with the given outcomes of its file calls. *)
Definition with_faults (fs : list fault) (db : KV) : KV :=
  with_file (mkFile (f_data (pm_file (k_pm db))) (f_synced (pm_file (k_pm db))) fs) db.
Lemma faulty_rep fs db h kvs : kv_rep db h kvs -> kv_rep (with_faults fs db) h kvs.
Proof. intros [T []]. by split. Qed.
Lemma faulty_disk fs db : on_disk db -> on_disk (with_faults fs db).
Proof. intros O. exact (on_disk_file (mkFile _ _ fs) _ O eq_refl eq_refl). Qed.
Lemma faulty_flags fs db : k_closed db = false -> k_uncertain db = false ->
  k_closed (with_faults fs db) = false /\ k_uncertain (with_faults fs db) = false.
Proof. done. Qed.
Lemma faulty_enough fuel u fs db : enough fuel u db -> enough fuel u (with_faults fs db).
Proof. done. Qed.

(** The metadata slot the next commit overwrites, and what is in it now. *)
Definition next_slot (db : KV) : Z := 1 - commit_slot (k_pm db).
Definition overwritten (db : KV) : bytes := block (f_data (pm_file (k_pm db))) (next_slot db).

Lemma perform_crash_post fuel u db h kvs d :
  kv_rep db h kvs -> on_disk db -> k_closed db = false -> k_uncertain db = false -> enough fuel u db ->
  crash_image (pm_file (k_pm (perform fuel u db).2)) d ->
  match (perform fuel u db).1 with
  | Ok _ => holds d (effect u kvs)
  | Err _ => holds d kvs \/ holds d (effect u kvs) \/ collision (overwritten db) (next_slot db) d
  | Panic | NoFuel => False
  end.
Proof.
  intros K0 O Hc Hu Hen. destruct (kv_rep_height db h kvs K0) as (h' & Hh & K). clear K0.
  pose proof (perform_atomic fuel u db h' kvs K Hh Hc Hu Hen) as PA.
  pose proof (perform_disk fuel u db h' kvs K Hh Hc Hu Hen O) as PD. unfold atomic, disk_post in *.
  destruct (perform fuel u db) as [[b|e| |] db']; try done; cbn [fst snd]; intros HC.
  - destruct PD as [O' _]. destruct PA as (h2 & kvs' & _ & [T' _] & (_ & _ & ->) & _).
    exists (k_pm db'), (k_pages db'), h2. split; [by apply (disk_crash (pm_file (k_pm db')))|]. by rewrite (od_root _ O').
  - destruct PD as [PD _]. destruct (PD d HC) as [H|[(kvs' & <- & H)|H]]; [by left|by right; left|by right; right].
Qed.

(** C4: whatever the file calls of an update do, and whichever of the written
    and synchronised blocks a crash leaves, the file holds a complete generation
    with the contents before or after the update, and the contents after it once
    the update has returned; the only exception is a torn metadata page that
    passes its own checksum. *)
Theorem perform_crash fuel u db h kvs d :
  kv_rep db h kvs -> on_disk db -> k_closed db = false -> k_uncertain db = false -> enough fuel u db ->
  crash_image (pm_file (k_pm (perform fuel u db).2)) d ->
  match (perform fuel u db).1 with
  | Ok _ => holds d (effect u kvs)
  | Err _ => holds d kvs \/ holds d (effect u kvs) \/ collision (overwritten db) (next_slot db) d
  | Panic | NoFuel => False
  end.
Proof. apply perform_crash_post. Qed.

(** ** Opening what a crash left *)

(** The committed tree passes the balance tests of recovery. *)
Definition balanced (d : bytes) : Prop := forall pm pages h kvs,
  committed d pm pages -> tree pages h (rootPageID pm) kvs (dom pages) -> settled pages (rootPageID pm) = true.
(** A whole number of pages, at most as many bytes as a file can have. *)
Definition whole (d : bytes) : Prop := (len d - metadataSize) mod pageSize = 0 /\ len d <= maxInt64.

Lemma Open_settled path d pm pages h kvs :
  path <> [] -> committed d pm pages -> tree pages h (rootPageID pm) kvs (dom pages) -> settled pages (rootPageID pm) = true ->
  whole d -> exists db, Open path false (mkFile d d []) = (Ok db, mkFile d d []) /\ durable db h kvs /\
    generation (k_pm db) = generation pm.
Proof.
  intros Hp C T Hs [Hal Hsz].
  destruct (Open_exact d pm pages h kvs C T Hs Hsz path (mkFile d d []) eq_refl eq_refl Hp Hal) as (db & Eo & R).
  exists db. split; [exact Eo|].
  destruct (reopened_disk d pm pages h kvs path false _ db _ C T Eo R eq_refl eq_refl Hal) as [K O].
  split; [|apply (sc_gen _ _ (rc_commit _ _ _ _ (ro_recovers _ _ _ _ _ R)))].
  split; [exact K|exact O| |apply R..]. rewrite (rc_file _ _ _ _ (ro_recovers _ _ _ _ _ R)). reflexivity.
Qed.
Lemma Open_holds path d kvs :
  path <> [] -> holds d kvs -> balanced d -> whole d ->
  exists db h, Open path false (mkFile d d []) = (Ok db, mkFile d d []) /\ durable db h kvs.
Proof.
  intros Hp (pm & pages & h & C & T) Hb Hw.
  destruct (Open_settled path d pm pages h kvs Hp C T (Hb _ _ _ _ C T) Hw) as (db & E & D & _). by exists db, h.
Qed.

(** C5: opening a file that holds a complete generation whose tree passes the
    balance tests gives a store with exactly its contents, and leaves the file as
    it is. *)
Theorem Open_committed path d kvs :
  path <> [] -> holds d kvs -> balanced d -> whole d ->
  exists db h, Open path false (mkFile d d []) = (Ok db, mkFile d d []) /\ durable db h kvs.
Proof. apply Open_holds. Qed.

(** Closing and opening again. *)
Definition restart (path : bytes) (db : KV) : outcome error KV * file := Open path false (pm_file (k_pm (Close db).2)).

(** The tree passes the balance tests. *)
Definition restartable (db : KV) : Prop := settled (k_pages db) (k_root db) = true.

Lemma durable_file db h kvs : durable db h kvs -> exists d, pm_file (k_pm db) = mkFile d d [].
Proof.
  intros [K O Hc _ _]. exists (f_data (pm_file (k_pm db))). pose proof (od_synced _ O) as Hs. unfold calm in Hc.
  destruct (pm_file (k_pm db)) as [d s fs]. cbn in *. by subst.
Qed.
(** The size of the file is an [int64]. *)
Definition sized (db : KV) : Prop := len (f_data (pm_file (k_pm db))) <= maxInt64.
Lemma sized_next db : on_disk db -> nextPageID (k_pm db) <= maxPage -> sized db.
Proof.
  intros O Hn. unfold sized. rewrite (od_len _ O). unfold maxPage in Hn.
  pose proof (Z.mul_div_le (maxInt64 - metadataSize) pageSize ltac:(done)) as Hq. revert Hq Hn.
  generalize ((maxInt64 - metadataSize) / pageSize). unfold pageSize. lia.
Qed.
Lemma grown_sized n db db' : disk_room db n -> grown n db db' -> on_disk db' -> sized db'.
Proof.
  intros [Hr _] [_ Hg] O. apply sized_next; [done|]. unfold chainPages in Hg. change freeListPageCapacity with 508 in Hg.
  pose proof (Z.mul_div_le (nextPageID (k_pm db') + 508 - 1) 508 ltac:(done)).
  assert (4 <= maxPage) by (by vm_compute). lia.
Qed.
Lemma durable_whole db h kvs : durable db h kvs -> sized db -> whole (f_data (pm_file (k_pm db))).
Proof.
  intros [K O _ _ _] Hs. split; [|exact Hs]. rewrite (od_len _ O).
  replace (metadataSize + _ - metadataSize) with ((nextPageID (k_pm db) - 1) * pageSize) by lia. by apply Z.mod_mul.
Qed.
Lemma Open_file path f db f' : Open path false f = (Ok db, f') -> pm_file (k_pm db) = f'.
Proof.
  unfold Open, bind, ret. destruct (len path =? 0); [discriminate|]. destruct (openPageManager f) as [[pm|e| |] f1]; try discriminate.
  destruct (recoverCommittedPages _) as [[ps|e| |] pm2]; try discriminate. by intros [= <- <-].
Qed.
Lemma Close_file db h kvs : durable db h kvs -> pm_file (k_pm (Close db).2) = pm_file (k_pm db).
Proof.
  intros D. destruct (durable_file _ _ _ D) as [d E]. unfold Close. rewrite (du_open _ _ _ D).
  unfold on_file, checked, next_fault, bind. rewrite E. reflexivity.
Qed.
Lemma restart_ok path db h kvs :
  durable db h kvs -> sized db -> path <> [] -> restartable db ->
  exists db', restart path db = (Ok db', pm_file (k_pm db)) /\ durable db' h kvs /\ generation (k_pm db') = generation (k_pm db).
Proof.
  intros D Hz Hp Hs. unfold restart, restartable in *. rewrite (Close_file _ _ _ D). pose proof (durable_whole _ _ _ D Hz) as Hw.
  destruct (durable_file _ _ _ D) as [d E]. destruct D as [[T I] O Hc Ho Hu]. pose proof (od_committed _ O) as C.
  rewrite <- (od_root _ O) in T, Hs. rewrite E in *.
  apply (Open_settled path d (k_pm db) (k_pages db) h kvs Hp C T Hs Hw).
Qed.
(** What closing and opening again gives. *)
Definition restarted (path : bytes) (db : KV) (h : nat) (kvs : list kv) : Prop :=
  match restart path db with
  | (Ok db', f) =>
      (restartable db /\ generation (k_pm db') = generation (k_pm db) /\ durable db' h kvs /\ f = pm_file (k_pm db)) \/
      (~ restartable db /\ generation (k_pm db') < generation (k_pm db))
  | (Err _, _) => ~ restartable db
  | (Panic, _) | (NoFuel, _) => False
  end.
Lemma restart_cases path db h kvs : durable db h kvs -> sized db -> path <> [] -> restarted path db h kvs.
Proof.
  intros D Hz Hp. unfold restarted. destruct (settled (k_pages db) (k_root db)) eqn:Hs.
  - destruct (restart_ok path db h kvs D Hz Hp Hs) as (db' & -> & D' & Hg). by left.
  - assert (Hr : ~ restartable db) by (unfold restartable; by rewrite Hs).
    pose proof (durable_whole _ _ _ D Hz) as [Hal _]. unfold restart. rewrite (Close_file _ _ _ D).
    pose proof (Open_sound path false (pm_file (k_pm db))) as So.
    destruct (Open path false (pm_file (k_pm db))) as [[db'|e| |] f] eqn:E; try done.
    destruct D as [[T _] O Hc _ _].
    rewrite <- (od_root _ O) in T, Hs. right. split; [done|].
    exact (Open_unsettled _ _ _ h kvs (od_committed _ O) T Hz path _ db' f Hs eq_refl Hc Hal E).
Qed.

(** C38: closing a working store and opening it again gives exactly its contents,
    at its generation, when its tree passes the balance tests of recovery, and in
    no other case: a store whose tree fails them comes back at an older
    generation or not at all, however many of its updates had returned. *)
Theorem restart_exact path db h kvs : durable db h kvs -> sized db -> path <> [] -> restarted path db h kvs.
Proof. apply restart_cases. Qed.

(** ** Files of another size *)

Lemma Open_misaligned path d :
  path <> [] -> 0 < len d <= maxInt64 -> (len d - metadataSize) mod pageSize <> 0 ->
  Open path false (mkFile d d []) = (Err (EFileAlignment (len d)), mkFile d d []).
Proof.
  intros Hp [Hl Hsz] Hal. unfold Open. assert (len path <> 0) by (intros ?%len_0; done). zdecide.
  unfold bind at 1. unfold openPageManager, lockDatabaseFile. unfold bind at 1. unfold bind at 1, next_fault. cbn [f_faults ret].
  unfold bind at 1. rewrite StatSize_calm by done. cbn [f_data].
  unfold bind at 1. zdecide. cbn [ret]. rewrite (proj2 (Z.eqb_neq _ _) Hal), orb_true_r. done.
Qed.

(** C39: whatever the file calls of an update do, the file a crash leaves holds a
    complete generation, as in [perform_crash]; but when its size is not a whole number of
    pages, as after a page write that was cut off, opening refuses it before
    looking at any generation. *)
Theorem misaligned_refused path fuel u db h kvs d :
  kv_rep db h kvs -> on_disk db -> k_closed db = false -> k_uncertain db = false -> enough fuel u db ->
  crash_image (pm_file (k_pm (perform fuel u db).2)) d -> path <> [] -> len d <= maxInt64 ->
  (len d - metadataSize) mod pageSize <> 0 ->
  (holds d kvs \/ holds d (effect u kvs) \/ collision (overwritten db) (next_slot db) d) /\
  Open path false (mkFile d d []) = (Err (EFileAlignment (len d)), mkFile d d []).
Proof.
  intros K O Hc Hu Hen HC Hp Hsz Hal. pose proof (perform_crash_post fuel u db h kvs d K O Hc Hu Hen HC) as P. split.
  - destruct (perform fuel u db).1; [by right; left|done..].
  - apply Open_misaligned; [done| |done]. split; [|done]. pose proof (len_nonneg d).
    assert (len d <> 0) by (intros H0; by rewrite H0 in Hal). lia.
Qed.

(** ** Histories *)

(** What a client observes. *)
Inductive event :=
  | Done (u : change) (result : bool)
  | Failed (u : change)
  | Lookup (key : bytes) (value : option bytes)
  | Restarted
  | Crashed (u : change) (returned : bool).

(** The abstract store: sorted entries. *)
Inductive spec_step : list kv -> event -> list kv -> Prop :=
  | spec_done u kvs : legal u -> spec_step kvs (Done u (answer u kvs)) (effect u kvs)
  | spec_failed u kvs : ~ legal u \/ stuck (mutations u) kvs -> spec_step kvs (Failed u) kvs
  | spec_lookup key kvs : spec_step kvs (Lookup key (kv_get key kvs)) kvs
  | spec_restarted kvs : spec_step kvs Restarted kvs
  | spec_undone u kvs : spec_step kvs (Crashed u false) kvs
  | spec_kept u returned kvs : spec_step kvs (Crashed u returned) (effect u kvs).

Section History.
Context (path : bytes).

(** The program. A crash ends an update under any outcomes of its file calls;
    what it leaves is opened again. *)
Inductive kv_step : KV -> event -> KV -> Prop :=
  | step_done fuel u result db db' :
      enough fuel u db -> perform fuel u db = (Ok result, db') -> kv_step db (Done u result) db'
  | step_failed fuel u e db db' :
      enough fuel u db -> perform fuel u db = (Err e, db') -> kv_step db (Failed u) db'
  | step_lookup fuel key value db db' :
      (size (k_pages db) < fuel)%nat -> key <> [] -> Get fuel key db = (Ok value, db') -> kv_step db (Lookup key value) db'
  | step_restarted db db' f : restartable db -> restart path db = (Ok db', f) -> kv_step db Restarted db'
  | step_crashed fuel u fs d db db' f :
      enough fuel u db -> crash_image (pm_file (k_pm (perform fuel u (with_faults fs db)).2)) d ->
      ~ collision (overwritten db) (next_slot db) d -> balanced d -> whole d -> Open path false (mkFile d d []) = (Ok db', f) ->
      kv_step db (Crashed u (is_ok (perform fuel u (with_faults fs db)).1)) db'.

Lemma perform_durable fuel u db h kvs :
  durable db h kvs -> enough fuel u db ->
  match perform fuel u db with
  | (Ok b, db') => legal u /\ b = answer u kvs /\ sized db' /\ exists h', durable db' h' (effect u kvs)
  | (Err e, db') => sized db' /\ (~ legal u \/ e = EJoin [ENodeExceedsPage] /\ hindered db u kvs) /\ exists h', durable db' h' kvs
  | (Panic, _) | (NoFuel, _) => False
  end.
Proof.
  intros D0 Hen. destruct (durable_height _ _ _ D0) as (h' & Hh & D). pose proof D as [K O Hc Ho Hu].
  pose proof (durable_both _ db h' _ kvs _ _ _ _ D (perform_atomic fuel u db h' kvs K Hh Ho Hu Hen)
    (perform_disk fuel u db h' kvs K Hh Ho Hu Hen O)) as P.
  assert (Hr : disk_room db (batch_room h' (length (mutations u)))) by (apply (enough_room fuel u db h'); done || lia).
  unfold durable_post in P. destruct (perform fuel u db) as [[b|e| |] db']; try done.
  - destruct P as (h2 & kvs' & _ & D' & (Hl & -> & ->) & G). split; [done|]. split; [done|].
    split; [by eapply grown_sized, du_disk|by exists h2].
  - destruct P as [(e0 & -> & He) [D' G]]. split; [by eapply grown_sized, du_disk|]. split; [|by exists h']. destruct He as [He|[-> He]]; [by left|by right].
Qed.
Lemma perform_crashed fuel u fs db h kvs d :
  durable db h kvs -> enough fuel u db -> crash_image (pm_file (k_pm (perform fuel u (with_faults fs db)).2)) d ->
  ~ collision (overwritten db) (next_slot db) d ->
  exists kvs', spec_step kvs (Crashed u (is_ok (perform fuel u (with_faults fs db)).1)) kvs' /\ holds d kvs'.
Proof.
  intros [K O Hc Ho Hu] Hen HC Hn.
  pose proof (perform_crash_post fuel u (with_faults fs db) h kvs d (faulty_rep fs _ _ _ K) (faulty_disk fs _ O)
    Ho Hu (faulty_enough _ _ fs _ Hen) HC) as P.
  destruct (perform fuel u (with_faults fs db)).1 as [b|e| |]; try done.
  - exists (effect u kvs). split; [apply spec_kept|done].
  - destruct P as [P|[P|P]]; [exists kvs; split; [apply spec_undone|done]|exists (effect u kvs); split; [apply spec_kept|done]|].
    by destruct Hn.
Qed.

Lemma lookup_durable fuel key db h kvs :
  durable db h kvs -> (size (k_pages db) < fuel)%nat -> key <> [] -> Get fuel key db = (Ok (kv_get key kvs), db).
Proof.
  intros D0 Hf Hk. destruct (durable_height _ _ _ D0) as (h' & Hh & D).
  apply (Get_ok fuel key db h' kvs); [apply D|apply D|lia|done].
Qed.

Lemma step_refines db e db' h kvs :
  path <> [] -> durable db h kvs -> sized db -> kv_step db e db' ->
  exists kvs' h', spec_step kvs e kvs' /\ durable db' h' kvs' /\ sized db'.
Proof.
  intros Hp D Hz S. destruct S as [fuel u b db db' Hen E|fuel u e db db' Hen E|fuel key v db db' Hf Hk E|db db' f Hr E|fuel u fs d db db' f Hen HC Hn Hb Hw E].
  - pose proof (perform_durable fuel u db h kvs D Hen) as P. rewrite E in P. destruct P as (Hl & -> & Z' & h' & D').
    exists (effect u kvs), h'. split; [by apply spec_done|done].
  - pose proof (perform_durable fuel u db h kvs D Hen) as P. rewrite E in P. destruct P as (Z' & He & h' & D').
    exists kvs, h'. split; [|done]. apply spec_failed. destruct He as [He|[_ [He _]]]; [by left|by right].
  - rewrite (lookup_durable _ _ _ _ _ D Hf Hk) in E. injection E as <- <-. exists kvs, h. split; [apply spec_lookup|done].
  - destruct (restart_ok path db h kvs D Hz Hp Hr) as (db2 & E' & D' & _). rewrite E' in E. injection E as <- <-.
    exists kvs, h. split; [apply spec_restarted|]. split; [done|]. unfold sized, restart in *. by rewrite (Open_file _ _ _ _ E').
  - destruct (perform_crashed fuel u fs db h kvs d D Hen HC Hn) as (kvs' & HS & H).
    destruct (Open_holds path d kvs' Hp H Hb Hw) as (db2 & h' & E' & D'). rewrite E' in E. injection E as <- <-.
    exists kvs', h'. split; [done|]. split; [done|]. unfold sized. rewrite (Open_file _ _ _ _ E'). apply Hw.
Qed.

Inductive kv_run : KV -> list event -> KV -> Prop :=
  | run_nil db : kv_run db [] db
  | run_cons db e db1 es db2 : kv_step db e db1 -> kv_run db1 es db2 -> kv_run db (e :: es) db2.
End History.

Inductive spec_run : list kv -> list event -> list kv -> Prop :=
  | spec_nil kvs : spec_run kvs [] kvs
  | spec_cons kvs e kvs1 es kvs2 : spec_step kvs e kvs1 -> spec_run kvs1 es kvs2 -> spec_run kvs (e :: es) kvs2.

Lemma run_refines path db es db' : path <> [] -> kv_run path db es db' -> forall h kvs, durable db h kvs -> sized db ->
  exists kvs' h', spec_run kvs es kvs' /\ durable db' h' kvs' /\ sized db'.
Proof.
  intros Hp R. induction R as [db|db e db1 es db2 S R IH]; intros h kvs D Hz.
  - exists kvs, h. split; [constructor|done].
  - destruct (step_refines path db e db1 h kvs Hp D Hz S) as (kvs1 & h1 & S1 & D1 & Z1).
    destruct (IH h1 kvs1 D1 Z1) as (kvs2 & h2 & S2 & D2). exists kvs2, h2. split; [by eapply spec_cons|done].
Qed.
Lemma history_reaches path s db0 f es db :
  path <> [] -> Open path true (mkFile [] s []) = (Ok db0, f) -> kv_run path db0 es db ->
  exists kvs h, spec_run [] es kvs /\ durable db h kvs /\ sized db.
Proof.
  intros Hp E R. destruct (Open_create path s Hp) as (db1 & E1 & D & Hn & _). rewrite E1 in E. injection E as <- <-.
  apply (run_refines path db1 es db Hp R 0%nat [] D). apply sized_next; [apply D|]. rewrite Hn. by vm_compute.
Qed.

(** C3: a store created on an empty file and then updated, read, restarted and
    crashed refines an abstract store of sorted entries: reads return its
    contents, an update that returned is kept, one that failed changed nothing,
    one that was cut off by a crash happened completely or not at all; an update
    fails only when it is illegal or deletes a key whose next key is longer. The
    histories are those in which every restart finds a tree that passes the
    balance tests of recovery ([restartable]) and every crash leaves a committed
    tree that passes them ([balanced]), a whole number of pages ([whole]) and no
    torn metadata page whose own checksum holds ([collision]). Outside them it is
    not true of the code: see [restart_exact] and [misaligned_refused]. *)
Theorem history_refines path s db0 f es db :
  path <> [] -> Open path true (mkFile [] s []) = (Ok db0, f) -> kv_run path db0 es db ->
  exists kvs h, spec_run [] es kvs /\ durable db h kvs.
Proof.
  intros Hp E R. destruct (history_reaches path s db0 f es db Hp E R) as (kvs & h & S & D & _). by exists kvs, h.
Qed.

(** C6: in every state that a history of [history_refines] reaches, while page and generation
    numbers last ([enough]): a legal update returns its answer and the changed
    contents are in the store and its file; or it is a deletion, alone or in a
    batch, of a key whose next key is longer and does not fit in its place, it
    fails with that error, and the old contents are in the store and its file. A
    lookup returns what the abstract store holds. Closing and opening again gives
    the same contents exactly when the tree passes the balance tests of recovery,
    and otherwise an older generation or an error. *)
Theorem history_continues path s db0 f es db :
  path <> [] -> Open path true (mkFile [] s []) = (Ok db0, f) -> kv_run path db0 es db ->
  exists kvs h, spec_run [] es kvs /\ restarted path db h kvs /\
    (forall fuel u, enough fuel u db -> legal u -> exists db' h',
       perform fuel u db = (Ok (answer u kvs), db') /\ durable db' h' (effect u kvs) \/
       perform fuel u db = (Err (EJoin [ENodeExceedsPage]), db') /\ durable db' h' kvs /\ hindered db u kvs) /\
    (forall fuel key, (size (k_pages db) < fuel)%nat -> key <> [] -> Get fuel key db = (Ok (kv_get key kvs), db)).
Proof.
  intros Hp E R. destruct (history_reaches path s db0 f es db Hp E R) as (kvs & h & S & D & Hz). exists kvs, h.
  split; [done|]. split; [by apply restart_cases|]. split.
  - intros fuel u Hen Hl. pose proof (perform_durable fuel u db h kvs D Hen) as P.
    destruct (perform fuel u db) as [[b|e| |] db']; try done.
    + destruct P as (_ & -> & _ & h' & D'). exists db', h'. by left.
    + destruct P as (_ & [Hn|[-> Hr]] & h' & D'); [done|]. exists db', h'. by right.
  - intros fuel key Hf Hk. by apply (lookup_durable fuel key db h kvs D).
Qed.

(** ** Witnesses *)

Definition path1 : bytes := [Byte.x2f].
(** A new store, the store after setting one key, and that store reopened. *)
Definition default_db (r : outcome error KV) : KV := match r with Ok db => db | _ => db0 end.
Definition fresh : KV := default_db (Open path1 true (mkFile [] [] [])).1.
Definition one : change := Put k1 v1.
Definition stored : KV := (perform 10 one fresh).2.
Definition again : KV := default_db (restart path1 stored).1.

Lemma fresh_open : Open path1 true (mkFile [] [] []) = (Ok fresh, new_file) /\ durable fresh 0 [].
Proof. destruct (Open_create path1 [] ltac:(done)) as (db & E & D & _). unfold fresh. rewrite E. exact (conj eq_refl D). Qed.
Lemma fresh_facts : nextPageID (k_pm fresh) = 1 /\ generation (k_pm fresh) = 0 /\ size (k_pages fresh) = 0%nat /\
  pm_file (k_pm fresh) = new_file.
Proof.
  assert (E : (nextPageID (k_pm fresh), (generation (k_pm fresh), (size (k_pages fresh), pm_file (k_pm fresh)))) =
    (1, (0, (0%nat, new_file)))) by (vm_compute; reflexivity).
  apply pair_eq in E as [E1 [E2 [E3 E4]%pair_eq]%pair_eq]. exact (conj E1 (conj E2 (conj E3 E4))).
Qed.
Lemma fresh_file : pm_file (k_pm fresh) = new_file.
Proof. apply fresh_facts. Qed.
Lemma fresh_room : enough 10 one fresh.
Proof.
  destruct fresh_facts as (E1 & E2 & E3 & _). unfold enough, disk_room. rewrite E1, E2, E3. clear E1 E2 E3.
  split; [cbn; lia|]. by vm_compute.
Qed.

(** Updates without deletions are never hindered. *)
Lemma puts_not_stuck ms kvs : Forall (fun m => mu_delete m = false) ms -> ~ stuck ms kvs.
Proof. intros H (ms1 & m & ms2 & -> & Hd & _). apply Forall_app in H as [_ [H _]%Forall_cons]. congruence. Qed.
Lemma puts_durable fuel u db h kvs :
  durable db h kvs -> enough fuel u db -> legal u -> Forall (fun m => mu_delete m = false) (mutations u) ->
  exists db' h', perform fuel u db = (Ok (answer u kvs), db') /\ durable db' h' (effect u kvs) /\ sized db'.
Proof.
  intros D Hen Hl Hp. pose proof (perform_durable fuel u db h kvs D Hen) as P.
  destruct (perform fuel u db) as [[b|e| |] db']; [|exfalso|done..].
  - destruct P as (_ & -> & Hz & h' & D'). by exists db', h'.
  - destruct P as (_ & [H|[_ [H _]]] & _); [done|]. by apply (puts_not_stuck _ _ Hp) in H.
Qed.

Lemma one_legal : legal one.
Proof. apply Forall_singleton. unfold mutation_ok. by vm_compute. Qed.
Lemma stored_both : perform 10 one fresh = (Ok true, stored) /\ exists h, durable stored h [(k1, v1)] /\ sized stored.
Proof.
  destruct (puts_durable 10 one fresh 0 [] (proj2 fresh_open) fresh_room one_legal ltac:(by apply Forall_singleton)) as (db' & h & E & D).
  unfold stored. rewrite E. split; [reflexivity|]. by exists h.
Qed.
Lemma stored_ok : perform 10 one fresh = (Ok true, stored).
Proof. apply stored_both. Qed.
Lemma stored_durable : exists h, durable stored h [(k1, v1)] /\ sized stored.
Proof. apply stored_both. Qed.
Lemma stored_facts : size (k_pages stored) = 1%nat /\ settled (k_pages stored) (k_root stored) = true /\
  nextPageID (k_pm stored) = 2.
Proof.
  assert (E : (size (k_pages stored), (settled (k_pages stored) (k_root stored), nextPageID (k_pm stored))) =
    (1%nat, (true, 2))) by (vm_compute; reflexivity).
  apply pair_eq in E as [E1 [E2 E3]%pair_eq]. exact (conj E1 (conj E2 E3)).
Qed.
Lemma stored_size : size (k_pages stored) = 1%nat.
Proof. apply stored_facts. Qed.
Lemma stored_restartable : restartable stored.
Proof. apply stored_facts. Qed.
Lemma stored_again : exists f, restart path1 stored = (Ok again, f).
Proof.
  destruct stored_durable as (h & D & Hz). destruct (restart_ok path1 stored h _ D Hz ltac:(done) stored_restartable) as (db' & E & _).
  exists (pm_file (k_pm stored)). unfold again. rewrite E. reflexivity.
Qed.

(** A new file holds the empty store, and no tree. *)
Lemma new_holds : holds new_data [].
Proof.
  destruct new_slots as [S0 S1]. exists (new_pm new_file), ∅, 0%nat. split; [exact (new_committed _ _ len_new S0 S1)|].
  left. split; [done|]. split; [done|]. by rewrite dom_empty_L.
Qed.
Lemma new_whole : whole new_data.
Proof. unfold whole. rewrite len_new. by vm_compute. Qed.
Lemma new_balanced : balanced new_data.
Proof.
  intros pm pages h kvs C T. destruct new_slots as [S0 S1].
  pose proof (new_committed new_data new_file len_new S0 S1) as C0. pose proof (proj2 new_whole) as Hsz.
  pose proof (readRootMetadata_committed new_data pm pages new_file C eq_refl eq_refl Hsz) as R.
  rewrite (readRootMetadata_committed new_data (new_pm new_file) ∅ new_file C0 eq_refl eq_refl Hsz) in R.
  assert (Hr : rootPageID pm = 0) by exact (eq_sym (f_equal (fun r => match r.1 with Ok m => m_rootPageID m | _ => 0 end) R)).
  destruct T as [(_ & _ & HF)|(Hn & _)]; [|exfalso; exact (Hn Hr)].
  apply dom_empty_inv_L in HF. rewrite HF, Hr. clear. vm_compute. reflexivity.
Qed.
Lemma new_untouched s : ~ collision (block new_data s) s new_data.
Proof. intros (m & j & _ & _ & H & _). by apply H. Qed.

(** The first file call of an update fails and then the machine does. *)
Lemma fresh_crash :
  crash_image (pm_file (k_pm (perform 10 one (with_faults [Fault 0] fresh)).2)) new_data /\
  is_ok (perform 10 one (with_faults [Fault 0] fresh)).1 = false.
Proof.
  assert (E : (pm_file (k_pm (perform 10 one (with_faults [Fault 0] fresh)).2),
    is_ok (perform 10 one (with_faults [Fault 0] fresh)).1) = (new_file, false)) by (vm_compute; reflexivity).
  apply pair_eq in E as [-> ->]. exact (conj (crash_now new_file) eq_refl).
Qed.

Definition history1 : list event := [Crashed one false; Done one true; Lookup k1 (Some v1); Restarted].
Lemma new_open : Open path1 false (mkFile new_data new_data []) = (Ok fresh, new_file).
Proof. vm_compute. reflexivity. Qed.
Lemma history1_runs : kv_run path1 fresh history1 again.
Proof.
  destruct stored_durable as (h & D & _). destruct stored_again as [f Ea]. destruct fresh_crash as [HC Hb].
  eapply (run_cons _ _ _ fresh); [|eapply (run_cons _ _ _ stored); [|eapply (run_cons _ _ _ stored); [|eapply (run_cons _ _ _ again); [|constructor]]]].
  - rewrite <- Hb. eapply (step_crashed path1 10 one [Fault 0] new_data); [exact fresh_room|exact HC| |exact new_balanced|exact new_whole|exact new_open].
    unfold overwritten. rewrite fresh_file. apply new_untouched.
  - eapply step_done; [exact fresh_room|exact stored_ok].
  - apply (step_lookup path1 2); [rewrite stored_size; apply le_n|discriminate|].
    exact (lookup_durable 2 k1 stored h _ D ltac:(rewrite stored_size; apply le_n) ltac:(discriminate)).
  - eapply step_restarted; [exact stored_restartable|exact Ea].
Qed.

#[local] Opaque perform fresh stored again.
Lemma perform_crash_witness : holds (f_data (pm_file (k_pm stored))) [(k1, v1)].
Proof.
  pose proof (perform_crash 10 one fresh 0 [] (f_data (pm_file (k_pm (perform 10 one fresh).2)))
    (du_rep _ _ _ (proj2 fresh_open)) (du_disk _ _ _ (proj2 fresh_open))
    (du_open _ _ _ (proj2 fresh_open)) (du_certain _ _ _ (proj2 fresh_open)) fresh_room (crash_now _)) as P.
  rewrite stored_ok in P. exact P.
Defined.
Lemma Open_committed_witness :
  exists db h, Open path1 false (mkFile new_data new_data []) = (Ok db, mkFile new_data new_data []) /\ durable db h [].
Proof. apply (Open_committed path1 new_data []); [discriminate|exact new_holds|exact new_balanced|exact new_whole]. Defined.
Lemma history_refines_witness : exists kvs h, spec_run [] history1 kvs /\ durable again h kvs.
Proof.
  apply (history_refines path1 [] fresh new_file history1 again); [discriminate|exact (proj1 fresh_open)|exact history1_runs].
Defined.
Lemma history_continues_witness : exists kvs h, spec_run [] history1 kvs /\ restarted path1 again h kvs /\
  Get (S (size (k_pages again))) k1 again = (Ok (kv_get k1 kvs), again).
Proof.
  destruct (history_continues path1 [] fresh new_file history1 again) as (kvs & h & S & Hr & _ & G);
    [discriminate|exact (proj1 fresh_open)|exact history1_runs|].
  exists kvs, h. split; [exact S|]. split; [exact Hr|]. apply G; [apply le_n|discriminate].
Defined.
