(* ===== verification/Findings.v ===== *)
(** * Stores that do not come back

    Instances of [restart_exact] and [misaligned_refused] in which data is lost.
    Insertion never merges pages, so a greedy split can leave a page that is
    underfull and fits beside its neighbour; recovery rejects such a tree and
    falls back to the previous generation. A write that extends the file and is
    cut off leaves a size that is no whole number of pages; opening refuses such
    a file. *)

From S2P Require Import Prelude KvList Errors Page PageTree File FreeList PageManager KV KVSpec KVResults DurableSpec CommitSpec WalkSpec DurableResults HistoryResults.

Definition letter (z : Z) : bytes := [Zb z].
Definition wide : bytes := replicate 900 (Zb 120).
Definition put (z : Z) : Mutation := mkMutation (letter z) wide false.

(** ** A [Set] that returned is lost *)

(** Five entries in one batch, then one more between them. *)
Definition five : change := Batch [put 97; put 99; put 101; put 103; put 105].
Definition sixth : change := Put (letter 98) wide.
Definition filled : KV := (perform 10 five fresh).2.
Definition lossy : KV := (perform 10 sixth filled).2.

Lemma lossy_facts : size (k_pages filled) = 3%nat /\ nextPageID (k_pm filled) = 9 /\ generation (k_pm filled) = 1 /\
  settled (k_pages lossy) (k_root lossy) = false.
Proof.
  assert (E : (size (k_pages filled), (nextPageID (k_pm filled), (generation (k_pm filled), settled (k_pages lossy) (k_root lossy)))) =
    (3%nat, (9, (1, false)))) by (vm_compute; reflexivity).
  apply pair_eq in E as [E1 [E2 [E3 E4]%pair_eq]%pair_eq]. exact (conj E1 (conj E2 (conj E3 E4))).
Qed.

#[local] Opaque perform fresh.
Lemma put_legal z : mutation_ok (put z).
Proof. unfold mutation_ok. by vm_compute. Qed.
Lemma filled_both : exists h, durable filled h (effect five []).
Proof.
  assert (Hen : enough 10 five fresh).
  { destruct fresh_facts as (E1 & E2 & E3 & _). unfold enough, disk_room. rewrite E1, E2, E3. clear. split; [cbn; lia|by vm_compute]. }
  destruct (puts_durable 10 five fresh 0 [] (proj2 fresh_open) Hen) as (db' & h & E & D & _).
  - repeat (apply Forall_cons; split; [apply put_legal|]). constructor.
  - repeat constructor.
  - exists h. unfold filled. rewrite E. exact D.
Qed.
Lemma lossy_both : perform 10 sixth filled = (Ok true, lossy) /\
  exists h, durable lossy h (effect sixth (effect five [])) /\ sized lossy.
Proof.
  destruct filled_both as [h D]. assert (Hen : enough 10 sixth filled).
  { destruct lossy_facts as (E1 & E2 & E3 & _). unfold enough, disk_room. rewrite E1, E2, E3. clear. split; [cbn; lia|by vm_compute]. }
  destruct (puts_durable 10 sixth filled h _ D Hen) as (db' & h' & E & D').
  - apply Forall_singleton, put_legal.
  - repeat constructor.
  - unfold lossy. rewrite E. split; [reflexivity|]. by exists h'.
Qed.

Definition falls_back (g : Z) (r : outcome error KV * file) : Prop :=
  match r with
  | (Ok db', _) => generation (k_pm db') < g
  | (Err _, _) => True
  | (Panic, _) | (NoFuel, _) => False
  end.
Lemma restarted_falls_back path db h kvs :
  restarted path db h kvs -> ~ restartable db -> falls_back (generation (k_pm db)) (restart path db).
Proof.
  unfold restarted, falls_back. intros R Hn. destruct (restart path db) as [[db'|e| |] f]; try done.
  by destruct R as [[? _]|[_ ?]].
Qed.
Lemma lossy_unsettled : ~ restartable lossy.
Proof. unfold restartable. rewrite (proj2 (proj2 (proj2 lossy_facts))). discriminate. Qed.

(** The sixth entry was stored, and reopening gives an older generation. *)
#[local] Opaque filled lossy.
Lemma restart_exact_witness : perform 10 sixth filled = (Ok true, lossy) /\
  falls_back (generation (k_pm lossy)) (restart path1 lossy).
Proof.
  split; [exact (proj1 lossy_both)|]. destruct (proj2 lossy_both) as (h & D & Hz).
  exact (restarted_falls_back path1 lossy h _ (restart_exact path1 lossy h _ D Hz ltac:(discriminate)) lossy_unsettled).
Defined.

(** ** An intact file is refused *)

(** The first page write of the update stops after seven bytes, and the machine
    with it: the file is not truncated either. *)
Definition cut_off : list fault := [Pass; Fault 7; Fault 0].
Definition torn : bytes := f_data (pm_file (k_pm (perform 10 one (with_faults cut_off fresh)).2)).
Lemma cut_flags : k_closed (with_faults cut_off fresh) = false /\ k_uncertain (with_faults cut_off fresh) = false.
Proof. destruct fresh_open as [_ D]. exact (faulty_flags _ _ (du_open _ _ _ D) (du_certain _ _ _ D)). Qed.
#[local] Strategy expand [torn].
Lemma torn_image : crash_image (pm_file (k_pm (perform 10 one (with_faults cut_off fresh)).2)) torn.
Proof. unfold torn. apply crash_now. Qed.
#[local] Transparent perform fresh.
Lemma torn_len : len torn = 8199.
Proof. vm_compute. reflexivity. Qed.
#[local] Opaque perform fresh torn.

Lemma misaligned_refused_witness :
  (holds torn [] \/ holds torn [(k1, v1)] \/ collision (overwritten (with_faults cut_off fresh)) (next_slot (with_faults cut_off fresh)) torn) /\
  Open path1 false (mkFile torn torn []) = (Err (EFileAlignment 8199), mkFile torn torn []).
Proof.
  rewrite <- torn_len.
  apply (misaligned_refused path1 10 one (with_faults cut_off fresh) 0 [] torn).
  - exact (faulty_rep _ _ _ _ (du_rep _ _ _ (proj2 fresh_open))).
  - exact (faulty_disk _ _ (du_disk _ _ _ (proj2 fresh_open))).
  - exact (proj1 cut_flags).
  - exact (proj2 cut_flags).
  - exact (faulty_enough _ _ _ _ fresh_room).
  - exact torn_image.
  - discriminate.
  - rewrite torn_len. discriminate.
  - rewrite torn_len. discriminate.
Defined.
