(* ===== verification/PageFile.v ===== *)
(** * Fixed-size page files (src/internal/storage)

    [FilePages] over the interface [storage.File]. The file is any type with the
    three calls of the interface; a call may fail, and may transfer less than it
    was asked for, with or without an error. *)

From S2P Require Import Prelude Errors Page File.

(** ** The file *)

(** [ReadAt(make([]byte, n), off)]: the bytes read and the error.
    [WriteAt(d, off)]: the count and the error. [Stat().Size()]. *)
Record FileOps (F : Type) := mkFileOps {
  fl_ReadAt : Z -> Z -> F -> bytes * bool * F;
  fl_WriteAt : bytes -> Z -> F -> Z * bool * F;
  fl_Stat : F -> option Z * F;
}.
Arguments mkFileOps {F}. Arguments fl_ReadAt {F}. Arguments fl_WriteAt {F}. Arguments fl_Stat {F}.

(** What [io.ReaderAt], [io.WriterAt] and [Stat] promise, short transfers
    included; on a [healthy] file every call does all it was asked for. *)
Class FileSpec {F} (ops : FileOps F) := {
  contents : F -> bytes;
  healthy : F -> Prop;
  fs_read n off f d err f' : 0 <= n -> 0 <= off -> fl_ReadAt ops n off f = (d, err, f') ->
    contents f' = contents f /\ len d <= n /\ (d <> [] -> off + len d <= len (contents f)) /\ d = sub (contents f) off (len d) /\
    (healthy f -> healthy f' /\ (off + n <= len (contents f) -> err = false /\ len d = n));
  fs_write d off f n err f' : 0 <= off -> fl_WriteAt ops d off f = (n, err, f') ->
    0 <= n <= len d /\ contents f' = write_data (contents f) off (take (Z.to_nat n) d) /\
    (healthy f -> healthy f' /\ err = false /\ n = len d);
  fs_stat f size f' : fl_Stat ops f = (size, f') ->
    contents f' = contents f /\ (forall z, size = Some z -> z = len (contents f) /\ z <= maxInt64) /\
    (healthy f -> healthy f' /\ (len (contents f) <= maxInt64 -> is_Some size));
}.

Inductive storage_error : Type :=
| ErrInvalidPageID (id : Z)
| ErrInvalidPage (size want : Z)
| EStorageNilFile
| EStoragePageSize (size : Z)
| EStorageAligned (size : Z)
| EStorageFile
| EUnexpectedEOF
| EShortWrite.

(** ** The page store *)

Definition DefaultPageSize : Z := 4096.

Record FilePages (F : Type) := mkFilePages { fp_file : F; fp_pageSize : Z; fp_pages : Z }.
Arguments mkFilePages {F}. Arguments fp_file {F}. Arguments fp_pageSize {F}. Arguments fp_pages {F}.

Section Operations.
Context {F : Type} (ops : FileOps F).

Definition OpenFilePages (file : option F) (pageSize : Z) : outcome storage_error (FilePages F) :=
  match file with
  | None => Err EStorageNilFile
  | Some f =>
      fail_if pageSize <=? 0 with EStoragePageSize pageSize ;;
      match fl_Stat ops f with
      | (None, _) => Err EStorageFile
      | (Some size, f) =>
          fail_if negb (Z.rem size pageSize =? 0) with EStorageAligned size ;;
          Ok (mkFilePages f pageSize (u64 (Z.quot size pageSize)))
      end
  end.

Definition pageOffset (p : FilePages F) (pageID : Z) : outcome storage_error Z :=
  fail_if (pageID =? 0) || (pageID >? Z.quot maxInt64 (fp_pageSize p)) with ErrInvalidPageID pageID ;;
  Ok (s64 (u64 (u64 (pageID - 1) * fp_pageSize p))).

Abbreviation PM := (stM (FilePages F) storage_error).
Definition self : PM (FilePages F) := fun p => (Ok p, p).
Definition readAt (n off : Z) : PM (bytes * bool) := fun p =>
  let '(d, err, f) := fl_ReadAt ops n off (fp_file p) in (Ok (d, err), mkFilePages f (fp_pageSize p) (fp_pages p)).
Definition writeAt (d : bytes) (off : Z) : PM (Z * bool) := fun p =>
  let '(n, err, f) := fl_WriteAt ops d off (fp_file p) in (Ok (n, err), mkFilePages f (fp_pageSize p) (fp_pages p)).
Definition set_pages (n : Z) : PM unit := fun p => (Ok tt, mkFilePages (fp_file p) (fp_pageSize p) n).

Definition ReadPage (pageID : Z) : PM bytes :=
  p <~ self ;;
  throw_if (pageID =? 0) || (pageID >? fp_pages p) with ErrInvalidPageID pageID ;;
  offset <! pageOffset p pageID ;;
  '(d, err) <~ readAt (fp_pageSize p) offset ;;
  throw_if (err : bool) with EStorageFile ;;
  throw_if negb (len d =? fp_pageSize p) with EUnexpectedEOF ;;
  ret d.

(** [n, err := p.file.WriteAt(page, offset)] and the two checks after it. *)
Definition writeWhole (page : bytes) (offset : Z) : PM unit :=
  '(n, err) <~ writeAt page offset ;;
  throw_if (err : bool) with EStorageFile ;;
  throw_if negb (n =? len page) with EShortWrite ;;
  ret tt.

Definition WritePage (pageID : Z) (page : bytes) : PM unit :=
  p <~ self ;;
  throw_if (pageID =? 0) || (pageID >? fp_pages p) with ErrInvalidPageID pageID ;;
  throw_if negb (len page =? fp_pageSize p) with ErrInvalidPage (len page) (fp_pageSize p) ;;
  offset <! pageOffset p pageID ;;
  writeWhole page offset.

Definition AllocatePage : PM Z :=
  p <~ self ;;
  let pageID := u64 (fp_pages p + 1) in
  offset <! pageOffset p pageID ;;
  _ <~ writeWhole (make (fp_pageSize p)) offset ;;
  _ <~ set_pages pageID ;;
  ret pageID.

Definition ReleasePage (pageID : Z) : PM unit :=
  p <~ self ;;
  throw_if (pageID =? 0) || (pageID >? fp_pages p) with ErrInvalidPageID pageID ;;
  ret tt.

Definition PageSize (p : FilePages F) : Z := fp_pageSize p.
End Operations.

(** ** Correctness *)

Section Correct.
Context {F : Type} (ops : FileOps F) `{FS : !FileSpec ops}.
Implicit Types p : FilePages F.

(** The page file is long enough for its pages, and every offset of a page is an
    [int64]. *)
Record pages_ok (p : FilePages F) : Prop := {
  po_size : 1 <= fp_pageSize p;
  po_pages : 0 <= fp_pages p;
  po_offsets : fp_pages p * fp_pageSize p <= maxInt64;
  po_file : fp_pages p * fp_pageSize p <= len (contents (fp_file p));
}.
(** The contents of a page. *)
Definition page_at (p : FilePages F) (id : Z) : bytes := sub (contents (fp_file p)) ((id - 1) * fp_pageSize p) (fp_pageSize p).
(** [p'] has the pages of [p] but perhaps for [id], and its file is as healthy. *)
Definition same_but (id : Z) (p p' : FilePages F) : Prop :=
  fp_pageSize p' = fp_pageSize p /\ (forall j, 1 <= j <= fp_pages p -> j <> id -> page_at p' j = page_at p j) /\
  (healthy (fp_file p) -> healthy (fp_file p')).

Lemma pageOffset_ok p id : 1 <= fp_pageSize p -> 1 <= id -> id * fp_pageSize p <= maxInt64 ->
  pageOffset p id = Ok ((id - 1) * fp_pageSize p).
Proof.
  intros Hs Hi Hb. unfold pageOffset. unfold maxInt64 in *.
  assert (id <= Z.quot (2 ^ 63 - 1) (fp_pageSize p)) by (rewrite Z.quot_div_nonneg by lia; apply Z.div_le_lower_bound; lia).
  destruct ((id =? 0) || _) eqn:E; [apply orb_true_iff in E as [E|E]; zbool; lia|]. f_equal.
  assert (0 <= (id - 1) * fp_pageSize p < 2 ^ 63) by nia.
  assert (id - 1 <= (id - 1) * fp_pageSize p) by nia.
  rewrite (u64_small (id - 1)) by lia. unfold s64. rewrite !u64_small by (rewrite ?u64_small; lia). zdecide. done.
Qed.
Lemma pageOffset_err p id : 1 <= fp_pageSize p -> maxInt64 < id * fp_pageSize p ->
  pageOffset p id = Err (ErrInvalidPageID id).
Proof.
  intros Hs Hb. unfold pageOffset. assert (Z.quot maxInt64 (fp_pageSize p) < id).
  { unfold maxInt64 in *. rewrite Z.quot_div_nonneg by lia. apply Z.div_lt_upper_bound; lia. }
  replace (id >? _) with true by (symmetry; apply Z.gtb_lt; lia). by rewrite orb_true_r.
Qed.

(** A whole page written at its place. *)
Lemma writeWhole_ok p id d : pages_ok p -> 1 <= id <= fp_pages p + 1 -> len d = fp_pageSize p ->
  ends (writeWhole ops d ((id - 1) * fp_pageSize p)) p
    (fun _ p' => fp_pages p' = fp_pages p /\ pages_ok p' /\ same_but id p p' /\ page_at p' id = d /\ id * fp_pageSize p <= len (contents (fp_file p')))
    (fun _ p' => fp_pages p' = fp_pages p /\ pages_ok p' /\ same_but id p p' /\ ~ healthy (fp_file p)).
Proof.
  intros [Hs Hp Ho Hf] Hi Hd. unfold writeWhole. apply ends_bind. unfold ends at 1, writeAt.
  assert (Hpos : 0 <= (id - 1) * fp_pageSize p) by nia.
  destruct (fl_WriteAt ops d _ (fp_file p)) as [[n err] f'] eqn:E. cbn.
  destruct (fs_write _ _ _ _ _ _ Hpos E) as (Hn & Hc & Hh).
  set (p' := mkFilePages f' (fp_pageSize p) (fp_pages p)).
  assert (Hlt : len (take (Z.to_nat n) d) = n) by (unfold len in *; rewrite length_take; lia).
  assert (Hlen : len (contents f') = if n =? 0 then len (contents (fp_file p)) else Z.max (len (contents (fp_file p))) ((id - 1) * fp_pageSize p + n)).
  { by rewrite Hc, write_data_len, Hlt by done. }
  assert (K : pages_ok p'). { split; cbn; try done. rewrite Hlen. destruct (n =? 0); lia. }
  assert (B : same_but id p p').
  { split_and!; [done| |intros G; by apply Hh]. intros j Hj Hji. unfold page_at. cbn. rewrite Hc.
    apply sub_write_other; try done; try nia. }
  assert (G : err = true \/ n <> len d -> ~ healthy (fp_file p)).
  { intros G H. apply Hh in H as (_ & -> & ->). by destruct G. }
  destruct err; [by split_and!; auto|]. destruct (n =? len d) eqn:En; zbool; cbn; [|by split_and!; auto].
  split_and!; try done.
  - unfold page_at. cbn. rewrite Hc, take_ge by (unfold len in *; lia).
    pose proof (sub_write_same (contents (fp_file p)) _ d Hpos) as W. rewrite Hd in W. apply W.
    intros ->. unfold len in Hd. cbn in Hd. lia.
  - cbn. rewrite Hlen. zdecide. nia.
Qed.

(** Results of the whole operations. [refused]: the error for an invalid page
    number, with nothing changed. *)
Definition refused (id : Z) (p : FilePages F) (e : storage_error) (p' : FilePages F) : Prop := e = ErrInvalidPageID id /\ p' = p.

Lemma same_but_refl id p : same_but id p p.
Proof. by split_and!. Qed.

Lemma ReadPage_ok p id : pages_ok p -> 0 <= id ->
  ends (ReadPage ops id) p
    (fun d p' => 1 <= id <= fp_pages p /\ d = page_at p id /\ len d = fp_pageSize p /\ pages_ok p' /\ fp_pages p' = fp_pages p /\ (forall i, same_but i p p'))
    (fun e p' => if decide (1 <= id <= fp_pages p)
      then ~ healthy (fp_file p) /\ pages_ok p' /\ fp_pages p' = fp_pages p /\ (forall i, same_but i p p')
      else refused id p e p').
Proof.
  intros K Hid. pose proof K as [Hs Hp Ho Hf]. unfold ReadPage. apply ends_bind. cbn.
  destruct (decide (1 <= id <= fp_pages p)) as [Hi|Hi]; destruct ((id =? 0) || _) eqn:E.
  1,4: try (apply orb_true_iff in E as [E|E]); zbool; lia.
  2: done.
  eapply ends_lift; [apply pageOffset_ok; nia|]. apply ends_bind. unfold ends at 1, readAt.
  assert (Hpos : 0 <= (id - 1) * fp_pageSize p) by nia.
  destruct (fl_ReadAt ops _ _ (fp_file p)) as [[d err] f'] eqn:Er. cbn.
  assert (Hs0 : 0 <= fp_pageSize p) by lia. destruct (fs_read _ _ _ _ _ _ Hs0 Hpos Er) as (Hc & Hd & _ & Hsub & Hh).
  set (p' := mkFilePages f' (fp_pageSize p) (fp_pages p)).
  assert (K' : pages_ok p') by (split; cbn; rewrite ?Hc; done).
  assert (B : forall i, same_but i p p').
  { intros i. split_and!; [done| |intros H; by apply Hh]. intros j _ _. unfold page_at. cbn. by rewrite Hc. }
  assert (G : err = true \/ len d <> fp_pageSize p -> ~ healthy (fp_file p)).
  { intros G H. apply Hh in H as (_ & H). destruct H as [-> H]; [nia|]. by destruct G. }
  destruct err; [by split_and!; auto|]. destruct (len d =? fp_pageSize p) eqn:El; zbool; cbn; [|by split_and!; auto].
  split_and!; try done; try lia. unfold page_at. rewrite Hsub, El. done.
Qed.

Lemma WritePage_ok p id d : pages_ok p -> 0 <= id ->
  ends (WritePage ops id d) p
    (fun _ p' => 1 <= id <= fp_pages p /\ pages_ok p' /\ fp_pages p' = fp_pages p /\ page_at p' id = d /\ same_but id p p')
    (fun e p' => if decide (1 <= id <= fp_pages p)
      then pages_ok p' /\ fp_pages p' = fp_pages p /\ same_but id p p' /\
        (if decide (len d = fp_pageSize p) then ~ healthy (fp_file p) else e = ErrInvalidPage (len d) (fp_pageSize p) /\ p' = p)
      else refused id p e p').
Proof.
  intros K Hid. pose proof K as [Hs Hp Ho Hf]. unfold WritePage. apply ends_bind. cbn.
  destruct (decide (1 <= id <= fp_pages p)) as [Hi|Hi]; destruct ((id =? 0) || _) eqn:E.
  1,4: try (apply orb_true_iff in E as [E|E]); zbool; lia.
  2: done.
  destruct (decide (len d = fp_pageSize p)) as [Hd|Hd]; [|zdecide; cbn; split_and!; try done; apply same_but_refl].
  zdecide. cbn. eapply ends_lift; [apply pageOffset_ok; nia|].
  eapply ends_mono; [by apply writeWhole_ok; [|lia|]|..]; cbn beta; tauto.
Qed.

Lemma AllocatePage_ok p : pages_ok p ->
  ends (AllocatePage ops) p
    (fun id p' => id = fp_pages p + 1 /\ fp_pages p' = id /\ pages_ok p' /\ page_at p' id = make (fp_pageSize p) /\ same_but id p p')
    (fun e p' => pages_ok p' /\ fp_pages p' = fp_pages p /\ same_but (fp_pages p + 1) p p' /\
      (healthy (fp_file p) -> e = ErrInvalidPageID (fp_pages p + 1) /\ maxInt64 < (fp_pages p + 1) * fp_pageSize p)).
Proof.
  intros K. pose proof K as [Hs Hp Ho Hf]. unfold AllocatePage. apply ends_bind. cbn.
  assert (fp_pages p <= fp_pages p * fp_pageSize p) by nia. unfold maxInt64 in Ho. rewrite u64_small by lia.
  destruct (decide ((fp_pages p + 1) * fp_pageSize p <= maxInt64)) as [Hm|Hm].
  - eapply ends_lift; [apply pageOffset_ok; lia|]. apply ends_bind.
    eapply ends_mono; [apply writeWhole_ok; [done|lia|]|..].
    + rewrite len_make. lia.
    + cbn. intros _ p' (E & [K1 K2 K3 K4] & (B1 & B2 & B3) & Hd & Hl). rewrite B1 in *. split_and!; try done.
      * split; cbn; rewrite ?B1; try done; lia.
      * unfold page_at in *. cbn. by rewrite B1 in *.
      * split_and!; [done| |done]. intros j Hj Hn. rewrite <- B2 by done. unfold page_at. cbn. by rewrite B1.
    + cbn beta. intros e p' (E & K' & B & G). by split_and!.
  - apply ends_bind. rewrite pageOffset_err by lia. cbn.
    split; [done|]. split; [done|]. split; [apply same_but_refl|]. intros _. split; [done|lia].
Qed.

(** C36: a page file keeps its pages. From any consistent state and over any file
    that keeps the contract of [io.ReaderAt] and [io.WriterAt], however its calls
    fail or transfer less than asked: a successful [WritePage] stores the page and
    [ReadPage] returns exactly what the page holds; a successful [AllocatePage]
    returns the next number with a page of zeros; no operation, not even a failed
    one, changes any other page or the number of pages; a page number or size out
    of range is refused without touching the file; and on a healthy file valid
    operations succeed, [AllocatePage] as long as the file stays below 2^63
    bytes. *)
Theorem FilePages_correct p id d : pages_ok p -> 0 <= id ->
  ends (WritePage ops id d) p
    (fun _ p' => 1 <= id <= fp_pages p /\ pages_ok p' /\ fp_pages p' = fp_pages p /\ same_but id p p' /\
      ends (ReadPage ops id) p' (fun d' _ => d' = d) (fun _ _ => ~ healthy (fp_file p')))
    (fun e p' => if decide (1 <= id <= fp_pages p)
      then pages_ok p' /\ fp_pages p' = fp_pages p /\ same_but id p p' /\
        (if decide (len d = fp_pageSize p) then ~ healthy (fp_file p) else e = ErrInvalidPage (len d) (fp_pageSize p) /\ p' = p)
      else refused id p e p') /\
  ends (ReadPage ops id) p
    (fun d' p' => d' = page_at p id /\ pages_ok p' /\ fp_pages p' = fp_pages p /\ (forall i, same_but i p p'))
    (fun e p' => if decide (1 <= id <= fp_pages p)
      then ~ healthy (fp_file p) /\ pages_ok p' /\ fp_pages p' = fp_pages p /\ (forall i, same_but i p p')
      else refused id p e p') /\
  ends (AllocatePage ops) p
    (fun id' p' => id' = fp_pages p + 1 /\ fp_pages p' = id' /\ pages_ok p' /\ page_at p' id' = make (fp_pageSize p) /\ same_but id' p p')
    (fun e p' => pages_ok p' /\ fp_pages p' = fp_pages p /\ same_but (fp_pages p + 1) p p' /\
      (healthy (fp_file p) -> e = ErrInvalidPageID (fp_pages p + 1) /\ maxInt64 < (fp_pages p + 1) * fp_pageSize p)).
Proof.
  intros K Hid. split_and!.
  - eapply ends_mono; [by apply WritePage_ok| |done]. cbn beta. intros _ p' (Hi & K' & E & Hp & B).
    refine (conj Hi (conj K' (conj E (conj B _)))).
    eapply ends_mono; [by apply ReadPage_ok|..]; cbn beta; rewrite E.
    + intros d' p2 (_ & -> & _). done.
    + intros e p2. rewrite decide_True by done. by intros [].
  - eapply ends_mono; [by apply ReadPage_ok| |done]. cbn beta. tauto.
  - by apply AllocatePage_ok.
Qed.

(** Opening a page file accepts exactly the files whose size is a multiple of
    a positive page size, reads nothing else, and gives a consistent store with
    one page per [pageSize] bytes. *)
Theorem OpenFilePages_exact f pageSize :
  match OpenFilePages ops (Some f) pageSize with
  | Ok p => 1 <= pageSize /\ fp_pageSize p = pageSize /\ pages_ok p /\ contents (fp_file p) = contents f /\
      fp_pages p * pageSize = len (contents f)
  | Err e => pageSize <= 0 \/ len (contents f) mod pageSize <> 0 \/ ~ (healthy f /\ len (contents f) <= maxInt64)
  | Panic | NoFuel => False
  end.
Proof.
  unfold OpenFilePages. destruct (pageSize <=? 0) eqn:E; zbool; [lia|].
  destruct (fl_Stat ops f) as [size f'] eqn:Es. destruct (fs_stat _ _ _ Es) as (Hc & Hz & Hh).
  destruct size as [size|]; [|right; right; intros [H1 H2]; apply Hh in H1 as [_ H1]; by destruct (H1 H2)].
  destruct (Hz size eq_refl) as [-> Hm]. pose proof (len_nonneg (contents f)). rewrite Z.rem_mod_nonneg by lia.
  destruct (len (contents f) mod pageSize =? 0) eqn:El; zbool; cbn; [|by auto].
  rewrite Z.quot_div_nonneg by lia. apply Z.div_exact in El; [|lia].
  assert (Hq : 0 <= len (contents f) / pageSize <= len (contents f)) by (split; [apply Z.div_pos; lia|nia]).
  unfold maxInt64 in Hm. rewrite u64_small by lia.
  split_and!; try done; try lia. split; cbn; rewrite ?Hc; unfold maxInt64; lia.
Qed.
End Correct.

(** ** A file *)

(** A file in memory with the outcomes of its coming calls: [Some n] transfers at
    most [n] bytes and fails. *)
Record disk := mkDisk { dk_data : bytes; dk_plan : list (option Z) }.
Definition disk_next (f : disk) : option Z * list (option Z) :=
  match dk_plan f with [] => (None, []) | x :: xs => (x, xs) end.
Definition diskOps : FileOps disk := mkFileOps
  (fun n off f =>
    let '(x, plan) := disk_next f in
    let d := sub (dk_data f) off (match x with Some k => Z.min (Z.max 0 k) n | None => n end) in
    (d, match x with Some _ => true | None => negb (len d =? n) end, mkDisk (dk_data f) plan))
  (fun d off f =>
    let '(x, plan) := disk_next f in
    let n := match x with Some k => Z.min (Z.max 0 k) (len d) | None => len d end in
    (n, match x with Some _ => true | None => false end, mkDisk (write_data (dk_data f) off (take (Z.to_nat n) d)) plan))
  (fun f =>
    let '(x, plan) := disk_next f in
    (match x with Some _ => None | None => if len (dk_data f) >? maxInt64 then None else Some (len (dk_data f)) end, mkDisk (dk_data f) plan)).

(** What a read of at most [m] bytes finds. *)
Lemma sub_short {A} (l : list A) off m : 0 <= off -> 0 <= m -> let s := sub l off m in
  len s <= m /\ (s <> [] -> off + len s <= len l) /\ s = sub l off (len s) /\ (off + m <= len l -> len s = m).
Proof.
  intros Ho Hm s. assert (E : length s = (Z.to_nat m `min` (length l - Z.to_nat off))%nat) by (unfold s, sub; by rewrite length_take, length_drop).
  unfold len. rewrite E. split_and!; [lia| | |lia].
  - intros Hs. assert (length s <> 0%nat) by (by intros ?%nil_length_inv). lia.
  - unfold s, sub. rewrite Nat2Z.id. destruct (decide (Z.to_nat m <= length l - Z.to_nat off)%nat).
    + by rewrite Nat.min_l.
    + rewrite Nat.min_r, !take_ge by (rewrite ?length_drop; lia). done.
Qed.

#[global] Program Instance disk_spec : FileSpec diskOps := {| contents := dk_data; healthy f := dk_plan f = [] |}.
Next Obligation.
  cbn. intros n off f d err f' Hn Hoff E. unfold disk_next in E.
  assert (G : forall m, 0 <= m <= n -> d = sub (dk_data f) off m -> len d <= n /\ (d <> [] -> off + len d <= len (dk_data f)) /\
    d = sub (dk_data f) off (len d) /\ (off + m <= len (dk_data f) -> len d = m)).
  { intros m Hm ->. destruct (sub_short (dk_data f) off m) as (? & ? & ? & ?); try lia. split_and!; try done. lia. }
  destruct (dk_plan f) as [|[k|] xs] eqn:Ep; injection E as E1 E2 E3; subst f'; cbn.
  - destruct (G n) as (? & ? & ? & L); [lia|done|]. split_and!; try done. intros _. split; [done|].
    intros Hl. rewrite <- E2, E1, (L Hl). by zdecide.
  - destruct (G (Z.min (Z.max 0 k) n)) as (? & ? & ? & L); [lia|done|]. by split_and!.
  - destruct (G n) as (? & ? & ? & L); [lia|done|]. by split_and!.
Qed.
Next Obligation.
  cbn. intros d off f n err f' Hoff E. unfold disk_next in E. pose proof (len_nonneg d).
  destruct (dk_plan f) as [|[k|] xs] eqn:Ep; injection E as E1 E2 E3; subst; cbn; split_and!; try done; lia.
Qed.
Next Obligation.
  cbn. intros f size f' E. unfold disk_next in E.
  destruct (dk_plan f) as [|[k|] xs] eqn:Ep; injection E as E1 E2; subst; cbn; split_and!; try done;
    try (destruct (_ >? _) eqn:G; zbool; [done|by intros z [= <-]]).
  intros _. split; [done|]. intros Hl. by zdecide.
Qed.
