(* ===== verification/Codec.v ===== *)
(** * Relational encodings (src/db/table.go, src/db/index.go)

    Column values, rows, table descriptors and index definitions as bytes, and
    the keys under which a database stores them. Strings are byte lists, a row
    is a map from column names to values, and a value of Go type [any] is one of
    the supported representations or [AOther]. *)

From S2P Require Import Prelude Errors.

(** ** Errors of package db *)

Inductive dberr : Type :=
| ErrEmptyKey
| DErrClosed
| ErrTransactionClosed
| ErrReadOnlyTransaction
| ErrWriteTransactionActive
| ErrTableExists
| ErrTableNotFound
| ErrDuplicatePrimary
| ErrInvalidSchema
| ErrInvalidRow
| ErrIndexExists
| ErrIndexNotFound
| ErrDuplicateIndexed
| ErrRowNotFound
| ErrForeignTransactionTable
| ENotInitialized
| EUnsupportedFormat (base : dberr)
| EDescriptorTooLong
| EDescriptorName
| EUnknownColumn
| EMissingColumn (name : bytes)
| ENullColumn (name : bytes)
| EStore (e : engine_error).
Abbreviation dres := (outcome dberr).

(** ** Columns, schemas and values *)

Definition ColumnInt64 : Z := 1.
Definition ColumnString : Z := 2.
Definition ColumnBytes : Z := 3.
Definition ColumnBool : Z := 4.

Record Column := mkColumn { c_name : bytes; c_type : Z; c_primary : bool; c_nullable : bool }.
Record TableSchema := mkSchema { s_name : bytes; s_columns : list Column }.
Record Index := mkIndex { i_name : bytes; i_column : bytes; i_unique : bool }.

Inductive any : Type :=
| ANil
| AInt64 (z : Z)
| AString (s : bytes)
| ABytes (b : bytes)
| ABool (b : bool)
| AOther.
Abbreviation row := (gmap bytes any).

(** [row[name]]: a missing key reads as [nil]. *)
Definition row_get (r : row) (name : bytes) : any := default ANil (r !! name).

(** The zero [Column{}]. *)
Definition column0 : Column := mkColumn [] 0 false false.

Fixpoint findPrimary_in (cs : list Column) : Column :=
  match cs with
  | [] => column0
  | c :: cs => if c_primary c then c else findPrimary_in cs
  end.
Definition findPrimary (s : TableSchema) : Column := findPrimary_in (s_columns s).
Fixpoint findColumn_in (cs : list Column) (name : bytes) : option Column :=
  match cs with
  | [] => None
  | c :: cs => if beqb (c_name c) name then Some c else findColumn_in cs name
  end.
Definition findColumn (s : TableSchema) (name : bytes) : option Column := findColumn_in (s_columns s) name.
Definition columnByName (s : TableSchema) (name : bytes) : Column := default column0 (findColumn s name).

Definition valid_type (t : Z) : bool := (ColumnInt64 <=? t) && (t <=? ColumnBool).

(** The column loop of [validateSchema]. *)
Fixpoint validateColumns (cs : list Column) (seen : gset bytes) (primary : Z) : dres Z :=
  match cs with
  | [] => Ok primary
  | c :: cs =>
      fail_if (len (c_name c) =? 0) || (len (c_name c) >? 128) || bool_decide (c_name c ∈ seen) ||
              negb (valid_type (c_type c)) with ErrInvalidSchema ;;
      if c_primary c then
        fail_if c_nullable c || (negb (c_type c =? ColumnInt64) && negb (c_type c =? ColumnString))
          with ErrInvalidSchema ;;
        validateColumns cs ({[c_name c]} ∪ seen) (primary + 1)
      else validateColumns cs ({[c_name c]} ∪ seen) primary
  end.
Definition validateSchema (s : TableSchema) : dres unit :=
  fail_if (len (s_name s) =? 0) || (len (s_name s) >? 128) || (len (s_columns s) =? 0) || (len (s_columns s) >? 65535)
    with ErrInvalidSchema ;;
  primary <- validateColumns (s_columns s) ∅ 0 ;;
  fail_if negb (primary =? 1) with ErrInvalidSchema ;;
  Ok tt.

(** ** Key components *)

Definition b00 : byte := Byte.x00.
Definition bff : byte := Byte.xff.

Fixpoint escape_body (v : bytes) : bytes :=
  match v with
  | [] => []
  | b :: v => if decide (b = b00) then b00 :: bff :: escape_body v else b :: escape_body v
  end.
Definition escape (v : bytes) : bytes := escape_body v ++ [b00; b00].

(** The loop of [decodeEscapedComponent] over all but the last two bytes. *)
Fixpoint unescape (data : bytes) : option bytes :=
  match data with
  | [] => Some []
  | b :: data =>
      if decide (b = b00) then
        match data with
        | c :: data => if decide (c = bff) then cons b00 <$> unescape data else None
        | [] => None
        end
      else cons b <$> unescape data
  end.
Definition decodeEscapedComponent (data : bytes) : option bytes :=
  let n := (length data - 2)%nat in
  if (len data <? 2) || negb (beqb (drop n data) [b00; b00]) then None
  else unescape (take n data).

Definition descriptorKey (name : bytes) : bytes := Byte.x10 :: escape name.
Definition rowPrefix (name : bytes) : bytes := Byte.x20 :: escape name.
Definition indexMetadataKey (tableName indexName : bytes) : bytes := Byte.x11 :: escape tableName ++ escape indexName.
Definition indexEntryPrefix (tableName indexName : bytes) : bytes := Byte.x30 :: escape tableName ++ escape indexName.
Definition indexValuePrefix (tableName : bytes) (index : Index) (encoded : bytes) : bytes :=
  indexEntryPrefix tableName (i_name index) ++ encoded.
Definition indexEntryKey (tableName : bytes) (index : Index) (indexedValue primaryKey : bytes) : bytes :=
  let key := indexValuePrefix tableName index indexedValue in
  if i_unique index then key else key ++ primaryKey.

Definition hasPrefix (value prefix : bytes) : bool :=
  (len prefix <=? len value) && beqb (take (length prefix) value) prefix.

(** [prefixEnd]: the last byte below 0xff goes up by one and what follows it is
    dropped; the loop runs from the end, here over the reversed prefix. *)
Fixpoint prefixEnd_rev (rev : bytes) : option bytes :=
  match rev with
  | [] => None
  | b :: rev => if decide (b = bff) then prefixEnd_rev rev else Some (Zb (bZ b + 1) :: rev)
  end.
Definition prefixEnd (prefix : bytes) : bytes :=
  match prefixEnd_rev (reverse prefix) with
  | Some r => reverse r
  | None => prefix ++ [b00]
  end.

(** ** Values *)

Definition signBit : Z := 2 ^ 63.
(** [binary.BigEndian.PutUint64(b[:], uint64(x)^(1<<63))] and its inverse. *)
Definition encodeInt (x : Z) : bytes := be_put 8 (Z.lxor (u64 x) signBit).
Definition decodeInt (data : bytes) : Z :=
  let u := Z.lxor (be_get data) signBit in
  if u <? signBit then u else u - 2 ^ 64.

Definition encodeValue (c : Column) (v : any) : dres bytes :=
  fail_if negb (valid_type (c_type c)) with ErrInvalidRow ;;
  match v with
  | ANil =>
      if c_nullable c && negb (c_primary c) then Ok [b00] else Err (ENullColumn (c_name c))
  | _ =>
      if c_type c =? ColumnInt64 then
        match v with
        | AInt64 x => Ok (if c_primary c then encodeInt x else Zb (c_type c) :: encodeInt x)
        | _ => Err ErrInvalidRow
        end
      else if c_type c =? ColumnString then
        match v with
        | AString x => Ok (if c_primary c then x else Zb (c_type c) :: escape x)
        | _ => Err ErrInvalidRow
        end
      else if c_type c =? ColumnBytes then
        match v with
        | ABytes x => Ok (Zb (c_type c) :: escape x)
        | _ => Err ErrInvalidRow
        end
      else
        match v with
        | ABool x => Ok [Zb (c_type c); if x then Byte.x01 else b00]
        | _ => Err ErrInvalidRow
        end
  end.

Definition decodePrimaryKey (c : Column) (data : bytes) : dres any :=
  if (c_type c =? ColumnInt64) && (len data =? 8) then Ok (AInt64 (decodeInt data))
  else if c_type c =? ColumnString then Ok (AString data)
  else Err ErrInvalidRow.

Definition decodeValue (c : Column) (data : bytes) : dres any :=
  if c_primary c then decodePrimaryKey c data
  else
    fail_if negb (valid_type (c_type c)) with ErrInvalidRow ;;
    match data with
    | [] => Err ErrInvalidRow
    | tag :: payload =>
        if decide (tag = b00) then
          fail_if negb (len payload =? 0) || negb (c_nullable c) || c_primary c with ErrInvalidRow ;;
          Ok ANil
        else
          fail_if negb (bZ tag =? c_type c mod 256) with ErrInvalidRow ;;
          if c_type c =? ColumnInt64 then
            fail_if negb (len payload =? 8) with ErrInvalidRow ;; Ok (AInt64 (decodeInt payload))
          else if c_type c =? ColumnString then
            match decodeEscapedComponent payload with Some x => Ok (AString x) | None => Err ErrInvalidRow end
          else if c_type c =? ColumnBytes then
            match decodeEscapedComponent payload with Some x => Ok (ABytes x) | None => Err ErrInvalidRow end
          else
            match payload with
            | [b] => fail_if bZ b >? 1 with ErrInvalidRow ;; Ok (ABool (bZ b =? 1))
            | _ => Err ErrInvalidRow
            end
    end.

(** [encodeIndexValue] always encodes a tagged, self-delimiting component. *)
Definition encodeIndexValue (c : Column) (v : any) : dres bytes :=
  encodeValue (mkColumn (c_name c) (c_type c) false (c_nullable c)) v.

(** ** Rows *)

Definition rowMagic : bytes := [Byte.x47; Byte.x44; Byte.x52; Byte.x57]. (* "GDRW" *)

(** The presence loop of [encodeRow]; returns the primary key value. *)
Fixpoint checkPresent (cs : list Column) (r : row) (pk : any) : dres any :=
  match cs with
  | [] => Ok pk
  | c :: cs =>
      fail_if negb (bool_decide (is_Some (r !! c_name c))) && negb (c_nullable c) with EMissingColumn (c_name c) ;;
      checkPresent cs r (if c_primary c then row_get r (c_name c) else pk)
  end.
(** The value loop of [encodeRow]; [i] is the column's index. *)
Fixpoint encodeCells (cs : list Column) (i : Z) (r : row) : dres bytes :=
  match cs with
  | [] => Ok []
  | c :: cs =>
      if c_primary c then encodeCells cs (i + 1) r
      else
        ev <- encodeValue c (row_get r (c_name c)) ;;
        rest <- encodeCells cs (i + 1) r ;;
        Ok (le_put 2 (u16 (i + 1)) ++ [b00; b00] ++ le_put 4 (len ev) ++ ev ++ rest)
  end.
Definition unknownColumn (s : TableSchema) (r : row) : bool :=
  existsb (fun p => negb (bool_decide (is_Some (findColumn s p.1)))) (map_to_list r).

Definition encodeRow (s : TableSchema) (r : row) : dres (bytes * bytes) :=
  fail_if (len (s_columns s) >? 65535) || negb (is_ok (validateSchema s)) with ErrInvalidSchema ;;
  fail_if unknownColumn s r with EUnknownColumn ;;
  pk <- checkPresent (s_columns s) r ANil ;;
  enc <- encodeValue (findPrimary s) pk ;;
  let key := rowPrefix (s_name s) ++ enc in
  fail_if len key >? 1000 with ErrInvalidRow ;;
  cells <- encodeCells (s_columns s) 0 r ;;
  let out := rowMagic ++ le_put 2 2 ++ le_put 4 1 ++ le_put 2 (u16 (len (s_columns s) - 1)) ++ cells in
  fail_if len out >? 3000 with ErrInvalidRow ;;
  Ok (key, out).

(** The cell loop of [decodeRow]. *)
Fixpoint decodeCells (todo : nat) (s : TableSchema) (data : bytes) (pos lastID : Z) (r : row) : dres (Z * row) :=
  match todo with
  | O => Ok (pos, r)
  | S todo =>
      fail_if pos + 8 >? len data with ErrInvalidRow ;;
      id <- getU 2 data pos ;;
      flags <- getU 1 data (pos + 2) ;;
      reserved <- getU 1 data (pos + 3) ;;
      length <- getU 4 data (pos + 4) ;;
      let pos := pos + 8 in
      fail_if (id <=? lastID) || negb (flags =? 0) || negb (reserved =? 0) || (length >? len data - pos)
        with ErrInvalidRow ;;
      fail_if id >? u16 (len (s_columns s)) with ErrInvalidRow ;;
      column <- match s_columns s !! Z.to_nat (id - 1) with Some c => Ok c | None => Panic end ;;
      fail_if c_primary column with ErrInvalidRow ;;
      cell <- slice data pos (pos + length) ;;
      value <- decodeValue column cell ;;
      decodeCells todo s data (pos + length) id (<[c_name column := value]> r)
  end.
Definition decodeRow (s : TableSchema) (data : bytes) : dres row :=
  fail_if (len data <? 6) || negb (beqb (take 4 data) rowMagic) with ErrInvalidRow ;;
  version <- getU 2 data 4 ;;
  fail_if negb (version =? 2) with EUnsupportedFormat ErrInvalidRow ;;
  fail_if (len data <? 12) || (len data >? 3000) || (len (s_columns s) >? 65535) || negb (is_ok (validateSchema s))
    with ErrInvalidRow ;;
  schemaVersion <- getU 4 data 6 ;;
  fail_if negb (schemaVersion =? 1) with ErrInvalidRow ;;
  count <- getU 2 data 10 ;;
  fail_if negb (count =? len (s_columns s) - 1) with ErrInvalidRow ;;
  '(pos, r) <- decodeCells (Z.to_nat count) s data 12 0 ∅ ;;
  fail_if negb (pos =? len data) with ErrInvalidRow ;;
  Ok r.

(** ** Table descriptors *)

Definition descriptorMagic : bytes := [Byte.x47; Byte.x44; Byte.x54; Byte.x42]. (* "GDTB" *)
Definition boolByte (v : bool) : byte := if v then Byte.x01 else b00.

(** The primary-key id: the last column marked as primary, from 1. *)
Fixpoint primaryID (cs : list Column) (i pk : Z) : Z :=
  match cs with
  | [] => pk
  | c :: cs => primaryID cs (i + 1) (if c_primary c then u16 (i + 1) else pk)
  end.
Fixpoint encodeColumns (cs : list Column) (i : Z) : bytes :=
  match cs with
  | [] => []
  | c :: cs =>
      le_put 2 (u16 (i + 1)) ++ [Zb (c_type c); boolByte (c_nullable c)] ++
      le_put 2 (u16 (len (c_name c))) ++ c_name c ++ encodeColumns cs (i + 1)
  end.
Definition encodeDescriptor (s : TableSchema) : bytes :=
  descriptorMagic ++ le_put 2 2 ++ [b00; b00] ++ le_put 4 1 ++
  le_put 2 (u16 (len (s_name s))) ++ s_name s ++
  le_put 2 (primaryID (s_columns s) 0 0) ++ le_put 2 (u16 (len (s_columns s))) ++
  encodeColumns (s_columns s) 0.

Fixpoint decodeColumns (todo : nat) (b : bytes) (p i pk : Z) (cols : list Column) : dres (Z * list Column) :=
  match todo with
  | O => Ok (p, cols)
  | S todo =>
      fail_if p + 6 >? len b with ErrInvalidSchema ;;
      id <- getU 2 b p ;;
      typ <- getU 1 b (p + 2) ;;
      flags <- getU 1 b (p + 3) ;;
      l <- getU 2 b (p + 4) ;;
      let p := p + 6 in
      fail_if negb (id =? i + 1) || (flags >? 1) || ((id =? pk) && negb (flags =? 0)) || (p + l >? len b)
        with ErrInvalidSchema ;;
      name <- slice b p (p + l) ;;
      decodeColumns todo b (p + l) (i + 1) pk
        (cols ++ [mkColumn name typ (id =? pk) (Z.odd flags && negb (id =? pk))])
  end.
Definition decodeDescriptor (b : bytes) : dres TableSchema :=
  fail_if (len b <? 6) || negb (beqb (take 4 b) descriptorMagic) with ErrInvalidSchema ;;
  version <- getU 2 b 4 ;;
  fail_if negb (version =? 2) with EUnsupportedFormat ErrInvalidSchema ;;
  fail_if (len b <? 18) || (len b >? 3000) with ErrInvalidSchema ;;
  b6 <- getU 1 b 6 ;;
  b7 <- getU 1 b 7 ;;
  schemaVersion <- getU 4 b 8 ;;
  fail_if negb (b6 =? 0) || negb (b7 =? 0) || negb (schemaVersion =? 1) with ErrInvalidSchema ;;
  nl <- getU 2 b 12 ;;
  fail_if 14 + nl + 4 >? len b with ErrInvalidSchema ;;
  name <- slice b 14 (14 + nl) ;;
  pk <- getU 2 b (14 + nl) ;;
  n <- getU 2 b (16 + nl) ;;
  '(p, cols) <- decodeColumns (Z.to_nat n) b (18 + nl) 0 pk [] ;;
  fail_if negb (p =? len b) with ErrInvalidSchema ;;
  let s := mkSchema name cols in
  _ <- validateSchema s ;;
  Ok s.

(** ** Index definitions *)

Definition indexMagic : bytes := [Byte.x47; Byte.x44; Byte.x58; Byte.x49]. (* "GDXI" *)

Definition validateIndex (index : Index) (s : TableSchema) : dres unit :=
  fail_if (len (i_name index) =? 0) || (len (i_name index) >? 128) || (len (i_column index) =? 0) with ErrInvalidSchema ;;
  match findColumn s (i_column index) with
  | Some c => fail_if c_primary c with ErrInvalidSchema ;; Ok tt
  | None => Err ErrInvalidSchema
  end.

Definition encodeIndexMetadata (index : Index) : bytes :=
  indexMagic ++ le_put 2 2 ++ [boolByte (i_unique index); b00] ++
  le_put 2 (u16 (len (i_column index))) ++ i_column index.

(** [data[6]&^byte(1)] clears the lowest bit. *)
Definition decodeIndexMetadata (indexName data : bytes) : dres Index :=
  fail_if (len data <? 6) || negb (beqb (take 4 data) indexMagic) with ErrInvalidSchema ;;
  version <- getU 2 data 4 ;;
  fail_if negb (version =? 2) with EUnsupportedFormat ErrInvalidSchema ;;
  fail_if len data <? 10 with ErrInvalidSchema ;;
  d7 <- getU 1 data 7 ;;
  fail_if negb (d7 =? 0) || (len indexName =? 0) || (len indexName >? 128) with ErrInvalidSchema ;;
  nameLength <- getU 2 data 8 ;;
  d6 <- getU 1 data 6 ;;
  fail_if negb (10 + nameLength =? len data) || negb (Z.ldiff d6 1 =? 0) || (nameLength =? 0) || (nameLength >? 128)
    with ErrInvalidSchema ;;
  column <- slice data 10 (len data) ;;
  Ok (mkIndex indexName column (Z.odd d6)).
