(* ===== verification/CodecSpec.v ===== *)
(** * Correctness of the relational encodings

    Escaped components and 64-bit integers preserve order and delimit
    themselves; values, rows, descriptors and index definitions decode to what
    was encoded. *)

From S2P Require Import Prelude Errors Codec.

(** ** Escaped components *)

Lemma bZ_zero b : bZ b = 0 -> b = b00.
Proof. intros H. apply bZ_inj. rewrite H. done. Qed.

(** Comparing two keys that start with an escaped component compares the
    components first. *)
Lemma escape_cmp a : forall b x y,
  bcmp (escape a ++ x) (escape b ++ y) = match bcmp a b with Eq => bcmp x y | c => c end.
Proof.
  unfold escape. induction a as [|c a IH]; intros [|d b] x y; cbn [escape_body app bcmp].
  - done.
  - destruct (decide (d = b00)) as [->|Hd]; [done|]. cbn [app bcmp]. pose proof (bZ_range d).
    assert (bZ d <> 0) by (intros ?%bZ_zero; done). change (bZ b00) with 0.
    by rewrite (proj2 (Z.compare_lt_iff 0 (bZ d))) by lia.
  - destruct (decide (c = b00)) as [->|Hc]; [done|]. cbn [app bcmp]. pose proof (bZ_range c).
    assert (bZ c <> 0) by (intros ?%bZ_zero; done). change (bZ b00) with 0.
    by rewrite (proj2 (Z.compare_gt_iff (bZ c) 0)) by lia.
  - pose proof (bZ_range c). pose proof (bZ_range d).
    destruct (decide (c = b00)) as [->|Hc], (decide (d = b00)) as [->|Hd]; cbn [app bcmp].
    + apply IH.
    + assert (bZ d <> 0) by (intros ?%bZ_zero; done). change (bZ b00) with 0.
      by rewrite (proj2 (Z.compare_lt_iff 0 (bZ d))) by lia.
    + assert (bZ c <> 0) by (intros ?%bZ_zero; done). change (bZ b00) with 0.
      by rewrite (proj2 (Z.compare_gt_iff (bZ c) 0)) by lia.
    + destruct (bZ c ?= bZ d); [apply IH|done..].
Qed.

Lemma escape_inj a b x y : escape a ++ x = escape b ++ y -> a = b /\ x = y.
Proof.
  intros H. pose proof (escape_cmp a b x y) as C. rewrite H, bcmp_refl in C.
  destruct (bcmp a b) eqn:E; try done. apply bcmp_eq in E as ->. by apply app_inv_head in H.
Qed.

Lemma unescape_escape v : unescape (escape_body v) = Some v.
Proof.
  induction v as [|b v IH]; [done|]. cbn [escape_body]. destruct (decide (b = b00)) as [->|Hb]; cbn [unescape].
  - rewrite decide_True by done. rewrite decide_True by done. by rewrite IH.
  - rewrite decide_False by done. by rewrite IH.
Qed.
Lemma unescape_sound d : forall v, unescape d = Some v -> d = escape_body v.
Proof.
  induction d as [d IH] using (induction_ltof1 _ (@length byte)). unfold ltof in IH.
  destruct d as [|b d]; intros v; cbn [unescape]; [by intros [= <-]|].
  destruct (decide (b = b00)) as [->|Hb].
  - destruct d as [|c d]; [done|]. destruct (decide (c = bff)) as [->|]; [|done].
    intros (w & Hw & ->)%fmap_Some. cbn [escape_body]. rewrite decide_True by done.
    do 2 f_equal. apply IH; [cbn; lia|done].
  - intros (w & Hw & ->)%fmap_Some. cbn [escape_body]. rewrite decide_False by done.
    f_equal. apply IH; [cbn; lia|done].
Qed.

(** [decodeEscapedComponent] inverts [escape] exactly. *)
Lemma decodeEscaped_iff d v : decodeEscapedComponent d = Some v <-> d = escape v.
Proof.
  unfold decodeEscapedComponent, escape. split.
  - destruct (len d <? 2) eqn:Hl; [done|]. destruct (beqb _ _) eqn:Hb; [|done]. cbn [orb negb].
    apply beqb_eq in Hb. intros H%unescape_sound. rewrite <- (take_drop (length d - 2) d), Hb. by rewrite H.
  - intros ->. rewrite length_app. cbn [length]. replace (_ + 2 - 2)%nat with (length (escape_body v)) by lia.
    rewrite drop_app_length, take_app_length, beqb_refl, len_app.
    pose proof (len_nonneg (escape_body v)). rewrite (proj2 (Z.ltb_ge _ 2)) by (change (len [b00; b00]) with 2; lia).
    apply unescape_escape.
Qed.

(** ** Big-endian integers *)

Lemma bcmp_app_same a b x y :
  length a = length b -> bcmp (a ++ x) (b ++ y) = match bcmp a b with Eq => bcmp x y | c => c end.
Proof.
  revert b. induction a as [|c a IH]; intros [|d b] Hl; try done. cbn [app bcmp].
  destruct (bZ c ?= bZ d); [apply IH; cbn in Hl; lia|done..].
Qed.

Lemma be_put_cmp n : forall x y, 0 <= x < 256 ^ Z.of_nat n -> 0 <= y < 256 ^ Z.of_nat n ->
  bcmp (be_put n x) (be_put n y) = (x ?= y).
Proof.
  unfold be_put. induction n as [|n IH]; intros x y Hx Hy.
  { cbn in Hx, Hy. assert (x = 0) as -> by lia. assert (y = 0) as -> by lia. done. }
  cbn [le_put rev]. rewrite bcmp_app_same by (by rewrite !length_rev, !length_le_put).
  rewrite Nat2Z.inj_succ, Z.pow_succ_r in Hx, Hy by lia.
  rewrite IH by (split; [apply Z.div_pos; lia|apply Z.div_lt_upper_bound; lia]).
  pose proof (Z.div_mod x 256 ltac:(lia)). pose proof (Z.div_mod y 256 ltac:(lia)).
  pose proof (Z.mod_pos_bound x 256 ltac:(lia)). pose proof (Z.mod_pos_bound y 256 ltac:(lia)).
  destruct (Z.compare_spec (x / 256) (y / 256)) as [E|E|E].
  - cbn [bcmp]. rewrite !bZ_Zb. destruct (Z.compare_spec (x mod 256) (y mod 256)); symmetry;
      [apply Z.compare_eq_iff|apply Z.compare_lt_iff|apply Z.compare_gt_iff]; lia.
  - symmetry. apply Z.compare_lt_iff. lia.
  - symmetry. apply Z.compare_gt_iff. lia.
Qed.

Definition int64 (z : Z) : Prop := - 2 ^ 63 <= z < 2 ^ 63.

(** Flipping the sign bit shifts the signed range onto the unsigned one. *)
Lemma flip_sign u : 0 <= u < 2 ^ 64 -> Z.lxor u signBit = if u <? 2 ^ 63 then u + 2 ^ 63 else u - 2 ^ 63.
Proof.
  intros Hu. unfold signBit. destruct (Z.ltb_spec u (2 ^ 63)).
  - rewrite <- Z.add_nocarry_lxor; [done|]. apply Z.bits_inj'. intros i Hi. rewrite Z.land_spec, Z.pow2_bits_eqb, Z.bits_0 by lia.
    destruct (Z.eqb_spec 63 i) as [<-|]; [|by rewrite andb_false_r].
    rewrite andb_true_r. apply Z.bits_above_log2; [lia|]. destruct (decide (u = 0)) as [->|]; [done|].
    apply Z.log2_lt_pow2; lia.
  - assert (E : u = (u - 2 ^ 63) + 2 ^ 63) by lia.
    assert (N : Z.land (u - 2 ^ 63) (2 ^ 63) = 0).
    { apply Z.bits_inj'. intros i Hi. rewrite Z.land_spec, Z.pow2_bits_eqb, Z.bits_0 by lia.
      destruct (Z.eqb_spec 63 i) as [<-|]; [|by rewrite andb_false_r]. rewrite andb_true_r.
      destruct (decide (u - 2 ^ 63 = 0)) as [->|]; [done|]. apply Z.bits_above_log2; [lia|]. apply Z.log2_lt_pow2; lia. }
    rewrite E at 1. rewrite Z.add_nocarry_lxor by done. by rewrite Z.lxor_assoc, Z.lxor_nilpotent, Z.lxor_0_r.
Qed.

Lemma u64_int64 z : int64 z -> Z.lxor (u64 z) signBit = z + 2 ^ 63.
Proof.
  unfold int64, u64. intros H. rewrite flip_sign by (apply Z.mod_pos_bound; lia).
  destruct (decide (0 <= z)).
  - rewrite Z.mod_small by lia. rewrite (proj2 (Z.ltb_lt _ _)) by lia. done.
  - replace (z mod 2 ^ 64) with (z + 2 ^ 64).
    + rewrite (proj2 (Z.ltb_ge _ _)) by lia. lia.
    + apply (Z.mod_unique z (2 ^ 64) (-1)); lia.
Qed.

Lemma encodeInt_spec z : int64 z -> encodeInt z = be_put 8 (z + 2 ^ 63).
Proof. intros H. unfold encodeInt. by rewrite u64_int64. Qed.
Lemma len_encodeInt z : len (encodeInt z) = 8.
Proof. unfold encodeInt. by rewrite len_be_put. Qed.
Lemma encodeInt_cmp x y : int64 x -> int64 y -> bcmp (encodeInt x) (encodeInt y) = (x ?= y).
Proof.
  intros Hx Hy. rewrite !encodeInt_spec by done. unfold int64 in *.
  rewrite be_put_cmp by (change (256 ^ Z.of_nat 8) with (2 ^ 64); lia).
  destruct (Z.compare_spec x y); [apply Z.compare_eq_iff|apply Z.compare_lt_iff|apply Z.compare_gt_iff]; lia.
Qed.
Lemma decodeInt_encode z : int64 z -> decodeInt (encodeInt z) = z.
Proof.
  intros H. pose proof H as H'. unfold int64 in H'. rewrite encodeInt_spec by done. unfold decodeInt.
  rewrite be_get_put by (change (256 ^ Z.of_nat 8) with (2 ^ 64); lia). rewrite flip_sign by lia. unfold signBit.
  destruct (Z.ltb_spec (z + 2 ^ 63) (2 ^ 63)).
  - rewrite (proj2 (Z.ltb_ge _ _)) by lia. lia.
  - rewrite (proj2 (Z.ltb_lt _ _)) by lia. lia.
Qed.
Lemma decodeInt_range d : len d = 8 -> int64 (decodeInt d).
Proof.
  intros Hl. unfold decodeInt, be_get. pose proof (le_get_bound (rev d)) as Hb.
  replace (len (rev d)) with 8 in Hb by (unfold len in *; by rewrite length_rev).
  change (256 ^ 8) with (2 ^ 64) in Hb. rewrite flip_sign by done. unfold signBit, int64.
  destruct (Z.ltb_spec (le_get (rev d)) (2 ^ 63));
    [rewrite (proj2 (Z.ltb_ge _ _)) by lia|rewrite (proj2 (Z.ltb_lt _ _)) by lia]; lia.
Qed.
Lemma encodeInt_decode d : len d = 8 -> encodeInt (decodeInt d) = d.
Proof.
  intros Hl. rewrite encodeInt_spec by (by apply decodeInt_range).
  assert (Hb : 0 <= be_get d < 2 ^ 64).
  { unfold be_get. pose proof (le_get_bound (rev d)) as Hb.
    replace (len (rev d)) with 8 in Hb by (unfold len in *; by rewrite length_rev). exact Hb. }
  rewrite <- (be_put_get d) at 2. replace (length d) with 8%nat by (unfold len in Hl; lia). f_equal.
  unfold decodeInt. rewrite flip_sign by done. unfold signBit.
  destruct (Z.ltb_spec (be_get d) (2 ^ 63));
    [rewrite (proj2 (Z.ltb_ge _ _)) by lia|rewrite (proj2 (Z.ltb_lt _ _)) by lia]; lia.
Qed.

(** ** Values *)

(** The values a program can pass: an [int64] is within its range. *)
Definition any_ok (v : any) : Prop := match v with AInt64 z => int64 z | _ => True end.

Lemma valid_type_cases t :
  valid_type t = true -> t = ColumnInt64 \/ t = ColumnString \/ t = ColumnBytes \/ t = ColumnBool.
Proof. unfold valid_type, ColumnInt64, ColumnString, ColumnBytes, ColumnBool. intros H. zbool. lia. Qed.

(** The encodings of a column that is not the primary key. *)
Inductive encodes : Column -> any -> bytes -> Prop :=
| enc_nil c : c_nullable c = true -> encodes c ANil [b00]
| enc_int c z : c_type c = ColumnInt64 -> encodes c (AInt64 z) (Byte.x01 :: encodeInt z)
| enc_string c s : c_type c = ColumnString -> encodes c (AString s) (Byte.x02 :: escape s)
| enc_bytes c s : c_type c = ColumnBytes -> encodes c (ABytes s) (Byte.x03 :: escape s)
| enc_bool c b : c_type c = ColumnBool -> encodes c (ABool b) [Byte.x04; boolByte b].

Ltac column_type H :=
  destruct (valid_type_cases _ H) as [H'|[H'|[H'|H']]]; rewrite ?H' in *; cbn in *.

Lemma encodeValue_encodes c v e :
  c_primary c = false -> encodeValue c v = Ok e <-> valid_type (c_type c) = true /\ encodes c v e.
Proof.
  intros Hp. unfold encodeValue. rewrite Hp. split.
  - destruct (valid_type (c_type c)) eqn:Ht; [|done]. cbn [negb]. intros H. split; [done|].
    destruct v; [destruct (c_nullable c) eqn:Hn; [|done]; injection H as <-; by constructor|..];
      destruct (valid_type_cases _ Ht) as [E|[E|[E|E]]]; rewrite E in H; cbn in H; try done;
      injection H as <-; by constructor.
  - intros [Ht H]. rewrite Ht. cbn [negb]. destruct H as [c Hn|c z E|c s E|c s E|c b E]; [by rewrite Hn|..];
      rewrite E; done.
Qed.

Lemma encodes_self c v e v' e' x y :
  encodes c v e -> encodes c v' e' -> any_ok v -> any_ok v' -> e ++ x = e' ++ y -> v = v' /\ x = y.
Proof.
  intros [c1 N1|c1 z1 E1|c1 s1 E1|c1 s1 E1|c1 b1 E1] H2 O1 O2;
    inversion H2 as [c2 N2|c2 z2 E2|c2 s2 E2|c2 s2 E2|c2 b2 E2]; subst; cbn [app b00]; intros H;
    try discriminate H; apply (f_equal tail) in H; cbn [tail] in H.
  - done.
  - apply app_inj_1 in H as [Hi ->]; [|apply Nat2Z.inj; change (len (encodeInt z1) = len (encodeInt z2)); by rewrite !len_encodeInt].
    pose proof (encodeInt_cmp z1 z2 O1 O2) as C. rewrite Hi, bcmp_refl in C. symmetry in C.
    apply Z.compare_eq in C as ->. done.
  - apply escape_inj in H as [-> ->]. done.
  - apply escape_inj in H as [-> ->]. done.
  - pose proof (f_equal tail H) as Hxy. cbn in Hxy. split; [|done]. by destruct b1, b2.
Qed.

Lemma decodeValue_iff c v d :
  c_primary c = false -> valid_type (c_type c) = true ->
  decodeValue c d = Ok v <-> encodes c v d /\ any_ok v.
Proof.
  intros Hp Ht. unfold decodeValue. rewrite Hp, Ht. cbn [negb]. split.
  - destruct d as [|tag d]; [done|]. destruct (decide (tag = b00)) as [->|Htag].
    + destruct (len d =? 0) eqn:El; [|done]. destruct (c_nullable c) eqn:Hn; [|done]. cbn.
      intros [= <-]. zbool. apply len_0 in El as ->. split; [by constructor|done].
    + destruct (bZ tag =? c_type c mod 256) eqn:Eb; [|done]. cbn [negb]. zbool.
      assert (Etag : tag = Zb (c_type c)) by (apply bZ_inj; by rewrite bZ_Zb). clear Eb Htag. subst tag.
      destruct (valid_type_cases _ Ht) as [E|[E|[E|E]]]; rewrite E; cbn [Z.eqb Pos.eqb ColumnInt64 ColumnString ColumnBytes ColumnBool].
      * destruct (len d =? 8) eqn:El; [|done]. cbn [negb]. zbool. intros [= <-].
        split; [|by apply decodeInt_range]. pose proof (enc_int c (decodeInt d) E) as H. by rewrite encodeInt_decode in H.
      * destruct (decodeEscapedComponent d) as [x|] eqn:Ed; [|done]. intros [= <-].
        apply decodeEscaped_iff in Ed as ->. split; [by constructor|done].
      * destruct (decodeEscapedComponent d) as [x|] eqn:Ed; [|done]. intros [= <-].
        apply decodeEscaped_iff in Ed as ->. split; [by constructor|done].
      * destruct d as [|b [|? ?]]; try done. destruct (bZ b >? 1) eqn:Eb; [done|]. zbool. intros [= <-].
        split; [|done]. replace b with (boolByte (bZ b =? 1)) at 2; [by constructor|].
        pose proof (bZ_range b). destruct (Z.eqb_spec (bZ b) 1) as [E1|E1]; apply bZ_inj; cbn; lia.
  - intros [H Hok]. destruct H as [c Hn|c z E|c s E|c s E|c b E].
    + by rewrite Hn, decide_True.
    + rewrite decide_False, E by done. change (bZ Byte.x01 =? ColumnInt64 mod 256) with true.
      change (ColumnInt64 =? ColumnInt64) with true. cbn [negb]. rewrite len_encodeInt. by rewrite decodeInt_encode.
    + rewrite decide_False, E by done. cbn. by rewrite (proj2 (decodeEscaped_iff _ s)).
    + rewrite decide_False, E by done. cbn. by rewrite (proj2 (decodeEscaped_iff _ s)).
    + rewrite decide_False, E by done. by destruct b.
Qed.

(** Primary keys are encoded bare: their order is the order of the bytes. *)
Definition primary_ok (c : Column) : Prop :=
  c_primary c = true /\ (c_type c = ColumnInt64 \/ c_type c = ColumnString).

Lemma encodePrimary c v e :
  primary_ok c -> encodeValue c v = Ok e <->
  (c_type c = ColumnInt64 /\ exists z, v = AInt64 z /\ e = encodeInt z) \/ (c_type c = ColumnString /\ v = AString e).
Proof.
  intros [Hp Ht]. unfold encodeValue. rewrite Hp. split.
  - destruct Ht as [E|E]; rewrite E; cbn; rewrite ?andb_false_r; destruct v; try done; intros [= <-]; eauto.
  - intros [(E & z & -> & ->)|(E & ->)]; rewrite E; done.
Qed.
Lemma decode_encodePrimary c v e :
  primary_ok c -> any_ok v -> encodeValue c v = Ok e -> decodePrimaryKey c e = Ok v.
Proof.
  intros Hc Hv. rewrite encodePrimary by done. unfold decodePrimaryKey.
  intros [(E & z & -> & ->)|(E & ->)]; rewrite E; [|done]. change (ColumnInt64 =? ColumnInt64) with true.
  rewrite len_encodeInt. cbn [andb Z.eqb Pos.eqb]. by rewrite decodeInt_encode.
Qed.
Lemma encode_decodePrimary c v d :
  primary_ok c -> decodePrimaryKey c d = Ok v -> encodeValue c v = Ok d /\ any_ok v.
Proof.
  intros Hc H. rewrite encodePrimary by done. unfold decodePrimaryKey in H. destruct Hc as [Hp [E|E]]; rewrite E in *; cbn in H.
  - destruct (len d =? 8) eqn:El; [|done]. zbool. injection H as <-. split; [|by apply decodeInt_range].
    left. split; [done|]. exists (decodeInt d). by rewrite encodeInt_decode.
  - injection H as <-. split; [by right|done].
Qed.

(** ** Schemas *)

Record column_ok (c : Column) : Prop := {
  co_name : 0 < len (c_name c) <= 128;
  co_type : valid_type (c_type c) = true;
  co_primary : c_primary c = true -> c_nullable c = false /\ (c_type c = ColumnInt64 \/ c_type c = ColumnString);
}.
Fixpoint primaries (cs : list Column) : Z :=
  match cs with [] => 0 | c :: cs => (if c_primary c then 1 else 0) + primaries cs end.
Record schema_ok (s : TableSchema) : Prop := {
  so_name : 0 < len (s_name s) <= 128;
  so_columns : 0 < len (s_columns s) <= 65535;
  so_column : Forall column_ok (s_columns s);
  so_names : NoDup (map c_name (s_columns s));
  so_primary : primaries (s_columns s) = 1;
}.

Lemma primaries_nonneg cs : 0 <= primaries cs.
Proof. induction cs as [|c cs IH]; cbn; [lia|]. destruct (c_primary c); lia. Qed.

Lemma validateColumns_iff cs : forall seen p q,
  validateColumns cs seen p = Ok q <->
  Forall column_ok cs /\ NoDup (map c_name cs) /\ (forall c, c ∈ cs -> c_name c ∉ seen) /\ q = p + primaries cs.
Proof.
  induction cs as [|c cs IH]; intros seen p q; cbn [validateColumns primaries map].
  { rewrite Z.add_0_r. split; [intros [= ->]; split_and!; [constructor|constructor|by intros ? ?%not_elem_of_nil|done]|].
    by intros (_ & _ & _ & ->). }
  rewrite Forall_cons, NoDup_cons.
  assert (Hstep : forall p', validateColumns cs ({[c_name c]} ∪ seen) p' = Ok q <->
    Forall column_ok cs /\ (c_name c ∉ map c_name cs /\ NoDup (map c_name cs)) /\ (forall d, d ∈ cs -> c_name d ∉ seen) /\ q = p' + primaries cs).
  { intros p'. rewrite IH. split; intros (H1 & H2 & H3 & H4); (split; [done|]).
    - split; [|split; [|done]].
      + split; [|done]. intros (d & Hd & Hin)%list_elem_of_fmap. apply (H3 d Hin). rewrite <- Hd. set_solver.
      + intros d Hd Hs. apply (H3 d Hd). set_solver.
    - split; [by apply H2|]. split; [|done]. intros d Hd [He%elem_of_singleton|Hs]%elem_of_union.
      + destruct H2 as [H2 _]. apply H2, list_elem_of_fmap. exists d. by rewrite He.
      + by apply (H3 d Hd). }
  assert (Hall : (forall d, d ∈ c :: cs -> c_name d ∉ seen) <-> c_name c ∉ seen /\ forall d, d ∈ cs -> c_name d ∉ seen).
  { split; [intros H; split; [apply H; left|intros d Hd; apply H; by right]|].
    intros [H1 H2] d [->|Hd]%elem_of_cons; auto. }
  rewrite Hall. clear Hall IH.
  destruct (len (c_name c) =? 0) eqn:E1; [split; [done|]; zbool; intros ([[? _ _] _] & _); lia|].
  destruct (len (c_name c) >? 128) eqn:E2; [split; [done|]; zbool; intros ([[? _ _] _] & _); lia|].
  destruct (bool_decide_reflect (c_name c ∈ seen)) as [Hs|Hs]; [split; [done|]; intros (_ & _ & [? _] & _); done|].
  destruct (valid_type (c_type c)) eqn:Et; [|split; [done|]; intros ([[_ ? _] _] & _); congruence].
  cbn [orb negb]. zbool. pose proof (len_nonneg (c_name c)). destruct (c_primary c) eqn:Ep.
  - destruct (c_nullable c || _) eqn:Eb.
    + split; [done|]. intros ([[_ _ Hp] _] & _). destruct (Hp Ep) as [Hn Ht]. rewrite Hn in Eb.
      destruct Ht as [Ht|Ht]; rewrite Ht in Eb; done.
    + rewrite Hstep. apply orb_false_iff in Eb as [Hn Ht].
      assert (column_ok c).
      { split; [lia|done|]. intros _. split; [done|]. apply andb_false_iff in Ht as [Ht|Ht]; zbool; auto. }
      split; [intros (?&?&?&->); split_and!; try done; try lia; tauto|].
      intros ((?&?)&?&(_&?)&->). split_and!; try done; try lia; tauto.
  - rewrite Hstep. assert (column_ok c) by (split; [lia|done|congruence]).
    split; [intros (?&?&?&->); split_and!; try done; try lia; tauto|].
    intros ((?&?)&?&(_&?)&->). split_and!; try done; try lia; tauto.
Qed.

Lemma validateColumns_total cs : forall seen p, gives (validateColumns cs seen p) (fun _ => True).
Proof.
  induction cs as [|c cs IH]; intros seen p; cbn [validateColumns]; [done|].
  apply gives_guard. intros _. destruct (c_primary c); [apply gives_guard; intros _|]; apply IH.
Qed.

Lemma validateSchema_iff s : validateSchema s = Ok tt <-> schema_ok s.
Proof.
  unfold validateSchema. pose proof (len_nonneg (s_name s)). pose proof (len_nonneg (s_columns s)).
  destruct (_ || _) eqn:Eg.
  { split; [done|]. intros [? ? _ _ _]. rewrite !orb_true_iff in Eg. destruct Eg as [[[Eg|Eg]|Eg]|Eg]; zbool; lia. }
  zbool. split.
  - destruct (validateColumns _ _ _) as [q| | |] eqn:E; try done. apply validateColumns_iff in E as (Hc & Hd & _ & ->).
    destruct (_ =? 1) eqn:E1; [|done]. zbool. intros _. split; try done; lia.
  - intros [? ? ? ? ?]. rewrite (proj2 (validateColumns_iff _ ∅ 0 1)); [done|].
    split_and!; try done.
Qed.
Lemma validateSchema_total s : gives (validateSchema s) (fun _ => schema_ok s).
Proof.
  destruct (validateSchema s) as [[]|e| |] eqn:E; [by apply validateSchema_iff|done|exfalso..]; revert E; unfold validateSchema;
    (destruct (_ || _); [done|]); pose proof (validateColumns_total (s_columns s) ∅ 0) as T;
    destruct (validateColumns _ _ _); try done; by destruct (_ =? 1).
Qed.
Lemma schema_valid s : schema_ok s -> is_ok (validateSchema s) = true.
Proof. intros H. by rewrite (proj2 (validateSchema_iff s) H). Qed.
Lemma schema_valid_inv s : is_ok (validateSchema s) = true -> schema_ok s.
Proof. intros H. apply validateSchema_iff. by destruct (validateSchema s) as [[]| | |]. Qed.

(** ** Rows *)

Definition row_ok (r : row) : Prop := forall name v, r !! name = Some v -> any_ok v.
Lemma row_get_ok r name : row_ok r -> any_ok (row_get r name).
Proof. intros H. unfold row_get. destruct (r !! name) eqn:E; [by apply (H name)|done]. Qed.

(** The decoded row: every column that is not the primary key, missing ones as
    nil. *)
Fixpoint cells_row (cs : list Column) (r acc : row) : row :=
  match cs with
  | [] => acc
  | c :: cs => cells_row cs r (if c_primary c then acc else <[c_name c := row_get r (c_name c)]> acc)
  end.
Fixpoint others (cs : list Column) : nat :=
  match cs with [] => O | c :: cs => if c_primary c then others cs else S (others cs) end.

Lemma others_primaries cs : Z.of_nat (others cs) + primaries cs = len cs.
Proof. induction cs as [|c cs IH]; [done|]. rewrite len_cons. cbn [others primaries]. destruct (c_primary c); lia. Qed.

Lemma decodeCells_encoded s data r cs : forall pre pos lastID cells acc,
  schema_ok s -> row_ok r -> len data <= 3000 -> s_columns s = pre ++ cs -> lastID <= len pre ->
  encodeCells cs (len pre) r = Ok cells -> reads data pos cells ->
  decodeCells (others cs) s data pos lastID acc = Ok (pos + len cells, cells_row cs r acc).
Proof.
  induction cs as [|c cs IH]; intros pre pos lastID cells acc Hs Hr Hd Hcs Hlast He R; cbn [encodeCells others cells_row decodeCells] in *.
  { injection He as <-. by rewrite Z.add_0_r. }
  assert (Hnext : len (pre ++ [c]) = len pre + 1) by (by rewrite len_app).
  assert (Hcs' : s_columns s = (pre ++ [c]) ++ cs) by (by rewrite <- app_assoc).
  pose proof (len_nonneg pre). pose proof (len_nonneg cs). pose proof (so_columns _ Hs) as Hn.
  rewrite Hcs, len_app, len_cons in Hn.
  destruct (c_primary c) eqn:Ep.
  { apply (IH (pre ++ [c])); rewrite ?Hnext; try done; lia. }
  destruct (encodeValue c (row_get r (c_name c))) as [ev| | |] eqn:Ev; try done.
  destruct (encodeCells cs (len pre + 1) r) as [rest| | |] eqn:Er; try done. apply ok_inj in He. subst cells.
  pose proof (len_nonneg ev). pose proof (len_nonneg rest).
  apply reads_app in R as [R1 R]. apply reads_app in R as [R2 R]. apply reads_app in R as [R3 R].
  apply reads_app in R as [R4 R]. rewrite !len_le_put in *. change (len [b00; b00]) with 2 in *.
  change (Z.of_nat 2) with 2 in *. change (Z.of_nat 4) with 4 in *.
  replace (pos + 2 + 2) with (pos + 4) in * by lia. replace (pos + 4 + 4) with (pos + 8) in * by lia.
  pose proof R4 as (Hp4 & Hl4 & _). rewrite u16_small in R1 by lia. destruct R1 as (Hp0 & R1).
  cbn [decodeCells]. rewrite Z.gtb_ltb, (proj2 (Z.ltb_ge _ _)) by lia.
  rewrite (getU_reads 2 _ _ (len pre + 1)); [|by split|change (256 ^ Z.of_nat 2) with 65536; lia].
  rewrite (byte_reads _ _ _ _ R2), (byte_reads _ _ b00 []) by (replace (pos + 3) with (pos + 2 + 1) by lia; by apply reads_tail in R2).
  rewrite (getU_reads 4 _ _ (len ev)); [|done|change (256 ^ Z.of_nat 4) with (2 ^ 32); lia].
  change (bZ b00 =? 0) with true. cbn [negb orb].
  rewrite (proj2 (Z.leb_gt _ _)), Z.gtb_ltb, (proj2 (Z.ltb_ge _ _)) by lia. cbn [orb].
  rewrite Hcs, len_app, len_cons, u16_small by lia. rewrite Z.gtb_ltb, (proj2 (Z.ltb_ge _ _)) by lia.
  replace (Z.to_nat (len pre + 1 - 1)) with (length pre) by (unfold len; lia).
  rewrite list_lookup_middle by done. rewrite Ep. rewrite (slice_reads _ _ _ R4).
  pose proof (so_column _ Hs) as Hco. rewrite Hcs, Forall_app, Forall_cons in Hco. destruct Hco as (_ & Hc & _).
  assert (Hdv : decodeValue c ev = Ok (row_get r (c_name c))).
  { apply decodeValue_iff; [done|by apply co_type|]. apply encodeValue_encodes in Ev as [_ Ev]; [|done].
    split; [done|by apply row_get_ok]. }
  rewrite Hdv. rewrite (IH (pre ++ [c]) _ _ rest); try done.
  - rewrite !len_app, !len_le_put. change (len [b00; b00]) with 2. f_equal. f_equal. lia.
  - rewrite Hnext. lia.
  - by rewrite Hnext.
Qed.

Lemma checkPresent_pk cs r : forall pk v,
  checkPresent cs r pk = Ok v ->
  (primaries cs = 0 -> v = pk) /\ (primaries cs = 1 -> v = row_get r (c_name (findPrimary_in cs))) /\
  Forall (fun c => c_nullable c = false -> is_Some (r !! c_name c)) cs.
Proof.
  induction cs as [|c cs IH]; intros pk v; cbn [checkPresent primaries findPrimary_in]; [intros [= ->]; done|].
  destruct (_ && _) eqn:Eg; [done|]. intros H. apply IH in H as (H0 & H1 & H2). pose proof (primaries_nonneg cs).
  split_and!.
  - intros Hp. destruct (c_primary c); [lia|]. by apply H0.
  - intros Hp. destruct (c_primary c); [apply H0; lia|apply H1; lia].
  - constructor; [|done]. intros Hn. rewrite Hn, andb_true_r in Eg. apply negb_false_iff in Eg. by apply bool_decide_eq_true in Eg.
Qed.

Lemma findPrimary_spec s :
  schema_ok s -> primary_ok (findPrimary s) /\ findPrimary s ∈ s_columns s.
Proof.
  intros [_ _ Hc _ Hp]. unfold findPrimary. induction (s_columns s) as [|c cs IH]; [done|].
  apply Forall_cons in Hc as [Hc Hcs]. cbn [primaries findPrimary_in] in *. destruct (c_primary c) eqn:Ep.
  - split; [|left]. split; [done|]. by apply (co_primary _ Hc).
  - destruct IH as [? ?]; [done|lia|]. split; [done|by right].
Qed.

(** What [encodeRow] writes. *)
Record encoded_row (s : TableSchema) (r : row) (key val : bytes) : Prop := {
  er_schema : schema_ok s;
  er_known : forall name, is_Some (r !! name) -> is_Some (findColumn s name);
  er_present : Forall (fun c => c_nullable c = false -> is_Some (r !! c_name c)) (s_columns s);
  er_pk : exists enc, encodeValue (findPrimary s) (row_get r (c_name (findPrimary s))) = Ok enc /\
    key = rowPrefix (s_name s) ++ enc;
  er_key : len key <= 1000;
  er_val : exists cells, encodeCells (s_columns s) 0 r = Ok cells /\
    val = rowMagic ++ le_put 2 2 ++ le_put 4 1 ++ le_put 2 (len (s_columns s) - 1) ++ cells;
  er_size : len val <= 3000;
}.

Lemma encodeRow_inv s r key val : encodeRow s r = Ok (key, val) -> encoded_row s r key val.
Proof.
  unfold encodeRow. destruct (_ || _) eqn:E1; [done|]. apply orb_false_iff in E1 as [_ E1].
  apply negb_false_iff, schema_valid_inv in E1. destruct (unknownColumn s r) eqn:E2; [done|].
  destruct (checkPresent _ _ _) as [pk| | |] eqn:E3; try done. apply checkPresent_pk in E3 as (_ & E3 & E3').
  rewrite (E3 (so_primary _ E1)). destruct (encodeValue _ _) as [enc| | |] eqn:E4; try done.
  destruct (len _ >? 1000) eqn:E5; [done|]. destruct (encodeCells _ _ _) as [cells| | |] eqn:E6; try done.
  destruct (_ >? 3000) eqn:E7; [done|]. intros [= <- <-]. zbool. pose proof (so_columns _ E1).
  rewrite u16_small in * by lia. split; try done; [|by exists enc|by exists cells].
  intros name [v Hv]. unfold unknownColumn in E2. apply not_true_iff_false in E2.
  destruct (bool_decide_reflect (is_Some (findColumn s name))) as [|Hn]; [done|]. exfalso. apply E2.
  apply existsb_exists. exists (name, v). split; [by apply list_elem_of_In, elem_of_map_to_list|]. cbn.
  by rewrite bool_decide_false.
Qed.

(** Decoding what was encoded gives the cells; the key gives the primary key. *)
Lemma decodeRow_encoded s r key val :
  encoded_row s r key val -> row_ok r ->
  decodeRow s val = Ok (cells_row (s_columns s) r ∅) /\ hasPrefix key (rowPrefix (s_name s)) = true /\
  decodePrimaryKey (findPrimary s) (drop (length (rowPrefix (s_name s))) key) =
    Ok (row_get r (c_name (findPrimary s))).
Proof.
  intros [Hs _ _ (enc & He & ->) Hk (cells & Hc & ->) Hsz] Hr. split; [|split].
  - pose proof (so_columns _ Hs) as Hn. pose proof (len_nonneg cells).
    set (data := rowMagic ++ _) in *. pose proof (reads_all data) as R. unfold data in R at 2.
    assert (Hl : len data = 12 + len cells).
    { unfold data. rewrite !len_app, !len_le_put. change (len rowMagic) with 4. lia. }
    apply reads_app in R as [R0 R]. apply reads_app in R as [R1 R]. apply reads_app in R as [R2 R].
    apply reads_app in R as [R3 R]. rewrite !len_le_put in *. change (len rowMagic) with 4 in *.
    change (0 + 4) with 4 in *. change (4 + Z.of_nat 2) with 6 in *. change (6 + Z.of_nat 4) with 10 in *.
    change (10 + Z.of_nat 2) with 12 in *.
    unfold decodeRow. change (take 4 data) with rowMagic. rewrite beqb_refl. zdecide.
    rewrite (getU_reads 2 _ _ 2 R1) by (cbn; lia). rewrite schema_valid by done. zdecide.
    rewrite (getU_reads 4 _ _ 1 R2) by (cbn; lia). cbn [negb Z.eqb Pos.eqb].
    rewrite (getU_reads 2 _ _ _ R3) by (change (256 ^ Z.of_nat 2) with 65536; lia). rewrite Z.eqb_refl. cbn [negb].
    replace (Z.to_nat (len (s_columns s) - 1)) with (others (s_columns s))
      by (pose proof (others_primaries (s_columns s)); rewrite (so_primary _ Hs) in *; lia).
    rewrite (decodeCells_encoded s data r (s_columns s) [] 12 0 cells ∅); try done.
    rewrite <- Hl, Z.eqb_refl. done.
  - unfold hasPrefix. rewrite len_app, take_app_length, beqb_refl. pose proof (len_nonneg enc). zdecide. done.
  - rewrite drop_app_length. apply decode_encodePrimary; [by apply findPrimary_spec|by apply row_get_ok|done].
Qed.

(** ** Table descriptors *)

Lemma primaryID_none cs : forall i pk, primaries cs = 0 -> primaryID cs i pk = pk.
Proof.
  induction cs as [|c cs IH]; intros i pk; cbn [primaries primaryID]; [done|]. pose proof (primaries_nonneg cs).
  destruct (c_primary c); intros; [lia|]. apply IH. lia.
Qed.

(** The id in the descriptor is the position of the primary column, from 1. *)
Lemma primaryID_is cs : forall i pk k c,
  0 <= i -> i + len cs <= 65535 -> primaries cs = 1 -> cs !! k = Some c ->
  (i + Z.of_nat k + 1 =? primaryID cs i pk) = c_primary c /\ 0 <= primaryID cs i pk <= 65535 /\ i < primaryID cs i pk.
Proof.
  induction cs as [|d cs IH]; intros i pk k c Hi Hl Hp Hk; [done|]. rewrite len_cons in Hl.
  pose proof (len_nonneg cs). cbn [primaries primaryID] in *. pose proof (primaries_nonneg cs).
  destruct (c_primary d) eqn:Ed.
  - rewrite primaryID_none, u16_small by lia. split; [|lia]. destruct k as [|k]; cbn in Hk.
    + injection Hk as <-. rewrite Ed. zdecide. done.
    + assert (c_primary c = false) as ->; [|zdecide; done].
      clear -Hk Hp. assert (Hp' : primaries cs = 0) by lia. clear Hp. revert k Hk.
      induction cs as [|e cs IH]; intros k Hk; [done|]. cbn [primaries] in Hp'. pose proof (primaries_nonneg cs).
      destruct (c_primary e) eqn:Ee; [lia|]. destruct k; cbn in Hk; [congruence|]. apply (IH Hp' k Hk).
  - destruct k as [|k]; cbn in Hk.
    + injection Hk as <-. destruct cs as [|e cs]; [done|].
      destruct (IH (i + 1) pk 0%nat e) as (_ & H1 & H2); [lia..|done|]. rewrite Ed. split; [zdecide; done|lia].
    + destruct (IH (i + 1) pk k c) as (<- & H1 & H2); [lia..|done|]. split; [f_equal; lia|lia].
Qed.

Lemma decodeColumns_encoded data pk cs : forall pre pos,
  Forall column_ok cs -> len data <= 3000 -> len pre + len cs <= 65535 ->
  (forall k c, cs !! k = Some c -> (len pre + Z.of_nat k + 1 =? pk) = c_primary c) ->
  reads data pos (encodeColumns cs (len pre)) ->
  decodeColumns (length cs) data pos (len pre) pk pre = Ok (pos + len (encodeColumns cs (len pre)), pre ++ cs).
Proof.
  induction cs as [|c cs IH]; intros pre pos Hc Hd Hn Hpk R; cbn [encodeColumns decodeColumns length] in *.
  { by rewrite Z.add_0_r, app_nil_r. }
  apply Forall_cons in Hc as [Hc Hcs]. rewrite len_cons in Hn. pose proof (len_nonneg pre). pose proof (len_nonneg cs).
  pose proof (co_name _ Hc) as Hname. rewrite !u16_small in * by lia.
  set (rest := encodeColumns cs _) in *. pose proof (len_nonneg rest).
  apply reads_app in R as [R1 R]. apply reads_app in R as [R2 R]. apply reads_app in R as [R3 R].
  apply reads_app in R as [R4 R]. rewrite !len_le_put in *. change (len [_; _]) with 2 in *.
  change (Z.of_nat 2) with 2 in *.
  replace (pos + 2 + 2) with (pos + 4) in * by lia. replace (pos + 4 + 2) with (pos + 6) in * by lia.
  pose proof R4 as (Hp4 & Hl4 & _). destruct R1 as (Hp0 & R1).
  rewrite Z.gtb_ltb, (proj2 (Z.ltb_ge _ _)) by lia.
  rewrite (getU_reads 2 _ _ (len pre + 1)); [|by split|change (256 ^ Z.of_nat 2) with 65536; lia].
  rewrite (byte_reads _ _ _ _ R2).
  rewrite (byte_reads _ _ (boolByte (c_nullable c)) []) by (replace (pos + 3) with (pos + 2 + 1) by lia; by apply reads_tail in R2).
  rewrite (getU_reads 2 _ _ (len (c_name c))); [|done|change (256 ^ Z.of_nat 2) with 65536; lia].
  pose proof (Hpk 0%nat c eq_refl) as Hid. change (Z.of_nat 0) with 0 in Hid. rewrite Z.add_0_r in Hid. rewrite Hid.
  assert (Hflag : (bZ (boolByte (c_nullable c)) >? 1) = false /\
    (c_primary c && negb (bZ (boolByte (c_nullable c)) =? 0)) = false /\
    (Z.odd (bZ (boolByte (c_nullable c))) && negb (c_primary c)) = c_nullable c).
  { destruct (c_primary c) eqn:Ep; [destruct (co_primary _ Hc Ep) as [-> _]; done|]. by destruct (c_nullable c). }
  destruct Hflag as (-> & -> & ->). rewrite Z.eqb_refl. cbn [negb orb].
  rewrite Z.gtb_ltb, (proj2 (Z.ltb_ge _ _)) by lia. rewrite (slice_reads _ _ _ R4).
  assert (Ht : bZ (Zb (c_type c)) = c_type c).
  { rewrite bZ_Zb. pose proof (co_type _ Hc) as Ht. unfold valid_type, ColumnInt64, ColumnBool in Ht.
    apply andb_true_iff in Ht as [Ht1 Ht2]. zbool. apply Z.mod_small. lia. }
  rewrite Ht. replace (mkColumn _ _ _ _) with c by (by destruct c).
  assert (Hnext : len (pre ++ [c]) = len pre + 1) by (by rewrite len_app).
  pose proof (IH (pre ++ [c])) as IHc. rewrite Hnext in IHc. fold rest in IHc. rewrite IHc; try done; try lia.
  - rewrite <- app_assoc, !len_app, !len_le_put. change (len [_; _]) with 2. cbn [app]. f_equal. f_equal. lia.
  - intros k d Hk. rewrite <- (Hpk (S k) d Hk). f_equal. lia.
Qed.

Lemma decodeDescriptor_encoded s :
  schema_ok s -> len (encodeDescriptor s) <= 3000 -> decodeDescriptor (encodeDescriptor s) = Ok s.
Proof.
  intros Hs Hsz. pose proof (so_columns _ Hs) as Hn. pose proof (so_name _ Hs) as Hname.
  unfold encodeDescriptor in *. rewrite !u16_small in * by lia.
  set (cols := encodeColumns (s_columns s) 0) in *. set (pk := primaryID (s_columns s) 0 0) in *.
  pose proof (len_nonneg cols). set (data := descriptorMagic ++ _) in *.
  pose proof (reads_all data) as R. unfold data in R at 2.
  assert (Hl : len data = 18 + len (s_name s) + len cols).
  { unfold data. rewrite !len_app, !len_le_put. change (len descriptorMagic) with 4. change (len [b00; b00]) with 2. lia. }
  apply reads_app in R as [R0 R]. apply reads_app in R as [R1 R]. apply reads_app in R as [R2 R].
  apply reads_app in R as [R3 R]. apply reads_app in R as [R4 R]. apply reads_app in R as [R5 R].
  apply reads_app in R as [R6 R]. apply reads_app in R as [R7 R]. rewrite !len_le_put in *.
  change (len descriptorMagic) with 4 in *. change (len [b00; b00]) with 2 in *.
  change (0 + 4) with 4 in *. change (4 + Z.of_nat 2) with 6 in *. change (6 + 2) with 8 in *.
  change (8 + Z.of_nat 4) with 12 in *. change (12 + Z.of_nat 2) with 14 in *.
  change (Z.of_nat 2) with 2 in *. replace (14 + len (s_name s) + 2) with (16 + len (s_name s)) in * by lia.
  replace (16 + len (s_name s) + 2) with (18 + len (s_name s)) in * by lia.
  assert (Hpk : forall k c, s_columns s !! k = Some c -> (0 + Z.of_nat k + 1 =? pk) = c_primary c).
  { intros k c Hk. apply (primaryID_is _ 0 0 k c); [lia..|by apply so_primary|done]. }
  assert (Hpkb : 0 <= pk <= 65535).
  { destruct (s_columns s) as [|c cs] eqn:Ec; [change (len []) with 0 in Hn; lia|].
    destruct (primaryID_is (c :: cs) 0 0 0%nat c) as (_ & Hb & _); [lia..| |done|exact Hb].
    rewrite <- Ec. by apply so_primary. }
  unfold decodeDescriptor. change (take 4 data) with descriptorMagic. rewrite beqb_refl. zdecide.
  rewrite (getU_reads 2 _ _ 2 R1) by (cbn; lia). cbn [negb orb Z.eqb Pos.eqb]. zdecide.
  rewrite (byte_reads _ _ _ _ R2), (byte_reads _ _ b00 []) by (by apply reads_tail in R2).
  rewrite (getU_reads 4 _ _ 1 R3) by (cbn; lia). cbn [negb orb Z.eqb Pos.eqb bZ].
  rewrite (getU_reads 2 _ _ _ R4) by (change (256 ^ Z.of_nat 2) with 65536; lia).
  change (negb (bZ b00 =? 0)) with false. cbn [orb]. zdecide.
  rewrite (slice_reads _ _ _ R5). rewrite (getU_reads 2 _ _ _ R6) by (change (256 ^ Z.of_nat 2) with 65536; lia).
  rewrite (getU_reads 2 _ _ _ R7) by (change (256 ^ Z.of_nat 2) with 65536; lia).
  replace (Z.to_nat (len (s_columns s))) with (length (s_columns s)) by (unfold len; lia).
  pose proof (decodeColumns_encoded data pk (s_columns s) [] (18 + len (s_name s))) as Hdec.
  change (len (@nil Column)) with 0 in Hdec. fold cols in Hdec.
  rewrite Hdec; [|by apply so_column|done|lia|done|done]. rewrite <- Hl, Z.eqb_refl. cbn [negb app].
  replace (mkSchema _ _) with s by (by destruct s). rewrite (proj2 (validateSchema_iff s) Hs). done.
Qed.

(** ** Index definitions *)

Lemma decodeIndexMetadata_encoded index :
  0 < len (i_name index) <= 128 -> 0 < len (i_column index) <= 128 ->
  decodeIndexMetadata (i_name index) (encodeIndexMetadata index) = Ok index.
Proof.
  intros Hn Hc. unfold encodeIndexMetadata. rewrite u16_small by lia.
  set (data := indexMagic ++ _) in *. pose proof (reads_all data) as R. unfold data in R at 2.
  assert (Hl : len data = 10 + len (i_column index)).
  { unfold data. rewrite !len_app, !len_le_put. change (len indexMagic) with 4. change (len [_; _]) with 2. lia. }
  apply reads_app in R as [R0 R]. apply reads_app in R as [R1 R]. apply reads_app in R as [R2 R].
  apply reads_app in R as [R3 R]. rewrite !len_le_put in *.
  change (len indexMagic) with 4 in *. change (len [_; _]) with 2 in *.
  change (0 + 4) with 4 in *. change (4 + Z.of_nat 2) with 6 in *. change (6 + 2) with 8 in *. change (8 + Z.of_nat 2) with 10 in *.
  unfold decodeIndexMetadata. change (take 4 data) with indexMagic. rewrite beqb_refl. zdecide.
  rewrite (getU_reads 2 _ _ 2 R1) by (cbn; lia). cbn [negb orb Z.eqb Pos.eqb]. zdecide.
  rewrite (byte_reads data 7 b00 []) by (by apply reads_tail in R2). change (negb (bZ b00 =? 0)) with false. zdecide.
  cbn [orb]. rewrite (getU_reads 2 _ _ _ R3) by (change (256 ^ Z.of_nat 2) with 65536; lia).
  rewrite (byte_reads _ _ _ _ R2).
  assert (Hb : Z.ldiff (bZ (boolByte (i_unique index))) 1 = 0 /\ Z.odd (bZ (boolByte (i_unique index))) = i_unique index)
    by (by destruct (i_unique index)).
  destruct Hb as [-> ->]. rewrite Hl, !Z.eqb_refl. zdecide. cbn [negb orb].
  rewrite (slice_reads _ _ _ R). by destruct index.
Qed.

(** ** Prefix ranges *)

Lemma hasPrefix_iff k p : hasPrefix k p = true <-> exists t, k = p ++ t.
Proof.
  unfold hasPrefix. rewrite andb_true_iff, Z.leb_le, beqb_eq. split.
  - intros [_ H]. exists (drop (length p) k). rewrite <- H at 1. by rewrite take_drop.
  - intros [t ->]. rewrite len_app, take_app_length. pose proof (len_nonneg t). split; [lia|done].
Qed.
Lemma hasPrefix_app p t : hasPrefix (p ++ t) p = true.
Proof. apply hasPrefix_iff. by exists t. Qed.

Lemma prefixEnd_rev_some rev : forall b, b ∈ rev -> b <> bff -> exists c t k,
  rev = replicate k bff ++ c :: t /\ c <> bff /\ prefixEnd_rev rev = Some (Zb (bZ c + 1) :: t).
Proof.
  induction rev as [|c rev IH]; intros b Hb Hne; [by apply not_elem_of_nil in Hb|]. cbn [prefixEnd_rev].
  destruct (decide (c = bff)) as [->|Hc]; [|by exists c, rev, 0%nat].
  apply elem_of_cons in Hb as [->|Hb]; [done|]. destruct (IH b Hb Hne) as (d & t & k & -> & Hd & E).
  by exists d, t, (S k).
Qed.

(** A prefix with a byte below 0xff bounds exactly the keys that start with it
    and those up to its end. *)
Lemma prefixEnd_above p b : b ∈ p -> b <> bff -> forall t, blt (p ++ t) (prefixEnd p).
Proof.
  intros Hb Hne t. unfold prefixEnd. destruct (prefixEnd_rev_some (reverse p) b) as (c & u & k & E & Hc & ->);
    [by apply elem_of_reverse|done|].
  assert (Hp : p = reverse u ++ [c] ++ replicate k bff).
  { rewrite <- (reverse_involutive p), E, reverse_app, reverse_cons, reverse_replicate, <- app_assoc. done. }
  rewrite reverse_cons, Hp, <- !app_assoc. unfold blt. rewrite bcmp_app. cbn [app bcmp]. rewrite bZ_Zb.
  pose proof (bZ_range c). assert (bZ c <> 255) by (intros E'; apply Hc, bZ_inj; by rewrite E').
  rewrite Z.mod_small by lia. by rewrite (proj2 (Z.compare_lt_iff _ _)) by lia.
Qed.

(** ** The decoded row, column by column *)

Lemma cells_row_out cs r : forall acc name, name ∉ map c_name cs -> cells_row cs r acc !! name = acc !! name.
Proof.
  induction cs as [|c cs IH]; intros acc name Hn; cbn [cells_row]; [done|]. cbn in Hn.
  rewrite IH by set_solver. destruct (c_primary c); [done|]. apply lookup_insert_ne. set_solver.
Qed.
Lemma cells_row_lookup cs r c : forall acc,
  NoDup (map c_name cs) -> c ∈ cs ->
  cells_row cs r acc !! c_name c = if c_primary c then acc !! c_name c else Some (row_get r (c_name c)).
Proof.
  induction cs as [|d cs IH]; intros acc Hd Hc; [by apply not_elem_of_nil in Hc|]. cbn [cells_row map] in *.
  apply NoDup_cons in Hd as [Hd Hds]. apply elem_of_cons in Hc as [->|Hc].
  - rewrite cells_row_out by done. destruct (c_primary d); [done|]. apply lookup_insert_eq.
  - rewrite IH by done. destruct (c_primary c); [|done]. destruct (c_primary d); [done|].
    apply lookup_insert_ne. intros E. apply Hd. rewrite E. apply list_elem_of_fmap. eauto.
Qed.

(** ** Results

    Order preservation and round trips of keys, values, rows, descriptors and
    index definitions. *)

(** The key encodings preserve order: integer primary keys compare as the
    integers, string primary keys as the strings, and a key made of an escaped
    component and a rest compares by the component first, whatever bytes the
    component contains; so no two components are prefixes of one another. *)
Theorem key_order c v w ev ew a b x y :
  primary_ok c -> any_ok v -> any_ok w -> encodeValue c v = Ok ev -> encodeValue c w = Ok ew ->
  bcmp ev ew = match v, w with AInt64 p, AInt64 q => (p ?= q) | AString p, AString q => bcmp p q | _, _ => Eq end /\
  bcmp (escape a ++ x) (escape b ++ y) = match bcmp a b with Eq => bcmp x y | o => o end /\
  (escape a ++ x = escape b ++ y -> a = b /\ x = y).
Proof.
  intros Hc Hv Hw Ev Ew. split_and!; [|apply escape_cmp|apply escape_inj].
  apply encodePrimary in Ev, Ew; [|done..].
  destruct Ev as [(T & p & -> & ->)|(T & ->)], Ew as [(T' & q & -> & ->)|(T' & ->)]; rewrite T in T'; try discriminate T'; [|done].
  by apply encodeInt_cmp.
Qed.

(** Column values round trip and are self-delimiting: [decodeValue] accepts
    exactly the encodings and returns the value encoded, and a value's encoding
    is never a proper prefix of another's. *)
Theorem value_roundtrip c v e v' e' x y :
  c_primary c = false -> valid_type (c_type c) = true -> any_ok v -> any_ok v' ->
  (decodeValue c e = Ok v <-> encodeValue c v = Ok e) /\
  (encodeValue c v = Ok e -> encodeValue c v' = Ok e' -> e ++ x = e' ++ y -> v = v' /\ x = y).
Proof.
  intros Hp Ht Hv Hv'. rewrite decodeValue_iff, !encodeValue_encodes by done. split; [tauto|].
  intros [_ H1] [_ H2]. by apply (encodes_self c v e v' e').
Qed.

(** C37: rows round trip: what [encodeRow] stores, [decodeRow] reads back column
    by column (a missing nullable column as nil), the key carries the primary
    key, and key and value respect the store's limits. *)
Theorem row_roundtrip s r key val :
  row_ok r -> encodeRow s r = Ok (key, val) ->
  exists r', decodeRow s val = Ok r' /\ len key <= 1000 /\ len val <= 3000 /\
    (forall c, c ∈ s_columns s -> c_primary c = false -> r' !! c_name c = Some (row_get r (c_name c))) /\
    hasPrefix key (rowPrefix (s_name s)) = true /\
    decodePrimaryKey (findPrimary s) (drop (length (rowPrefix (s_name s))) key) = Ok (row_get r (c_name (findPrimary s))).
Proof.
  intros Hr He. apply encodeRow_inv in He. destruct (decodeRow_encoded s r key val He Hr) as (Hdec & Hpre & Hpk).
  eexists. split_and!; [exact Hdec|by apply (er_key _ _ _ _ He)|by apply (er_size _ _ _ _ He)| |done|done].
  intros c Hc Hp. rewrite cells_row_lookup by (apply (er_schema _ _ _ _ He) || done). by rewrite Hp.
Qed.

(** Table descriptors and index definitions round trip. *)
Theorem catalog_roundtrip s index :
  schema_ok s -> len (encodeDescriptor s) <= 3000 -> validateIndex index s = Ok tt ->
  decodeDescriptor (encodeDescriptor s) = Ok s /\ decodeIndexMetadata (i_name index) (encodeIndexMetadata index) = Ok index.
Proof.
  intros Hs Hl Hv. split; [by apply decodeDescriptor_encoded|]. unfold validateIndex in Hv.
  destruct (_ || _) eqn:Eb; [done|]. zbool. destruct (findColumn s (i_column index)) as [c|] eqn:Ef; [|done].
  assert (Hc : 0 < len (i_column index) <= 128).
  { pose proof (so_column _ Hs) as Hco. unfold findColumn in Ef. revert Hco Ef. clear. induction (s_columns s) as [|d cs IH]; [done|].
    intros Hco. apply Forall_cons in Hco as [Hd Hcs]. cbn [findColumn_in]. destruct (beqb (c_name d) (i_column index)) eqn:E; [|by apply IH].
    bool_order. intros _. rewrite <- E. apply Hd. }
  pose proof (len_nonneg (i_name index)). apply decodeIndexMetadata_encoded; [lia|done].
Qed.

(** ** Witnesses *)

Definition c_id : Column := mkColumn [Byte.x69; Byte.x64] ColumnInt64 true false.
Definition c_val : Column := mkColumn [Byte.x76] ColumnString false true.
(** A table [t] with an integer primary key and a nullable string column. *)
Definition t_demo : TableSchema := mkSchema [Byte.x74] [c_id; c_val].
Definition r_demo : row := <[c_name c_id := AInt64 7]> (<[c_name c_val := AString [Byte.x61]]> ∅).
Lemma t_demo_ok : schema_ok t_demo.
Proof. apply validateSchema_iff. reflexivity. Qed.
Lemma r_demo_ok : row_ok r_demo.
Proof.
  intros name v. unfold r_demo. rewrite lookup_insert_Some. intros [[_ <-]|[_ H]]; [split; [discriminate|reflexivity]|].
  apply lookup_insert_Some in H as [[_ <-]|[_ H]]; [exact I|]. by rewrite lookup_empty in H.
Qed.
(** The stored form of [r_demo]. *)
Definition k_demo : bytes := encodeInt 7.
Definition v_demo : bytes := match encodeRow t_demo r_demo with Ok (_, v) => v | _ => [] end.
Lemma demo_encoded : encodeRow t_demo r_demo = Ok (rowPrefix (s_name t_demo) ++ k_demo, v_demo).
Proof. by vm_compute. Qed.

Lemma key_order_witness : bcmp (encodeInt (-1)) (encodeInt 1) = Lt.
Proof.
  apply (key_order c_id (AInt64 (-1)) (AInt64 1) (encodeInt (-1)) (encodeInt 1) [] [] [] []).
  - split; [reflexivity|by left].
  - by vm_compute.
  - by vm_compute.
  - reflexivity.
  - reflexivity.
Defined.
Lemma value_roundtrip_witness : decodeValue c_val (Byte.x02 :: escape [b00]) = Ok (AString [b00]).
Proof.
  apply (value_roundtrip c_val (AString [b00]) (Byte.x02 :: escape [b00]) ANil [] [] []); [reflexivity|reflexivity|exact I|exact I|reflexivity].
Defined.
Lemma row_roundtrip_witness : exists r', decodeRow t_demo v_demo = Ok r' /\ r' !! c_name c_val = Some (AString [Byte.x61]).
Proof.
  destruct (row_roundtrip t_demo r_demo _ _ r_demo_ok demo_encoded) as (r' & H1 & _ & _ & H2 & _).
  exists r'. split; [exact H1|]. exact (H2 c_val (list_elem_of_further _ _ _ (list_elem_of_here _ _)) eq_refl).
Defined.
