(* ===== verification/Engine.v ===== *)
(** * The engine boundary (src/internal/engine)

    The interface [engine.Store] through which the database uses its durable
    store, as a record of operations; what the database relies on, as a class;
    the delegating [Durable] and the adapter of the B+Tree store, which is an
    instance of the class. *)

From S2P Require Import Prelude KvList Errors Page PageTree File FreeList PageManager PageManagerSpec KV KVSpec KVResults.

(** ** The interface *)

Record Store (S : Type) := mkStore {
  st_Get : bytes -> stM S engine_error (option bytes);
  st_Range : bytes -> bytes -> stM S engine_error (list kv);
  st_Set : bytes -> bytes -> stM S engine_error unit;
  st_Delete : bytes -> stM S engine_error bool;
  st_ApplyBatch : list Mutation -> stM S engine_error unit;
  st_Close : stM S engine_error unit;
}.
Arguments mkStore {S}. Arguments st_Get {S}. Arguments st_Range {S}. Arguments st_Set {S}.
Arguments st_Delete {S}. Arguments st_ApplyBatch {S}. Arguments st_Close {S}.

(** [Durable] delegates every call to the store it wraps. *)
Definition Durable {S} (store : Store S) : Store S := {|
  st_Get key := st_Get store key;
  st_Range start end_ := st_Range store start end_;
  st_Set key value := st_Set store key value;
  st_Delete key := st_Delete store key;
  st_ApplyBatch mutations := st_ApplyBatch store mutations;
  st_Close := st_Close store;
|}.

(** The errors of the B+Tree store pass through the adapter unchanged. *)
Definition from_btree {S A} (m : stM S error A) : stM S engine_error A := fun s =>
  let '(r, s') := m s in (map_err EBtree r, s').

(** [btreeStore]: the copies of entries and mutations between the packages'
    identical struct types are the identity here. *)
Definition btreeStore (fuel : nat) : Store KV := {|
  st_Get key := from_btree (Get fuel key);
  st_Range start end_ := from_btree (Range fuel start end_);
  st_Set key value := from_btree (Set_ fuel key value);
  st_Delete key := from_btree (Delete fuel key);
  st_ApplyBatch mutations := from_btree (ApplyBatch fuel mutations);
  st_Close := from_btree Close;
|}.
Definition engine_Open (path : bytes) (created : bool) : stM file engine_error KV :=
  from_btree (Open path created).

(** ** What the database relies on *)

(** An update returns with contents allowed by [Q] or fails with the contents
    unchanged. *)
Definition atomically {S E A} (serves : S -> list kv -> Prop) (kvs : list kv) (Q : A -> list kv -> Prop)
    (r : outcome E A * S) : Prop :=
  match r with
  | (Ok a, s') => exists kvs', serves s' kvs' /\ Q a kvs'
  | (Err _, s') => serves s' kvs
  | (Panic, _) | (NoFuel, _) => False
  end.

(** [serves s kvs]: the open store [s] holds [kvs]. [ready s kvs n]: it also has
    room for [n] more mutations. *)
Class StoreSpec {S} (st : Store S) := {
  serves : S -> list kv -> Prop;
  ready : S -> list kv -> nat -> Prop;
  ss_sorted s kvs : serves s kvs -> kv_sorted kvs;
  ss_get s kvs key : serves s kvs -> key <> [] -> st_Get st key s = (Ok (kv_get key kvs), s);
  ss_get_empty s kvs : serves s kvs -> exists e, st_Get st [] s = (Err e, s);
  ss_range s kvs lo hi : serves s kvs -> len lo <= maxKeySize -> len hi <= maxKeySize ->
    st_Range st lo hi s = (Ok (kv_range lo hi kvs), s);
  ss_range_long s kvs lo hi : serves s kvs -> ~ (len lo <= maxKeySize /\ len hi <= maxKeySize) ->
    exists e, st_Range st lo hi s = (Err e, s);
  ss_set s kvs key value : ready s kvs 1 ->
    atomically serves kvs (fun _ kvs' => mutation_ok (mkMutation key value false) /\ kvs' = kv_set key value kvs)
      (st_Set st key value s);
  ss_delete s kvs key : ready s kvs 1 ->
    atomically serves kvs (fun d kvs' => mutation_ok (mkMutation key [] true) /\
      d = bool_decide (is_Some (kv_get key kvs)) /\ kvs' = kv_del key kvs) (st_Delete st key s);
  ss_batch s kvs ms : ready s kvs (length ms) ->
    atomically serves kvs (fun _ kvs' => Forall mutation_ok ms /\ kvs' = apply_batch kvs ms) (st_ApplyBatch st ms s);
  ss_ready s kvs n : ready s kvs n -> serves s kvs;
  ss_ready_le s kvs n n' : ready s kvs n -> (n' <= n)%nat -> ready s kvs n';
}.

(** Delegation keeps the promise. *)
#[global] Program Instance durable_spec {S} (st : Store S) {Sp : StoreSpec st} : StoreSpec (Durable st) := {|
  serves := serves; ready := ready |}.
Next Obligation. intros S st Sp. exact (@ss_sorted S st Sp). Qed.
Next Obligation. intros S st Sp. exact (@ss_get S st Sp). Qed.
Next Obligation. intros S st Sp. exact (@ss_get_empty S st Sp). Qed.
Next Obligation. intros S st Sp. exact (@ss_range S st Sp). Qed.
Next Obligation. intros S st Sp. exact (@ss_range_long S st Sp). Qed.
Next Obligation. intros S st Sp. exact (@ss_set S st Sp). Qed.
Next Obligation. intros S st Sp. exact (@ss_delete S st Sp). Qed.
Next Obligation. intros S st Sp. exact (@ss_batch S st Sp). Qed.
Next Obligation. intros S st Sp. exact (@ss_ready S st Sp). Qed.
Next Obligation. intros S st Sp. exact (@ss_ready_le S st Sp). Qed.

(** ** The B+Tree store keeps it *)

Record kv_serves (fuel : nat) (db : KV) (h : nat) (kvs : list kv) : Prop := {
  ks_rep : kv_rep db h kvs;
  ks_open : k_closed db = false;
  ks_height : (h < fuel)%nat;
  ks_size : (S (length kvs) < fuel)%nat;
}.
Record kv_ready (fuel : nat) (db : KV) (h : nat) (kvs : list kv) (n : nat) : Prop := {
  ky_serves : kv_serves fuel db h kvs;
  ky_certain : k_uncertain db = false;
  ky_height : (h + n < fuel)%nat;
  ky_size : (S (length kvs + n) < fuel)%nat;
  ky_room : Z.of_nat (batch_room h n) <= pm_room (k_pm db);
}.

Lemma kv_set_length k v l : (length (kv_set k v l) <= S (length l))%nat.
Proof. induction l as [|[k' v'] l IH]; cbn; [lia|]. destruct (bcmp k k'); cbn in *; lia. Qed.
Lemma kv_del_length k l : (length (kv_del k l) <= length l)%nat.
Proof. unfold kv_del. induction l as [|p l IH]; cbn; [lia|]. destruct (negb _); cbn; lia. Qed.
Lemma apply_batch_length ms : forall kvs, (length (apply_batch kvs ms) <= length kvs + length ms)%nat.
Proof.
  unfold apply_batch. induction ms as [|m ms IH]; intros kvs; cbn [fold_left length]; [lia|].
  specialize (IH (apply_mutation kvs m)). assert (length (apply_mutation kvs m) <= S (length kvs))%nat; [|lia].
  unfold apply_mutation. destruct (mu_delete m).
  - pose proof (kv_del_length (mu_key m) kvs). lia.
  - pose proof (kv_set_length (mu_key m) (mu_value m) kvs). lia.
Qed.

Lemma atomic_serves {A} fuel db h hmax kvs n (Q : A -> list kv -> Prop) r :
  kv_ready fuel db h kvs n -> (hmax <= h + n)%nat ->
  (forall a kvs', Q a kvs' -> (length kvs' <= length kvs + n)%nat) ->
  atomic db h hmax kvs Q r ->
  atomically (fun db kvs => exists h, kv_serves fuel db h kvs) kvs Q (let '(r, s') := r in (map_err EBtree r, s')).
Proof.
  intros [[K Hc Hf Hl] _ Hh Hn _] Hmax HQ. destruct r as [[a|e| |] db']; cbn [map_err atomic atomically]; try done.
  - intros (h' & kvs' & Hh' & K' & Hq & _ & Hc'). exists kvs'. split; [|done]. exists h'.
    specialize (HQ a kvs' Hq). split; [done|congruence|lia|lia].
  - intros [K' Hc']. exists h. split; [done|congruence|done|done].
Qed.

#[global] Program Instance btree_spec (fuel : nat) : StoreSpec (btreeStore fuel) := {|
  serves db kvs := exists h, kv_serves fuel db h kvs;
  ready db kvs n := exists h, kv_ready fuel db h kvs n;
|}.
Next Obligation.
  intros fuel db kvs (h & [[T _] _ _ _]). destruct T as [(_ & -> & _)|(_ & Hs & _)]; [constructor|].
  by apply kv_sorted_cons in Hs as [? _].
Qed.
Next Obligation. intros fuel db kvs key (h & [K Hc Hf _]) Hk. cbn. unfold from_btree. by rewrite (Get_ok fuel key db h kvs). Qed.
Next Obligation.
  intros fuel db kvs (h & [K Hc Hf _]). exists (EBtree ETreeKeyEmpty). cbn. unfold from_btree, Get. rewrite Hc. done.
Qed.
Next Obligation.
  intros fuel db kvs lo hi (h & [K Hc Hf Hl]) H1 H2. cbn. unfold from_btree. by rewrite (Range_ok fuel lo hi db h kvs).
Qed.
Next Obligation.
  intros fuel db kvs lo hi (h & [K Hc Hf Hl]) H. cbn. unfold from_btree, Range, rangeValues. rewrite Hc.
  destruct (Z.leb_spec (len lo) maxKeySize).
  - assert (maxKeySize < len hi) by (apply Z.nle_gt; intros ?; apply H; done).
    exists (EBtree EEndExceeds). zdecide. done.
  - exists (EBtree EStartExceeds). zdecide. done.
Qed.
Next Obligation.
  intros fuel db kvs key value (h & R). pose proof R as [[K Hc Hf Hl] Hu Hh Hn Hr]. cbn. unfold from_btree.
  eapply (atomic_serves fuel db h (S h) kvs 1); [exact R|lia| |].
  2:{ apply (Set_ok fuel key value db h kvs K Hc Hu); [lia|]. unfold batch_room in Hr. lia. }
  cbn beta. intros _ kvs' [_ ->]. pose proof (kv_set_length key value kvs). lia.
Qed.
Next Obligation.
  intros fuel db kvs key (h & R). pose proof R as [[K Hc Hf Hl] Hu Hh Hn Hr]. cbn. unfold from_btree.
  eapply (atomic_serves fuel db h h kvs 1); [exact R|lia| |].
  2:{ apply (Delete_ok fuel key [] db h kvs K Hc Hu); [lia|]. unfold batch_room in Hr. lia. }
  cbn beta. intros _ kvs' (_ & _ & ->). pose proof (kv_del_length key kvs). lia.
Qed.
Next Obligation.
  intros fuel db kvs ms (h & R). pose proof R as [[K Hc Hf Hl] Hu Hh Hn Hr]. cbn. unfold from_btree.
  eapply (atomic_serves fuel db h (h + length ms) kvs (length ms)); [exact R|lia| |by apply ApplyBatch_ok].
  cbn beta. intros _ kvs' [_ ->]. apply apply_batch_length.
Qed.
Next Obligation. intros fuel db kvs n (h & [? _ _ _ _]). by exists h. Qed.
Next Obligation.
  intros fuel db kvs n n' (h & [? ? ? ? Hr]) Hn. exists h. split; [done|done|lia|lia|]. unfold batch_room in *. nia.
Qed.
