(* ===== verification/Database.v ===== *)
(** * The database and its transactions (src/db/db.go)

    A [Database] keeps its entries in a Go map or in a durable store behind
    [engine.Store]; a [Tx] buffers changes until it commits. Every exported
    method holds the database's mutex from entry to return, so a method is one
    step on the state; the methods ending in [Locked] run inside such a step.
    [d_id] stands for the address of the database object, which table handles
    and transactions refer to. *)

From S2P Require Import Prelude KvList Errors Codec KV Engine.

Record transactionChange := mkChange { ch_value : bytes; ch_delete : bool }.
Record Database (S : Type) := mkDb {
  d_id : nat;
  d_data : option (gmap bytes bytes);
  d_durable : option S;
  d_closed : bool;
  d_writerActive : bool;
}.
Arguments mkDb {S}. Arguments d_id {S}. Arguments d_data {S}. Arguments d_durable {S}.
Arguments d_closed {S}. Arguments d_writerActive {S}.
Record Tx := mkTx {
  tx_db : nat;
  tx_readOnly : bool;
  tx_closed : bool;
  tx_order : list bytes;
  tx_changes : gmap bytes transactionChange;
}.

(** [sort.Strings]. *)
Definition sort_strings (keys : list bytes) : list bytes := merge_sort ble keys.
(** The entries of a Go map listed by the given keys, a missing one as the zero
    value. *)
Definition items_of (m : gmap bytes bytes) (keys : list bytes) : list kv :=
  map (fun key => (key, default [] (m !! key))) keys.

(** [translateError]. *)
Definition translateError (e : engine_error) : dberr :=
  match e with EngineErrClosed => DErrClosed | _ => EStore e end.

Section Ops.
Context {S : Type} (eng : Store S).
Abbreviation DM := (stM (Database S) dberr).

Definition set_durable (s : S) (d : Database S) : Database S :=
  mkDb (d_id d) (d_data d) (Some s) (d_closed d) (d_writerActive d).
Definition set_data (m : gmap bytes bytes) (d : Database S) : Database S :=
  mkDb (d_id d) (Some m) (d_durable d) (d_closed d) (d_writerActive d).
Definition set_closed (d : Database S) : Database S :=
  mkDb (d_id d) (d_data d) (d_durable d) true (d_writerActive d).
Definition set_writer (b : bool) (d : Database S) : Database S :=
  mkDb (d_id d) (d_data d) (d_durable d) (d_closed d) b.
(** Reading a nil map reads an empty one. *)
Definition data (d : Database S) : gmap bytes bytes := default ∅ (d_data d).

(** A call on the durable store, with its error translated. *)
Definition on_store {A} (s : S) (m : stM S engine_error A) : DM A := fun d =>
  let '(r, s') := m s in (map_err translateError r, set_durable s' d).
(** [d.data[key] = value] and [delete(d.data, key)]: writing a nil map panics,
    deleting from one does nothing. *)
Definition store_data (key value : bytes) : DM unit := fun d =>
  match d_data d with Some m => (Ok tt, set_data (<[key := value]> m) d) | None => (Panic, d) end.
Definition delete_data (key : bytes) (d : Database S) : Database S :=
  match d_data d with Some m => set_data (delete key m) d | None => d end.

(** ** Access under the lock *)

Definition getLocked (key : bytes) : DM (option bytes) := fun d =>
  match d_durable d with
  | Some s => on_store s (st_Get eng key) d
  | None => (Ok (data d !! key), d)
  end.
Definition setLocked (key value : bytes) : DM unit := fun d =>
  match d_durable d with
  | Some s => on_store s (st_Set eng key value) d
  | None => store_data key value d
  end.
Definition rangeLocked (start end_ : bytes) : DM (list kv) := fun d =>
  match d_durable d with
  | Some s => on_store s (st_Range eng start end_) d
  | None =>
      let keys := List.filter (fun key => bleb start key && bleb key end_) (map_to_list (data d)).*1 in
      (Ok (items_of (data d) (sort_strings keys)), d)
  end.

(** The validation loop of [applyBatchLocked] over an in-memory database, then
    the loop that applies the mutations. *)
Definition mutationRefused (m : Mutation) : bool :=
  (len (mu_key m) =? 0) || (len (mu_key m) >? 1000) || (negb (mu_delete m) && (len (mu_value m) >? 3000)).
Definition applyMutation (m : gmap bytes bytes) (mu : Mutation) : gmap bytes bytes :=
  if mu_delete mu then delete (mu_key mu) m else <[mu_key mu := mu_value mu]> m.
Definition applyBatchLocked (mutations : list Mutation) : DM unit := fun d =>
  if d_closed d then (Err DErrClosed, d)
  else
    match d_durable d with
    | Some s => on_store s (st_ApplyBatch eng mutations) d
    | None =>
        match d_data d with
        | None => (Err ENotInitialized, d)
        | Some m =>
            if existsb mutationRefused mutations then (Err ErrInvalidRow, d)
            else (Ok tt, set_data (fold_left applyMutation mutations m) d)
        end
    end.

(** ** The database *)

Definition Db_New (id : nat) : Database S := mkDb id (Some ∅) None false false.
(** [Open] with the store [engine.Open] returned. *)
Definition Db_Open (id : nat) (r : outcome engine_error S) : outcome engine_error (Database S) :=
  durable <- r ;; Ok (mkDb id None (Some durable) false false).

Definition Db_Close : DM unit := fun d =>
  if d_closed d then (Ok tt, d)
  else
    let d := set_closed d in
    match d_durable d with
    | Some s => let '(r, s') := st_Close eng s in (map_err EStore r, set_durable s' d)
    | None => (Ok tt, d)
    end.

Definition Db_Set (key value : bytes) : DM unit := fun d =>
  if d_closed d then (Err DErrClosed, d)
  else if d_writerActive d then (Err ErrWriteTransactionActive, d)
  else if beqb key [] then (Err ErrEmptyKey, d)
  else
    match d_durable d with
    | Some s => on_store s (st_Set eng key value) d
    | None => store_data key value d
    end.

Definition Db_Get (key : bytes) : DM (option bytes) := fun d =>
  if d_closed d then (Err DErrClosed, d)
  else if beqb key [] then (Ok None, d)
  else
    match d_durable d with
    | Some s => on_store s (st_Get eng key) d
    | None => (Ok (data d !! key), d)
    end.

Definition Db_Delete (key : bytes) : DM bool := fun d =>
  if d_closed d then (Err DErrClosed, d)
  else if d_writerActive d then (Err ErrWriteTransactionActive, d)
  else if beqb key [] then (Ok false, d)
  else
    match d_durable d with
    | Some s => on_store s (st_Delete eng key) d
    | None =>
        match data d !! key with
        | None => (Ok false, d)
        | Some _ => (Ok true, delete_data key d)
        end
    end.

(** In memory all keys are sorted and then filtered. *)
Definition Db_Range (start end_ : bytes) : DM (list kv) := fun d =>
  if d_closed d then (Err DErrClosed, d)
  else
    match d_durable d with
    | Some s => on_store s (st_Range eng start end_) d
    | None =>
        let keys := sort_strings (map_to_list (data d)).*1 in
        (Ok (items_of (data d) (List.filter (fun key => negb (bltb key start || bltb end_ key)) keys)), d)
    end.

Definition Db_Begin (readOnly : bool) : DM Tx := fun d =>
  if d_closed d then (Err DErrClosed, d)
  else if negb readOnly && d_writerActive d then (Err ErrWriteTransactionActive, d)
  else (Ok (mkTx (d_id d) readOnly false [] ∅), if readOnly then d else set_writer true d).

(** ** Transactions *)

Abbreviation TM := (stM (Database S * Tx) dberr).
Definition on_db {A} (m : DM A) : TM A := fun '(d, tx) => let '(r, d') := m d in (r, (d', tx)).
Definition close_tx (tx : Tx) : Tx := mkTx (tx_db tx) (tx_readOnly tx) true (tx_order tx) (tx_changes tx).

Definition recordLocked (key : bytes) (change : transactionChange) (tx : Tx) : Tx :=
  mkTx (tx_db tx) (tx_readOnly tx) (tx_closed tx)
    (match tx_changes tx !! key with Some _ => tx_order tx | None => tx_order tx ++ [key] end)
    (<[key := change]> (tx_changes tx)).
Definition record (key : bytes) (change : transactionChange) : TM unit := fun '(d, tx) =>
  (Ok tt, (d, recordLocked key change tx)).
(** The value and whether it is there. *)
Definition valueLocked (key : bytes) : TM (option bytes) := fun '(d, tx) =>
  match tx_changes tx !! key with
  | Some change => (Ok (if ch_delete change then None else Some (ch_value change)), (d, tx))
  | None => on_db (getLocked key) (d, tx)
  end.

(** [if tx.closed ...], [if tx.db.closed ...]. *)
Definition tx_open {A} (m : TM A) : TM A := fun '(d, tx) =>
  if tx_closed tx then (Err ErrTransactionClosed, (d, tx))
  else if d_closed d then (Err DErrClosed, (d, tx))
  else m (d, tx).
Definition tx_writable {A} (m : TM A) : TM A := tx_open (fun '(d, tx) =>
  if tx_readOnly tx then (Err ErrReadOnlyTransaction, (d, tx)) else m (d, tx)).

Definition Tx_Get (key : bytes) : TM (option bytes) := tx_open (fun '(d, tx) =>
  match tx_changes tx !! key with
  | Some change => (Ok (if ch_delete change then None else Some (ch_value change)), (d, tx))
  | None => on_db (getLocked key) (d, tx)
  end).

Definition buffer (key : bytes) (change : transactionChange) : TM unit := tx_writable (
  if beqb key [] then throw ErrEmptyKey else record key change).
Definition Tx_Set (key value : bytes) : TM unit := buffer key (mkChange value false).

Definition Tx_Delete (key : bytes) : TM bool := tx_writable (
  if beqb key [] then ret false
  else
    found <~ valueLocked key ;;
    _ <~ record key (mkChange [] true) ;;
    ret (bool_decide (is_Some found))).

(** The merge loop of [Tx.Range] over the buffered changes. *)
Definition mergeChange (start end_ : bytes) (values : gmap bytes bytes) (p : bytes * transactionChange) : gmap bytes bytes :=
  let '(key, change) := p in
  if bltb key start || bltb end_ key then values
  else if ch_delete change then delete key values
  else <[key := ch_value change]> values.
Definition Tx_Range (start end_ : bytes) : TM (list kv) := tx_open (fun '(d, tx) =>
  if bltb end_ start then (Ok [], (d, tx))
  else
    (items <~ on_db (rangeLocked start end_) ;;
     let values := fold_left (fun m p => <[p.1 := p.2]> m) items (∅ : gmap bytes bytes) in
     let values := fold_left (mergeChange start end_) (map_to_list (tx_changes tx)) values in
     ret (items_of values (sort_strings (map_to_list values).*1))) (d, tx)).

Definition mutations_of (tx : Tx) : list Mutation :=
  map (fun key => let change := default (mkChange [] false) (tx_changes tx !! key) in
    mkMutation key (ch_value change) (ch_delete change)) (tx_order tx).
Definition commitLocked : TM unit := tx_open (fun '(d, tx) =>
  if tx_readOnly tx then (Err ErrReadOnlyTransaction, (d, close_tx tx))
  else
    let '(r, d') := applyBatchLocked (mutations_of tx) d in
    match r with
    | Ok _ => (Ok tt, (set_writer false d', close_tx tx))
    | Err e => (Err e, (d', tx))
    | Panic => (Panic, (d', tx))
    | NoFuel => (NoFuel, (d', tx))
    end).
Definition Tx_Commit : TM unit := commitLocked.

Definition Tx_Rollback : TM unit := fun '(d, tx) =>
  if tx_closed tx then (Ok tt, (d, tx))
  else (Ok tt, (if tx_readOnly tx then d else set_writer false d, close_tx tx)).
End Ops.
