(* ===== verification/DatabaseSpec.v ===== *)
(** * Contents of a database

    The finite map a database holds, whichever backend keeps it, and what the
    locked accessors of src/db do to it; the view of a transaction over that
    map. *)

From S2P Require Import Prelude KvList Errors Codec Page PageManager KV KVSpec Engine Database.

(** ** Sorted listings of a map *)

#[global] Instance ble_trans : Transitive ble.
Proof. intros a b c H1 H2. border. Qed.
#[global] Instance ble_total : Total ble.
Proof. intros a b. destruct (BytesOrder.lt_total a b) as [H|[H|H]]; [left|left|right]; unfold BytesOrder.lt, BytesOrder.eq in H; border. Qed.

#[global] Instance filter_perm {A} (f : A -> bool) : Proper (Permutation ==> Permutation) (List.filter f).
Proof.
  induction 1 as [|x l l' _ IH|x y l|l1 l2 l3 _ IH1 _ IH2]; cbn [List.filter]; [done| | |by etrans].
  - destruct (f x); by rewrite IH.
  - destruct (f x), (f y); try done. by apply Permutation_swap.
Qed.

Lemma sort_strings_perm keys : sort_strings keys ≡ₚ keys.
Proof. apply merge_sort_Permutation. Qed.
Lemma sort_strings_sorted keys : NoDup keys -> ssorted (sort_strings keys).
Proof.
  intros Hd. pose proof (StronglySorted_merge_sort ble keys) as H. fold (sort_strings keys) in H.
  assert (Hd' : NoDup (sort_strings keys)) by (by rewrite sort_strings_perm).
  unfold ssorted. induction H as [|k l Hs IH Hk]; [constructor|]. apply NoDup_cons in Hd' as [Hn Hd'].
  constructor; [by apply IH|]. rewrite Forall_forall in *. intros x Hx. specialize (Hk x Hx).
  assert (k <> x) by congruence. border.
Qed.

Lemma items_of_keys m keys : kv_keys (items_of m keys) = keys.
Proof. unfold kv_keys, items_of. rewrite map_map. cbn. apply map_id. Qed.
Lemma items_of_get m keys k :
  (forall x, x ∈ keys -> is_Some (m !! x)) ->
  kv_get k (items_of m keys) = if decide (k ∈ keys) then m !! k else None.
Proof.
  unfold items_of. induction keys as [|x keys IH]; intros Hs; cbn [map kv_get]; [by rewrite decide_False by apply not_elem_of_nil|].
  destruct (beqb x k) eqn:E; bool_order.
  - subst. rewrite decide_True by left. destruct (Hs k) as [v ->]; [left|done].
  - rewrite IH by (intros; apply Hs; by right). destruct (decide (k ∈ keys)).
    + by rewrite decide_True by (by right).
    + rewrite decide_False; [done|]. rewrite elem_of_cons. naive_solver.
Qed.
Lemma items_sorted m keys : NoDup keys -> kv_sorted (items_of m (sort_strings keys)).
Proof. intros H. unfold kv_sorted. rewrite items_of_keys. by apply sort_strings_sorted. Qed.

Lemma kv_get_ext a b : kv_sorted a -> kv_sorted b -> (forall k, kv_get k a = kv_get k b) -> a = b.
Proof. intros Ha Hb H. apply kv_sorted_ext; [done..|]. apply map_eq. intros k. by rewrite <- !kv_get_map. Qed.
Lemma kv_get_elem k v l : kv_sorted l -> (k, v) ∈ l <-> kv_get k l = Some v.
Proof.
  induction l as [|[x w] l IH]; cbn [kv_get]; [intros _; split; [by intros ?%not_elem_of_nil|done]|].
  intros [Hs Ha]%kv_sorted_cons. rewrite elem_of_cons, IH by done. destruct (beqb x k) eqn:Ex; bool_order.
  - subst. split; [|intros [= ->]; by left]. intros [[= ->]|H]; [done|]. exfalso.
    unfold above in Ha. rewrite Forall_forall in Ha. apply IH in H; [|done]. specialize (Ha _ H). cbn in Ha. border.
  - split; [intros [[= -> ->]|H]; done|by right].
Qed.
Lemma kv_sorted_eq a b : kv_sorted a -> kv_sorted b -> (forall k v, (k, v) ∈ a <-> (k, v) ∈ b) -> a = b.
Proof.
  intros Ha Hb H. apply kv_get_ext; [done..|]. intros k. destruct (kv_get k a) as [v|] eqn:E.
  - apply kv_get_elem, H, kv_get_elem in E; congruence.
  - destruct (kv_get k b) as [v|] eqn:E'; [|done]. apply kv_get_elem, H, kv_get_elem in E'; congruence.
Qed.
Lemma kv_range_get lo hi l k :
  kv_get k (kv_range lo hi l) = if bleb lo k && bleb k hi then kv_get k l else None.
Proof.
  unfold kv_range. induction l as [|[x v] l IH]; cbn [List.filter kv_get fst]; [by destruct (_ && _)|].
  destruct (bleb lo x && bleb x hi) eqn:Ex; cbn [kv_get]; destruct (beqb x k) eqn:E; bool_order; subst;
    rewrite ?Ex; try done. by rewrite IH, Ex.
Qed.

(** The entries of a map in key order. *)
Definition map_keys (m : gmap bytes bytes) : list bytes := (map_to_list m).*1.
Definition entries (m : gmap bytes bytes) : list kv := items_of m (sort_strings (map_keys m)).

Lemma map_keys_nodup m : NoDup (map_keys m).
Proof. apply NoDup_fst_map_to_list. Qed.
Lemma elem_map_keys m k : k ∈ map_keys m <-> is_Some (m !! k).
Proof.
  unfold map_keys. rewrite list_elem_of_fmap. split.
  - intros ([x v] & -> & H%elem_of_map_to_list). eauto.
  - intros [v H]. exists (k, v). split; [done|]. by apply elem_of_map_to_list.
Qed.
Lemma entries_sorted m : kv_sorted (entries m).
Proof. apply items_sorted, map_keys_nodup. Qed.
Lemma entries_get m k : kv_get k (entries m) = m !! k.
Proof.
  unfold entries. rewrite items_of_get by (intros x; rewrite sort_strings_perm; by rewrite elem_map_keys).
  destruct (decide _) as [H|H]; [done|]. rewrite sort_strings_perm, elem_map_keys in H.
  destruct (m !! k) eqn:E; [|done]. by destruct H.
Qed.
Lemma entries_map m : kv_map (entries m) = m.
Proof. apply map_eq. intros k. by rewrite <- kv_get_map, entries_get. Qed.
Lemma entries_unique kvs : kv_sorted kvs -> entries (kv_map kvs) = kvs.
Proof. intros H. apply kv_get_ext; [apply entries_sorted|done|]. intros k. by rewrite entries_get, kv_get_map. Qed.
Lemma entries_set m k v : kv_set k v (entries m) = entries (<[k := v]> m).
Proof.
  rewrite <- (entries_unique (kv_set k v (entries m))) by apply kv_sorted_set, entries_sorted.
  by rewrite kv_set_map, entries_map by apply entries_sorted.
Qed.
Lemma entries_del m k : kv_del k (entries m) = entries (delete k m).
Proof.
  rewrite <- (entries_unique (kv_del k (entries m))) by apply kv_sorted_del, entries_sorted.
  by rewrite kv_del_map, entries_map.
Qed.
Lemma entries_batch ms : forall m, apply_batch (entries m) ms = entries (fold_left applyMutation ms m).
Proof.
  unfold apply_batch. induction ms as [|mu ms IH]; intros m; cbn [fold_left]; [done|].
  unfold apply_mutation at 2, applyMutation at 2. destruct (mu_delete mu).
  - by rewrite entries_del.
  - by rewrite entries_set.
Qed.

(** A sorted listing of the keys in a range is the range of the entries. *)
Lemma range_listing m lo hi keys :
  keys ≡ₚ List.filter (fun k => bleb lo k && bleb k hi) (map_keys m) -> ssorted keys ->
  items_of m keys = kv_range lo hi (entries m).
Proof.
  intros Hp Hs. apply kv_get_ext.
  - unfold kv_sorted. by rewrite items_of_keys.
  - apply kv_sorted_range, entries_sorted.
  - intros k. assert (Hin : k ∈ keys <-> (bleb lo k && bleb k hi) = true /\ is_Some (m !! k)).
    { rewrite Hp, list_elem_of_In, List.filter_In, <- list_elem_of_In, elem_map_keys. tauto. }
    rewrite items_of_get, kv_range_get, entries_get.
    + destruct (decide (k ∈ keys)) as [H|H]; destruct (bleb lo k && bleb k hi); try done; [naive_solver|].
      destruct (m !! k); [naive_solver|done].
    + intros x Hx. rewrite Hp, list_elem_of_In, List.filter_In, <- list_elem_of_In, elem_map_keys in Hx. tauto.
Qed.

(** ** Contents *)

Section Contents.
Context {S : Type} (eng : Store S) {Sp : StoreSpec eng}.
Implicit Types d : Database S.

(** The open database holds the map [m]. *)
Definition holds (d : Database S) (m : gmap bytes bytes) : Prop :=
  d_closed d = false /\
  match d_durable d with Some s => serves s (entries m) | None => d_data d = Some m end.
(** It also has room for [n] mutations. *)
Definition can (d : Database S) (m : gmap bytes bytes) (n : nat) : Prop :=
  d_closed d = false /\
  match d_durable d with Some s => ready s (entries m) n | None => d_data d = Some m end.
(** What no access changes. *)
Definition kept (d d' : Database S) : Prop :=
  d_id d' = d_id d /\ d_closed d' = d_closed d /\ d_writerActive d' = d_writerActive d /\
  (is_Some (d_durable d') <-> is_Some (d_durable d)).
(** A key the backend accepts in a lookup, bounds it accepts in a scan. *)
Definition key_ok (d : Database S) (key : bytes) : Prop := is_Some (d_durable d) -> key <> [].
Definition bound_ok (d : Database S) (b : bytes) : Prop := is_Some (d_durable d) -> len b <= maxKeySize.

Lemma can_holds d m n : can d m n -> holds d m.
Proof. intros [Hc H]. split; [done|]. destruct (d_durable d); [by eapply ss_ready|done]. Qed.
Lemma can_le d m n n' : can d m n -> (n' <= n)%nat -> can d m n'.
Proof. intros [Hc H] Hn. split; [done|]. destruct (d_durable d); [by eapply ss_ready_le|done]. Qed.
Lemma set_durable_same d s : d_durable d = Some s -> set_durable s d = d.
Proof. destruct d. cbn. by intros ->. Qed.
Lemma kept_refl d : kept d d.
Proof. done. Qed.
Lemma kept_durable d s s' : d_durable d = Some s -> kept d (set_durable s' d).
Proof. intros E. unfold kept. rewrite E. cbn. split_and!; done. Qed.

Lemma getLocked_ok d m key : holds d m -> key_ok d key -> getLocked eng key d = (Ok (m !! key), d).
Proof.
  intros [Hc H] Hk. unfold getLocked, key_ok in *. destruct (d_durable d) as [s|] eqn:E.
  - unfold on_store. rewrite (ss_get s (entries m) key H) by (apply Hk; eauto). cbn.
    by rewrite entries_get, set_durable_same.
  - unfold data. by rewrite H.
Qed.
Lemma getLocked_any d m key : holds d m ->
  ends (getLocked eng key) d (fun v d' => v = m !! key /\ d' = d) (fun _ d' => d' = d).
Proof.
  intros H. destruct (decide (d_durable d <> None /\ key = [])) as [[Hn ->]|Hk].
  - destruct H as [Hc H]. unfold ends, getLocked, on_store. destruct (d_durable d) as [s|] eqn:E; [|done].
    destruct (ss_get_empty s (entries m) H) as [e ->]. cbn. by rewrite set_durable_same.
  - unfold ends. rewrite (getLocked_ok d m) ; [done|done|]. intros [s Hs] ->. apply Hk. by rewrite Hs.
Qed.

Lemma rangeLocked_ok d m lo hi :
  holds d m -> bound_ok d lo -> bound_ok d hi ->
  rangeLocked eng lo hi d = (Ok (kv_range lo hi (entries m)), d).
Proof.
  intros [Hc H] Hlo Hhi. unfold rangeLocked, bound_ok in *. destruct (d_durable d) as [s|] eqn:E.
  - unfold on_store. rewrite (ss_range s (entries m) lo hi H) by eauto. cbn. by rewrite set_durable_same.
  - unfold data. rewrite H. cbn [default]. rewrite (range_listing m lo hi); [done|apply sort_strings_perm|].
    apply sort_strings_sorted, NoDup_ListNoDup, List.NoDup_filter, NoDup_ListNoDup, map_keys_nodup.
Qed.
Lemma rangeLocked_any d m lo hi : holds d m ->
  ends (rangeLocked eng lo hi) d (fun l d' => l = kv_range lo hi (entries m) /\ d' = d) (fun _ d' => d' = d).
Proof.
  intros H. destruct (decide (d_durable d <> None /\ ~ (len lo <= maxKeySize /\ len hi <= maxKeySize))) as [[Hn Hl]|Hk].
  - destruct H as [Hc H]. unfold ends, rangeLocked, on_store. destruct (d_durable d) as [s|] eqn:E; [|done].
    destruct (ss_range_long s (entries m) lo hi H Hl) as [e ->]. cbn. by rewrite set_durable_same.
  - unfold ends. assert (Hb : d_durable d <> None -> len lo <= maxKeySize /\ len hi <= maxKeySize).
    { intros Hn. destruct (decide (len lo <= maxKeySize /\ len hi <= maxKeySize)) as [|Hl]; [done|]. by destruct Hk. }
    rewrite (rangeLocked_ok d m); [done|done| |]; intros [s Hs]; rewrite Hs in Hb; by apply Hb.
Qed.

Lemma mutationRefused_iff mu : mutationRefused mu = false <-> mutation_ok mu.
Proof.
  unfold mutationRefused, mutation_ok. change maxKeySize with 1000. change maxValueSize with 3000.
  assert (Hk : len (mu_key mu) <> 0 <-> mu_key mu <> []) by (destruct (mu_key mu); [done|split; [done|by intros _ ?%len_0]]).
  rewrite !orb_false_iff, andb_false_iff, negb_false_iff, Z.eqb_neq, !Z.gtb_ltb, !Z.ltb_ge, Hk.
  destruct (mu_delete mu); intuition done.
Qed.
Lemma existsb_refused ms : existsb mutationRefused ms = false <-> Forall mutation_ok ms.
Proof.
  induction ms as [|mu ms IH]; cbn [existsb]; [split; [constructor|done]|].
  rewrite orb_false_iff, mutationRefused_iff, IH, Forall_cons. done.
Qed.

(** [applyBatchLocked] installs every mutation or none. *)
Lemma applyBatchLocked_ok d m ms :
  can d m (length ms) ->
  ends (applyBatchLocked eng ms) d
    (fun _ d' => holds d' (fold_left applyMutation ms m) /\ Forall mutation_ok ms /\ kept d d')
    (fun _ d' => holds d' m /\ kept d d').
Proof.
  intros [Hc H]. unfold ends, applyBatchLocked. rewrite Hc. destruct (d_durable d) as [s|] eqn:E.
  - pose proof (ss_batch s (entries m) ms H) as B. unfold on_store. destruct (st_ApplyBatch eng ms s) as [[u|e| |] s'];
      cbn in *; [|by split; [|eapply kept_durable]|done..].
    destruct B as (kvs' & Hs & Hm & ->). rewrite entries_batch in Hs. split; [|split; [done|by eapply kept_durable]].
    by split.
  - rewrite H. destruct (existsb _ ms) eqn:Ex.
    + split; [|apply kept_refl]. split; [done|]. by rewrite E.
    + split; [|split; [by apply existsb_refused|]].
      * split; [done|]. cbn. by rewrite E.
      * unfold kept. cbn. by rewrite E.
Qed.

(** ** The view of a transaction *)

Definition seen (c : option transactionChange) (v : option bytes) : option bytes :=
  match c with Some c => if ch_delete c then None else Some (ch_value c) | None => v end.
(** The committed map with the buffered changes on top. *)
Definition view (c : gmap bytes transactionChange) (m : gmap bytes bytes) : gmap bytes bytes :=
  merge (fun c v => match c, v with None, None => None | _, _ => seen c v end) c m.
Lemma view_lookup c m k : view c m !! k = seen (c !! k) (m !! k).
Proof. unfold view. rewrite lookup_merge. by destruct (c !! k), (m !! k). Qed.
Lemma view_empty m : view ∅ m = m.
Proof. apply map_eq. intros k. by rewrite view_lookup, lookup_empty. Qed.
Lemma view_insert k ch c m :
  view (<[k := ch]> c) m = if ch_delete ch then delete k (view c m) else <[k := ch_value ch]> (view c m).
Proof.
  apply map_eq. intros x. rewrite view_lookup. destruct (decide (x = k)) as [->|Hx].
  - rewrite lookup_insert_eq. cbn. destruct (ch_delete ch); [by rewrite lookup_delete_eq|by rewrite lookup_insert_eq].
  - rewrite lookup_insert_ne by done. destruct (ch_delete ch).
    + by rewrite lookup_delete_ne, view_lookup by done.
    + by rewrite lookup_insert_ne, view_lookup by done.
Qed.

(** Each changed key is listed once, in the order of its first change. *)
Record tx_wf (tx : Tx) : Prop := {
  tw_nodup : NoDup (tx_order tx);
  tw_keys : forall k, k ∈ tx_order tx <-> is_Some (tx_changes tx !! k);
}.
Lemma recordLocked_wf key ch tx : tx_wf tx -> tx_wf (recordLocked key ch tx).
Proof.
  intros [Hd Hk]. unfold recordLocked. split; cbn [tx_order tx_changes].
  - destruct (tx_changes tx !! key) eqn:E; [done|]. apply NoDup_app. split; [done|].
    split; [|apply NoDup_singleton]. intros x Hx ->%list_elem_of_singleton. apply Hk in Hx. rewrite E in Hx. by destruct Hx.
  - intros k. destruct (decide (k = key)) as [->|Hne].
    + rewrite lookup_insert_eq. split; [eauto|intros _]. destruct (tx_changes tx !! key) eqn:E; [apply Hk; eauto|].
      apply elem_of_app. right. left.
    + rewrite lookup_insert_ne by done. rewrite <- Hk. destruct (tx_changes tx !! key); [done|].
      rewrite elem_of_app, list_elem_of_singleton. naive_solver.
Qed.

(** The batch of a commit produces the view. *)
Lemma fold_mutations (c : gmap bytes transactionChange) ks : forall m,
  NoDup ks -> (forall k, k ∈ ks -> is_Some (c !! k)) ->
  forall x, fold_left applyMutation (map (fun key => let ch := default (mkChange [] false) (c !! key) in
    mkMutation key (ch_value ch) (ch_delete ch)) ks) m !! x = if decide (x ∈ ks) then seen (c !! x) (m !! x) else m !! x.
Proof.
  induction ks as [|k ks IH]; intros m Hd Hs x; cbn [map fold_left]; [by rewrite decide_False by apply not_elem_of_nil|].
  apply NoDup_cons in Hd as [Hk Hd]. rewrite IH by (done || (intros; apply Hs; by right)).
  destruct (Hs k) as [ch Ech]; [left|]. rewrite Ech. cbn [default id]. unfold applyMutation. cbn [mu_key mu_value mu_delete].
  destruct (decide (x = k)) as [->|Hx].
  - rewrite decide_False, decide_True by (done || left). rewrite Ech. cbn [seen].
    destruct (ch_delete ch); [by rewrite lookup_delete_eq|by rewrite lookup_insert_eq].
  - assert (Hl : (if ch_delete ch then delete k m else <[k := ch_value ch]> m) !! x = m !! x)
      by (destruct (ch_delete ch); [by apply lookup_delete_ne|by apply lookup_insert_ne]).
    rewrite Hl. destruct (decide (x ∈ ks)); [by rewrite decide_True by (by right)|].
    rewrite decide_False; [done|]. rewrite elem_of_cons. naive_solver.
Qed.
Lemma mutations_view tx m : tx_wf tx -> fold_left applyMutation (mutations_of tx) m = view (tx_changes tx) m.
Proof.
  intros [Hd Hk]. apply map_eq. intros x. unfold mutations_of. rewrite fold_mutations by (done || (intros k Hx; by apply Hk)).
  rewrite view_lookup. destruct (decide (x ∈ tx_order tx)) as [|Hx]; [done|].
  destruct (tx_changes tx !! x) eqn:E; [|done]. exfalso. apply Hx, Hk. eauto.
Qed.
End Contents.
