(* ===== verification/DatabaseResults.v ===== *)
(** * Results on the database and its transactions (src/db/db.go)

    Proved against the interface [StoreSpec], so they hold for the in-memory
    database and for the durable one. *)

From S2P Require Import Prelude KvList Errors Codec Page PageManager KV KVSpec KVResults Engine Database DatabaseSpec.

Section Results.
Context {S : Type} (eng : Store S) {Sp : StoreSpec eng}.
Implicit Types d : Database S.

(** ** Direct access *)

Lemma sorted_filter_keys m lo hi :
  items_of m (List.filter (fun key => negb (bltb key lo || bltb hi key)) (sort_strings (map_keys m))) =
  kv_range lo hi (entries m).
Proof.
  assert (Hf : forall l, List.filter (fun key => negb (bltb key lo || bltb hi key)) l =
    List.filter (fun key => bleb lo key && bleb key hi) l).
  { intros l. apply List.filter_ext. intros k. rewrite negb_orb. unfold bltb, bleb. rewrite (bcmp_antisym k lo).
    rewrite (bcmp_antisym k hi). by destruct (bcmp k lo), (bcmp k hi). }
  rewrite Hf. apply range_listing.
  - by rewrite sort_strings_perm.
  - pose proof (sort_strings_sorted (map_keys m) (map_keys_nodup m)) as H.
    unfold ssorted in *. induction H as [|k l Hs IH Hk]; cbn; [constructor|].
    destruct (_ && _); [|done]. constructor; [done|]. rewrite Forall_forall in *. intros x.
    rewrite list_elem_of_In, List.filter_In, <- list_elem_of_In. intros [Hx _]. auto.
Qed.

(** [Database.Get] and [Database.Range] on an open database return the
    contents: the value of a key, and the entries within the bounds in
    ascending key order, whichever backend keeps them; the empty key is never
    found; nothing changes. *)
Theorem Db_reads d m key lo hi :
  holds eng d m -> bound_ok d lo -> bound_ok d hi ->
  Db_Get eng key d = (Ok (if beqb key [] then None else m !! key), d) /\
  Db_Range eng lo hi d = (Ok (kv_range lo hi (entries m)), d) /\
  Db_Range eng lo hi d = rangeLocked eng lo hi d.
Proof.
  intros H Hlo Hhi. pose proof (rangeLocked_ok eng d m lo hi H Hlo Hhi) as R. pose proof H as [Hc _].
  assert (Hr : Db_Range eng lo hi d = (Ok (kv_range lo hi (entries m)), d)).
  { unfold Db_Range. rewrite Hc. unfold rangeLocked in R. destruct (d_durable d) as [s|] eqn:E; [exact R|].
    destruct H as [_ H]. rewrite E in H. unfold data. rewrite H. cbn [default id]. by rewrite sorted_filter_keys. }
  split_and!; [|done|by rewrite R].
  unfold Db_Get. rewrite Hc. destruct (beqb key []) eqn:Ek; [done|].
  pose proof (getLocked_ok eng d m key H) as G. unfold getLocked in G. apply G. intros _ ->. done.
Qed.

(** [Database.Set] and [Database.Delete] on an open database without an
    active writer are atomic: success means the key was set or removed and
    nothing else changed, an error means nothing changed; [Delete] reports
    whether the key was there. *)
Theorem Db_writes d m key value :
  can eng d m 1 -> d_writerActive d = false -> key <> [] ->
  ends (Db_Set eng key value) d
    (fun _ d' => holds eng d' (<[key := value]> m) /\ kept d d') (fun _ d' => holds eng d' m /\ kept d d') /\
  ends (Db_Delete eng key) d
    (fun found d' => holds eng d' (delete key m) /\ kept d d' /\ found = bool_decide (is_Some (m !! key)))
    (fun _ d' => holds eng d' m /\ kept d d').
Proof.
  intros [Hc H] Hw Hk. unfold ends, Db_Set, Db_Delete. rewrite Hc, Hw, (proj2 (beqb_neq key [])) by done.
  destruct (d_durable d) as [s|] eqn:E.
  - pose proof (ss_set s (entries m) key value H) as B. pose proof (ss_delete s (entries m) key H) as D.
    unfold on_store. split.
    + destruct (st_Set eng key value s) as [[u|e| |] s']; cbn in *; [|by split; [|eapply kept_durable]|done..].
      destruct B as (kvs' & Hs & _ & ->). rewrite entries_set in Hs. split; [by split|by eapply kept_durable].
    + destruct (st_Delete eng key s) as [[u|e| |] s']; cbn in *; [|by split; [|eapply kept_durable]|done..].
      destruct D as (kvs' & Hs & _ & -> & ->). rewrite entries_del in Hs. rewrite entries_get.
      split; [by split|]. split; [by eapply kept_durable|done].
  - unfold store_data, delete_data, data. rewrite H. cbn [default id]. split.
    + split; [|unfold kept; cbn; by rewrite E]. split; [done|]. cbn. by rewrite E.
    + destruct (m !! key) eqn:Em.
      * split; [|split; [unfold kept; cbn; by rewrite E|done]]. split; [done|]. cbn. by rewrite E.
      * split; [|done]. rewrite delete_id by done. split; [done|]. by rewrite E.
Qed.

(** ** Transactions *)

Definition tx_live (d : Database S) (tx : Tx) : Prop := tx_closed tx = false /\ d_closed d = false.

Lemma tx_open_live {A} (m : stM (Database S * Tx) dberr A) d tx : tx_live d tx -> tx_open m (d, tx) = m (d, tx).
Proof. intros [H1 H2]. unfold tx_open. by rewrite H1, H2. Qed.

Lemma insert_items items : forall acc : gmap bytes bytes, NoDup (kv_keys items) ->
  forall k, fold_left (fun m p => <[p.1 := p.2]> m) items acc !! k =
    match kv_get k items with Some v => Some v | None => acc !! k end.
Proof.
  induction items as [|[x v] items IH]; intros acc Hd k; cbn [fold_left kv_get fst snd]; [done|].
  cbn in Hd. apply NoDup_cons in Hd as [Hx Hd]. rewrite IH by done. destruct (beqb x k) eqn:E; bool_order.
  - subst. assert (kv_get k items = None) as ->; [|by rewrite lookup_insert_eq].
    destruct (kv_get k items) eqn:Eg; [|done]. exfalso. apply Hx. clear -Eg. induction items as [|[y w] items IH]; [done|].
    cbn in *. destruct (beqb y k) eqn:Ey; bool_order; [subst; left|right; auto].
  - by rewrite lookup_insert_ne.
Qed.
Lemma mergeChange_fold lo hi l : forall acc, NoDup l.*1 -> forall k,
  fold_left (mergeChange lo hi) l acc !! k =
    if bleb lo k && bleb k hi then seen ((list_to_map l : gmap bytes transactionChange) !! k) (acc !! k) else acc !! k.
Proof.
  induction l as [|[x ch] l IH]; intros acc Hd k; cbn [fold_left]; [cbn; by destruct (_ && _)|].
  cbn in Hd. apply NoDup_cons in Hd as [Hx Hd]. rewrite IH by done. cbn [mergeChange].
  assert (Hn : (list_to_map l : gmap bytes transactionChange) !! x = None) by (by apply not_elem_of_list_to_map).
  rewrite list_to_map_cons. destruct (decide (x = k)) as [->|Hne].
  - rewrite lookup_insert_eq, Hn. cbn [seen]. destruct (bltb k lo || bltb hi k) eqn:Er.
    + assert (bleb lo k && bleb k hi = false) as ->; [|done].
      apply orb_true_iff in Er. apply andb_false_iff. destruct Er; [left|right]; border.
    + assert (bleb lo k && bleb k hi = true) as ->.
      { apply orb_false_iff in Er as [E1 E2]. apply andb_true_iff. split; border. }
      destruct (ch_delete ch); [by rewrite lookup_delete_eq|by rewrite lookup_insert_eq].
  - rewrite lookup_insert_ne by done. destruct (_ || _); [done|].
    destruct (ch_delete ch); [by rewrite lookup_delete_ne|by rewrite lookup_insert_ne].
Qed.

Lemma Tx_Range_ok d m tx lo hi :
  holds eng d m -> tx_closed tx = false -> bound_ok d lo -> bound_ok d hi ->
  Tx_Range eng lo hi (d, tx) = (Ok (kv_range lo hi (entries (view (tx_changes tx) m))), (d, tx)).
Proof.
  intros H Ht Hlo Hhi. unfold Tx_Range. rewrite tx_open_live by (split; [done|apply H]).
  destruct (bltb hi lo) eqn:Eb.
  { f_equal. f_equal. apply kv_get_ext; [constructor|apply kv_sorted_range, entries_sorted|]. intros k.
    rewrite kv_range_get. destruct (bleb lo k && bleb k hi) eqn:E; [|done].
    apply andb_true_iff in E as [E1 E2]. border. }
  unfold bind at 1, on_db at 1. rewrite (rangeLocked_ok eng d m lo hi) by done. unfold ret. f_equal. f_equal.
  set (values := fold_left (mergeChange lo hi) _ _).
  assert (Hv : forall k, values !! k = if bleb lo k && bleb k hi then view (tx_changes tx) m !! k else None).
  { intros k. unfold values. rewrite mergeChange_fold, list_to_map_to_list, insert_items, kv_range_get, entries_get, view_lookup.
    - rewrite lookup_empty. destruct (_ && _); [by destruct (m !! k)|done].
    - pose proof (kv_sorted_range lo hi _ (entries_sorted m)) as Hs. clear -Hs.
      unfold kv_sorted, ssorted in Hs. induction Hs as [|k l Hs IH Hk]; [constructor|]. constructor; [|done].
      rewrite Forall_forall in Hk. intros Hin. specialize (Hk k Hin). border.
    - apply NoDup_fst_map_to_list. }
  change (items_of values _) with (entries values). apply kv_get_ext.
  - apply entries_sorted.
  - apply kv_sorted_range, entries_sorted.
  - intros k. by rewrite kv_range_get, !entries_get, Hv.
Qed.

(** A transaction reads its own writes: [Tx.Get] and [Tx.Range] answer from
    the committed contents with the buffered changes on top, a range in
    ascending key order, and change nothing. *)
Theorem Tx_reads d m tx key lo hi :
  holds eng d m -> tx_closed tx = false -> key_ok d key -> bound_ok d lo -> bound_ok d hi ->
  Tx_Get eng key (d, tx) = (Ok (view (tx_changes tx) m !! key), (d, tx)) /\
  Tx_Range eng lo hi (d, tx) = (Ok (kv_range lo hi (entries (view (tx_changes tx) m))), (d, tx)).
Proof.
  intros H Ht Hk Hlo Hhi. split; [|by apply Tx_Range_ok]. unfold Tx_Get. rewrite tx_open_live by (split; [done|apply H]).
  rewrite view_lookup. destruct (tx_changes tx !! key) as [ch|]; [done|]. unfold on_db. by rewrite (getLocked_ok eng d m).
Qed.

(** [Tx.Set] and [Tx.Delete] of a legal writer only change the
    transaction's own view, by exactly that key; the database stays as it is
    and the bookkeeping of changed keys stays well formed. *)
Theorem Tx_buffers d m tx key value :
  holds eng d m -> tx_closed tx = false -> tx_readOnly tx = false -> tx_wf tx -> key <> [] ->
  ends (Tx_Set key value) (d, tx) (fun _ '(d', tx') => d' = d /\ tx_wf tx' /\ tx_closed tx' = false /\
    view (tx_changes tx') m = <[key := value]> (view (tx_changes tx) m)) no_err /\
  ends (Tx_Delete eng key) (d, tx) (fun found '(d', tx') => d' = d /\ tx_wf tx' /\ tx_closed tx' = false /\
    found = bool_decide (is_Some (view (tx_changes tx) m !! key)) /\
    view (tx_changes tx') m = delete key (view (tx_changes tx) m)) no_err.
Proof.
  intros H Ht Hr Hw Hk. assert (Hl : tx_live d tx) by (split; [done|apply H]).
  unfold Tx_Set, Tx_Delete, buffer, tx_writable. unfold ends at 1 2. rewrite !tx_open_live, Hr by done.
  rewrite (proj2 (beqb_neq key [])) by done. split.
  - cbn. split_and!; [done|by apply recordLocked_wf|done|]. by rewrite view_insert.
  - assert (Hv : valueLocked eng key (d, tx) = (Ok (view (tx_changes tx) m !! key), (d, tx))).
    { unfold valueLocked. rewrite view_lookup. destruct (tx_changes tx !! key) as [ch|]; [done|].
      unfold on_db. rewrite (getLocked_ok eng d m); [done|done|]. by intros _. }
    rewrite (bind_ok _ _ _ _ _ Hv). cbn.
    split_and!; [done|by apply recordLocked_wf|done|done|]. by rewrite view_insert.
Qed.

(** C22: [Tx.Commit] of a writer is atomic: on success the database holds exactly
    the transaction's view, the transaction is closed and the writer slot is
    free; on an error the contents are unchanged and the transaction stays open
    with all its changes, so that it can be committed again or rolled back. *)
Theorem Tx_Commit_atomic d m tx :
  can eng d m (length (tx_order tx)) -> tx_closed tx = false -> tx_readOnly tx = false -> tx_wf tx ->
  ends (Tx_Commit eng) (d, tx)
    (fun _ '(d', tx') => holds eng d' (view (tx_changes tx) m) /\ tx_closed tx' = true /\ d_writerActive d' = false)
    (fun _ '(d', tx') => holds eng d' m /\ tx' = tx /\ d_writerActive d' = d_writerActive d).
Proof.
  intros H Ht Hr Hw. assert (Hl : tx_live d tx) by (split; [done|apply H]).
  unfold Tx_Commit, commitLocked. unfold ends at 1. rewrite tx_open_live, Hr by done.
  pose proof (applyBatchLocked_ok eng d m (mutations_of tx)) as B. unfold ends in B.
  destruct (applyBatchLocked eng (mutations_of tx) d) as [[u|e| |] d'].
  - destruct B as (Hd & _ & _); [by unfold mutations_of; rewrite length_map|]. rewrite mutations_view in Hd by done.
    split_and!; [|done|done]. by destruct d'.
  - destruct B as (Hd & Hk); [by unfold mutations_of; rewrite length_map|]. split_and!; [done|done|apply Hk].
  - apply B. by unfold mutations_of; rewrite length_map.
  - apply B. by unfold mutations_of; rewrite length_map.
Qed.

(** [Tx.Rollback] never fails, leaves the contents alone, closes the
    transaction and frees the writer slot it held; repeating it is harmless. *)
Theorem Tx_Rollback_discards d tx :
  exists d' tx', Tx_Rollback (d, tx) = (Ok tt, (d', tx')) /\ tx_closed tx' = true /\
    d_data d' = d_data d /\ d_durable d' = d_durable d /\ d_closed d' = d_closed d /\
    d_writerActive d' = (if tx_closed tx || tx_readOnly tx then d_writerActive d else false) /\
    Tx_Rollback (d', tx') = (Ok tt, (d', tx')).
Proof.
  unfold Tx_Rollback. destruct (tx_closed tx) eqn:Ec; cbn [orb].
  - exists d, tx. rewrite Ec. done.
  - eexists _, _. split; [reflexivity|]. cbn [tx_closed close_tx]. destruct (tx_readOnly tx); done.
Qed.
End Results.
