(* ===== verification/Table.v ===== *)
(** * Tables and secondary indexes (src/db/table.go, index.go, transaction_table.go)

    Table handles over a database: creating and opening tables, reading rows,
    and the row mutations that keep the secondary indexes in step, standalone
    or inside a transaction. Go iterates over the map of indexes in an
    unspecified order; [order] and [order'] are arbitrary listings of it. *)

From S2P Require Import Prelude KvList Errors Codec KV Engine Database.

Record Table := mkTable { t_db : nat; t_schema : TableSchema; t_indexes : gmap bytes Index }.

(** [indexEntry{key, value}]. *)
Abbreviation indexEntry := (bytes * bytes)%type.

(** ** Loops over stored entries *)

(** The loop of [loadIndexesLocked]. *)
Fixpoint loadIndexes (start : bytes) (schema : TableSchema) (entries : list kv) (indexes : gmap bytes Index)
    : dres (gmap bytes Index) :=
  match entries with
  | [] => Ok indexes
  | (key, value) :: entries =>
      if (len key <=? len start) || negb (beqb (take (length start) key) start) then
        loadIndexes start schema entries indexes
      else
        match decodeEscapedComponent (drop (length start) key) with
        | None => Err ErrInvalidSchema
        | Some name =>
            index <- decodeIndexMetadata name value ;;
            _ <- validateIndex index schema ;;
            loadIndexes start schema entries (<[name := index]> indexes)
        end
  end.

(** The loop of [decodeRows]. *)
Fixpoint decodeRows (schema : TableSchema) (entries : list kv) : dres (list row) :=
  match entries with
  | [] => Ok []
  | (key, value) :: entries =>
      let prefix := rowPrefix (s_name schema) in
      if negb (hasPrefix key prefix) then decodeRows schema entries
      else
        r <- decodeRow schema value ;;
        primary <- decodePrimaryKey (findPrimary schema) (drop (length prefix) key) ;;
        rows <- decodeRows schema entries ;;
        Ok (<[c_name (findPrimary schema) := primary]> r :: rows)
  end.

Definition rowKey (schema : TableSchema) (primaryKey : any) : dres bytes :=
  encoded <- encodeValue (findPrimary schema) primaryKey ;;
  let key := rowPrefix (s_name schema) ++ encoded in
  fail_if len key >? 1000 with ErrInvalidRow ;;
  Ok key.

(** The backfill loop of [CreateIndex]; every row key starts with the row
    prefix, see [tableRowsLocked]. *)
Fixpoint backfill (schema : TableSchema) (index : Index) (rows : list kv) (seen : gmap bytes bytes) : dres (list Mutation) :=
  match rows with
  | [] => Ok []
  | (key, value) :: rows =>
      r <- decodeRow schema value ;;
      indexedValue <- encodeIndexValue (columnByName schema (i_column index)) (row_get r (i_column index)) ;;
      let primaryKey := drop (length (rowPrefix (s_name schema))) key in
      let entryKey := indexEntryKey (s_name schema) index indexedValue primaryKey in
      fail_if i_unique index &&
        match seen !! indexedValue with Some previous => negb (beqb previous primaryKey) | None => false end
        with ErrDuplicateIndexed ;;
      let seen := if i_unique index then <[indexedValue := primaryKey]> seen else seen in
      mutations <- backfill schema index rows seen ;;
      Ok (mkMutation entryKey primaryKey false :: mutations)
  end.

Section Ops.
Context {S : Type} (eng : Store S).
Context (order order' : gmap bytes Index -> list Index).
Abbreviation DM := (stM (Database S) dberr).
Abbreviation TM := (stM (Database S * Tx) dberr).
Abbreviation HM := (stM (Database S * Table) dberr).

(** ** Catalog *)

Definition loadIndexesLocked (schema : TableSchema) : DM (gmap bytes Index) :=
  let start := Byte.x11 :: escape (s_name schema) in
  entries <~ rangeLocked eng start (prefixEnd start) ;;
  lift (loadIndexes start schema entries ∅).

Definition tableRowsLocked (tableName : bytes) : DM (list kv) :=
  let prefix := rowPrefix tableName in
  entries <~ rangeLocked eng prefix (prefixEnd prefix) ;;
  ret (List.filter (fun entry => hasPrefix entry.1 prefix) entries).

Definition CreateTable (schema : TableSchema) : DM Table := fun d =>
  if d_closed d then (Err DErrClosed, d)
  else if d_writerActive d then (Err ErrWriteTransactionActive, d)
  else
    (_ <! validateSchema schema ;;
     let key := descriptorKey (s_name schema) in
     found <~ getLocked eng key ;;
     throw_if bool_decide (is_Some found) with ErrTableExists ;;
     let descriptor := encodeDescriptor schema in
     throw_if len descriptor >? 3000 with EDescriptorTooLong ;;
     _ <~ setLocked eng key descriptor ;;
     ret (mkTable (d_id d) schema ∅)) d.

Definition OpenTable (name : bytes) : DM Table := fun d =>
  if d_closed d then (Err DErrClosed, d)
  else
    (value <~ getLocked eng (descriptorKey name) ;;
     match value with
     | None => throw ErrTableNotFound
     | Some value =>
         schema <! decodeDescriptor value ;;
         throw_if negb (beqb (s_name schema) name) with EDescriptorName ;;
         indexes <~ loadIndexesLocked schema ;;
         ret (mkTable (d_id d) schema indexes)
     end) d.

(** ** Reads *)

Definition Table_Scan (t : Table) : DM (list row) := fun d =>
  if d_closed d then (Err DErrClosed, d)
  else (entries <~ tableRowsLocked (s_name (t_schema t)) ;; lift (decodeRows (t_schema t) entries)) d.

Definition Table_Range (t : Table) (start end_ : any) : DM (list row) := fun d =>
  if d_closed d then (Err DErrClosed, d)
  else
    (startKey <! rowKey (t_schema t) start ;;
     endKey <! rowKey (t_schema t) end_ ;;
     if bltb endKey startKey then ret []
     else
       entries <~ rangeLocked eng startKey endKey ;;
       lift (decodeRows (t_schema t) entries)) d.

Definition Table_Get (t : Table) (primaryKey : any) : DM (option row) := fun d =>
  if d_closed d then (Err DErrClosed, d)
  else
    (key <! rowKey (t_schema t) primaryKey ;;
     raw <~ getLocked eng key ;;
     match raw with
     | None => ret None
     | Some raw =>
         r <! decodeRow (t_schema t) raw ;;
         ret (Some (<[c_name (findPrimary (t_schema t)) := primaryKey]> r))
     end) d.

(** ** Row mutations inside a transaction *)

Fixpoint indexEntries (t : Table) (r : row) (primaryKey : bytes) (allowExisting : bool) (indexes : list Index)
    : TM (list indexEntry) :=
  match indexes with
  | [] => ret []
  | index :: indexes =>
      indexedValue <! encodeIndexValue (columnByName (t_schema t) (i_column index)) (row_get r (i_column index)) ;;
      let key := indexEntryKey (s_name (t_schema t)) index indexedValue primaryKey in
      _ <~ (if i_unique index then
              existing <~ valueLocked eng key ;;
              throw_if match existing with
                       | Some existing => negb allowExisting || negb (beqb existing primaryKey)
                       | None => false
                       end with ErrDuplicateIndexed ;;
              ret tt
            else ret tt) ;;
      entries <~ indexEntries t r primaryKey allowExisting indexes ;;
      ret ((key, primaryKey) :: entries)
  end.
(** [rowKey] starts with the row prefix in every call. *)
Definition transactionIndexEntries (listing : list Index) (t : Table) (r : row) (rowKey : bytes) (allowExisting : bool)
    : TM (list indexEntry) :=
  indexEntries t r (drop (length (rowPrefix (s_name (t_schema t)))) rowKey) allowExisting listing.

Fixpoint recordAll (entries : list indexEntry) (change : indexEntry -> transactionChange) : TM unit :=
  match entries with
  | [] => ret tt
  | entry :: entries => _ <~ record entry.1 (change entry) ;; recordAll entries change
  end.
Definition put_entry (e : indexEntry) : transactionChange := mkChange e.2 false.
Definition del_entry (e : indexEntry) : transactionChange := mkChange [] true.

Definition insertRowLocked (t : Table) (r : row) : TM unit :=
  '(key, value) <! encodeRow (t_schema t) r ;;
  found <~ valueLocked eng key ;;
  throw_if bool_decide (is_Some found) with ErrDuplicatePrimary ;;
  entries <~ transactionIndexEntries (order (t_indexes t)) t r key false ;;
  _ <~ record key (mkChange value false) ;;
  recordAll entries put_entry.

Definition updateRowLocked (t : Table) (r : row) : TM unit :=
  '(key, value) <! encodeRow (t_schema t) r ;;
  old <~ valueLocked eng key ;;
  match old with
  | None => throw ErrRowNotFound
  | Some oldValue =>
      oldRow <! decodeRow (t_schema t) oldValue ;;
      oldEntries <~ transactionIndexEntries (order (t_indexes t)) t oldRow key true ;;
      newEntries <~ transactionIndexEntries (order' (t_indexes t)) t r key true ;;
      _ <~ recordAll oldEntries del_entry ;;
      _ <~ record key (mkChange value false) ;;
      recordAll newEntries put_entry
  end.

Definition deleteRowLocked (t : Table) (primaryKey : any) : TM bool :=
  key <! rowKey (t_schema t) primaryKey ;;
  old <~ valueLocked eng key ;;
  match old with
  | None => ret false
  | Some value =>
      r <! decodeRow (t_schema t) value ;;
      entries <~ transactionIndexEntries (order (t_indexes t)) t r key true ;;
      _ <~ record key (mkChange [] true) ;;
      _ <~ recordAll entries del_entry ;;
      ret true
  end.

(** [Tx.mutateTable]; a nil table or one of another database is refused. *)
Definition mutateTable {A} (mutation : Table -> TM A) : stM (Database S * Tx * option Table) dberr A :=
  fun '(d, tx, table) =>
    if tx_closed tx then (Err ErrTransactionClosed, (d, tx, table))
    else if d_closed d then (Err DErrClosed, (d, tx, table))
    else if tx_readOnly tx then (Err ErrReadOnlyTransaction, (d, tx, table))
    else
      match table with
      | Some t =>
          if negb (t_db t =? tx_db tx)%nat then (Err ErrForeignTransactionTable, (d, tx, table))
          else
            match loadIndexesLocked (t_schema t) d with
            | (Ok indexes, d') =>
                let t := mkTable (t_db t) (t_schema t) indexes in
                let '(r, (d', tx')) := mutation t (d', tx) in (r, (d', tx', Some t))
            | (Err e, d') => (Err e, (d', tx, table))
            | (Panic, d') => (Panic, (d', tx, table))
            | (NoFuel, d') => (NoFuel, (d', tx, table))
            end
      | None => (Err ErrForeignTransactionTable, (d, tx, table))
      end.
Definition Tx_Insert (r : row) := mutateTable (fun t => insertRowLocked t r).
Definition Tx_Update (r : row) := mutateTable (fun t => updateRowLocked t r).
Definition Tx_DeleteRow (primaryKey : any) := mutateTable (fun t => deleteRowLocked t primaryKey).

(** ** Standalone mutations *)

Definition refreshIndexesLocked : HM unit := fun '(d, t) =>
  match loadIndexesLocked (t_schema t) d with
  | (Ok indexes, d') => (Ok tt, (d', mkTable (t_db t) (t_schema t) indexes))
  | (Err e, d') => (Err e, (d', t))
  | (Panic, d') => (Panic, (d', t))
  | (NoFuel, d') => (NoFuel, (d', t))
  end.

(** [Table.mutate]: a fresh transaction that is committed at once. *)
Definition mutate {A} (change : Table -> TM A) : HM A := fun '(d, t) =>
  if d_closed d then (Err DErrClosed, (d, t))
  else if d_writerActive d then (Err ErrWriteTransactionActive, (d, t))
  else
    (_ <~ refreshIndexesLocked ;;
     fun '(d, t) =>
       let '(r, (d', _)) := (a <~ change t ;; _ <~ commitLocked eng ;; ret a) (d, mkTx (d_id d) false false [] ∅) in
       (r, (d', t))) (d, t).
Definition Table_Insert (r : row) : HM unit := mutate (fun t => insertRowLocked t r).
Definition Table_Update (r : row) : HM unit := mutate (fun t => updateRowLocked t r).
Definition Table_Delete (primaryKey : any) : HM bool := mutate (fun t => deleteRowLocked t primaryKey).

(** ** Indexes *)

(** The loop of [FindByIndex]. *)
Fixpoint findRows (schema : TableSchema) (index : Index) (encoded prefix : bytes) (entries : list kv) : DM (list row) :=
  match entries with
  | [] => ret []
  | (key, value) :: entries =>
      if negb (hasPrefix key prefix) then findRows schema index encoded prefix entries
      else
        primaryKey <! (if i_unique index then
                         fail_if negb (len key =? len prefix) with ErrInvalidRow ;; Ok value
                       else
                         let primaryKey := drop (length prefix) key in
                         fail_if negb (beqb primaryKey value) with ErrInvalidRow ;; Ok primaryKey) ;;
        rowValue <~ getLocked eng (rowPrefix (s_name schema) ++ primaryKey) ;;
        match rowValue with
        | None => throw ErrInvalidRow
        | Some rowValue =>
            r <! decodeRow schema rowValue ;;
            actual <! (match encodeIndexValue (columnByName schema (i_column index)) (row_get r (i_column index)) with
                       | Err _ => Err ErrInvalidRow
                       | o => o
                       end) ;;
            throw_if negb (beqb actual encoded) with ErrInvalidRow ;;
            primary <! decodePrimaryKey (findPrimary schema) primaryKey ;;
            rows <~ findRows schema index encoded prefix entries ;;
            ret (<[c_name (findPrimary schema) := primary]> r :: rows)
        end
  end.
(** A step on the database behind a handle. *)
Definition on_handle {A} (m : DM A) : HM A := fun '(d, t) => let '(r, d') := m d in (r, (d', t)).
Definition this_table : HM Table := fun '(d, t) => (Ok t, (d, t)).

Definition FindByIndex (indexName : bytes) (value : any) : HM (list row) := fun '(d, t) =>
  if d_closed d then (Err DErrClosed, (d, t))
  else
    (_ <~ refreshIndexesLocked ;;
     t <~ this_table ;;
     match t_indexes t !! indexName with
     | None => throw ErrIndexNotFound
     | Some index =>
         encoded <! encodeIndexValue (columnByName (t_schema t) (i_column index)) value ;;
         let prefix := indexValuePrefix (s_name (t_schema t)) index encoded in
         entries <~ on_handle (rangeLocked eng prefix (prefixEnd prefix)) ;;
         on_handle (findRows (t_schema t) index encoded prefix entries)
     end) (d, t).

Definition CreateIndex (index : Index) : HM unit := fun '(d, t) =>
  if d_closed d then (Err DErrClosed, (d, t))
  else if d_writerActive d then (Err ErrWriteTransactionActive, (d, t))
  else
    (_ <~ refreshIndexesLocked ;;
     t <~ this_table ;;
     _ <! validateIndex index (t_schema t) ;;
     throw_if bool_decide (is_Some (t_indexes t !! i_name index)) with ErrIndexExists ;;
     let metadataKey := indexMetadataKey (s_name (t_schema t)) (i_name index) in
     found <~ on_handle (getLocked eng metadataKey) ;;
     throw_if bool_decide (is_Some found) with ErrIndexExists ;;
     rows <~ on_handle (tableRowsLocked (s_name (t_schema t))) ;;
     mutations <! backfill (t_schema t) index rows ∅ ;;
     _ <~ on_handle (applyBatchLocked eng (mutations ++ [mkMutation metadataKey (encodeIndexMetadata index) false])) ;;
     fun '(d, t) => (Ok tt, (d, mkTable (t_db t) (t_schema t) (<[i_name index := index]> (t_indexes t))))) (d, t).

(** [Indexes] returns nil when the definitions cannot be loaded. *)
Definition Table_Indexes : stM (Database S * Table) dberr (list Index) := fun '(d, t) =>
  if d_closed d then (Ok [], (d, t))
  else
    match refreshIndexesLocked (d, t) with
    | (Ok _, (d', t')) => (Ok (order (t_indexes t')), (d', t'))
    | (Err _, s) => (Ok [], s)
    | (Panic, s) => (Panic, s)
    | (NoFuel, s) => (NoFuel, s)
    end.
End Ops.
