(* ===== verification/TableSpec.v ===== *)
(** * The relational invariant

    What the stored map says about one table: its rows, its index definitions
    and its index entries; and the lemmas by which the mutations of
    src/db/transaction_table.go keep rows and indexes in step. *)

From S2P Require Import Prelude KvList Errors Codec CodecSpec Page PageManager KV KVSpec Engine Database DatabaseSpec Table.

(** ** Key spaces *)

Definition defPrefix (tableName : bytes) : bytes := Byte.x11 :: escape tableName.

Lemma rowPrefix_inj n1 n2 a b : rowPrefix n1 ++ a = rowPrefix n2 ++ b -> n1 = n2 /\ a = b.
Proof. unfold rowPrefix. cbn. intros [= H]. by apply escape_inj. Qed.
Lemma defPrefix_inj n1 n2 a b : defPrefix n1 ++ a = defPrefix n2 ++ b -> n1 = n2 /\ a = b.
Proof. unfold defPrefix. cbn. intros [= H]. by apply escape_inj. Qed.
Lemma entryPrefix_inj n1 n2 i1 i2 a b :
  indexEntryPrefix n1 i1 ++ a = indexEntryPrefix n2 i2 ++ b -> n1 = n2 /\ i1 = i2 /\ a = b.
Proof.
  unfold indexEntryPrefix. cbn. rewrite <- !app_assoc. intros [= H]. apply escape_inj in H as [-> H].
  by apply escape_inj in H as [-> ->].
Qed.
Lemma row_entry_ne n1 a n2 i b : rowPrefix n1 ++ a <> indexEntryPrefix n2 i ++ b.
Proof. done. Qed.
Lemma def_entry_ne n1 a n2 i b : defPrefix n1 ++ a <> indexEntryPrefix n2 i ++ b.
Proof. done. Qed.
Lemma row_def_ne n1 a n2 b : rowPrefix n1 ++ a <> defPrefix n2 ++ b.
Proof. done. Qed.
Lemma indexEntryKey_app name index enc k :
  indexEntryKey name index enc k = indexEntryPrefix name (i_name index) ++ enc ++ (if i_unique index then [] else k).
Proof.
  unfold indexEntryKey, indexValuePrefix. destruct (i_unique index); cbn [negb]; [by rewrite app_nil_r|by rewrite app_assoc].
Qed.
Lemma indexMetadataKey_app name i : indexMetadataKey name i = defPrefix name ++ escape i.
Proof. done. Qed.

Lemma escape_length v : len (escape v) <= 2 * len v + 2.
Proof.
  unfold escape. rewrite len_app. change (len [b00; b00]) with 2.
  assert (len (escape_body v) <= 2 * len v); [|lia].
  induction v as [|b v IH]; cbn [escape_body]; [done|]. destruct (decide (b = b00)); rewrite !len_cons; lia.
Qed.
Lemma prefixEnd_length p : len (prefixEnd p) <= len p + 1.
Proof.
  unfold prefixEnd. destruct (prefixEnd_rev (reverse p)) as [r|] eqn:E; [|by rewrite len_app].
  unfold len. rewrite length_reverse. assert (length r <= length (reverse p))%nat; [|rewrite length_reverse in *; lia].
  revert r E. induction (reverse p) as [|b l IH]; intros r; cbn [prefixEnd_rev]; [done|].
  destruct (decide (b = bff)); [intros H; apply IH in H; cbn; lia|intros [= <-]; cbn; lia].
Qed.

(** ** The invariant *)

Section Invariant.
Context (s : TableSchema).
Abbreviation P := (rowPrefix (s_name s)).
Abbreviation E index := (indexEntryPrefix (s_name s) (i_name index)).

(** A stored row came from [encodeRow]. *)
Definition rows_ok (m : gmap bytes bytes) : Prop := forall k val,
  m !! (P ++ k) = Some val -> exists r, row_ok r /\ encodeRow s r = Ok (P ++ k, val).

(** The stored definitions are exactly those of [idx]. *)
Record defs_ok (idx : gmap bytes Index) (m : gmap bytes bytes) : Prop := {
  df_stored : forall t v, t <> [] ->
    m !! (defPrefix (s_name s) ++ t) = Some v <->
    exists index, idx !! i_name index = Some index /\ t = escape (i_name index) /\ v = encodeIndexMetadata index;
  df_valid : forall name index, idx !! name = Some index -> i_name index = name /\ validateIndex index s = Ok tt;
}.

(** The key suffix under which an index lists the row [val] with primary key
    [k]. *)
Definition entry_of (index : Index) (k val : bytes) : option bytes :=
  match decodeRow s val with
  | Ok r =>
      match encodeIndexValue (columnByName s (i_column index)) (row_get r (i_column index)) with
      | Ok enc => Some (enc ++ (if i_unique index then [] else k))
      | _ => None
      end
  | _ => None
  end.

(** An index lists exactly the stored rows, each under its indexed value. *)
Definition indexed (index : Index) (m : gmap bytes bytes) : Prop := forall t k,
  m !! (E index ++ t) = Some k <-> exists val, m !! (P ++ k) = Some val /\ entry_of index k val = Some t.

Record consistent (idx : gmap bytes Index) (m : gmap bytes bytes) : Prop := {
  cs_schema : schema_ok s;
  cs_rows : rows_ok m;
  cs_defs : defs_ok idx m;
  cs_indexed : forall name index, idx !! name = Some index -> indexed index m;
  cs_nothing : forall name t, idx !! name = None -> m !! (indexEntryPrefix (s_name s) name ++ t) = None;
}.

(** ** Replacing one row *)

(** The row of [k] goes from [old] to [new], its entry in [index] from the old
    suffix to the new one. *)
Record reindexes (index : Index) (k : bytes) (old new : option bytes) (m m' : gmap bytes bytes) : Prop := {
  ri_old : m !! (P ++ k) = old;
  ri_new : m' !! (P ++ k) = new;
  ri_rows : forall x, x <> k -> m' !! (P ++ x) = m !! (P ++ x);
  ri_entry : forall t, m' !! (E index ++ t) =
    if decide (Some t = (new ≫= entry_of index k)) then Some k
    else if decide (Some t = (old ≫= entry_of index k)) then None
    else m !! (E index ++ t);
  ri_free : forall t v, Some t = (new ≫= entry_of index k) -> m !! (E index ++ t) = Some v -> v = k;
}.

Lemma reindexes_indexed index k old new m m' : indexed index m -> reindexes index k old new m m' -> indexed index m'.
Proof.
  intros Hi [Ho Hn Hr He Hf] t v. rewrite He. destruct (decide (v = k)) as [->|Hv].
  - (* the row itself *)
    split.
    + destruct (decide (Some t = (new ≫= entry_of index k))) as [Hnew|Hnew].
      * intros _. rewrite Hn. destruct new as [val|]; cbn in Hnew; [|done]. by exists val.
      * destruct (decide (Some t = (old ≫= entry_of index k))) as [|Hold]; [done|]. intros H.
        apply Hi in H as (val & Hval & Hen). rewrite Ho in Hval. exfalso. apply Hold. by rewrite Hval.
    + intros (val & Hval & Hen). rewrite Hn in Hval. rewrite decide_True; [done|]. by rewrite Hval.
  - (* another row *)
    rewrite Hr by done. rewrite <- (Hi t v). destruct (decide (Some t = (new ≫= entry_of index k))) as [Hnew|Hnew].
    + split; [intros [= <-]; done|]. intros H. by rewrite (Hf t v Hnew H) in Hv.
    + destruct (decide (Some t = (old ≫= entry_of index k))) as [Hold|Hold]; [|done].
      split; [done|]. intros H. destruct old as [val|]; cbn in Hold; [|done].
      assert (m !! (E index ++ t) = Some k) by (apply Hi; by exists val). congruence.
Qed.

(** The same for every index at once. *)
Lemma reindex_consistent idx k old new m m' :
  consistent idx m ->
  (forall val, new = Some val -> exists r, row_ok r /\ encodeRow s r = Ok (P ++ k, val)) ->
  (forall t, m' !! (defPrefix (s_name s) ++ t) = m !! (defPrefix (s_name s) ++ t)) ->
  (forall name t, idx !! name = None -> m' !! (indexEntryPrefix (s_name s) name ++ t) = m !! (indexEntryPrefix (s_name s) name ++ t)) ->
  m !! (P ++ k) = old -> m' !! (P ++ k) = new -> (forall x, x <> k -> m' !! (P ++ x) = m !! (P ++ x)) ->
  (forall name index, idx !! name = Some index -> reindexes index k old new m m') ->
  consistent idx m'.
Proof.
  intros [Hs Hr Hd Hi Hno] Hval Hdef Hnone Ho Hn Hrows Hre. split; [done| | | |].
  - intros x val. destruct (decide (x = k)) as [->|Hx]; [rewrite Hn; apply Hval|rewrite Hrows by done; apply Hr].
  - destruct Hd as [Hd Hv]. split; [|done]. intros t v Ht. by rewrite Hdef, Hd.
  - intros name index Hidx. by eapply reindexes_indexed; [apply (Hi name)|apply (Hre name)].
  - intros name t Hname. rewrite Hnone by done. by apply Hno.
Qed.

(** ** Rows as stored *)

Lemma findColumn_elem name c : findColumn s name = Some c -> c ∈ s_columns s /\ c_name c = name.
Proof.
  unfold findColumn. induction (s_columns s) as [|d cs IH]; [done|]. cbn [findColumn_in].
  destruct (beqb (c_name d) name) eqn:Eb; bool_order.
  - intros [= <-]. split; [left|done].
  - intros H. apply IH in H as [? ?]. split; [by right|done].
Qed.

(** An index reads the same value from the row given and from the row stored. *)
Lemma stored_cell r k val c :
  schema_ok s -> row_ok r -> encodeRow s r = Ok (P ++ k, val) -> c ∈ s_columns s -> c_primary c = false ->
  exists r', decodeRow s val = Ok r' /\ row_get r' (c_name c) = row_get r (c_name c).
Proof.
  intros Hs Hr He Hc Hp. apply encodeRow_inv in He. pose proof (decodeRow_encoded s r _ _ He Hr) as (Hdec & _).
  eexists. split; [exact Hdec|]. unfold row_get at 1. rewrite cells_row_lookup by (apply Hs || done). by rewrite Hp.
Qed.

Lemma index_column index :
  validateIndex index s = Ok tt ->
  exists c, columnByName s (i_column index) = c /\ c ∈ s_columns s /\ c_name c = i_column index /\ c_primary c = false.
Proof.
  unfold validateIndex. destruct (_ || _); [done|]. destruct (findColumn s (i_column index)) as [c|] eqn:Ef; [|done].
  destruct (c_primary c) eqn:Ep; [done|]. intros _. exists c. unfold columnByName. rewrite Ef.
  by apply findColumn_elem in Ef as [? ?].
Qed.

(** The suffix computed from the row given is that of the row stored. *)
Lemma entry_of_given index r k val :
  schema_ok s -> validateIndex index s = Ok tt -> row_ok r -> encodeRow s r = Ok (P ++ k, val) ->
  entry_of index k val =
    match encodeIndexValue (columnByName s (i_column index)) (row_get r (i_column index)) with
    | Ok enc => Some (enc ++ (if i_unique index then [] else k))
    | _ => None
    end.
Proof.
  intros Hs Hv Hr He. destruct (index_column index Hv) as (c & Hc & Hin & Hname & Hp).
  destruct (stored_cell r k val c Hs Hr He Hin Hp) as (r' & Hdec & Hcell).
  unfold entry_of. rewrite Hdec, <- Hname, Hcell, Hname. done.
Qed.

(** Every column value of a stored row can be encoded. *)
Lemma encodeCells_encodes cs r : forall i cells c,
  encodeCells cs i r = Ok cells -> c ∈ cs -> c_primary c = false -> exists e, encodeValue c (row_get r (c_name c)) = Ok e.
Proof.
  induction cs as [|d cs IH]; intros i cells c; cbn [encodeCells]; [by intros _ ?%not_elem_of_nil|].
  intros H [->|Hc]%elem_of_cons Hp.
  - rewrite Hp in H. destruct (encodeValue d _) as [e| | |]; try done. by exists e.
  - destruct (c_primary d); [by eapply IH|]. destruct (encodeValue d _); try done.
    destruct (encodeCells cs (i + 1) r) eqn:Er; try done. by eapply IH.
Qed.
Lemma encodeIndexValue_plain c v : c_primary c = false -> encodeIndexValue c v = encodeValue c v.
Proof. intros H. unfold encodeIndexValue. destruct c. cbn in *. by subst. Qed.
Lemma stored_entry index r k val :
  schema_ok s -> validateIndex index s = Ok tt -> row_ok r -> encodeRow s r = Ok (P ++ k, val) ->
  exists enc v, encodeIndexValue (columnByName s (i_column index)) (row_get r (i_column index)) = Ok enc /\
    encodes (columnByName s (i_column index)) v enc /\ any_ok v /\ v = row_get r (i_column index) /\
    entry_of index k val = Some (enc ++ (if i_unique index then [] else k)).
Proof.
  intros Hs Hv Hr He. rewrite (entry_of_given index r k val) by done.
  destruct (index_column index Hv) as (c & -> & Hin & Hname & Hp). pose proof (encodeRow_inv _ _ _ _ He) as Hrow.
  destruct (er_val _ _ _ _ Hrow) as (cells & Hcells & _).
  destruct (encodeCells_encodes _ _ _ _ c Hcells Hin Hp) as [e Hev]. rewrite Hname in Hev.
  exists e, (row_get r (i_column index)). rewrite encodeIndexValue_plain, Hev by done. split_and!; try done.
  - apply encodeValue_encodes in Hev as [_ ?]; [done|done].
  - by apply row_get_ok.
Qed.

(** A non-unique index cannot list two rows under one key: the indexed value is
    self-delimiting, so the key determines the primary key. *)
Lemma nonunique_free idx name index r k val t v m :
  consistent idx m -> idx !! name = Some index -> i_unique index = false ->
  row_ok r -> encodeRow s r = Ok (P ++ k, val) -> entry_of index k val = Some t ->
  m !! (E index ++ t) = Some v -> v = k.
Proof.
  intros [Hs Hrows [_ Hval] Hi _] Hidx Hu Hr He Ht Hm. destruct (Hval _ _ Hidx) as [_ Hv].
  apply (Hi _ _ Hidx) in Hm as (val' & Hval' & Hen').
  destruct (Hrows v val' Hval') as (r' & Hr' & He').
  destruct (stored_entry index r k val Hs Hv Hr He) as (enc & w & _ & Henc & Hok & _ & Et).
  destruct (stored_entry index r' v val' Hs Hv Hr' He') as (enc' & w' & _ & Henc' & Hok' & _ & Et').
  rewrite Hu in Et, Et'. rewrite Ht in Et. rewrite Hen' in Et'. injection Et as ->. injection Et' as Heq.
  symmetry. by apply (encodes_self _ _ _ _ _ _ _ Henc Henc' Hok Hok' Heq).
Qed.

(** The invariant depends on the keys of the table alone. *)
Lemma consistent_agree idx m m' :
  consistent idx m -> (forall x, m' !! (P ++ x) = m !! (P ++ x)) ->
  (forall x, m' !! (defPrefix (s_name s) ++ x) = m !! (defPrefix (s_name s) ++ x)) ->
  (forall name x, m' !! (indexEntryPrefix (s_name s) name ++ x) = m !! (indexEntryPrefix (s_name s) name ++ x)) ->
  consistent idx m'.
Proof.
  intros [Hs Hr [Hst Hval] Hi Hn] Hrow Hdef Hent. split; [done| | | |].
  - intros x val. rewrite Hrow. apply Hr.
  - split; [|done]. intros t v Ht. rewrite Hdef. by apply Hst.
  - intros name index Hidx t v. rewrite Hent, Hrow. by apply (Hi name index).
  - intros name t Hidx. rewrite Hent. by apply Hn.
Qed.

(** ** A new table *)

(** Nothing is stored under the table's name. *)
Definition unused (m : gmap bytes bytes) : Prop :=
  (forall k, m !! (P ++ k) = None) /\ (forall x, m !! (defPrefix (s_name s) ++ x) = None) /\
  (forall name x, m !! (indexEntryPrefix (s_name s) name ++ x) = None).

Lemma unused_consistent m : schema_ok s -> unused m -> consistent ∅ (<[descriptorKey (s_name s) := encodeDescriptor s]> m).
Proof.
  intros Hs (H1 & H2 & H3). split; [done| | | |].
  - intros k val. by rewrite lookup_insert_ne, H1 by done.
  - split; [|intros name index; by rewrite lookup_empty]. intros t' v _. rewrite lookup_insert_ne, H2 by done. split; [done|].
    intros (index & Hi & _). by rewrite lookup_empty in Hi.
  - intros name index. by rewrite lookup_empty.
  - intros name t' _. by rewrite lookup_insert_ne, H3 by done.
Qed.
End Invariant.
