(* ===== verification/RowSpec.v ===== *)
(** * Row mutations and the relational invariant

    The mutations of src/db/transaction_table.go, on the view of a transaction:
    each keeps the invariant of TableSpec and changes one row. *)

From S2P Require Import Prelude KvList Errors Codec CodecSpec Page PageManager KV KVSpec Engine Database DatabaseSpec.
From S2P Require Import Table TableSpec.

Section Rows.
Context {S : Type} (eng : Store S) {Sp : StoreSpec eng}.
Implicit Types d : Database S.

(** ** Reading and recording through a transaction *)

Lemma valueLocked_ok d m tx key :
  holds eng d m -> key_ok d key -> valueLocked eng key (d, tx) = (Ok (view (tx_changes tx) m !! key), (d, tx)).
Proof.
  intros H Hk. unfold valueLocked. rewrite view_lookup. destruct (tx_changes tx !! key) as [ch|]; [done|].
  unfold on_db. by rewrite (getLocked_ok eng d m).
Qed.

(** A transaction that only grew by recorded changes. *)
Record recorded (tx tx' : Tx) (n : nat) : Prop := {
  rc_db : tx_db tx' = tx_db tx;
  rc_ro : tx_readOnly tx' = tx_readOnly tx;
  rc_closed : tx_closed tx' = tx_closed tx;
  rc_wf : tx_wf tx -> tx_wf tx';
  rc_len : (length (tx_order tx') <= length (tx_order tx) + n)%nat;
}.
Lemma recorded_refl tx : recorded tx tx 0.
Proof. split; try done; lia. Qed.
Lemma recorded_one key ch tx : recorded tx (recordLocked key ch tx) 1.
Proof.
  split; try done; [apply recordLocked_wf|]. cbn. destruct (tx_changes tx !! key); [lia|]. rewrite length_app. cbn. lia.
Qed.
Lemma recorded_trans a b c n n' : recorded a b n -> recorded b c n' -> recorded a c (n + n').
Proof. intros [? ? ? ? ?] [? ? ? ? ?]. split; try congruence; try lia. auto. Qed.

Lemma recordAll_ok es (f : indexEntry -> transactionChange) : forall d tx, exists tx',
  recordAll es f (d, tx) = (Ok tt, (d, tx')) /\ recorded tx tx' (length es) /\
  (forall c, (forall e, e ∈ es -> f e = c) ->
   forall m x, view (tx_changes tx') m !! x = if decide (x ∈ es.*1) then seen (Some c) None else view (tx_changes tx) m !! x).
Proof.
  induction es as [|e es IH]; intros d tx; cbn [recordAll length].
  - exists tx. split; [done|]. split; [apply recorded_refl|]. intros c _ m x. by rewrite decide_False by apply not_elem_of_nil.
  - destruct (IH d (recordLocked e.1 (f e) tx)) as (tx' & Hrun & Hrec & Hview). exists tx'. split; [exact Hrun|].
    split; [exact (recorded_trans _ _ _ _ _ (recorded_one e.1 (f e) tx) Hrec)|]. intros c Hc m x.
    rewrite (Hview c) by (intros; apply Hc; by right). rewrite (Hc e) by left. cbn [fmap list_fmap]. rewrite !view_lookup.
    cbn [tx_changes recordLocked]. destruct (decide (x ∈ es.*1)) as [Hx|Hx].
    + by rewrite decide_True by (by right).
    + destruct (decide (x = e.1)) as [->|Hne].
      * rewrite decide_True by left. by rewrite lookup_insert_eq.
      * rewrite decide_False by (rewrite elem_of_cons; naive_solver). by rewrite lookup_insert_ne.
Qed.

(** ** Index entries of a row *)

(** The entry of a row in one index, with the result of the uniqueness check
    against the view [m]. *)
Definition lists (t : Table) (m : gmap bytes bytes) (r : row) (k : bytes) (allow : bool) (index : Index) (e : indexEntry) : Prop :=
  e.2 = k /\
  (exists enc, encodeIndexValue (columnByName (t_schema t) (i_column index)) (row_get r (i_column index)) = Ok enc /\
    e.1 = indexEntryKey (s_name (t_schema t)) index enc k) /\
  (i_unique index = true -> forall v, m !! e.1 = Some v -> allow = true /\ v = k).

Lemma indexEntryKey_nonempty name index enc k : indexEntryKey name index enc k <> [].
Proof. rewrite indexEntryKey_app. done. Qed.

Lemma indexEntries_ok t r k allow d m tx : holds eng d m -> forall listing,
  ends (indexEntries eng t r k allow listing) (d, tx)
    (fun es st => st = (d, tx) /\ Forall2 (lists t (view (tx_changes tx) m) r k allow) listing es)
    (fun _ st => st = (d, tx)).
Proof.
  intros Hd. induction listing as [|index listing IH]; cbn [indexEntries]; [by split; [|constructor]|].
  destruct (encodeIndexValue _ _) as [enc|e| |] eqn:Ee.
  2:{ by eapply ends_lift_err. }
  2:{ exfalso. clear -Ee. unfold encodeIndexValue, encodeValue in Ee. repeat case_match; done. }
  2:{ exfalso. clear -Ee. unfold encodeIndexValue, encodeValue in Ee. repeat case_match; done. }
  eapply ends_lift; [done|]. apply ends_bind. set (key := indexEntryKey _ _ _ _).
  eapply ends_mono with (Q := fun _ st => st = (d, tx) /\
    (i_unique index = true -> forall v, view (tx_changes tx) m !! key = Some v -> allow = true /\ v = k))
    (R := fun _ st => st = (d, tx)).
  - destruct (i_unique index); [|done]. apply ends_bind. unfold ends at 1.
    rewrite (valueLocked_ok d m tx key Hd) by (intros _; apply indexEntryKey_nonempty).
    apply ends_guard; [done|]. intros Hg. split; [done|]. intros _ v Hv. rewrite Hv in Hg.
    apply orb_false_iff in Hg as [H1 H2]. apply negb_false_iff in H1, H2. bool_order. done.
  - intros _ st [-> Hu]. apply ends_bind. eapply ends_mono; [exact IH| |done].
    intros es st [-> Hes]. split; [done|]. constructor; [|done]. split; [done|]. split; [by exists enc|exact Hu].
  - done.
Qed.

(** The listed keys, index by index. *)
Lemma lists_keys t m r k allow listing es :
  NoDup (map i_name listing) -> Forall2 (lists t m r k allow) listing es ->
  (forall e, e ∈ es -> e.2 = k) /\
  (forall index t', index ∈ listing -> indexEntryPrefix (s_name (t_schema t)) (i_name index) ++ t' ∈ es.*1 <->
     exists enc, encodeIndexValue (columnByName (t_schema t) (i_column index)) (row_get r (i_column index)) = Ok enc /\
       t' = enc ++ (if i_unique index then [] else k)) /\
  (forall index enc v, index ∈ listing -> i_unique index = true ->
     encodeIndexValue (columnByName (t_schema t) (i_column index)) (row_get r (i_column index)) = Ok enc ->
     m !! (indexEntryPrefix (s_name (t_schema t)) (i_name index) ++ enc) = Some v -> allow = true /\ v = k) /\
  (forall x, x ∈ es.*1 -> exists index t', index ∈ listing /\ x = indexEntryPrefix (s_name (t_schema t)) (i_name index) ++ t').
Proof.
  intros Hd H. induction H as [|index e listing es (Hk & (enc & Henc & Hkey) & Hu) _ IH]; cbn [map fmap list_fmap] in *.
  { split_and!; intros *; try (by intros ?%not_elem_of_nil). }
  apply NoDup_cons in Hd as [Hn Hd]. destruct (IH Hd) as (IH1 & IH2 & IH3 & IH4). clear IH.
  rewrite indexEntryKey_app in Hkey. split_and!.
  - intros e' [->|He]%elem_of_cons; auto.
  - intros i t'. rewrite !elem_of_cons. intros [->|Hi].
    + split.
      * intros [Heq|Hin].
        -- rewrite Hkey in Heq. apply entryPrefix_inj in Heq as (_ & _ & ->). by exists enc.
        -- exfalso. apply IH4 in Hin as (j & t'' & Hj & Heq). apply entryPrefix_inj in Heq as (_ & Heq & _).
           apply Hn. rewrite Heq. apply list_elem_of_fmap. eauto.
      * intros (enc' & Henc' & ->). left. rewrite Hkey. congruence.
    + rewrite <- IH2 by done. split; [|by right]. intros [Heq|Hin]; [|done]. exfalso. rewrite Hkey in Heq.
      apply entryPrefix_inj in Heq as (_ & Heq & _). apply Hn. rewrite <- Heq. apply list_elem_of_fmap. eauto.
  - intros i enc' v [->|Hi]%elem_of_cons Hui He Hm; [|by eapply IH3].
    apply (Hu Hui v). rewrite Hkey, Hui, app_nil_r. congruence.
  - intros x [->|Hx]%elem_of_cons; [exists index; rewrite Hkey; eexists; split; [left|done]|].
    destruct (IH4 x Hx) as (i & t' & Hi & ->). exists i, t'. split; [by right|done].
Qed.

(** ** One row changes *)

Section Change.
Context (s : TableSchema) (idx : gmap bytes Index).
Abbreviation P := (rowPrefix (s_name s)).
Abbreviation E index := (indexEntryPrefix (s_name s) (i_name index)).

(** A listing of the indexes, as a [range] loop over the map visits them. *)
Definition listing_of (l : list Index) : Prop := l ≡ₚ (map_to_list idx).*2.

Lemma listing_spec l m :
  listing_of l -> defs_ok s idx m ->
  NoDup (map i_name l) /\ (forall index, index ∈ l <-> idx !! i_name index = Some index) /\ length l = size idx.
Proof.
  unfold listing_of. intros Hl [_ Hv]. assert (Hin : forall index, index ∈ l <-> idx !! i_name index = Some index).
  { intros index. rewrite Hl, list_elem_of_fmap. split.
    - intros ([name i] & -> & Hi%elem_of_map_to_list). cbn. by destruct (Hv _ _ Hi) as [-> _].
    - intros Hi. exists (i_name index, index). split; [done|]. by apply elem_of_map_to_list. }
  split; [|split; [done|by rewrite Hl, length_fmap, length_map_to_list]].
  change (NoDup (i_name <$> l)). rewrite Hl, <- list_fmap_compose.
  assert (Heq : (i_name ∘ snd) <$> map_to_list idx = (map_to_list idx).*1).
  { apply list_fmap_ext. intros i [name index] Hi. cbn. apply list_elem_of_lookup_2, elem_of_map_to_list in Hi.
    by destruct (Hv _ _ Hi) as [-> _]. }
  rewrite Heq. apply NoDup_fst_map_to_list.
Qed.

(** [ks] are the keys under which the indexes list the row [o] of [k]. *)
Record keys_of (k : bytes) (o : option bytes) (ks : list bytes) : Prop := {
  ko_iff : forall name index t, idx !! name = Some index -> E index ++ t ∈ ks <-> Some t = (o ≫= entry_of s index k);
  ko_only : forall x, x ∈ ks -> exists name index t, idx !! name = Some index /\ x = E index ++ t;
}.
Lemma keys_of_none k : keys_of k None [].
Proof. split; [intros; cbn; split; [by intros ?%not_elem_of_nil|done]|by intros x ?%not_elem_of_nil]. Qed.

Lemma keys_of_listed t m0 m r k val allow l es :
  t_schema t = s -> defs_ok s idx m0 -> listing_of l -> Forall2 (lists t m r k allow) l es ->
  (forall name index, idx !! name = Some index -> entry_of s index k val =
    match encodeIndexValue (columnByName s (i_column index)) (row_get r (i_column index)) with
    | Ok enc => Some (enc ++ (if i_unique index then [] else k)) | _ => None end) ->
  keys_of k (Some val) es.*1 /\ (forall e, e ∈ es -> e.2 = k) /\ length es = size idx /\
  (forall name index t v, idx !! name = Some index -> i_unique index = true ->
     Some t = entry_of s index k val -> m !! (E index ++ t) = Some v -> allow = true /\ v = k).
Proof.
  intros Ht Hdef Hl Hes Hent. destruct (listing_spec l m0 Hl Hdef) as (Hd & Hin & Hlen).
  destruct (lists_keys t m r k allow l es Hd Hes) as (H1 & H2 & H3 & H4).
  rewrite Ht in H2, H3, H4. split_and!.
  - split.
    + intros name index t' Hi. destruct (df_valid _ _ _ Hdef _ _ Hi) as [Hn _]. subst name.
      rewrite H2 by (by apply Hin). cbn. rewrite (Hent _ _ Hi). split.
      * intros (enc & -> & ->). done.
      * destruct (encodeIndexValue _ _) as [enc| | |]; try done. intros [= ->]. by exists enc.
    + intros x Hx. destruct (H4 x Hx) as (index & t' & Hi & ->). exists (i_name index), index, t'. split; [by apply Hin|done].
  - done.
  - rewrite <- Hlen. symmetry. by eapply Forall2_length.
  - intros name index t' v Hi Hu Ht' Hm. rewrite (Hent _ _ Hi), Hu in Ht'.
    destruct (df_valid _ _ _ Hdef _ _ Hi) as [Hn _]. subst name.
    destruct (encodeIndexValue _ _) as [enc| | |] eqn:Ee; try done. injection Ht' as ->. rewrite app_nil_r in Hm.
    apply (H3 index enc v); [by apply Hin|done..].
Qed.

(** What a row mutation does to the stored map. *)
Record row_changed (k : bytes) (old new : option bytes) (m m' : gmap bytes bytes) : Prop := {
  rg_consistent : consistent s idx m';
  rg_old : m !! (P ++ k) = old;
  rg_new : m' !! (P ++ k) = new;
  rg_rows : forall x, x <> k -> m' !! (P ++ x) = m !! (P ++ x);
  rg_frame : forall x, m' !! x <> m !! x ->
    x = P ++ k \/ exists name index t, idx !! name = Some index /\ x = E index ++ t;
}.

Lemma row_change k old new oldKeys newKeys m m' :
  consistent s idx m -> m !! (P ++ k) = old ->
  (forall val, new = Some val -> exists r, row_ok r /\ encodeRow s r = Ok (P ++ k, val)) ->
  keys_of k old oldKeys -> keys_of k new newKeys ->
  (forall name index t v val, idx !! name = Some index -> i_unique index = true -> new = Some val ->
     Some t = entry_of s index k val -> m !! (E index ++ t) = Some v -> v = k) ->
  (forall x, m' !! x = if decide (x ∈ newKeys) then Some k else if decide (x ∈ oldKeys) then None
     else if decide (x = P ++ k) then new else m !! x) ->
  row_changed k old new m m'.
Proof.
  intros C Hold Hnew Ko Kn Hfree Hm'.
  assert (Hout : forall x, (forall name index t, idx !! name = Some index -> x <> E index ++ t) ->
    m' !! x = if decide (x = P ++ k) then new else m !! x).
  { intros x Hx. rewrite Hm', (decide_False (P := x ∈ newKeys)), (decide_False (P := x ∈ oldKeys)); [done| |].
    - intros Hin. destruct (ko_only _ _ _ Ko x Hin) as (name & index & t & Hi & ->). by apply (Hx name index t).
    - intros Hin. destruct (ko_only _ _ _ Kn x Hin) as (name & index & t & Hi & ->). by apply (Hx name index t). }
  assert (Hself : m' !! (P ++ k) = new) by (rewrite Hout by (intros; apply row_entry_ne); by rewrite decide_True).
  assert (Hrows : forall x, x <> k -> m' !! (P ++ x) = m !! (P ++ x)).
  { intros x Hx. rewrite Hout by (intros; apply row_entry_ne). rewrite decide_False; [done|].
    intros H. by apply rowPrefix_inj in H as [_ ?]. }
  split; [|done..|].
  - apply (reindex_consistent s idx k old new m m'); try done.
    + intros t. rewrite Hout by (intros; apply def_entry_ne). by rewrite decide_False by done.
    + intros name t Hname. rewrite Hout; [by rewrite decide_False by done|].
      intros name' index t' Hi Heq. apply entryPrefix_inj in Heq as (_ & Heq & _).
      destruct (df_valid _ _ _ (cs_defs _ _ _ C) _ _ Hi) as [Hn _]. congruence.
    + intros name index Hi. split; [done..| |].
      * intros t. rewrite Hm'. rewrite (decide_ext (E index ++ t ∈ newKeys) (Some t = (new ≫= entry_of s index k))) by (by apply (ko_iff _ _ _ Kn name)).
        rewrite (decide_ext (E index ++ t ∈ oldKeys) (Some t = (old ≫= entry_of s index k))) by (by apply (ko_iff _ _ _ Ko name)).
        by rewrite (decide_False (P := E index ++ t = P ++ k)) by done.
      * intros t v Ht Hv. destruct new as [val|]; [|done]. cbn in Ht. destruct (i_unique index) eqn:Hu.
        -- by eapply Hfree.
        -- destruct (Hnew val eq_refl) as (r & Hr & He). by eapply (nonunique_free s idx).
  - intros x Hx. rewrite Hm' in Hx. destruct (decide (x ∈ newKeys)) as [Hin|_]; [right; by apply (ko_only _ _ _ Kn)|].
    destruct (decide (x ∈ oldKeys)) as [Hin|_]; [right; by apply (ko_only _ _ _ Ko)|].
    destruct (decide (x = P ++ k)); [by left|done].
Qed.
End Change.
End Rows.
