(* ===== verification/MutationSpec.v ===== *)
(** * Inserting, updating and deleting rows

    [insertRowLocked], [updateRowLocked] and [deleteRowLocked] of
    src/db/transaction_table.go keep the relational invariant on the view of
    their transaction and change exactly one row. *)

From S2P Require Import Prelude KvList Errors Codec CodecSpec Page PageManager KV KVSpec Engine Database DatabaseSpec.
From S2P Require Import Table TableSpec RowSpec.

(** ** The encoders return a value or an error *)

Lemma encodeValue_total c v : gives (encodeValue c v) (fun _ => True).
Proof. unfold encodeValue. repeat case_match; done. Qed.
Lemma checkPresent_total cs r : forall pk, gives (checkPresent cs r pk) (fun _ => True).
Proof. induction cs as [|c cs IH]; intros pk; cbn [checkPresent]; [done|]. by destruct (_ && _). Qed.
Lemma encodeCells_total cs r : forall i, gives (encodeCells cs i r) (fun _ => True).
Proof.
  induction cs as [|c cs IH]; intros i; cbn [encodeCells]; [done|]. destruct (c_primary c); [done|].
  eapply gives_bind; [apply encodeValue_total|]. intros ev _. by eapply gives_bind; [apply IH|].
Qed.
Lemma encodeRow_total s r : gives (encodeRow s r) (fun '(key, val) => encoded_row s r key val).
Proof.
  assert (H : gives (encodeRow s r) (fun _ => True)).
  { unfold encodeRow. apply gives_guard. intros _. apply gives_guard. intros _.
    eapply gives_bind; [apply checkPresent_total|]. intros pk _. eapply gives_bind; [apply encodeValue_total|]. intros enc _.
    apply gives_guard. intros _. eapply gives_bind; [apply encodeCells_total|]. intros cells _. by apply gives_guard. }
  destruct (encodeRow s r) as [[key val]| | |] eqn:E; [by apply encodeRow_inv|done..].
Qed.
Lemma rowKey_total s pk :
  gives (rowKey s pk) (fun key => exists enc, encodeValue (findPrimary s) pk = Ok enc /\ key = rowPrefix (s_name s) ++ enc /\ len key <= 1000).
Proof.
  unfold rowKey. pose proof (encodeValue_total (findPrimary s) pk) as T. destruct (encodeValue _ _) as [enc| | |]; try done.
  apply gives_guard. intros Hg. zbool. by exists enc.
Qed.

Section Mutations.
Context {S : Type} (eng : Store S) {Sp : StoreSpec eng}.
Context (s : TableSchema) (idx : gmap bytes Index) (t : Table) (Ht : t_schema t = s) (Hx : t_indexes t = idx).
Context (order order' : gmap bytes Index -> list Index).
Context (Hord : listing_of idx (order idx)) (Hord' : listing_of idx (order' idx)).
Implicit Types d : Database S.
Abbreviation P := (rowPrefix (s_name s)).

(** The key of an encoded row. *)
Lemma encoded_key r key val : encoded_row s r key val -> exists k, key = P ++ k.
Proof. intros H. destruct (er_pk _ _ _ _ H) as (enc & _ & ->). by exists enc. Qed.

Lemma transactionIndexEntries_ok l d m tx r k allow :
  holds eng d m ->
  ends (transactionIndexEntries eng l t r (P ++ k) allow) (d, tx)
    (fun es st => st = (d, tx) /\ Forall2 (lists t (view (tx_changes tx) m) r k allow) l es) (fun _ st => st = (d, tx)).
Proof. intros H. unfold transactionIndexEntries. rewrite Ht, drop_app_length. by apply (indexEntries_ok eng (Sp := Sp)). Qed.

(** The old row of a key, decoded, and its entries. *)
Lemma old_row V k val :
  consistent s idx V -> V !! (P ++ k) = Some val ->
  exists r, decodeRow s val = Ok r /\
    forall name index, idx !! name = Some index ->
      (exists enc, encodeIndexValue (columnByName s (i_column index)) (row_get r (i_column index)) = Ok enc /\
         entry_of s index k val = Some (enc ++ (if i_unique index then [] else k))) /\
      forall t', Some t' = entry_of s index k val -> V !! (indexEntryPrefix (s_name s) (i_name index) ++ t') = Some k.
Proof.
  intros C Hv. destruct (cs_rows _ _ _ C k val Hv) as (r0 & Hr0 & He0). pose proof (encodeRow_inv _ _ _ _ He0) as Hrow.
  destruct (decodeRow_encoded s r0 _ _ Hrow Hr0) as (Hdec & _). eexists. split; [exact Hdec|]. intros name index Hi.
  destruct (df_valid _ _ _ (cs_defs _ _ _ C) _ _ Hi) as [_ Hvalid].
  destruct (stored_entry s index r0 k val (cs_schema _ _ _ C) Hvalid Hr0 He0) as (enc & w & _ & _ & _ & _ & Hent).
  split.
  - unfold entry_of in *. rewrite Hdec in *. destruct (encodeIndexValue _ _) as [e| | |]; try done. exists e. done.
  - intros t' Ht'. apply (cs_indexed _ _ _ C _ _ Hi). by exists val.
Qed.
Lemma old_entries V k val r name index :
  consistent s idx V -> V !! (P ++ k) = Some val -> decodeRow s val = Ok r -> idx !! name = Some index ->
  entry_of s index k val =
    match encodeIndexValue (columnByName s (i_column index)) (row_get r (i_column index)) with
    | Ok enc => Some (enc ++ (if i_unique index then [] else k)) | _ => None end.
Proof. intros C Hv Hdec Hi. unfold entry_of. by rewrite Hdec. Qed.

Lemma valueLocked_row d m tx k : holds eng d m ->
  valueLocked eng (P ++ k) (d, tx) = (Ok (view (tx_changes tx) m !! (P ++ k)), (d, tx)).
Proof. intros H. apply (valueLocked_ok eng d m); [done|]. by intros _. Qed.

Lemma put_all (es : list indexEntry) k : (forall e, e ∈ es -> e.2 = k) -> forall e, e ∈ es -> put_entry e = mkChange k false.
Proof. intros H e He. unfold put_entry. by rewrite (H e He). Qed.

Lemma insertRowLocked_ok d m tx r :
  holds eng d m -> consistent s idx (view (tx_changes tx) m) -> row_ok r ->
  ends (insertRowLocked eng order t r) (d, tx)
    (fun _ '(d', tx') => d' = d /\ exists k val, encodeRow s r = Ok (P ++ k, val) /\
       row_changed s idx k None (Some val) (view (tx_changes tx) m) (view (tx_changes tx') m) /\
       recorded tx tx' (1 + size idx))
    (fun _ st => st = (d, tx)).
Proof.
  intros Hd C Hr. unfold insertRowLocked. rewrite Ht, Hx. pose proof (encodeRow_total s r) as T.
  destruct (encodeRow s r) as [[key val]|e| |] eqn:Ee; try done. destruct (encoded_key r key val T) as [k ->].
  eapply ends_lift; [done|]. apply ends_bind. unfold ends at 1. rewrite (valueLocked_row d m tx k Hd).
  set (V := view (tx_changes tx) m) in *. apply ends_guard; [done|]. intros Hno. apply bool_decide_eq_false in Hno.
  assert (HV : V !! (P ++ k) = None) by (destruct (V !! (P ++ k)); [destruct Hno; eauto|done]). clear Hno.
  apply ends_bind. eapply ends_mono; [apply (transactionIndexEntries_ok _ d m tx r k false Hd)| |done].
  intros es st [-> Hes]. destruct (keys_of_listed s idx t V V r k val false _ es Ht (cs_defs _ _ _ C) Hord Hes) as (Kn & Hk & Hlen & Hfree).
  { intros name index Hi. apply entry_of_given; try done; [apply C|by apply (df_valid _ _ _ (cs_defs _ _ _ C) _ _ Hi)]. }
  destruct (recordAll_ok es put_entry d (recordLocked (P ++ k) (mkChange val false) tx)) as (tx' & Hrun & Hrec & Hview).
  unfold ends, bind, record. rewrite Hrun. split; [done|]. exists k, val. split; [done|]. split.
  - eapply (row_change s idx k None (Some val) [] es.*1); try done; [|apply keys_of_none| |].
    + intros ? [= <-]. by exists r.
    + intros name index t' v ? Hi Hu [= <-] Ht' Hv. by destruct (Hfree _ _ _ _ Hi Hu Ht' Hv).
    + intros x. rewrite (Hview (mkChange k false)) by (by apply put_all). cbn [seen ch_delete ch_value tx_changes recordLocked].
      destruct (decide (x ∈ es.*1)); [done|]. rewrite decide_False by apply not_elem_of_nil.
      rewrite view_insert. cbn [ch_delete ch_value]. destruct (decide (x = P ++ k)) as [->|Hne].
      * by rewrite lookup_insert_eq.
      * by rewrite lookup_insert_ne.
  - rewrite <- Hlen. exact (recorded_trans _ _ _ _ _ (recorded_one (P ++ k) (mkChange val false) tx) Hrec).
Qed.

Lemma updateRowLocked_ok d m tx r :
  holds eng d m -> consistent s idx (view (tx_changes tx) m) -> row_ok r ->
  ends (updateRowLocked eng order order' t r) (d, tx)
    (fun _ '(d', tx') => d' = d /\ exists k old val, encodeRow s r = Ok (P ++ k, val) /\
       row_changed s idx k (Some old) (Some val) (view (tx_changes tx) m) (view (tx_changes tx') m) /\
       recorded tx tx' (1 + 2 * size idx))
    (fun _ st => st = (d, tx)).
Proof.
  intros Hd C Hr. unfold updateRowLocked. rewrite Ht, Hx. pose proof (encodeRow_total s r) as T.
  destruct (encodeRow s r) as [[key val]|e| |] eqn:Ee; try done. destruct (encoded_key r key val T) as [k ->].
  eapply ends_lift; [done|]. apply ends_bind. unfold ends at 1. rewrite (valueLocked_row d m tx k Hd).
  set (V := view (tx_changes tx) m) in *. destruct (V !! (P ++ k)) as [old|] eqn:HV; [|done].
  destruct (old_row V k old C HV) as (r0 & Hdec & _). eapply ends_lift; [done|].
  apply ends_bind. eapply ends_mono; [apply (transactionIndexEntries_ok _ d m tx r0 k true Hd)| |done].
  intros es0 st [-> Hes0]. apply ends_bind. eapply ends_mono; [apply (transactionIndexEntries_ok _ d m tx r k true Hd)| |done].
  intros es st [-> Hes].
  destruct (keys_of_listed s idx t V V r0 k old true _ es0 Ht (cs_defs _ _ _ C) Hord Hes0) as (Ko & Hk0 & Hlen0 & _).
  { intros name index Hi. by apply (old_entries V k old r0 name). }
  destruct (keys_of_listed s idx t V V r k val true _ es Ht (cs_defs _ _ _ C) Hord' Hes) as (Kn & Hk & Hlen & Hfree).
  { intros name index Hi. apply entry_of_given; try done; [apply C|by apply (df_valid _ _ _ (cs_defs _ _ _ C) _ _ Hi)]. }
  destruct (recordAll_ok es0 del_entry d tx) as (tx1 & Hrun1 & Hrec1 & Hview1).
  destruct (recordAll_ok es put_entry d (recordLocked (P ++ k) (mkChange val false) tx1)) as (tx' & Hrun & Hrec & Hview).
  unfold ends, bind. rewrite Hrun1. unfold record. rewrite Hrun. split; [done|]. exists k, old, val. split; [done|]. split.
  - eapply (row_change s idx k (Some old) (Some val) es0.*1 es.*1); try done.
    + intros ? [= <-]. by exists r.
    + intros name index t' v ? Hi Hu [= <-] Ht' Hv. by destruct (Hfree _ _ _ _ Hi Hu Ht' Hv).
    + intros x. rewrite (Hview (mkChange k false)) by (by apply put_all). cbn [seen ch_delete ch_value tx_changes recordLocked].
      destruct (decide (x ∈ es.*1)); [done|]. rewrite view_insert. cbn [ch_delete ch_value].
      destruct (decide (x = P ++ k)) as [->|Hne].
      * rewrite lookup_insert_eq, decide_False; [done|]. intros Hin.
        by destruct (ko_only _ _ _ _ _ Ko _ Hin) as (? & ? & ? & _ & ?%row_entry_ne).
      * rewrite lookup_insert_ne by done. rewrite (Hview1 (mkChange [] true)) by done. done.
  - pose proof (recorded_trans _ _ _ _ _ Hrec1 (recorded_trans _ _ _ _ _ (recorded_one (P ++ k) (mkChange val false) tx1) Hrec)) as R.
    replace (1 + 2 * size idx)%nat with (length es0 + (1 + length es))%nat by lia. exact R.
Qed.

(** Listing the entries of a stored row never fails: its values can be encoded
    and the unique indexes list it under its own primary key. *)
Lemma entries_never_fail l d m tx r0 k old :
  holds eng d m -> consistent s idx (view (tx_changes tx) m) -> view (tx_changes tx) m !! (P ++ k) = Some old ->
  decodeRow s old = Ok r0 -> listing_of idx l ->
  ends (transactionIndexEntries eng l t r0 (P ++ k) true) (d, tx) (fun _ _ => True) no_err.
Proof.
  intros Hd C HV Hdec Hl. unfold transactionIndexEntries. rewrite Ht, drop_app_length.
  destruct (listing_spec s idx l _ Hl (cs_defs _ _ _ C)) as (_ & Hin & _).
  assert (Hsub : forall index, index ∈ l -> idx !! i_name index = Some index) by (intros; by apply Hin). clear Hin Hl.
  induction l as [|index l IH]; cbn [indexEntries]; [done|].
  assert (Hi : idx !! i_name index = Some index) by (apply Hsub; left).
  destruct (old_row _ k old C HV) as (r & Hdec' & Hent). rewrite Hdec in Hdec'. injection Hdec' as <-.
  destruct (Hent _ _ Hi) as [(enc & Henc & Hof) Hlisted]. rewrite Ht. eapply ends_lift; [exact Henc|]. apply ends_bind.
  assert (Hcont : ends (entries <~ indexEntries eng t r0 k true l ;; ret ((indexEntryKey (s_name s) index enc k, k) :: entries)) (d, tx)
    (fun _ _ => True) no_err).
  { apply ends_bind. eapply ends_mono; [apply IH; intros; apply Hsub; by right|done|done]. }
  destruct (i_unique index) eqn:Hu; [|exact Hcont]. apply ends_bind. unfold ends at 1.
  rewrite (valueLocked_ok eng d m tx) by (done || (intros _; apply indexEntryKey_nonempty)).
  rewrite indexEntryKey_app, Hu in Hcont.
  rewrite indexEntryKey_app, Hu, (Hlisted _ (eq_sym Hof)), beqb_refl. exact Hcont.
Qed.

Lemma deleteRowLocked_ok d m tx pk :
  holds eng d m -> consistent s idx (view (tx_changes tx) m) ->
  ends (deleteRowLocked eng order t pk) (d, tx)
    (fun found '(d', tx') => d' = d /\ exists k, encodeValue (findPrimary s) pk = Ok k /\
       match view (tx_changes tx) m !! (P ++ k) with
       | None => found = false /\ tx' = tx
       | Some old => found = true /\
           row_changed s idx k (Some old) None (view (tx_changes tx) m) (view (tx_changes tx') m) /\
           recorded tx tx' (1 + size idx)
       end)
    (fun e st => st = (d, tx) /\ rowKey s pk = Err e).
Proof.
  intros Hd C. unfold deleteRowLocked. rewrite Ht, Hx. pose proof (rowKey_total s pk) as T.
  destruct (rowKey s pk) as [key|e| |] eqn:Ee; try done. destruct T as (k & Hk & -> & _).
  eapply ends_lift; [done|]. apply ends_bind. unfold ends at 1. rewrite (valueLocked_row d m tx k Hd).
  set (V := view (tx_changes tx) m) in *. destruct (V !! (P ++ k)) as [old|] eqn:HV.
  2:{ split; [done|]. exists k. by rewrite HV. }
  destruct (old_row V k old C HV) as (r0 & Hdec & Hent). eapply ends_lift; [done|].
  pose proof (transactionIndexEntries_ok (order idx) d m tx r0 k true Hd) as Hte. fold V in Hte.
  pose proof (entries_never_fail (order idx) d m tx r0 k old Hd C HV Hdec Hord) as Hok.
  apply ends_bind. unfold ends at 1. unfold ends in Hte, Hok.
  destruct (transactionIndexEntries eng (order idx) t r0 (P ++ k) true (d, tx)) as [[es|e| |] st]; try done.
  destruct Hte as [-> Hes].
  destruct (keys_of_listed s idx t V V r0 k old true _ es Ht (cs_defs _ _ _ C) Hord Hes) as (Ko & Hk0 & Hlen0 & _).
  { intros name index Hi. by apply (old_entries V k old r0 name). }
  destruct (recordAll_ok es del_entry d (recordLocked (P ++ k) (mkChange [] true) tx)) as (tx' & Hrun & Hrec & Hview).
  unfold ends, bind, record. rewrite Hrun. split; [done|]. exists k. rewrite HV. split; [done|]. split; [done|]. split.
  - eapply (row_change s idx k (Some old) None es.*1 []); try done; [apply keys_of_none|].
    intros x. rewrite (Hview (mkChange [] true)) by done. cbn [seen ch_delete ch_value tx_changes recordLocked].
    rewrite (decide_False (P := x ∈ [])) by apply not_elem_of_nil. destruct (decide (x ∈ es.*1)); [done|].
    rewrite view_insert. cbn [ch_delete]. destruct (decide (x = P ++ k)) as [->|Hne].
    + by rewrite lookup_delete_eq.
    + by rewrite lookup_delete_ne.
  - rewrite <- Hlen0. exact (recorded_trans _ _ _ _ _ (recorded_one (P ++ k) (mkChange [] true) tx) Hrec).
Qed.
End Mutations.
