(* ===== verification/CatalogSpec.v ===== *)
(** * Scans by prefix and the loaded index definitions

    [tableRowsLocked] and [loadIndexesLocked] of src/db/index.go on a consistent
    map, and the standalone mutations of src/db/table.go built on them. *)

From S2P Require Import Prelude KvList Errors Codec CodecSpec Page PageManager KV KVSpec Engine Database DatabaseSpec.
From S2P Require Import Table TableSpec RowSpec MutationSpec.

(** ** Scans by prefix *)

Definition with_prefix (p : bytes) (l : list kv) : list kv := List.filter (fun e => hasPrefix e.1 p) l.

Lemma prefix_in_range p b k : b ∈ p -> b <> bff -> hasPrefix k p = true -> bleb p k && bleb k (prefixEnd p) = true.
Proof.
  intros Hb Hne [t ->]%hasPrefix_iff. pose proof (prefixEnd_above p b Hb Hne t). pose proof (ble_app_r p t).
  apply andb_true_iff. split; border.
Qed.
Lemma prefix_scan p b l : b ∈ p -> b <> bff -> with_prefix p (kv_range p (prefixEnd p) l) = with_prefix p l.
Proof.
  intros Hb Hne. unfold with_prefix, kv_range. induction l as [|e l IH]; cbn [List.filter]; [done|].
  destruct (hasPrefix e.1 p) eqn:Ep.
  - rewrite (prefix_in_range p b e.1 Hb Hne Ep). cbn [List.filter]. rewrite Ep. by rewrite IH.
  - destruct (_ && _); [|done]. cbn [List.filter]. by rewrite Ep.
Qed.
Lemma elem_entries m k v : (k, v) ∈ entries m <-> m !! k = Some v.
Proof.
  rewrite kv_get_elem, entries_get by apply entries_sorted. done.
Qed.
Lemma elem_with_prefix p m k v : (k, v) ∈ with_prefix p (entries m) <-> (exists t, k = p ++ t) /\ m !! k = Some v.
Proof.
  unfold with_prefix. rewrite list_elem_of_In, List.filter_In, <- list_elem_of_In, elem_entries. cbn [fst].
  rewrite hasPrefix_iff. tauto.
Qed.
Lemma with_prefix_sorted p m : kv_sorted (with_prefix p (entries m)).
Proof. apply kv_sorted_filter, entries_sorted. Qed.

(** ** Index definitions *)

Lemma loadIndexes_ok (start : bytes) (s : TableSchema) (idx : gmap bytes Index) (l : list kv) : forall acc : gmap bytes Index,
  (forall key v : bytes, (key, v) ∈ l -> len start < len key -> hasPrefix key start = true ->
     exists index, idx !! i_name index = Some index /\ key = start ++ escape (i_name index) /\ v = encodeIndexMetadata index) ->
  (forall name index, idx !! name = Some index -> i_name index = name /\ validateIndex index s = Ok tt /\ len (i_column index) <= 128) ->
  exists res, loadIndexes start s l acc = Ok res /\
    forall name, res !! name = if decide (start ++ escape name ∈ kv_keys l /\ is_Some (idx !! name)) then idx !! name else acc !! name.
Proof.
  induction l as [|[key v] l IH]; intros acc Hl Hv; cbn [loadIndexes].
  { exists acc. split; [done|]. intros name. rewrite decide_False; [done|]. by intros [?%not_elem_of_nil _]. }
  assert (Hl' : forall key v, (key, v) ∈ l -> len start < len key -> hasPrefix key start = true ->
     exists index, idx !! i_name index = Some index /\ key = start ++ escape (i_name index) /\ v = encodeIndexMetadata index)
    by (intros; apply Hl; [by right|done..]).
  destruct (_ || _) eqn:Eg.
  - destruct (IH acc Hl' Hv) as (res & Hres & Hlook). exists res. split; [done|]. intros name. rewrite Hlook. cbn [kv_keys map fst].
    apply decide_ext. rewrite elem_of_cons. split; [naive_solver|]. intros [[Heq|Hin] Hs]; [|done]. exfalso.
    subst key. rewrite len_app, take_app_length, beqb_refl, orb_false_r in Eg. apply Z.leb_le in Eg.
    unfold escape in Eg. rewrite len_app in Eg. pose proof (len_nonneg (escape_body name)). change (len [b00; b00]) with 2 in Eg. lia.
  - apply orb_false_iff in Eg as [E1 E2]. apply Z.leb_gt in E1. apply negb_false_iff in E2.
    destruct (Hl key v) as (index & Hi & -> & ->); [left|lia|unfold hasPrefix; rewrite E2, andb_true_r; apply Z.leb_le; lia|].
    destruct (Hv _ _ Hi) as (_ & Hvalid & Hcol). rewrite drop_app_length, (proj2 (decodeEscaped_iff _ (i_name index)) eq_refl).
    assert (Hbounds : 0 < len (i_name index) <= 128 /\ 0 < len (i_column index)).
    { unfold validateIndex in Hvalid. destruct (_ || _) eqn:Eb; [done|]. zbool.
      pose proof (len_nonneg (i_name index)). pose proof (len_nonneg (i_column index)). lia. }
    rewrite decodeIndexMetadata_encoded by lia. rewrite Hvalid.
    destruct (IH (<[i_name index := index]> acc) Hl' Hv) as (res & Hres & Hlook). exists res. split; [done|].
    intros name. rewrite Hlook. cbn [kv_keys map fst]. destruct (decide (name = i_name index)) as [->|Hne].
    + rewrite lookup_insert_eq, Hi. rewrite (decide_True (P := start ++ escape (i_name index) ∈ _ :: _ /\ _)) by (split; [left|eauto]).
      by destruct (decide _).
    + rewrite lookup_insert_ne by done. apply decide_ext. rewrite elem_of_cons. split; [naive_solver|].
      intros [[Heq|Hin] Hs]; [|done]. exfalso. apply app_inv_head in Heq.
      apply (f_equal (fun x => x ++ [])) in Heq. by apply escape_inj in Heq as [? _].
Qed.

Section Catalog.
Context {S : Type} (eng : Store S) {Sp : StoreSpec eng}.
Implicit Types d : Database S.

Lemma prefix_bounds (name : bytes) b :
  len name <= 128 -> len (b :: escape name) <= maxKeySize /\ len (prefixEnd (b :: escape name)) <= maxKeySize.
Proof.
  intros H. pose proof (escape_length name). pose proof (prefixEnd_length (b :: escape name)).
  rewrite len_cons in *. change maxKeySize with 1000. lia.
Qed.

Lemma tableRowsLocked_ok d m name :
  holds eng d m -> len name <= 128 ->
  tableRowsLocked eng name d = (Ok (with_prefix (rowPrefix name) (entries m)), d).
Proof.
  intros Hd Hn. destruct (prefix_bounds name Byte.x20 Hn) as [H1 H2]. unfold tableRowsLocked, bind.
  rewrite (rangeLocked_ok eng d m) by (done || (intros _; done)). unfold ret.
  by rewrite <- (prefix_scan (rowPrefix name) Byte.x20) by (done || left).
Qed.

Lemma column_length s index : schema_ok s -> validateIndex index s = Ok tt -> len (i_column index) <= 128.
Proof.
  intros Hs Hv. destruct (index_column s index Hv) as (c & _ & Hin & <- & _). pose proof (so_column _ Hs) as Hc.
  rewrite Forall_forall in Hc. apply (co_name _ (Hc c Hin)).
Qed.

(** The definitions loaded are exactly the stored ones. *)
Lemma loadIndexesLocked_ok d m s idx :
  holds eng d m -> schema_ok s -> defs_ok s idx m -> loadIndexesLocked eng s d = (Ok idx, d).
Proof.
  intros Hd Hs [Hst Hval]. destruct (prefix_bounds (s_name s) Byte.x11) as [H1 H2]; [apply Hs|].
  unfold loadIndexesLocked, bind. rewrite (rangeLocked_ok eng d m) by (done || (intros _; done)). unfold lift.
  set (start := Byte.x11 :: escape (s_name s)). change start with (defPrefix (s_name s)).
  destruct (loadIndexes_ok (defPrefix (s_name s)) s idx
    (kv_range (defPrefix (s_name s)) (prefixEnd (defPrefix (s_name s))) (entries m)) ∅) as (res & -> & Hlook).
  - intros key v Hin Hlen [t ->]%hasPrefix_iff.
    assert (Hne : t <> []) by (intros ->; rewrite app_nil_r in Hlen; lia).
    apply kv_range_elem in Hin as (Hin & _). apply elem_entries in Hin. apply Hst in Hin as (index & Hi & -> & ->); [|done].
    by exists index.
  - intros name index Hi. destruct (Hval _ _ Hi) as [Hn Hv]. split_and!; [done|done|by eapply column_length].
  - f_equal. f_equal. apply map_eq. intros name. rewrite Hlook. destruct (decide _) as [|Hno]; [done|].
    rewrite lookup_empty. destruct (idx !! name) as [index|] eqn:Hi; [|done]. exfalso. apply Hno. split; [|eauto].
    destruct (Hval _ _ Hi) as [Hname _].
    assert (Hin : (defPrefix (s_name s) ++ escape name, encodeIndexMetadata index) ∈ entries m).
    { apply elem_entries, Hst; [unfold escape; by destruct (escape_body name)|]. exists index. rewrite Hname. done. }
    unfold kv_keys. apply list_elem_of_fmap. eexists. split; [|apply kv_range_elem; split; [exact Hin|]]; [done|].
    pose proof (prefix_in_range (defPrefix (s_name s)) Byte.x11 (defPrefix (s_name s) ++ escape name)) as Hr.
    rewrite andb_true_iff in Hr. destruct Hr as [Hr1 Hr2]; [left|done|apply hasPrefix_app|]. cbn [fst]. by split; border.
Qed.

(** ** Opening a table *)

(** The table is in the catalog. *)
Record stored_table (s : TableSchema) (idx : gmap bytes Index) (m : gmap bytes bytes) : Prop := {
  tb_consistent : consistent s idx m;
  tb_descriptor : m !! descriptorKey (s_name s) = Some (encodeDescriptor s);
  tb_length : len (encodeDescriptor s) <= 3000;
}.
Lemma OpenTable_ok s idx d m :
  holds eng d m -> stored_table s idx m -> OpenTable eng (s_name s) d = (Ok (mkTable (d_id d) s idx), d).
Proof.
  intros Hd [C Hdesc Hlen]. unfold OpenTable. rewrite (proj1 Hd).
  assert (Hget : getLocked eng (descriptorKey (s_name s)) d = (Ok (Some (encodeDescriptor s)), d))
    by (rewrite (getLocked_ok eng d m) by (done || (by intros _)); by rewrite Hdesc).
  rewrite (bind_ok _ _ _ _ _ Hget), (bind_lift_ok _ _ _ _ (decodeDescriptor_encoded s (cs_schema _ _ _ C) Hlen)), beqb_refl. cbn [negb].
  by rewrite (bind_ok _ _ _ _ _ (loadIndexesLocked_ok d m s idx Hd (cs_schema _ _ _ C) (cs_defs _ _ _ C))).
Qed.
End Catalog.
