(* ===== verification/QuerySpec.v ===== *)
(** * Reading tables

    Point lookups, scans and index lookups of src/db/table.go and index.go on a
    consistent map: what they return, and that an index lookup agrees with a
    full scan. *)

From S2P Require Import Prelude KvList Errors Codec CodecSpec Page PageManager KV KVSpec Engine Database DatabaseSpec.
From S2P Require Import Table TableSpec RowSpec MutationSpec CatalogSpec.

#[global] Instance any_eq_dec : EqDecision any.
Proof. solve_decision. Defined.

Section Query.
Context (s : TableSchema).
Abbreviation P := (rowPrefix (s_name s)).
Abbreviation E index := (indexEntryPrefix (s_name s) (i_name index)).
Abbreviation pk := (c_name (findPrimary s)).

(** A row with every column of the schema: missing ones read as nil. *)
Definition complete (r : row) : row := <[pk := row_get r pk]> (cells_row (s_columns s) r ∅).

Lemma findPrimary_is c : schema_ok s -> c ∈ s_columns s -> c_primary c = true -> findPrimary s = c.
Proof.
  intros Hs Hc Ep. unfold findPrimary. pose proof (so_primary _ Hs) as Hp. revert Hc Hp.
  induction (s_columns s) as [|d cs IH]; [by intros ?%not_elem_of_nil|].
  cbn [primaries findPrimary_in]. pose proof (primaries_nonneg cs). intros [->|Hc]%elem_of_cons; [by rewrite Ep|].
  destruct (c_primary d) eqn:Ed; [|intros; apply IH; [done|lia]]. intros Hp. exfalso.
  assert (H0 : primaries cs = 0) by lia. clear -Hc H0 Ep. induction cs as [|e cs IH]; [by apply not_elem_of_nil in Hc|].
  cbn [primaries] in H0. pose proof (primaries_nonneg cs). apply elem_of_cons in Hc as [->|Hc]; [rewrite Ep in H0; lia|].
  destruct (c_primary e); [lia|]. apply IH; [done|lia].
Qed.
Lemma complete_get r c : schema_ok s -> c ∈ s_columns s -> complete r !! c_name c = Some (row_get r (c_name c)).
Proof.
  intros Hs Hc. unfold complete. destruct (decide (c_name c = pk)) as [->|Hne]; [by rewrite lookup_insert_eq|].
  rewrite lookup_insert_ne by done. rewrite cells_row_lookup by (apply Hs || done).
  destruct (c_primary c) eqn:Ep; [|done]. destruct Hne. by rewrite findPrimary_is with (c := c).
Qed.

(** What a stored row decodes to. *)
Lemma stored_decodes r k val :
  row_ok r -> encodeRow s r = Ok (P ++ k, val) ->
  decodeRow s val = Ok (cells_row (s_columns s) r ∅) /\ decodePrimaryKey (findPrimary s) k = Ok (row_get r pk) /\
  encodeValue (findPrimary s) (row_get r pk) = Ok k.
Proof.
  intros Hr He. pose proof (encodeRow_inv _ _ _ _ He) as Hrow.
  destruct (decodeRow_encoded s r _ _ Hrow Hr) as (H1 & _ & H2). rewrite drop_app_length in H2. split_and!; [done|done|].
  destruct (er_pk _ _ _ _ Hrow) as (enc & Henc & Heq). apply app_inv_head in Heq as ->. done.
Qed.

(** [e] stores the row that reads as [r]. *)
Definition stores (e : kv) (r : row) : Prop := exists k r0,
  e.1 = P ++ k /\ row_ok r0 /\ encodeRow s r0 = Ok (e.1, e.2) /\ r = complete r0.

Lemma decodeRows_ok l :
  Forall (fun e => hasPrefix e.1 P = true -> exists k r0, e.1 = P ++ k /\ row_ok r0 /\ encodeRow s r0 = Ok (e.1, e.2)) l ->
  exists rows, decodeRows s l = Ok rows /\ Forall2 stores (with_prefix P l) rows.
Proof.
  induction l as [|[key val] l IH]; intros H; cbn [decodeRows].
  { exists []. split; [done|constructor]. }
  apply Forall_cons in H as [He Hl]. destruct (IH Hl) as (rows & Hrows & HF). cbn [with_prefix List.filter fst] in *.
  destruct (hasPrefix key P) eqn:Hp; cbn [negb]; [|by exists rows].
  destruct (He eq_refl) as (k & r0 & Hkey & Hr0 & Henc). cbn [fst snd] in *. subst key.
  destruct (stored_decodes r0 k val Hr0 Henc) as (-> & Hpk & _). rewrite drop_app_length, Hpk, Hrows.
  eexists. split; [reflexivity|]. constructor; [|done]. by exists k, r0.
Qed.

Lemma consistent_rows idx m l :
  consistent s idx m -> (forall k v, (k, v) ∈ l -> m !! k = Some v) ->
  Forall (fun e => hasPrefix e.1 P = true -> exists k r0, e.1 = P ++ k /\ row_ok r0 /\ encodeRow s r0 = Ok (e.1, e.2)) l.
Proof.
  intros C Hl. apply Forall_forall. intros [key val] Hin [k Hk]%hasPrefix_iff. cbn [fst snd] in *. subst key.
  destruct (cs_rows _ _ _ C k val (Hl _ _ Hin)) as (r0 & ? & ?). by exists k, r0.
Qed.

(** ** Order of primary keys *)

Definition pk_lt (v w : any) : Prop :=
  match v, w with
  | AInt64 a, AInt64 b => a < b
  | AString a, AString b => blt a b
  | _, _ => False
  end.
Lemma pk_order r1 r2 k1 k2 v1 v2 :
  schema_ok s -> row_ok r1 -> row_ok r2 -> encodeRow s r1 = Ok (P ++ k1, v1) -> encodeRow s r2 = Ok (P ++ k2, v2) ->
  blt (P ++ k1) (P ++ k2) -> pk_lt (row_get r1 pk) (row_get r2 pk).
Proof.
  intros Hs Hr1 Hr2 E1 E2 Hlt. unfold blt in Hlt. rewrite bcmp_app in Hlt.
  destruct (stored_decodes r1 k1 v1 Hr1 E1) as (_ & _ & P1). destruct (stored_decodes r2 k2 v2 Hr2 E2) as (_ & _ & P2).
  destruct (findPrimary_spec s Hs) as [Hp _]. apply encodePrimary in P1, P2; [|done..].
  pose proof (row_get_ok r1 pk Hr1) as O1. pose proof (row_get_ok r2 pk Hr2) as O2.
  destruct P1 as [(T1 & z1 & H1 & ->)|(T1 & H1)], P2 as [(T2 & z2 & H2 & ->)|(T2 & H2)]; rewrite T1 in T2; try discriminate T2;
    rewrite H1, H2 in *; cbn [pk_lt any_ok] in *.
  - rewrite encodeInt_cmp in Hlt by done. by apply Z.compare_lt_iff in Hlt.
  - exact Hlt.
Qed.
Lemma stores_sorted l rows :
  schema_ok s -> kv_sorted l -> Forall2 stores l rows -> StronglySorted pk_lt (map (fun r => row_get r pk) rows).
Proof.
  intros Hs Hl H. induction H as [|e r l rows (k & r0 & Hk & Hr0 & He & ->) HF IH]; cbn [map]; [constructor|].
  apply kv_sorted_cons in Hl as [Hl Ha]. constructor; [by apply IH|]. rewrite Forall_forall. intros v Hv.
  apply list_elem_of_fmap in Hv as (r' & -> & Hr'). apply list_elem_of_lookup in Hr' as [i Hi].
  destruct (Forall2_lookup_r _ _ _ _ _ HF Hi) as (e' & He' & (k' & r0' & Hk' & Hr0' & Henc' & ->)).
  destruct (findPrimary_spec s Hs) as [_ Hin].
  assert (Hget : forall r, row_get (complete r) pk = row_get r pk)
    by (intros; unfold row_get at 1; by rewrite complete_get).
  rewrite !Hget. unfold above in Ha. rewrite Forall_forall in Ha.
  specialize (Ha e' (list_elem_of_lookup_2 _ _ _ He')). rewrite Hk, Hk' in *. by eapply pk_order.
Qed.

(** ** Ranges of primary keys *)

(** Primary keys compare as their encodings. *)
Definition pk_cmp (v w : any) : comparison :=
  match v, w with
  | AInt64 a, AInt64 b => a ?= b
  | AString a, AString b => bcmp a b
  | _, _ => Eq
  end.
Definition pk_leb (v w : any) : bool := match pk_cmp v w with Gt => false | _ => true end.

Lemma pk_cmp_encoded v w a b :
  schema_ok s -> any_ok v -> any_ok w -> encodeValue (findPrimary s) v = Ok a -> encodeValue (findPrimary s) w = Ok b ->
  pk_cmp v w = bcmp a b.
Proof.
  intros Hs Hv Hw Ha Hb. destruct (findPrimary_spec s Hs) as [Hp _]. apply encodePrimary in Ha, Hb; [|done..].
  destruct Ha as [(T1 & z1 & -> & ->)|(T1 & ->)], Hb as [(T2 & z2 & -> & ->)|(T2 & ->)]; rewrite T1 in T2; try discriminate T2; cbn [pk_cmp any_ok] in *.
  - by rewrite encodeInt_cmp.
  - done.
Qed.
Lemma pk_leb_encoded v w a b :
  schema_ok s -> any_ok v -> any_ok w -> encodeValue (findPrimary s) v = Ok a -> encodeValue (findPrimary s) w = Ok b ->
  pk_leb v w = bleb (P ++ a) (P ++ b).
Proof. intros. unfold pk_leb, bleb. by rewrite bcmp_app, (pk_cmp_encoded v w a b). Qed.

(** The row of a stored entry: its primary key encodes to the entry's key. *)
Lemma stores_key e r : schema_ok s -> stores e r ->
  exists k, e.1 = P ++ k /\ any_ok (row_get r pk) /\ encodeValue (findPrimary s) (row_get r pk) = Ok k.
Proof.
  intros Hs (k & r0 & Hk & Hr0 & He & ->). exists k. rewrite Hk in He. destruct (findPrimary_spec s Hs) as [_ Hin].
  assert (Hget : row_get (complete r0) pk = row_get r0 pk) by (unfold row_get at 1; by rewrite complete_get).
  rewrite Hget. split_and!; [done|by apply row_get_ok|]. by apply (stored_decodes r0 k e.2).
Qed.
Lemma filter_both (f : kv -> bool) (g : row -> bool) l rows :
  (forall e r, stores e r -> f e = g r) -> Forall2 stores l rows -> Forall2 stores (List.filter f l) (List.filter g rows).
Proof.
  intros Hfg H. induction H as [|e r l rows Hst HF IH]; cbn [List.filter]; [constructor|].
  rewrite (Hfg e r Hst). destruct (g r); [by constructor|done].
Qed.
Lemma range_rows lo hi klo khi l rows :
  schema_ok s -> any_ok lo -> any_ok hi -> encodeValue (findPrimary s) lo = Ok klo -> encodeValue (findPrimary s) hi = Ok khi ->
  Forall2 stores l rows ->
  Forall2 stores (kv_range (P ++ klo) (P ++ khi) l) (List.filter (fun r => pk_leb lo (row_get r pk) && pk_leb (row_get r pk) hi) rows).
Proof.
  intros Hs Hlo Hhi Klo Khi H. apply filter_both; [|done]. intros e r Hst. destruct (stores_key e r Hs Hst) as (k & Hk & Hok & Henc).
  by rewrite Hk, (pk_leb_encoded lo _ klo k), (pk_leb_encoded _ hi k khi).
Qed.

(** ** Index lookups *)

(** The rows stored under an indexed value: the reference is a scan of the row
    entries. *)
Definition matches (index : Index) (enc : bytes) (e : kv) : bool :=
  bool_decide (entry_of s index (drop (length P) e.1) e.2 =
    Some (enc ++ (if i_unique index then [] else drop (length P) e.1))).
Definition index_entry (index : Index) (enc : bytes) (e : kv) : kv :=
  let k := drop (length P) e.1 in (indexEntryKey (s_name s) index enc k, k).

(** The entries of an indexed value are those of the matching rows, in the same
    order. *)
Lemma index_scan idx name index enc v m :
  consistent s idx m -> idx !! name = Some index -> encodes (columnByName s (i_column index)) v enc -> any_ok v ->
  with_prefix (indexValuePrefix (s_name s) index enc) (entries m) =
  map (index_entry index enc) (List.filter (matches index enc) (with_prefix P (entries m))).
Proof.
  intros C Hi Hencs Hv. set (L := List.filter _ _).
  assert (HL : forall key val, (key, val) ∈ L <-> exists k, key = P ++ k /\ m !! (P ++ k) = Some val /\
    entry_of s index k val = Some (enc ++ (if i_unique index then [] else k))).
  { intros key val. unfold L. rewrite list_elem_of_In, List.filter_In, <- list_elem_of_In, elem_with_prefix.
    unfold matches. cbn [fst snd]. rewrite bool_decide_eq_true. split.
    - intros [[(k & ->) Hm] He]. rewrite drop_app_length in He. by exists k.
    - intros (k & -> & Hm & He). rewrite drop_app_length. split; [|done]. split; [by exists k|done]. }
  assert (HLs : kv_sorted L) by apply kv_sorted_filter, with_prefix_sorted.
  destruct (df_valid _ _ _ (cs_defs _ _ _ C) _ _ Hi) as [_ Hvalid].
  (* a stored entry with this prefix belongs to a matching row *)
  assert (Hself : forall t k val, m !! (P ++ k) = Some val -> entry_of s index k val = Some (enc ++ t) ->
    t = (if i_unique index then [] else k)).
  { intros t k val Hm Hent. destruct (cs_rows _ _ _ C k val Hm) as (r & Hr & He).
    destruct (stored_entry s index r k val (cs_schema _ _ _ C) Hvalid Hr He) as (enc' & w & _ & Hw & Hok & _ & Hent').
    rewrite Hent in Hent'. injection Hent' as Heq. by destruct (encodes_self _ _ _ _ _ _ _ Hencs Hw Hv Hok Heq) as [_ ->]. }
  apply kv_sorted_eq; [apply with_prefix_sorted| |].
  - clear Hself. unfold kv_sorted, kv_keys, ssorted. rewrite map_map. cbn [index_entry fst].
    destruct (i_unique index) eqn:Hu.
    + (* at most one row *)
      assert (Hone : forall a b, a ∈ L -> b ∈ L -> a.1 = b.1).
      { intros [ka va] [kb vb] Ha Hb. apply HL in Ha as (k1 & -> & M1 & E1). apply HL in Hb as (k2 & -> & M2 & E2). cbn.
        assert (m !! (E index ++ enc ++ []) = Some k1) by (apply (cs_indexed _ _ _ C _ _ Hi); by exists va).
        assert (m !! (E index ++ enc ++ []) = Some k2) by (apply (cs_indexed _ _ _ C _ _ Hi); by exists vb). congruence. }
      destruct L as [|a [|b L']]; [constructor|repeat constructor|]. exfalso.
      apply kv_sorted_cons in HLs as [_ Ha]. apply Forall_cons in Ha as [Hab _].
      rewrite (Hone a b) in Hab by (left || (right; left)). border.
    + unfold kv_sorted, kv_keys, ssorted in HLs. clear -HLs HL Hu.
      assert (Hpre : forall e, e ∈ L -> exists k, e.1 = P ++ k) by (intros [key val] (k & -> & _)%HL; by exists k). clear HL.
      induction L as [|e l IH]; cbn [map] in *; [constructor|]. apply StronglySorted_inv in HLs as [H1 H2].
      constructor; [apply IH; [done|intros; apply Hpre; by right]|]. rewrite Forall_forall in *. intros x Hx.
      apply list_elem_of_In, in_map_iff in Hx as (y & <- & Hy). apply list_elem_of_In in Hy.
      destruct (Hpre e) as [k1 K1]; [left|]. destruct (Hpre y) as [k2 K2]; [by right|].
      assert (Hlt : blt e.1 y.1) by (apply H2, list_elem_of_In, in_map, list_elem_of_In, Hy). rewrite K1, K2 in *.
      rewrite !drop_app_length, !indexEntryKey_app, Hu. unfold blt in *. by rewrite !bcmp_app in *.
  - intros x k. rewrite elem_with_prefix. split.
    + intros [(t & ->) Hm]. unfold indexValuePrefix in Hm. rewrite <- app_assoc in Hm.
      apply (cs_indexed _ _ _ C _ _ Hi) in Hm as (val & Hval & Hent). apply list_elem_of_In, in_map_iff.
      exists (P ++ k, val). unfold index_entry. cbn [fst]. rewrite drop_app_length.
      pose proof (Hself t k val Hval Hent) as ->. split.
      * rewrite indexEntryKey_app. unfold indexValuePrefix. by rewrite app_assoc.
      * apply list_elem_of_In, HL. by exists k.
    + intros Hin. apply list_elem_of_In, in_map_iff in Hin as ([key val] & Heq & Hin). apply list_elem_of_In, HL in Hin as (k' & -> & Hm & Hent).
      unfold index_entry in Heq. cbn [fst] in Heq. rewrite drop_app_length in Heq. injection Heq as <- ->.
      rewrite indexEntryKey_app. split.
      * eexists. unfold indexValuePrefix. by rewrite <- app_assoc.
      * apply (cs_indexed _ _ _ C _ _ Hi). by exists val.
Qed.

(** Reading the rows of the entries found. *)
Lemma findRows_ok {S} (eng : Store S) {Sp : StoreSpec eng} idx name index enc m d :
  holds eng d m -> consistent s idx m -> idx !! name = Some index -> forall l L,
  (forall e, e ∈ L -> (exists k, e.1 = P ++ k) /\ m !! e.1 = Some e.2 /\ matches index enc e = true) ->
  with_prefix (indexValuePrefix (s_name s) index enc) l = map (index_entry index enc) L ->
  exists rows, findRows eng s index enc (indexValuePrefix (s_name s) index enc) l d = (Ok rows, d) /\ Forall2 stores L rows.
Proof.
  intros Hd C Hi. set (prefix := indexValuePrefix (s_name s) index enc).
  induction l as [|[key value] l IH]; intros L HL Hpre; cbn [findRows with_prefix List.filter fst] in *.
  { destruct L; [|done]. exists []. split; [done|constructor]. }
  destruct (hasPrefix key prefix) eqn:Hp; cbn [negb]; [|by apply IH].
  destruct L as [|[rk val] L]; [done|]. cbn [map] in Hpre. injection Hpre as Hkey Hvalue Hrest.
  destruct (HL (rk, val)) as ((k & Hk) & Hm & Hmatch); [left|]. cbn [fst snd] in *. subst rk.
  change (Datatypes.S (length (escape (s_name s)))) with (length P) in Hkey, Hvalue.
  rewrite drop_app_length in Hkey, Hvalue. subst key value. clear Hp.
  destruct (IH L) as (rows & Hrows & HF); [intros; apply HL; by right|done|].
  destruct (cs_rows _ _ _ C k val Hm) as (r0 & Hr0 & He). destruct (stored_decodes r0 k val Hr0 He) as (Hdec & Hpk & _).
  assert (Henc : encodeIndexValue (columnByName s (i_column index)) (row_get (cells_row (s_columns s) r0 ∅) (i_column index)) = Ok enc).
  { unfold matches, entry_of in Hmatch. cbn [fst snd] in Hmatch. rewrite drop_app_length, Hdec in Hmatch.
    apply bool_decide_eq_true in Hmatch. destruct (encodeIndexValue _ _) as [e| | |]; try done.
    injection Hmatch as Heq. by apply app_inv_tail in Heq as ->. }
  exists (complete r0 :: rows). split; [|constructor; [by exists k, r0|done]].
  assert (Hget : getLocked eng (P ++ k) d = (Ok (Some val), d)) by (rewrite (getLocked_ok eng d m), Hm by (done || (by intros _)); done).
  rewrite (bind_lift_ok _ _ _ k).
  2:{ rewrite indexEntryKey_app. destruct (i_unique index).
      - rewrite app_nil_r. change (indexEntryPrefix (s_name s) (i_name index) ++ enc) with prefix. by rewrite Z.eqb_refl.
      - rewrite app_assoc. change (indexEntryPrefix (s_name s) (i_name index) ++ enc) with prefix.
        by rewrite drop_app_length, beqb_refl. }
  rewrite (bind_ok _ _ _ _ _ Hget). rewrite (bind_lift_ok _ _ _ _ Hdec). rewrite Henc.
  rewrite (bind_lift_ok _ _ _ enc eq_refl), beqb_refl. cbn [negb]. rewrite (bind_lift_ok _ _ _ _ Hpk).
  rewrite (bind_ok _ _ _ _ _ Hrows). done.
Qed.

(** The value a matching row holds is the value looked up. *)
Lemma matches_value idx name index enc v m e r :
  consistent s idx m -> idx !! name = Some index -> encodes (columnByName s (i_column index)) v enc -> any_ok v ->
  m !! e.1 = Some e.2 -> stores e r -> matches index enc e = bool_decide (row_get r (i_column index) = v).
Proof.
  intros C Hi Hencs Hv Hm (k & r0 & Hk & Hr0 & He & ->). destruct e as [key val]. cbn [fst snd] in *. subst key.
  destruct (df_valid _ _ _ (cs_defs _ _ _ C) _ _ Hi) as [_ Hvalid].
  destruct (stored_entry s index r0 k val (cs_schema _ _ _ C) Hvalid Hr0 He) as (enc' & w & _ & Hw & Hok & Ew & Hent).
  destruct (index_column s index Hvalid) as (c & Hc & Hin & Hname & _).
  assert (Hget : row_get (complete r0) (i_column index) = w).
  { unfold row_get at 1. rewrite <- Hname, complete_get by (done || apply C). by rewrite Hname, Ew. }
  unfold matches. cbn [fst snd]. rewrite drop_app_length, Hent, Hget. apply bool_decide_ext. split.
  - intros [= Heq]. apply app_inv_tail in Heq. subst enc'.
    by destruct (encodes_self _ _ _ _ _ [] [] Hw Hencs Hok Hv eq_refl) as [-> _].
  - intros ->. f_equal. f_equal. clear -Hw Hencs. revert Hw Hencs. generalize (columnByName s (i_column index)) as c.
    intros c H1 H2. inversion H1; subst; inversion H2; subst; done.
Qed.
End Query.
