(* ===== verification/TableResults.v ===== *)
(** * Results on tables (src/db/table.go, index.go, transaction_table.go)

    Rows and secondary indexes stay in step under every mutation, standalone or
    inside a transaction; reads return the stored rows; an index lookup agrees
    with a scan. *)

From S2P Require Import Prelude KvList Errors Codec CodecSpec Page PageManager KV KVSpec KVResults Engine Database DatabaseSpec.
From S2P Require Import Table TableSpec RowSpec MutationSpec CatalogSpec QuerySpec.

Section Results.
Context {S : Type} (eng : Store S) {Sp : StoreSpec eng}.
Context (s : TableSchema) (idx : gmap bytes Index).
Context (order order' : gmap bytes Index -> list Index).
Implicit Types (d : Database S) (m : gmap bytes bytes) (t : Table) (tx : Tx).
Abbreviation P := (rowPrefix (s_name s)).

(** ** Standalone mutations *)

Definition same_backend d d' : Prop := d_id d' = d_id d /\ (is_Some (d_durable d') <-> is_Some (d_durable d)).
Lemma kept_backend d d' : kept d d' -> same_backend d d'.
Proof. by intros (? & _ & _ & ?). Qed.

Lemma commitLocked_ok d m tx :
  can eng d m (length (tx_order tx)) -> tx_closed tx = false -> tx_readOnly tx = false -> tx_wf tx ->
  ends (commitLocked eng) (d, tx)
    (fun _ '(d', tx') => holds eng d' (view (tx_changes tx) m) /\ same_backend d d' /\ d_writerActive d' = false)
    (fun _ '(d', tx') => holds eng d' m /\ same_backend d d' /\ d_writerActive d' = d_writerActive d).
Proof.
  intros H Ht Hr Hw. pose proof (applyBatchLocked_ok eng d m (mutations_of tx)) as B. unfold ends, commitLocked, tx_open in *.
  rewrite Ht, (proj1 H), Hr. assert (Hl : length (mutations_of tx) = length (tx_order tx)) by apply length_map. rewrite Hl in B.
  destruct (applyBatchLocked eng (mutations_of tx) d) as [[u|e| |] d']; try by apply B.
  - destruct B as (Hd & _ & Hk); [done|]. rewrite mutations_view in Hd by done. apply kept_backend in Hk. split_and!; [|by destruct d'|done]. by destruct d'.
  - destruct B as (Hd & Hk); [done|]. split_and!; [done|by apply kept_backend|apply Hk].
Qed.

(** What a standalone mutation that changes the view by [Q] leaves behind. *)
Definition commits {A : Type} (d : Database S) (m : gmap bytes bytes) (Q : A -> gmap bytes bytes -> Prop)
    (r : outcome dberr A * (Database S * Table)) : Prop :=
  match r with
  | (Ok a, (d', t')) => exists m', holds eng d' m' /\ Q a m' /\ d_writerActive d' = false /\ t_schema t' = s /\ t_indexes t' = idx /\ same_backend d d'
  | (Err _, (d', t')) => holds eng d' m /\ d_writerActive d' = false /\ t_schema t' = s /\ same_backend d d'
  | (Panic, _) | (NoFuel, _) => False
  end.

Lemma mutate_ok {A : Type} (n : nat) (change : Table -> stM (Database S * Tx) dberr A) d m (t : Table) (Q : A -> gmap bytes bytes -> Prop) :
  can eng d m n -> d_writerActive d = false -> consistent s idx m -> t_schema t = s ->
  (forall t', t_schema t' = s -> t_indexes t' = idx ->
     ends (change t') (d, mkTx (d_id d) false false [] ∅)
       (fun a '(d', tx') => d' = d /\ recorded (mkTx (d_id d) false false [] ∅) tx' n /\ Q a (view (tx_changes tx') m))
       (fun _ '(d', _) => d' = d)) ->
  commits d m Q (mutate eng change (d, t)).
Proof.
  intros Hcan Hw C Ht Hch. pose proof (can_holds eng d m n Hcan) as Hd. pose proof Hcan as [Hc _].
  unfold mutate, commits. rewrite Hc, Hw. unfold bind at 1, refreshIndexesLocked. rewrite Ht.
  rewrite (loadIndexesLocked_ok eng d m s idx) by (done || apply C).
  set (t' := mkTable (t_db t) s idx). specialize (Hch t' eq_refl eq_refl). unfold ends in Hch. unfold bind.
  destruct (change t' (d, _)) as [[a|e| |] [d1 tx1]]; try done.
  - destruct Hch as (-> & [_ Hro Hcl Hwf Hlen] & Hq).
    assert (Hempty : tx_wf (mkTx (d_id d) false false [] ∅)).
    { split; [constructor|]. intros k. cbn. rewrite lookup_empty. split; [by intros ?%not_elem_of_nil|by intros [? ?]]. }
    pose proof (commitLocked_ok d m tx1 (can_le eng d m n _ Hcan Hlen) Hcl Hro (Hwf Hempty)) as B. unfold ends in B.
    destruct (commitLocked eng (d, tx1)) as [[u|e| |] [d2 tx2]]; try done.
    + destruct B as (Hd2 & Hb & Hw2). exists (view (tx_changes tx1) m). done.
    + destruct B as (Hd2 & Hb & Hw2). split; [done|]. split; [congruence|done].
  - subst d1. done.
Qed.

Lemma Table_Insert_ok d m t r :
  listing_of idx (order idx) -> can eng d m (1 + size idx) -> d_writerActive d = false -> consistent s idx m ->
  t_schema t = s -> row_ok r ->
  commits d m (fun _ m' => exists k val, encodeRow s r = Ok (P ++ k, val) /\ row_changed s idx k None (Some val) m m')
    (Table_Insert eng order r (d, t)).
Proof.
  intros Hord Hcan Hw C Ht Hr. apply (mutate_ok (1 + size idx)); [done..|]. intros t' Ht' Hx'.
  eapply ends_mono; [apply (insertRowLocked_ok eng s idx t' Ht' Hx' order Hord d m)| |].
  - by apply can_holds in Hcan.
  - cbn. by rewrite view_empty.
  - done.
  - intros _ [d' tx'] (-> & k & val & He & Hc & Hrec). cbn in Hc. rewrite view_empty in Hc. split_and!; [done|done|].
    by exists k, val.
  - by intros e [d' tx'] [= -> _].
Qed.

(** C11: [Table.Insert] keeps every index in step with the rows and is atomic: on
    success exactly one new row is stored, under a primary key that was free,
    and every index of the table lists it; on any error (a duplicate key, a
    taken unique value, an invalid row, a failed commit) the database is
    unchanged. This holds for every order in which Go may visit the indexes. *)
Theorem Table_Insert_correct d m t r :
  listing_of idx (order idx) -> can eng d m (1 + size idx) -> d_writerActive d = false -> consistent s idx m ->
  t_schema t = s -> row_ok r ->
  commits d m (fun _ m' => exists k val, encodeRow s r = Ok (P ++ k, val) /\ row_changed s idx k None (Some val) m m')
    (Table_Insert eng order r (d, t)).
Proof. apply Table_Insert_ok. Qed.

(** [Table.Update] replaces one stored row and moves its index entries,
    atomically. *)
Theorem Table_Update_correct d m t r :
  listing_of idx (order idx) -> listing_of idx (order' idx) -> can eng d m (1 + 2 * size idx) ->
  d_writerActive d = false -> consistent s idx m -> t_schema t = s -> row_ok r ->
  commits d m (fun _ m' => exists k old val, encodeRow s r = Ok (P ++ k, val) /\ row_changed s idx k (Some old) (Some val) m m')
    (Table_Update eng order order' r (d, t)).
Proof.
  intros Hord Hord' Hcan Hw C Ht Hr. apply (mutate_ok (1 + 2 * size idx)); [done..|]. intros t' Ht' Hx'.
  eapply ends_mono; [apply (updateRowLocked_ok eng s idx t' Ht' Hx' order order' Hord Hord' d m)| |].
  - by apply can_holds in Hcan.
  - cbn. by rewrite view_empty.
  - done.
  - intros _ [d' tx'] (-> & k & old & val & He & Hc & Hrec). cbn in Hc. rewrite view_empty in Hc. split_and!; [done|done|].
    by exists k, old, val.
  - by intros e [d' tx'] [= -> _].
Qed.

(** [Table.Delete] removes one row with its index entries, atomically, and
    tells whether it was there. *)
Theorem Table_Delete_correct d m t pk :
  listing_of idx (order idx) -> can eng d m (1 + size idx) -> d_writerActive d = false -> consistent s idx m -> t_schema t = s ->
  commits d m (fun found m' => exists k, encodeValue (findPrimary s) pk = Ok k /\
      if (found : bool) then exists old, row_changed s idx k (Some old) None m m' else m !! (P ++ k) = None /\ m' = m)
    (Table_Delete eng order pk (d, t)).
Proof.
  intros Hord Hcan Hw C Ht. apply (mutate_ok (1 + size idx)); [done..|]. intros t' Ht' Hx'.
  eapply ends_mono; [apply (deleteRowLocked_ok eng s idx t' Ht' Hx' order Hord d m)| |].
  - by apply can_holds in Hcan.
  - cbn. by rewrite view_empty.
  - cbn [tx_changes]. rewrite view_empty. intros found [d' tx'] (-> & k & Hk & H). destruct (m !! (P ++ k)) as [old|] eqn:E.
    + destruct H as (-> & Hc & Hrec). split_and!; [done|done|]. exists k. split; [done|]. by exists old.
    + destruct H as (-> & ->). split; [done|]. split; [split; try done; cbn; lia|]. exists k. split; [done|].
      split; [done|]. cbn. apply view_empty.
  - by intros e [d' tx'] ([= -> _] & _).
Qed.

(** ** The same inside a transaction *)

(** C32: [Tx.Insert], [Tx.Update] and [Tx.DeleteRow] keep the indexes in step on
    the transaction's own view: on success one row of the view changes together
    with its entries, on an error the transaction is unchanged; the database is
    never touched before the commit. *)
Theorem Tx_rows_consistent d m tx t r pk :
  listing_of idx (order idx) -> listing_of idx (order' idx) -> holds eng d m -> defs_ok s idx m ->
  consistent s idx (view (tx_changes tx) m) -> tx_closed tx = false -> tx_readOnly tx = false -> t_db t = tx_db tx ->
  t_schema t = s -> row_ok r ->
  let ok k old new '(d', tx', _) := d' = d /\ recorded tx tx' (1 + 2 * size idx) /\
    row_changed s idx k old new (view (tx_changes tx) m) (view (tx_changes tx') m) in
  let failed (_ : dberr) '(d', tx', _) := d' = d /\ tx' = tx in
  ends (Tx_Insert eng order r) (d, tx, Some t) (fun _ st => exists k val, encodeRow s r = Ok (P ++ k, val) /\ ok k None (Some val) st) failed /\
  ends (Tx_Update eng order order' r) (d, tx, Some t)
    (fun _ st => exists k old val, encodeRow s r = Ok (P ++ k, val) /\ ok k (Some old) (Some val) st) failed /\
  ends (Tx_DeleteRow eng order pk) (d, tx, Some t)
    (fun found st => exists k, encodeValue (findPrimary s) pk = Ok k /\
       if found then exists old, ok k (Some old) None st else view (tx_changes tx) m !! (P ++ k) = None /\ st.1 = (d, tx)) failed.
Proof.
  intros Hord Hord' Hd Hdef C Hcl Hro Hdb Ht Hr ok failed.
  assert (Hrun : forall (A : Type) (change : Table -> stM (Database S * Tx) dberr A) (Q : A -> Database S * Tx -> Prop) (R : dberr -> Database S * Tx -> Prop),
    ends (change (mkTable (t_db t) s idx)) (d, tx) Q R ->
    ends (mutateTable eng change) (d, tx, Some t) (fun a st => Q a st.1) (fun e st => R e st.1)).
  { intros A change Q R H. unfold ends, mutateTable in *. rewrite Hcl, (proj1 Hd), Hro, Hdb, Nat.eqb_refl, Ht. cbn [negb].
    rewrite (loadIndexesLocked_ok eng d m s idx) by (done || apply C).
    rewrite Hdb in H. by destruct (change _ (d, tx)) as [[a|e| |] [d' tx']]. }
  split_and!.
  - eapply ends_mono; [apply Hrun, (insertRowLocked_ok eng s idx (mkTable (t_db t) s idx) eq_refl eq_refl order Hord d m); done| |].
    + intros _ [[d' tx'] t'] (Hd' & k & val & He & Hc & Hrec). exists k, val. split; [done|]. split_and!; [done| |done].
      destruct Hrec. split; try done; lia.
    + intros e [[d' tx'] t'] [= -> ->]. done.
  - eapply ends_mono; [apply Hrun, (updateRowLocked_ok eng s idx (mkTable (t_db t) s idx) eq_refl eq_refl order order' Hord Hord' d m); done| |].
    + intros _ [[d' tx'] t'] (Hd' & k & old & val & He & Hc & Hrec). by exists k, old, val.
    + intros e [[d' tx'] t'] [= -> ->]. done.
  - eapply ends_mono; [apply Hrun, (deleteRowLocked_ok eng s idx (mkTable (t_db t) s idx) eq_refl eq_refl order Hord d m); done| |].
    + intros found [[d' tx'] t'] (Hd' & k & Hk & H). exists k. split; [done|]. destruct (view (tx_changes tx) m !! (P ++ k)) as [old|].
      * destruct H as (-> & Hc & Hrec). exists old. split_and!; [done| |done]. destruct Hrec. split; try done; lia.
      * destruct H as (-> & ->). split; [done|]. cbn. by rewrite Hd'.
    + intros e [[d' tx'] t'] [[= -> ->] _]. done.
Qed.
End Results.
