(* ===== verification/CreateIndexSpec.v ===== *)
(** * Creating an index

    The backfill of [CreateIndex] in src/db/index.go: the new index covers every
    row that was stored before it. *)

From S2P Require Import Prelude KvList Errors Codec CodecSpec Page PageManager KV KVSpec KVResults Engine Database DatabaseSpec.
From S2P Require Import Table TableSpec RowSpec MutationSpec CatalogSpec QuerySpec.

(** A batch of writes in which a key is written with one value only. *)
Lemma fold_puts ms : forall m : gmap bytes bytes,
  (forall mu, mu ∈ ms -> mu_delete mu = false) ->
  (forall a b, a ∈ ms -> b ∈ ms -> mu_key a = mu_key b -> mu_value a = mu_value b) ->
  forall x v, fold_left applyMutation ms m !! x = Some v <->
    (exists mu, mu ∈ ms /\ mu_key mu = x /\ mu_value mu = v) \/ ((forall mu, mu ∈ ms -> mu_key mu <> x) /\ m !! x = Some v).
Proof.
  induction ms as [|mu ms IH]; intros m Hd Hf x v; cbn [fold_left].
  { split; [intros H; right; split; [by intros ? ?%not_elem_of_nil|done]|].
    intros [(mu & H & _)|[_ H]]; [by apply not_elem_of_nil in H|done]. }
  rewrite IH by (intros; try apply Hd; try apply Hf; try (by right); done).
  unfold applyMutation. rewrite (Hd mu) by left. split.
  - intros [(mu' & Hin & H1 & H2)|[Hne H]]; [left; exists mu'; split; [by right|done]|].
    destruct (decide (mu_key mu = x)) as [<-|Hx].
    + rewrite lookup_insert_eq in H. injection H as <-. left. exists mu. split; [left|done].
    + rewrite lookup_insert_ne in H by done. right. split; [|done]. intros mu' [->|Hin]%elem_of_cons; [done|by apply Hne].
  - intros [(mu' & Hin & <- & <-)|[Hne H]].
    + apply elem_of_cons in Hin as [->|Hin]; [|left; by exists mu'].
      destruct (decide (Exists (fun a => mu_key a = mu_key mu) ms)) as [He|He].
      * apply Exists_exists in He as (a & Ha & Hk). left. exists a. split_and!; [done|done|].
        apply Hf; [by right|left|done].
      * right. split; [|by rewrite lookup_insert_eq]. intros a Ha Hk. apply He, Exists_exists. eauto.
    + right. split; [intros; apply Hne; by right|]. rewrite lookup_insert_ne; [done|]. apply Hne. left.
Qed.

Section Create.
Context (s : TableSchema).
Abbreviation P := (rowPrefix (s_name s)).
Abbreviation E index := (indexEntryPrefix (s_name s) (i_name index)).

Definition primary_of (e : kv) : bytes := drop (length P) e.1.
Definition suffix_of (index : Index) (e : kv) : option bytes := entry_of s index (primary_of e) e.2.
Definition put_of (index : Index) (e : kv) : Mutation :=
  mkMutation (E index ++ default [] (suffix_of index e)) (primary_of e) false.

Lemma backfill_ok index L : forall seen : gmap bytes bytes,
  (forall e, e ∈ L -> is_Some (suffix_of index e)) ->
  gives (backfill s index L seen) (fun ms => ms = map (put_of index) L /\
    (i_unique index = true ->
       (forall e t k, e ∈ L -> suffix_of index e = Some t -> seen !! t = Some k -> k = primary_of e) /\
       (forall a b t, a ∈ L -> b ∈ L -> suffix_of index a = Some t -> suffix_of index b = Some t -> primary_of a = primary_of b))).
Proof.
  induction L as [|[key val] L IH]; intros seen HL; cbn [backfill map].
  { split; [done|]. intros _. split; intros *; by intros ?%not_elem_of_nil. }
  destruct (HL (key, val)) as [t Ht]; [left|]. pose proof Ht as Ht0.
  unfold suffix_of, entry_of in Ht. cbn [snd] in Ht. destruct (decodeRow s val) as [r| | |]; try done.
  destruct (encodeIndexValue _ _) as [enc| | |]; try done. injection Ht as Ht. fold (primary_of (key, val)) in *.
  set (k := primary_of (key, val)) in *. apply gives_guard. intros Hg.
  eapply gives_bind; [apply IH; intros; apply HL; by right|]. cbn beta. intros ms [-> Hu]. split.
  - cbn [map]. f_equal. unfold put_of. rewrite Ht0. cbn [default id]. change (drop (Datatypes.S (length (escape (s_name s)))) key) with k.
    rewrite indexEntryKey_app. by rewrite <- Ht.
  - intros Huniq. rewrite Huniq in *. rewrite app_nil_r in Ht. subst t. cbn [andb] in Hg.
    destruct (Hu eq_refl) as [H1 H2]. assert (Hk : forall e, e ∈ L -> suffix_of index e = Some enc -> k = primary_of e).
    { intros e He Hs. apply (H1 e enc k He Hs). by rewrite lookup_insert_eq. }
    split.
    + intros e t k' [->|He]%elem_of_cons Hs Hseen.
      * rewrite Ht0 in Hs. injection Hs as <-. rewrite Hseen in Hg. apply negb_false_iff, beqb_eq in Hg. done.
      * destruct (decide (t = enc)) as [->|Hne].
        -- rewrite Hseen in Hg. apply negb_false_iff, beqb_eq in Hg. rewrite Hg. by apply Hk.
        -- apply (H1 e t k' He Hs). by rewrite lookup_insert_ne.
    + intros a b t [->|Ha]%elem_of_cons [->|Hb]%elem_of_cons Hsa Hsb; [done| | |by eapply H2].
      * rewrite Ht0 in Hsa. injection Hsa as <-. by apply Hk.
      * rewrite Ht0 in Hsb. injection Hsb as <-. symmetry. by apply Hk.
Qed.

(** The rows of a consistent map. *)
Lemma rows_suffix idx index m e :
  consistent s idx m -> validateIndex index s = Ok tt -> e ∈ with_prefix P (entries m) ->
  exists k r enc w, e.1 = P ++ k /\ primary_of e = k /\ m !! (P ++ k) = Some e.2 /\ row_ok r /\ encodeRow s r = Ok (P ++ k, e.2) /\
    encodes (columnByName s (i_column index)) w enc /\ any_ok w /\
    suffix_of index e = Some (enc ++ (if i_unique index then [] else k)).
Proof.
  destruct e as [key val]. intros C Hv [(k & ->) Hm]%elem_with_prefix. destruct (cs_rows _ _ _ C k val Hm) as (r & Hr & He).
  destruct (stored_entry s index r k val (cs_schema _ _ _ C) Hv Hr He) as (enc & w & _ & Hw & Hok & _ & Hent).
  exists k, r, enc, w. unfold suffix_of, primary_of. cbn [fst snd]. rewrite drop_app_length. split_and!; done.
Qed.

Lemma puts_functional idx index m :
  consistent s idx m -> validateIndex index s = Ok tt ->
  (i_unique index = true -> forall a b t, a ∈ with_prefix P (entries m) -> b ∈ with_prefix P (entries m) ->
     suffix_of index a = Some t -> suffix_of index b = Some t -> primary_of a = primary_of b) ->
  forall a b, a ∈ map (put_of index) (with_prefix P (entries m)) -> b ∈ map (put_of index) (with_prefix P (entries m)) ->
    mu_key a = mu_key b -> mu_value a = mu_value b.
Proof.
  intros C Hv Hu a b (x & -> & Hx)%list_elem_of_fmap (y & -> & Hy)%list_elem_of_fmap. cbn [put_of mu_key mu_value]. intros Heq.
  destruct (rows_suffix idx index m x C Hv Hx) as (k1 & r1 & enc1 & w1 & _ & K1 & _ & _ & _ & W1 & O1 & S1).
  destruct (rows_suffix idx index m y C Hv Hy) as (k2 & r2 & enc2 & w2 & _ & K2 & _ & _ & _ & W2 & O2 & S2).
  rewrite S1, S2 in Heq. cbn [default id] in Heq. apply app_inv_head in Heq. destruct (i_unique index) eqn:Huq.
  - apply (Hu eq_refl x y (enc1 ++ [])); [done..|]. rewrite S2. by rewrite Heq.
  - rewrite K1, K2. by destruct (encodes_self _ _ _ _ _ _ _ W1 W2 O1 O2 Heq) as [_ ->].
Qed.

(** Writing the backfilled entries and the definition extends the invariant to
    the new index. *)
Lemma create_consistent idx index m m' :
  consistent s idx m -> validateIndex index s = Ok tt -> idx !! i_name index = None ->
  (forall a b, a ∈ map (put_of index) (with_prefix P (entries m)) -> b ∈ map (put_of index) (with_prefix P (entries m)) ->
    mu_key a = mu_key b -> mu_value a = mu_value b) ->
  m' = fold_left applyMutation (map (put_of index) (with_prefix P (entries m)) ++
    [mkMutation (indexMetadataKey (s_name s) (i_name index)) (encodeIndexMetadata index) false]) m ->
  consistent s (<[i_name index := index]> idx) m' /\ forall k, m' !! (P ++ k) = m !! (P ++ k).
Proof.
  intros C Hv Hnone Hfun ->. rewrite fold_left_app. cbn [fold_left applyMutation mu_delete mu_key mu_value].
  set (m1 := fold_left applyMutation _ m).
  assert (Hm1 : forall x v, m1 !! x = Some v <->
    (exists e, e ∈ with_prefix P (entries m) /\ E index ++ default [] (suffix_of index e) = x /\ primary_of e = v) \/
    ((forall t, x <> E index ++ t) /\ m !! x = Some v)).
  { intros x v. unfold m1. rewrite fold_puts; [|by intros mu (e & -> & _)%list_elem_of_fmap|done]. split.
    - intros [(mu & (e & -> & He)%list_elem_of_fmap & H1 & H2)|[Hne H]]; [left; by exists e|right].
      split; [|done]. intros t ->. by rewrite (cs_nothing _ _ _ C _ _ Hnone) in H.
    - intros [(e & He & H1 & H2)|[Hne H]]; [left; exists (put_of index e); split_and!; [|done|done]; apply list_elem_of_fmap; by exists e|right].
      split; [|done]. intros mu (e & -> & He)%list_elem_of_fmap. cbn. intros Heq. by apply (Hne (default [] (suffix_of index e))). }
  assert (Hother : forall x, (forall t, x <> E index ++ t) -> m1 !! x = m !! x).
  { intros x Hx. apply option_eq. intros v. rewrite Hm1. split; [|by right]. intros [(e & _ & Heq & _)|[_ H]]; [|done].
    by destruct (Hx _ (eq_sym Heq)). }
  assert (Hrows : forall k, <[indexMetadataKey (s_name s) (i_name index) := encodeIndexMetadata index]> m1 !! (P ++ k) = m !! (P ++ k)).
  { intros k. rewrite lookup_insert_ne by done. by apply Hother. }
  split; [|done]. split; [apply C| | | |].
  - intros k val. rewrite Hrows. apply C.
  - destruct (cs_defs _ _ _ C) as [Hst Hval]. rewrite indexMetadataKey_app. split.
    + intros t v Ht. destruct (decide (t = escape (i_name index))) as [->|Hne].
      * rewrite lookup_insert_eq. split.
        -- intros [= <-]. exists index. by rewrite lookup_insert_eq.
        -- intros (i & Hi & Heq & ->). assert (i_name i = i_name index) as Hn.
           { apply (f_equal (fun x => x ++ [])) in Heq. by apply escape_inj in Heq as [-> _]. }
           rewrite Hn, lookup_insert_eq in Hi. by injection Hi as ->.
      * rewrite lookup_insert_ne by (intros Heq; by apply app_inv_head in Heq). rewrite Hother by done. rewrite Hst by done.
        split; intros (i & Hi & -> & ->); exists i; (split; [|done]).
        -- rewrite lookup_insert_ne; [done|]. intros Heq. by rewrite <- Heq in Hne.
        -- rewrite lookup_insert_ne in Hi; [done|]. intros Heq. by rewrite <- Heq in Hne.
    + intros name i. destruct (decide (name = i_name index)) as [->|Hne].
      * rewrite lookup_insert_eq. by intros [= <-].
      * rewrite lookup_insert_ne by done. apply Hval.
  - intros name i. destruct (decide (name = i_name index)) as [->|Hne].
    + rewrite lookup_insert_eq. intros [= <-] t k. rewrite Hrows, lookup_insert_ne by done. rewrite Hm1. split.
      * intros [([key val] & He & Heq & Hp)|[Hx _]]; [|by destruct (Hx t)].
        destruct (rows_suffix idx index m (key, val) C Hv He) as (k' & r & enc & w & _ & K & Hm & _ & _ & _ & _ & Hs).
        rewrite Hs in Heq. cbn [default id] in Heq. apply app_inv_head in Heq. subst t k. exists val.
        cbn [snd] in *. rewrite K. split; [done|]. unfold suffix_of in Hs. by rewrite K in Hs.
      * intros (val & Hm & Hent). left. exists (P ++ k, val). unfold suffix_of, primary_of. cbn [fst snd].
        rewrite drop_app_length, Hent. split_and!; [|done|done]. apply elem_with_prefix. split; [by exists k|done].
    + rewrite lookup_insert_ne by done. intros Hi t k. destruct (df_valid _ _ _ (cs_defs _ _ _ C) _ _ Hi) as [Hn _].
      rewrite Hrows, lookup_insert_ne by done. rewrite Hother; [by apply (cs_indexed _ _ _ C _ _ Hi)|].
      intros t' Heq. apply entryPrefix_inj in Heq as (_ & Heq & _). congruence.
  - intros name t Hn. destruct (decide (name = i_name index)) as [->|Hne]; [by rewrite lookup_insert_eq in Hn|].
    rewrite lookup_insert_ne in Hn by done. rewrite lookup_insert_ne by done. rewrite Hother; [by apply (cs_nothing _ _ _ C)|].
    intros t' Heq. apply entryPrefix_inj in Heq as (_ & Heq & _). congruence.
Qed.
End Create.
