(* ===== verification/QueryResults.v ===== *)
(** * Results on reading and creating tables (src/db/table.go, index.go)

    Point lookups and scans return what was inserted, an index lookup agrees
    with a filtered scan, a created table can be opened, and a created index
    covers the rows that were there before it. *)

From S2P Require Import Prelude KvList Errors Codec CodecSpec Page PageManager KV KVSpec KVResults Engine Database DatabaseSpec.
From S2P Require Import Table TableSpec RowSpec MutationSpec CatalogSpec QuerySpec CreateIndexSpec.

Section Results.
Context {S : Type} (eng : Store S) {Sp : StoreSpec eng}.
Context (s : TableSchema) (idx : gmap bytes Index).
Implicit Types (d : Database S) (m : gmap bytes bytes) (t : Table).
Abbreviation P := (rowPrefix (s_name s)).
Abbreviation pk := (c_name (findPrimary s)).

(** ** Point lookups *)

(** Rows with the same stored form read the same. *)
Lemma complete_stored r1 r2 k val :
  row_ok r1 -> row_ok r2 -> encodeRow s r1 = Ok (P ++ k, val) -> encodeRow s r2 = Ok (P ++ k, val) -> complete s r1 = complete s r2.
Proof.
  intros H1 H2 E1 E2. destruct (stored_decodes s r1 k val H1 E1) as (D1 & K1 & _).
  destruct (stored_decodes s r2 k val H2 E2) as (D2 & K2 & _). unfold complete. congruence.
Qed.

Lemma Table_Get_ok d m t r k val :
  holds eng d m -> t_schema t = s -> m !! (P ++ k) = Some val -> row_ok r -> encodeRow s r = Ok (P ++ k, val) ->
  Table_Get eng t (row_get r pk) d = (Ok (Some (complete s r)), d).
Proof.
  intros Hd Ht Hm Hr He. destruct (stored_decodes s r k val Hr He) as (Hdec & _ & Hpk).
  pose proof (er_key _ _ _ _ (encodeRow_inv _ _ _ _ He)) as Hlen. unfold Table_Get. rewrite (proj1 Hd), Ht.
  rewrite (bind_lift_ok _ _ _ (P ++ k)).
  2:{ unfold rowKey. rewrite Hpk. by rewrite Z.gtb_ltb, (proj2 (Z.ltb_ge _ _)) by lia. }
  assert (Hget : getLocked eng (P ++ k) d = (Ok (Some val), d)) by (rewrite (getLocked_ok eng d m), Hm by (done || (by intros _)); done).
  rewrite (bind_ok _ _ _ _ _ Hget), (bind_lift_ok _ _ _ _ Hdec). done.
Qed.

Lemma Table_Get_any d m t v k :
  holds eng d m -> consistent s idx m -> t_schema t = s -> any_ok v -> rowKey s v = Ok (P ++ k) ->
  match m !! (P ++ k) with
  | Some val => exists r, row_ok r /\ encodeRow s r = Ok (P ++ k, val) /\ Table_Get eng t v d = (Ok (Some (complete s r)), d)
  | None => Table_Get eng t v d = (Ok None, d)
  end.
Proof.
  intros Hd C Ht Hv Hk. destruct (m !! (P ++ k)) as [val|] eqn:Hm.
  - destruct (cs_rows _ _ _ C k val Hm) as (r & Hr & He). exists r. split_and!; [done|done|].
    destruct (stored_decodes s r k val Hr He) as (_ & K & _). pose proof (rowKey_total s v) as T. rewrite Hk in T.
    destruct T as (enc & Henc & Heq & _). apply app_inv_head in Heq as <-.
    destruct (findPrimary_spec s (cs_schema _ _ _ C)) as [Hp _].
    rewrite (decode_encodePrimary _ v k Hp Hv Henc) in K. injection K as ->. by eapply Table_Get_ok.
  - unfold Table_Get. rewrite (proj1 Hd), Ht, (bind_lift_ok _ _ _ _ Hk).
    assert (Hget : getLocked eng (P ++ k) d = (Ok None, d)) by (rewrite (getLocked_ok eng d m), Hm by (done || (by intros _)); done).
    by rewrite (bind_ok _ _ _ _ _ Hget).
Qed.

(** [Table.Get] returns the stored row of a primary key as it was inserted,
    every column of the schema present and missing nullable ones as nil; a
    primary key without a row is reported as not found. *)
Theorem Table_Get_correct d m t v k :
  holds eng d m -> consistent s idx m -> t_schema t = s -> any_ok v -> rowKey s v = Ok (P ++ k) ->
  match m !! (P ++ k) with
  | Some val => exists r, row_ok r /\ encodeRow s r = Ok (P ++ k, val) /\ Table_Get eng t v d = (Ok (Some (complete s r)), d)
  | None => Table_Get eng t v d = (Ok None, d)
  end.
Proof. apply Table_Get_any. Qed.

(** ** Scans *)

Lemma schema_name_length : schema_ok s -> len (s_name s) <= 128.
Proof. intros H. apply H. Qed.

Lemma scan_ok d m t :
  holds eng d m -> consistent s idx m -> t_schema t = s ->
  exists rows, Table_Scan eng t d = (Ok rows, d) /\ Forall2 (stores s) (with_prefix P (entries m)) rows.
Proof.
  intros Hd C Ht. unfold Table_Scan. rewrite (proj1 Hd), Ht.
  rewrite (bind_ok _ _ _ _ _ (tableRowsLocked_ok eng d m (s_name s) Hd (schema_name_length (cs_schema _ _ _ C)))).
  destruct (decodeRows_ok s (with_prefix P (entries m))) as (rows & Hrows & HF).
  { apply (consistent_rows s idx m); [done|]. intros k v Hin. by apply elem_with_prefix in Hin as [_ ?]. }
  exists rows. unfold lift. rewrite Hrows. split; [done|].
  assert (Hid : with_prefix P (with_prefix P (entries m)) = with_prefix P (entries m)); [|by rewrite Hid in HF].
  unfold with_prefix. generalize (entries m). induction l as [|e l IH]; [done|]. cbn [List.filter].
  destruct (hasPrefix e.1 P) eqn:Ep; [|done]. cbn [List.filter]. by rewrite Ep, IH.
Qed.

(** [Table.Scan] returns every stored row exactly once, as it was inserted,
    in strictly ascending order of the primary keys (numeric for integers,
    bytewise for strings). *)
Theorem Table_Scan_correct d m t :
  holds eng d m -> consistent s idx m -> t_schema t = s ->
  exists rows, Table_Scan eng t d = (Ok rows, d) /\ Forall2 (stores s) (with_prefix P (entries m)) rows /\
    StronglySorted pk_lt (map (fun r => row_get r pk) rows).
Proof.
  intros Hd C Ht. destruct (scan_ok d m t Hd C Ht) as (rows & Hrows & HF). exists rows. split_and!; [done|done|].
  eapply stores_sorted; [apply C|apply with_prefix_sorted|done].
Qed.

(** ** Types *)

(** The values a column may hold. *)
Definition has_type (c : Column) (v : any) : Prop :=
  match v with
  | ANil => c_nullable c = true /\ c_primary c = false
  | AInt64 z => c_type c = ColumnInt64 /\ int64 z
  | AString _ => c_type c = ColumnString
  | ABytes _ => c_type c = ColumnBytes
  | ABool _ => c_type c = ColumnBool
  | AOther => False
  end.
Lemma encodeValue_typed c v e : encodeValue c v = Ok e -> any_ok v -> has_type c v.
Proof.
  unfold encodeValue. destruct (valid_type (c_type c)) eqn:Ev; [|done]. cbn [negb]. apply valid_type_cases in Ev.
  destruct v; cbn -[ColumnInt64 ColumnString ColumnBytes ColumnBool].
  1: destruct (c_nullable c), (c_primary c); done.
  all: destruct Ev as [E|[E|[E|E]]]; rewrite E; cbn; done.
Qed.
Lemma encodeCells_each cs r c : forall i cells, encodeCells cs i r = Ok cells -> c ∈ cs -> c_primary c = false ->
  exists e, encodeValue c (row_get r (c_name c)) = Ok e.
Proof.
  induction cs as [|d cs IH]; intros i cells H Hc Hp; [by apply not_elem_of_nil in Hc|]. cbn in H.
  apply elem_of_cons in Hc as [->|Hc].
  - rewrite Hp in H. destruct (encodeValue d _) as [e| | |]; try done. eauto.
  - destruct (c_primary d); [by eapply IH|]. destruct (encodeValue d _) as [e| | |]; try done.
    destruct (encodeCells cs (i + 1) r) as [rest| | |] eqn:E; try done. by eapply IH.
Qed.
Lemma stores_typed e r : stores s e r -> forall c, c ∈ s_columns s -> exists v, r !! c_name c = Some v /\ has_type c v.
Proof.
  intros (k & r0 & _ & Hr & He & ->) c Hc. apply encodeRow_inv in He as [Hs _ _ (enc & Hpk & _) _ (cells & Hcells & _) _].
  exists (row_get r0 (c_name c)). split; [by apply complete_get|].
  assert (exists e', encodeValue c (row_get r0 (c_name c)) = Ok e') as [e' He'].
  { destruct (c_primary c) eqn:Ep; [|by eapply encodeCells_each]. rewrite (findPrimary_is s c Hs Hc Ep) in Hpk. eauto. }
  eapply encodeValue_typed; [exact He'|by apply row_get_ok].
Qed.

(** C33: the rows of a table are typed: every row a scan of a consistent table
    returns has, for every column of the schema, a value of the column's type, an
    integer within 64 bits; nil only where the column is nullable, never as the
    primary key. *)
Theorem Table_Scan_typed d m t :
  holds eng d m -> consistent s idx m -> t_schema t = s ->
  exists rows, Table_Scan eng t d = (Ok rows, d) /\
    Forall (fun r => forall c, c ∈ s_columns s -> exists v, r !! c_name c = Some v /\ has_type c v) rows.
Proof.
  intros Hd C Ht. destruct (scan_ok d m t Hd C Ht) as (rows & Hrows & HF). exists rows. split; [done|].
  clear Hrows. induction HF as [|e r l rows He _ IH]; constructor; [by eapply stores_typed|done].
Qed.

(** ** Ranges *)

Lemma stores_fun e r1 r2 : stores s e r1 -> stores s e r2 -> r1 = r2.
Proof.
  intros (k1 & r & K1 & H1 & E1 & ->) (k2 & r' & K2 & H2 & E2 & ->). rewrite K1 in K2. apply app_inv_head in K2 as <-.
  rewrite K1 in *. by eapply complete_stored.
Qed.
Lemma Forall2_fun {A B} (R : A -> B -> Prop) l k1 k2 :
  (forall a b1 b2, R a b1 -> R a b2 -> b1 = b2) -> Forall2 R l k1 -> Forall2 R l k2 -> k1 = k2.
Proof.
  intros Hf H. revert k2. induction H as [|a b l k1 Hab _ IH]; intros k2 H2; inversion H2; subst; [done|].
  f_equal; [by eapply Hf|by apply IH].
Qed.

Lemma range_filter_prefix lo hi l : with_prefix P (kv_range lo hi l) = kv_range lo hi (with_prefix P l).
Proof.
  unfold with_prefix, kv_range. induction l as [|e l IH]; cbn [List.filter]; [done|].
  destruct (_ && _) eqn:E1, (hasPrefix e.1 P) eqn:E2; cbn [List.filter]; rewrite ?E1, ?E2, ?IH; done.
Qed.
Lemma Table_Range_any d m t lo hi klo khi rows :
  holds eng d m -> consistent s idx m -> t_schema t = s -> any_ok lo -> any_ok hi ->
  rowKey s lo = Ok klo -> rowKey s hi = Ok khi -> Table_Scan eng t d = (Ok rows, d) ->
  Table_Range eng t lo hi d = (Ok (List.filter (fun r => pk_leb lo (row_get r pk) && pk_leb (row_get r pk) hi) rows), d).
Proof.
  intros Hd C Ht Hlo Hhi Klo Khi Hscan. destruct (scan_ok d m t Hd C Ht) as (rows' & Hrows & HF).
  rewrite Hrows in Hscan. injection Hscan as ->. pose proof (cs_schema _ _ _ C) as Hs.
  pose proof (rowKey_total s lo) as T1. pose proof (rowKey_total s hi) as T2. rewrite Klo in T1. rewrite Khi in T2.
  destruct T1 as (a & Ha & -> & La), T2 as (b & Hb & -> & Lb).
  pose proof (range_rows s lo hi a b _ rows Hs Hlo Hhi Ha Hb HF) as HR.
  unfold Table_Range. rewrite (proj1 Hd), Ht, (bind_lift_ok _ _ _ _ Klo), (bind_lift_ok _ _ _ _ Khi).
  destruct (bltb (P ++ b) (P ++ a)) eqn:El.
  - assert (Hnil : kv_range (P ++ a) (P ++ b) (with_prefix P (entries m)) = []).
    { unfold kv_range. clear -El. induction (with_prefix P (entries m)) as [|e l IH]; [done|]. cbn [List.filter].
      destruct (bleb (P ++ a) e.1) eqn:E1, (bleb e.1 (P ++ b)) eqn:E2; cbn [andb]; [exfalso; border|exact IH..]. }
    rewrite Hnil in HR. inversion HR as [|]. done.
  - assert (Hr : rangeLocked eng (P ++ a) (P ++ b) d = (Ok (kv_range (P ++ a) (P ++ b) (entries m)), d))
      by (apply (rangeLocked_ok eng d m); [done|by intros _..]).
    rewrite (bind_ok _ _ _ _ _ Hr). unfold lift.
    destruct (decodeRows_ok s (kv_range (P ++ a) (P ++ b) (entries m))) as (found & -> & HF').
    { apply (consistent_rows s idx m); [done|]. intros k v Hin. apply kv_range_elem in Hin as [Hin _]. by apply elem_entries. }
    rewrite range_filter_prefix in HF'. f_equal. f_equal. by eapply (Forall2_fun (stores s)); [apply stores_fun|exact HF'|exact HR].
Qed.

(** [Table.Range] returns exactly the rows of [Scan] whose primary key lies
    between the two bounds, ends included, in the same ascending order; with the
    bounds the wrong way round there are none. *)
Theorem Table_Range_correct d m t lo hi klo khi :
  holds eng d m -> consistent s idx m -> t_schema t = s -> any_ok lo -> any_ok hi ->
  rowKey s lo = Ok klo -> rowKey s hi = Ok khi ->
  exists rows, Table_Scan eng t d = (Ok rows, d) /\
    Table_Range eng t lo hi d = (Ok (List.filter (fun r => pk_leb lo (row_get r pk) && pk_leb (row_get r pk) hi) rows), d).
Proof.
  intros Hd C Ht Hlo Hhi Klo Khi. destruct (scan_ok d m t Hd C Ht) as (rows & Hrows & _). exists rows. split; [done|].
  by apply (Table_Range_any d m t lo hi klo khi).
Qed.

(** ** Index lookups *)

Lemma filter_stores index enc v m name l rows :
  consistent s idx m -> idx !! name = Some index -> encodes (columnByName s (i_column index)) v enc -> any_ok v ->
  (forall e, e ∈ l -> m !! e.1 = Some e.2) -> Forall2 (stores s) l rows ->
  Forall2 (stores s) (List.filter (matches s index enc) l) (List.filter (fun r => bool_decide (row_get r (i_column index) = v)) rows).
Proof.
  intros C Hi He Hv Hl H. induction H as [|e r l rows Hst HF IH]; cbn [List.filter]; [constructor|].
  rewrite (matches_value s idx name index enc v m e r) by (done || (apply Hl; left)).
  destruct (bool_decide _); [constructor; [done|]|]; apply IH; intros; apply Hl; by right.
Qed.
(** C12: an index lookup agrees with a full scan: [FindByIndex] returns exactly
    the rows of [Scan] whose indexed column equals the value, in the same
    ascending primary-key order, for unique and non-unique indexes; none of its
    consistency checks fails. *)
Theorem FindByIndex_scan d m t name index v enc :
  holds eng d m -> consistent s idx m -> t_schema t = s -> idx !! name = Some index -> any_ok v ->
  encodeIndexValue (columnByName s (i_column index)) v = Ok enc ->
  bound_ok d (indexValuePrefix (s_name s) index enc) -> bound_ok d (prefixEnd (indexValuePrefix (s_name s) index enc)) ->
  exists rows, Table_Scan eng t d = (Ok rows, d) /\
    FindByIndex eng name v (d, t) =
      (Ok (List.filter (fun r => bool_decide (row_get r (i_column index) = v)) rows), (d, mkTable (t_db t) s idx)).
Proof.
  intros Hd C Ht Hi Hv Henc Hb1 Hb2. destruct (scan_ok d m t Hd C Ht) as (rows & Hrows & HF). exists rows. split; [done|].
  destruct (df_valid _ _ _ (cs_defs _ _ _ C) _ _ Hi) as [_ Hvalid].
  destruct (index_column s index Hvalid) as (c & Hc & _ & _ & Hp).
  assert (Hencs : encodes (columnByName s (i_column index)) v enc).
  { rewrite Hc in *. rewrite encodeIndexValue_plain in Henc by done. by apply encodeValue_encodes in Henc as [_ ?]. }
  set (prefix := indexValuePrefix (s_name s) index enc) in *.
  assert (Hscan : with_prefix prefix (kv_range prefix (prefixEnd prefix) (entries m)) =
    map (index_entry s index enc) (List.filter (matches s index enc) (with_prefix P (entries m)))).
  { rewrite (prefix_scan prefix Byte.x30) by (done || left). by apply (index_scan s idx name index enc v). }
  destruct (findRows_ok s eng idx name index enc m d Hd C Hi (kv_range prefix (prefixEnd prefix) (entries m))
    (List.filter (matches s index enc) (with_prefix P (entries m)))) as (found & Hfound & HF').
  { intros [key val]. rewrite list_elem_of_In, List.filter_In, <- list_elem_of_In, elem_with_prefix. cbn [fst snd]. tauto. }
  { done. }
  assert (Heq : found = List.filter (fun r => bool_decide (row_get r (i_column index) = v)) rows).
  { eapply (Forall2_fun (stores s)); [apply stores_fun|exact HF'|]. eapply filter_stores; try done.
    intros [key val] Hin. by apply elem_with_prefix in Hin as [_ ?]. }
  unfold FindByIndex. rewrite (proj1 Hd). unfold bind at 1, refreshIndexesLocked. rewrite Ht.
  rewrite (loadIndexesLocked_ok eng d m s idx) by (done || apply C). unfold bind at 1, this_table. cbn [t_indexes t_schema].
  rewrite Hi. rewrite (bind_lift_ok _ _ _ _ Henc). fold prefix. unfold bind, on_handle.
  rewrite (rangeLocked_ok eng d m) by done. fold prefix in Hfound. rewrite Hfound. by rewrite Heq.
Qed.

(** ** Creating tables *)

Lemma setLocked_ok d m key value :
  can eng d m 1 ->
  ends (setLocked eng key value) d (fun _ d' => holds eng d' (<[key := value]> m) /\ kept d d') (fun _ d' => holds eng d' m /\ kept d d').
Proof.
  intros [Hc H]. unfold ends, setLocked. destruct (d_durable d) as [st|] eqn:E.
  - pose proof (ss_set st (entries m) key value H) as B. unfold on_store.
    destruct (st_Set eng key value st) as [[u|e| |] st']; cbn in *; [|by split; [|eapply kept_durable]|done..].
    destruct B as (kvs' & Hs & _ & ->). rewrite entries_set in Hs. split; [by split|by eapply kept_durable].
  - unfold store_data. rewrite H. split; [|unfold kept; cbn; by rewrite E]. split; [done|]. cbn. by rewrite E.
Qed.

(** Creating a table whose name, if free, has nothing stored under it. *)
Lemma CreateTable_ok d m :
  can eng d m 1 -> d_writerActive d = false -> (m !! descriptorKey (s_name s) = None -> unused s m) ->
  ends (CreateTable eng s) d
    (fun t d' => t = mkTable (d_id d) s ∅ /\ m !! descriptorKey (s_name s) = None /\
       exists m', m' = <[descriptorKey (s_name s) := encodeDescriptor s]> m /\ holds eng d' m' /\ stored_table s ∅ m' /\ kept d d')
    (fun _ d' => holds eng d' m /\ kept d d').
Proof.
  intros Hcan Hw Hun. pose proof (can_holds eng d m 1 Hcan) as Hd. unfold ends at 1, CreateTable. rewrite (proj1 Hd), Hw.
  apply (ends_gives _ _ _ (fun _ => schema_ok s)); [apply validateSchema_total|intros [] Hs|done].
  apply ends_bind. unfold ends at 1. rewrite (getLocked_ok eng d m) by (done || (by intros _)).
  apply ends_guard; [done|]. intros Hno%bool_decide_eq_false%eq_None_not_Some. apply ends_guard; [done|].
  intros Hlen. rewrite Z.gtb_ltb in Hlen. apply Z.ltb_ge in Hlen.
  apply ends_bind. eapply ends_mono; [by apply (setLocked_ok d m)| |done]. intros _ d' (Hd' & Hk).
  split; [done|]. split; [done|]. eexists. split_and!; [done|done| |done].
  split; [apply unused_consistent; [done|by apply Hun]|by rewrite lookup_insert_eq|done].
Qed.

(** A created table can be opened: [CreateTable] accepts only valid schemas,
    stores the descriptor atomically, and [OpenTable] then returns a handle with
    the same schema and no index, on a consistent empty table; when it refuses,
    the database is unchanged. *)
Theorem CreateTable_OpenTable d m :
  can eng d m 1 -> d_writerActive d = false -> unused s m ->
  ends (CreateTable eng s) d
    (fun t d' => schema_ok s /\ t = mkTable (d_id d) s ∅ /\
       exists m', m' = <[descriptorKey (s_name s) := encodeDescriptor s]> m /\ holds eng d' m' /\ consistent s ∅ m' /\
         OpenTable eng (s_name s) d' = (Ok t, d'))
    (fun _ d' => holds eng d' m /\ kept d d').
Proof.
  intros Hcan Hw Hun. eapply ends_mono; [by apply (CreateTable_ok d m)| |done].
  intros t d' (-> & _ & m' & -> & Hd' & T & Hk). pose proof (tb_consistent _ _ _ T) as C. split; [apply C|]. split; [done|].
  eexists. split_and!; [done|done|done|]. by rewrite (OpenTable_ok eng s ∅ d' _ Hd' T), (proj1 Hk).
Qed.

(** ** Creating indexes *)

Lemma validateIndex_total index : gives (validateIndex index s) (fun _ => validateIndex index s = Ok tt).
Proof. unfold validateIndex. destruct (_ || _); [done|]. destruct (findColumn s _) as [c|]; [|done]. by destruct (c_primary c). Qed.

(** C31: [CreateIndex] covers the rows that were there before it: on success the
    table is consistent with the new index added and its rows are unchanged; a
    name in use, an invalid definition, a duplicate under a unique index or a
    failed commit leaves the database as it was. *)
Theorem CreateIndex_consistent d m t index :
  can eng d m (length (with_prefix P (entries m)) + 1) -> d_writerActive d = false -> consistent s idx m -> t_schema t = s ->
  ends (CreateIndex eng index) (d, t)
    (fun _ '(d', t') => exists m', holds eng d' m' /\ consistent s (<[i_name index := index]> idx) m' /\
       (forall k, m' !! (P ++ k) = m !! (P ++ k)) /\ idx !! i_name index = None /\
       t_schema t' = s /\ t_indexes t' = <[i_name index := index]> idx /\ kept d d')
    (fun _ '(d', t') => holds eng d' m /\ kept d d').
Proof.
  intros Hcan Hw C Ht. pose proof (can_holds eng d m _ Hcan) as Hd. unfold ends at 1, CreateIndex. rewrite (proj1 Hd), Hw.
  apply ends_bind. unfold ends at 1, refreshIndexesLocked. rewrite Ht.
  rewrite (loadIndexesLocked_ok eng d m s idx) by (done || apply C). set (t' := mkTable (t_db t) s idx).
  apply ends_bind. unfold ends at 1, this_table. cbn [t_schema t_indexes t'].
  eapply (ends_gives _ _ _ (fun _ => validateIndex index s = Ok tt)); [apply validateIndex_total| |by split; [|apply kept_refl]].
  intros _ Hv.
  apply ends_guard; [by split; [|apply kept_refl]|]. intros Hno. apply bool_decide_eq_false in Hno.
  assert (Hnone : idx !! i_name index = None) by (destruct (idx !! i_name index); [destruct Hno; eauto|done]).
  apply ends_bind. unfold ends at 1, on_handle at 1. rewrite (getLocked_ok eng d m) by (done || (by intros _)).
  apply ends_guard; [by split; [|apply kept_refl]|]. intros _.
  apply ends_bind. unfold ends at 1, on_handle at 1.
  rewrite (tableRowsLocked_ok eng d m) by (done || apply schema_name_length, C).
  eapply ends_gives; [apply (backfill_ok s index (with_prefix P (entries m)) ∅)| |by split; [|apply kept_refl]].
  { intros e He. destruct (rows_suffix s idx index m e C Hv He) as (k & r & enc & w & _ & _ & _ & _ & _ & _ & _ & ->). eauto. }
  cbn beta. intros ms [-> Hu]. apply ends_bind. unfold ends at 1, on_handle.
  pose proof (applyBatchLocked_ok eng d m (map (put_of s index) (with_prefix P (entries m)) ++
    [mkMutation (indexMetadataKey (s_name s) (i_name index)) (encodeIndexMetadata index) false])) as B. unfold ends in B.
  rewrite length_app, length_map in B. specialize (B Hcan).
  destruct (applyBatchLocked eng _ d) as [[u|e| |] d']; try done. destruct B as (Hd' & _ & Hk).
  eexists. split; [exact Hd'|].
  destruct (create_consistent s idx index m _ C Hv Hnone (puts_functional s idx index m C Hv (fun H => proj2 (Hu H))) eq_refl) as [C' Hrows].
  split_and!; try done.
Qed.

(** ** Tables do not disturb each other *)

Lemma other_table_kept s2 idx2 m m' k old new :
  row_changed s idx k old new m m' -> s_name s2 <> s_name s -> consistent s2 idx2 m ->
  consistent s2 idx2 m' /\ forall x, m' !! (rowPrefix (s_name s2) ++ x) = m !! (rowPrefix (s_name s2) ++ x).
Proof.
  intros [_ _ _ _ Hframe] Hn C2.
  assert (Hsame : forall x, (forall a, x <> P ++ a) -> (forall name a, x <> indexEntryPrefix (s_name s) name ++ a) -> m' !! x = m !! x).
  { intros x H1 H2. destruct (decide (m' !! x = m !! x)) as [|Hx]; [done|].
    destruct (Hframe x Hx) as [->|(name & index & a & _ & ->)]; [by destruct (H1 k)|by destruct (H2 (i_name index) a)]. }
  assert (Hrow : forall x, m' !! (rowPrefix (s_name s2) ++ x) = m !! (rowPrefix (s_name s2) ++ x)).
  { intros x. apply Hsame; [|done]. intros a Heq. by apply rowPrefix_inj in Heq as [? _]. }
  assert (Hent : forall name x, m' !! (indexEntryPrefix (s_name s2) name ++ x) = m !! (indexEntryPrefix (s_name s2) name ++ x)).
  { intros name x. apply Hsame; [done|]. intros name' a Heq. by apply entryPrefix_inj in Heq as (? & _). }
  split; [|done]. apply (consistent_agree s2 idx2 m m'); try done. intros x. by apply Hsame.
Qed.
(** A change of one table's rows leaves every other table as it was: same
    rows, same index definitions, same index entries. *)
Theorem tables_isolated s2 idx2 m m' k old new :
  row_changed s idx k old new m m' -> s_name s2 <> s_name s -> consistent s2 idx2 m ->
  consistent s2 idx2 m' /\ forall x, m' !! (rowPrefix (s_name s2) ++ x) = m !! (rowPrefix (s_name s2) ++ x).
Proof. apply other_table_kept. Qed.
End Results.
