(* ===== verification/Sessions.v ===== *)
(** * Sessions: interleaved use of one database (src/db)

    The exported methods of package db run one at a time under the database's
    mutex. A session is a database with the transactions and table handles
    created on it so far; its steps are the method calls, in any order. The
    invariant is the writer discipline: the flag [writerActive] is set exactly
    when one read-write transaction is open, and then nobody else can change
    the contents. *)

From S2P Require Import Prelude KvList Errors Codec CodecSpec Page PageManager KV KVSpec KVResults Engine Database DatabaseSpec.
From S2P Require Import Table TableSpec RowSpec MutationSpec CatalogSpec.

(** ** Steps *)

Record session (S : Type) := mkSession { se_db : Database S; se_txs : list Tx; se_tables : list Table }.
Arguments mkSession {S}. Arguments se_db {S}. Arguments se_txs {S}. Arguments se_tables {S}.

Inductive call : Type :=
| CSet (key value : bytes) | CGet (key : bytes) | CDelete (key : bytes) | CRange (start end_ : bytes)
| CBegin (readOnly : bool) | CClose
| CTxGet (i : nat) (key : bytes) | CTxSet (i : nat) (key value : bytes) | CTxDelete (i : nat) (key : bytes)
| CTxRange (i : nat) (start end_ : bytes) | CCommit (i : nat) | CRollback (i : nat)
| CCreateTable (schema : TableSchema) | COpenTable (name : bytes)
| CInsert (j : nat) (r : row) | CUpdate (j : nat) (r : row) | CDeleteRow (j : nat) (primaryKey : any)
| CGetRow (j : nat) (primaryKey : any) | CScan (j : nat) | CRangeRows (j : nat) (start end_ : any)
| CFind (j : nat) (indexName : bytes) (value : any) | CCreateIndex (j : nat) (index : Index) | CIndexes (j : nat)
| CTxInsert (i j : nat) (r : row) | CTxUpdate (i j : nat) (r : row) | CTxDeleteRow (i j : nat) (primaryKey : any).

Section Sessions.
Context {S : Type} (eng : Store S) (order order' : gmap bytes Index -> list Index).
Abbreviation DM := (stM (Database S) dberr).
Abbreviation TM := (stM (Database S * Tx) dberr).
Abbreviation HM := (stM (Database S * Table) dberr).

(** A call on the database, on its transaction [i], on its table handle [j];
    results other than new handles are dropped. *)
Definition call_db {A : Type} (m : DM A) (keep : A -> session S -> session S) (se : session S) : session S :=
  let '(r, d) := m (se_db se) in
  let se := mkSession d (se_txs se) (se_tables se) in
  match r with Ok a => keep a se | _ => se end.
Definition call_tx {A : Type} (i : nat) (m : TM A) (se : session S) : session S :=
  match se_txs se !! i with
  | Some tx => let '(_, (d, tx')) := m (se_db se, tx) in mkSession d (<[i := tx']> (se_txs se)) (se_tables se)
  | None => se
  end.
Definition call_table {A : Type} (j : nat) (m : HM A) (se : session S) : session S :=
  match se_tables se !! j with
  | Some t => let '(_, (d, t')) := m (se_db se, t) in mkSession d (se_txs se) (<[j := t']> (se_tables se))
  | None => se
  end.
(** A transaction call on a table handle; a handle that was never created is
    nil. *)
Definition call_tx_table {A : Type} (i j : nat) (m : stM (Database S * Tx * option Table) dberr A) (se : session S) : session S :=
  match se_txs se !! i with
  | Some tx =>
      let '(_, (d, tx', t')) := m (se_db se, tx, se_tables se !! j) in
      mkSession d (<[i := tx']> (se_txs se))
        (match t' with Some t' => <[j := t']> (se_tables se) | None => se_tables se end)
  | None => se
  end.
Definition drop_result {A : Type} (_ : A) (se : session S) : session S := se.
Definition add_tx (tx : Tx) (se : session S) : session S := mkSession (se_db se) (se_txs se ++ [tx]) (se_tables se).
Definition add_table (t : Table) (se : session S) : session S := mkSession (se_db se) (se_txs se) (se_tables se ++ [t]).

Definition exec (c : call) : session S -> session S :=
  match c with
  | CSet k v => call_db (Db_Set eng k v) drop_result
  | CGet k => call_db (Db_Get eng k) drop_result
  | CDelete k => call_db (Db_Delete eng k) drop_result
  | CRange a b => call_db (Db_Range eng a b) drop_result
  | CBegin ro => call_db (Db_Begin ro) add_tx
  | CClose => call_db (Db_Close eng) drop_result
  | CTxGet i k => call_tx i (Tx_Get eng k)
  | CTxSet i k v => call_tx i (Tx_Set k v)
  | CTxDelete i k => call_tx i (Tx_Delete eng k)
  | CTxRange i a b => call_tx i (Tx_Range eng a b)
  | CCommit i => call_tx i (Tx_Commit eng)
  | CRollback i => call_tx i Tx_Rollback
  | CCreateTable s => call_db (CreateTable eng s) add_table
  | COpenTable n => call_db (OpenTable eng n) add_table
  | CInsert j r => call_table j (Table_Insert eng order r)
  | CUpdate j r => call_table j (Table_Update eng order order' r)
  | CDeleteRow j pk => call_table j (Table_Delete eng order pk)
  | CGetRow j pk => call_table j (fun st => on_handle (Table_Get eng st.2 pk) st)
  | CScan j => call_table j (fun st => on_handle (Table_Scan eng st.2) st)
  | CRangeRows j a b => call_table j (fun st => on_handle (Table_Range eng st.2 a b) st)
  | CFind j n v => call_table j (FindByIndex eng n v)
  | CCreateIndex j index => call_table j (CreateIndex eng index)
  | CIndexes j => call_table j (Table_Indexes eng order)
  | CTxInsert i j r => call_tx_table i j (Tx_Insert eng order r)
  | CTxUpdate i j r => call_tx_table i j (Tx_Update eng order order' r)
  | CTxDeleteRow i j pk => call_tx_table i j (Tx_DeleteRow eng order pk)
  end.

(** One call, and the sessions reached from a database just opened. *)
Inductive step : session S -> call -> session S -> Prop :=
| step_call se c : step se c (exec c se).
Inductive reachable : session S -> Prop :=
| reachable_new id : reachable (mkSession (Db_New id) [] [])
| reachable_open id s : reachable (mkSession (mkDb id None (Some s) false false) [] [])
| reachable_step se c se' : reachable se -> step se c se' -> reachable se'.

(** ** Relations kept by a call *)

Definition keeps {St E A : Type} (R : St -> St -> Prop) (m : stM St E A) : Prop := forall st, R st (m st).2.
Lemma keeps_bind {St E A B : Type} (R : St -> St -> Prop) `{!PreOrder R} (m : stM St E A) (k : A -> stM St E B) :
  keeps R m -> (forall a, keeps R (k a)) -> keeps R (bind m k).
Proof.
  intros Hm Hk st. unfold bind. specialize (Hm st). destruct (m st) as [[a|e| |] st']; cbn in *; try done.
  etrans; [exact Hm|apply Hk].
Qed.
Lemma keeps_same {St E A : Type} (R : St -> St -> Prop) `{!PreOrder R} (m : stM St E A) : (forall st, (m st).2 = st) -> keeps R m.
Proof. intros H st. by rewrite H. Qed.
Lemma keeps_lift {St E A : Type} (R : St -> St -> Prop) `{!PreOrder R} (o : outcome E A) : keeps R (lift o).
Proof. by apply keeps_same. Qed.
Lemma keeps_if {St E A : Type} (R : St -> St -> Prop) (c : bool) (m1 m2 : stM St E A) :
  keeps R m1 -> keeps R m2 -> keeps R (if c then m1 else m2).
Proof. by destruct c. Qed.
End Sessions.
