(* ===== verification/SessionResults.v ===== *)
(** * The writer discipline (src/db)

    At most one read-write transaction is open at any time, and while it is,
    only its own commit changes the contents of the database. *)

From S2P Require Import Prelude KvList Errors Codec CodecSpec Page PageManager KV KVSpec KVResults Engine Database DatabaseSpec.
From S2P Require Import Table TableSpec RowSpec MutationSpec CatalogSpec Sessions.

Section Results.
Context {S : Type} (eng : Store S) {Sp : StoreSpec eng} (order order' : gmap bytes Index -> list Index).
Implicit Types (d : Database S) (se : session S).

(** ** What each layer of calls keeps *)

(** The flag. *)
Definition same_writer d d' : Prop := d_writerActive d' = d_writerActive d.
(** A read: the flag, and an open database that holds something is the same
    afterwards. *)
Definition reads_only d d' : Prop := same_writer d d' /\ (forall m, holds eng d m -> d' = d).
(** Calls of a transaction before its end, and calls on a table handle. *)
Definition tx_keeps (st st' : Database S * Tx) : Prop :=
  reads_only st.1 st'.1 /\ tx_readOnly st'.2 = tx_readOnly st.2 /\ tx_closed st'.2 = tx_closed st.2.
Definition handle_reads (st st' : Database S * Table) : Prop := reads_only st.1 st'.1.
Definition handle_writer (st st' : Database S * Table) : Prop := same_writer st.1 st'.1.

#[local] Instance same_writer_pre : PreOrder same_writer.
Proof. split; [done|]. intros a b c H1 H2. unfold same_writer in *. congruence. Qed.
#[local] Instance reads_only_pre : PreOrder reads_only.
Proof.
  split; [done|]. intros a b c [W1 H1] [W2 H2]. split; [by etrans|]. intros m Hm. pose proof (H1 m Hm) as ->. by apply (H2 m).
Qed.
#[local] Instance tx_keeps_pre : PreOrder tx_keeps.
Proof.
  split; [by intros []|]. intros a b c (R1 & O1 & C1) (R2 & O2 & C2). split; [by etrans|]. split; congruence.
Qed.
#[local] Instance handle_reads_pre : PreOrder handle_reads.
Proof. split; [by intros []|]. intros a b c H1 H2. unfold handle_reads in *. by etrans. Qed.
#[local] Instance handle_writer_pre : PreOrder handle_writer.
Proof. split; [by intros []|]. intros a b c H1 H2. unfold handle_writer in *. by etrans. Qed.

Lemma on_store_writer {A : Type} s (m : stM S engine_error A) d : same_writer d (on_store s m d).2.
Proof. unfold on_store. by destruct (m s) as [r s']. Qed.
Lemma get_reads key : keeps reads_only (getLocked eng key).
Proof.
  intros d. split.
  - unfold getLocked. destruct (d_durable d); [apply on_store_writer|done].
  - intros m Hm. pose proof (getLocked_any eng d m key Hm) as H. unfold ends in H.
    by destruct (getLocked eng key d) as [[] ?]; try (destruct H as [_ ->]).
Qed.
Lemma range_reads lo hi : keeps reads_only (rangeLocked eng lo hi).
Proof.
  intros d. split.
  - unfold rangeLocked. destruct (d_durable d); [apply on_store_writer|done].
  - intros m Hm. pose proof (rangeLocked_any eng d m lo hi Hm) as H. unfold ends in H.
    by destruct (rangeLocked eng lo hi d) as [[] ?]; try (destruct H as [_ ->]).
Qed.
Lemma reads_writer {A : Type} (m : stM (Database S) dberr A) : keeps reads_only m -> keeps same_writer m.
Proof. intros H d. apply H. Qed.
Lemma load_reads s : keeps reads_only (loadIndexesLocked eng s).
Proof. apply keeps_bind; [apply _|apply range_reads|]. intros es. apply keeps_lift, _. Qed.
Lemma rows_reads n : keeps reads_only (tableRowsLocked eng n).
Proof. apply keeps_bind; [apply _|apply range_reads|]. intros es. by apply keeps_same; [apply _|]. Qed.
Lemma batch_writer ms : keeps same_writer (applyBatchLocked eng ms).
Proof.
  intros d. unfold applyBatchLocked. destruct (d_closed d); [done|]. destruct (d_durable d); [apply on_store_writer|].
  destruct (d_data d); [|done]. by destruct (existsb _ _).
Qed.
Lemma set_writer_kept k v : keeps same_writer (setLocked eng k v).
Proof.
  intros d. unfold setLocked, store_data. destruct (d_durable d); [apply on_store_writer|]. by destruct (d_data d).
Qed.

(** Reads through a transaction or a handle. *)
Lemma on_db_keeps {A : Type} (m : stM (Database S) dberr A) : keeps reads_only m -> keeps tx_keeps (on_db m).
Proof. intros H [d tx]. unfold on_db. specialize (H d). by destruct (m d) as [r d']. Qed.
Lemma on_handle_reads {A : Type} (m : stM (Database S) dberr A) : keeps reads_only m -> keeps handle_reads (on_handle m).
Proof. intros H [d t]. unfold on_handle. specialize (H d). by destruct (m d) as [r d']. Qed.
Lemma on_handle_writer {A : Type} (m : stM (Database S) dberr A) : keeps same_writer m -> keeps handle_writer (on_handle m).
Proof. intros H [d t]. unfold on_handle. specialize (H d). by destruct (m d) as [r d']. Qed.
Lemma handle_reads_writer {A : Type} (m : stM (Database S * Table) dberr A) : keeps handle_reads m -> keeps handle_writer m.
Proof. intros H st. apply (H st). Qed.

Lemma value_keeps key : keeps tx_keeps (valueLocked eng key).
Proof.
  intros [d tx]. unfold valueLocked. destruct (tx_changes tx !! key); [done|]. by apply (on_db_keeps (getLocked eng key) (get_reads key) (d, tx)).
Qed.
Lemma record_keeps key c : keeps tx_keeps (record (S := S) key c).
Proof. by intros [d tx]. Qed.
Lemma tx_open_keeps {A : Type} (m : stM (Database S * Tx) dberr A) : keeps tx_keeps m -> keeps tx_keeps (tx_open m).
Proof. intros H [d tx]. unfold tx_open. destruct (tx_closed tx); [done|]. destruct (d_closed d); [done|]. apply H. Qed.
Lemma tx_writable_keeps {A : Type} (m : stM (Database S * Tx) dberr A) : keeps tx_keeps m -> keeps tx_keeps (tx_writable m).
Proof. intros H. apply tx_open_keeps. intros [d tx]. destruct (tx_readOnly tx); [done|]. apply H. Qed.
Lemma ret_keeps {St A : Type} (R : St -> St -> Prop) `{!PreOrder R} (a : A) : keeps (E := dberr) R (ret a).
Proof. by apply keeps_same; [apply _|]. Qed.
Lemma throw_keeps {St A : Type} (R : St -> St -> Prop) `{!PreOrder R} (e : dberr) : keeps R (throw (A := A) e).
Proof. by apply keeps_same; [apply _|]. Qed.

Ltac keep_step :=
  first [ apply keeps_bind; [apply _| |intros ?] | apply keeps_lift; apply _ | apply ret_keeps; apply _
        | apply throw_keeps; apply _ | apply value_keeps | apply record_keeps | apply keeps_if
        | apply get_reads | apply range_reads | apply load_reads | apply rows_reads | apply set_writer_kept | apply batch_writer ].
Ltac keep := repeat (keep_step || case_match).

Lemma indexEntries_keeps t r k allow l : keeps tx_keeps (indexEntries eng t r k allow l).
Proof. induction l as [|i l IH]; cbn [indexEntries]; keep. apply IH. Qed.
Lemma recordAll_keeps es f : keeps tx_keeps (recordAll (S := S) es f).
Proof. induction es as [|e es IH]; cbn [recordAll]; keep. apply IH. Qed.
Lemma insertRow_keeps t r : keeps tx_keeps (insertRowLocked eng order t r).
Proof. unfold insertRowLocked, transactionIndexEntries. keep; apply indexEntries_keeps || apply recordAll_keeps. Qed.
Lemma updateRow_keeps t r : keeps tx_keeps (updateRowLocked eng order order' t r).
Proof. unfold updateRowLocked, transactionIndexEntries. keep; apply indexEntries_keeps || apply recordAll_keeps. Qed.
Lemma deleteRow_keeps t pk : keeps tx_keeps (deleteRowLocked eng order t pk).
Proof. unfold deleteRowLocked, transactionIndexEntries. keep; apply indexEntries_keeps || apply recordAll_keeps. Qed.

(** ** Table handles *)

Lemma refresh_reads : keeps handle_reads (refreshIndexesLocked eng).
Proof.
  intros [d t]. unfold refreshIndexesLocked. pose proof (load_reads (t_schema t) d) as H.
  by destruct (loadIndexesLocked eng (t_schema t) d) as [[] ?].
Qed.
Lemma commit_writer d tx : d_writerActive d = false -> d_writerActive (commitLocked eng (d, tx)).2.1 = false.
Proof.
  intros Hw. unfold commitLocked, tx_open. destruct (tx_closed tx); [done|]. destruct (d_closed d); [done|].
  destruct (tx_readOnly tx); [done|]. pose proof (batch_writer (mutations_of tx) d) as H.
  destruct (applyBatchLocked eng (mutations_of tx) d) as [[] d']; cbn in *; try done; by rewrite H.
Qed.
Lemma mutate_writer {A : Type} (change : Table -> stM (Database S * Tx) dberr A) :
  (forall t, keeps tx_keeps (change t)) -> keeps handle_writer (mutate eng change).
Proof.
  intros Hc [d t]. unfold mutate. destruct (d_closed d); [done|]. destruct (d_writerActive d) eqn:Hw; [done|].
  unfold bind at 1. pose proof (refresh_reads (d, t)) as [Hr _].
  destruct (refreshIndexesLocked eng (d, t)) as [[u|e| |] [d1 t1]]; try done. cbn in Hr.
  assert (Hw1 : d_writerActive d1 = false) by (by rewrite Hr).
  specialize (Hc t1 (d1, mkTx (d_id d1) false false [] ∅)). unfold handle_writer, same_writer. cbn [fst]. rewrite Hw. unfold bind.
  destruct (change t1 (d1, _)) as [[a|e| |] [d2 tx2]]; destruct Hc as ((W & _) & _); cbn [fst snd] in W |- *;
    unfold same_writer in W; rewrite Hw1 in W; try exact W.
  pose proof (commit_writer d2 tx2 W) as H.
  by destruct (commitLocked eng (d2, tx2)) as [[] [d3 tx3]].
Qed.
(** While a writer is open a standalone mutation is refused. *)
Lemma mutate_refused {A : Type} (change : Table -> stM (Database S * Tx) dberr A) d t :
  d_writerActive d = true -> (mutate eng change (d, t)).2 = (d, t).
Proof. intros Hw. unfold mutate. destruct (d_closed d); [done|]. by rewrite Hw. Qed.

Lemma findRows_reads s i e p l : keeps reads_only (findRows eng s i e p l).
Proof.
  induction l as [|[k v] l IH]; cbn [findRows]; [apply ret_keeps, _|]. destruct (negb _); [exact IH|]. keep. exact IH.
Qed.
Lemma find_reads n v : keeps handle_reads (FindByIndex eng n v).
Proof.
  intros [d t]. unfold FindByIndex. destruct (d_closed d); [done|]. revert d t.
  refine (fun d t => (_ : keeps handle_reads _) (d, t)). apply keeps_bind; [apply _|apply refresh_reads|]. intros _.
  apply keeps_bind; [apply _|by intros [d' t']|]. intros t'. destruct (t_indexes t' !! n); [|apply throw_keeps, _].
  apply keeps_bind; [apply _|apply keeps_lift, _|]. intros enc. apply keeps_bind; [apply _|apply on_handle_reads, range_reads|].
  intros es. apply on_handle_reads, findRows_reads.
Qed.
Lemma indexes_reads : keeps handle_reads (Table_Indexes eng order).
Proof.
  intros [d t]. unfold Table_Indexes. destruct (d_closed d); [done|]. pose proof (refresh_reads (d, t)) as H.
  by destruct (refreshIndexesLocked eng (d, t)) as [[] [d' t']].
Qed.
Lemma createIndex_writer i : keeps handle_writer (CreateIndex eng i).
Proof.
  intros [d t]. unfold CreateIndex. destruct (d_closed d); [done|]. destruct (d_writerActive d) eqn:Hw; [done|]. revert d t Hw.
  refine (fun d t _ => (_ : keeps handle_writer _) (d, t)). apply keeps_bind; [apply _|apply handle_reads_writer, refresh_reads|].
  intros _. apply keeps_bind; [apply _|by intros [d' t']|]. intros t'. apply keeps_bind; [apply _|apply keeps_lift, _|]. intros _.
  apply keeps_if; [apply throw_keeps, _|]. apply keeps_bind; [apply _|apply on_handle_writer, reads_writer, get_reads|]. intros found.
  apply keeps_if; [apply throw_keeps, _|]. apply keeps_bind; [apply _|apply on_handle_writer, reads_writer, rows_reads|]. intros rows.
  apply keeps_bind; [apply _|apply keeps_lift, _|]. intros ms. apply keeps_bind; [apply _|apply on_handle_writer, batch_writer|].
  intros _. by intros [d' t''].
Qed.
Lemma createIndex_refused i d t : d_writerActive d = true -> (CreateIndex eng i (d, t)).2 = (d, t).
Proof. intros Hw. unfold CreateIndex. destruct (d_closed d); [done|]. by rewrite Hw. Qed.

Lemma getRow_reads t pk : keeps reads_only (Table_Get eng t pk).
Proof.
  intros d. unfold Table_Get. destruct (d_closed d); [done|]. revert d. refine (fun d => (_ : keeps reads_only _) d). keep.
Qed.
Lemma scan_reads t : keeps reads_only (Table_Scan eng t).
Proof.
  intros d. unfold Table_Scan. destruct (d_closed d); [done|]. revert d. refine (fun d => (_ : keeps reads_only _) d). keep.
Qed.
Lemma rangeRows_reads t a b : keeps reads_only (Table_Range eng t a b).
Proof.
  intros d. unfold Table_Range. destruct (d_closed d); [done|]. revert d. refine (fun d => (_ : keeps reads_only _) d). keep.
Qed.
Lemma openTable_reads n : keeps reads_only (OpenTable eng n).
Proof.
  intros d. unfold OpenTable. destruct (d_closed d); [done|]. generalize (d_id d) as id. intros id. revert d.
  refine (fun d => (_ : keeps reads_only _) d). keep.
Qed.
Lemma createTable_writer s : keeps same_writer (CreateTable eng s).
Proof.
  intros d. unfold CreateTable. destruct (d_closed d); [done|]. destruct (d_writerActive d) eqn:Hw; [done|].
  generalize (d_id d) as id. intros id. revert d Hw. refine (fun d _ => (_ : keeps same_writer _) d).
  keep; apply reads_writer, get_reads.
Qed.
Lemma dbGet_reads k : keeps reads_only (Db_Get eng k).
Proof.
  intros d. unfold Db_Get. destruct (d_closed d); [done|]. destruct (beqb k []); [done|]. apply (get_reads k d).
Qed.

(** ** Transactions *)

Lemma txGet_keeps k : keeps tx_keeps (Tx_Get eng k).
Proof. apply tx_open_keeps. intros [d tx]. apply (value_keeps k (d, tx)). Qed.
Lemma txSet_keeps k v : keeps tx_keeps (Tx_Set (S := S) k v).
Proof. apply tx_writable_keeps. keep. Qed.
Lemma txDelete_keeps k : keeps tx_keeps (Tx_Delete eng k).
Proof. apply tx_writable_keeps. keep. Qed.
Lemma txRange_keeps a b : keeps tx_keeps (Tx_Range eng a b).
Proof.
  apply tx_open_keeps. intros [d tx]. destruct (bltb b a); [done|]. generalize (map_to_list (tx_changes tx)) as l. intros l.
  revert d tx. refine (fun d tx => (_ : keeps tx_keeps _) (d, tx)). apply keeps_bind; [apply _|apply on_db_keeps, range_reads|].
  intros es. apply ret_keeps, _.
Qed.

(** ** The discipline *)

Definition open_writer (tx : Tx) : bool := negb (tx_readOnly tx) && negb (tx_closed tx).
Definition writers (txs : list Tx) : nat := length (List.filter open_writer txs).
(** The flag counts the open read-write transactions. *)
Definition disciplined se : Prop := writers (se_txs se) = if d_writerActive (se_db se) then 1%nat else 0%nat.

Lemma writers_app txs tx : writers (txs ++ [tx]) = (writers txs + if open_writer tx then 1 else 0)%nat.
Proof. unfold writers. rewrite List.filter_app, length_app. cbn. by destruct (open_writer tx). Qed.
Lemma writers_insert txs : forall i tx tx', txs !! i = Some tx ->
  (writers (<[i := tx']> txs) + (if open_writer tx then 1 else 0) = writers txs + (if open_writer tx' then 1 else 0))%nat.
Proof.
  unfold writers. induction txs as [|x txs IH]; intros [|i] tx tx' H; cbn in H; [done|done| |].
  - injection H as ->. change (<[0%nat := tx']> (tx :: txs)) with (tx' :: txs). cbn [List.filter].
    destruct (open_writer tx), (open_writer tx'); cbn; lia.
  - change (<[Datatypes.S i := tx']> (x :: txs)) with (x :: <[i := tx']> txs). cbn [List.filter].
    specialize (IH i tx tx' H). destruct (open_writer x); cbn [length]; lia.
Qed.

Lemma call_db_disciplined {A : Type} (m : stM (Database S) dberr A) keep se :
  keeps same_writer m -> (forall a se', se_db (keep a se') = se_db se' /\ se_txs (keep a se') = se_txs se') ->
  disciplined se -> disciplined (call_db m keep se).
Proof.
  intros Hm Hk H. unfold call_db, disciplined in *. specialize (Hm (se_db se)). destruct (m (se_db se)) as [[a|e| |] d']; cbn in *;
    try by rewrite Hm. destruct (Hk a (mkSession d' (se_txs se) (se_tables se))) as [-> ->]. cbn. by rewrite Hm.
Qed.
Lemma call_table_disciplined {A : Type} j (m : stM (Database S * Table) dberr A) se :
  keeps handle_writer m -> disciplined se -> disciplined (call_table j m se).
Proof.
  intros Hm H. unfold call_table, disciplined in *. destruct (se_tables se !! j) as [t|]; [|done]. specialize (Hm (se_db se, t)).
  destruct (m (se_db se, t)) as [r [d' t']]. unfold handle_writer, same_writer in Hm. cbn in *. by rewrite Hm.
Qed.
Lemma call_tx_disciplined {A : Type} i (m : stM (Database S * Tx) dberr A) se :
  keeps tx_keeps m -> disciplined se -> disciplined (call_tx i m se).
Proof.
  intros Hm H. unfold call_tx, disciplined in *. destruct (se_txs se !! i) as [tx|] eqn:Ei; [|done].
  specialize (Hm (se_db se, tx)). destruct (m (se_db se, tx)) as [r [d' tx']]. destruct Hm as ([Hw _] & Ho & Hc). unfold same_writer in Hw.
  cbn in *. rewrite Hw.
  pose proof (writers_insert (se_txs se) i tx tx' Ei) as W. unfold open_writer in W. rewrite Ho, Hc in W. rewrite <- H. by apply Nat.add_cancel_r in W.
Qed.
Lemma mutateTable_keeps {A : Type} (change : Table -> stM (Database S * Tx) dberr A) d tx t :
  (forall t, keeps tx_keeps (change t)) ->
  tx_keeps (d, tx) (mutateTable eng change (d, tx, t)).2.1.
Proof.
  intros Hc. unfold mutateTable. destruct (tx_closed tx) eqn:E1; [done|]. destruct (d_closed d); [done|].
  destruct (tx_readOnly tx) eqn:E2; [done|]. destruct t as [t|]; [|done]. destruct (negb _); [done|].
  pose proof (load_reads (t_schema t) d) as H. destruct (loadIndexesLocked eng (t_schema t) d) as [[idx|e| |] d']; try done.
  specialize (Hc (mkTable (t_db t) (t_schema t) idx) (d', tx)). destruct (change _ (d', tx)) as [r [d2 tx2]].
  etrans; [|exact Hc]. done.
Qed.
Lemma call_tx_table_disciplined {A : Type} i j (change : Table -> stM (Database S * Tx) dberr A) se :
  (forall t, keeps tx_keeps (change t)) -> disciplined se -> disciplined (call_tx_table i j (mutateTable eng change) se).
Proof.
  intros Hc H. unfold call_tx_table, disciplined in *. destruct (se_txs se !! i) as [tx|] eqn:Ei; [|done].
  pose proof (mutateTable_keeps change (se_db se) tx (se_tables se !! j) Hc) as Hm.
  destruct (mutateTable eng change (se_db se, tx, se_tables se !! j)) as [r [[d' tx'] t']].
  destruct Hm as ([Hw _] & Ho & Hcl). unfold same_writer in Hw. cbn in *. rewrite Hw.
  pose proof (writers_insert (se_txs se) i tx tx' Ei) as W. unfold open_writer in W. rewrite Ho, Hcl in W. rewrite <- H. by apply Nat.add_cancel_r in W.
Qed.

Lemma begin_disciplined ro se : disciplined se -> disciplined (call_db (Db_Begin ro) add_tx se).
Proof.
  intros H. unfold call_db, Db_Begin. destruct (d_closed (se_db se)); [exact H|].
  destruct (negb ro && d_writerActive (se_db se)) eqn:E; [exact H|]. unfold disciplined in *. cbn [add_tx se_txs se_db].
  rewrite writers_app, H. destruct ro; cbn in *; [by rewrite Nat.add_0_r|]. by rewrite E.
Qed.
(** Ending a transaction frees the slot it held, and only that one. *)
Lemma end_disciplined se i tx d' tx' :
  disciplined se -> se_txs se !! i = Some tx ->
  (d_writerActive d' = d_writerActive (se_db se) /\ open_writer tx' = open_writer tx) \/
  (open_writer tx' = false /\ d_writerActive d' = if open_writer tx then false else d_writerActive (se_db se)) ->
  disciplined (mkSession d' (<[i := tx']> (se_txs se)) (se_tables se)).
Proof.
  intros H Hi Hend. unfold disciplined in *. cbn [se_txs se_db]. pose proof (writers_insert (se_txs se) i tx tx' Hi) as W.
  destruct Hend as [[-> Ho]|[Ho ->]]; rewrite Ho in W; [rewrite <- H; by apply Nat.add_cancel_r in W|]. destruct (open_writer tx) eqn:Eo.
  - destruct (d_writerActive (se_db se)); lia.
  - rewrite <- H. lia.
Qed.
Lemma commit_disciplined i se : disciplined se -> disciplined (call_tx i (Tx_Commit eng) se).
Proof.
  intros H. unfold call_tx. destruct (se_txs se !! i) as [tx|] eqn:Ei; [|done].
  unfold Tx_Commit, commitLocked, tx_open. destruct (tx_closed tx) eqn:E1; [by apply (end_disciplined se i tx); [..|left]|].
  destruct (d_closed (se_db se)); [by apply (end_disciplined se i tx); [..|left]|].
  destruct (tx_readOnly tx) eqn:E2.
  { apply (end_disciplined se i tx); [done..|right]. unfold open_writer. cbn. by rewrite E2. }
  pose proof (batch_writer (mutations_of tx) (se_db se)) as W.
  destruct (applyBatchLocked eng (mutations_of tx) (se_db se)) as [[u|e| |] d']; cbn in W;
    try (apply (end_disciplined se i tx); [done..|left]; done).
  apply (end_disciplined se i tx); [done..|right]. unfold open_writer. cbn. by rewrite E2, E1.
Qed.
Lemma rollback_disciplined i se : disciplined se -> disciplined (call_tx i Tx_Rollback se).
Proof.
  intros H. unfold call_tx. destruct (se_txs se !! i) as [tx|] eqn:Ei; [|done]. unfold Tx_Rollback.
  destruct (tx_closed tx) eqn:E1; [by apply (end_disciplined se i tx); [..|left]|].
  apply (end_disciplined se i tx); [done..|right]. unfold open_writer. cbn. rewrite E1.
  destruct (tx_readOnly tx); done.
Qed.

Lemma exec_disciplined c se : disciplined se -> disciplined (exec eng order order' c se).
Proof.
  intros H.
  assert (Hd : forall A : Type, forall m : stM (Database S) dberr A, keeps same_writer m -> disciplined (call_db m drop_result se))
    by (intros; by apply call_db_disciplined).
  destruct c; cbn [exec]; try (by apply commit_disciplined || by apply rollback_disciplined || by apply begin_disciplined).
  - apply Hd. intros d. unfold Db_Set, store_data. repeat (case_match; try done); apply on_store_writer.
  - by apply Hd, reads_writer, dbGet_reads.
  - apply Hd. intros d. unfold Db_Delete, delete_data. repeat (case_match; try done); apply on_store_writer.
  - apply Hd. intros d. unfold Db_Range. repeat (case_match; try done); apply on_store_writer.
  - apply Hd. intros d. unfold Db_Close. destruct (d_closed d); [done|]. cbn. destruct (d_durable d); [|done].
    by destruct (st_Close eng _).
  - by apply call_tx_disciplined; [apply txGet_keeps|].
  - by apply call_tx_disciplined; [apply txSet_keeps|].
  - by apply call_tx_disciplined; [apply txDelete_keeps|].
  - by apply call_tx_disciplined; [apply txRange_keeps|].
  - by apply call_db_disciplined; [apply createTable_writer|..].
  - by apply call_db_disciplined; [apply reads_writer, openTable_reads|..].
  - by apply call_table_disciplined; [apply mutate_writer; intros; apply insertRow_keeps|].
  - by apply call_table_disciplined; [apply mutate_writer; intros; apply updateRow_keeps|].
  - by apply call_table_disciplined; [apply mutate_writer; intros; apply deleteRow_keeps|].
  - apply call_table_disciplined; [|done]. intros [d t]. apply (on_handle_reads _ (getRow_reads t primaryKey) (d, t)).
  - apply call_table_disciplined; [|done]. intros [d t]. apply (on_handle_reads _ (scan_reads t) (d, t)).
  - apply call_table_disciplined; [|done]. intros [d t]. apply (on_handle_reads _ (rangeRows_reads t start end_) (d, t)).
  - by apply call_table_disciplined; [apply handle_reads_writer, find_reads|].
  - by apply call_table_disciplined; [apply createIndex_writer|].
  - by apply call_table_disciplined; [apply handle_reads_writer, indexes_reads|].
  - by apply call_tx_table_disciplined; [intros; apply insertRow_keeps|].
  - by apply call_tx_table_disciplined; [intros; apply updateRow_keeps|].
  - by apply call_tx_table_disciplined; [intros; apply deleteRow_keeps|].
Qed.

(** C15: in every session reachable by any interleaving of the exported methods,
    at most one read-write transaction is open, and [writerActive] is set
    exactly when one is. *)
Theorem single_writer se :
  reachable eng order order' se ->
  writers (se_txs se) = (if d_writerActive (se_db se) then 1 else 0)%nat.
Proof.
  intros H. change (disciplined se). induction H as [id|id s|se c se' _ IH Hstep]; [done|done|].
  inversion Hstep; subst. by apply exec_disciplined.
Qed.

(** ** Isolation *)

Lemma set_writer_holds b d m : holds eng d m -> holds eng (set_writer b d) m.
Proof. done. Qed.
Lemma call_db_reads {A : Type} (op : stM (Database S) dberr A) keep se m :
  (forall d, (op d).2 = d \/ reads_only d (op d).2) -> (forall a se', se_db (keep a se') = se_db se') ->
  holds eng (se_db se) m -> holds eng (se_db (call_db op keep se)) m.
Proof.
  intros Ho Hk H. unfold call_db. specialize (Ho (se_db se)). destruct (op (se_db se)) as [[a|e| |] d'];
    (assert (d' = se_db se) as -> by (destruct Ho as [Ho|[_ Ho]]; [done|by apply (Ho m)])); cbn; try done. by rewrite Hk.
Qed.
Lemma call_table_reads {A : Type} j (op : stM (Database S * Table) dberr A) se m :
  (forall t, (op (se_db se, t)).2.1 = se_db se \/ handle_reads (se_db se, t) (op (se_db se, t)).2) ->
  holds eng (se_db se) m -> holds eng (se_db (call_table j op se)) m.
Proof.
  intros Ho H. unfold call_table. destruct (se_tables se !! j) as [t|]; [|done]. specialize (Ho t).
  destruct (op (se_db se, t)) as [r [d' t']]. cbn in *. destruct Ho as [->|[_ Ho]]; [done|]. cbn in Ho. by rewrite (Ho m).
Qed.
Lemma call_tx_reads {A : Type} i (op : stM (Database S * Tx) dberr A) se m :
  keeps tx_keeps op -> holds eng (se_db se) m -> holds eng (se_db (call_tx i op se)) m.
Proof.
  intros Ho H. unfold call_tx. destruct (se_txs se !! i) as [tx|]; [|done]. specialize (Ho (se_db se, tx)).
  destruct (op (se_db se, tx)) as [r [d' tx']]. destruct Ho as ([_ Ho] & _). cbn in *. by rewrite (Ho m).
Qed.
Lemma call_tx_table_reads {A : Type} i j (change : Table -> stM (Database S * Tx) dberr A) se m :
  (forall t, keeps tx_keeps (change t)) -> holds eng (se_db se) m ->
  holds eng (se_db (call_tx_table i j (mutateTable eng change) se)) m.
Proof.
  intros Hc H. unfold call_tx_table. destruct (se_txs se !! i) as [tx|]; [|done].
  pose proof (mutateTable_keeps change (se_db se) tx (se_tables se !! j) Hc) as ([_ Ho] & _).
  destruct (mutateTable eng change (se_db se, tx, se_tables se !! j)) as [r [[d' tx'] t']]. cbn in *. by rewrite (Ho m).
Qed.

(** Committing a finished or a read-only transaction. *)
Lemma dead_commit d tx : tx_closed tx || tx_readOnly tx = true -> (Tx_Commit eng (d, tx)).2.1 = d.
Proof.
  unfold Tx_Commit, commitLocked, tx_open. destruct (tx_closed tx); [done|]. cbn. intros ->. by destruct (d_closed d).
Qed.

(** C28: while a read-write transaction is open, no call other than its own
    commit (and closing the database) changes the contents: every direct write,
    table mutation, table or index creation is refused, reads leave the database
    as it is, and buffered changes stay in their transaction. *)
Theorem writer_isolated c se m :
  d_writerActive (se_db se) = true -> holds eng (se_db se) m -> c <> CClose ->
  (forall i tx, c = CCommit i -> se_txs se !! i = Some tx -> tx_closed tx || tx_readOnly tx = true) ->
  holds eng (se_db (exec eng order order' c se)) m.
Proof.
  intros Hw H Hc Hcommit. destruct c; cbn [exec]; try done.
  - unfold call_db, Db_Set. rewrite (proj1 H), Hw. done.
  - apply call_db_reads; [|done|done]. intros d. right. apply dbGet_reads.
  - unfold call_db, Db_Delete. rewrite (proj1 H), Hw. done.
  - apply call_db_reads; [|done|done]. intros d. unfold Db_Range. destruct (d_closed d); [by left|].
    destruct (d_durable d) eqn:E; [right|by left]. pose proof (range_reads start end_ d) as R. unfold rangeLocked in R. by rewrite E in R.
  - unfold call_db, Db_Begin. rewrite (proj1 H), Hw. by destruct readOnly.
  - by apply call_tx_reads; [apply txGet_keeps|].
  - by apply call_tx_reads; [apply txSet_keeps|].
  - by apply call_tx_reads; [apply txDelete_keeps|].
  - by apply call_tx_reads; [apply txRange_keeps|].
  - unfold call_tx. destruct (se_txs se !! i) as [tx|] eqn:Ei; [|done].
    pose proof (dead_commit (se_db se) tx (Hcommit i tx eq_refl Ei)) as D.
    destruct (Tx_Commit eng (se_db se, tx)) as [r [d' tx']]. cbn in *. by rewrite D.
  - unfold call_tx, Tx_Rollback. destruct (se_txs se !! i) as [tx|]; [|done]. destruct (tx_closed tx); [done|]. cbn.
    destruct (tx_readOnly tx); [done|by apply set_writer_holds].
  - unfold call_db, CreateTable. rewrite (proj1 H), Hw. done.
  - apply call_db_reads; [|done|done]. intros d. right. apply openTable_reads.
  - apply call_table_reads; [|done]. intros t. left. unfold Table_Insert. by rewrite mutate_refused.
  - apply call_table_reads; [|done]. intros t. left. unfold Table_Update. by rewrite mutate_refused.
  - apply call_table_reads; [|done]. intros t. left. unfold Table_Delete. by rewrite mutate_refused.
  - apply call_table_reads; [|done]. intros t. right. apply (on_handle_reads _ (getRow_reads t primaryKey) (se_db se, t)).
  - apply call_table_reads; [|done]. intros t. right. apply (on_handle_reads _ (scan_reads t) (se_db se, t)).
  - apply call_table_reads; [|done]. intros t. right. apply (on_handle_reads _ (rangeRows_reads t start end_) (se_db se, t)).
  - apply call_table_reads; [|done]. intros t. right. apply find_reads.
  - apply call_table_reads; [|done]. intros t. left. by rewrite createIndex_refused.
  - apply call_table_reads; [|done]. intros t. right. apply indexes_reads.
  - by apply call_tx_table_reads; [intros; apply insertRow_keeps|].
  - by apply call_tx_table_reads; [intros; apply updateRow_keeps|].
  - by apply call_tx_table_reads; [intros; apply deleteRow_keeps|].
Qed.

(** ** A closed database *)

(** After [Close] every method that can report an error answers [ErrClosed]
    and changes nothing, on the database, on an open transaction and on table
    handles; [Rollback] and a second [Close] still succeed. *)
Theorem closed_database d tx t key value lo hi s r pk name index ro :
  d_closed d = true -> tx_closed tx = false ->
  (Db_Set eng key value d = (Err DErrClosed, d) /\ Db_Get eng key d = (Err DErrClosed, d) /\
   Db_Delete eng key d = (Err DErrClosed, d) /\ Db_Range eng lo hi d = (Err DErrClosed, d) /\
   Db_Begin ro d = (Err DErrClosed, d) /\ CreateTable eng s d = (Err DErrClosed, d) /\
   OpenTable eng name d = (Err DErrClosed, d) /\ Db_Close eng d = (Ok tt, d)) /\
  (Tx_Get eng key (d, tx) = (Err DErrClosed, (d, tx)) /\ Tx_Set key value (d, tx) = (Err DErrClosed, (d, tx)) /\
   Tx_Delete eng key (d, tx) = (Err DErrClosed, (d, tx)) /\ Tx_Range eng lo hi (d, tx) = (Err DErrClosed, (d, tx)) /\
   Tx_Commit eng (d, tx) = (Err DErrClosed, (d, tx)) /\ (Tx_Rollback (d, tx)).1 = Ok tt /\
   Tx_Insert eng order r (d, tx, Some t) = (Err DErrClosed, (d, tx, Some t))) /\
  (Table_Insert eng order r (d, t) = (Err DErrClosed, (d, t)) /\ Table_Update eng order order' r (d, t) = (Err DErrClosed, (d, t)) /\
   Table_Delete eng order pk (d, t) = (Err DErrClosed, (d, t)) /\ Table_Get eng t pk d = (Err DErrClosed, d) /\
   Table_Scan eng t d = (Err DErrClosed, d) /\ FindByIndex eng name pk (d, t) = (Err DErrClosed, (d, t)) /\
   CreateIndex eng index (d, t) = (Err DErrClosed, (d, t))).
Proof.
  intros Hd Ht.
  unfold Db_Set, Db_Get, Db_Delete, Db_Range, Db_Begin, CreateTable, OpenTable, Db_Close, Tx_Get, Tx_Set, Tx_Delete, Tx_Range,
    Tx_Commit, buffer, commitLocked, tx_writable, tx_open, Tx_Rollback, Tx_Insert, mutateTable, Table_Insert, Table_Update,
    Table_Delete, mutate, Table_Get, Table_Scan, FindByIndex, CreateIndex.
  rewrite Hd, Ht. done.
Qed.
End Results.
