(* ===== verification/DbWitnesses.v ===== *)
(** * Witnesses for the results on package db

    A durable database over a freshly created store, an in-memory database with
    a table, one row and one index, and the theorems applied to them. *)

From S2P Require Import Prelude KvList Errors Codec CodecSpec Page PageManager PageManagerSpec KV KVSpec KVResults.
From S2P Require Import Engine Database DatabaseSpec DatabaseResults Table TableSpec RowSpec MutationSpec CatalogSpec.
From S2P Require Import QuerySpec CreateIndexSpec TableResults QueryResults Sessions SessionResults.

(** ** A durable database *)

Definition eng : Store KV := Durable (btreeStore 50).
Definition dur0 : Database KV := mkDb 0 None (Some db0) false false.
Lemma entries_empty : entries ∅ = [].
Proof. by vm_compute. Qed.
Lemma dur0_can n : (n <= 5)%nat -> can eng dur0 ∅ n.
Proof.
  intros Hn. split; [done|]. cbn [d_durable dur0]. rewrite entries_empty. exists 0%nat. split.
  - split; [exact db0_rep|done|lia|cbn; lia].
  - done.
  - lia.
  - cbn. lia.
  - apply db0_room. unfold batch_room. nia.
Qed.
Lemma dur0_holds : holds eng dur0 ∅.
Proof. apply (can_holds eng dur0 ∅ 0), dur0_can. lia. Qed.

(** A writer that has set one key. *)
Definition tx1 : Tx := mkTx 0 false false [k1] {[k1 := mkChange v1 false]}.
Lemma tx1_wf : tx_wf tx1.
Proof.
  split; [apply NoDup_singleton|]. intros k. unfold tx1. cbn [tx_order tx_changes]. rewrite list_elem_of_singleton. split.
  - intros ->. rewrite lookup_singleton_eq. eauto.
  - intros [c H]. by apply lookup_singleton_Some in H as [-> _].
Qed.

Lemma Db_reads_witness : Db_Get eng k1 dur0 = (Ok None, dur0).
Proof. refine (proj1 (Db_reads eng dur0 ∅ k1 [] [] _ _ _)); [exact dur0_holds|by intros _|by intros _]. Defined.
Lemma Db_writes_witness :
  ends (Db_Set eng k1 v1) dur0 (fun _ d' => holds eng d' (<[k1 := v1]> ∅) /\ kept dur0 d') (fun _ d' => holds eng d' ∅ /\ kept dur0 d').
Proof. refine (proj1 (Db_writes eng dur0 ∅ k1 v1 _ eq_refl _)); [apply dur0_can; lia|discriminate]. Defined.
Lemma Tx_reads_witness : Tx_Get eng k1 (dur0, tx1) = (Ok (Some v1), (dur0, tx1)).
Proof.
  destruct (Tx_reads eng dur0 ∅ tx1 k1 [] []) as [H _]; [exact dur0_holds|done|by intros _|by intros _|by intros _|].
  rewrite view_lookup in H. cbn in H. exact H.
Defined.
Lemma Tx_buffers_witness :
  ends (Tx_Set v1 k1) (dur0, tx1) (fun _ '(d', tx') => d' = dur0 /\ tx_wf tx' /\ tx_closed tx' = false /\
    view (tx_changes tx') ∅ = <[v1 := k1]> (view (tx_changes tx1) ∅)) no_err.
Proof. refine (proj1 (Tx_buffers eng dur0 ∅ tx1 v1 k1 dur0_holds eq_refl eq_refl tx1_wf _)). discriminate. Defined.
Lemma Tx_Commit_atomic_witness :
  ends (Tx_Commit eng) (dur0, tx1)
    (fun _ '(d', tx') => holds eng d' (view (tx_changes tx1) ∅) /\ tx_closed tx' = true /\ d_writerActive d' = false)
    (fun _ '(d', tx') => holds eng d' ∅ /\ tx' = tx1 /\ d_writerActive d' = d_writerActive dur0).
Proof. refine (Tx_Commit_atomic eng dur0 ∅ tx1 _ eq_refl eq_refl tx1_wf). apply dur0_can. cbn. lia. Defined.

(** ** A table with a row and an index *)

Definition i_demo : Index := mkIndex [Byte.x69] (c_name c_val) true.
Definition idx_demo : gmap bytes Index := {[i_name i_demo := i_demo]}.
Definition listing (idx : gmap bytes Index) : list Index := (map_to_list idx).*2.
Lemma listing_ok idx : listing_of idx (listing idx).
Proof. unfold listing_of, listing. reflexivity. Qed.

(** The descriptor, then the row, then the index. *)
Definition m_table : gmap bytes bytes := <[descriptorKey (s_name t_demo) := encodeDescriptor t_demo]> ∅.
Definition m_row : gmap bytes bytes := <[rowPrefix (s_name t_demo) ++ k_demo := v_demo]> m_table.
Definition m_index : gmap bytes bytes :=
  fold_left applyMutation (map (put_of t_demo i_demo) (with_prefix (rowPrefix (s_name t_demo)) (entries m_row)) ++
    [mkMutation (indexMetadataKey (s_name t_demo) (i_name i_demo)) (encodeIndexMetadata i_demo) false]) m_row.

Lemma m_table_consistent : consistent t_demo ∅ m_table.
Proof. apply unused_consistent; [exact t_demo_ok|]. split_and!; intros; apply lookup_empty. Qed.
Lemma m_row_changed : row_changed t_demo ∅ k_demo None (Some v_demo) m_table m_row.
Proof.
  apply (row_change t_demo ∅ k_demo None (Some v_demo) [] []).
  - exact m_table_consistent.
  - done.
  - intros val Hval. apply (inj Some) in Hval. subst val. exists r_demo. split; [exact r_demo_ok|exact demo_encoded].
  - exact (keys_of_none t_demo ∅ k_demo).
  - split; [intros name index t Hi; rewrite lookup_empty in Hi; discriminate Hi|].
    intros x Hx. apply not_elem_of_nil in Hx. destruct Hx.
  - intros name index t v val Hi. rewrite lookup_empty in Hi. discriminate Hi.
  - intros x. rewrite !(decide_False (P := x ∈ [])) by apply not_elem_of_nil. unfold m_row.
    destruct (decide (x = rowPrefix (s_name t_demo) ++ k_demo)) as [->|Hne]; [apply lookup_insert_eq|].
    apply lookup_insert_ne. intros Heq. apply Hne. symmetry. exact Heq.
Qed.
Lemma i_demo_valid : validateIndex i_demo t_demo = Ok tt.
Proof. reflexivity. Qed.
Lemma m_index_consistent : consistent t_demo idx_demo m_index.
Proof.
  pose proof (rg_consistent _ _ _ _ _ _ _ m_row_changed) as C.
  destruct (create_consistent t_demo ∅ i_demo m_row m_index C i_demo_valid (lookup_empty _)) as [C' _]; [|done|exact C'].
  apply (puts_functional t_demo ∅ i_demo m_row C i_demo_valid). intros _ a b t Ha Hb _ _.
  destruct a as [ka va], b as [kb vb]. apply elem_with_prefix in Ha as [(ta & ->) Ha], Hb as [(tb & ->) Hb].
  unfold primary_of. cbn [fst]. rewrite !drop_app_length. unfold m_row, m_table in Ha, Hb.
  apply lookup_insert_Some in Ha as [[Ea _]|[_ Ha]]; [|by rewrite lookup_insert_ne, lookup_empty in Ha].
  apply lookup_insert_Some in Hb as [[Eb _]|[_ Hb]]; [|by rewrite lookup_insert_ne, lookup_empty in Hb].
  apply rowPrefix_inj in Ea as [_ <-], Eb as [_ <-]. done.
Qed.

(** An in-memory database that holds it, a handle, and one more row. *)
Definition mem (m : gmap bytes bytes) : Database KV := mkDb 0 (Some m) None false false.
Lemma mem_can m n : can eng (mem m) m n.
Proof. done. Qed.
Definition handle : Table := mkTable 0 t_demo ∅.
Definition r_two : row := <[c_name c_id := AInt64 8]> ∅.
Lemma r_two_ok : row_ok r_two.
Proof. intros name v H. unfold r_two in H. apply lookup_insert_Some in H as [[_ <-]|[_ H]]; [by vm_compute|]. by rewrite lookup_empty in H. Qed.

Lemma Table_Insert_witness :
  commits eng t_demo idx_demo (mem m_index) m_index
    (fun _ m' => exists k val, encodeRow t_demo r_two = Ok (rowPrefix (s_name t_demo) ++ k, val) /\
       row_changed t_demo idx_demo k None (Some val) m_index m') (Table_Insert eng listing r_two (mem m_index, handle)).
Proof.
  apply (Table_Insert_correct eng t_demo idx_demo listing (mem m_index) m_index handle r_two);
    [apply listing_ok|apply mem_can|reflexivity|exact m_index_consistent|reflexivity|exact r_two_ok].
Defined.
Lemma Table_Update_witness :
  commits eng t_demo idx_demo (mem m_index) m_index
    (fun _ m' => exists k old val, encodeRow t_demo r_demo = Ok (rowPrefix (s_name t_demo) ++ k, val) /\
       row_changed t_demo idx_demo k (Some old) (Some val) m_index m') (Table_Update eng listing listing r_demo (mem m_index, handle)).
Proof.
  apply (Table_Update_correct eng t_demo idx_demo listing listing (mem m_index) m_index handle r_demo);
    [apply listing_ok|apply listing_ok|apply mem_can|reflexivity|exact m_index_consistent|reflexivity|exact r_demo_ok].
Defined.
Lemma Table_Delete_witness :
  commits eng t_demo idx_demo (mem m_index) m_index
    (fun found m' => exists k, encodeValue (findPrimary t_demo) (AInt64 7) = Ok k /\
       if (found : bool) then exists old, row_changed t_demo idx_demo k (Some old) None m_index m'
       else m_index !! (rowPrefix (s_name t_demo) ++ k) = None /\ m' = m_index) (Table_Delete eng listing (AInt64 7) (mem m_index, handle)).
Proof.
  apply (Table_Delete_correct eng t_demo idx_demo listing (mem m_index) m_index handle (AInt64 7));
    [apply listing_ok|apply mem_can|reflexivity|exact m_index_consistent|reflexivity].
Defined.
Lemma Tx_rows_witness :
  ends (Tx_Insert eng listing r_two) (mem m_index, mkTx 0 false false [] ∅, Some handle)
    (fun _ '(d', tx', _) => d' = mem m_index) (fun _ '(d', tx', _) => d' = mem m_index).
Proof.
  assert (C : consistent t_demo idx_demo (view (tx_changes (mkTx 0 false false [] ∅)) m_index))
    by (cbn; rewrite view_empty; exact m_index_consistent).
  destruct (Tx_rows_consistent eng t_demo idx_demo listing listing (mem m_index) m_index (mkTx 0 false false [] ∅) handle r_two (AInt64 7)
    (listing_ok _) (listing_ok _) (mem_can m_index 0) (cs_defs _ _ _ m_index_consistent) C eq_refl eq_refl eq_refl eq_refl r_two_ok) as [H _].
  eapply ends_mono; [exact H| |].
  - intros _ [[d' tx'] t'] (k & val & _ & -> & _). reflexivity.
  - intros e [[d' tx'] t'] [-> _]. reflexivity.
Defined.
Lemma Table_Get_witness : exists x, Table_Get eng handle (AInt64 9) (mem m_index) = (Ok x, mem m_index).
Proof.
  assert (Hv : any_ok (AInt64 9)) by (by vm_compute).
  assert (Hk : rowKey t_demo (AInt64 9) = Ok (rowPrefix (s_name t_demo) ++ encodeInt 9)) by (vm_compute; reflexivity).
  pose proof (Table_Get_correct eng t_demo idx_demo (mem m_index) m_index handle (AInt64 9) (encodeInt 9)
    (mem_can m_index 0) m_index_consistent eq_refl Hv Hk) as H.
  destruct (m_index !! (rowPrefix (s_name t_demo) ++ encodeInt 9)) as [val|].
  - destruct H as (r & _ & _ & H). exists (Some (complete t_demo r)). exact H.
  - exists None. exact H.
Defined.
Lemma Table_Scan_witness : exists rows, Table_Scan eng handle (mem m_index) = (Ok rows, mem m_index) /\
  StronglySorted pk_lt (map (fun r => row_get r (c_name (findPrimary t_demo))) rows).
Proof.
  destruct (Table_Scan_correct eng t_demo idx_demo (mem m_index) m_index handle (mem_can m_index 0) m_index_consistent eq_refl)
    as (rows & H1 & _ & H2). exists rows. split; [exact H1|exact H2].
Defined.
Lemma Table_Scan_typed_witness : exists rows, Table_Scan eng handle (mem m_index) = (Ok rows, mem m_index) /\
  Forall (fun r => forall c, c ∈ s_columns t_demo -> exists v, r !! c_name c = Some v /\ has_type c v) rows.
Proof.
  exact (Table_Scan_typed eng t_demo idx_demo (mem m_index) m_index handle (mem_can m_index 0) m_index_consistent eq_refl).
Defined.
Lemma FindByIndex_witness : exists rows, Table_Scan eng handle (mem m_index) = (Ok rows, mem m_index) /\
  FindByIndex eng (i_name i_demo) (AString [Byte.x61]) (mem m_index, handle) =
    (Ok (List.filter (fun r => bool_decide (row_get r (i_column i_demo) = AString [Byte.x61])) rows), (mem m_index, mkTable 0 t_demo idx_demo)).
Proof.
  apply (FindByIndex_scan eng t_demo idx_demo (mem m_index) m_index handle (i_name i_demo) i_demo (AString [Byte.x61])
    (Byte.x02 :: escape [Byte.x61])); [exact (mem_can m_index 0)|exact m_index_consistent|reflexivity|reflexivity|exact I|reflexivity| |];
    intros [x Hx]; discriminate Hx.
Defined.
Lemma CreateTable_witness :
  ends (CreateTable eng t_demo) dur0 (fun t _ => t = mkTable 0 t_demo ∅) (fun _ d' => holds eng d' ∅).
Proof.
  eapply ends_mono; [apply (CreateTable_OpenTable eng t_demo dur0 ∅); [apply dur0_can; lia|reflexivity|split_and!; intros; apply lookup_empty]| |].
  - intros t d' (_ & H & _). exact H.
  - intros e d' [H _]. exact H.
Defined.
Lemma CreateIndex_witness :
  ends (CreateIndex eng i_demo) (mem m_row, handle)
    (fun _ '(d', t') => exists m', holds eng d' m' /\ consistent t_demo (<[i_name i_demo := i_demo]> ∅) m')
    (fun _ '(d', t') => holds eng d' m_row).
Proof.
  eapply ends_mono; [apply (CreateIndex_consistent eng t_demo ∅ (mem m_row) m_row handle i_demo);
    [apply mem_can|reflexivity|exact (rg_consistent _ _ _ _ _ _ _ m_row_changed)|reflexivity]| |].
  - intros _ [d' t'] (m' & H1 & H2 & _). exists m'. split; [exact H1|exact H2].
  - intros e [d' t'] [H _]. exact H.
Defined.
Definition t_other : TableSchema := mkSchema [Byte.x75] [c_id; c_val].
Lemma t_other_consistent : consistent t_other ∅ m_table.
Proof.
  assert (H : forall x, x <> descriptorKey (s_name t_demo) -> m_table !! x = None).
  { intros x Hx. unfold m_table. rewrite lookup_insert_ne; [apply lookup_empty|]. intros E. apply Hx. symmetry. exact E. }
  split.
  - apply validateSchema_iff. reflexivity.
  - intros k val Hk. rewrite H in Hk by discriminate. discriminate Hk.
  - split; [|intros name index Hi; rewrite lookup_empty in Hi; discriminate Hi]. intros t v _. split.
    + intros Ht. rewrite H in Ht by discriminate. discriminate Ht.
    + intros (index & Hi & _). rewrite lookup_empty in Hi. discriminate Hi.
  - intros name index Hi. rewrite lookup_empty in Hi. discriminate Hi.
  - intros name t _. apply H. discriminate.
Qed.
Lemma tables_isolated_witness : consistent t_other ∅ (<[rowPrefix (s_name t_demo) ++ k_demo := v_demo]>
  (<[descriptorKey (s_name t_demo) := encodeDescriptor t_demo]> ∅)).
Proof.
  apply (tables_isolated t_demo ∅ t_other ∅ m_table m_row k_demo None (Some v_demo) m_row_changed); [discriminate|].
  exact t_other_consistent.
Defined.

(** ** Sessions *)

Definition se0 : session KV := mkSession (Db_New 0) [] [].
Definition se1 : session KV := exec eng listing listing (CBegin false) se0.
Lemma single_writer_witness : writers (se_txs se1) = 1%nat.
Proof.
  apply (single_writer eng listing listing se1). apply (reachable_step _ _ _ se0 (CBegin false)); [constructor|constructor].
Defined.
Lemma writer_isolated_witness : holds eng (se_db (exec eng listing listing (CSet k1 v1) se1)) ∅.
Proof. apply (writer_isolated eng listing listing (CSet k1 v1) se1 ∅); [reflexivity|by split|discriminate|discriminate]. Defined.
Lemma closed_database_witness : Db_Get eng k1 (set_closed dur0) = (Err DErrClosed, set_closed dur0).
Proof.
  apply (closed_database eng listing listing (set_closed dur0) tx1 handle k1 v1 k1 v1 t_demo r_demo ANil k1 i_demo true);
    [reflexivity|reflexivity].
Defined.
