(* ===== verification/SqlLexer.v ===== *)
(** * SQL tokens and the lexer (src/internal/sql/lexer.go)

    The lexer reads bytes. Its state, [input] and [pos], is kept as the bytes
    that are still to be read, [input[pos:]], and their offset; the text of a
    token, [input[start:pos]], is what was read. A loop runs on fuel, one unit
    per iteration, and ends in [NoFuel] when there is none left. *)

From Stdlib Require Import Strings.String.
From S2P Require Import Prelude.

(** ** Tokens *)

Module Tok.
Inductive TokenType : Type :=
| Illegal | EOF | Identifier | String | Integer | True | False
| Create | Table | Primary | Key | Not | Null | Insert | Into | Values | Select | From | Where | And
| Int64 | StringType | Bytes | Bool
| LParen | RParen | Comma | Semicolon | Star
| Equal | NotEqual | Less | LessEqual | Greater | GreaterEqual.
#[global] Instance TokenType_eq_dec : EqDecision TokenType.
Proof. solve_decision. Defined.
End Tok.

Definition teqb (a b : Tok.TokenType) : bool := bool_decide (a = b).

Record Token := mkToken { t_type : Tok.TokenType; t_text : bytes; t_pos : Z }.

(** ** Errors of package sql *)

(** What a parser wanted to see, the [context] of [identifier]. *)
Inductive context := TableName | ColumnName | ColumnList | SelectList | PredicateColumn.

(** The messages of [parser.errorf]. *)
Inductive complaint : Type :=
| WantStatement
| WantColumnType (got : Tok.TokenType)
| DuplicatePrimaryKey
| DuplicateNotNull
| CountMismatch (columns values : Z)
| WantComparison (got : Tok.TokenType)
| BadInteger (text : bytes)
| WantLiteral (got : Tok.TokenType)
| WantIdentifier (c : context) (got : Tok.TokenType)
| Want (kind got : Tok.TokenType).

Inductive sqlerr : Type :=
| EInvalidCharacter (ch : byte) (pos : Z)
| EUnterminatedString (pos : Z)
| EInvalidInt64 (text : bytes) (pos : Z)
| EParse (pos : Z) (what : complaint)
| EExpectedList (c : context) (e : sqlerr).

(** ** Characters *)

Definition between (lo hi ch : byte) : bool := (bZ lo <=? bZ ch) && (bZ ch <=? bZ hi).

(* '_' = x5f, 'a' .. 'z' = x61 .. x7a, 'A' .. 'Z' = x41 .. x5a, '0' .. '9' = x30 .. x39 *)
Definition isIdentifierStart (ch : byte) : bool :=
  bool_decide (ch = Byte.x5f) || between Byte.x61 Byte.x7a ch || between Byte.x41 Byte.x5a ch.
Definition isDigit (ch : byte) : bool := between Byte.x30 Byte.x39 ch.
Definition isIdentifierPart (ch : byte) : bool := isIdentifierStart ch || isDigit ch.

(** [unicode.IsSpace] on a rune below 256: tab, newline, vertical tab, form
    feed, carriage return, space, U+0085 and U+00A0. *)
Definition isSpace (ch : byte) : bool :=
  between Byte.x09 Byte.x0d ch || bool_decide (ch = Byte.x20) || bool_decide (ch = Byte.x85) || bool_decide (ch = Byte.xa0).

(** [strings.ToUpper] on ASCII text; the texts it is used on are identifiers. *)
Definition upper (ch : byte) : byte := if between Byte.x61 Byte.x7a ch then Zb (bZ ch - 32) else ch.
Definition ToUpper (text : bytes) : bytes := map upper text.

Definition quote : byte := Byte.x27.
Definition plus : byte := Byte.x2b.
Definition minus : byte := Byte.x2d.
Definition isSign (ch : byte) : bool := bool_decide (ch = plus) || bool_decide (ch = minus).

(** ** strconv.ParseInt(text, 10, 64) *)

Fixpoint digits_value (acc : Z) (ds : bytes) : option Z :=
  match ds with
  | [] => Some acc
  | d :: ds => if isDigit d then digits_value (acc * 10 + (bZ d - 48)) ds else None
  end.
Definition ParseInt (text : bytes) : option Z :=
  let '(neg, ds) := match text with
                    | ch :: rest => if isSign ch then (bool_decide (ch = minus), rest) else (false, text)
                    | [] => (false, [])
                    end in
  match ds with
  | [] => None
  | _ =>
      n ← digits_value 0 ds;
      if neg then (if 2 ^ 63 <? n then None else Some (- n)) else (if 2 ^ 63 <=? n then None else Some n)
  end.

(** ** The lexer *)

Record lexer := mkLexer { l_rest : bytes; l_pos : Z }.

(** The loops that advance over a run of characters: what they read and what is
    left. *)
Fixpoint span (p : byte -> bool) (input : bytes) : bytes * bytes :=
  match input with
  | [] => ([], [])
  | ch :: rest => if p ch then let '(read, rest) := span p rest in (ch :: read, rest) else ([], input)
  end.
Definition after (l : lexer) (read rest : bytes) : lexer := mkLexer rest (l_pos l + len read).

Definition skipWhitespace (l : lexer) : lexer :=
  let '(read, rest) := span isSpace (l_rest l) in after l read rest.

Definition kw (s : String.string) : bytes := String.list_byte_of_string s.
Definition keywords : list (bytes * Tok.TokenType) := Eval vm_compute in
  map (fun p => (kw p.1, p.2)) [
    ("CREATE"%string, Tok.Create); ("TABLE"%string, Tok.Table); ("PRIMARY"%string, Tok.Primary); ("KEY"%string, Tok.Key);
    ("NOT"%string, Tok.Not); ("NULL"%string, Tok.Null); ("INSERT"%string, Tok.Insert); ("INTO"%string, Tok.Into);
    ("VALUES"%string, Tok.Values); ("SELECT"%string, Tok.Select); ("FROM"%string, Tok.From); ("WHERE"%string, Tok.Where);
    ("AND"%string, Tok.And); ("INT64"%string, Tok.Int64); ("STRING"%string, Tok.StringType); ("BYTES"%string, Tok.Bytes);
    ("BOOL"%string, Tok.Bool); ("TRUE"%string, Tok.True); ("FALSE"%string, Tok.False)].
Fixpoint lookup_keyword (table : list (bytes * Tok.TokenType)) (text : bytes) : option Tok.TokenType :=
  match table with
  | [] => None
  | (word, kind) :: table => if beqb word text then Some kind else lookup_keyword table text
  end.
Definition keyword (text : bytes) : Tok.TokenType := default Tok.Identifier (lookup_keyword keywords (ToUpper text)).

(** [first] is the character the caller has looked at. *)
Definition identifier (first : byte) (rest : bytes) (l : lexer) : Token * lexer :=
  let '(part, rest) := span isIdentifierPart rest in
  let text := first :: part in
  (mkToken (keyword text) text (l_pos l), after l text rest).

(** The loop of [stringLiteral] after the opening quote: the value, what was
    read of the input, and the rest. *)
Fixpoint string_loop (input : bytes) : option (bytes * bytes * bytes) :=
  match input with
  | [] => None
  | ch :: rest =>
      if negb (bool_decide (ch = quote)) then
        '(value, read, rest) ← string_loop rest; Some (ch :: value, ch :: read, rest)
      else
        match rest with
        | ch' :: rest' =>
            if bool_decide (ch' = quote) then
              '(value, read, rest) ← string_loop rest'; Some (quote :: value, ch :: ch' :: read, rest)
            else Some ([], [ch], rest)
        | [] => Some ([], [ch], [])
        end
  end.
Definition stringLiteral (rest : bytes) (l : lexer) : outcome sqlerr (Token * lexer) :=
  match string_loop rest with
  | Some (value, read, rest) => Ok (mkToken Tok.String value (l_pos l), after l (quote :: read) rest)
  | None => Err (EUnterminatedString (l_pos l))
  end.

Definition integer (l : lexer) : outcome sqlerr (Token * lexer) :=
  let '(sign, rest) := match l_rest l with
                       | ch :: rest => if isSign ch then ([ch], rest) else ([], l_rest l)
                       | [] => ([], [])
                       end in
  let '(ds, rest) := span isDigit rest in
  let text := sign ++ ds in
  match ParseInt text with
  | None => Err (EInvalidInt64 text (l_pos l))
  | Some _ => Ok (mkToken Tok.Integer text (l_pos l), after l text rest)
  end.

(** The switch of [punctuation] on the first character; [next] is the one after
    it. *)
Definition punctuation_kind (ch : byte) (next : option byte) : Tok.TokenType * bytes :=
  if bool_decide (ch = Byte.x28) then (Tok.LParen, [ch])
  else if bool_decide (ch = Byte.x29) then (Tok.RParen, [ch])
  else if bool_decide (ch = Byte.x2c) then (Tok.Comma, [ch])
  else if bool_decide (ch = Byte.x3b) then (Tok.Semicolon, [ch])
  else if bool_decide (ch = Byte.x2a) then (Tok.Star, [ch])
  else if bool_decide (ch = Byte.x3d) then (Tok.Equal, [ch])
  else if bool_decide (ch = Byte.x3c) then (Tok.Less, [ch])
  else if bool_decide (ch = Byte.x3e) then (Tok.Greater, [ch])
  else if bool_decide (ch = Byte.x21) && bool_decide (next = Some Byte.x3d) then (Tok.NotEqual, [ch; Byte.x3d])
  else (Tok.Illegal, [ch]).
Definition punctuation (ch : byte) (rest : bytes) (l : lexer) : option (Token * lexer) :=
  let '(kind, text) := punctuation_kind ch (head rest) in
  if teqb kind Tok.Illegal then None
  else
    let rest := drop (length text) (ch :: rest) in
    match rest with
    | next :: rest' =>
        if (teqb kind Tok.Less || teqb kind Tok.Greater) && bool_decide (next = Byte.x3d) then
          let text := text ++ [Byte.x3d] in
          Some (mkToken (if teqb kind Tok.Less then Tok.LessEqual else Tok.GreaterEqual) text (l_pos l), after l text rest')
        else Some (mkToken kind text (l_pos l), after l text rest)
    | [] => Some (mkToken kind text (l_pos l), after l text rest)
    end.

(** The switch of the loop of [lex]: one token starting with [ch]. *)
Definition next_token (ch : byte) (rest : bytes) (l : lexer) : outcome sqlerr (Token * lexer) :=
  if isIdentifierStart ch then Ok (identifier ch rest l)
  else if bool_decide (ch = quote) then stringLiteral rest l
  else if isDigit ch || (isSign ch && match rest with next :: _ => isDigit next | [] => false end) then integer l
  else
    match punctuation ch rest l with
    | Some tl => Ok tl
    | None => Err (EInvalidCharacter ch (l_pos l))
    end.

Fixpoint lex (fuel : nat) (l : lexer) : outcome sqlerr (list Token) :=
  match fuel with
  | O => NoFuel
  | S fuel =>
      let l := skipWhitespace l in
      match l_rest l with
      | [] => Ok [mkToken Tok.EOF [] (l_pos l)]
      | ch :: rest =>
          '(token, l) <- next_token ch rest l ;;
          tokens <- lex fuel l ;;
          Ok (token :: tokens)
      end
  end.
(** Every iteration but the last reads a byte. *)
Definition Lex (input : bytes) : outcome sqlerr (list Token) := lex (S (length input)) (mkLexer input 0).
