(* ===== verification/SqlLexerSpec.v ===== *)
(** * The lexical grammar of SQL

    What the tokens of an input are, as a relation that knows nothing of the
    lexer's loops: the input is white space and the spellings of tokens in turn,
    no token could be read further, and every token says where it starts. The
    lexer of src/internal/sql/lexer.go decides it. *)

From S2P Require Import Prelude SqlLexer.

(** ** Spellings *)

Fixpoint doubled (s : bytes) : bytes :=
  match s with
  | [] => []
  | ch :: s => if bool_decide (ch = quote) then quote :: quote :: doubled s else ch :: doubled s
  end.
Definition spelling (t : Token) : bytes :=
  match t_type t with
  | Tok.String => quote :: doubled (t_text t) ++ [quote]
  | _ => t_text t
  end.

Definition is_identifier (text : bytes) : bool :=
  match text with first :: part => isIdentifierStart first && forallb isIdentifierPart part | [] => false end.

(** The spelling of punctuation. *)
Definition punctuation_text (kind : Tok.TokenType) : bytes :=
  match kind with
  | Tok.LParen => [Byte.x28] | Tok.RParen => [Byte.x29] | Tok.Comma => [Byte.x2c] | Tok.Semicolon => [Byte.x3b]
  | Tok.Star => [Byte.x2a] | Tok.Equal => [Byte.x3d] | Tok.NotEqual => [Byte.x21; Byte.x3d]
  | Tok.Less => [Byte.x3c] | Tok.LessEqual => [Byte.x3c; Byte.x3d]
  | Tok.Greater => [Byte.x3e] | Tok.GreaterEqual => [Byte.x3e; Byte.x3d]
  | _ => []
  end.

Inductive class := CWord | CString | CInteger | CPunctuation | CNone.
Definition class_of (kind : Tok.TokenType) : class :=
  match kind with
  | Tok.Illegal | Tok.EOF => CNone
  | Tok.String => CString
  | Tok.Integer => CInteger
  | Tok.LParen | Tok.RParen | Tok.Comma | Tok.Semicolon | Tok.Star | Tok.Equal | Tok.NotEqual
  | Tok.Less | Tok.LessEqual | Tok.Greater | Tok.GreaterEqual => CPunctuation
  | _ => CWord
  end.

(** The text of a token fits its kind. *)
Definition token_ok (t : Token) : Prop :=
  match class_of (t_type t) with
  | CWord => is_identifier (t_text t) = true /\ keyword (t_text t) = t_type t
  | CString => True
  | CInteger => is_Some (ParseInt (t_text t))
  | CPunctuation => t_text t = punctuation_text (t_type t)
  | CNone => False
  end.

(** The token cannot be read further into [rest]. *)
Definition complete_before (t : Token) (rest : bytes) : Prop :=
  match head rest with
  | None => True
  | Some ch =>
      match class_of (t_type t) with
      | CWord => isIdentifierPart ch = false
      | CString => ch <> quote
      | CInteger => isDigit ch = false
      | CPunctuation => t_type t = Tok.Less \/ t_type t = Tok.Greater -> ch <> Byte.x3d
      | CNone => True
      end
  end.

(** [lexed pos input tokens]: read from offset [pos], [input] is these tokens. *)
Inductive lexed : Z -> bytes -> list Token -> Prop :=
| lexed_end pos ws : forallb isSpace ws = true -> lexed pos ws [mkToken Tok.EOF [] (pos + len ws)]
| lexed_token pos ws t rest tokens :
    forallb isSpace ws = true -> token_ok t -> t_pos t = pos + len ws -> complete_before t rest ->
    lexed (t_pos t + len (spelling t)) rest tokens -> lexed pos (ws ++ spelling t ++ rest) (t :: tokens).

(** ** Characters *)

Lemma start_part ch : isIdentifierStart ch = true -> isIdentifierPart ch = true.
Proof. unfold isIdentifierPart. by intros ->. Qed.
Lemma sign_digit ch : isSign ch = true -> isDigit ch = false.
Proof. by destruct ch. Qed.
Lemma number_start ch : isDigit ch || isSign ch = true -> isIdentifierStart ch = false /\ bool_decide (ch = quote) = false.
Proof. by destruct ch. Qed.
(** White space starts no token. *)
Lemma space_starts_nothing ch : isSpace ch = true ->
  isIdentifierStart ch = false /\ isDigit ch = false /\ isSign ch = false /\ ch <> quote /\
  forall next, punctuation_kind ch next = (Tok.Illegal, [ch]).
Proof. by destruct ch. Qed.

(** ** Runs of characters *)

Lemma span_app p input : forall read rest, span p input = (read, rest) ->
  input = read ++ rest /\ forallb p read = true /\ match head rest with Some ch => p ch = false | None => True end.
Proof.
  induction input as [|ch input IH]; intros read rest; cbn [span]; [by intros [= <- <-]|].
  destruct (p ch) eqn:E; [|intros [= <- <-]; cbn; by rewrite E].
  destruct (span p input) as [r s]. intros [= <- <-]. destruct (IH _ _ eq_refl) as (-> & H & ?). cbn. by rewrite E, H.
Qed.
Lemma span_run p read rest :
  forallb p read = true -> match head rest with Some ch => p ch = false | None => True end -> span p (read ++ rest) = (read, rest).
Proof.
  intros H Hr. induction read as [|ch read IH]; cbn [app].
  - destruct rest as [|c rest]; cbn in *; [done|]. by rewrite Hr.
  - cbn in *. apply andb_true_iff in H as [-> H]. by rewrite IH.
Qed.

(** ** Integers *)

Lemma digits_all ds : forall acc n, digits_value acc ds = Some n -> forallb isDigit ds = true.
Proof.
  induction ds as [|d ds IH]; intros acc n; cbn [digits_value forallb]; [done|]. destruct (isDigit d); [|done]. apply IH.
Qed.
(** An accepted text is an optional sign and digits. *)
Lemma ParseInt_form text : is_Some (ParseInt text) ->
  exists sign d ds, text = sign ++ d :: ds /\ (sign = [] \/ exists ch, sign = [ch] /\ isSign ch = true) /\ forallb isDigit (d :: ds) = true.
Proof.
  intros [n H]. unfold ParseInt in H. destruct text as [|ch text]; [done|]. destruct (isSign ch) eqn:Es.
  - destruct text as [|d ds]; [done|]. destruct (digits_value 0 (d :: ds)) as [v|] eqn:Ed; [|done].
    exists [ch], d, ds. split_and!; [done|right; by exists ch|by eapply digits_all].
  - destruct (digits_value 0 (ch :: text)) as [v|] eqn:Ed; [|done].
    exists [], ch, text. split_and!; [done|by left|by eapply digits_all].
Qed.
Lemma ParseInt_range text n : ParseInt text = Some n -> - 2 ^ 63 <= n < 2 ^ 63.
Proof.
  unfold ParseInt. intros H. assert (Hpos : forall ds acc m, 0 <= acc -> digits_value acc ds = Some m -> 0 <= m).
  { clear. induction ds as [|d ds IH]; intros acc m Ha; cbn [digits_value]; [by intros [= <-]|].
    destruct (isDigit d) eqn:Ed; [|done]. apply IH. unfold isDigit, between in Ed. apply andb_true_iff in Ed as [H _].
    change (bZ Byte.x30) with 48 in H. apply Z.leb_le in H. lia. }
  destruct (match text with [] => _ | _ => _ end) as [neg ds]. destruct ds as [|d ds]; [done|].
  destruct (digits_value 0 (d :: ds)) as [v|] eqn:Ed; [|done]. cbn in H. specialize (Hpos _ _ _ ltac:(done) Ed).
  destruct neg; [destruct (2 ^ 63 <? v) eqn:E|destruct (2 ^ 63 <=? v) eqn:E]; try done; injection H as <-; zbool; lia.
Qed.

(** ** Strings *)

Lemma string_loop_sound input : forall value read rest, string_loop input = Some (value, read, rest) ->
  input = read ++ rest /\ read = doubled value ++ [quote] /\ match head rest with Some ch => ch <> quote | None => True end.
Proof.
  induction input as [input IH] using (induction_ltof1 _ (@length byte)). intros value read rest.
  destruct input as [|ch input]; cbn [string_loop]; [done|]. destruct (bool_decide (ch = quote)) eqn:E; cbn [negb].
  - apply bool_decide_eq_true in E as ->. destruct input as [|ch' input]; [by intros [= <- <- <-]|].
    destruct (bool_decide (ch' = quote)) eqn:E'; [|apply bool_decide_eq_false in E'; by intros [= <- <- <-]].
    apply bool_decide_eq_true in E' as ->. destruct (string_loop input) as [[[v r] s]|] eqn:El; [|done]. intros [= <- <- <-].
    destruct (IH input) with (2 := El) as (-> & -> & ?); [unfold ltof; cbn; lia|done].
  - destruct (string_loop input) as [[[v r] s]|] eqn:El; [|done]. intros [= <- <- <-].
    destruct (IH input) with (2 := El) as (-> & -> & ?); [unfold ltof; cbn; lia|]. cbn [doubled]. by rewrite E.
Qed.
Lemma string_loop_doubled value rest :
  match head rest with Some ch => ch <> quote | None => True end ->
  string_loop ((doubled value ++ [quote]) ++ rest) = Some (value, doubled value ++ [quote], rest).
Proof.
  intros Hr. induction value as [|ch value IH]; cbn [doubled app].
  - destruct rest as [|c rest]; [done|]. cbn in *. by rewrite (bool_decide_eq_false_2 _ Hr).
  - destruct (bool_decide (ch = quote)) eqn:E.
    + apply bool_decide_eq_true in E as ->. cbn [string_loop app]. cbn. by rewrite IH.
    + cbn [string_loop app]. rewrite E. cbn [negb]. by rewrite IH.
Qed.

(** ** One token *)

(** What reading [t] from [l] leaves in [l']. *)
Record reads_token (l : lexer) (t : Token) (l' : lexer) : Prop := {
  rt_input : l_rest l = spelling t ++ l_rest l';
  rt_start : t_pos t = l_pos l;
  rt_end : l_pos l' = l_pos l + len (spelling t);
  rt_ok : token_ok t;
  rt_complete : complete_before t (l_rest l');
}.

Lemma keyword_class text : class_of (keyword text) = CWord.
Proof.
  unfold keyword. assert (H : Forall (fun p => class_of p.2 = CWord) keywords) by (repeat constructor).
  induction H as [|[word kind] table Hk _ IH]; [done|]. cbn [lookup_keyword]. by destruct (beqb word (ToUpper text)).
Qed.
Lemma word_spelling t : class_of (t_type t) <> CString -> spelling t = t_text t.
Proof. unfold spelling. by destruct (t_type t). Qed.

Lemma identifier_reads first rest l :
  isIdentifierStart first = true -> l_rest l = first :: rest ->
  let '(t, l') := identifier first rest l in reads_token l t l'.
Proof.
  intros Hf Hl. unfold identifier. destruct (span isIdentifierPart rest) as [part rest'] eqn:E.
  apply span_app in E as (-> & Hp & Hh). pose proof (keyword_class (first :: part)) as Hc.
  assert (Hs : spelling (mkToken (keyword (first :: part)) (first :: part) (l_pos l)) = first :: part)
    by (apply word_spelling; cbn [t_type]; by rewrite Hc).
  split; cbn [t_pos l_pos after l_rest]; [by rewrite Hs|done|by rewrite Hs| |].
  - unfold token_ok. cbn [t_type t_text]. rewrite Hc. split; [|done]. cbn [is_identifier]. by rewrite Hf, Hp.
  - unfold complete_before. cbn [t_type]. by destruct (head rest'); rewrite ?Hc.
Qed.
Lemma string_reads rest l : l_rest l = quote :: rest ->
  gives (stringLiteral rest l) (fun '(t, l') => reads_token l t l').
Proof.
  intros Hl. unfold stringLiteral. destruct (string_loop rest) as [[[value read] rest']|] eqn:E; [|done].
  apply string_loop_sound in E as (-> & -> & Hh). split; cbn [t_pos l_pos after l_rest]; try done.
Qed.
Lemma integer_reads l : gives (integer l) (fun '(t, l') => reads_token l t l').
Proof.
  unfold integer. set (p := match l_rest l with [] => _ | _ => _ end).
  assert (Hp : l_rest l = p.1 ++ p.2) by (subst p; destruct (l_rest l) as [|ch r]; [done|]; by destruct (isSign ch)).
  destruct p as [sign rest]. cbn [fst snd] in Hp. destruct (span isDigit rest) as [ds rest'] eqn:E.
  apply span_app in E as (-> & Hd & Hh). destruct (ParseInt (sign ++ ds)) as [n|] eqn:En; [|done].
  split; cbn [t_pos l_pos after l_rest]; try done; [by rewrite Hp, app_assoc|]. unfold token_ok. cbn. by eexists.
Qed.
Lemma punctuation_kind_ok ch rest kind text :
  punctuation_kind ch (head rest) = (kind, text) -> kind <> Tok.Illegal ->
  class_of kind = CPunctuation /\ text = punctuation_text kind /\ ch :: rest = text ++ drop (length text) (ch :: rest) /\
  kind <> Tok.LessEqual /\ kind <> Tok.GreaterEqual.
Proof.
  unfold punctuation_kind. intros H Hk.
  repeat match type of H with
  | (if bool_decide (_ = _) then _ else _) = _ =>
      let E := fresh in destruct (bool_decide _) eqn:E in H;
        [apply bool_decide_eq_true in E; subst ch; injection H as <- <-; done|]
  end.
  destruct (bool_decide (ch = Byte.x21)) eqn:E; cbn [andb] in H; [|by injection H as <- <-].
  destruct rest as [|next rest]; cbn [head] in H; [by injection H as <- <-|].
  destruct (bool_decide (Some next = Some Byte.x3d)) eqn:E'; [|by injection H as <- <-].
  apply bool_decide_eq_true in E as ->. apply bool_decide_eq_true in E' as [= ->]. by injection H as <- <-.
Qed.
Lemma punctuation_reads ch rest l t l' :
  l_rest l = ch :: rest -> punctuation ch rest l = Some (t, l') -> reads_token l t l'.
Proof.
  intros Hl. unfold punctuation. destruct (punctuation_kind ch (head rest)) as [kind text] eqn:E.
  destruct (teqb kind Tok.Illegal) eqn:Ei; [done|]. apply bool_decide_eq_false in Ei.
  destruct (punctuation_kind_ok _ _ _ _ E Ei) as (Hc & Ht & Hin & Hne). clear E. rewrite <- Hl in *.
  set (rest' := drop (length text) (l_rest l)) in *. clearbody rest'.
  assert (Hplain : complete_before (mkToken kind text (l_pos l)) rest' ->
    reads_token l (mkToken kind text (l_pos l)) (after l text rest')).
  { intros Hb. assert (Hs : spelling (mkToken kind text (l_pos l)) = text) by (apply word_spelling; cbn; by rewrite Hc).
    split; cbn [t_pos l_pos after l_rest]; rewrite ?Hs; try done. unfold token_ok. cbn [t_type t_text]. by rewrite Hc. }
  destruct rest' as [|next rest']; [intros [= <- <-]; by apply Hplain|].
  destruct (teqb kind Tok.Less) eqn:E1; [apply bool_decide_eq_true in E1 as ->|];
  [|destruct (teqb kind Tok.Greater) eqn:E2; [apply bool_decide_eq_true in E2 as ->|]]; cbn [orb andb].
  3:{ intros [= <- <-]. apply Hplain. unfold complete_before. cbn [head t_type]. rewrite Hc.
      apply bool_decide_eq_false in E1, E2. by intros [?|?]. }
  all: destruct (bool_decide (next = Byte.x3d)) eqn:E; [apply bool_decide_eq_true in E as ->|apply bool_decide_eq_false in E].
  2,4: intros [= <- <-]; apply Hplain; unfold complete_before; cbn; by intros _.
  all: intros [= <- <-]; subst text; split; cbn [t_pos l_pos after l_rest]; try done.
  all: unfold complete_before; cbn; destruct (head rest'); [by intros [?|?]|done].
Qed.

Lemma next_token_reads ch rest l :
  l_rest l = ch :: rest -> gives (next_token ch rest l) (fun '(t, l') => reads_token l t l').
Proof.
  intros Hl. unfold next_token. destruct (isIdentifierStart ch) eqn:Es; [by apply identifier_reads|].
  destruct (bool_decide (ch = quote)) eqn:Eq; [apply bool_decide_eq_true in Eq as ->; by apply string_reads|].
  destruct (_ || _); [apply integer_reads|].
  destruct (punctuation ch rest l) as [[t l']|] eqn:E; [|done]. cbn. by eapply punctuation_reads.
Qed.

Lemma punctuation_less c rest l : punctuation Byte.x3c (c :: rest) l =
  if bool_decide (c = Byte.x3d)
  then Some (mkToken Tok.LessEqual [Byte.x3c; Byte.x3d] (l_pos l), after l [Byte.x3c; Byte.x3d] rest)
  else Some (mkToken Tok.Less [Byte.x3c] (l_pos l), after l [Byte.x3c] (c :: rest)).
Proof. reflexivity. Qed.
Lemma punctuation_greater c rest l : punctuation Byte.x3e (c :: rest) l =
  if bool_decide (c = Byte.x3d)
  then Some (mkToken Tok.GreaterEqual [Byte.x3e; Byte.x3d] (l_pos l), after l [Byte.x3e; Byte.x3d] rest)
  else Some (mkToken Tok.Greater [Byte.x3e] (l_pos l), after l [Byte.x3e] (c :: rest)).
Proof. reflexivity. Qed.

(** A token that is complete is read whole. *)
Lemma next_token_complete l t l' ch rest :
  reads_token l t l' -> l_rest l = ch :: rest -> next_token ch rest l = Ok (t, l').
Proof.
  intros [Hin Hst Hen Hok Hb] Hl. destruct t as [kind text pos], l' as [rest' pos']. cbn [l_rest l_pos t_pos] in *. subst pos.
  assert (Hl' : forall read, spelling (mkToken kind text (l_pos l)) = read -> mkLexer rest' pos' = after l read rest')
    by (intros ? <-; unfold after; by rewrite Hen).
  unfold token_ok, complete_before in *. cbn [t_type t_text] in *.
  assert (Hsp : class_of kind <> CString -> spelling (mkToken kind text (l_pos l)) = text) by (by intros; apply word_spelling).
  rewrite Hin in Hl. destruct (class_of kind) eqn:Hc.
  - rewrite Hsp in * by done. destruct Hok as [Hid <-]. destruct text as [|first part]; [done|]. injection Hl as <- <-.
    apply andb_true_iff in Hid as [Hf Hp]. unfold next_token. rewrite Hf. unfold identifier. rewrite span_run by done.
    by rewrite (Hl' _ eq_refl).
  - destruct kind; try done. cbn in Hl. injection Hl as <- <-. unfold next_token. cbn [isIdentifierStart].
    change (isIdentifierStart quote) with false. change (bool_decide (quote = quote)) with true. cbv iota.
    unfold stringLiteral. rewrite string_loop_doubled by done. by rewrite (Hl' _ eq_refl).
  - rewrite Hsp in * by done. destruct kind; try done.
    destruct (ParseInt_form text Hok) as (sign & d & ds & Htext & Hsign & Hd).
    assert (Hnext : isDigit ch || isSign ch = true /\ isDigit ch || (isSign ch && match rest with next :: _ => isDigit next | [] => false end) = true).
    { destruct Hsign as [->|(c & -> & Hc')]; subst text; injection Hl as <- <-; cbn [forallb] in Hd; apply andb_true_iff in Hd as [Hd _].
      - by rewrite Hd.
      - rewrite Hc', Hd. by rewrite !orb_true_r. }
    destruct Hnext as [H1 H2]. apply number_start in H1 as [H1 H1']. unfold next_token. rewrite H1, H1', H2. unfold integer.
    rewrite Hin, Htext.
    destruct Hsign as [->|(c & -> & Hc')]; cbn [app] in *.
    + assert (Hs : isSign d = false) by (destruct (isSign d) eqn:E; [|done]; apply sign_digit in E; cbn in Hd; by rewrite E in Hd).
      rewrite Hs. change (d :: ds ++ rest') with ((d :: ds) ++ rest'). rewrite span_run by done. cbn [app]. rewrite <- Htext.
      destruct Hok as [n ->]. by rewrite (Hl' _ eq_refl).
    + rewrite Hc'. change (d :: ds ++ rest') with ((d :: ds) ++ rest'). rewrite span_run by done. cbn [app]. rewrite <- Htext.
      destruct Hok as [n ->]. by rewrite (Hl' _ eq_refl).
  - rewrite Hsp in * by done. subst text. unfold next_token.
    destruct kind; try done; cbn in Hl; injection Hl as <- <-; rewrite (Hl' _ eq_refl); destruct rest' as [|c rest']; try done.
    all: assert (Hne : bool_decide (c = Byte.x3d) = false) by (apply bool_decide_eq_false; apply Hb; auto).
    + rewrite (punctuation_less c rest' l), Hne. done.
    + rewrite (punctuation_greater c rest' l), Hne. done.
  - done.
Qed.

(** ** The whole input *)

Lemma skip_reads l : exists ws, forallb isSpace ws = true /\ l_rest l = ws ++ l_rest (skipWhitespace l) /\
  l_pos (skipWhitespace l) = l_pos l + len ws /\
  match head (l_rest (skipWhitespace l)) with Some ch => isSpace ch = false | None => True end.
Proof.
  unfold skipWhitespace. destruct (span isSpace (l_rest l)) as [read rest] eqn:E. apply span_app in E as (Hl & Hr & Hh).
  by exists read.
Qed.
Lemma skip_run l ws rest :
  l_rest l = ws ++ rest -> forallb isSpace ws = true -> match head rest with Some ch => isSpace ch = false | None => True end ->
  skipWhitespace l = mkLexer rest (l_pos l + len ws).
Proof. intros Hl Hw Hr. unfold skipWhitespace. by rewrite Hl, span_run. Qed.

Lemma spelling_start t : token_ok t -> exists ch s, spelling t = ch :: s /\ isSpace ch = false.
Proof.
  intros Hok. assert (Hno : forall ch, isSpace ch = true -> forall l rest, l_rest l = ch :: rest ->
    forall l', reads_token l t l' -> False).
  { intros ch Hs l rest Hl l' Hr. pose proof (next_token_complete _ _ _ _ _ Hr Hl) as Hn. unfold next_token in Hn.
    destruct (space_starts_nothing ch Hs) as (H1 & H2 & H3 & H4 & H5). rewrite H1, H2, H3, (bool_decide_eq_false_2 _ H4) in Hn.
    unfold punctuation in Hn. by rewrite H5 in Hn. }
  destruct (spelling t) as [|ch s] eqn:E.
  - exfalso. unfold token_ok in Hok. unfold spelling in E. destruct t as [kind text pos]; cbn [t_type t_text] in *.
    destruct kind; cbn in *; try done; subst text; try done; by destruct Hok.
  - exists ch, s. split; [done|]. destruct (isSpace ch) eqn:Es; [|done]. exfalso.
    apply (Hno ch Es (mkLexer (ch :: s) (t_pos t)) s eq_refl (mkLexer [] (t_pos t + len (spelling t)))).
    split; cbn [l_rest l_pos]; try done. by rewrite E, app_nil_r.
Qed.

Lemma lex_sound : forall fuel l, (length (l_rest l) < fuel)%nat -> gives (lex fuel l) (lexed (l_pos l) (l_rest l)).
Proof.
  induction fuel as [|fuel IH]; intros l Hf; [lia|]. cbn [lex].
  destruct (skip_reads l) as (ws & Hws & Hl & Hp & Hh). destruct (skipWhitespace l) as [rest pos]. cbn [l_rest l_pos] in *.
  destruct rest as [|ch rest]; [rewrite Hl, app_nil_r, Hp; by constructor|].
  pose proof (next_token_reads ch rest (mkLexer (ch :: rest) pos) eq_refl) as Hn.
  destruct (next_token ch rest _) as [[t l']|e| |]; try done. cbn in Hn. destruct Hn as [Hin Hst Hen Hok Hb].
  cbn [l_rest l_pos] in *. destruct (spelling_start t Hok) as (c & s & Hs & _).
  assert (Hlen : (length (l_rest l') < fuel)%nat).
  { apply (f_equal length) in Hl, Hin. rewrite length_app in Hl, Hin. rewrite Hs in Hin. cbn in *. lia. }
  specialize (IH l' Hlen). destruct (lex fuel l') as [tokens|e| |]; try done. cbn in *.
  rewrite Hl, Hin. constructor; try done; [by rewrite Hst, Hp|]. by rewrite Hst, <- Hen.
Qed.
Lemma lex_complete pos input tokens : lexed pos input tokens ->
  forall fuel, (length input < fuel)%nat -> lex fuel (mkLexer input pos) = Ok tokens.
Proof.
  induction 1 as [pos ws Hws|pos ws t rest tokens Hws Hok Hpos Hb _ IH]; intros [|fuel] Hf; try lia; cbn [lex].
  - rewrite (skip_run (mkLexer ws pos) ws []); [done|by rewrite app_nil_r|done|done].
  - destruct (spelling_start t Hok) as (ch & s & Hs & Hsp).
    rewrite (skip_run (mkLexer (ws ++ spelling t ++ rest) pos) ws (spelling t ++ rest)); [|done|done|by rewrite Hs].
    cbn [l_rest l_pos]. rewrite <- Hpos. rewrite Hs. cbn [app].
    rewrite (next_token_complete _ t (mkLexer rest (t_pos t + len (spelling t))) ch (s ++ rest)).
    + rewrite IH; [done|]. rewrite !length_app, Hs in Hf. cbn in Hf. lia.
    + split; cbn [l_rest l_pos]; try done. by rewrite Hs.
    + done.
Qed.

Lemma Lex_lexed input tokens : Lex input = Ok tokens <-> lexed 0 input tokens.
Proof.
  split.
  - intros H. pose proof (lex_sound (S (length input)) (mkLexer input 0) ltac:(cbn; lia)) as Hs.
    unfold Lex in H. by rewrite H in Hs.
  - intros H. apply (lex_complete _ _ _ H). lia.
Qed.
Lemma Lex_total input : gives (Lex input) (lexed 0 input).
Proof. apply (lex_sound _ (mkLexer input 0)). cbn. lia. Qed.

(** The stream ends with its only EOF. *)
Lemma lexed_ends pos input tokens : lexed pos input tokens ->
  exists ts e, tokens = ts ++ [e] /\ Forall token_ok ts /\ e = mkToken Tok.EOF [] (pos + len input).
Proof.
  induction 1 as [pos ws Hws|pos ws t rest tokens Hws Hok Hpos Hb _ (ts & e & -> & Hts & ->)].
  - exists [], (mkToken Tok.EOF [] (pos + len ws)). done.
  - exists (t :: ts), (mkToken Tok.EOF [] (t_pos t + len (spelling t) + len rest)).
    split_and!; [done|by constructor|]. f_equal. rewrite !len_app. lia.
Qed.
