(* ===== verification/SqlParser.v ===== *)
(** * SQL statements and the parser (src/internal/sql/parser.go)

    The parser's state, [tokens] and [pos], is kept as the tokens still to be
    read, [tokens[pos:]]: [current] panics when there are none. Loops run on the
    number of these tokens as fuel and end in [NoFuel] beyond it. *)

From S2P Require Import Prelude Errors Codec SqlLexer.

(** ** Statements *)

Record ColumnDefinition := mkColumnDefinition {
  cd_name : bytes; cd_type : Tok.TokenType; cd_primaryKey : bool; cd_notNull : bool }.
Record Literal := mkLiteral { li_kind : Tok.TokenType; li_value : any }.
Record Predicate := mkPredicate { pr_column : bytes; pr_op : Tok.TokenType; pr_value : Literal }.

Record CreateTableStatement := mkCreateTable { ct_name : bytes; ct_columns : list ColumnDefinition }.
Record InsertStatement := mkInsert { in_table : bytes; in_columns : list bytes; in_values : list Literal }.
Record SelectStatement := mkSelect {
  se_table : bytes; se_columns : list bytes; se_all : bool; se_where : list Predicate }.

(** A value of the interface [Statement]: nil, one of the three statements by
    value or by (possibly nil) pointer, or another implementation. *)
Inductive Statement : Type :=
| NilStatement
| CreateTableValue (s : CreateTableStatement)
| InsertValue (s : InsertStatement)
| SelectValue (s : SelectStatement)
| CreateTablePointer (s : option CreateTableStatement)
| InsertPointer (s : option InsertStatement)
| SelectPointer (s : option SelectStatement)
| OtherStatement.

(** ** The parser *)

Abbreviation parser := (list Token).
Abbreviation PM := (stM parser sqlerr).

Definition current : PM Token := fun p =>
  match p with
  | t :: _ => (Ok t, p)
  | [] => (Panic, p)
  end.
Definition advance : PM unit := fun p => (Ok tt, tail p).
Definition errorf {A} (what : complaint) : PM A := token <~ current ;; throw (EParse (t_pos token) what).

Definition expect (kind : Tok.TokenType) : PM unit :=
  token <~ current ;;
  if negb (teqb (t_type token) kind) then errorf (Want kind (t_type token))
  else advance.

Definition optionalSemicolon : PM unit :=
  token <~ current ;;
  if teqb (t_type token) Tok.Semicolon then advance else ret tt.

Definition p_identifier (c : context) : PM bytes :=
  token <~ current ;;
  if negb (teqb (t_type token) Tok.Identifier) then errorf (WantIdentifier c (t_type token))
  else
    _ <~ advance ;;
    ret (t_text token).

Definition literal : PM Literal :=
  token <~ current ;;
  match t_type token with
  | Tok.String => _ <~ advance ;; ret (mkLiteral Tok.String (AString (t_text token)))
  | Tok.Integer =>
      match ParseInt (t_text token) with
      | None => errorf (BadInteger (t_text token))
      | Some value => _ <~ advance ;; ret (mkLiteral Tok.Integer (AInt64 value))
      end
  | Tok.True | Tok.False =>
      _ <~ advance ;; ret (mkLiteral (t_type token) (ABool (teqb (t_type token) Tok.True)))
  | Tok.Null => _ <~ advance ;; ret (mkLiteral Tok.Null ANil)
  | kind => errorf (WantLiteral kind)
  end.

Definition isComparison (kind : Tok.TokenType) : bool :=
  teqb kind Tok.Equal || teqb kind Tok.NotEqual || teqb kind Tok.Less || teqb kind Tok.LessEqual ||
  teqb kind Tok.Greater || teqb kind Tok.GreaterEqual.

(** [for { item; if current is not separator { break }; advance }]: the shape of
    every list in the grammar. *)
Fixpoint items {A} (fuel : nat) (item : PM A) (separator : Tok.TokenType) : PM (list A) :=
  match fuel with
  | O => diverge
  | S fuel =>
      value <~ item ;;
      token <~ current ;;
      if negb (teqb (t_type token) separator) then ret [value]
      else
        _ <~ advance ;;
        values <~ items fuel item separator ;;
        ret (value :: values)
  end.
(** Enough fuel for a loop that starts here. *)
Definition list_of {A} (item : PM A) (separator : Tok.TokenType) : PM (list A) := fun p =>
  items (S (length p)) item separator p.

(** The loop over the constraints of a column. *)
Fixpoint constraints (fuel : nat) (column : ColumnDefinition) : PM ColumnDefinition :=
  match fuel with
  | O => diverge
  | S fuel =>
      token <~ current ;;
      match t_type token with
      | Tok.Primary =>
          if cd_primaryKey column then errorf DuplicatePrimaryKey
          else
            _ <~ advance ;;
            _ <~ expect Tok.Key ;;
            constraints fuel (mkColumnDefinition (cd_name column) (cd_type column) true (cd_notNull column))
      | Tok.Not =>
          if cd_notNull column then errorf DuplicateNotNull
          else
            _ <~ advance ;;
            _ <~ expect Tok.Null ;;
            constraints fuel (mkColumnDefinition (cd_name column) (cd_type column) (cd_primaryKey column) true)
      | _ => ret column
      end
  end.
Definition isColumnType (kind : Tok.TokenType) : bool :=
  teqb kind Tok.Int64 || teqb kind Tok.StringType || teqb kind Tok.Bytes || teqb kind Tok.Bool.
(** One round of the column loop of [createTable]. *)
Definition columnDefinition : PM ColumnDefinition :=
  columnName <~ p_identifier ColumnName ;;
  token <~ current ;;
  let columnType := t_type token in
  if negb (isColumnType columnType) then errorf (WantColumnType columnType)
  else
    _ <~ advance ;;
    column <~ (fun p => constraints (S (length p)) (mkColumnDefinition columnName columnType false false) p) ;;
    ret (mkColumnDefinition (cd_name column) (cd_type column) (cd_primaryKey column)
           (if cd_primaryKey column then true else cd_notNull column)).

Definition createTable : PM Statement :=
  _ <~ expect Tok.Create ;;
  _ <~ expect Tok.Table ;;
  name <~ p_identifier TableName ;;
  _ <~ expect Tok.LParen ;;
  columns <~ list_of columnDefinition Tok.Comma ;;
  _ <~ expect Tok.RParen ;;
  _ <~ optionalSemicolon ;;
  ret (CreateTableValue (mkCreateTable name columns)).

Definition identifierSequence (c : context) : PM (list bytes) := list_of (p_identifier c) Tok.Comma.
Definition identifierList (c : context) : PM (list bytes) :=
  _ <~ (fun p => let '(r, p') := expect Tok.LParen p in (map_err (EExpectedList c) r, p')) ;;
  names <~ list_of (p_identifier c) Tok.Comma ;;
  _ <~ expect Tok.RParen ;;
  ret names.

Definition insertStatement : PM Statement :=
  _ <~ expect Tok.Insert ;;
  _ <~ expect Tok.Into ;;
  table <~ p_identifier TableName ;;
  columns <~ identifierList ColumnList ;;
  _ <~ expect Tok.Values ;;
  _ <~ expect Tok.LParen ;;
  values <~ list_of literal Tok.Comma ;;
  _ <~ expect Tok.RParen ;;
  _ <~ optionalSemicolon ;;
  if negb (len columns =? len values) then errorf (CountMismatch (len columns) (len values))
  else ret (InsertValue (mkInsert table columns values)).

(** One round of the predicate loop of [selectStatement]. *)
Definition predicate : PM Predicate :=
  column <~ p_identifier PredicateColumn ;;
  token <~ current ;;
  let op := t_type token in
  if negb (isComparison op) then errorf (WantComparison op)
  else
    _ <~ advance ;;
    value <~ literal ;;
    ret (mkPredicate column op value).
Definition selectStatement : PM Statement :=
  _ <~ expect Tok.Select ;;
  token <~ current ;;
  '(all, columns) <~ (if teqb (t_type token) Tok.Star then _ <~ advance ;; ret (true, [])
                      else columns <~ identifierSequence SelectList ;; ret (false, columns)) ;;
  _ <~ expect Tok.From ;;
  table <~ p_identifier TableName ;;
  token <~ current ;;
  where_ <~ (if teqb (t_type token) Tok.Where then _ <~ advance ;; list_of predicate Tok.And else ret []) ;;
  _ <~ optionalSemicolon ;;
  ret (SelectValue (mkSelect table columns all where_)).

Definition statement : PM Statement :=
  token <~ current ;;
  match t_type token with
  | Tok.Create => createTable
  | Tok.Insert => insertStatement
  | Tok.Select => selectStatement
  | _ => errorf WantStatement
  end.

Definition Parse (input : bytes) : outcome sqlerr Statement :=
  tokens <- Lex input ;;
  ((st <~ statement ;; _ <~ expect Tok.EOF ;; ret st) tokens).1.
