(* ===== verification/SqlParserSpec.v ===== *)
(** * The grammar of SQL

    The statements of the language as a grammar over tokens: which token
    sequences a statement derives, said without a parser. The recursive-descent
    parser of src/internal/sql/parser.go decides it: what it accepts is derived
    and what is derived it accepts, and it stays inside its tokens. *)

From S2P Require Import Prelude Errors Codec SqlLexer SqlLexerSpec SqlParser.

(** ** The grammar *)

Definition isa (kind : Tok.TokenType) (t : Token) : Prop := t_type t = kind.
Definition names (t : Token) (name : bytes) : Prop := isa Tok.Identifier t /\ t_text t = name.

Inductive g_literal : Token -> Literal -> Prop :=
| g_string t : isa Tok.String t -> g_literal t (mkLiteral Tok.String (AString (t_text t)))
| g_integer t n : isa Tok.Integer t -> ParseInt (t_text t) = Some n -> g_literal t (mkLiteral Tok.Integer (AInt64 n))
| g_true t : isa Tok.True t -> g_literal t (mkLiteral Tok.True (ABool true))
| g_false t : isa Tok.False t -> g_literal t (mkLiteral Tok.False (ABool false))
| g_null t : isa Tok.Null t -> g_literal t (mkLiteral Tok.Null ANil).

(** One or more phrases with separators between them. *)
Inductive g_list {A} (phrase : list Token -> A -> Prop) (separator : Tok.TokenType) : list Token -> list A -> Prop :=
| g_one ts a : phrase ts a -> g_list phrase separator ts [a]
| g_more ts a t ts' l : phrase ts a -> isa separator t -> g_list phrase separator ts' l ->
    g_list phrase separator (ts ++ t :: ts') (a :: l).

(** [PRIMARY KEY] and [NOT NULL], in any order, each at most once. The flags say
    what came before and what holds in the end. *)
Inductive g_constraints : bool -> bool -> list Token -> bool -> bool -> Prop :=
| g_no_more pk nn : g_constraints pk nn [] pk nn
| g_primary nn t u ts pk' nn' :
    isa Tok.Primary t -> isa Tok.Key u -> g_constraints true nn ts pk' nn' -> g_constraints false nn (t :: u :: ts) pk' nn'
| g_not_null pk t u ts pk' nn' :
    isa Tok.Not t -> isa Tok.Null u -> g_constraints pk true ts pk' nn' -> g_constraints pk false (t :: u :: ts) pk' nn'.

(** A primary key column is NOT NULL. *)
Inductive g_column : list Token -> ColumnDefinition -> Prop :=
| g_column_def tn name ty cs pk nn :
    names tn name -> isColumnType (t_type ty) = true -> g_constraints false false cs pk nn ->
    g_column (tn :: ty :: cs) (mkColumnDefinition name (t_type ty) pk (pk || nn)).

Inductive g_name : list Token -> bytes -> Prop :=
| g_name_one t name : names t name -> g_name [t] name.
Inductive g_value : list Token -> Literal -> Prop :=
| g_value_one t v : g_literal t v -> g_value [t] v.
Inductive g_predicate : list Token -> Predicate -> Prop :=
| g_compare tn name op t v : names tn name -> isComparison (t_type op) = true -> g_literal t v ->
    g_predicate [tn; op; t] (mkPredicate name (t_type op) v).

Inductive g_semicolon : list Token -> Prop :=
| g_without : g_semicolon []
| g_with t : isa Tok.Semicolon t -> g_semicolon [t].

Inductive g_select_list : list Token -> bool -> list bytes -> Prop :=
| g_star t : isa Tok.Star t -> g_select_list [t] true []
| g_columns ts cs : g_list g_name Tok.Comma ts cs -> g_select_list ts false cs.
Inductive g_where : list Token -> list Predicate -> Prop :=
| g_no_where : g_where [] []
| g_where_and t ts ps : isa Tok.Where t -> g_list g_predicate Tok.And ts ps -> g_where (t :: ts) ps.

Inductive g_statement : list Token -> Statement -> Prop :=
| g_create_table t1 t2 tn name t3 cs columns t4 semi :
    isa Tok.Create t1 -> isa Tok.Table t2 -> names tn name -> isa Tok.LParen t3 -> g_list g_column Tok.Comma cs columns ->
    isa Tok.RParen t4 -> g_semicolon semi ->
    g_statement ([t1; t2; tn; t3] ++ cs ++ [t4] ++ semi) (CreateTableValue (mkCreateTable name columns))
| g_insert t1 t2 tn name t3 cs columns t4 t5 t6 vs values t7 semi :
    isa Tok.Insert t1 -> isa Tok.Into t2 -> names tn name ->
    isa Tok.LParen t3 -> g_list g_name Tok.Comma cs columns -> isa Tok.RParen t4 ->
    isa Tok.Values t5 -> isa Tok.LParen t6 -> g_list g_value Tok.Comma vs values -> isa Tok.RParen t7 ->
    g_semicolon semi -> length columns = length values ->
    g_statement ([t1; t2; tn; t3] ++ cs ++ [t4; t5; t6] ++ vs ++ [t7] ++ semi) (InsertValue (mkInsert name columns values))
| g_select t1 sl all columns t2 tn name wh ps semi :
    isa Tok.Select t1 -> g_select_list sl all columns -> isa Tok.From t2 -> names tn name -> g_where wh ps -> g_semicolon semi ->
    g_statement ([t1] ++ sl ++ [t2; tn] ++ wh ++ semi) (SelectValue (mkSelect name columns all ps)).

(** ** Token streams *)

(** A stream ends with its only EOF. *)
Definition stream (p : parser) : Prop :=
  exists ts e, p = ts ++ [e] /\ Forall (fun t => t_type t <> Tok.EOF) ts /\ isa Tok.EOF e.
(** The next token is none of [kinds]. *)
Definition stops (kinds : list Tok.TokenType) (p : parser) : Prop :=
  match p with t :: _ => t_type t ∉ kinds | [] => False end.

Lemma stream_inv p : stream p -> exists t p', p = t :: p' /\ (t_type t <> Tok.EOF -> stream p').
Proof.
  intros (ts & e & -> & Hts & He). destruct ts as [|t ts]; [by exists e, []|].
  apply Forall_cons in Hts as [_ Hts]. exists t, (ts ++ [e]). split; [done|]. intros _. by exists ts, e.
Qed.
Lemma teqb_true a b : teqb a b = true <-> a = b.
Proof. apply bool_decide_eq_true. Qed.
Lemma teqb_false a b : teqb a b = false <-> a <> b.
Proof. apply bool_decide_eq_false. Qed.
Lemma teqb_refl a : teqb a a = true.
Proof. by apply teqb_true. Qed.

(** ** Parsers against grammars *)

(** Sound: what [m] returns is derived from the tokens it read. *)
Definition sound {A} (m : PM A) (G : list Token -> A -> Prop) : Prop := forall p, stream p ->
  ends m p (fun a p' => exists ts, p = ts ++ p' /\ G ts a /\ stream p') (fun _ _ => True).
(** Complete: derived tokens are read, unless the next one could go on. *)
Definition parses {A} (m : PM A) (G : list Token -> A -> Prop) (more : list Tok.TokenType) : Prop := forall ts a p,
  G ts a -> stops more p -> m (ts ++ p) = (Ok a, p).

Lemma errorf_ends {A} what p (Q : A -> parser -> Prop) : stream p -> ends (errorf what) p Q (fun _ _ => True).
Proof. intros H. destruct (stream_inv p H) as (t & p' & -> & _). done. Qed.
Lemma current_ends {A} (k : Token -> PM A) p Q : stream p ->
  (forall t p', p = t :: p' -> (t_type t <> Tok.EOF -> stream p') -> ends (k t) p Q (fun _ _ => True)) ->
  ends (bind current k) p Q (fun _ _ => True).
Proof. intros H Hk. destruct (stream_inv p H) as (t & p' & -> & Hs). by apply (Hk t p'). Qed.
Lemma sound_bind {A B} (m : PM A) G (k : A -> PM B) p Q : sound m G -> stream p ->
  (forall ts a p', p = ts ++ p' -> G ts a -> stream p' -> ends (k a) p' Q (fun _ _ => True)) ->
  ends (bind m k) p Q (fun _ _ => True).
Proof.
  intros Hm Hp Hk. apply ends_bind. eapply ends_mono; [by apply Hm| |done].
  intros a p' (ts & -> & HG & Hs). by eapply Hk.
Qed.
Lemma expect_sound kind : kind <> Tok.EOF -> sound (expect kind) (fun ts _ => exists t, ts = [t] /\ isa kind t).
Proof.
  intros Hne p Hp. unfold expect. apply current_ends; [done|]. intros t p' -> Hs.
  destruct (teqb (t_type t) kind) eqn:E; cbn [negb]; [|by apply errorf_ends]. apply teqb_true in E.
  unfold ends, advance. cbn [tail]. exists [t]. split_and!; [done|by exists t|]. apply Hs. congruence.
Qed.
Lemma expect_ends {A} kind (k : unit -> PM A) p Q : stream p -> kind <> Tok.EOF ->
  (forall t p', p = t :: p' -> isa kind t -> stream p' -> ends (k tt) p' Q (fun _ _ => True)) ->
  ends (bind (expect kind) k) p Q (fun _ _ => True).
Proof.
  intros H Hne Hk. eapply sound_bind; [by apply (expect_sound kind)|done|]. intros ts [] p' -> (t & -> & Ht) Hp'. by apply (Hk t p').
Qed.

Lemma expect_ok {A} kind t p (k : unit -> PM A) : isa kind t -> bind (expect kind) k (t :: p) = k tt p.
Proof. intros H. unfold bind, expect, current, bind. unfold isa in H. by rewrite H, teqb_refl. Qed.
Lemma name_ok {A} c t name p (k : bytes -> PM A) : names t name -> bind (p_identifier c) k (t :: p) = k name p.
Proof. intros [H <-]. unfold bind, p_identifier, current, bind. unfold isa in H. by rewrite H. Qed.
Lemma parses_bind {A B} (m : PM A) G more (k : A -> PM B) ts a p :
  parses m G more -> G ts a -> stops more p -> bind m k (ts ++ p) = k a p.
Proof. intros Hm HG Hp. by rewrite (bind_ok _ _ _ _ _ (Hm ts a p HG Hp)). Qed.

(** ** Words, names and literals *)

Lemma name_sound c : sound (p_identifier c) g_name.
Proof.
  intros p Hp. unfold p_identifier. apply current_ends; [done|]. intros t p' -> Hs.
  destruct (teqb (t_type t) Tok.Identifier) eqn:E; cbn [negb]; [|by apply errorf_ends]. apply teqb_true in E.
  unfold ends, bind, advance, ret. exists [t]. split_and!; [done|by constructor|]. apply Hs. congruence.
Qed.
Lemma name_parses c : parses (p_identifier c) g_name [].
Proof.
  intros ts name p [t n Ht] _. pose proof (name_ok c t n p ret Ht) as H. unfold bind, ret in H. cbn [app].
  destruct (p_identifier c (t :: p)) as [[] ?]; cbn in H; try done.
Qed.
Lemma literal_sound : sound literal g_value.
Proof.
  intros p Hp. unfold literal. apply current_ends; [done|]. intros t p' -> Hs.
  assert (Hgo : forall v, g_literal t v -> t_type t <> Tok.EOF ->
    ends (_ <~ advance ;; ret v) (t :: p') (fun a q => exists ts, t :: p' = ts ++ q /\ g_value ts a /\ stream q) (fun _ _ => True)).
  { intros v Hv Hne. unfold ends, bind, advance, ret. exists [t]. split_and!; [done|by constructor|by apply Hs]. }
  destruct (t_type t) eqn:E; try (by apply errorf_ends).
  - apply Hgo; [by apply g_string|done].
  - destruct (ParseInt (t_text t)) as [n|] eqn:En; [|by apply errorf_ends]. apply Hgo; [by apply g_integer|done].
  - apply Hgo; [by apply g_true|done].
  - apply Hgo; [by apply g_false|done].
  - apply Hgo; [by apply g_null|done].
Qed.
Lemma literal_parses : parses literal g_value [].
Proof.
  intros ts v p [t v' Hv] _. unfold literal, bind, current. cbn [app].
  destruct Hv as [t H|t n H Hn|t H|t H|t H]; unfold isa in H; rewrite H; rewrite ?Hn; done.
Qed.

(** ** Lists *)

Lemma items_sound {A} (item : PM A) G separator : sound item G -> separator <> Tok.EOF ->
  forall fuel p, (length p < fuel)%nat -> stream p ->
  ends (items fuel item separator) p (fun l p' => exists ts, p = ts ++ p' /\ g_list G separator ts l /\ stream p') (fun _ _ => True).
Proof.
  intros Hi Hsep. induction fuel as [|fuel IH]; intros p Hf Hp; [lia|]. cbn [items].
  eapply sound_bind; [exact Hi|done|]. intros ts a p' -> HG Hp'. apply current_ends; [done|]. intros t q -> Hs.
  destruct (teqb (t_type t) separator) eqn:E; cbn [negb].
  - apply teqb_true in E. assert (Hq : stream q) by (apply Hs; congruence).
    apply ends_bind. unfold ends at 1, advance. cbn [tail]. apply ends_bind. eapply ends_mono; [apply IH; [|done]| |done].
    { rewrite length_app in Hf. cbn in Hf. lia. }
    cbn beta. intros l q' (ts' & -> & Hl & Hq'). unfold ends, ret. exists (ts ++ t :: ts').
    split_and!; [by rewrite <- app_assoc|by constructor|done].
  - unfold ends, ret. exists ts. split_and!; [done|by constructor|done].
Qed.
Lemma list_sound {A} (item : PM A) G separator : sound item G -> separator <> Tok.EOF -> sound (list_of item separator) (g_list G separator).
Proof. intros Hi Hs p Hp. unfold ends, list_of. apply (items_sound item G separator); [done|done|lia|done]. Qed.

Lemma items_parses {A} (item : PM A) G separator more : parses item G more -> separator ∉ more ->
  forall ts l, g_list G separator ts l -> forall fuel p, (length ts < fuel)%nat -> stops (separator :: more) p ->
  items fuel item separator (ts ++ p) = (Ok l, p).
Proof.
  intros Hi Hsep ts l H. induction H as [ts a Ha|ts a t ts' l Ha Ht Hl IH]; intros [|fuel] p Hf Hp; try lia; cbn [items].
  - assert (Hp' : stops more p) by (destruct p; [done|]; cbn in *; by apply not_elem_of_cons in Hp as [_ ?]).
    rewrite (parses_bind _ _ _ _ _ _ _ Hi Ha Hp'). destruct p as [|u p]; [done|]. unfold bind at 1, current.
    cbn in Hp. apply not_elem_of_cons in Hp as [Hu _]. by rewrite (proj2 (teqb_false _ _) Hu).
  - rewrite <- app_assoc. cbn [app]. unfold isa in Ht. assert (Hp' : stops more (t :: ts' ++ p)) by (cbn; by rewrite Ht).
    rewrite (parses_bind _ _ _ _ _ _ _ Hi Ha Hp'). unfold bind at 1, current. rewrite Ht, teqb_refl. cbn [negb].
    unfold bind at 1, advance. cbn [tail]. rewrite length_app in Hf. cbn in Hf.
    by rewrite (bind_ok _ _ _ _ _ (IH fuel p ltac:(lia) Hp)).
Qed.
Lemma list_parses {A} (item : PM A) G separator more : parses item G more -> separator ∉ more ->
  parses (list_of item separator) (g_list G separator) (separator :: more).
Proof. intros Hi Hs ts l p HG Hp. unfold list_of. apply (items_parses item G separator more); try done. rewrite length_app. lia. Qed.

(** ** Columns *)

Abbreviation with_flags column pk nn := (mkColumnDefinition (cd_name column) (cd_type column) pk nn).

Lemma constraints_sound : forall fuel column p, (length p < fuel)%nat -> stream p ->
  ends (constraints fuel column) p
    (fun column' p' => exists ts pk nn, p = ts ++ p' /\ g_constraints (cd_primaryKey column) (cd_notNull column) ts pk nn /\
       column' = with_flags column pk nn /\ stream p') (fun _ _ => True).
Proof.
  induction fuel as [|fuel IH]; intros column p Hf Hp; [lia|]. cbn [constraints].
  apply current_ends; [done|]. intros t p' -> Hs.
  assert (Hstop : ends (ret column : PM _) (t :: p') (fun column' q => exists ts pk nn, t :: p' = ts ++ q /\
    g_constraints (cd_primaryKey column) (cd_notNull column) ts pk nn /\ column' = with_flags column pk nn /\ stream q) (fun _ _ => True)).
  { unfold ends, ret. exists [], (cd_primaryKey column), (cd_notNull column). split_and!; [done|constructor|by destruct column|done]. }
  destruct (t_type t) eqn:E; try exact Hstop; clear Hstop.
  - destruct (cd_primaryKey column) eqn:Epk; [by apply errorf_ends|]. apply ends_bind. unfold ends at 1, advance. cbn [tail].
    apply expect_ends; [by apply Hs|done|]. intros u q -> Hu Hq. cbn in Hf.
    eapply ends_mono; [apply IH; [lia|done]| |done]. cbn. intros c' q' (ts & pk & nn & -> & HG & -> & Hq').
    exists (t :: u :: ts), pk, nn. split_and!; try done. by apply g_primary.
  - destruct (cd_notNull column) eqn:Enn; [by apply errorf_ends|]. apply ends_bind. unfold ends at 1, advance. cbn [tail].
    apply expect_ends; [by apply Hs|done|]. intros u q -> Hu Hq. cbn in Hf.
    eapply ends_mono; [apply IH; [lia|done]| |done]. cbn. intros c' q' (ts & pk & nn & -> & HG & -> & Hq').
    exists (t :: u :: ts), pk, nn. split_and!; try done. by apply g_not_null.
Qed.
Lemma column_sound : sound columnDefinition g_column.
Proof.
  intros p Hp. unfold columnDefinition. eapply sound_bind; [apply name_sound|done|]. intros tn name q -> [t n Hn] Hq.
  apply current_ends; [done|]. intros ty q' -> Hs. destruct (isColumnType (t_type ty)) eqn:Et; cbn [negb]; [|by apply errorf_ends].
  apply ends_bind. unfold ends at 1, advance. cbn [tail]. apply ends_bind. unfold ends at 1.
  pose proof (constraints_sound (S (length q')) (mkColumnDefinition n (t_type ty) false false) q' ltac:(lia)) as Hc.
  unfold ends at 1 in Hc. specialize (Hc ltac:(apply Hs; intros H; by rewrite H in Et)).
  destruct (constraints _ _ q') as [[c|e| |] r]; try done. destruct Hc as (ts & pk & nn & -> & HG & -> & Hr).
  unfold ends, ret. cbn. exists (t :: ty :: ts). split_and!; [done| |done]. replace (if pk then true else nn) with (pk || nn) by done.
  by constructor.
Qed.
Lemma constraints_parses ts pk nn pk' nn' : g_constraints pk nn ts pk' nn' -> forall fuel name ty p,
  (length ts < fuel)%nat -> stops [Tok.Primary; Tok.Not] p ->
  constraints fuel (mkColumnDefinition name ty pk nn) (ts ++ p) = (Ok (mkColumnDefinition name ty pk' nn'), p).
Proof.
  induction 1 as [pk nn|nn t u ts pk' nn' Ht Hu _ IH|pk t u ts pk' nn' Ht Hu _ IH]; intros [|fuel] name ty p Hf Hp; try (cbn in Hf; lia);
    cbn [constraints app]; unfold bind at 1, current.
  - destruct p as [|v p]; [done|]. cbn in Hp. apply not_elem_of_cons in Hp as [H1 [H2 _]%not_elem_of_cons]. by destruct (t_type v).
  - unfold isa in Ht. rewrite Ht. cbn [cd_primaryKey]. unfold bind at 1, advance. cbn [tail]. rewrite expect_ok by done.
    cbn [cd_name cd_type cd_notNull]. apply IH; [cbn in Hf; lia|done].
  - unfold isa in Ht. rewrite Ht. cbn [cd_notNull]. unfold bind at 1, advance. cbn [tail]. rewrite expect_ok by done.
    cbn [cd_name cd_type cd_primaryKey]. apply IH; [cbn in Hf; lia|done].
Qed.
Lemma column_parses : parses columnDefinition g_column [Tok.Primary; Tok.Not].
Proof.
  intros ts c p [tn name ty cs pk nn Hn Ht Hc] Hp. unfold columnDefinition. cbn [app]. rewrite (name_ok _ _ _ _ _ Hn).
  unfold bind at 1, current. rewrite Ht. cbn [negb]. unfold bind at 1, advance. cbn [tail]. unfold bind.
  rewrite (constraints_parses _ _ _ _ _ Hc) by (done || (rewrite length_app; lia)). unfold ret. cbn.
  by replace (if pk then true else nn) with (pk || nn).
Qed.

(** ** Predicates *)

Lemma predicate_sound : sound predicate g_predicate.
Proof.
  intros p Hp. unfold predicate. eapply sound_bind; [apply name_sound|done|]. intros tn name q -> [t n Hn] Hq.
  apply current_ends; [done|]. intros op q' -> Hs. destruct (isComparison (t_type op)) eqn:Eo; cbn [negb]; [|by apply errorf_ends].
  apply ends_bind. unfold ends at 1, advance. cbn [tail].
  eapply sound_bind; [apply literal_sound|apply Hs; intros H; by rewrite H in Eo|]. intros tv v r -> [u v' Hv] Hr.
  unfold ends, ret. exists [t; op; u]. split_and!; [done|by constructor|done].
Qed.
Lemma predicate_parses : parses predicate g_predicate [].
Proof.
  intros ts pr p [tn name op t v Hn Ho Hv] Hp. unfold predicate. cbn [app]. rewrite (name_ok _ _ _ _ _ Hn).
  unfold bind at 1, current. rewrite Ho. cbn [negb]. unfold bind at 1, advance. cbn [tail].
  change (t :: p) with ([t] ++ p). rewrite (parses_bind _ _ _ _ _ _ _ literal_parses (g_value_one t v Hv) Hp). done.
Qed.

(** ** Statements *)

Lemma semicolon_ends {A} (k : unit -> PM A) p Q : stream p ->
  (forall ts p', p = ts ++ p' -> g_semicolon ts -> stream p' -> ends (k tt) p' Q (fun _ _ => True)) ->
  ends (bind optionalSemicolon k) p Q (fun _ _ => True).
Proof.
  intros Hp Hk. apply ends_bind. unfold optionalSemicolon. apply current_ends; [done|]. intros t p' -> Hs.
  destruct (teqb (t_type t) Tok.Semicolon) eqn:E.
  - apply teqb_true in E. unfold ends, advance. cbn [tail]. apply (Hk [t] p'); [done|by constructor|]. apply Hs. congruence.
  - unfold ends, ret. apply (Hk [] (t :: p')); [done|constructor|done].
Qed.
Lemma semicolon_ok {A} (k : unit -> PM A) ts p : g_semicolon ts -> stops [Tok.Semicolon] p -> bind optionalSemicolon k (ts ++ p) = k tt p.
Proof.
  intros [|t Ht] Hp; cbn [app]; unfold bind at 1, optionalSemicolon, bind, current.
  - destruct p as [|t p]; [done|]. cbn in Hp. apply not_elem_of_cons in Hp as [Ht _]. by rewrite (proj2 (teqb_false _ _) Ht).
  - unfold isa in Ht. by rewrite Ht.
Qed.

Lemma createTable_sound : sound createTable g_statement.
Proof.
  intros p Hp. unfold createTable.
  apply expect_ends; [done..|]. intros t1 q -> H1 Hq. apply expect_ends; [done..|]. intros t2 q1 -> H2 Hq1.
  eapply sound_bind; [apply name_sound|done|]. intros tn name q2 -> [t n Hn] Hq2.
  apply expect_ends; [done..|]. intros t3 q3 -> H3 Hq3.
  eapply sound_bind; [by apply (list_sound _ _ _ column_sound)|done|]. intros cs columns q4 -> Hc Hq4.
  apply expect_ends; [done..|]. intros t4 q5 -> H4 Hq5.
  apply semicolon_ends; [done|]. intros semi q6 -> Hsemi Hq6.
  unfold ends, ret. exists ([t1; t2; t; t3] ++ cs ++ [t4] ++ semi). split_and!; [|by constructor|done].
  cbn [app]. rewrite <- !app_assoc. done.
Qed.
Lemma insert_sound : sound insertStatement g_statement.
Proof.
  intros p Hp. unfold insertStatement.
  apply expect_ends; [done..|]. intros t1 q -> H1 Hq. apply expect_ends; [done..|]. intros t2 q1 -> H2 Hq1.
  eapply sound_bind; [apply name_sound|done|]. intros tn name q2 -> [t n Hn] Hq2.
  assert (Hlist : sound (identifierList ColumnList) (fun ts l => exists a cs b, ts = a :: cs ++ [b] /\ isa Tok.LParen a /\
    isa Tok.RParen b /\ g_list g_name Tok.Comma cs l)).
  { intros r Hr. unfold identifierList. apply ends_bind. unfold ends at 1.
    pose proof (expect_sound Tok.LParen ltac:(done) r Hr) as He. unfold ends in He.
    destruct (expect Tok.LParen r) as [[[]|e| |] r']; try done. cbn [map_err].
    destruct He as (? & -> & (a & -> & Ha) & Hr').
    eapply sound_bind; [by apply (list_sound _ _ _ (name_sound _))|done|]. intros cs l r2 -> Hcs Hr2.
    apply expect_ends; [done..|]. intros b r3 -> Hb Hr3. unfold ends, ret. exists (a :: cs ++ [b]). split_and!.
    - cbn. by rewrite <- app_assoc.
    - by exists a, cs, b.
    - done. }
  eapply sound_bind; [exact Hlist|done|]. intros tl columns q3 -> (t3 & cs & t4 & -> & H3 & H4 & Hcs) Hq3.
  apply expect_ends; [done..|]. intros t5 q4 -> H5 Hq4. apply expect_ends; [done..|]. intros t6 q5 -> H6 Hq5.
  eapply sound_bind; [by apply (list_sound _ _ _ literal_sound)|done|]. intros vs values q6 -> Hv Hq6.
  apply expect_ends; [done..|]. intros t7 q7 -> H7 Hq7. apply semicolon_ends; [done|]. intros semi q8 -> Hsemi Hq8.
  destruct (len columns =? len values) eqn:El; cbn [negb]; [|by apply errorf_ends]. apply Z.eqb_eq in El.
  unfold ends, ret. exists ([t1; t2; t; t3] ++ cs ++ [t4; t5; t6] ++ vs ++ [t7] ++ semi). split_and!; [| |done].
  - cbn [app]. rewrite <- !app_assoc. cbn [app]. by rewrite <- !app_assoc.
  - constructor; try done. unfold len in El. lia.
Qed.
Lemma select_sound : sound selectStatement g_statement.
Proof.
  intros p Hp. unfold selectStatement. apply expect_ends; [done..|]. intros t1 q -> H1 Hq.
  apply current_ends; [done|]. intros t q' Eq Hs. apply ends_bind.
  eapply ends_mono with (Q := fun r p' => exists sl, q = sl ++ p' /\ g_select_list sl r.1 r.2 /\ stream p') (R := fun _ _ => True); [| |done].
  { destruct (teqb (t_type t) Tok.Star) eqn:E.
    - apply teqb_true in E. subst q. unfold ends, bind, advance, ret. exists [t]. split_and!; [done|by constructor|].
      apply Hs. congruence.
    - eapply sound_bind; [by apply (list_sound _ _ _ (name_sound _))|done|]. intros ts cs r -> Hl Hr.
      unfold ends, ret. exists ts. split_and!; [done|by constructor|done]. }
  intros [all columns] q1 (sl & -> & Hsl & Hq1). cbn [fst snd] in Hsl. clear t q' Eq Hs.
  apply expect_ends; [done..|]. intros t2 q2 -> H2 Hq2.
  eapply sound_bind; [apply name_sound|done|]. intros tn name q3 -> [t n Hn] Hq3.
  apply current_ends; [done|]. intros w q' Eq Hs. apply ends_bind.
  eapply ends_mono with (Q := fun ps p' => exists wh, q3 = wh ++ p' /\ g_where wh ps /\ stream p') (R := fun _ _ => True); [| |done].
  { destruct (teqb (t_type w) Tok.Where) eqn:E.
    - apply teqb_true in E. subst q3. apply ends_bind. unfold ends at 1, advance. cbn [tail].
      eapply ends_mono; [apply (list_sound _ _ _ predicate_sound); [done|apply Hs; congruence]| |done].
      intros ps r (ts & -> & Hl & Hr). exists (w :: ts). split_and!; [done|by constructor|done].
    - unfold ends, ret. exists []. split_and!; [done|constructor|done]. }
  intros ps q4 (wh & -> & Hwh & Hq4). clear w q' Eq Hs. apply semicolon_ends; [done|]. intros semi q5 -> Hsemi Hq5.
  unfold ends, ret. exists ([t1] ++ sl ++ [t2; t] ++ wh ++ semi). split_and!; [|by constructor|done].
  cbn [app]. by rewrite <- !app_assoc; cbn [app]; rewrite <- !app_assoc.
Qed.
Lemma statement_sound : sound statement g_statement.
Proof.
  intros p Hp. unfold statement. apply current_ends; [done|]. intros t p' Eq Hs.
  destruct (t_type t); try (by apply errorf_ends); [by apply createTable_sound|by apply insert_sound|by apply select_sound].
Qed.

(** A list of phrases starts with a phrase. *)
Lemma list_starts {A} (phrase : list Token -> A -> Prop) separator kind ts l :
  (forall ts a, phrase ts a -> exists t ts', ts = t :: ts' /\ isa kind t) -> g_list phrase separator ts l ->
  exists t ts', ts = t :: ts' /\ isa kind t.
Proof. intros H [ts' a Ha|ts' a t ts2 l' Ha _ _]; destruct (H _ _ Ha) as (u & r & -> & Hu); eauto. Qed.

Lemma name_starts ts name : g_name ts name -> exists t ts', ts = t :: ts' /\ isa Tok.Identifier t.
Proof. intros [t n Hn]. exists t, []. split; [done|apply Hn]. Qed.

Lemma createTable_parses :
  parses createTable (fun ts st => g_statement ts st /\ exists s, st = CreateTableValue s) [Tok.Semicolon].
Proof.
  intros ts st p [H [s Es]] Hp. destruct H as [t1 t2 tn name t3 cs columns t4 semi H1 H2 Hn H3 Hc H4 Hs| |]; try done.
  rewrite <- !app_assoc. cbn [app]. unfold createTable. rewrite !expect_ok by done. rewrite (name_ok _ _ _ _ _ Hn), expect_ok by done.
  assert (Hx : stops [Tok.Comma; Tok.Primary; Tok.Not] (t4 :: semi ++ p)) by (cbn; unfold isa in H4; rewrite H4; set_solver).
  rewrite (parses_bind _ _ _ _ _ _ _ (list_parses _ _ Tok.Comma _ column_parses ltac:(set_solver)) Hc Hx).
  rewrite expect_ok by done. by rewrite semicolon_ok.
Qed.

Lemma identifierList_parses c t cs columns u p :
  isa Tok.LParen t -> g_list g_name Tok.Comma cs columns -> isa Tok.RParen u ->
  identifierList c (t :: cs ++ u :: p) = (Ok columns, p).
Proof.
  intros Ht Hc Hu. assert (Hx : stops [Tok.Comma] (u :: p)) by (cbn; unfold isa in Hu; rewrite Hu; set_solver).
  unfold identifierList. rewrite (bind_ok _ _ _ tt (cs ++ u :: p)).
  2:{ pose proof (expect_ok Tok.LParen t (cs ++ u :: p) ret Ht) as He. unfold bind, ret in He.
      destruct (expect Tok.LParen _) as [[[]| | |] ?]; cbn in *; congruence. }
  rewrite (parses_bind _ _ _ _ _ _ _ (list_parses _ _ Tok.Comma _ (name_parses c) ltac:(set_solver)) Hc Hx).
  by rewrite expect_ok.
Qed.
Lemma insert_parses : parses insertStatement (fun ts st => g_statement ts st /\ exists s, st = InsertValue s) [Tok.Semicolon].
Proof.
  intros ts st p [H [s Es]] Hp.
  destruct H as [|t1 t2 tn name t3 cs columns t4 t5 t6 vs values t7 semi H1 H2 Hn H3 Hc H4 H5 H6 Hv H7 Hs Hl|]; try done.
  rewrite <- !app_assoc. cbn [app]. unfold insertStatement. rewrite !expect_ok by done. rewrite (name_ok _ _ _ _ _ Hn).
  rewrite (bind_ok _ _ _ _ _ (identifierList_parses ColumnList t3 cs columns t4 _ H3 Hc H4)). rewrite !expect_ok by done.
  assert (Hy : stops [Tok.Comma] (t7 :: semi ++ p)) by (cbn; unfold isa in H7; rewrite H7; set_solver).
  rewrite (parses_bind _ _ _ _ _ _ _ (list_parses _ _ Tok.Comma _ literal_parses ltac:(set_solver)) Hv Hy).
  rewrite expect_ok by done. rewrite semicolon_ok by done. unfold len. by rewrite Hl, Z.eqb_refl.
Qed.

(** The two alternatives of a SELECT that the next token decides. *)
Lemma select_list_parses sl all columns u p : g_select_list sl all columns -> isa Tok.From u ->
  exists t r, sl ++ u :: p = t :: r /\ (if teqb (t_type t) Tok.Star then _ <~ advance ;; ret (true, [])
    else columns <~ identifierSequence SelectList ;; ret (false, columns)) (sl ++ u :: p) = (Ok (all, columns), u :: p).
Proof.
  intros Hsl Hu. assert (Hx : stops [Tok.Comma] (u :: p)) by (cbn; unfold isa in Hu; rewrite Hu; set_solver).
  destruct Hsl as [t Ht|ts' cs Hl].
  - exists t, (u :: p). split; [done|]. unfold isa in Ht. by rewrite Ht.
  - destruct (list_starts _ _ Tok.Identifier _ _ name_starts Hl) as (t & r & -> & Ht). exists t, (r ++ u :: p). split; [done|].
    unfold isa in Ht. rewrite Ht. change (teqb Tok.Identifier Tok.Star) with false. cbv iota.
    by rewrite (parses_bind _ _ _ _ _ _ _ (list_parses _ _ Tok.Comma _ (name_parses SelectList) ltac:(set_solver)) Hl Hx).
Qed.
Lemma where_parses wh ps p : g_where wh ps -> stops [Tok.Where; Tok.And] p ->
  exists t r, wh ++ p = t :: r /\
    (if teqb (t_type t) Tok.Where then _ <~ advance ;; list_of predicate Tok.And else ret []) (wh ++ p) = (Ok ps, p).
Proof.
  intros Hw Hp. destruct Hw as [|t ts ps Ht Hl]; cbn [app].
  - destruct p as [|u p]; [done|]. exists u, p. split; [done|]. cbn in Hp. rewrite (proj2 (teqb_false _ _)); [done|set_solver].
  - exists t, (ts ++ p). split; [done|]. unfold isa in Ht. rewrite Ht. change (teqb Tok.Where Tok.Where) with true. cbv iota.
    unfold bind at 1, advance. cbn [tail]. apply (list_parses _ _ Tok.And _ predicate_parses ltac:(set_solver)); [done|].
    destruct p; [done|]. cbn in *. set_solver.
Qed.
Lemma select_parses :
  parses selectStatement (fun ts st => g_statement ts st /\ exists s, st = SelectValue s) [Tok.Semicolon; Tok.Where; Tok.And].
Proof.
  intros ts st p [H [s Es]] Hp. destruct H as [| |t1 sl all columns t2 tn name wh ps semi H1 Hsl H2 Hn Hw Hs]; try done.
  rewrite <- !app_assoc. cbn [app]. unfold selectStatement. rewrite expect_ok by done.
  destruct (select_list_parses sl all columns t2 (tn :: wh ++ semi ++ p) Hsl H2) as (t & r & Heq & Hsel).
  rewrite (bind_ok current _ _ t (sl ++ t2 :: tn :: wh ++ semi ++ p)) by (by rewrite Heq).
  rewrite (bind_ok _ _ _ _ _ Hsel), expect_ok, (name_ok _ _ _ _ _ Hn) by done. clear Hsel Heq t r.
  assert (Hw' : stops [Tok.Where; Tok.And] (semi ++ p)).
  { destruct Hs as [|u Hs]; cbn [app]; [destruct p; [done|]; cbn in *; set_solver|].
    cbn. unfold isa in Hs. rewrite Hs. set_solver. }
  destruct (where_parses wh ps (semi ++ p) Hw Hw') as (t & r & Heq & Hwh).
  rewrite (bind_ok current _ _ t (wh ++ semi ++ p)) by (by rewrite Heq).
  rewrite (bind_ok _ _ _ _ _ Hwh). rewrite semicolon_ok; [done|done|]. destruct p; [done|]. cbn in *. set_solver.
Qed.
Lemma statement_parses : parses statement g_statement [Tok.Semicolon; Tok.Where; Tok.And].
Proof.
  intros ts st p H Hp. assert (Hp1 : stops [Tok.Semicolon] p) by (destruct p; [done|]; cbn in *; set_solver).
  assert (Hst : exists t r, ts ++ p = t :: r /\ statement (ts ++ p) =
    match t_type t with Tok.Create => createTable | Tok.Insert => insertStatement | Tok.Select => selectStatement | _ => errorf WantStatement end (ts ++ p)).
  { destruct H; cbn [app]; unfold statement, bind, current; eexists _, _; split; reflexivity. }
  destruct Hst as (t & r & Heq & ->).
  destruct H as [t1 ? ? ? ? ? ? ? ? H1| t1 ? ? ? ? ? ? ? ? ? ? ? ? ? H1|t1 ? ? ? ? ? ? ? ? ? H1]; cbn [app] in Heq;
    injection Heq as <- <-; pose proof H1 as E1; unfold isa in E1; rewrite E1.
  - apply createTable_parses; [|done]. split; [by constructor|by eexists].
  - apply insert_parses; [|done]. split; [by constructor|by eexists].
  - apply select_parses; [|done]. split; [by constructor|by eexists].
Qed.

(** ** Whole inputs *)

Lemma lexed_stream pos input tokens : lexed pos input tokens -> stream tokens.
Proof.
  intros H. destruct (lexed_ends _ _ _ H) as (ts & e & -> & Hts & ->). exists ts, (mkToken Tok.EOF [] (pos + len input)).
  split_and!; [done| |done]. eapply Forall_impl; [exact Hts|]. intros t Ht E. unfold token_ok in Ht. by rewrite E in Ht.
Qed.
(** The statement takes the whole stream up to its EOF. *)
Lemma Parse_stream tokens : stream tokens ->
  gives ((st <~ statement ;; _ <~ expect Tok.EOF ;; ret st) tokens).1 (fun st => exists ts e, tokens = ts ++ [e] /\ g_statement ts st).
Proof.
  intros Hs. pose proof (statement_sound tokens Hs) as H. unfold ends in H. unfold bind at 1.
  destruct (statement tokens) as [[st|e| |] p]; try done. destruct H as (ts & -> & HG & Hp).
  destruct Hp as (us & e & -> & Hus & He). destruct us as [|u us]; cbn [app].
  - rewrite expect_ok by done. cbn. by exists ts, e.
  - apply Forall_cons in Hus as [Hu _]. unfold bind, expect, current, bind. by rewrite (proj2 (teqb_false _ _) Hu).
Qed.
Lemma Parse_derived ts e st : g_statement ts st -> isa Tok.EOF e ->
  ((st <~ statement ;; _ <~ expect Tok.EOF ;; ret st) (ts ++ [e])).1 = Ok st.
Proof.
  intros HG He. assert (Hx : stops [Tok.Semicolon; Tok.Where; Tok.And] [e]) by (cbn; unfold isa in He; rewrite He; set_solver).
  rewrite (bind_ok _ _ _ _ _ (statement_parses ts st [e] HG Hx)). by rewrite expect_ok.
Qed.
