(* ===== verification/SqlPrint.v ===== *)
(** * Writing SQL statements

    A text for every statement the parser can return, and for every value: what
    a client may write. Strings are quoted by doubling their quotes. Reading the
    text back with the lexer and parser of src/internal/sql gives the statement
    it was written for. *)

From S2P Require Import Prelude Errors Codec CodecSpec SqlLexer SqlLexerSpec SqlParser SqlParserSpec.

(** ** Integers *)

Fixpoint digits (fuel : nat) (n : Z) (acc : bytes) : bytes :=
  match fuel with
  | O => acc
  | S fuel =>
      let acc := Zb (48 + n mod 10) :: acc in
      if n <? 10 then acc else digits fuel (n / 10) acc
  end.
(** An int64 has at most nineteen digits. *)
Definition print_int (z : Z) : bytes := if z <? 0 then minus :: digits 20 (- z) [] else digits 20 z [].

Lemma digit_byte n : 0 <= n < 10 -> isDigit (Zb (48 + n)) = true /\ bZ (Zb (48 + n)) = 48 + n.
Proof.
  intros H. assert (E : bZ (Zb (48 + n)) = 48 + n) by (rewrite bZ_Zb, Z.mod_small; lia). split; [|done].
  unfold isDigit, between. rewrite E. change (bZ Byte.x30) with 48. change (bZ Byte.x39) with 57.
  apply andb_true_iff. split; apply Z.leb_le; lia.
Qed.
Lemma digits_read fuel : forall n acc, 0 <= n < 10 ^ Z.of_nat fuel -> digits_value 0 (digits fuel n acc) = digits_value n acc.
Proof.
  induction fuel as [|fuel IH]; intros n acc Hn; [cbn in *; by replace n with 0 by lia|]. cbn [digits].
  pose proof (Z.mod_pos_bound n 10 ltac:(lia)) as Hm. destruct (digit_byte (n mod 10) Hm) as [Hd Hv].
  rewrite Nat2Z.inj_succ, Z.pow_succ_r in Hn by lia. destruct (n <? 10) eqn:E.
  - apply Z.ltb_lt in E. cbn [digits_value]. rewrite Hd, Hv. f_equal. rewrite Z.mod_small by lia. lia.
  - apply Z.ltb_ge in E. rewrite IH by (split; [apply Z.div_pos; lia|apply Z.div_lt_upper_bound; lia]). cbn [digits_value].
    rewrite Hd, Hv. f_equal. pose proof (Z.div_mod n 10 ltac:(lia)). lia.
Qed.
Lemma digits_nonempty fuel n acc : fuel <> O -> exists d ds, digits fuel n acc = d :: ds.
Proof.
  destruct fuel as [|fuel]; [done|]. intros _. revert n acc. induction fuel as [|fuel IH]; intros n acc; cbn [digits].
  - destruct (n <? 10); eauto.
  - destruct (n <? 10); [eauto|]. apply IH.
Qed.
Lemma ParseInt_print z : int64 z -> ParseInt (print_int z) = Some z.
Proof.
  intros Hz. unfold int64 in Hz. unfold print_int, ParseInt. destruct (z <? 0) eqn:E; zbool.
  - change (isSign minus) with true. cbv iota. change (bool_decide (minus = minus)) with true.
    destruct (digits_nonempty 20 (- z) [] ltac:(done)) as (d & ds & Hd). rewrite Hd. rewrite <- Hd.
    rewrite digits_read by (change (10 ^ Z.of_nat 20) with 100000000000000000000; lia). cbn [digits_value mbind option_bind].
    rewrite (proj2 (Z.ltb_ge _ _)) by lia. f_equal. lia.
  - destruct (digits_nonempty 20 z [] ltac:(done)) as (d & ds & Hd). rewrite Hd.
    assert (Hr : digits_value 0 (d :: ds) = Some z)
      by (rewrite <- Hd, digits_read by (change (10 ^ Z.of_nat 20) with 100000000000000000000; lia); done).
    assert (Hs : isSign d = false).
    { destruct (isSign d) eqn:Es; [|done]. apply sign_digit in Es. cbn [digits_value] in Hr. by rewrite Es in Hr. }
    rewrite Hs, Hr. cbn [mbind option_bind]. rewrite (proj2 (Z.leb_gt _ _)) by lia. done.
Qed.

(** ** Texts *)

Definition space : byte := Byte.x20.
(** Every token is followed by a space. *)
Fixpoint render (ts : list Token) : bytes :=
  match ts with [] => [] | t :: ts => spelling t ++ space :: render ts end.
(** The tokens where [render] puts them. *)
Fixpoint place (pos : Z) (ts : list Token) : list Token :=
  match ts with [] => [] | t :: ts => mkToken (t_type t) (t_text t) pos :: place (pos + len (spelling t) + 1) ts end.

Lemma place_app a b : forall pos, exists pos', place pos (a ++ b) = place pos a ++ place pos' b.
Proof. induction a as [|t a IH]; intros pos; cbn [app place]; [by exists pos|]. destruct (IH (pos + len (spelling t) + 1)) as [p ->]. by exists p. Qed.

Lemma space_complete t rest : complete_before t (space :: rest).
Proof. unfold complete_before. cbn [head]. destruct (class_of (t_type t)); done. Qed.
Lemma render_lexed ts : Forall token_ok ts -> forall pos ws, forallb isSpace ws = true ->
  exists e, lexed pos (ws ++ render ts) (place (pos + len ws) ts ++ [e]).
Proof.
  induction 1 as [|t ts Ht _ IH]; intros pos ws Hws; cbn [render place app].
  - rewrite app_nil_r. eexists. by constructor.
  - set (t' := mkToken (t_type t) (t_text t) (pos + len ws)). change (spelling t) with (spelling t').
    destruct (IH (pos + len ws + len (spelling t')) [space] eq_refl) as [e He]. exists e.
    change (space :: render ts) with ([space] ++ render ts). constructor; try done; try apply space_complete.
Qed.

(** ** Statements as tokens *)

Definition tok (kind : Tok.TokenType) (text : bytes) : Token := mkToken kind text 0.
Definition fixed (kind : Tok.TokenType) : Token :=
  tok kind (match List.find (fun p => teqb p.2 kind) keywords with Some p => p.1 | None => punctuation_text kind end).
Definition name_tokens (name : bytes) : list Token := [tok Tok.Identifier name].
Definition literal_token (l : Literal) : Token :=
  match li_value l with
  | AInt64 z => tok Tok.Integer (print_int z)
  | AString s => tok Tok.String s
  | ABool true => fixed Tok.True
  | ABool false => fixed Tok.False
  | _ => fixed Tok.Null
  end.
Fixpoint joined {A} (phrase : A -> list Token) (separator : Tok.TokenType) (l : list A) : list Token :=
  match l with
  | [] => []
  | [a] => phrase a
  | a :: l => phrase a ++ fixed separator :: joined phrase separator l
  end.
Definition column_tokens (c : ColumnDefinition) : list Token :=
  [tok Tok.Identifier (cd_name c); fixed (cd_type c)] ++
  (if cd_primaryKey c then [fixed Tok.Primary; fixed Tok.Key] else if cd_notNull c then [fixed Tok.Not; fixed Tok.Null] else []).
Definition predicate_tokens (p : Predicate) : list Token :=
  [tok Tok.Identifier (pr_column p); fixed (pr_op p); literal_token (pr_value p)].
Definition statement_tokens (st : Statement) : list Token :=
  match st with
  | CreateTableValue s =>
      [fixed Tok.Create; fixed Tok.Table; tok Tok.Identifier (ct_name s); fixed Tok.LParen] ++
      joined column_tokens Tok.Comma (ct_columns s) ++ [fixed Tok.RParen]
  | InsertValue s =>
      [fixed Tok.Insert; fixed Tok.Into; tok Tok.Identifier (in_table s); fixed Tok.LParen] ++
      joined name_tokens Tok.Comma (in_columns s) ++ [fixed Tok.RParen; fixed Tok.Values; fixed Tok.LParen] ++
      joined (fun l => [literal_token l]) Tok.Comma (in_values s) ++ [fixed Tok.RParen]
  | SelectValue s =>
      [fixed Tok.Select] ++ (if se_all s then [fixed Tok.Star] else joined name_tokens Tok.Comma (se_columns s)) ++
      [fixed Tok.From; tok Tok.Identifier (se_table s)] ++
      (match se_where s with [] => [] | ps => fixed Tok.Where :: joined predicate_tokens Tok.And ps end)
  | _ => []
  end.
Definition print (st : Statement) : bytes := render (statement_tokens st).

(** ** Statements that can be written *)

Definition name_ok_ (name : bytes) : Prop := is_identifier name = true /\ keyword name = Tok.Identifier.
Definition literal_ok (l : Literal) : Prop :=
  match li_value l with
  | AInt64 z => li_kind l = Tok.Integer /\ int64 z
  | AString _ => li_kind l = Tok.String
  | ABool b => li_kind l = if b then Tok.True else Tok.False
  | ANil => li_kind l = Tok.Null
  | _ => False
  end.
Definition column_def_ok (c : ColumnDefinition) : Prop :=
  name_ok_ (cd_name c) /\ isColumnType (cd_type c) = true /\ (cd_primaryKey c = true -> cd_notNull c = true).
Definition predicate_ok (p : Predicate) : Prop :=
  name_ok_ (pr_column p) /\ isComparison (pr_op p) = true /\ literal_ok (pr_value p).
Definition printable (st : Statement) : Prop :=
  match st with
  | CreateTableValue s => name_ok_ (ct_name s) /\ ct_columns s <> [] /\ Forall column_def_ok (ct_columns s)
  | InsertValue s => name_ok_ (in_table s) /\ in_columns s <> [] /\ Forall name_ok_ (in_columns s) /\
      Forall literal_ok (in_values s) /\ length (in_columns s) = length (in_values s)
  | SelectValue s => name_ok_ (se_table s) /\ Forall name_ok_ (se_columns s) /\
      (if se_all s then se_columns s = [] else se_columns s <> []) /\ Forall predicate_ok (se_where s)
  | _ => False
  end.

(** ** Their tokens are tokens *)

Lemma tok_name name : name_ok_ name -> token_ok (tok Tok.Identifier name).
Proof. by intros [? ?]. Qed.
Lemma tok_type kind : isColumnType kind = true \/ isComparison kind = true -> token_ok (fixed kind).
Proof. intros [H|H]; destruct kind; try discriminate H; (split; reflexivity) || reflexivity. Qed.
Lemma tok_literal l : literal_ok l -> token_ok (literal_token l).
Proof.
  destruct l as [kind value]. unfold literal_ok, literal_token. cbn [li_value li_kind]. destruct value as [|z|b|b|[]|]; intros H; try done.
  destruct H as [_ Hz]. unfold token_ok. cbn [class_of t_type t_text tok]. rewrite ParseInt_print by done. by eexists.
Qed.
Lemma joined_ok {A} (phrase : A -> list Token) separator l : token_ok (fixed separator) ->
  Forall (fun a => Forall token_ok (phrase a)) l -> Forall token_ok (joined phrase separator l).
Proof.
  intros Hs H. induction H as [|a l Ha Hl IH]; [constructor|]. destruct l as [|b l]; [done|].
  cbn [joined] in *. apply Forall_app. split; [done|]. by constructor.
Qed.
Lemma column_tokens_ok c : column_def_ok c -> Forall token_ok (column_tokens c).
Proof.
  intros (Hn & Ht & _). unfold column_tokens. apply Forall_app. split.
  { constructor; [by apply tok_name|]. constructor; [by apply tok_type; left|constructor]. }
  destruct (cd_primaryKey c); [|destruct (cd_notNull c)]; repeat constructor.
Qed.
Lemma predicate_tokens_ok p : predicate_ok p -> Forall token_ok (predicate_tokens p).
Proof.
  intros (Hn & Ho & Hl). constructor; [by apply tok_name|]. constructor; [by apply tok_type; right|].
  constructor; [by apply tok_literal|constructor].
Qed.
Lemma names_ok l : Forall name_ok_ l -> Forall (fun a => Forall token_ok (name_tokens a)) l.
Proof. intros H. eapply Forall_impl; [exact H|]. intros a Ha. constructor; [by apply tok_name|constructor]. Qed.

(** The words and punctuation of the grammar. *)
Lemma fixed_ok kinds : forallb (fun k => negb (teqb k Tok.Illegal || teqb k Tok.EOF || teqb k Tok.Identifier || teqb k Tok.String ||
  teqb k Tok.Integer)) kinds = true -> Forall token_ok (map fixed kinds).
Proof.
  induction kinds as [|k kinds IH]; cbn [map forallb]; [constructor|]. intros [Hk H]%andb_true_iff. constructor; [|by apply IH].
  destruct k; try discriminate Hk; (split; reflexivity) || reflexivity.
Qed.
Lemma statement_tokens_ok st : printable st -> Forall token_ok (statement_tokens st).
Proof.
  destruct st as [|s|s|s| | | |]; try done; cbn [printable statement_tokens].
  - intros (Hn & _ & Hc). apply Forall_app. split; [apply (Forall_app _ (map fixed [Tok.Create; Tok.Table]) [_; _])|]; [split|].
    + by apply fixed_ok.
    + constructor; [by apply tok_name|by apply (fixed_ok [Tok.LParen])].
    + apply Forall_app. split; [|by apply (fixed_ok [Tok.RParen])]. apply joined_ok; [done|].
      eapply Forall_impl; [exact Hc|]. apply column_tokens_ok.
  - intros (Hn & _ & Hc & Hv & _). apply Forall_app. split; [apply (Forall_app _ (map fixed [Tok.Insert; Tok.Into]) [_; _])|]; [split|].
    + by apply fixed_ok.
    + constructor; [by apply tok_name|by apply (fixed_ok [Tok.LParen])].
    + apply Forall_app. split; [by apply joined_ok, names_ok|]. apply Forall_app. split; [by apply (fixed_ok [Tok.RParen; Tok.Values; Tok.LParen])|].
      apply Forall_app. split; [|by apply (fixed_ok [Tok.RParen])]. apply joined_ok; [done|].
      eapply Forall_impl; [exact Hv|]. intros l Hl. constructor; [by apply tok_literal|constructor].
  - intros (Hn & Hc & _ & Hw). constructor; [by apply (Forall_inv (fixed_ok [Tok.Select] eq_refl))|]. apply Forall_app. split.
    { destruct (se_all s); [by apply (fixed_ok [Tok.Star])|by apply joined_ok, names_ok]. }
    constructor; [by apply (Forall_inv (fixed_ok [Tok.From] eq_refl))|]. constructor; [by apply tok_name|].
    destruct (se_where s) as [|p ps]; [constructor|]. constructor; [by apply (Forall_inv (fixed_ok [Tok.Where] eq_refl))|].
    apply joined_ok; [done|]. eapply Forall_impl; [exact Hw|]. apply predicate_tokens_ok.
Qed.

(** ** Their tokens derive them *)

(** The tokens derive [a] wherever they stand. *)
Definition derives {A} (phrase : list Token -> A -> Prop) (ts : list Token) (a : A) : Prop := forall pos, phrase (place pos ts) a.

Lemma joined_derives {A} (phrase : list Token -> A -> Prop) (tokens : A -> list Token) separator l : l <> [] ->
  Forall (fun a => derives phrase (tokens a) a) l -> derives (g_list phrase separator) (joined tokens separator l) l.
Proof.
  intros Hl H. induction H as [|a l Ha _ IH]; [done|]. destruct l as [|b l]; intros pos; [constructor; apply Ha|].
  change (joined tokens separator (a :: b :: l)) with (tokens a ++ fixed separator :: joined tokens separator (b :: l)).
  destruct (place_app (tokens a) (fixed separator :: joined tokens separator (b :: l)) pos) as [p ->]. cbn [place].
  constructor; [apply Ha|done|by apply IH].
Qed.
Lemma name_derives name : derives g_name (name_tokens name) name.
Proof. intros pos. by constructor. Qed.
Lemma literal_derives l : literal_ok l -> forall pos, g_literal (mkToken (t_type (literal_token l)) (t_text (literal_token l)) pos) l.
Proof.
  destruct l as [kind value]. unfold literal_ok, literal_token. cbn [li_value li_kind].
  destruct value as [|z|b|b|[]|]; intros H pos; try done; try subst kind.
  - by apply g_null.
  - destruct H as [-> Hz]. apply g_integer; [done|]. by apply ParseInt_print.
  - by apply (g_string (mkToken Tok.String b pos)).
  - by apply g_true.
  - by apply g_false.
Qed.
Lemma value_derives l : literal_ok l -> derives g_value [literal_token l] l.
Proof. intros H pos. constructor. by apply literal_derives. Qed.
Lemma predicate_derives p : predicate_ok p -> derives g_predicate (predicate_tokens p) p.
Proof. intros (Hn & Ho & Hl) pos. destruct p as [c op v]. cbn. constructor; [done|done|by apply literal_derives]. Qed.
Lemma column_at tn name t ty cs pk nn nn' : names tn name -> t_type t = ty -> isColumnType ty = true -> g_constraints false false cs pk nn ->
  nn' = pk || nn -> g_column (tn :: t :: cs) (mkColumnDefinition name ty pk nn').
Proof. intros Hn <- Ht Hc ->. by constructor. Qed.
Lemma column_derives c : column_def_ok c -> derives g_column (column_tokens c) c.
Proof.
  intros (Hn & Ht & Hpk) pos. destruct c as [name ty pk nn]. unfold column_tokens. cbn [cd_name cd_type cd_primaryKey cd_notNull] in *.
  destruct pk.
  - rewrite (Hpk eq_refl). cbn [app place]. apply (column_at _ _ _ _ _ _ false); try done. by repeat constructor.
  - destruct nn; cbn [app place]; [apply (column_at _ _ _ _ _ _ true)|apply (column_at _ _ _ _ _ _ false)]; try done;
      by repeat constructor.
Qed.

(** Splits the tokens of a concatenation. *)
Ltac split_place :=
  match goal with
  | |- context [place ?p (?a ++ ?b)] => let q := fresh "pos" in destruct (place_app a b p) as [q ->]; cbn [app place]
  end.

Lemma statement_derives st : printable st -> derives g_statement (statement_tokens st) st.
Proof.
  destruct st as [|[name columns]|[name columns values]|[name columns all ps]| | | |]; try done;
    cbn [printable statement_tokens ct_name ct_columns in_table in_columns in_values se_table se_columns se_all se_where];
    intros H pos; cbn [app place].
  - destruct H as (Hn & Hne & Hc). split_place.
    eapply (g_create_table _ _ _ name _ _ columns _ []); try done; [|constructor].
    apply joined_derives; [done|]. eapply Forall_impl; [exact Hc|]. apply column_derives.
  - destruct H as (Hn & Hne & Hc & Hv & Hl). split_place. split_place.
    eapply (g_insert _ _ _ name _ _ columns _ _ _ _ values _ []); try done; [| |constructor].
    + apply joined_derives; [done|]. eapply Forall_impl; [exact Hc|]. intros; apply name_derives.
    + apply joined_derives; [by destruct columns, values|]. eapply Forall_impl; [exact Hv|]. apply value_derives.
  - destruct H as (Hn & Hc & Hsl & Hw). split_place. set (wh := match ps with [] => [] | _ => _ end).
    assert (Hwh : derives g_where wh ps).
    { intros p. unfold wh. destruct ps as [|q qs]; [constructor|]. cbn [place]. constructor; [done|]. apply joined_derives; [done|].
      eapply Forall_impl; [exact Hw|]. apply predicate_derives. }
    rewrite <- (app_nil_r (place _ wh)).
    eapply (g_select _ _ all columns _ _ name _ ps []); try done; [|constructor].
    destruct all; [subst columns; by constructor|]. constructor. apply joined_derives; [done|].
    eapply Forall_impl; [exact Hc|]. intros; apply name_derives.
Qed.

(** ** Reading them back *)

Lemma Parse_print_ok st : printable st -> Parse (print st) = Ok st.
Proof.
  intros H. destruct (render_lexed (statement_tokens st) (statement_tokens_ok st H) 0 [] eq_refl) as [e He]. cbn [app] in He.
  change (0 + len (@nil byte)) with 0 in He. unfold Parse, print. rewrite (proj2 (Lex_lexed _ _) He).
  apply Parse_derived; [by apply statement_derives|]. destruct (lexed_ends _ _ _ He) as (ts & e' & Heq & _ & ->).
  by apply app_inj_tail in Heq as [_ ->].
Qed.

(** ** What the parser returns can be written *)

Lemma named_ok t name : names t name -> token_ok t -> name_ok_ name.
Proof. intros [Ht <-] Hok. unfold isa in Ht. unfold token_ok in Hok. rewrite Ht in Hok. done. Qed.
Lemma g_list_printable {A} (phrase : list Token -> A -> Prop) separator ts l (Q : A -> Prop) :
  (forall ts a, phrase ts a -> Forall token_ok ts -> Q a) -> g_list phrase separator ts l -> Forall token_ok ts -> l <> [] /\ Forall Q l.
Proof.
  intros HQ H. induction H as [ts a Ha|ts a t ts' l Ha _ Hl IH]; intros Hts.
  - split; [done|]. constructor; [by eapply HQ|constructor].
  - apply Forall_app in Hts as [H1 H2]. apply Forall_cons in H2 as [_ H2]. split; [done|].
    constructor; [by eapply HQ|]. by apply IH.
Qed.
Lemma g_literal_printable t l : g_literal t l -> literal_ok l.
Proof. intros [t' _|t' n _ Hn|t' _|t' _|t' _]; cbn; try done. split; [done|]. by apply ParseInt_range in Hn. Qed.
Lemma g_value_printable ts l : g_value ts l -> Forall token_ok ts -> literal_ok l.
Proof. intros [t v Hl] _. by eapply g_literal_printable. Qed.
Lemma g_name_printable ts name : g_name ts name -> Forall token_ok ts -> name_ok_ name.
Proof. intros [t n Hn] H. apply Forall_cons in H as [H _]. by eapply named_ok. Qed.
Lemma g_column_printable ts c : g_column ts c -> Forall token_ok ts -> column_def_ok c.
Proof.
  intros [tn name ty cs pk nn Hn Ht _] H. apply Forall_cons in H as [H _]. split_and!; [by eapply named_ok|done|]. cbn. by intros ->.
Qed.
Lemma g_predicate_printable ts p : g_predicate ts p -> Forall token_ok ts -> predicate_ok p.
Proof.
  intros [tn name op t v Hn Ho Hl] H. apply Forall_cons in H as [H _].
  split_and!; [by eapply named_ok|done|by eapply g_literal_printable].
Qed.
Lemma g_statement_printable ts st : g_statement ts st -> Forall token_ok ts -> printable st.
Proof.
  intros G H. destruct G as [t1 t2 tn name t3 cs columns t4 semi _ _ Hn _ Hc _ _
    |t1 t2 tn name t3 cs columns t4 t5 t6 vs values t7 semi _ _ Hn _ Hc _ _ _ Hv _ _ Hl
    |t1 sl all columns t2 tn name wh ps semi _ Hsl _ Hn Hw _];
    rewrite ?Forall_app, ?Forall_cons in H; cbn [printable ct_name ct_columns in_table in_columns in_values se_table se_columns se_all se_where].
  - destruct H as ((_ & _ & Ht & _) & Hcs & _). destruct (g_list_printable _ _ _ _ column_def_ok g_column_printable Hc Hcs) as [? ?].
    split_and!; [by eapply named_ok|done|done].
  - destruct H as ((_ & _ & Ht & _) & Hcs & _ & Hvs & _).
    destruct (g_list_printable _ _ _ _ name_ok_ g_name_printable Hc Hcs) as [? ?].
    destruct (g_list_printable _ _ _ _ literal_ok g_value_printable Hv Hvs) as [_ ?].
    split_and!; [by eapply named_ok|done..].
  - destruct H as (_ & Hs & (_ & Ht & _) & Hwh & _). split; [by eapply named_ok|].
    assert (Hwhere : Forall predicate_ok ps).
    { destruct Hw as [|t ts ps _ Hps]; [constructor|]. apply Forall_cons in Hwh as [_ Hwh].
      by apply (g_list_printable _ _ _ _ predicate_ok g_predicate_printable Hps). }
    destruct Hsl as [t _|ts cs Hl]; [done|]. by destruct (g_list_printable _ _ _ _ name_ok_ g_name_printable Hl Hs).
Qed.
