(* ===== verification/SqlExec.v ===== *)
(** * Executing SQL statements (src/internal/sql/executor.go)

    CREATE TABLE, INSERT and SELECT on a database, through the table operations
    of package db. *)

From S2P Require Import Prelude Errors Codec Engine Database Table SqlLexer SqlParser.

(** ** Errors *)

Inductive execerr : Type :=
| XParse (e : sqlerr)
| XDatabase (e : dberr)
| XNilDatabase
| XNilStatement
| XNilCreateTable
| XNilInsert
| XNilSelect
| XUnsupportedStatement
| XUnsupportedType (kind : Tok.TokenType)
| XInsertTable
| XInsertColumns
| XSelectTable
| XSelectColumns
| XUnknownColumn (name : bytes)
| XDuplicateColumn (name : bytes)
| XColumn (name : bytes) (e : execerr)
| XOmittedNullable (name : bytes)
| XMissingColumn (name : bytes)
| XNoPrimaryKey (table : bytes)
| XUnknownPredicateColumn (name : bytes)
| XUnsupportedOperator (op : Tok.TokenType)
| XPredicateColumn (name : bytes) (e : execerr)
| XPrimaryPredicate (e : execerr)
| XNullLiteral
| XIntegerLiteral
| XStringLiteral
| XBoolLiteral (kind : Tok.TokenType)
| XLiteralKind (kind : Tok.TokenType)
| XIncompatible (kind : Tok.TokenType) (columnType : Z).
Abbreviation xres := (outcome execerr).

(** ** Schemas and values *)

Fixpoint sqlFindColumn_in (cs : list Column) (name : bytes) : option Column :=
  match cs with
  | [] => None
  | c :: cs => if beqb (c_name c) name then Some c else sqlFindColumn_in cs name
  end.
Definition sqlFindColumn (schema : TableSchema) (name : bytes) : option Column := sqlFindColumn_in (s_columns schema) name.

Fixpoint primaryColumn_in (cs : list Column) : option Column :=
  match cs with
  | [] => None
  | c :: cs => if c_primary c then Some c else primaryColumn_in cs
  end.
Definition primaryColumn (schema : TableSchema) : option Column := primaryColumn_in (s_columns schema).

Definition databaseColumnType (kind : Tok.TokenType) : xres Z :=
  match kind with
  | Tok.Int64 => Ok ColumnInt64
  | Tok.StringType => Ok ColumnString
  | Tok.Bytes => Ok ColumnBytes
  | Tok.Bool => Ok ColumnBool
  | _ => Err (XUnsupportedType kind)
  end.

(** The first switch of [literalValue]: the value fits the literal's kind. *)
Definition checkLiteral (l : Literal) : xres unit :=
  match li_kind l with
  | Tok.Null => Err XNullLiteral
  | Tok.Integer => match li_value l with AInt64 _ => Ok tt | _ => Err XIntegerLiteral end
  | Tok.String => match li_value l with AString _ => Ok tt | _ => Err XStringLiteral end
  | Tok.True | Tok.False =>
      match li_value l with
      | ABool value => fail_if negb (Bool.eqb value (teqb (li_kind l) Tok.True)) with XBoolLiteral (li_kind l) ;; Ok tt
      | _ => Err (XBoolLiteral (li_kind l))
      end
  | kind => Err (XLiteralKind kind)
  end.
Definition literalValue (l : Literal) (columnType : Z) : xres any :=
  _ <- checkLiteral l ;;
  let incompatible := Err (XIncompatible (li_kind l) columnType) in
  if columnType =? ColumnInt64 then
    if teqb (li_kind l) Tok.Integer then Ok (li_value l) else incompatible
  else if columnType =? ColumnString then
    if teqb (li_kind l) Tok.String then Ok (li_value l) else incompatible
  else if columnType =? ColumnBytes then
    if teqb (li_kind l) Tok.String then
      match li_value l with AString s => Ok (ABytes s) | _ => Panic end
    else incompatible
  else if columnType =? ColumnBool then
    if teqb (li_kind l) Tok.True || teqb (li_kind l) Tok.False then Ok (li_value l) else incompatible
  else incompatible.

(** ** Predicates *)

(** [strings.Compare] and [bytes.Compare]. *)
Definition Compare (a b : bytes) : Z := match bcmp a b with Lt => -1 | Eq => 0 | Gt => 1 end.

Definition order_of (left right : any) : option Z :=
  match left, right with
  | AInt64 a, AInt64 b => Some (if a <? b then -1 else if a >? b then 1 else 0)
  | AString a, AString b => Some (Compare a b)
  | ABytes a, ABytes b => Some (Compare a b)
  | ABool a, ABool b => Some (if Bool.eqb a b then 0 else if a then 1 else -1)
  | _, _ => None
  end.
Definition compare (left right : any) (operator : Tok.TokenType) : bool :=
  match order_of left right with
  | None => false
  | Some order =>
      match operator with
      | Tok.Equal => order =? 0
      | Tok.NotEqual => negb (order =? 0)
      | Tok.Less => order <? 0
      | Tok.LessEqual => order <=? 0
      | Tok.Greater => order >? 0
      | Tok.GreaterEqual => order >=? 0
      | _ => false
      end
  end.

Fixpoint row_matches (r : row) (predicates : list Predicate) (schema : TableSchema) : bool :=
  match predicates with
  | [] => true
  | p :: predicates =>
      match sqlFindColumn schema (pr_column p) with
      | None => false
      | Some column =>
          match literalValue (pr_value p) (c_type column) with
          | Ok value => if compare (row_get r (pr_column p)) value (pr_op p) then row_matches r predicates schema else false
          | _ => false
          end
      end
  end.

Definition project (r : row) (columns : list bytes) : row :=
  fold_left (fun projected column => <[column := row_get r column]> projected) columns ∅.

(** The validation loop of [executeSelect]. *)
Fixpoint validatePredicates (schema : TableSchema) (predicates : list Predicate) : xres unit :=
  match predicates with
  | [] => Ok tt
  | p :: predicates =>
      match sqlFindColumn schema (pr_column p) with
      | None => Err (XUnknownPredicateColumn (pr_column p))
      | Some column =>
          fail_if negb (isComparison (pr_op p)) with XUnsupportedOperator (pr_op p) ;;
          _ <- map_err (XPredicateColumn (pr_column p)) (literalValue (pr_value p) (c_type column)) ;;
          validatePredicates schema predicates
      end
  end.
(** The projection check of [executeSelect]. *)
Fixpoint checkColumns (schema : TableSchema) (columns : list bytes) : xres unit :=
  match columns with
  | [] => Ok tt
  | name :: columns =>
      match sqlFindColumn schema name with
      | None => Err (XUnknownColumn name)
      | Some _ => checkColumns schema columns
      end
  end.

(** The first loop of [selectRows]: the first equality on the primary key. *)
Fixpoint equalKey (primary : Column) (predicates : list Predicate) : xres (option any) :=
  match predicates with
  | [] => Ok None
  | p :: predicates =>
      if negb (beqb (pr_column p) (c_name primary)) || negb (teqb (pr_op p) Tok.Equal) then equalKey primary predicates
      else
        key <- map_err XPrimaryPredicate (literalValue (pr_value p) (c_type primary)) ;;
        Ok (Some key)
  end.
(** The second loop: the tightest bounds; nil is [ANil]. *)
Definition is_nil (v : any) : bool := match v with ANil => true | _ => false end.
Fixpoint keyBounds (primary : Column) (predicates : list Predicate) (lower upper : any) : xres (any * any) :=
  match predicates with
  | [] => Ok (lower, upper)
  | p :: predicates =>
      if negb (beqb (pr_column p) (c_name primary)) then keyBounds primary predicates lower upper
      else
        match pr_op p with
        | Tok.Greater | Tok.GreaterEqual | Tok.Less | Tok.LessEqual =>
            value <- map_err XPrimaryPredicate (literalValue (pr_value p) (c_type primary)) ;;
            if teqb (pr_op p) Tok.Greater || teqb (pr_op p) Tok.GreaterEqual then
              keyBounds primary predicates (if is_nil lower || compare value lower Tok.Greater then value else lower) upper
            else
              keyBounds primary predicates lower (if is_nil upper || compare value upper Tok.Less then value else upper)
        | _ => keyBounds primary predicates lower upper
        end
  end.

(** The row loop of [executeInsert]; columns and values have equal length. *)
Fixpoint buildRow (schema : TableSchema) (columns : list bytes) (values : list Literal) (r : row) : xres row :=
  match columns, values with
  | [], _ => Ok r
  | name :: columns, value :: values =>
      match sqlFindColumn schema name with
      | None => Err (XUnknownColumn name)
      | Some column =>
          fail_if bool_decide (is_Some (r !! name)) with XDuplicateColumn name ;;
          v <- map_err (XColumn name) (literalValue value (c_type column)) ;;
          buildRow schema columns values (<[name := v]> r)
      end
  | _ :: _, [] => Panic
  end.
(** The loop over the columns that must be supplied. *)
Fixpoint checkSupplied (cs : list Column) (r : row) : xres unit :=
  match cs with
  | [] => Ok tt
  | c :: cs =>
      match r !! c_name c with
      | None => Err (if c_nullable c then XOmittedNullable (c_name c) else XMissingColumn (c_name c))
      | Some _ => checkSupplied cs r
      end
  end.

Fixpoint createColumns (columns : list ColumnDefinition) : xres (list Column) :=
  match columns with
  | [] => Ok []
  | c :: columns =>
      columnType <- databaseColumnType (cd_type c) ;;
      cs <- createColumns columns ;;
      Ok (mkColumn (cd_name c) columnType (cd_primaryKey c) (negb (cd_notNull c) && negb (cd_primaryKey c)) :: cs)
  end.

Section Exec.
Context {S : Type} (eng : Store S) (order : gmap bytes Index -> list Index).
Abbreviation XM := (stM (Database S) execerr).

(** A call into package db. *)
Definition from_db {A} (m : stM (Database S) dberr A) : XM A := fun d =>
  let '(r, d') := m d in (map_err XDatabase r, d').
(** A method of the handle the statement has just opened. *)
Definition with_table {A} (t : Table) (m : stM (Database S * Table) dberr A) : XM A := fun d =>
  let '(r, (d', _)) := m (d, t) in (map_err XDatabase r, d').

(** [Result.Rows]. *)
Abbreviation Result := (list row).

Definition executeCreateTable (statement : CreateTableStatement) : XM Result :=
  columns <! createColumns (ct_columns statement) ;;
  _ <~ from_db (CreateTable eng (mkSchema (ct_name statement) columns)) ;;
  ret [].

Definition executeInsert (statement : InsertStatement) : XM Result :=
  throw_if len (in_table statement) =? 0 with XInsertTable ;;
  throw_if (len (in_columns statement) =? 0) || negb (len (in_columns statement) =? len (in_values statement)) with XInsertColumns ;;
  table <~ from_db (OpenTable eng (in_table statement)) ;;
  let schema := t_schema table in
  r <! buildRow schema (in_columns statement) (in_values statement) ∅ ;;
  _ <! checkSupplied (s_columns schema) r ;;
  _ <~ with_table table (Table_Insert eng order r) ;;
  ret [].

Definition selectRows (table : Table) (primary : Column) (predicates : list Predicate) : XM (list row) :=
  key <! equalKey primary predicates ;;
  match key with
  | Some key =>
      r <~ from_db (Table_Get eng table key) ;;
      ret (match r with Some r => [r] | None => [] end)
  | None =>
      '(lower, upper) <! keyBounds primary predicates ANil ANil ;;
      if negb (is_nil lower) && negb (is_nil upper) then from_db (Table_Range eng table lower upper)
      else from_db (Table_Scan eng table)
  end.

Definition executeSelect (statement : SelectStatement) : XM Result :=
  throw_if len (se_table statement) =? 0 with XSelectTable ;;
  throw_if se_all statement && negb (len (se_columns statement) =? 0) || negb (se_all statement) && (len (se_columns statement) =? 0)
    with XSelectColumns ;;
  table <~ from_db (OpenTable eng (se_table statement)) ;;
  let schema := t_schema table in
  _ <! (if negb (se_all statement) then checkColumns schema (se_columns statement) else Ok tt) ;;
  match primaryColumn schema with
  | None => throw (XNoPrimaryKey (se_table statement))
  | Some primary =>
      _ <! validatePredicates schema (se_where statement) ;;
      rows <~ selectRows table primary (se_where statement) ;;
      ret (map (fun r => if negb (se_all statement) then project r (se_columns statement) else r)
             (List.filter (fun r => row_matches r (se_where statement) schema) rows))
  end.

(** [nil_database]: the database pointer is nil. *)
Definition Execute (nil_database : bool) (statement : Statement) : XM Result :=
  throw_if nil_database with XNilDatabase ;;
  match statement with
  | NilStatement => throw XNilStatement
  | CreateTablePointer None => throw XNilCreateTable
  | CreateTablePointer (Some st) => executeCreateTable st
  | InsertPointer None => throw XNilInsert
  | InsertPointer (Some st) => executeInsert st
  | SelectPointer None => throw XNilSelect
  | SelectPointer (Some st) => executeSelect st
  | CreateTableValue st => executeCreateTable st
  | InsertValue st => executeInsert st
  | SelectValue st => executeSelect st
  | OtherStatement => throw XUnsupportedStatement
  end.

Definition Exec (nil_database : bool) (input : bytes) : XM Result :=
  st <! map_err XParse (Parse input) ;;
  Execute nil_database st.
End Exec.
