(* ===== verification/SqlExecSpec.v ===== *)
(** * Executing SELECT and INSERT on a consistent table

    The lemmas behind the results on src/internal/sql/executor.go: literals and
    comparisons, the bounds that choose an access path, and the rows an INSERT
    builds. *)

From S2P Require Import Prelude KvList Errors Codec CodecSpec Page PageManager KV KVSpec KVResults Engine Database DatabaseSpec.
From S2P Require Import Table TableSpec RowSpec MutationSpec CatalogSpec QuerySpec CreateIndexSpec TableResults QueryResults.
From S2P Require Import SqlLexer SqlLexerSpec SqlParser SqlParserSpec SqlExec.

(** ** Columns and literals *)

Lemma sqlFindColumn_same s name : sqlFindColumn s name = findColumn s name.
Proof. reflexivity. Qed.
Lemma primaryColumn_ok s : schema_ok s -> primaryColumn s = Some (findPrimary s).
Proof.
  intros Hs. destruct (findPrimary_spec s Hs) as [[Hp _] _]. revert Hp. unfold primaryColumn, findPrimary.
  induction (s_columns s) as [|c cs IH]; cbn [findPrimary_in primaryColumn_in]; [done|]. by destruct (c_primary c).
Qed.
Lemma findColumn_own s c : schema_ok s -> c ∈ s_columns s -> findColumn s (c_name c) = Some c.
Proof.
  intros Hs Hc. pose proof (so_names _ Hs) as Hn. revert Hc Hn. unfold findColumn.
  induction (s_columns s) as [|d cs IH]; [by intros ?%not_elem_of_nil|]. cbn [findColumn_in map].
  intros [->|Hc]%elem_of_cons [Hd Hn]%NoDup_cons; [by rewrite beqb_refl|].
  destruct (beqb (c_name d) (c_name c)) eqn:E; [|by apply IH]. exfalso. bool_order. apply Hd. rewrite E.
  apply list_elem_of_fmap. eauto.
Qed.
Lemma findColumn_primary s : schema_ok s -> findColumn s (c_name (findPrimary s)) = Some (findPrimary s).
Proof. intros Hs. apply findColumn_own; [done|]. by apply findPrimary_spec. Qed.

(** A literal's value has the column's type. *)
Lemma literalValue_ok l ty :
  gives (literalValue l ty) (fun v => (any_ok (li_value l) -> any_ok v) /\
    ((ty = ColumnInt64 /\ exists z, v = AInt64 z) \/ (ty = ColumnString /\ exists b, v = AString b) \/
     (ty = ColumnBytes /\ exists b, v = ABytes b) \/ (ty = ColumnBool /\ exists b, v = ABool b))).
Proof.
  destruct l as [kind value]. unfold literalValue, checkLiteral. cbn [li_kind li_value].
  destruct (ty =? ColumnInt64) eqn:E1; [|destruct (ty =? ColumnString) eqn:E2; [|destruct (ty =? ColumnBytes) eqn:E3;
    [|destruct (ty =? ColumnBool) eqn:E4]]]; zbool; subst;
  destruct kind; cbn; try done; destruct value; cbn; try done; repeat case_match; cbn; try done; naive_solver.
Qed.
Lemma literal_primary s l v : schema_ok s -> literalValue l (c_type (findPrimary s)) = Ok v ->
  exists e, encodeValue (findPrimary s) v = Ok e.
Proof.
  intros Hs Hl. destruct (findPrimary_spec s Hs) as [Hp _]. pose proof Hp as [_ Ht].
  pose proof (literalValue_ok l (c_type (findPrimary s))) as H. rewrite Hl in H. cbn in H. destruct H as [_ H].
  destruct H as [(E & z & ->)|[(E & b & ->)|[(E & b & ->)|(E & b & ->)]]].
  - exists (encodeInt z). apply encodePrimary; [done|]. left. eauto.
  - exists b. apply encodePrimary; [done|]. by right.
  - by destruct Ht as [T|T]; rewrite T in E.
  - by destruct Ht as [T|T]; rewrite T in E.
Qed.

(** ** Comparisons *)

Definition sign_of (c : comparison) : Z := match c with Lt => -1 | Eq => 0 | Gt => 1 end.

Lemma order_primary s v w a b :
  schema_ok s -> encodeValue (findPrimary s) v = Ok a -> encodeValue (findPrimary s) w = Ok b ->
  order_of v w = Some (sign_of (pk_cmp v w)).
Proof.
  intros Hs Ha Hb. destruct (findPrimary_spec s Hs) as [Hp _]. apply encodePrimary in Ha, Hb; [|done..].
  destruct Ha as [(T1 & z1 & -> & ->)|(T1 & ->)], Hb as [(T2 & z2 & -> & ->)|(T2 & ->)]; rewrite T1 in T2; try discriminate T2.
  - cbn. f_equal. rewrite Z.gtb_ltb. unfold Z.ltb. rewrite (Z.compare_antisym z1 z2). by destruct (z1 ?= z2).
  - done.
Qed.
Lemma compare_bounds s v w a b : schema_ok s -> encodeValue (findPrimary s) v = Ok a -> encodeValue (findPrimary s) w = Ok b ->
  any_ok v -> any_ok w ->
  (compare v w Tok.Greater = true \/ compare v w Tok.GreaterEqual = true -> pk_leb w v = true) /\
  (compare v w Tok.Less = true \/ compare v w Tok.LessEqual = true -> pk_leb v w = true) /\
  compare v w Tok.Equal = beqb a b.
Proof.
  intros Hs Ha Hb Hv Hw. unfold compare. rewrite (order_primary s v w a b) by done. unfold pk_leb, beqb.
  rewrite !(pk_cmp_encoded s v w a b), (pk_cmp_encoded s w v b a) by done. rewrite (bcmp_antisym a b).
  destruct (bcmp a b); cbn; split_and!; naive_solver.
Qed.

(** ** Validated predicates *)

Section Predicates.
Context (s : TableSchema) (Hs : schema_ok s).
Abbreviation pk := (c_name (findPrimary s)).
Abbreviation pkType := (c_type (findPrimary s)).

(** A predicate on the primary key, with its value. *)
Definition key_predicate (p : Predicate) (v : any) : Prop :=
  pr_column p = pk /\ literalValue (pr_value p) pkType = Ok v.

Lemma validated_key ps p : validatePredicates s ps = Ok tt -> p ∈ ps -> pr_column p = pk -> exists v, key_predicate p v.
Proof.
  intros Hv Hp Hk. induction ps as [|q ps IH]; [by apply not_elem_of_nil in Hp|]. cbn [validatePredicates] in Hv.
  rewrite sqlFindColumn_same in Hv. destruct (findColumn s (pr_column q)) as [c|] eqn:Ec; [|done].
  destruct (isComparison (pr_op q)); cbn [negb] in Hv; [|done].
  destruct (literalValue (pr_value q) (c_type c)) as [v|e| |] eqn:El; cbn [map_err] in Hv; try done.
  apply elem_of_cons in Hp as [->|Hp]; [|by apply IH]. exists v. split; [done|].
  rewrite Hk, (findColumn_primary s Hs) in Ec. by injection Ec as ->.
Qed.
Lemma matches_key r ps p v : row_matches r ps s = true -> p ∈ ps -> key_predicate p v -> compare (row_get r pk) v (pr_op p) = true.
Proof.
  intros Hm Hp [Hk Hl]. induction ps as [|q ps IH]; [by apply not_elem_of_nil in Hp|]. cbn [row_matches] in Hm.
  rewrite sqlFindColumn_same in Hm. destruct (findColumn s (pr_column q)) as [c|] eqn:Ec; [|done].
  destruct (literalValue (pr_value q) (c_type c)) as [w|e| |] eqn:El; try done.
  destruct (compare (row_get r (pr_column q)) w (pr_op q)) eqn:E; [|done]. apply elem_of_cons in Hp as [->|Hp]; [|by apply IH].
  rewrite Hk, (findColumn_primary s Hs) in Ec. injection Ec as <-. rewrite Hl in El. injection El as <-. by rewrite Hk in E.
Qed.

Lemma equalKey_ok ps : validatePredicates s ps = Ok tt ->
  exists o, equalKey (findPrimary s) ps = Ok o /\ forall key, o = Some key -> exists p, p ∈ ps /\ pr_op p = Tok.Equal /\ key_predicate p key.
Proof.
  intros Hv. assert (H : forall qs, qs ⊆ ps -> exists o, equalKey (findPrimary s) qs = Ok o /\
    forall key, o = Some key -> exists p, p ∈ qs /\ pr_op p = Tok.Equal /\ key_predicate p key); [|by apply H].
  induction qs as [|q qs IH]; intros Hsub; cbn [equalKey]; [by exists None|].
  destruct (beqb (pr_column q) pk) eqn:Eb; cbn [negb orb]; [destruct (teqb (pr_op q) Tok.Equal) eqn:Eo; cbn [negb]|].
  - bool_order. apply teqb_true in Eo. destruct (validated_key ps q Hv) as [v [Hk Hl]]; [apply Hsub; left|done|].
    rewrite Hl. exists (Some v). split; [done|]. intros key [= <-]. exists q. split; [left|done].
  - destruct IH as (o & -> & Ho); [set_solver|]. exists o. split; [done|]. intros key Hkey. destruct (Ho key Hkey) as (p & ? & ?). exists p. set_solver.
  - destruct IH as (o & -> & Ho); [set_solver|]. exists o. split; [done|]. intros key Hkey. destruct (Ho key Hkey) as (p & ? & ?). exists p. set_solver.
Qed.

(** A bound is unset or comes from a predicate with one of the operators. *)
Definition bound_from (ps : list Predicate) (ops : list Tok.TokenType) (v : any) : Prop :=
  v = ANil \/ exists p, p ∈ ps /\ pr_op p ∈ ops /\ key_predicate p v.
Abbreviation lowers := [Tok.Greater; Tok.GreaterEqual].
Abbreviation uppers := [Tok.Less; Tok.LessEqual].

Lemma keyBounds_ok ps : validatePredicates s ps = Ok tt -> forall qs lower upper, qs ⊆ ps ->
  bound_from ps lowers lower -> bound_from ps uppers upper ->
  exists lo hi, keyBounds (findPrimary s) qs lower upper = Ok (lo, hi) /\ bound_from ps lowers lo /\ bound_from ps uppers hi.
Proof.
  intros Hv. induction qs as [|q qs IH]; intros lower upper Hsub Hlo Hhi; cbn [keyBounds]; [by exists lower, upper|].
  assert (Hsub' : qs ⊆ ps) by set_solver.
  destruct (beqb (pr_column q) pk) eqn:Eb; cbn [negb]; [|by apply IH]. bool_order.
  destruct (validated_key ps q Hv) as [v [Hk Hl]]; [apply Hsub; left|done|].
  assert (Hq : forall ops, pr_op q ∈ ops -> bound_from ps ops v) by (intros ops Ho; right; exists q; split; [apply Hsub; left|done]).
  destruct (pr_op q) eqn:Eo; try (by apply IH); rewrite Hl; cbn [map_err].
  all: change (teqb Tok.Greater Tok.Greater) with true; change (teqb Tok.GreaterEqual Tok.GreaterEqual) with true;
    change (teqb Tok.Less Tok.Greater || teqb Tok.Less Tok.GreaterEqual) with false;
    change (teqb Tok.LessEqual Tok.Greater || teqb Tok.LessEqual Tok.GreaterEqual) with false; cbv iota; rewrite ?orb_true_r; cbn [orb].
  all: apply IH; [done| |]; try done; destruct (_ || _); try done; apply Hq; set_solver.
Qed.
End Predicates.

(** ** Access paths *)

Section Select.
Context {S : Type} (eng : Store S) {Sp : StoreSpec eng}.
Context (s : TableSchema) (idx : gmap bytes Index).
Implicit Types (d : Database S) (m : gmap bytes bytes).
Abbreviation P := (rowPrefix (s_name s)).
Abbreviation pk := (c_name (findPrimary s)).

(** The values compared with the primary key are not too long to be keys. *)
Definition keys_fit (ps : list Predicate) : Prop := forall p v,
  p ∈ ps -> pr_op p <> Tok.NotEqual -> key_predicate s p v -> exists k, rowKey s v = Ok k.
(** Literals hold Go values: an integer is an int64. *)
Definition literals_ok (ls : list Literal) : Prop := Forall (fun l => any_ok (li_value l)) ls.
Abbreviation values_of ps := (map pr_value ps).

Lemma key_value_ok ps p v : literals_ok (values_of ps) -> p ∈ ps -> key_predicate s p v -> any_ok v.
Proof.
  intros Hok Hp [_ Hl]. pose proof (literalValue_ok (pr_value p) (c_type (findPrimary s))) as H. rewrite Hl in H. apply H.
  unfold literals_ok in Hok. rewrite Forall_forall in Hok. apply Hok, list_elem_of_fmap. eauto.
Qed.

(** A stored row satisfies a predicate as its key compares. *)
Lemma scan_bounds l rows v e : schema_ok s -> Forall2 (stores s) l rows -> any_ok v -> encodeValue (findPrimary s) v = Ok e ->
  Forall (fun r => (compare (row_get r pk) v Tok.Greater = true \/ compare (row_get r pk) v Tok.GreaterEqual = true -> pk_leb v (row_get r pk) = true) /\
    (compare (row_get r pk) v Tok.Less = true \/ compare (row_get r pk) v Tok.LessEqual = true -> pk_leb (row_get r pk) v = true)) rows.
Proof.
  intros Hs HF Hv He. apply Forall_forall. intros r Hr. apply list_elem_of_lookup in Hr as [i Hi].
  destruct (Forall2_lookup_r _ _ _ _ _ HF Hi) as (x & _ & Hst). destruct (stores_key s x r Hs Hst) as (k & _ & Hok & Henc).
  by destruct (compare_bounds s (row_get r pk) v k e) as (? & ? & _).
Qed.

(** Filtering first by what the second filter implies changes nothing. *)
Lemma filter_weaker {A} (f g : A -> bool) l : Forall (fun a => g a = true -> f a = true) l -> List.filter g (List.filter f l) = List.filter g l.
Proof.
  induction 1 as [|a l Ha _ IH]; [done|]. cbn [List.filter]. destruct (f a) eqn:Ef; cbn [List.filter]; rewrite IH; [done|].
  destruct (g a); [by discriminate (Ha eq_refl)|done].
Qed.

(** A point lookup finds the rows of a scan with that key. *)
Lemma Get_scan d m t rows key k :
  holds eng d m -> consistent s idx m -> t_schema t = s -> Table_Scan eng t d = (Ok rows, d) -> any_ok key -> rowKey s key = Ok k ->
  exists o, Table_Get eng t key d = (Ok o, d) /\
    match o with Some r => [r] | None => [] end = List.filter (fun r => compare (row_get r pk) key Tok.Equal) rows.
Proof.
  intros Hd C Ht Hscan Hkey Hk. pose proof (cs_schema _ _ _ C) as Hs.
  destruct (scan_ok eng s idx d m t Hd C Ht) as (rows' & Hrows & HF). rewrite Hrows in Hscan. injection Hscan as ->.
  pose proof (rowKey_total s key) as T. rewrite Hk in T. destruct T as (e & He & -> & _).
  assert (HF' : Forall2 (stores s) (List.filter (fun x => beqb x.1 (P ++ e)) (with_prefix P (entries m)))
    (List.filter (fun r => compare (row_get r pk) key Tok.Equal) rows)).
  { apply filter_both; [|done]. intros x r Hst. destruct (stores_key s x r Hs Hst) as (k & Hx & Hok & Henc).
    destruct (compare_bounds s (row_get r pk) key k e) as (_ & _ & ->); try done. rewrite Hx. unfold beqb. by rewrite bcmp_app. }
  assert (Hone : List.filter (fun x => beqb x.1 (P ++ e)) (with_prefix P (entries m)) =
    match m !! (P ++ e) with Some val => [(P ++ e, val)] | None => [] end).
  { apply kv_sorted_eq; [apply kv_sorted_filter, with_prefix_sorted|destruct (m !! (P ++ e)); repeat constructor|].
    intros x v. rewrite list_elem_of_In, List.filter_In, <- list_elem_of_In, elem_with_prefix. cbn [fst]. split.
    - intros [[_ Hm] Hb]. bool_order. subst x. rewrite Hm. left.
    - destruct (m !! (P ++ e)) as [val|] eqn:Hm; [|by intros ?%not_elem_of_nil]. intros [= -> ->]%list_elem_of_singleton.
      rewrite beqb_refl. split; [|done]. split; [by exists e|done]. }
  rewrite Hone in HF'. pose proof (Table_Get_any eng s idx d m t key e Hd C Ht Hkey Hk) as G.
  destruct (m !! (P ++ e)) as [val|].
  - destruct G as (r & Hr & Henc & G). exists (Some (complete s r)). split; [done|].
    apply (Forall2_fun (stores s) [(P ++ e, val)]); [apply stores_fun| |exact HF']. repeat constructor. by exists e, r.
  - exists None. split; [done|]. by inversion HF'.
Qed.

(** Whatever access path [selectRows] chooses, the filtered rows are those of a
    full scan. *)
Lemma selectRows_scan d m t ps rows :
  holds eng d m -> consistent s idx m -> t_schema t = s -> Table_Scan eng t d = (Ok rows, d) ->
  validatePredicates s ps = Ok tt -> literals_ok (values_of ps) -> keys_fit ps ->
  exists found, selectRows eng t (findPrimary s) ps d = (Ok found, d) /\
    List.filter (fun r => row_matches r ps s) found = List.filter (fun r => row_matches r ps s) rows.
Proof.
  intros Hd C Ht Hscan Hv Hok Hfit. pose proof (cs_schema _ _ _ C) as Hs.
  destruct (scan_ok eng s idx d m t Hd C Ht) as (rows' & Hrows & HF). rewrite Hrows in Hscan. injection Hscan as ->.
  destruct (equalKey_ok s Hs ps Hv) as (o & Ho & Hkey). unfold selectRows. rewrite (bind_lift_ok _ _ _ _ Ho). destruct o as [key|].
  - destruct (Hkey key eq_refl) as (p & Hp & Hop & Hkp). destruct (Hfit p key Hp ltac:(by rewrite Hop) Hkp) as [k Hk].
    destruct (Get_scan d m t rows key k Hd C Ht Hrows (key_value_ok ps p key Hok Hp Hkp) Hk) as (o & Hget & Heq).
    exists (match o with Some r => [r] | None => [] end). split; [unfold bind, from_db; by rewrite Hget|]. rewrite Heq.
    apply filter_weaker, Forall_forall. intros r _ Hm. pose proof (matches_key s Hs r ps p key Hm Hp Hkp) as H. by rewrite Hop in H.
  - destruct (keyBounds_ok s Hs ps Hv ps ANil ANil) as (lo & hi & Hb & Hlo & Hhi); [done|by left..|].
    rewrite (bind_lift_ok _ _ _ _ Hb). destruct (negb (is_nil lo) && negb (is_nil hi)) eqn:En.
    2:{ exists rows. split; [unfold from_db; by rewrite Hrows|done]. }
    apply andb_true_iff in En as [Nl Nh].
    destruct Hlo as [->|(p & Hp & Pop & Pk)]; [done|]. destruct Hhi as [->|(q & Hq & Qop & Qk)]; [done|].
    destruct (Hfit p lo Hp ltac:(intros E; rewrite E in Pop; set_solver) Pk) as [klo Klo].
    destruct (Hfit q hi Hq ltac:(intros E; rewrite E in Qop; set_solver) Qk) as [khi Khi].
    pose proof (key_value_ok ps p lo Hok Hp Pk) as Olo. pose proof (key_value_ok ps q hi Hok Hq Qk) as Ohi.
    eexists. split; [unfold from_db; by rewrite (Table_Range_any eng s idx d m t lo hi klo khi rows)|].
    destruct (literal_primary s _ lo Hs (proj2 Pk)) as [elo Elo]. destruct (literal_primary s _ hi Hs (proj2 Qk)) as [ehi Ehi].
    pose proof (scan_bounds _ rows lo elo Hs HF Olo Elo) as B1. pose proof (scan_bounds _ rows hi ehi Hs HF Ohi Ehi) as B2.
    apply filter_weaker. apply Forall_forall. intros r Hr Hm. rewrite Forall_forall in B1, B2.
    pose proof (matches_key s Hs r ps p lo Hm Hp Pk) as M1. pose proof (matches_key s Hs r ps q hi Hm Hq Qk) as M2.
    destruct (B1 r Hr) as [G1 _], (B2 r Hr) as [_ G2]. rewrite G1, G2; [done| |].
    + apply elem_of_cons in Qop as [E|E%list_elem_of_singleton]; rewrite E in M2; auto.
    + apply elem_of_cons in Pop as [E|E%list_elem_of_singleton]; rewrite E in M1; auto.
Qed.

(** ** SELECT *)

(** What an accepted SELECT returns: the projected rows of a scan that satisfy
    every predicate. *)
Definition answer (st : SelectStatement) (rows : list row) : list row :=
  map (fun r => if negb (se_all st) then project r (se_columns st) else r) (List.filter (fun r => row_matches r (se_where st) s) rows).

Record select_ok (st : SelectStatement) : Prop := {
  sl_table : se_table st = s_name s;
  sl_list : if se_all st then se_columns st = [] else se_columns st <> [];
  sl_known : forall name, name ∈ se_columns st -> is_Some (findColumn s name);
  sl_where : validatePredicates s (se_where st) = Ok tt;
  sl_values : literals_ok (values_of (se_where st));
  sl_fit : keys_fit (se_where st);
}.

Lemma checkColumns_ok cs : (forall name, name ∈ cs -> is_Some (findColumn s name)) -> checkColumns s cs = Ok tt.
Proof.
  induction cs as [|name cs IH]; intros H; cbn [checkColumns]; [done|]. rewrite sqlFindColumn_same.
  destruct (H name) as [c ->]; [left|]. apply IH. intros x Hx. apply H. by right.
Qed.
(** Up to the validation of the predicates a statement on known columns does not
    fail. *)
Lemma executeSelect_run d m st :
  holds eng d m -> stored_table s idx m -> se_table st = s_name s -> (if se_all st then se_columns st = [] else se_columns st <> []) ->
  (forall name, name ∈ se_columns st -> is_Some (findColumn s name)) ->
  executeSelect eng st d =
    (_ <! validatePredicates s (se_where st) ;;
     rows <~ selectRows eng (mkTable (d_id d) s idx) (findPrimary s) (se_where st) ;;
     ret (answer st rows)) d.
Proof.
  intros Hd T Htab Hlist Hknown. pose proof (tb_consistent _ _ _ T) as C. pose proof (cs_schema _ _ _ C) as Hs.
  unfold executeSelect. rewrite Htab. pose proof (so_name _ Hs) as Hn. rewrite (proj2 (Z.eqb_neq _ 0)) by lia.
  assert (Hsl : se_all st && negb (len (se_columns st) =? 0) || negb (se_all st) && (len (se_columns st) =? 0) = false).
  { destruct (se_all st); [by rewrite Hlist|]. cbn. destruct (se_columns st); done. }
  rewrite Hsl. rewrite (bind_ok _ _ _ (mkTable (d_id d) s idx) d) by (unfold from_db; by rewrite (OpenTable_ok eng s idx d m Hd T)).
  cbn [t_schema]. rewrite (bind_lift_ok _ _ _ tt) by (destruct (se_all st); [done|]; by apply checkColumns_ok).
  by rewrite primaryColumn_ok by done.
Qed.
Lemma executeSelect_ok d m st rows t :
  holds eng d m -> stored_table s idx m -> select_ok st -> t_schema t = s -> Table_Scan eng t d = (Ok rows, d) ->
  executeSelect eng st d = (Ok (answer st rows), d).
Proof.
  intros Hd T [Htab Hlist Hknown Hwh Hvals Hfit] Ht Hscan. pose proof (tb_consistent _ _ _ T) as C.
  set (t0 := mkTable (d_id d) s idx). assert (Hscan0 : Table_Scan eng t0 d = (Ok rows, d))
    by (rewrite <- Hscan; unfold Table_Scan; by rewrite Ht).
  rewrite (executeSelect_run d m) by done. rewrite (bind_lift_ok _ _ _ tt) by done.
  destruct (selectRows_scan d m t0 (se_where st) rows Hd C eq_refl Hscan0 Hwh Hvals Hfit) as (found & Hf & Heq).
  rewrite (bind_ok _ _ _ _ _ Hf). unfold ret, answer. by rewrite Heq.
Qed.
End Select.

(** ** INSERT *)

Section Insert.
Context {S : Type} (eng : Store S) {Sp : StoreSpec eng}.
Context (s : TableSchema) (idx : gmap bytes Index) (order : gmap bytes Index -> list Index).
Implicit Types (d : Database S) (m : gmap bytes bytes).
Abbreviation P := (rowPrefix (s_name s)).
Abbreviation pk := (c_name (findPrimary s)).

(** [r] extends [r0] by the literals, each under its column. *)
Record supplied (columns : list bytes) (values : list Literal) (r0 r : row) : Prop := {
  su_value : forall i name l, columns !! i = Some name -> values !! i = Some l ->
    exists c v, findColumn s name = Some c /\ literalValue l (c_type c) = Ok v /\ r !! name = Some v;
  su_keep : forall name, name ∉ columns -> r !! name = r0 !! name;
  su_once : NoDup columns;
  su_fresh : forall name, name ∈ columns -> r0 !! name = None;
}.

Lemma buildRow_ok columns : forall values r0, length columns = length values -> literals_ok values -> row_ok r0 ->
  gives (buildRow s columns values r0) (fun r => supplied columns values r0 r /\ row_ok r).
Proof.
  induction columns as [|name columns IH]; intros values r0 Hlen Hok Hr0; cbn [buildRow].
  { split; [|done]. split; try done; [constructor|by intros name ?%not_elem_of_nil]. }
  destruct values as [|l values]; [done|]. injection Hlen as Hlen. apply Forall_cons in Hok as [Hl Hok].
  rewrite sqlFindColumn_same. destruct (findColumn s name) as [c|] eqn:Ec; [|done]. apply gives_guard.
  intros Hno%bool_decide_eq_false%eq_None_not_Some. pose proof (literalValue_ok l (c_type c)) as Hv.
  destruct (literalValue l (c_type c)) as [v|e| |] eqn:El; cbn [map_err]; try done. destruct Hv as [Hv _]. specialize (Hv Hl).
  eapply gives_mono; [apply (IH values (<[name := v]> r0)); [done|done|]|].
  { intros x w. destruct (decide (x = name)) as [->|Hx]; [rewrite lookup_insert_eq; by intros [= <-]|].
    rewrite lookup_insert_ne by done. apply Hr0. }
  intros r [[Hval Hkeep Honce Hfresh] Hr]. assert (Hname : name ∉ columns).
  { intros Hin. apply Hfresh in Hin. by rewrite lookup_insert_eq in Hin. }
  split; [|done]. split.
  - intros [|i] n l'; cbn; [|by apply Hval]. intros [= <-] [= <-]. exists c, v. split_and!; [done|done|].
    rewrite Hkeep by done. by rewrite lookup_insert_eq.
  - intros x [Hx Hin]%not_elem_of_cons. rewrite Hkeep by done. by rewrite lookup_insert_ne.
  - by constructor.
  - intros x [->|Hin]%elem_of_cons; [done|]. assert (Hne : name <> x) by (intros ->; by apply Hname).
    pose proof (Hfresh x Hin) as H. by rewrite lookup_insert_ne in H.
Qed.
Lemma checkSupplied_ok cs r : gives (checkSupplied cs r) (fun _ => forall c, c ∈ cs -> is_Some (r !! c_name c)).
Proof.
  induction cs as [|c cs IH]; cbn [checkSupplied]; [by intros c ?%not_elem_of_nil|]. destruct (r !! c_name c) eqn:E; [|done].
  eapply gives_mono; [exact IH|]. intros [] H x [->|Hx]%elem_of_cons; [eauto|by apply H].
Qed.

Lemma row_changed_stored k old new m m' : stored_table s idx m -> row_changed s idx k old new m m' -> stored_table s idx m'.
Proof.
  intros [_ Hdesc Hlen] R. split; [apply R| |done]. rewrite <- Hdesc.
  destruct (decide (m' !! descriptorKey (s_name s) = m !! descriptorKey (s_name s))) as [|Hne]; [done|].
  destruct (rg_frame _ _ _ _ _ _ _ R _ Hne) as [?|(name & index & t & _ & ?)]; done.
Qed.

(** What a successful INSERT leaves: exactly one new row, the literals under
    their columns, every column of the table supplied. *)
Record inserted (st : InsertStatement) (m m' : gmap bytes bytes) (r : row) : Prop := {
  ir_supplied : supplied (in_columns st) (in_values st) ∅ r;
  ir_complete : forall c, c ∈ s_columns s -> is_Some (r !! c_name c);
  ir_ok : row_ok r;
  ir_stored : exists k val, encodeRow s r = Ok (P ++ k, val) /\ row_changed s idx k None (Some val) m m';
  ir_table : stored_table s idx m';
}.

Lemma executeInsert_ok d m st :
  listing_of idx (order idx) -> can eng d m (1 + size idx) -> d_writerActive d = false -> stored_table s idx m ->
  in_table st = s_name s -> literals_ok (in_values st) ->
  ends (executeInsert eng order st) d
    (fun rows d' => rows = [] /\ d_writerActive d' = false /\ same_backend d d' /\ exists m' r, holds eng d' m' /\ inserted st m m' r)
    (fun _ d' => holds eng d' m /\ d_writerActive d' = false /\ same_backend d d').
Proof.
  intros Hord Hcan Hw T Htab Hok. pose proof (can_holds eng d m _ Hcan) as Hd. pose proof (tb_consistent _ _ _ T) as C.
  unfold executeInsert. apply ends_guard; [done|]. intros _. apply ends_guard; [done|]. intros Hg. apply orb_false_iff in Hg as [_ Hg].
  apply negb_false_iff, Z.eqb_eq in Hg. rewrite Htab. apply ends_bind. unfold ends at 1, from_db.
  rewrite (OpenTable_ok eng s idx d m Hd T). cbn [map_err t_schema].
  eapply ends_gives; [apply (buildRow_ok (in_columns st) (in_values st) ∅); [unfold len in Hg; lia|done|by intros ? ?]| |done].
  intros r [Hsup Hr]. eapply ends_gives; [apply checkSupplied_ok| |done]. intros [] Hcomp.
  apply ends_bind. unfold ends at 1, with_table.
  pose proof (Table_Insert_ok eng s idx order d m (mkTable (d_id d) s idx) r Hord Hcan Hw C eq_refl Hr) as Hins.
  destruct (Table_Insert eng order r (d, _)) as [[u|e| |] [d' t']]; cbn [map_err]; try done.
  - destruct Hins as (m' & Hd' & (k & val & Henc & R) & Hw' & _ & _ & Hb). unfold ends, ret. split_and!; [done|done|done|]. exists m', r. split; [done|].
    split; try done; [by exists k, val|by eapply row_changed_stored].
  - destruct Hins as (Hd' & Hw' & _ & Hb). done.
Qed.

(** ** INSERT, then SELECT *)

Lemma complete_same r : schema_ok s -> (forall c, c ∈ s_columns s -> is_Some (r !! c_name c)) ->
  (forall name, is_Some (r !! name) -> is_Some (findColumn s name)) -> complete s r = r.
Proof.
  intros Hs Hall Hknown. apply map_eq. intros name. destruct (decide (name ∈ map c_name (s_columns s))) as [Hin|Hout].
  - apply list_elem_of_fmap in Hin as (c & -> & Hc). rewrite complete_get by done. destruct (Hall c Hc) as [v Hv].
    unfold row_get. by rewrite Hv.
  - assert (Hr : r !! name = None).
    { apply eq_None_not_Some. intros Hs'. destruct (Hknown name Hs') as [c Hc]. apply findColumn_elem in Hc as [Hc <-].
      apply Hout, list_elem_of_fmap. eauto. }
    rewrite Hr. unfold complete. destruct (findPrimary_spec s Hs) as [_ Hp]. rewrite lookup_insert_ne.
    + by rewrite cells_row_out, lookup_empty.
    + intros <-. apply Hout, list_elem_of_fmap. eauto.
Qed.

(** The key under which the row went in. *)
Lemma inserted_key st m m' r i l :
  inserted st m m' r -> in_columns st !! i = Some pk -> in_values st !! i = Some l ->
  exists v k, literalValue l (c_type (findPrimary s)) = Ok v /\ row_get r pk = v /\ rowKey s v = Ok k /\ any_ok v.
Proof.
  intros [[Hval _ _ _] Hcomp Hr (k & val & Henc & R) T] Hi Hl. pose proof (cs_schema _ _ _ (tb_consistent _ _ _ T)) as Hs.
  destruct (Hval i pk l Hi Hl) as (c & v & Hc & Hlit & Hv). rewrite (findColumn_primary s Hs) in Hc. injection Hc as <-.
  assert (Hget : row_get r pk = v) by (unfold row_get; by rewrite Hv). exists v, (P ++ k). split_and!; [done|done| |by apply (Hr pk)].
  pose proof (encodeRow_inv _ _ _ _ Henc) as E. destruct (er_pk _ _ _ _ E) as (enc & Hpk & Heq). apply app_inv_head in Heq as <-.
  rewrite Hget in Hpk. unfold rowKey. rewrite Hpk. pose proof (er_key _ _ _ _ E). by rewrite Z.gtb_ltb, (proj2 (Z.ltb_ge _ _)) by lia.
Qed.
Lemma select_inserted d m m' st r i l :
  holds eng d m' -> inserted st m m' r -> in_columns st !! i = Some pk -> in_values st !! i = Some l ->
  executeSelect eng (mkSelect (s_name s) [] true [mkPredicate pk Tok.Equal l]) d = (Ok [r], d).
Proof.
  intros Hd I Hi Hl. destruct (inserted_key st m m' r i l I Hi Hl) as (v & k & Hlit & Hget & Hkey & Hv).
  destruct I as [Hsup Hcomp Hr (k0 & val & Henc & R) T]. pose proof (tb_consistent _ _ _ T) as C. pose proof (cs_schema _ _ _ C) as Hs.
  set (p := mkPredicate pk Tok.Equal l). set (t := mkTable (d_id d) s idx).
  assert (Hkp : key_predicate s p v) by done.
  destruct (scan_ok eng s idx d m' t Hd C eq_refl) as (rows & Hscan & _).
  assert (Hsel : select_ok s (mkSelect (s_name s) [] true [p])).
  { split; cbn [se_table se_all se_columns se_where]; try done.
    - by intros name ?%not_elem_of_nil.
    - cbn [validatePredicates pr_column pr_op pr_value p]. rewrite sqlFindColumn_same, (findColumn_primary s Hs).
      change (isComparison Tok.Equal) with true. cbn [negb]. by rewrite Hlit.
    - repeat constructor. cbn [pr_value p map]. pose proof (literalValue_ok l (c_type (findPrimary s))) as HL. rewrite Hlit in HL.
      clear -Hlit Hv. unfold literalValue, checkLiteral in Hlit. destruct l as [kind value]. cbn [li_kind li_value] in *.
      destruct value; try done. destruct kind; cbn in Hlit; try done. repeat case_match; try done; by injection Hlit as <-.
    - intros q w ->%list_elem_of_singleton _ [_ Hw]. cbn [pr_value p] in Hw. rewrite Hlit in Hw. injection Hw as <-. eauto. }
  rewrite (executeSelect_ok eng s idx d m' _ rows t Hd T Hsel eq_refl Hscan). unfold answer. cbn [se_all se_where negb]. rewrite map_id.
  destruct (Get_scan eng s idx d m' t rows v k Hd C eq_refl Hscan Hv Hkey) as (o & Hg & Heq).
  pose proof (Table_Get_ok eng s d m' t r k0 val Hd eq_refl (rg_new _ _ _ _ _ _ _ R) Hr Henc) as Hg'. rewrite Hget, Hg in Hg'.
  injection Hg' as ->. rewrite complete_same in Heq; [|done|done|apply (er_known _ _ _ _ (encodeRow_inv _ _ _ _ Henc))].
  rewrite Heq. f_equal. f_equal. apply List.filter_ext. intros x. cbn [row_matches pr_column pr_op pr_value p].
  rewrite sqlFindColumn_same, (findColumn_primary s Hs), Hlit. by destruct (compare _ _ _).
Qed.
End Insert.
