(* ===== verification/SqlCatalog.v ===== *)
(** * A database under SQL

    The invariant of a whole database: every table in the catalog is consistent
    and nothing is stored under a name that is not in it. Every SQL statement
    (src/internal/sql) keeps it, whatever its text. *)

From S2P Require Import Prelude KvList Errors Codec CodecSpec Page PageManager KV KVSpec KVResults Engine Database DatabaseSpec.
From S2P Require Import Table TableSpec RowSpec MutationSpec CatalogSpec QuerySpec CreateIndexSpec TableResults QueryResults.
From S2P Require Import SqlLexer SqlLexerSpec SqlParser SqlParserSpec SqlExec SqlExecSpec.

(** ** The catalog *)

Definition nothing_under (name : bytes) (m : gmap bytes bytes) : Prop := unused (mkSchema name []) m.
Definition catalog_ok (m : gmap bytes bytes) : Prop := forall name,
  match m !! descriptorKey name with
  | None => nothing_under name m
  | Some _ => exists s idx, s_name s = name /\ stored_table s idx m
  end.

Lemma catalog_empty : catalog_ok ∅.
Proof. intros name. rewrite lookup_empty. split_and!; intros; apply lookup_empty. Qed.
Lemma descriptorKey_inj a b : descriptorKey a = descriptorKey b -> a = b.
Proof.
  unfold descriptorKey. intros [= H]. apply (f_equal (fun x => x ++ [])) in H. by apply escape_inj in H as [? _].
Qed.

(** Only keys of the table [name] and its descriptor change. *)
Definition only_table (name : bytes) (m m' : gmap bytes bytes) : Prop := forall x, m' !! x <> m !! x ->
  x = descriptorKey name \/ (exists k, x = rowPrefix name ++ k) \/ exists i k, x = indexEntryPrefix name i ++ k.

(** A change of one table leaves the rest of the catalog as it was. *)
Lemma catalog_change name m m' :
  catalog_ok m -> only_table name m m' -> (exists s idx, s_name s = name /\ stored_table s idx m') -> catalog_ok m'.
Proof.
  intros Hc Hf Hn n. destruct (decide (n = name)) as [->|Hne].
  { destruct Hn as (s & idx & <- & T). rewrite (tb_descriptor _ _ _ T). eauto. }
  assert (Hsame : forall x, x <> descriptorKey name -> (forall k, x <> rowPrefix name ++ k) ->
    (forall i k, x <> indexEntryPrefix name i ++ k) -> m' !! x = m !! x).
  { intros x H1 H2 H3. destruct (decide (m' !! x = m !! x)) as [|Hx]; [done|].
    destruct (Hf x Hx) as [->|[(k & ->)|(i & k & ->)]]; [done|by destruct (H2 k)|by destruct (H3 i k)]. }
  assert (Hdesc : m' !! descriptorKey n = m !! descriptorKey n)
    by (apply Hsame; [by intros ?%descriptorKey_inj|done|done]).
  assert (Hrow : forall x, m' !! (rowPrefix n ++ x) = m !! (rowPrefix n ++ x)).
  { intros x. apply Hsame; [done| |done]. intros k Heq. by apply rowPrefix_inj in Heq as [? _]. }
  assert (Hdef : forall x, m' !! (defPrefix n ++ x) = m !! (defPrefix n ++ x)) by (intros x; by apply Hsame).
  assert (Hent : forall i x, m' !! (indexEntryPrefix n i ++ x) = m !! (indexEntryPrefix n i ++ x)).
  { intros i x. apply Hsame; [done|done|]. intros i' k Heq. by apply entryPrefix_inj in Heq as (? & _). }
  rewrite Hdesc. specialize (Hc n). destruct (m !! descriptorKey n) eqn:E.
  - destruct Hc as (s & idx & <- & [C D L]). exists s, idx. split; [done|]. split; [|congruence|done].
    by apply (consistent_agree s idx m m').
  - destruct Hc as (H1 & H2 & H3). split_and!; intros; [rewrite Hrow; apply H1|rewrite Hdef; apply H2|rewrite Hent; apply H3].
Qed.

Lemma created_only name v m : only_table name m (<[descriptorKey name := v]> m).
Proof. intros x Hx. destruct (decide (x = descriptorKey name)) as [->|Hne]; [by left|]. by rewrite lookup_insert_ne in Hx. Qed.
Lemma row_only s idx k old new m m' : row_changed s idx k old new m m' -> only_table (s_name s) m m'.
Proof. intros R x Hx. right. destruct (rg_frame _ _ _ _ _ _ _ R x Hx) as [->|(i & index & t & _ & ->)]; eauto. Qed.

(** ** What a statement holds *)

Definition statement_literals (st : Statement) : list Literal :=
  match st with
  | InsertValue s | InsertPointer (Some s) => in_values s
  | SelectValue s | SelectPointer (Some s) => map pr_value (se_where s)
  | _ => []
  end.

Lemma g_literal_ok t l : g_literal t l -> any_ok (li_value l).
Proof. intros []; try done. by apply ParseInt_range in H0. Qed.
Lemma g_list_Forall {A} (phrase : list Token -> A -> Prop) sep ts l (Q : A -> Prop) :
  (forall ts a, phrase ts a -> Q a) -> g_list phrase sep ts l -> Forall Q l.
Proof. intros HQ H. induction H; constructor; eauto. Qed.
Lemma g_statement_literals ts st : g_statement ts st -> literals_ok (statement_literals st).
Proof.
  intros H. destruct H as [|t1 t2 tn name t3 cs columns t4 t5 t6 vs values t7 semi _ _ _ _ _ _ _ _ Hv _ _ _
    |t1 sl all columns t2 tn name wh ps semi _ _ _ _ Hw _]; cbn [statement_literals in_values se_where]; [constructor| |].
  - eapply g_list_Forall; [|exact Hv]. intros ts a [t v Hl]. by eapply g_literal_ok.
  - destruct Hw as [|t ts ps _ Hl]; [constructor|]. unfold literals_ok. apply Forall_map. eapply g_list_Forall; [|exact Hl].
    intros ts' p [tn' n op u v _ _ Hlit]. cbn. by eapply g_literal_ok.
Qed.

Lemma Parse_total input : gives (Parse input) (fun st => exists ts e, lexed 0 input (ts ++ [e]) /\ g_statement ts st).
Proof.
  unfold Parse. eapply gives_bind; [apply Lex_total|]. intros tokens Hl.
  eapply gives_mono; [apply Parse_stream; by eapply lexed_stream|]. intros st (ts & e & -> & HG). eauto.
Qed.

(** ** Statements on a database *)

Section Statements.
Context {S : Type} (eng : Store S) {Sp : StoreSpec eng} (order : gmap bytes Index -> list Index).
Implicit Types (d : Database S) (m : gmap bytes bytes).

(** Room for one statement: a descriptor, or a row with its index entries. *)
Definition room d m : Prop := can eng d m 1 /\ forall s idx, stored_table s idx m -> can eng d m (1 + size idx).

Lemma OpenTable_any name d m : holds eng d m -> catalog_ok m ->
  ends (OpenTable eng name) d
    (fun t d' => d' = d /\ exists s idx, t = mkTable (d_id d) s idx /\ s_name s = name /\ stored_table s idx m)
    (fun _ d' => d' = d).
Proof.
  intros Hd Hc. specialize (Hc name). destruct (m !! descriptorKey name) as [v|] eqn:E.
  - destruct Hc as (s & idx & <- & T). unfold ends. rewrite (OpenTable_ok eng s idx d m Hd T). split; [done|]. by exists s, idx.
  - unfold ends, OpenTable. rewrite (proj1 Hd).
    assert (Hget : getLocked eng (descriptorKey name) d = (Ok None, d)) by (rewrite (getLocked_ok eng d m) by (done || (by intros _)); by rewrite E).
    by rewrite (bind_ok _ _ _ _ _ Hget).
Qed.

Lemma Get_any s idx d m t key : holds eng d m -> consistent s idx m -> t_schema t = s -> any_ok key ->
  ends (Table_Get eng t key) d (fun _ d' => d' = d) (fun _ d' => d' = d).
Proof.
  intros Hd C Ht Hk. pose proof (rowKey_total s key) as T. destruct (rowKey s key) as [k|e| |] eqn:E; try done.
  - destruct T as (enc & _ & -> & _). pose proof (Table_Get_any eng s idx d m t key enc Hd C Ht Hk E) as G. unfold ends.
    destruct (m !! _); [destruct G as (r & _ & _ & ->)|rewrite G]; done.
  - unfold ends, Table_Get. rewrite (proj1 Hd), Ht, E. done.
Qed.
Lemma Range_any s idx d m t lo hi : holds eng d m -> consistent s idx m -> t_schema t = s -> any_ok lo -> any_ok hi ->
  ends (Table_Range eng t lo hi) d (fun _ d' => d' = d) (fun _ d' => d' = d).
Proof.
  intros Hd C Ht Hlo Hhi. pose proof (rowKey_total s lo) as T1. pose proof (rowKey_total s hi) as T2.
  destruct (scan_ok eng s idx d m t Hd C Ht) as (rows & Hrows & _).
  destruct (rowKey s lo) as [k|e| |] eqn:E1; try done; [destruct (rowKey s hi) as [k'|e| |] eqn:E2; try done|].
  - unfold ends. by rewrite (Table_Range_any eng s idx d m t lo hi k k' rows).
  - unfold ends, Table_Range. rewrite (proj1 Hd), Ht, E1. cbn. by rewrite E2.
  - unfold ends, Table_Range. by rewrite (proj1 Hd), Ht, E1.
Qed.
Lemma from_db_ends {A} (f : stM (Database S) dberr A) d Q (R : Database S -> Prop) :
  ends f d Q (fun _ d' => R d') -> ends (from_db f) d Q (fun _ d' => R d').
Proof. unfold ends, from_db. destruct (f d) as [[] ?]; cbn; auto. Qed.

Lemma validate_total s ps : gives (validatePredicates s ps) (fun _ => validatePredicates s ps = Ok tt).
Proof.
  destruct (validatePredicates s ps) as [[]|e| |] eqn:E; try done; exfalso.
  all: induction ps as [|p ps IH]; [done|]; cbn [validatePredicates] in E; destruct (sqlFindColumn s (pr_column p)) as [c|]; [|done];
    destruct (isComparison (pr_op p)); [|done]; cbn [negb] in E; pose proof (literalValue_ok (pr_value p) (c_type c)) as T;
    destruct (literalValue _ _); cbn [map_err] in E; try done; by apply IH.
Qed.
Lemma checkColumns_total s cs : gives (checkColumns s cs) (fun _ => True).
Proof. induction cs as [|n cs IH]; cbn [checkColumns]; [done|]. by destruct (sqlFindColumn s n). Qed.

(** SELECT returns rows or an error and changes nothing. *)
Lemma executeSelect_any st d m : holds eng d m -> catalog_ok m -> literals_ok (map pr_value (se_where st)) ->
  ends (executeSelect eng st) d (fun _ d' => d' = d) (fun _ d' => d' = d).
Proof.
  intros Hd Hc Hok. unfold executeSelect. apply ends_guard; [done|]. intros _. apply ends_guard; [done|]. intros _.
  apply ends_bind. eapply ends_mono; [apply from_db_ends; by apply (OpenTable_any _ d m)| |done].
  intros t d' (-> & s & idx & -> & _ & T). cbn [t_schema]. pose proof (tb_consistent _ _ _ T) as C. pose proof (cs_schema _ _ _ C) as Hs.
  eapply (ends_gives _ _ _ (fun _ => True)); [destruct (negb (se_all st)); [apply checkColumns_total|done]| |done]. intros _ _.
  rewrite primaryColumn_ok by done. eapply ends_gives; [apply validate_total| |done]. intros [] Hv.
  apply ends_bind. eapply ends_mono with (Q := fun _ d' => d' = d) (R := fun _ d' => d' = d); [|by intros ? ? ->|done].
  destruct (equalKey_ok s Hs _ Hv) as (o & Ho & Hkey). unfold selectRows. eapply ends_lift; [exact Ho|]. destruct o as [key|].
  - destruct (Hkey key eq_refl) as (p & Hp & _ & Hkp). apply ends_bind.
    eapply ends_mono; [apply from_db_ends, (Get_any s idx d m); try done; by eapply key_value_ok|by intros ? ? ->|done].
  - destruct (keyBounds_ok s Hs _ Hv (se_where st) ANil ANil) as (lo & hi & Hb & Hlo & Hhi); [done|by left..|].
    eapply ends_lift; [exact Hb|]. assert (Ob : forall ops v, bound_from s (se_where st) ops v -> any_ok v)
      by (intros ops v [->|(p & Hp & _ & Hkp)]; [done|by eapply key_value_ok]).
    cbv beta iota. destruct (negb (is_nil lo) && negb (is_nil hi)).
    + apply from_db_ends, (Range_any s idx d m); try done; by eapply Ob.
    + destruct (scan_ok eng s idx d m (mkTable (d_id d) s idx) Hd C eq_refl) as (rows & Hrows & _).
      unfold ends, from_db. by rewrite Hrows.
Qed.

(** ** Every statement keeps the catalog *)

(** What a statement leaves: a database with a sound catalog, or on an error the
    one there was. *)
Definition keeps_catalog d m {A : Type} (f : stM (Database S) execerr A) : Prop :=
  ends f d (fun _ d' => d_writerActive d' = false /\ same_backend d d' /\ exists m', holds eng d' m' /\ catalog_ok m')
    (fun _ d' => holds eng d' m /\ d_writerActive d' = false /\ same_backend d d').

Lemma same_backend_refl d : same_backend d d.
Proof. done. Qed.
Lemma executeCreateTable_keeps st d m : room d m -> d_writerActive d = false -> catalog_ok m -> keeps_catalog d m (executeCreateTable eng st).
Proof.
  intros [Hcan _] Hw Hc. pose proof (can_holds eng d m 1 Hcan) as Hd. unfold keeps_catalog, executeCreateTable.
  eapply (ends_gives _ _ _ (fun _ => True)); [|intros columns _|done].
  { generalize (ct_columns st). induction l as [|c l IH]; cbn [createColumns]; [done|].
    eapply (gives_bind _ _ (fun _ => True)); [by destruct (cd_type c)|]. intros ty _. by eapply gives_bind; [exact IH|]. }
  apply ends_bind. set (s := mkSchema (ct_name st) columns).
  assert (Hun : m !! descriptorKey (s_name s) = None -> unused s m) by (intros Hno; specialize (Hc (s_name s)); by rewrite Hno in Hc).
  eapply ends_mono; [apply (from_db_ends _ _ _ (fun d' => holds eng d' m /\ kept d d')), (CreateTable_ok eng s d m Hcan Hw Hun)| |].
  - intros t d' (-> & Hno & m' & -> & Hd' & T & Hk). unfold ends, ret. split_and!; [by destruct Hk as (_ & _ & -> & _)|by apply kept_backend|].
    eexists. split; [exact Hd'|]. apply (catalog_change (s_name s) m); [done|apply created_only|]. by exists s, ∅.
  - intros e d' [Hd' Hk]. split_and!; [done|by destruct Hk as (_ & _ & -> & _)|by apply kept_backend].
Qed.
Lemma executeInsert_keeps st d m : (forall idx, listing_of idx (order idx)) -> room d m -> d_writerActive d = false -> catalog_ok m ->
  literals_ok (in_values st) -> keeps_catalog d m (executeInsert eng order st).
Proof.
  intros Hord [Hcan Hroom] Hw Hc Hok. pose proof (can_holds eng d m 1 Hcan) as Hd. unfold keeps_catalog.
  destruct (m !! descriptorKey (in_table st)) as [v|] eqn:E.
  - pose proof (Hc (in_table st)) as Hn. rewrite E in Hn. destruct Hn as (s & idx & Hname & T).
    eapply ends_mono; [apply (executeInsert_ok eng s idx order d m); try done; [by apply (Hroom s)]| |].
    + intros rows d' (_ & Hw' & Hb & m' & r & Hd' & I). split_and!; [done|done|]. exists m'. split; [done|].
      destruct I as [_ _ _ (k & val & _ & R) T']. apply (catalog_change (s_name s) m); [done|by eapply row_only|by exists s, idx].
    + by intros e d' (? & ? & ?).
  - unfold executeInsert. apply ends_guard; [done|]. intros _. apply ends_guard; [done|]. intros _. apply ends_bind.
    unfold ends at 1, from_db, OpenTable. rewrite (proj1 Hd).
    assert (Hget : getLocked eng (descriptorKey (in_table st)) d = (Ok None, d)) by (rewrite (getLocked_ok eng d m) by (done || (by intros _)); by rewrite E).
    by rewrite (bind_ok _ _ _ _ _ Hget).
Qed.
Lemma Execute_keeps nil st d m : (forall idx, listing_of idx (order idx)) -> room d m -> d_writerActive d = false -> catalog_ok m ->
  literals_ok (statement_literals st) -> keeps_catalog d m (Execute eng order nil st).
Proof.
  intros Hord Hroom Hw Hc Hok. pose proof (can_holds eng d m 1 (proj1 Hroom)) as Hd. unfold Execute. apply ends_guard; [done|]. intros _.
  assert (Hsel : forall q, literals_ok (map pr_value (se_where q)) -> keeps_catalog d m (executeSelect eng q)).
  { intros q Hq. eapply ends_mono; [by apply (executeSelect_any q d m)| |]; [|by intros e d' ->].
    intros rows d' ->. split_and!; [done|done..|]. by exists m. }
  destruct st as [|q|q|q|[q|]|[q|]|[q|]|]; try done; cbn [statement_literals] in Hok.
  - by apply executeCreateTable_keeps.
  - by apply executeInsert_keeps.
  - by apply Hsel.
  - by apply executeCreateTable_keeps.
  - by apply executeInsert_keeps.
  - by apply Hsel.
Qed.
Lemma Exec_keeps input d m : (forall idx, listing_of idx (order idx)) -> room d m -> d_writerActive d = false -> catalog_ok m ->
  keeps_catalog d m (Exec eng order false input).
Proof.
  intros Hord Hroom Hw Hc. pose proof (can_holds eng d m 1 (proj1 Hroom)) as Hd. unfold keeps_catalog, Exec.
  eapply (ends_gives _ _ _ (fun st => exists ts, g_statement ts st)); [|intros st [ts HG]|done].
  - pose proof (Parse_total input) as T. destruct (Parse input) as [st|e| |]; try done. destruct T as (ts & e & _ & HG). by exists ts.
  - apply Execute_keeps; try done. by eapply g_statement_literals.
Qed.
End Statements.
