(* ===== verification/SqlResults.v ===== *)
(** * Results on SQL (src/internal/sql)

    The lexer and the parser decide the lexical rules and the grammar of the
    language, every statement can be written and read back, SELECT answers as a
    filtered full scan whatever access path it takes, INSERT stores exactly what
    it was given, and no text can break a database. *)

From S2P Require Import Prelude KvList Errors Codec CodecSpec Page PageManager KV KVSpec KVResults Engine Database DatabaseSpec.
From S2P Require Import Table TableSpec RowSpec MutationSpec CatalogSpec QuerySpec CreateIndexSpec TableResults QueryResults.
From S2P Require Import SqlLexer SqlLexerSpec SqlParser SqlParserSpec SqlPrint SqlExec SqlExecSpec SqlCatalog.

(** ** Texts *)

(** C29: [Lex] decides the lexical rules: on every input it returns (the loop
    ends within its fuel) either an error or the tokens of the input, which are
    unique: white space and spellings in turn, every token as long as it can be
    and marked with its byte offset, a doubled quote inside a string standing
    for one, EOF at the end. *)
Theorem Lex_correct input tokens :
  (Lex input = Ok tokens <-> lexed 0 input tokens) /\ gives (Lex input) (fun ts => lexed 0 input ts).
Proof. split; [apply Lex_lexed|apply Lex_total]. Qed.

(** C25: [Parse] decides the grammar: it accepts exactly the texts whose tokens a
    statement derives and returns that statement; on every other text it returns
    an error, never reading past the end of the tokens. *)
Theorem Parse_correct input st :
  (Parse input = Ok st <-> exists ts e, lexed 0 input (ts ++ [e]) /\ g_statement ts st) /\
  gives (Parse input) (fun _ => True).
Proof.
  pose proof (Parse_total input) as T. split; [|by destruct (Parse input)]. split.
  - intros H. by rewrite H in T.
  - intros (ts & e & Hl & HG). unfold Parse. rewrite (proj2 (Lex_lexed _ _) Hl). apply Parse_derived; [done|].
    destruct (lexed_ends _ _ _ Hl) as (ts' & e' & Heq & _ & ->). by apply app_inj_tail in Heq as [_ ->].
Qed.

(** C30: printing and parsing are inverse: the text written for a statement reads
    back as that statement, for all names, integers and strings of any bytes
    (quotes included), and exactly the statements the parser can return can be
    written. *)
Theorem Parse_print st :
  (printable st <-> exists input, Parse input = Ok st) /\ (printable st -> Parse (print st) = Ok st).
Proof.
  split; [|apply Parse_print_ok]. split; [intros H; exists (print st); by apply Parse_print_ok|]. intros [input H].
  pose proof (Parse_total input) as T. rewrite H in T. destruct T as (ts & e & Hl & HG). eapply g_statement_printable; [exact HG|].
  destruct (lexed_ends _ _ _ Hl) as (ts' & e' & Heq & Hok & _). by apply app_inj_tail in Heq as [-> _].
Qed.

(** ** SELECT and INSERT *)

Section Results.
Context {S : Type} (eng : Store S) {Sp : StoreSpec eng}.
Context (s : TableSchema) (idx : gmap bytes Index) (order : gmap bytes Index -> list Index).
Implicit Types (d : Database S) (m : gmap bytes bytes).
Abbreviation pk := (c_name (findPrimary s)).

(** C14: a SELECT answers as a full scan: whether it looks up a primary key, scans
    a range of keys or the whole table, its rows are those of [Scan] that satisfy
    every predicate of the WHERE clause, in primary-key order, projected to the
    selected columns; the database is unchanged. *)
Theorem Select_correct d m st :
  holds eng d m -> stored_table s idx m -> select_ok s st ->
  exists rows, Table_Scan eng (mkTable (d_id d) s idx) d = (Ok rows, d) /\
    StronglySorted pk_lt (map (fun r => row_get r pk) rows) /\ executeSelect eng st d = (Ok (answer s st rows), d).
Proof.
  intros Hd T Hst. pose proof (tb_consistent _ _ _ T) as C.
  destruct (scan_ok eng s idx d m (mkTable (d_id d) s idx) Hd C eq_refl) as (rows & Hrows & HF). exists rows. split_and!; [done| |].
  - eapply stores_sorted; [apply C|apply with_prefix_sorted|done].
  - by apply (executeSelect_ok eng s idx d m st rows (mkTable (d_id d) s idx)).
Qed.

(** An INSERT stores exactly one new row, each literal converted to its
    column's type and every column supplied once, under a free primary key, with
    its index entries; when it fails (unknown, duplicate, missing or ill-typed
    columns, NULL, a taken key, a failed commit) the database is unchanged. *)
Theorem Insert_correct d m st :
  listing_of idx (order idx) -> can eng d m (1 + size idx) -> d_writerActive d = false -> stored_table s idx m ->
  in_table st = s_name s -> literals_ok (in_values st) ->
  ends (executeInsert eng order st) d
    (fun rows d' => rows = [] /\ d_writerActive d' = false /\ same_backend d d' /\ exists m' r, holds eng d' m' /\ inserted s idx st m m' r)
    (fun _ d' => holds eng d' m /\ d_writerActive d' = false /\ same_backend d d').
Proof. apply executeInsert_ok. Qed.

(** C26: a row put in by INSERT comes back from SELECT as it was given: after an
    INSERT that succeeded, selecting by the primary-key literal returns that one
    row, with every literal under its column. *)
Theorem Insert_Select d m st rows d' i l :
  listing_of idx (order idx) -> can eng d m (1 + size idx) -> d_writerActive d = false -> stored_table s idx m ->
  in_table st = s_name s -> literals_ok (in_values st) ->
  executeInsert eng order st d = (Ok rows, d') -> in_columns st !! i = Some pk -> in_values st !! i = Some l ->
  exists r, supplied s (in_columns st) (in_values st) ∅ r /\
    executeSelect eng (mkSelect (s_name s) [] true [mkPredicate pk Tok.Equal l]) d' = (Ok [r], d').
Proof.
  intros Hord Hcan Hw T Htab Hok Hins Hi Hl. pose proof (executeInsert_ok eng s idx order d m st Hord Hcan Hw T Htab Hok) as H.
  unfold ends in H. rewrite Hins in H. destruct H as (_ & _ & _ & m' & r & Hd' & I). exists r. split; [apply I|].
  by apply (select_inserted eng s idx d' m m' st r i l).
Qed.

(** C40: the access path shows for keys that are too long: comparing a string
    primary key for equality with a literal of more than a thousand bytes is an
    error, although the same comparison with [>=], which scans, answers. *)
Theorem long_key_literal d m l text :
  holds eng d m -> stored_table s idx m -> c_type (findPrimary s) = ColumnString ->
  l = mkLiteral Tok.String (AString text) -> 1000 < len text ->
  executeSelect eng (mkSelect (s_name s) [] true [mkPredicate pk Tok.Equal l]) d = (Err (XDatabase ErrInvalidRow), d) /\
  exists rows, executeSelect eng (mkSelect (s_name s) [] true [mkPredicate pk Tok.GreaterEqual l]) d = (Ok rows, d).
Proof.
  intros Hd T Hty -> Hlen. pose proof (tb_consistent _ _ _ T) as C. pose proof (cs_schema _ _ _ C) as Hs.
  assert (Hv : forall op, isComparison op = true -> validatePredicates s [mkPredicate pk op (mkLiteral Tok.String (AString text))] = Ok tt).
  { intros op Ho. cbn [validatePredicates pr_column pr_op pr_value]. rewrite sqlFindColumn_same, (findColumn_primary s Hs), Ho. cbn [negb].
    by rewrite Hty. }
  assert (Hnone : forall name, name ∈ @nil bytes -> is_Some (findColumn s name)) by (by intros name ?%not_elem_of_nil).
  rewrite !(executeSelect_run eng s idx d m) by done. cbn [se_where]. split.
  - rewrite (bind_lift_ok _ _ _ _ (Hv Tok.Equal eq_refl)). assert (Hkey : rowKey s (AString text) = Err ErrInvalidRow).
    { unfold rowKey. destruct (findPrimary_spec s Hs) as [Hp _].
      rewrite (proj2 (encodePrimary (findPrimary s) (AString text) text Hp)) by (by right). rewrite Z.gtb_ltb.
      rewrite (proj2 (Z.ltb_lt _ _)); [done|]. rewrite len_app. pose proof (len_nonneg (rowPrefix (s_name s))). lia. }
    assert (Heq : equalKey (findPrimary s) [mkPredicate pk Tok.Equal (mkLiteral Tok.String (AString text))] = Ok (Some (AString text)))
      by (cbn [equalKey pr_column pr_op pr_value]; by rewrite beqb_refl, Hty).
    assert (Hget : Table_Get eng (mkTable (d_id d) s idx) (AString text) d = (Err ErrInvalidRow, d))
      by (unfold Table_Get; rewrite (proj1 Hd); unfold bind, lift; cbn [t_schema]; by rewrite Hkey).
    apply bind_err. unfold selectRows. rewrite (bind_lift_ok _ _ _ _ Heq). apply bind_err. unfold from_db. by rewrite Hget.
  - rewrite (bind_lift_ok _ _ _ _ (Hv Tok.GreaterEqual eq_refl)).
    destruct (scan_ok eng s idx d m (mkTable (d_id d) s idx) Hd C eq_refl) as (rows & Hrows & _).
    assert (Heq : equalKey (findPrimary s) [mkPredicate pk Tok.GreaterEqual (mkLiteral Tok.String (AString text))] = Ok None)
      by (cbn [equalKey pr_column pr_op pr_value]; by rewrite beqb_refl).
    assert (Hbounds : keyBounds (findPrimary s) [mkPredicate pk Tok.GreaterEqual (mkLiteral Tok.String (AString text))] ANil ANil =
      Ok (AString text, ANil)) by (cbn [keyBounds pr_column pr_op pr_value]; by rewrite beqb_refl, Hty).
    eexists. erewrite bind_ok; [reflexivity|]. unfold selectRows. rewrite (bind_lift_ok _ _ _ _ Heq), (bind_lift_ok _ _ _ _ Hbounds).
    unfold from_db. cbn [is_nil negb andb]. by rewrite Hrows.
Qed.
End Results.

(** ** Any text *)

Section Database.
Context {S : Type} (eng : Store S) {Sp : StoreSpec eng} (order : gmap bytes Index -> list Index).
Context (Hord : forall idx, listing_of idx (order idx)).
Implicit Types (d : Database S) (m : gmap bytes bytes).

(** C13: no text breaks a database: executing any byte string on a database with a
    sound catalog returns a result or an error, never panics, and leaves a sound
    catalog, in which every table is consistent with its indexes; after an error
    the contents are unchanged. *)
Theorem Exec_safe d m input :
  room eng d m -> d_writerActive d = false -> catalog_ok m ->
  ends (Exec eng order false input) d
    (fun _ d' => d_writerActive d' = false /\ same_backend d d' /\ exists m', holds eng d' m' /\ catalog_ok m')
    (fun _ d' => holds eng d' m /\ d_writerActive d' = false /\ same_backend d d').
Proof. intros Hroom Hw Hc. by apply Exec_keeps. Qed.

(** Statements one after another; an error does not end the session. *)
Fixpoint exec_all (inputs : list bytes) d : Database S :=
  match inputs with
  | [] => d
  | input :: inputs => exec_all inputs (Exec eng order false input d).2
  end.

(** The catalog of an in-memory database stays sound through any sequence of
    texts, whether they are statements or not. *)
Theorem sql_session inputs d m :
  d_durable d = None -> holds eng d m -> d_writerActive d = false -> catalog_ok m ->
  exists m', holds eng (exec_all inputs d) m' /\ catalog_ok m' /\ d_durable (exec_all inputs d) = None.
Proof.
  revert d m. induction inputs as [|input inputs IH]; intros d m Hmem Hd Hw Hc; cbn [exec_all]; [by exists m|].
  assert (Hcan : forall n, can eng d m n) by (intros n; destruct Hd as [? H]; split; [done|]; by rewrite Hmem in *).
  pose proof (Exec_keeps eng order input d m Hord (conj (Hcan _) (fun _ _ _ => Hcan _)) Hw Hc) as H. unfold keeps_catalog, ends in H.
  destruct (Exec eng order false input d) as [[rows|e| |] d']; try done; cbn [snd].
  - destruct H as (Hw' & [_ Hb] & m' & Hd' & Hc'). apply (IH d' m'); try done.
    destruct (d_durable d') eqn:E; [|done]. destruct (proj1 Hb) as [x Hx]; [eauto|]. by rewrite Hmem in Hx.
  - destruct H as (Hd' & Hw' & [_ Hb]). apply (IH d' m); try done.
    destruct (d_durable d') eqn:E; [|done]. destruct (proj1 Hb) as [x Hx]; [eauto|]. by rewrite Hmem in Hx.
Qed.
End Database.
