(* ===== verification/SqlWitnesses.v ===== *)
(** * Witnesses for the results on SQL

    An in-memory database with a table, and the theorems applied to it. *)

From Stdlib Require Import Strings.String.
From S2P Require Import Prelude KvList Errors Codec CodecSpec Page PageManager PageManagerSpec KV KVSpec KVResults.
From S2P Require Import Engine Database DatabaseSpec Table TableSpec RowSpec MutationSpec CatalogSpec.
From S2P Require Import QuerySpec CreateIndexSpec TableResults QueryResults DbWitnesses.
From S2P Require Import SqlLexer SqlLexerSpec SqlParser SqlParserSpec SqlPrint SqlExec SqlExecSpec SqlCatalog SqlResults.

Lemma Table_Range_witness : exists rows, Table_Scan eng handle (mem m_index) = (Ok rows, mem m_index) /\
  Table_Range eng handle (AInt64 1) (AInt64 9) (mem m_index) =
    (Ok (List.filter (fun r => pk_leb (AInt64 1) (row_get r (c_name c_id)) && pk_leb (row_get r (c_name c_id)) (AInt64 9)) rows), mem m_index).
Proof.
  assert (H1 : any_ok (AInt64 1)) by (by vm_compute). assert (H9 : any_ok (AInt64 9)) by (by vm_compute).
  apply (Table_Range_correct eng t_demo idx_demo (mem m_index) m_index handle (AInt64 1) (AInt64 9)
    (rowPrefix (s_name t_demo) ++ encodeInt 1) (rowPrefix (s_name t_demo) ++ encodeInt 9) (mem_can m_index 0) m_index_consistent eq_refl H1 H9);
    vm_compute; reflexivity.
Defined.

(** ** The table of one row *)

Lemma m_table_stored : stored_table t_demo ∅ m_table.
Proof. split; [exact m_table_consistent|apply lookup_insert_eq|vm_compute; discriminate]. Qed.
Lemma m_row_stored : stored_table t_demo ∅ m_row.
Proof. exact (row_changed_stored t_demo ∅ k_demo None (Some v_demo) m_table m_row m_table_stored m_row_changed). Qed.

Definition lit_int (z : Z) : Literal := mkLiteral Tok.Integer (AInt64 z).
Definition lit_string (s : string) : Literal := mkLiteral Tok.String (AString (kw s)).
(** SELECT v FROM t WHERE id > 1 AND id <= 9 *)
Definition q_demo : SelectStatement := mkSelect (s_name t_demo) [c_name c_val] false
  [mkPredicate (c_name c_id) Tok.Greater (lit_int 1); mkPredicate (c_name c_id) Tok.LessEqual (lit_int 9)].
Lemma q_demo_ok : select_ok t_demo q_demo.
Proof.
  split.
  - reflexivity.
  - discriminate.
  - intros name Hn. apply list_elem_of_singleton in Hn. subst name. exists c_val. reflexivity.
  - reflexivity.
  - repeat constructor; vm_compute; congruence.
  - intros p v Hp _ [_ Hv]. apply elem_of_cons in Hp as [->|Hp]; [|apply list_elem_of_singleton in Hp; subst p];
      vm_compute in Hv; apply ok_inj in Hv; subst v; eexists; vm_compute; reflexivity.
Qed.
Lemma Select_witness : exists rows, Table_Scan eng (mkTable 0 t_demo ∅) (mem m_row) = (Ok rows, mem m_row) /\
  executeSelect eng q_demo (mem m_row) = (Ok (answer t_demo q_demo rows), mem m_row).
Proof.
  destruct (Select_correct eng t_demo ∅ (mem m_row) m_row q_demo (mem_can m_row 0) m_row_stored q_demo_ok) as (rows & H1 & _ & H2).
  exists rows. split; [exact H1|exact H2].
Defined.

(** INSERT INTO t (v, id) VALUES ('Ada''s', 42) *)
Definition i_stmt : InsertStatement := mkInsert (s_name t_demo) [c_name c_val; c_name c_id] [lit_string "Ada's"; lit_int 42].
Lemma i_stmt_ok : literals_ok (in_values i_stmt).
Proof. constructor; [exact I|]. constructor; [vm_compute; split; congruence|constructor]. Qed.
Lemma Insert_witness :
  ends (executeInsert eng listing i_stmt) (mem m_table)
    (fun rows d' => rows = [] /\ exists m' r, holds eng d' m' /\ inserted t_demo ∅ i_stmt m_table m' r)
    (fun _ d' => holds eng d' m_table).
Proof.
  eapply ends_mono; [apply (Insert_correct eng t_demo ∅ listing (mem m_table) m_table i_stmt);
    [apply listing_ok|apply mem_can|reflexivity|exact m_table_stored|reflexivity|exact i_stmt_ok]| |].
  - intros rows d' (H1 & _ & _ & H2). split; [exact H1|exact H2].
  - intros e d' (H & _). exact H.
Defined.
Definition d_inserted : Database KV := (executeInsert eng listing i_stmt (mem m_table)).2.
Lemma i_stmt_runs : executeInsert eng listing i_stmt (mem m_table) = (Ok [], d_inserted).
Proof.
  assert (H : (executeInsert eng listing i_stmt (mem m_table)).1 = Ok []) by (vm_compute; reflexivity).
  unfold d_inserted. rewrite <- H. apply surjective_pairing.
Qed.
Lemma Insert_Select_witness : exists r,
  executeSelect eng (mkSelect (s_name t_demo) [] true [mkPredicate (c_name c_id) Tok.Equal (lit_int 42)]) d_inserted = (Ok [r], d_inserted).
Proof.
  destruct (Insert_Select eng t_demo ∅ listing (mem m_table) m_table i_stmt [] d_inserted 1 (lit_int 42) (listing_ok _) (mem_can m_table 1)
    eq_refl m_table_stored eq_refl i_stmt_ok i_stmt_runs eq_refl eq_refl) as (r & _ & H).
  exists r. exact H.
Defined.

(** ** A table with a string key *)

Definition c_key : Column := mkColumn [Byte.x6b] ColumnString true false.
Definition t_str : TableSchema := mkSchema [Byte.x73] [c_key].
Definition m_str : gmap bytes bytes := <[descriptorKey (s_name t_str) := encodeDescriptor t_str]> ∅.
Lemma m_str_stored : stored_table t_str ∅ m_str.
Proof.
  split; [|apply lookup_insert_eq|vm_compute; discriminate]. apply unused_consistent; [apply validateSchema_iff; reflexivity|].
  split_and!; intros; apply lookup_empty.
Qed.
Definition long_text : bytes := replicate 1001 Byte.x61.
Lemma long_key_witness :
  executeSelect eng (mkSelect (s_name t_str) [] true [mkPredicate (c_name c_key) Tok.Equal (mkLiteral Tok.String (AString long_text))]) (mem m_str) =
    (Err (XDatabase ErrInvalidRow), mem m_str).
Proof.
  refine (proj1 (long_key_literal eng t_str ∅ (mem m_str) m_str _ long_text (mem_can m_str 0) m_str_stored eq_refl eq_refl _)).
  vm_compute. reflexivity.
Defined.

(** ** Texts *)

Definition text : bytes := kw "CREATE TABLE t (id INT64 PRIMARY KEY, v STRING);".
Lemma Exec_safe_witness :
  ends (Exec eng listing false text) (mem ∅) (fun _ d' => exists m', holds eng d' m' /\ catalog_ok m') (fun _ d' => holds eng d' ∅).
Proof.
  eapply ends_mono; [apply (Exec_safe eng listing listing_ok (mem ∅) ∅ text);
    [split; [apply mem_can|intros; apply mem_can]|reflexivity|exact catalog_empty]| |].
  - intros rows d' (_ & _ & H). exact H.
  - intros e d' (H & _). exact H.
Defined.
Lemma sql_session_witness : exists m', holds eng (exec_all eng listing [text; [Byte.x27]; text] (mem ∅)) m' /\ catalog_ok m'.
Proof.
  destruct (sql_session eng listing listing_ok [text; [Byte.x27]; text] (mem ∅) ∅ eq_refl (mem_can ∅ 0) eq_refl catalog_empty) as (m' & H1 & H2 & _).
  exists m'. split; [exact H1|exact H2].
Defined.

(** A session, run. *)
Example session_answers :
  let d := exec_all eng listing [text; kw "insert into t (v, id) values ('Ada''s', -42)"; kw "insert into t (id, v) values (7, '')"] (mem ∅) in
  map (fun r => row_get r (kw "v")) (match (Exec eng listing false (kw "SELECT v FROM t WHERE id > -43 AND id <= 7 AND id != 7") d).1 with
    Ok rows => rows | _ => [] end) = [AString (kw "Ada's")].
Proof. vm_compute. reflexivity. Qed.
