(* ===== verification/Trace.v ===== *)
(** * Tracing (src/internal/trace)

    Events, the bounded recorder of an experiment run and the unbounded
    recorder, and what a sequence of emissions does to them. *)

From Stdlib Require Import Strings.String.
From S2P Require Import Prelude.

(** A Go string literal. *)
Definition str (s : String.string) : bytes := String.list_byte_of_string s.

(** ** Events *)

Module Ev.
Definition OperationSelected : bytes := str "operation_selected".
Definition Lookup : bytes := str "lookup".
Definition Comparison : bytes := str "comparison".
Definition Traversal : bytes := str "traversal".
Definition ResultDelivered : bytes := str "result_delivered".
End Ev.

Record Event := mkEvent {
  ev_OperationIndex : Z;
  ev_Layer : bytes;
  ev_Keys : list bytes;
  ev_Children : list Z;
  ev_Sequence : Z;
  ev_Type : bytes;
  ev_Operation : bytes;
  ev_Structure : bytes;
  ev_Key : bytes;
  ev_NodeID : Z;
  ev_PageID : Z;
  ev_Detail : bytes;
}.

(** ** The bounded recorder *)

Record Bounded := mkBounded {
  b_Limit : Z;
  b_OperationIndex : Z;
  b_Operation : bytes;
  b_events : list Event;
  b_dropped : bool;
}.

Definition Bounded_Enabled (b : Bounded) : bool := b_Limit b >? 0.

(** What [Emit] stores: the event numbered, placed in the current operation and
    with its snapshot cut to 16 keys and 17 children. *)
Definition stamp (b : Bounded) (e : Event) : Event :=
  mkEvent (b_OperationIndex b) (ev_Layer e) (take 16 (ev_Keys e)) (take 17 (ev_Children e))
    (u64 (len (b_events b) + 1)) (ev_Type e)
    (if beqb (ev_Operation e) [] then b_Operation b else ev_Operation e)
    (ev_Structure e) (ev_Key e) (ev_NodeID e) (ev_PageID e) (ev_Detail e).

Definition Bounded_Emit (e : Event) (b : Bounded) : Bounded :=
  if b_Limit b <=? 0 then b
  else if len (b_events b) >=? b_Limit b then
    mkBounded (b_Limit b) (b_OperationIndex b) (b_Operation b) (b_events b) true
  else
    mkBounded (b_Limit b) (b_OperationIndex b) (b_Operation b) (b_events b ++ [stamp b e]) (b_dropped b).

Definition Bounded_Events (b : Bounded) : list Event := b_events b.
Definition Bounded_Truncated (b : Bounded) : bool := b_dropped b.

(** [recorder.OperationIndex = index; recorder.Operation = op]. *)
Definition Bounded_select (index : Z) (op : bytes) (b : Bounded) : Bounded :=
  mkBounded (b_Limit b) index op (b_events b) (b_dropped b).

(** ** The unbounded recorder *)

Record Recorder := mkRecorder { r_next : Z; r_events : list Event }.
Definition NewRecorder : Recorder := mkRecorder 0 [].
Definition set_Sequence (n : Z) (e : Event) : Event :=
  mkEvent (ev_OperationIndex e) (ev_Layer e) (ev_Keys e) (ev_Children e) n (ev_Type e)
    (ev_Operation e) (ev_Structure e) (ev_Key e) (ev_NodeID e) (ev_PageID e) (ev_Detail e).
Definition Recorder_Emit (e : Event) (r : Recorder) : Recorder :=
  let next := u64 (r_next r + 1) in mkRecorder next (r_events r ++ [set_Sequence next e]).
Definition Recorder_Events (r : Recorder) : list Event := r_events r.

(** ** Sequences of emissions *)

Definition emits (es : list Event) (b : Bounded) : Bounded := fold_left (fun b e => Bounded_Emit e b) es b.
Definition records (es : list Event) (r : Recorder) : Recorder := fold_left (fun r e => Recorder_Emit e r) es r.

(** [b'] is [b] after some emissions: all that an observed operation may do to
    the recorder. *)
Definition traced (b b' : Bounded) : Prop := exists es, b' = emits es b.

#[global] Instance traced_preorder : PreOrder traced.
Proof.
  split; [by intros b; exists []|]. intros b1 b2 b3 [es ->] [fs ->]. exists (es ++ fs).
  unfold emits. by rewrite fold_left_app.
Qed.
Lemma traced_emit e b : traced b (Bounded_Emit e b).
Proof. by exists [e]. Qed.
#[global] Hint Resolve traced_emit : core.

(** The events are numbered from one without gaps, their snapshots are bounded,
    and there are at most [Limit] of them; nothing was dropped before the
    recorder was full. *)
Definition snapshot_ok (e : Event) : Prop := len (ev_Keys e) <= 16 /\ len (ev_Children e) <= 17.
Record trace_ok (b : Bounded) : Prop := {
  tk_limit : 0 <= b_Limit b < 2 ^ 63;
  tk_bound : len (b_events b) <= b_Limit b;
  tk_numbered : map ev_Sequence (b_events b) = seqZ 1 (len (b_events b));
  tk_snapshots : Forall snapshot_ok (b_events b);
  tk_dropped : b_dropped b = true -> 0 < b_Limit b /\ len (b_events b) = b_Limit b;
}.

Lemma take_len {A} n (l : list A) : len (take n l) <= Z.of_nat n.
Proof. unfold len. rewrite length_take. lia. Qed.

Lemma emit_ok e b : trace_ok b -> trace_ok (Bounded_Emit e b).
Proof.
  intros [Hl Hb Hn Hs Hd]. unfold Bounded_Emit. destruct (b_Limit b <=? 0) eqn:H0; [done|]. zbool.
  destruct (len (b_events b) >=? b_Limit b) eqn:H1; zbool; split; cbn; try done; try lia.
  - rewrite len_app. change (len [_]) with 1. lia.
  - pose proof (len_nonneg (b_events b)).
    rewrite map_app, len_app. change (len [_]) with 1. rewrite seqZ_app by lia. rewrite Hn. f_equal. cbn.
    rewrite u64_small by lia. by rewrite Z.add_comm.
  - apply Forall_app. split; [done|]. constructor; [|constructor].
    split; apply take_len.
  - intros D. specialize (Hd D). lia.
Qed.
Lemma select_ok i op b : trace_ok b -> trace_ok (Bounded_select i op b).
Proof. by intros [????]. Qed.
Lemma emits_ok es : forall b, trace_ok b -> trace_ok (emits es b).
Proof. induction es as [|e es IH]; [done|]. intros b H. apply IH. by apply emit_ok. Qed.
Lemma traced_ok b b' : traced b b' -> trace_ok b -> trace_ok b'.
Proof. intros [es ->]. apply emits_ok. Qed.

(** With tracing off the recorder stays as it is. *)
Lemma traced_off b b' : traced b b' -> b_Limit b <= 0 -> b' = b.
Proof.
  intros [es ->] H. unfold emits. induction es as [|e es IH]; [done|]. cbn.
  unfold Bounded_Emit at 2. by rewrite (proj2 (Z.leb_le _ _) H).
Qed.

(** ** What the bounded recorder holds *)

Lemma emits_held es : forall b, trace_ok b ->
  map ev_Type (b_events (emits es b)) = map ev_Type (b_events b) ++ take (Z.to_nat (b_Limit b - len (b_events b))) (map ev_Type es) /\
  b_dropped (emits es b) = b_dropped b || (0 <? b_Limit b) && (b_Limit b <? len (b_events b) + len es).
Proof.
  induction es as [|e es IH]; intros b K.
  - cbn. change (len []) with 0. destruct K. rewrite take_nil, app_nil_r. split; [done|]. destruct (_ && _) eqn:E; [|by rewrite orb_false_r]. zbool. lia.
  - destruct (IH (Bounded_Emit e b) (emit_ok e b K)) as [I1 I2]. cbn [emits fold_left]. fold (emits es (Bounded_Emit e b)). rewrite I1, I2. clear I1 I2 IH.
    destruct K as [Hl Hb _ _ Hd]. pose proof (len_nonneg es). rewrite len_cons. unfold Bounded_Emit.
    destruct (b_Limit b <=? 0) eqn:E0; zbool.
    + replace (0 <? b_Limit b) with false by (symmetry; zbool; lia). rewrite !andb_false_l. pose proof (len_nonneg (b_events b)).
      by replace (Z.to_nat _) with O by lia.
    + replace (0 <? b_Limit b) with true by (symmetry; zbool; lia). rewrite !andb_true_l.
      destruct (len (b_events b) >=? b_Limit b) eqn:E1; zbool; cbn [b_Limit b_events b_dropped].
      * replace (Z.to_nat _) with O by lia. split; [done|]. cbn [b_dropped]. symmetry. apply orb_true_iff. right. zbool. lia.
      * replace (Z.to_nat (b_Limit b - len (b_events b))) with (S (Z.to_nat (b_Limit b - len (b_events b ++ [stamp b e])))) by (rewrite len_app; change (len [_]) with 1; lia).
        rewrite map_app, <- app_assoc, len_app. cbn. change (len [_]) with 1. split; [done|]. by rewrite (proj2 (Z.ltb_lt _ _) E0), andb_true_l, <- Z.add_assoc.
Qed.

(** A new bounded recorder that is sent any sequence of events keeps exactly
    the first [limit] of them, in order, numbered from one without gaps, each with
    a snapshot of at most 16 keys and 17 children, and reports truncation exactly
    when it is enabled and more were sent. *)
Theorem Bounded_exact limit es : 0 <= limit < 2 ^ 63 ->
  let b := emits es (mkBounded limit 0 [] [] false) in
  map ev_Type (Bounded_Events b) = take (Z.to_nat limit) (map ev_Type es) /\
  map ev_Sequence (Bounded_Events b) = seqZ 1 (len (Bounded_Events b)) /\
  Forall snapshot_ok (Bounded_Events b) /\
  Bounded_Truncated b = (0 <? limit) && (limit <? len es).
Proof.
  intros H b. assert (K : trace_ok (mkBounded limit 0 [] [] false)) by (split; cbn; try done; unfold len; cbn; lia).
  destruct (emits_held es _ K) as [E1 E2]. cbn [b_events b_Limit b_dropped] in *. change (len []) with 0 in *. rewrite Z.sub_0_r in E1.
  pose proof (emits_ok es _ K) as [_ _ N S _]. by split_and!.
Qed.
