(* ===== verification/KVTrace.v ===== *)
(** * The observed durable store (src/internal/btree/kv.go, trace.go)

    [KV.emitPage]: the event the store sends to its observer for a page, with the
    first keys and children of a page that validates and without a snapshot for
    any other bytes. [KV.SetTrace] attaches a recorder; from then on every page the tree reads,
    allocates or retires is reported to it. The operations here are those of KV
    with these reports; they compute the same results and states. *)

From Stdlib Require Import Strings.String.
From S2P Require Import Prelude Errors Page PageTree File FreeList PageManager KV Trace.

(** ** The event of a page *)

Definition pageSnapshotKeys : nat := 16.

(** The two loops; the count of steps left is their guard [i < snapshotKeys] and
    [i < snapshotKeys+1]. *)
Fixpoint pageKeys (left_ : nat) (page : bytes) (i : Z) (keys : list bytes) : res (list bytes) :=
  match left_ with
  | O => Ok keys
  | S left_ =>
      n <- nkeys page ;;
      if i <? n then k <- getKey page i ;; pageKeys left_ page (i + 1) (keys ++ [k]) else Ok keys
  end.
Fixpoint pageChildren (left_ : nat) (page : bytes) (i : Z) (children : list Z) : res (list Z) :=
  match left_ with
  | O => Ok children
  | S left_ =>
      n <- nkeys page ;;
      if i <? n then c <- getPtr page i ;; pageChildren left_ page (i + 1) (children ++ [c]) else Ok children
  end.
(** [event.Keys] and [event.Children]. *)
Definition pageSnapshot (page : bytes) : res (list bytes * list Z) :=
  match validateBNode page with
  | Ok _ =>
      keys <- pageKeys pageSnapshotKeys page 0 [] ;;
      ty <- btype page ;;
      if ty =? nodeTypeInternal then children <- pageChildren (pageSnapshotKeys + 1) page 0 [] ;; Ok (keys, children)
      else Ok (keys, [])
  | Err _ => Ok ([], [])
  | Panic => Panic
  | NoFuel => NoFuel
  end.
(** [kv.emitPage]; [attached] tells whether there is a sink, [operation] is
    [kv.traceOperation]. *)
Definition emitPage (attached : bool) (operation : bytes) (id : Z) (page : bytes) (kind detail : bytes) (b : Bounded) : res Bounded :=
  if negb (attached && Bounded_Enabled b) then Ok b
  else
    '(keys, children) <- pageSnapshot page ;;
    Ok (Bounded_Emit (mkEvent 0 (str "backing") keys children 0 kind operation (str "btree-durable") [] 0 id detail) b).

Section Page.
Context (b : bytes) (ty : Z) (es : list entry) (P : page_of b ty es).

Lemma pageKeys_ok left_ : forall i acc, (i <= length es)%nat ->
  pageKeys left_ b (Z.of_nat i) acc = Ok (acc ++ take left_ (drop i (map e_key es))).
Proof.
  destruct P as [B _]. induction left_ as [|n IH]; intros i acc Hi; cbn [pageKeys]; [by rewrite take_0, app_nil_r|].
  rewrite (built_nkeys B). cbn. unfold len. destruct (decide (i < length es)%nat) as [Hl|Hl].
  - destruct (lookup_lt_is_Some_2 es i Hl) as [e He]. zdecide. rewrite (built_getKey B _ _ He). cbn.
    replace (Z.of_nat i + 1) with (Z.of_nat (S i)) by lia. rewrite IH by lia. rewrite <- app_assoc.
    by rewrite (drop_S (map e_key es) (e_key e) i) by (by rewrite list_lookup_fmap, He).
  - zdecide. rewrite drop_ge by (rewrite length_map; lia). by rewrite take_nil, app_nil_r.
Qed.
Lemma pageChildren_ok left_ : forall i acc, (i <= length es)%nat ->
  pageChildren left_ b (Z.of_nat i) acc = Ok (acc ++ take left_ (drop i (map e_ptr es))).
Proof.
  destruct P as [B _]. induction left_ as [|n IH]; intros i acc Hi; cbn [pageChildren]; [by rewrite take_0, app_nil_r|].
  rewrite (built_nkeys B). cbn. unfold len. destruct (decide (i < length es)%nat) as [Hl|Hl].
  - destruct (lookup_lt_is_Some_2 es i Hl) as [e He]. zdecide. rewrite (built_getPtr B _ _ He). cbn.
    replace (Z.of_nat i + 1) with (Z.of_nat (S i)) by lia. rewrite IH by lia. rewrite <- app_assoc.
    by rewrite (drop_S (map e_ptr es) (e_ptr e) i) by (by rewrite list_lookup_fmap, He).
  - zdecide. rewrite drop_ge by (rewrite length_map; lia). by rewrite take_nil, app_nil_r.
Qed.
Lemma pageSnapshot_ok : ty = nodeTypeLeaf \/ ty = nodeTypeInternal ->
  pageSnapshot b = Ok (take 16 (map e_key es), if ty =? nodeTypeInternal then take 17 (map e_ptr es) else []).
Proof.
  intros Hty. unfold pageSnapshot, pageSnapshotKeys. rewrite (validateBNode_complete b ty es P Hty).
  pose proof (pageKeys_ok 16 0 [] ltac:(lia)) as K. pose proof (pageChildren_ok (16 + 1) 0 [] ltac:(lia)) as C.
  change (Z.of_nat 0) with 0 in *. rewrite K, C. cbn -[take].
  destruct P as [B _]. rewrite (built_btype B). by destruct (ty =? nodeTypeInternal).
Qed.
End Page.

Lemma emitPage_ok attached operation id page kind detail b :
  exists b', emitPage attached operation id page kind detail b = Ok b' /\ traced b b' /\
    (attached = true -> 0 < b_Limit b -> exists keys children,
      b' = Bounded_Emit (mkEvent 0 (str "backing") keys children 0 kind operation (str "btree-durable") [] 0 id detail) b /\
      match validateBNode page with
      | Ok _ => exists ty es, page_of page ty es /\ keys = take 16 (map e_key es) /\
          children = (if ty =? nodeTypeInternal then take 17 (map e_ptr es) else [])
      | _ => keys = [] /\ children = []
      end).
Proof.
  unfold emitPage, Bounded_Enabled. destruct (attached && (b_Limit b >? 0)) eqn:E; cbn [negb].
  - pose proof (validateBNode_total page) as V. destruct (validateBNode page) as [[]|e| |] eqn:EV; try done.
    + destruct (validateBNode_sound _ EV) as (ty & es & P & Hty). rewrite (pageSnapshot_ok _ _ _ P Hty). cbn -[take].
      eexists. split; [done|]. split; [apply traced_emit|]. intros _ _. do 2 eexists. split; [done|]. by exists ty, es.
    + unfold pageSnapshot. rewrite EV. cbn. eexists. split; [done|]. split; [apply traced_emit|]. intros _ _. by exists [], [].
  - exists b. split; [done|]. split; [done|]. intros -> Hl. apply Z.gtb_lt in Hl. by rewrite Hl in E.
Qed.

(** Tracing a page of the durable store never panics, whatever bytes it is
    given, and at most appends one event. The event of a valid page carries
    exactly its first 16 keys and, for an internal page, its first 17 children;
    the event of any other bytes carries no snapshot. *)
Theorem emitPage_safe attached operation id page kind detail b :
  exists b', emitPage attached operation id page kind detail b = Ok b' /\ traced b b' /\
    (attached = true -> 0 < b_Limit b -> exists keys children,
      b' = Bounded_Emit (mkEvent 0 (str "backing") keys children 0 kind operation (str "btree-durable") [] 0 id detail) b /\
      match validateBNode page with
      | Ok _ => exists ty es, page_of page ty es /\ keys = take 16 (map e_key es) /\
          children = (if ty =? nodeTypeInternal then take 17 (map e_ptr es) else [])
      | _ => keys = [] /\ children = []
      end).
Proof. apply emitPage_ok. Qed.

(** ** Reporting *)

(** A step that does not concern the recorder. *)
Definition also {St E A} (m : stM St E A) : stM (St * Bounded) E A := fun '(s, b) => let '(r, s') := m s in (r, (s', b)).
(** [kv.emitPage]. *)
Definition observe {St} (attached : bool) (operation : bytes) (id : Z) (page kind detail : bytes) : stM (St * Bounded) error unit :=
  fun '(s, b) =>
    match emitPage attached operation id page kind detail b with
    | Ok b' => (Ok tt, (s, b'))
    | Err e => (Err e, (s, b))
    | Panic => (Panic, (s, b))
    | NoFuel => (NoFuel, (s, b))
    end.

Section Observed.
Context (attached : bool) (operation : bytes).

(** [kv.bindTree]. *)
Definition seen_tree : callbacks (gmap Z bytes * Bounded) := {|
  cb_set := true;
  cb_get id :=
    page <~ also (cb_get bindTree id) ;;
    _ <~ observe attached operation id page Ev.Traversal (str "read loaded committed page") ;;
    ret page;
  cb_new node := also (cb_new bindTree node);
  cb_del id := also (cb_del bindTree id);
|}.

(** The callbacks of [update]: an allocation or a release that fails, or comes
    after a failure, is not reported. *)
Definition seen_get (id : Z) : stM (work * Bounded) error bytes :=
  page <~ also (work_get id) ;;
  _ <~ observe attached operation id page Ev.Traversal (str "read working page") ;;
  ret page.
Definition seen_new (node : bytes) : stM (work * Bounded) error Z :=
  id <~ also (work_new node) ;;
  failed <~ also (asks w_err) ;;
  _ <~ (match failed with
        | None => observe attached operation id node (str "mutation") (str "allocate copy-on-write page (not yet committed)")
        | Some _ => ret tt
        end) ;;
  ret id.
Definition seen_del (id : Z) : stM (work * Bounded) error unit :=
  _ <~ also (work_del id) ;;
  failed <~ also (asks w_err) ;;
  page <~ also (asks (fun w => default [] (w_working w !! id))) ;;
  match failed with
  | None => observe attached operation id page (str "mutation") (str "retire page (not yet committed)")
  | Some _ => ret tt
  end.
Definition seen_work : callbacks (work * Bounded) := {|
  cb_set := true; cb_get := seen_get; cb_new := seen_new; cb_del := seen_del;
|}.

Definition seen_treeInsert (fuel : nat) (key value : bytes) : stM (work * Bounded) error unit :=
  root <~ also (asks w_root) ;;
  root' <~ insert seen_work fuel root key value ;;
  also (set_root root').
Definition seen_treeDelete (fuel : nat) (key : bytes) : stM (work * Bounded) error bool :=
  root <~ also (asks w_root) ;;
  '(root', deleted) <~ delete seen_work fuel root key ;;
  _ <~ also (set_root root') ;;
  ret deleted.
End Observed.

(** ** The operations

    [attached] tells whether [SetTrace] was called with a recorder; the
    operation that reports carry is set at the start of each method. *)

Definition seen_Get (attached : bool) (fuel : nat) (key : bytes) : stM (KV * Bounded) error (option bytes) := fun '(kv, b) =>
  if k_closed kv then (Err ErrClosed, (kv, b))
  else
    let '(r, (_, b')) := getValue (seen_tree attached (str "get")) fuel (k_root kv) key (k_pages kv, b) in (r, (kv, b')).
Definition seen_Range (attached : bool) (fuel : nat) (start end_ : bytes) : stM (KV * Bounded) error (list (bytes * bytes)) :=
  fun '(kv, b) =>
  if k_closed kv then (Err ErrClosed, (kv, b))
  else
    let '(r, (_, b')) := rangeValues (seen_tree attached (str "range")) fuel (k_root kv) start end_ (k_pages kv, b) in
    (r, (kv, b')).

Definition seen_update (fuel : nat) (change : stM (work * Bounded) error bool) : stM (KV * Bounded) error bool := fun '(kv0, b) =>
  match beginUpdate kv0 with
  | (Ok originalSize, kv) =>
      let '(r, (w, b')) := change (newWork kv, b) in
      let '(r', kv') := endUpdate fuel kv originalSize (r, w) in
      (r', (kv', b'))
  | (Err e, kv) => (Err e, (kv, b))
  | (Panic, kv) => (Panic, (kv, b))
  | (NoFuel, kv) => (NoFuel, (kv, b))
  end.
Definition seen_Set (attached : bool) (fuel : nat) (key value : bytes) : stM (KV * Bounded) error unit :=
  closed <~ also (asks k_closed) ;;
  throw_if closed with ErrClosed ;;
  _ <~ seen_update fuel (_ <~ seen_treeInsert attached (str "set") fuel key value ;; ret true) ;;
  ret tt.
Definition seen_Delete (attached : bool) (fuel : nat) (key : bytes) : stM (KV * Bounded) error bool :=
  closed <~ also (asks k_closed) ;;
  throw_if closed with ErrClosed ;;
  seen_update fuel (seen_treeDelete attached (str "delete") fuel key).
Fixpoint seen_batchLoop (attached : bool) (fuel : nat) (ms : list Mutation) (changed : bool) : stM (work * Bounded) error bool :=
  match ms with
  | [] => ret changed
  | m :: ms =>
      if mu_delete m then
        deleted <~ seen_treeDelete attached (str "delete") fuel (mu_key m) ;;
        seen_batchLoop attached fuel ms (changed || deleted)
      else
        _ <~ seen_treeInsert attached (str "set") fuel (mu_key m) (mu_value m) ;;
        seen_batchLoop attached fuel ms true
  end.
Definition seen_ApplyBatch (attached : bool) (fuel : nat) (ms : list Mutation) : stM (KV * Bounded) error unit :=
  closed <~ also (asks k_closed) ;;
  throw_if closed with ErrClosed ;;
  _ <~ seen_update fuel (seen_batchLoop attached fuel ms false) ;;
  ret tt.

(** ** Observing changes nothing *)

(** [m'] does what [m] does and reports some events. *)
Definition tracks {St E A} (m' : stM (St * Bounded) E A) (m : stM St E A) : Prop := forall s b,
  match m' (s, b) with (r, (s', b')) => m s = (r, s') /\ traced b b' end.

Section Tracks.
Context {St : Type}.
Lemma tracks_bind {E A B} (m' : stM (St * Bounded) E A) m (k' : A -> stM (St * Bounded) E B) k :
  tracks m' m -> (forall a, tracks (k' a) (k a)) -> tracks (bind m' k') (bind m k).
Proof.
  intros Hm Hk s b. specialize (Hm s b). unfold bind. destruct (m' (s, b)) as [[a|e| |] [s1 b1]]; destruct Hm as [-> T]; try done.
  specialize (Hk a s1 b1). destruct (k' a (s1, b1)) as [r [s2 b2]]. destruct Hk as [-> T2]. split; [done|by etrans].
Qed.
Lemma tracks_also {E A} (m : stM St E A) : tracks (also m) m.
Proof. intros s b. unfold also. by destruct (m s). Qed.
Lemma tracks_lift {E A} (m : outcome E A) : tracks (lift m) (lift (S := St) m).
Proof. by intros s b. Qed.
Lemma tracks_ret {E A} (a : A) : tracks (ret a) (ret (S := St) (E := E) a).
Proof. by intros s b. Qed.
Lemma tracks_throw {E A} (e : E) : tracks (throw e) (throw (S := St) (A := A) e).
Proof. by intros s b. Qed.
Lemma tracks_diverge {E A} : tracks diverge (diverge : stM St E A).
Proof. by intros s b. Qed.
Lemma tracks_observe attached op id page kind detail : tracks (observe attached op id page kind detail) (ret (S := St) tt).
Proof.
  intros s b. unfold observe. destruct (emitPage_ok attached op id page kind detail b) as (b' & -> & T & _). done.
Qed.
(** A report in front of the rest. *)
Lemma tracks_seen {A} attached op id page kind detail (k' : stM (St * Bounded) error A) k :
  tracks k' k -> tracks (_ <~ observe attached op id page kind detail ;; k') k.
Proof.
  intros Hk s b. unfold bind. pose proof (tracks_observe attached op id page kind detail s b) as H.
  destruct (observe _ _ _ _ _ _ (s, b)) as [r [s1 b1]]. destruct H as [[= <- <-] T].
  specialize (Hk s b1). destruct (k' (s, b1)) as [r2 [s2 b2]]. destruct Hk as [-> T2]. split; [done|by etrans].
Qed.
End Tracks.
#[global] Hint Resolve tracks_also tracks_lift tracks_ret tracks_throw tracks_diverge : tracks.

(** Goes through two programs of the same shape. *)
Ltac track := repeat first
  [ progress (auto with tracks nocore)
  | apply tracks_bind; [|intros ?]
  | match goal with
    | |- tracks (if ?c then _ else _) _ => destruct c
    | |- tracks (match ?x with _ => _ end) _ => destruct x
    end ].

Section TreeTracks.
Context {St : Type} (cb' : callbacks (St * Bounded)) (cb : callbacks St).
Context (Hset : cb_set cb' = cb_set cb) (Hget : forall id, tracks (cb_get cb' id) (cb_get cb id)).
Context (Hnew : forall node, tracks (cb_new cb' node) (cb_new cb node)) (Hdel : forall id, tracks (cb_del cb' id) (cb_del cb id)).
#[local] Hint Resolve Hget Hnew Hdel : tracks.

Lemma validateCallbacks_same : validateCallbacks cb' = validateCallbacks cb.
Proof using Hset. unfold validateCallbacks. by rewrite Hset. Qed.

Lemma getValue_loop_tracks fuel : forall node key, tracks (getValue_loop cb' fuel node key) (getValue_loop cb fuel node key).
Proof using Hget. induction fuel as [|fuel IH]; intros node key; cbn [getValue_loop]; track. Qed.
#[local] Hint Resolve getValue_loop_tracks : tracks.
Lemma getValue_tracks fuel root key : tracks (getValue cb' fuel root key) (getValue cb fuel root key).
Proof using Hset Hget. unfold getValue. rewrite validateCallbacks_same. track. Qed.

Lemma seek_loop_tracks fuel : forall node start path, tracks (seek_loop cb' fuel node start path) (seek_loop cb fuel node start path).
Proof using Hget. induction fuel as [|fuel IH]; intros node start path; cbn [seek_loop]; track. Qed.
#[local] Hint Resolve seek_loop_tracks : tracks.
Lemma leftmost_loop_tracks fuel : forall node path, tracks (leftmost_loop cb' fuel node path) (leftmost_loop cb fuel node path).
Proof using Hget. induction fuel as [|fuel IH]; intros node path; cbn [leftmost_loop]; track. Qed.
#[local] Hint Resolve leftmost_loop_tracks : tracks.
Lemma nextLeaf_tracks fuel path : tracks (nextLeaf cb' fuel path) (nextLeaf cb fuel path).
Proof using Hget. induction path as [|fr path IH]; cbn [nextLeaf]; track. Qed.
#[local] Hint Resolve nextLeaf_tracks : tracks.
Lemma range_loop_tracks fuel : forall depth leaf start end_ idx path,
  tracks (range_loop cb' fuel depth leaf start end_ idx path) (range_loop cb fuel depth leaf start end_ idx path).
Proof using Hget. induction fuel as [|fuel IH]; intros depth leaf start end_ idx path; cbn [range_loop]; track. Qed.
#[local] Hint Resolve range_loop_tracks : tracks.
Lemma rangeValues_tracks fuel root start end_ : tracks (rangeValues cb' fuel root start end_) (rangeValues cb fuel root start end_).
Proof using Hset Hget. unfold rangeValues, seekRangeStart. rewrite validateCallbacks_same. track. Qed.

Lemma appendChildren_tracks children : forall updated idx i,
  tracks (appendChildren cb' updated idx i children) (appendChildren cb updated idx i children).
Proof using Hnew. induction children as [|child children IH]; intros updated idx i; cbn [appendChildren]; track. Qed.
#[local] Hint Resolve appendChildren_tracks : tracks.
Lemma replaceChild_tracks parent idx children : tracks (replaceChild cb' parent idx children) (replaceChild cb parent idx children).
Proof using Hnew. unfold replaceChild. track. Qed.
#[local] Hint Resolve replaceChild_tracks : tracks.
Lemma insertNode_tracks fuel : forall node key value obs,
  tracks (insertNode cb' fuel node key value obs) (insertNode cb fuel node key value obs).
Proof using Hget Hnew. induction fuel as [|fuel IH]; intros node key value obs; cbn [insertNode]; track. Qed.
#[local] Hint Resolve insertNode_tracks : tracks.
Lemma deleteAll_tracks ids : tracks (deleteAll cb' ids) (deleteAll cb ids).
Proof using Hdel. induction ids as [|id ids IH]; cbn [deleteAll]; track. Qed.
#[local] Hint Resolve deleteAll_tracks : tracks.
Lemma insert_tracks fuel root key value : tracks (insert cb' fuel root key value) (insert cb fuel root key value).
Proof using Hset Hget Hnew Hdel. unfold insert. rewrite validateCallbacks_same. track. Qed.

Lemma replaceAfterDelete_tracks parent idx n child :
  tracks (replaceChildrenAfterDelete cb' parent idx n child) (replaceChildrenAfterDelete cb parent idx n child).
Proof using Hnew. unfold replaceChildrenAfterDelete. track. Qed.
#[local] Hint Resolve replaceAfterDelete_tracks : tracks.
Lemma deleteFinish_tracks node idx child cn obs : tracks (deleteFinish cb' node idx child cn obs) (deleteFinish cb node idx child cn obs).
Proof using Hnew. unfold deleteFinish. track. Qed.
#[local] Hint Resolve deleteFinish_tracks : tracks.
Lemma deleteTryRight_tracks node idx child cn n obs :
  tracks (deleteTryRight cb' node idx child cn n obs) (deleteTryRight cb node idx child cn n obs).
Proof using Hget Hnew. unfold deleteTryRight. track. Qed.
#[local] Hint Resolve deleteTryRight_tracks : tracks.
Lemma deleteRebalance_tracks node idx child obs : tracks (deleteRebalance cb' node idx child obs) (deleteRebalance cb node idx child obs).
Proof using Hget Hnew. unfold deleteRebalance. track. Qed.
#[local] Hint Resolve deleteRebalance_tracks : tracks.
Lemma deleteNode_tracks fuel : forall node key obs, tracks (deleteNode cb' fuel node key obs) (deleteNode cb fuel node key obs).
Proof using Hget Hnew. induction fuel as [|fuel IH]; intros node key obs; cbn [deleteNode]; track. Qed.
#[local] Hint Resolve deleteNode_tracks : tracks.
Lemma delete_tracks fuel root key : tracks (delete cb' fuel root key) (delete cb fuel root key).
Proof using Hset Hget Hnew Hdel. unfold delete. rewrite validateCallbacks_same. track. Qed.
End TreeTracks.

(** ** The observed store *)

Section Callbacks.
Context {St : Type}.
Lemma tracks_then {E A} (m' : stM (St * Bounded) E A) m k' : tracks m' m -> (forall a, tracks (k' a) (ret a)) -> tracks (bind m' k') m.
Proof.
  intros Hm Hk s b. pose proof (tracks_bind m' m k' ret Hm Hk s b) as H. destruct (bind m' k' (s, b)) as [r [s' b']].
  destruct H as [<- T]. split; [|done]. unfold bind, ret. by destruct (m s) as [[] ?].
Qed.
Lemma tracks_ask {E A B} (f : St -> A) (k' : A -> stM (St * Bounded) E B) k :
  (forall a, tracks (k' a) k) -> tracks (a <~ also (asks f) ;; k' a) k.
Proof. intros Hk s b. apply Hk. Qed.
End Callbacks.

Section Store.
Context (attached : bool) (operation : bytes).

Lemma seen_tree_get id : tracks (cb_get (seen_tree attached operation) id) (cb_get bindTree id).
Proof. apply tracks_then; [apply tracks_also|]. intros page. apply tracks_seen, tracks_ret. Qed.
Lemma seen_get_tracks id : tracks (seen_get attached operation id) (work_get id).
Proof. apply tracks_then; [apply tracks_also|]. intros page. apply tracks_seen, tracks_ret. Qed.
Lemma seen_new_tracks node : tracks (seen_new attached operation node) (work_new node).
Proof.
  apply tracks_then; [apply tracks_also|]. intros id. apply tracks_ask. intros [e|]; [apply tracks_ret|]. apply tracks_seen, tracks_ret.
Qed.
Lemma seen_del_tracks id : tracks (seen_del attached operation id) (work_del id).
Proof.
  apply tracks_then; [apply tracks_also|]. intros []. apply tracks_ask. intros failed. apply tracks_ask. intros page.
  destruct failed; [apply tracks_ret|apply tracks_observe].
Qed.

Lemma seen_insert_tracks fuel key value : tracks (seen_treeInsert attached operation fuel key value) (treeInsert fuel key value).
Proof.
  apply tracks_bind; [apply tracks_also|]. intros root. apply tracks_bind; [|intros root'; apply tracks_also].
  apply insert_tracks; [done|apply seen_get_tracks|apply seen_new_tracks|apply seen_del_tracks].
Qed.
Lemma seen_delete_tracks fuel key : tracks (seen_treeDelete attached operation fuel key) (treeDelete fuel key).
Proof.
  apply tracks_bind; [apply tracks_also|]. intros root. apply tracks_bind; [|intros []; track].
  apply delete_tracks; [done|apply seen_get_tracks|apply seen_new_tracks|apply seen_del_tracks].
Qed.
End Store.
#[global] Hint Resolve seen_insert_tracks seen_delete_tracks : tracks.

Lemma seen_batch_tracks attached fuel ms : forall changed, tracks (seen_batchLoop attached fuel ms changed) (batchLoop fuel ms changed).
Proof. induction ms as [|m ms IH]; intros changed; cbn [seen_batchLoop batchLoop]; track. Qed.
#[global] Hint Resolve seen_batch_tracks : tracks.

Lemma seen_update_tracks fuel change' change : tracks change' change -> tracks (seen_update fuel change') (update fuel change).
Proof.
  intros Hc kv b. unfold seen_update, update. destruct (beginUpdate kv) as [[size|e| |] kv1]; try done.
  specialize (Hc (newWork kv1) b). destruct (change' _) as [r [w b']]. destruct Hc as [-> T].
  by destruct (endUpdate fuel kv1 size (r, w)).
Qed.

Lemma seen_Get_tracks attached fuel key : tracks (seen_Get attached fuel key) (Get fuel key).
Proof.
  intros kv b. unfold seen_Get, Get. destruct (k_closed kv); [done|].
  pose proof (getValue_tracks (seen_tree attached (str "get")) bindTree eq_refl (seen_tree_get _ _) fuel (k_root kv) key (k_pages kv) b) as H.
  destruct (getValue (seen_tree _ _) _ _ _ _) as [r [m b']]. by destruct H as [-> T].
Qed.
Lemma seen_Range_tracks attached fuel lo hi : tracks (seen_Range attached fuel lo hi) (Range fuel lo hi).
Proof.
  intros kv b. unfold seen_Range, Range. destruct (k_closed kv); [done|].
  pose proof (rangeValues_tracks (seen_tree attached (str "range")) bindTree eq_refl (seen_tree_get _ _) fuel (k_root kv) lo hi (k_pages kv) b) as H.
  destruct (rangeValues (seen_tree _ _) _ _ _ _ _) as [r [m b']]. by destruct H as [-> T].
Qed.
Lemma seen_Set_tracks attached fuel key value : tracks (seen_Set attached fuel key value) (Set_ fuel key value).
Proof. unfold seen_Set, Set_. track. apply seen_update_tracks. track. Qed.
Lemma seen_Delete_tracks attached fuel key : tracks (seen_Delete attached fuel key) (Delete fuel key).
Proof. unfold seen_Delete, Delete. track. apply seen_update_tracks. track. Qed.
Lemma seen_ApplyBatch_tracks attached fuel ms : tracks (seen_ApplyBatch attached fuel ms) (ApplyBatch fuel ms).
Proof. unfold seen_ApplyBatch, ApplyBatch. track. apply seen_update_tracks. track. Qed.

(** C20: attaching a recorder to the durable store changes no result, no error
    and no state of any operation, whatever the store, the file and the recorder
    hold; the recorder only receives events. *)
Theorem tracing_transparent attached fuel key value lo hi ms :
  tracks (seen_Get attached fuel key) (Get fuel key) /\
  tracks (seen_Range attached fuel lo hi) (Range fuel lo hi) /\
  tracks (seen_Set attached fuel key value) (Set_ fuel key value) /\
  tracks (seen_Delete attached fuel key) (Delete fuel key) /\
  tracks (seen_ApplyBatch attached fuel ms) (ApplyBatch fuel ms).
Proof.
  split; [apply seen_Get_tracks|]. split; [apply seen_Range_tracks|]. split; [apply seen_Set_tracks|].
  split; [apply seen_Delete_tracks|apply seen_ApplyBatch_tracks].
Qed.
