(* ===== verification/Slices.v ===== *)
(** * Slice idioms and observed binary search

    The in-place insertion and removal the sources write out with [append] and
    [copy], and [sort.Search] with a predicate that also acts on the state (it
    emits trace events). *)

From S2P Require Import Prelude.

(** ** Insertion and removal at an index *)

(** [l = append(l, zero); copy(l[i+1:], l[i:]); l[i] = x]. *)
Definition insert_at {E A} (zero : A) (l : list A) (i : Z) (x : A) : outcome E (list A) :=
  let l := l ++ [zero] in
  tail <- slice l i (len l) ;;
  l <- copy_at l (i + 1) tail ;;
  put l i [x].
(** [copy(l[i:], l[i+1:])]; [return l[:len(l)-1]]. *)
Definition delete_at {E A} (l : list A) (i : Z) : outcome E (list A) :=
  tail <- slice l (i + 1) (len l) ;;
  l <- copy_at l i tail ;;
  slice l 0 (len l - 1).

Lemma drop_len {A} (a b : list A) : drop (Z.to_nat (len a)) (a ++ b) = b.
Proof. unfold len. rewrite Nat2Z.id. by rewrite drop_app_length. Qed.
Lemma take_lenl {A} (a b : list A) : take (Z.to_nat (len a)) (a ++ b) = a.
Proof. unfold len. rewrite Nat2Z.id. by rewrite take_app_length. Qed.
Lemma sub_mid {A} (a b c : list A) : sub (a ++ b ++ c) (len a) (len b) = b.
Proof. unfold sub. by rewrite drop_len, take_lenl. Qed.
Lemma upd_mid {A} (a b c d : list A) : len d = len b -> upd (a ++ b ++ c) (len a) d = a ++ d ++ c.
Proof.
  intros H. unfold upd. rewrite take_lenl, H. f_equal. f_equal.
  rewrite <- len_app, app_assoc. apply drop_len.
Qed.

Lemma slice_from {E A} (a b : list A) : @slice E A (a ++ b) (len a) (len (a ++ b)) = Ok b.
Proof.
  rewrite len_app. pose proof (len_nonneg a). pose proof (len_nonneg b). rewrite slice_ok by (rewrite ?len_app; lia).
  f_equal. replace (len a + len b - len a) with (len b) by lia. rewrite <- (app_nil_r b) at 1. apply sub_mid.
Qed.
Lemma slice_to {E A} (a b : list A) : @slice E A (a ++ b) 0 (len a) = Ok a.
Proof.
  pose proof (len_nonneg a). pose proof (len_nonneg b). rewrite slice_ok by (rewrite ?len_app; lia).
  rewrite Z.sub_0_r. f_equal. apply (sub_mid [] a b).
Qed.
Lemma put_one {E A} (a : list A) x y b : @put E A (a ++ x :: b) (len a) [y] = Ok (a ++ y :: b).
Proof.
  pose proof (len_nonneg a). pose proof (len_nonneg b). rewrite put_ok by (rewrite ?len_app, ?len_cons, ?len_nil; lia).
  f_equal. by apply (upd_mid a [x] b [y]).
Qed.
Lemma index_mid {E A} (a : list A) x b : @index E A (a ++ x :: b) (len a) = Ok x.
Proof.
  pose proof (len_nonneg a). unfold index. zdecide. unfold len. rewrite Nat2Z.id.
  by rewrite list_lookup_middle.
Qed.
Lemma index_map {E A B} (f : A -> B) (a : list A) x b : @index E B (map f (a ++ x :: b)) (len a) = Ok (f x).
Proof.
  rewrite map_app. cbn. replace (len a) with (len (map f a)) by (unfold len; by rewrite length_map). apply index_mid.
Qed.
Lemma index_lookup {E A} (l : list A) i x : l !! i = Some x -> @index E A l (Z.of_nat i) = Ok x.
Proof. intros H. unfold index. zdecide. by rewrite Nat2Z.id, H. Qed.

Lemma insert_at_ok {E A} (zero : A) (a b : list A) x : @insert_at E A zero (a ++ b) (len a) x = Ok (a ++ x :: b).
Proof.
  unfold insert_at. rewrite <- app_assoc, slice_from.
  assert (H : exists y t, b ++ [zero] = y :: t /\ len t = len b).
  { destruct b as [|y b]; [by exists zero, []|]. exists y, (b ++ [zero]). split; [done|].
    rewrite len_app, !len_cons, len_nil. lia. }
  destruct H as (y & t & Hb & Ht). rewrite Hb. unfold copy_at.
  pose proof (len_nonneg a). pose proof (len_nonneg b).
  rewrite len_app, len_cons, Ht. zdecide.
  replace (len a + (1 + len b) - (len a + 1)) with (len b) by lia.
  replace (take (Z.to_nat (len b)) (y :: t)) with b by (rewrite <- Hb; symmetry; apply take_lenl).
  change (y :: t) with ([y] ++ t). rewrite app_assoc.
  replace (len a + 1) with (len (a ++ [y])) by (rewrite len_app; done).
  pose proof (upd_mid (a ++ [y]) t [] b ltac:(lia)) as Hu. rewrite !app_nil_r in Hu. rewrite Hu, <- app_assoc.
  apply put_one.
Qed.
(** After the shift the last element is stale. *)
Lemma shift_left {E A} (a : list A) x b : exists y,
  @slice E A (a ++ x :: b) (len a + 1) (len (a ++ x :: b)) = Ok b /\
  @copy_at E A (a ++ x :: b) (len a) b = Ok ((a ++ b) ++ [y]).
Proof.
  pose proof (len_nonneg a). pose proof (len_nonneg b).
  assert (H1 : exists y, x :: b = take (length b) (x :: b) ++ [y]).
  { destruct (exists_last (l := x :: b)) as (t & y & Hy); [done|]. exists y. rewrite Hy at 1. f_equal.
    rewrite Hy. assert (length b = length t) as ->; [|by rewrite take_app_length].
    apply (f_equal length) in Hy. rewrite length_app in Hy. cbn in Hy. lia. }
  destruct H1 as [y Hy]. exists y. split.
  - replace (len a + 1) with (len (a ++ [x])) by (rewrite len_app; done).
    replace (a ++ x :: b) with ((a ++ [x]) ++ b) by (by rewrite <- app_assoc). apply slice_from.
  - rewrite copy_at_ok by (rewrite ?len_app, ?len_cons; lia). f_equal.
    rewrite Hy, upd_mid by (unfold len; rewrite length_take; cbn; lia). by rewrite app_assoc.
Qed.
Lemma slice_init {E A} (l : list A) y : @slice E A (l ++ [y]) 0 (len (l ++ [y]) - 1) = Ok l.
Proof. rewrite len_app. change (len [y]) with 1. rewrite Z.add_simpl_r. apply slice_to. Qed.
Lemma put_last {E A} (l : list A) y z : @put E A (l ++ [y]) (len (l ++ [y]) - 1) [z] = Ok (l ++ [z]).
Proof. rewrite len_app. change (len [y]) with 1. rewrite Z.add_simpl_r. apply put_one. Qed.

Lemma delete_at_ok {E A} (a : list A) x b : @delete_at E A (a ++ x :: b) (len a) = Ok (a ++ b).
Proof.
  destruct (@shift_left E A a x b) as (y & Hs & Hc). unfold delete_at. rewrite Hs, Hc. apply slice_init.
Qed.

(** The same with the index given by its value. *)
Lemma len_map {A B} (f : A -> B) l : len (map f l) = len l.
Proof. unfold len. by rewrite length_map. Qed.
Lemma index_at {E A} (l a : list A) x b i : l = a ++ x :: b -> i = len a -> @index E A l i = Ok x.
Proof. intros -> ->. apply index_mid. Qed.
Lemma put_at {E A} (l a : list A) x b i y : l = a ++ x :: b -> i = len a -> @put E A l i [y] = Ok (a ++ y :: b).
Proof. intros -> ->. apply put_one. Qed.
Lemma insert_at_at {E A} z (l a : list A) b i y : l = a ++ b -> i = len a -> @insert_at E A z l i y = Ok (a ++ y :: b).
Proof. intros -> ->. apply insert_at_ok. Qed.
Lemma delete_at_at {E A} (l a : list A) x b i : l = a ++ x :: b -> i = len a -> @delete_at E A l i = Ok (a ++ b).
Proof. intros -> ->. apply delete_at_ok. Qed.
Lemma slice_from_at {E A} (l a b : list A) i j : l = a ++ b -> i = len a -> j = len l -> @slice E A l i j = Ok b.
Proof. intros -> -> ->. apply slice_from. Qed.
Lemma slice_to_at {E A} (l a b : list A) i : l = a ++ b -> i = len a -> @slice E A l 0 i = Ok a.
Proof. intros -> ->. apply slice_to. Qed.

(** ** [sort.Search] with an observed predicate *)

Fixpoint searchM_loop {S E} (fuel : nat) (f : Z -> stM S E bool) (i j : Z) : stM S E Z :=
  if i <? j then
    match fuel with
    | O => diverge
    | Datatypes.S fuel =>
        let h := (i + j) / 2 in
        b <~ f h ;;
        if (b : bool) then searchM_loop fuel f i h else searchM_loop fuel f (h + 1) j
    end
  else ret i.
Definition searchM {S E} (n : Z) (f : Z -> stM S E bool) : stM S E Z := searchM_loop (Z.to_nat n) f 0 n.

(** It finds what [search] finds with the predicate's values, and keeps what the
    predicate keeps. *)
Lemma searchM_search {S E} (I : S -> Prop) (f : Z -> stM S E bool) (g : Z -> outcome E bool) fuel : forall i j m s,
  search_loop fuel g i j = Ok m -> I s -> 0 <= i ->
  (forall h b s, 0 <= h < j -> g h = Ok b -> I s -> ends (f h) s (fun b' s' => b' = b /\ I s') no_err) ->
  ends (searchM_loop fuel f i j) s (fun m' s' => m' = m /\ I s') no_err.
Proof.
  induction fuel as [|fuel IH]; intros i j m s Hg HI Hi Hf; cbn [search_loop searchM_loop] in *;
    (destruct (i <? j) eqn:Hij; [|injection Hg as ->; done]); [done|]. zbool.
  assert (Hh : i <= (i + j) / 2 < j) by (split; [apply Z.div_le_lower_bound|apply Z.div_lt_upper_bound]; lia).
  destruct (g ((i + j) / 2)) as [b| | |] eqn:Eg; try done.
  eapply ends_step; [apply (Hf _ b); [lia|done|done]|]. intros b' s' [-> HI'].
  destruct b; eapply IH; try done; try lia. intros h b s0 Hb. apply Hf. lia.
Qed.

(** Over a list whose elements satisfying [negb p] come first. *)
Lemma searchM_list {S E A} (I : S -> Prop) (f : Z -> stM S E bool) (p : A -> bool) (l k : list A) s :
  (forall i x s, (l ++ k) !! i = Some x -> I s -> ends (f (Z.of_nat i)) s (fun b s' => b = p x /\ I s') no_err) ->
  Forall (fun x => p x = false) l -> Forall (fun x => p x = true) k -> I s ->
  ends (searchM (len (l ++ k)) f) s (fun m s' => m = len l /\ I s') no_err.
Proof.
  intros Hf Hl Hk HI.
  set (g := fun i : Z => match (l ++ k) !! Z.to_nat i with Some x => Ok (E := E) (p x) | None => Ok true end).
  apply (searchM_search I f g); [|done|lia|].
  - apply (search_list g p); [|done..]. intros i x Hx. unfold g. by rewrite Nat2Z.id, Hx.
  - intros h b s0 Hh Hg HI0. unfold g in Hg. destruct ((l ++ k) !! Z.to_nat h) as [x|] eqn:Ex.
    + injection Hg as <-. rewrite <- (Z2Nat.id h) by lia. by apply Hf.
    + apply lookup_ge_None in Ex. unfold len in Hh. lia.
Qed.
