(* ===== verification/Structures.v ===== *)
(** * The teaching structures (src/internal/structures)

    The interface [structures.KV] as a record of operations, what its users
    rely on as a class, and the hash map and the sorted slice as instances that
    never fail. An
    operation runs on the structure's state together with the recorder its
    observer may be attached to: several structures of one run share one
    recorder. *)

From Stdlib Require Import Strings.String.
From S2P Require Import Prelude KvList Errors Engine Database DatabaseSpec Trace Slices.

(** ** The interface *)

Abbreviation SM S := (stM (S * Bounded)%type engine_error).

Record Structure (S : Type) := mkStructure {
  s_Get : bytes -> SM S (option bytes);
  s_Range : bytes -> bytes -> SM S (list kv);
  s_Set : bytes -> bytes -> SM S unit;
  s_Delete : bytes -> SM S bool;
  s_SetTrace : S -> S;
}.
Arguments mkStructure {S}. Arguments s_Get {S}. Arguments s_Range {S}.
Arguments s_Set {S}. Arguments s_Delete {S}. Arguments s_SetTrace {S}.

(** [observer.emit]; [sink] tells whether a recorder is attached. *)
Definition emit (sink : bool) (kind layer key detail : bytes) (b : Bounded) : Bounded :=
  if sink && Bounded_Enabled b
  then Bounded_Emit (mkEvent 0 layer [] [] 0 kind [] [] key 0 0 detail) b else b.

Lemma emit_traced sink kind layer key detail b : traced b (emit sink kind layer key detail b).
Proof. unfold emit. destruct (_ && _); [apply traced_emit|done]. Qed.
#[global] Hint Resolve emit_traced : core.

(** The observer's own step, and access to the structure. *)
Definition tell {S E} (f : S -> Bounded -> Bounded) : stM (S * Bounded) E unit := fun '(s, b) => (Ok tt, (s, f s b)).
Definition look {S E A} (f : S -> A) : stM (S * Bounded) E A := fun sb => (Ok (f sb.1), sb).
Definition assign {S E} (f : S -> S) : stM (S * Bounded) E unit := fun '(s, b) => (Ok tt, (f s, b)).

Lemma ends_tell {S E A} (f : S -> Bounded -> Bounded) (k : stM (S * Bounded) E A) s b Q R :
  traced b (f s b) -> (forall b', traced b b' -> ends k (s, b') Q R) -> ends (_ <~ tell f ;; k) (s, b) Q R.
Proof. intros H K. apply ends_bind. cbn. by apply K. Qed.

(** ** What the users of a structure rely on

    [has s l]: the structure holds the entries [l]. [able s l]: it can take a
    change. An update returns an error only where [set_fails] or [delete_fails]
    says so, and leaves the entries as they were then. No operation does
    anything to the recorder but emit events. *)
Class StructureSpec {S} (st : Structure S) := {
  has : S -> list kv -> Prop;
  able : S -> list kv -> Prop;
  set_fails : bytes -> bytes -> Prop;
  delete_fails : bytes -> Prop;
  takes_key : bytes -> Prop;
  takes_bound : bytes -> Prop;
  sp_sorted s l : has s l -> kv_sorted l;
  sp_able_has s l : able s l -> has s l;
  sp_trace s l : has s l -> has (s_SetTrace st s) l;
  sp_get s b l k : has s l -> takes_key k ->
    ends (s_Get st k) (s, b) (fun v sb => v = kv_get k l /\ has sb.1 l /\ traced b sb.2) no_err;
  sp_range s b l lo hi : has s l -> takes_bound lo -> takes_bound hi ->
    ends (s_Range st lo hi) (s, b) (fun v sb => v = kv_range lo hi l /\ has sb.1 l /\ traced b sb.2) no_err;
  sp_set s b l k v : able s l ->
    ends (s_Set st k v) (s, b) (fun _ sb => has sb.1 (kv_set k v l) /\ traced b sb.2)
      (fun _ sb => set_fails k v /\ has sb.1 l /\ traced b sb.2);
  sp_delete s b l k : able s l ->
    ends (s_Delete st k) (s, b)
      (fun d sb => d = bool_decide (is_Some (kv_get k l)) /\ has sb.1 (kv_del k l) /\ traced b sb.2)
      (fun _ sb => delete_fails k /\ has sb.1 l /\ traced b sb.2);
}.

(** ** The hash map *)

Record Map := mkMap { m_sink : bool; m_values : gmap bytes bytes }.
Definition NewMap : Map := mkMap false ∅.

Definition Map_SetTrace (m : Map) : Map := mkMap true (m_values m).
Definition Map_emit (kind key detail : bytes) : SM Map unit :=
  tell (fun m b => emit (m_sink m) kind (str "backing") key detail b).
Definition Map_Set (k v : bytes) : SM Map unit :=
  _ <~ assign (fun m => mkMap (m_sink m) (<[k := v]> (m_values m))) ;;
  Map_emit (str "mutation") k (str "Hash map entry stored").
Definition Map_Get (k : bytes) : SM Map (option bytes) :=
  _ <~ Map_emit Ev.Lookup k (str "Hash map lookup; Go bucket internals are not exposed") ;;
  look (fun m => m_values m !! k).
Definition Map_Delete (k : bytes) : SM Map bool :=
  _ <~ Map_emit (str "mutation") k (str "Hash map delete") ;;
  ok <~ look (fun m => bool_decide (is_Some (m_values m !! k))) ;;
  _ <~ assign (fun m => mkMap (m_sink m) (delete k (m_values m))) ;;
  ret ok.
(** The loop over the map appends the matching keys in some order; they are
    sorted before they are read. *)
Definition Map_Range (start end_ : bytes) : SM Map (list kv) :=
  _ <~ Map_emit Ev.Traversal [] (str "Scan map entries and sort matching keys") ;;
  look (fun m =>
    let keys := List.filter (fun k => bleb start k && bleb k end_) (map_to_list (m_values m)).*1 in
    items_of (m_values m) (sort_strings keys)).

Definition MapKV : Structure Map := mkStructure Map_Get Map_Range Map_Set Map_Delete Map_SetTrace.

(** ** The sorted slice *)

Record SortedSlice := mkSorted { ss_sink : bool; ss_entries : list kv }.
Definition NewSortedSlice : SortedSlice := mkSorted false [].
Definition SortedSlice_SetTrace (s : SortedSlice) : SortedSlice := mkSorted true (ss_entries s).

Definition SortedSlice_emit (kind key detail : bytes) : SM SortedSlice unit :=
  tell (fun s b => emit (ss_sink s) kind (str "backing") key detail b).
Definition set_entries (l : list kv) : SM SortedSlice unit := assign (fun s => mkSorted (ss_sink s) l).

(** The predicate of the binary search emits one event per comparison. *)
Definition compareAt (k : bytes) (i : Z) : SM SortedSlice bool :=
  l <~ look ss_entries ;;
  e <! index l i ;;
  _ <~ tell (fun s b =>
    if ss_sink s && Bounded_Enabled b
    then Bounded_Emit (mkEvent 0 (str "backing") [e.1] [] 0 Ev.Comparison [] [] e.1 1 0 (str "Binary search comparison")) b
    else b) ;;
  ret (bleb k e.1).
Definition position (k : bytes) : SM SortedSlice Z :=
  l <~ look ss_entries ;; searchM (len l) (compareAt k).
(** [i < len(s.entries) && bytes.Equal(s.entries[i].Key, k)]. *)
Definition keyAt (l : list kv) (i : Z) (k : bytes) : outcome engine_error bool :=
  if i >=? len l then Ok false else e <- index l i ;; Ok (beqb e.1 k).

Definition SortedSlice_Get (k : bytes) : SM SortedSlice (option bytes) :=
  i <~ position k ;;
  l <~ look ss_entries ;;
  there <! keyAt l i k ;;
  if (there : bool) then e <! index l i ;; ret (Some e.2) else ret None.
Definition SortedSlice_Set (k v : bytes) : SM SortedSlice unit :=
  _ <~ SortedSlice_emit (str "mutation") k (str "Store entry in sorted array") ;;
  i <~ position k ;;
  l <~ look ss_entries ;;
  there <! keyAt l i k ;;
  if (there : bool) then
    e <! index l i ;;
    l <! put l i [(e.1, v)] ;;
    set_entries l
  else
    l <! insert_at ([], []) l i (k, v) ;;
    set_entries l.
Definition SortedSlice_Delete (k : bytes) : SM SortedSlice bool :=
  _ <~ SortedSlice_emit (str "mutation") k (str "Remove entry from sorted array") ;;
  i <~ position k ;;
  l <~ look ss_entries ;;
  there <! keyAt l i k ;;
  if (there : bool) then
    tail <! slice l (i + 1) (len l) ;;
    l <! copy_at l i tail ;;
    l <! put l (len l - 1) [([], [])] ;;
    l <! slice l 0 (len l - 1) ;;
    _ <~ set_entries l ;; ret true
  else ret false.
(** The loop of [Range] from index [i] on. *)
Fixpoint rangeLoop (fuel : nat) (i : Z) (end_ : bytes) (result : list kv) : SM SortedSlice (list kv) :=
  l <~ look ss_entries ;;
  if i >=? len l then ret result
  else
    e <! index l i ;;
    if bleb e.1 end_ then
      match fuel with
      | O => diverge
      | S fuel =>
          _ <~ SortedSlice_emit Ev.Traversal e.1 (str "Read matching array entry") ;;
          rangeLoop fuel (i + 1) end_ (result ++ [e])
      end
    else ret result.
Definition SortedSlice_Range (start end_ : bytes) : SM SortedSlice (list kv) :=
  i <~ position start ;;
  l <~ look ss_entries ;;
  rangeLoop (length l) i end_ [].

Definition SortedSliceKV : Structure SortedSlice :=
  mkStructure SortedSlice_Get SortedSlice_Range SortedSlice_Set SortedSlice_Delete SortedSlice_SetTrace.

(** ** The hash map and the sorted slice keep the promise

    The sorted slice through the binary search it does on every access. *)

(** *** The hash map *)

#[global] Program Instance Map_spec : StructureSpec MapKV := {|
  has m l := l = entries (m_values m);
  able m l := l = entries (m_values m);
  set_fails _ _ := False;
  delete_fails _ := False;
  takes_key _ := True;
  takes_bound _ := True;
|}.
Next Obligation. intros m l ->. apply entries_sorted. Qed.
Next Obligation. done. Qed.
Next Obligation. done. Qed.
Next Obligation.
  intros m b l k -> _. apply ends_tell; [auto|]. intros b' Hb. cbn. by rewrite entries_get.
Qed.
Next Obligation.
  intros m b l lo hi -> _ _. apply ends_tell; [auto|]. intros b' Hb. cbn. split; [|done].
  apply range_listing; [apply sort_strings_perm|].
  apply sort_strings_sorted, NoDup_ListNoDup, List.NoDup_filter, NoDup_ListNoDup, map_keys_nodup.
Qed.
Next Obligation. intros m b l k v ->. cbn. split; [by rewrite entries_set|auto]. Qed.
Next Obligation.
  intros m b l k ->. apply ends_tell; [auto|]. intros b' Hb. cbn. by rewrite entries_get, entries_del.
Qed.

(** ** The sorted slice *)

Section SortedSlice.
Implicit Types s : SortedSlice.

Lemma compareAt_ok s b k i e : ss_entries s !! i = Some e ->
  ends (compareAt k (Z.of_nat i)) (s, b) (fun r sb => r = bleb k e.1 /\ (sb.1 = s /\ traced b sb.2)) no_err.
Proof.
  intros H. unfold compareAt. apply ends_bind. cbn. eapply ends_lift; [by apply index_lookup|].
  apply ends_tell; [destruct (_ && _); [apply traced_emit|done]|]. done.
Qed.

Lemma position_ok s b k l r :
  ss_entries s = l ++ r -> below k l -> Forall (fun p => ble k p.1) r ->
  ends (position k) (s, b) (fun i sb => i = len l /\ (sb.1 = s /\ traced b sb.2)) no_err.
Proof.
  intros Hs Hl Hr. unfold position. apply ends_bind. cbn. rewrite Hs.
  apply (searchM_list (fun sb => sb.1 = s /\ traced b sb.2) (compareAt k) (fun p => bleb k p.1)).
  - intros i x [s' b'] Hi [[= ->] Hb]. cbn in Hb. rewrite <- Hs in Hi. eapply ends_mono; [by apply compareAt_ok| |done].
    cbn. intros a sb (-> & -> & Hb'). split_and!; [done..|]. by etrans.
  - eapply Forall_impl; [exact Hl|]. cbn. intros p Hp. border.
  - eapply Forall_impl; [exact Hr|]. cbn. intros p Hp. border.
  - done.
Qed.

Lemma above_ble k r : above k r -> Forall (fun p => ble k p.1) r.
Proof. intros H. eapply Forall_impl; [exact H|]. cbn. intros. border. Qed.

Lemma keyAt_at k l v r : keyAt (l ++ (k, v) :: r) (len l) k = Ok true.
Proof.
  unfold keyAt. rewrite len_app, len_cons. pose proof (len_nonneg r). zdecide. rewrite index_mid. cbn. by rewrite beqb_refl.
Qed.
Lemma keyAt_gap k l r : above k r -> keyAt (l ++ r) (len l) k = Ok false.
Proof.
  intros H. unfold keyAt. destruct r as [|e r]; [rewrite app_nil_r; by zdecide|].
  rewrite len_app, len_cons. pose proof (len_nonneg r). zdecide. rewrite index_mid. cbn. f_equal.
  inversion H; subst. border.
Qed.

(** Where the search stops and whether the key is there. *)
Lemma find_at {A} s b k l v r (m : Z -> SM SortedSlice A) Q R :
  ss_entries s = l ++ (k, v) :: r -> below k l -> above k r ->
  (forall b', traced b b' -> ends (m (len l)) (s, b') Q R) -> ends (i <~ position k ;; m i) (s, b) Q R.
Proof.
  intros Hs Hl Hr Hm. eapply ends_step; [eapply position_ok; [exact Hs|done|]|].
  - constructor; [cbn; border|by apply above_ble].
  - intros i [s' b'] (-> & [[= ->] Hb]). by apply Hm.
Qed.
Lemma find_gap {A} s b k l r (m : Z -> SM SortedSlice A) Q R :
  ss_entries s = l ++ r -> below k l -> above k r ->
  (forall b', traced b b' -> ends (m (len l)) (s, b') Q R) -> ends (i <~ position k ;; m i) (s, b) Q R.
Proof.
  intros Hs Hl Hr Hm. eapply ends_step; [eapply position_ok; [exact Hs|done|by apply above_ble]|].
  intros i [s' b'] (-> & [[= ->] Hb]). by apply Hm.
Qed.

Lemma rangeLoop_ok s lo hi : forall fuel b l r acc,
  ss_entries s = l ++ r -> kv_sorted r -> Forall (fun p => ble lo p.1) r -> (length r <= fuel)%nat ->
  ends (rangeLoop fuel (len l) hi acc) (s, b)
    (fun v sb => v = acc ++ kv_range lo hi r /\ (sb.1 = s /\ traced b sb.2)) no_err.
Proof.
  induction fuel as [|fuel IH]; intros b l r acc Hs Hr Hlo Hf; cbn [rangeLoop]; apply ends_bind; cbn; rewrite Hs.
  - destruct r; cbn in Hf; [|lia]. rewrite app_nil_r. zdecide. by rewrite app_nil_r.
  - destruct r as [|p r]; [rewrite app_nil_r; zdecide; by rewrite app_nil_r|].
    rewrite len_app, len_cons. pose proof (len_nonneg r). zdecide.
    eapply ends_lift; [apply index_mid|]. apply kv_sorted_cons in Hr as [Hr Ha].
    apply Forall_cons in Hlo as [Hp Hlo]. destruct (bleb p.1 hi) eqn:E; bool_order.
    + apply ends_tell; [auto|]. intros b' Hb.
      replace (len l + 1) with (len (l ++ [p])) by (rewrite len_app; done).
      eapply ends_mono; [apply (IH b' (l ++ [p]) r (acc ++ [p])); try done; [by rewrite <- app_assoc|cbn in Hf; lia]| |done].
      cbn beta. intros v sb (-> & -> & Hb'). rewrite kv_range_cons, <- app_assoc by done. split_and!; [done..|by etrans].
    + rewrite (kv_range_above lo hi (p :: r)), app_nil_r; [done|]. constructor; [done|]. eapply above_le; [done|border].
Qed.
End SortedSlice.

#[global] Program Instance SortedSlice_spec : StructureSpec SortedSliceKV := {|
  has s l := kv_sorted l /\ ss_entries s = l;
  able s l := kv_sorted l /\ ss_entries s = l;
  set_fails _ _ := False;
  delete_fails _ := False;
  takes_key _ := True;
  takes_bound _ := True;
|}.
Next Obligation. by intros s l []. Qed.
Next Obligation. done. Qed.
Next Obligation. done. Qed.
Next Obligation.
  intros s b l k [Hs He] _. destruct (kv_cutP k l Hs) as [x v y Hx Hy|x y Hx Hy].
  - cbn. eapply find_at; [done..|]. intros b' Hb. apply ends_bind. cbn. rewrite He.
    eapply ends_lift; [apply keyAt_at|]. cbn iota. eapply ends_lift; [apply index_mid|]. cbn.
    by rewrite kv_get_at.
  - cbn. eapply find_gap; [done..|]. intros b' Hb. apply ends_bind. cbn. rewrite He.
    eapply ends_lift; [by apply keyAt_gap|]. cbn. by rewrite kv_get_gap.
Qed.
Next Obligation.
  intros s b l lo hi [Hs He] _ _. cbn. unfold SortedSlice_Range.
  assert (exists x y, l = x ++ y /\ below lo x /\ Forall (fun p => ble lo p.1) y) as (x & y & -> & Hx & Hy).
  { destruct (kv_cutP lo l Hs) as [x v y Hx Hy|x y Hx Hy].
    - exists x, ((lo, v) :: y). split_and!; [done..|]. constructor; [cbn; border|by apply above_ble].
    - exists x, y. split_and!; [done..|by apply above_ble]. }
  eapply ends_step; [by eapply position_ok|]. intros i [s' b'] (-> & [[= ->] Hb]). apply ends_bind. cbn. rewrite He.
  apply kv_sorted_app in Hs as Hs'. eapply ends_mono; [apply (rangeLoop_ok s lo hi _ b' x y)| |done]; try done.
  - by destruct Hs' as (_ & ? & _).
  - rewrite length_app. lia.
  - cbn beta. intros v [s1 b1] (-> & [= ->] & Hb'). rewrite kv_range_app, (kv_range_below lo hi x) by done.
    split_and!; [done..|]. cbn in *. by etrans.
Qed.
Next Obligation.
  intros s b l k w [Hs He]. cbn. apply ends_tell; [auto|]. intros b1 Hb1.
  pose proof (kv_sorted_set k w l Hs) as Hs'. destruct (kv_cutP k l Hs) as [x v y Hx Hy|x y Hx Hy].
  - eapply find_at; [done..|]. intros b' Hb. apply ends_bind. cbn. rewrite He.
    eapply ends_lift; [apply keyAt_at|]. cbn iota. eapply ends_lift; [apply index_mid|]. cbn.
    eapply ends_lift; [apply put_one|]. cbn. rewrite kv_set_at in * by done. split_and!; [done..|]. by etrans.
  - eapply find_gap; [done..|]. intros b' Hb. apply ends_bind. cbn. rewrite He.
    eapply ends_lift; [by apply keyAt_gap|]. cbn iota. eapply ends_lift; [apply insert_at_ok|]. cbn.
    rewrite kv_set_gap in * by done. split_and!; [done..|]. by etrans.
Qed.
Next Obligation.
  intros s b l k [Hs He]. cbn. apply ends_tell; [auto|]. intros b1 Hb1.
  pose proof (kv_sorted_del k l Hs) as Hs'. destruct (kv_cutP k l Hs) as [x v y Hx Hy|x y Hx Hy].
  - eapply find_at; [done..|]. intros b' Hb. apply ends_bind. cbn. rewrite He.
    eapply ends_lift; [apply keyAt_at|]. cbn iota.
    destruct (@shift_left engine_error _ x (k, v) y) as (z & Hsl & Hc).
    eapply ends_lift; [exact Hsl|]. eapply ends_lift; [exact Hc|].
    eapply ends_lift; [apply put_last|]. eapply ends_lift; [apply slice_init|]. cbn.
    rewrite kv_get_at, kv_del_at in * by done. split_and!; [done..|]. by etrans.
  - eapply find_gap; [done..|]. intros b' Hb. apply ends_bind. cbn. rewrite He.
    eapply ends_lift; [by apply keyAt_gap|]. cbn.
    rewrite kv_get_gap, kv_del_gap in * by done. split_and!; [done..|]. by etrans.
Qed.
