(* ===== verification/Cache.v ===== *)
(** * The read cache (src/internal/structures/cache.go)

    An LRU cache over any structure. The doubly linked list of container/list is
    the list of its elements from front to back; an element carries the identity
    [el_id] that stands for its address, by which [entries] refers to it.
    [BackingNS], a sum of clock readings, is left out. *)

From Stdlib Require Import Strings.String.
From S2P Require Import Prelude KvList Errors Trace Slices Structures.

Record CacheStats := mkStats { Hits : Z; Misses : Z; Evictions : Z; BackingCalls : Z }.
(** A [*list.Element] whose value is the [cacheEntry] of [el_key] and [el_value]. *)
Record element := mkElement { el_id : nat; el_key : bytes; el_value : bytes }.

Record Cache (S : Type) := mkCache {
  c_sink : bool;
  c_backing : S;
  c_capacity : Z;
  c_order : list element;
  c_entries : gmap bytes nat;
  c_stats : CacheStats;
  c_fresh : nat;
}.
Arguments mkCache {S}. Arguments c_sink {S}. Arguments c_backing {S}. Arguments c_capacity {S}.
Arguments c_order {S}. Arguments c_entries {S}. Arguments c_stats {S}. Arguments c_fresh {S}.

(** ** container/list *)

Definition list_find (id : nat) (l : list element) : option element :=
  List.find (fun e => Nat.eqb (el_id e) id) l.
Definition list_Remove (id : nat) (l : list element) : list element :=
  List.filter (fun e => negb (Nat.eqb (el_id e) id)) l.
Definition list_MoveToFront (id : nat) (l : list element) : list element :=
  match list_find id l with Some e => e :: list_Remove id l | None => l end.
Definition list_Back (l : list element) : option element := last l.

Section Cache.
Context {S : Type} (backing : Structure S).
Abbreviation CM := (SM (Cache S)).
Implicit Types c : Cache S.

Definition set_backing (s : S) c : Cache S :=
  mkCache (c_sink c) s (c_capacity c) (c_order c) (c_entries c) (c_stats c) (c_fresh c).
Definition set_lists (order : list element) (entries : gmap bytes nat) c : Cache S :=
  mkCache (c_sink c) (c_backing c) (c_capacity c) order entries (c_stats c) (c_fresh c).
Definition set_stats (f : CacheStats -> CacheStats) c : Cache S :=
  mkCache (c_sink c) (c_backing c) (c_capacity c) (c_order c) (c_entries c) (f (c_stats c)) (c_fresh c).
Definition hit (s : CacheStats) : CacheStats := mkStats (Hits s + 1) (Misses s) (Evictions s) (BackingCalls s).
Definition miss (s : CacheStats) : CacheStats := mkStats (Hits s) (Misses s + 1) (Evictions s) (BackingCalls s).
Definition evicted (s : CacheStats) : CacheStats := mkStats (Hits s) (Misses s) (Evictions s + 1) (BackingCalls s).
Definition called (s : CacheStats) : CacheStats := mkStats (Hits s) (Misses s) (Evictions s) (BackingCalls s + 1).

(** [NewCache]; the capacity is checked, the backing structure is not nil. *)
Definition NewCache (s : S) (capacity : Z) : option (Cache S) :=
  if (capacity <? 1) || (capacity >? 256) then None
  else Some (mkCache false s capacity [] ∅ (mkStats 0 0 0 0) 0).
Definition Stats c : CacheStats := c_stats c.
Definition Cache_SetTrace c : Cache S :=
  mkCache true (c_backing c) (c_capacity c) (c_order c) (c_entries c) (c_stats c) (c_fresh c).

Definition Cache_emit (kind key detail : bytes) : CM unit :=
  tell (fun c b => emit (c_sink c) kind (str "cache") key detail b).

Definition invalidate (key : bytes) c : Cache S :=
  match c_entries c !! key with
  | Some id => set_lists (list_Remove id (c_order c)) (delete key (c_entries c)) c
  | None => c
  end.

(** A call of the backing structure and the [record] that follows it, also when
    the call failed. *)
Definition recorded {A} (m : SM S A) : CM A := fun '(c, b) =>
  let '(r, (s, b')) := m (c_backing c, b) in (r, (set_stats called (set_backing s c), b')).

(** [order.PushFront] of a new element, entered under its key. *)
Definition fill (key value : bytes) c : Cache S :=
  mkCache (c_sink c) (c_backing c) (c_capacity c)
    (mkElement (c_fresh c) key value :: c_order c) (<[key := c_fresh c]> (c_entries c))
    (c_stats c) (Datatypes.S (c_fresh c)).

(** Makes room for one element when the cache is full. *)
Definition evict : CM unit :=
  full <~ look (fun c => Z.of_nat (size (c_entries c)) =? c_capacity c) ;;
  if (full : bool) then
    back <~ look (fun c => list_Back (c_order c)) ;;
    match back with
    | None => lift Panic
    | Some e =>
        _ <~ Cache_emit (str "cache_eviction") (el_key e) (str "Evict least recently used entry") ;;
        assign (fun c => set_stats evicted (set_lists (list_Remove (el_id e) (c_order c)) (delete (el_key e) (c_entries c)) c))
    end
  else ret tt.

Definition Cache_Get (key : bytes) : CM (option bytes) :=
  found <~ look (fun c => c_entries c !! key) ;;
  match found with
  | Some id =>
      _ <~ assign (set_stats hit) ;;
      _ <~ Cache_emit (str "cache_hit") key (str "Return cached value") ;;
      _ <~ assign (fun c => set_lists (list_MoveToFront id (c_order c)) (c_entries c) c) ;;
      e <~ look (fun c => list_find id (c_order c)) ;;
      match e with Some e => ret (Some (el_value e)) | None => lift Panic end
  | None =>
      _ <~ assign (set_stats miss) ;;
      _ <~ Cache_emit (str "cache_miss") key (str "Read through to backing structure") ;;
      value <~ recorded (s_Get backing key) ;;
      match value with
      | None => ret None
      | Some value =>
          _ <~ evict ;;
          _ <~ assign (fill key value) ;;
          _ <~ Cache_emit (str "cache_fill") key (str "Cache backing result") ;;
          ret (Some value)
      end
  end.
Definition Cache_Set (key value : bytes) : CM unit :=
  _ <~ recorded (s_Set backing key value) ;;
  _ <~ assign (invalidate key) ;;
  Cache_emit (str "cache_invalidation") key (str "Invalidate after backing write").
Definition Cache_Delete (key : bytes) : CM bool :=
  found <~ recorded (s_Delete backing key) ;;
  _ <~ assign (invalidate key) ;;
  _ <~ Cache_emit (str "cache_invalidation") key (str "Invalidate after backing delete") ;;
  ret found.
Definition Cache_Range (start end_ : bytes) : CM (list kv) :=
  _ <~ Cache_emit (str "cache_bypass") [] (str "Range reads backing structure") ;;
  recorded (s_Range backing start end_).

Definition CacheKV : Structure (Cache S) := mkStructure Cache_Get Cache_Range Cache_Set Cache_Delete Cache_SetTrace.
End Cache.
