(* ===== verification/CacheSpec.v ===== *)
(** * The cache is transparent

    The cached values agree with the backing structure, the list and the map of
    the cache index each other, and there are at most [capacity] entries: the
    cache over any structure keeps the promise of that structure. The keys kept
    are those of a textbook LRU. *)

From S2P Require Import Prelude KvList Errors Trace Slices Structures Cache.

(** ** The list and the map of the cache *)

Definition okeys (l : list element) : list bytes := map el_key l.
Definition oids (l : list element) : list nat := map el_id l.
Definition index_of (l : list element) : gmap bytes nat := list_to_map (map (fun e => (el_key e, el_id e)) l).
Lemma okeys_fst l : (map (fun e => (el_key e, el_id e)) l).*1 = okeys l.
Proof. unfold okeys. induction l; cbn; f_equal; done. Qed.

(** The keys other than [k], and the keys of an LRU cache of [n] entries after
    [k] was read. *)
Definition drop_key (k : bytes) (ks : list bytes) : list bytes := List.filter (fun x => negb (beqb x k)) ks.
Definition lru_touch (n : Z) (k : bytes) (ks : list bytes) : list bytes := take (Z.to_nat n) (k :: drop_key k ks).

Lemma drop_key_absent k ks : k ∉ ks -> drop_key k ks = ks.
Proof.
  unfold drop_key. induction ks as [|x ks IH]; [done|]. rewrite not_elem_of_cons. intros [Hx Hk]. cbn.
  rewrite (proj2 (beqb_neq x k)) by congruence. cbn. by rewrite IH.
Qed.
Lemma drop_key_mid k a b : NoDup (a ++ k :: b) -> drop_key k (a ++ k :: b) = a ++ b.
Proof.
  intros (_ & Ha & Hb)%NoDup_app. apply NoDup_cons in Hb as [Hb _]. unfold drop_key. rewrite List.filter_app. cbn.
  rewrite beqb_refl. cbn. fold (drop_key k a) (drop_key k b). rewrite !drop_key_absent; [done|done|].
  intros H. apply (Ha k H). by left.
Qed.

Section Lists.
Implicit Types l : list element.

Lemma index_size l : NoDup (okeys l) -> size (index_of l) = length l.
Proof.
  intros H. unfold index_of. rewrite map_size_list_to_map by (by rewrite okeys_fst). by rewrite length_map.
Qed.
Lemma index_none l k : index_of l !! k = None <-> k ∉ okeys l.
Proof. unfold index_of. by rewrite <- not_elem_of_list_to_map, okeys_fst. Qed.
Lemma index_some l k id : NoDup (okeys l) -> index_of l !! k = Some id ->
  exists a v b, l = a ++ mkElement id k v :: b.
Proof.
  intros Hd H. apply elem_of_list_to_map in H; [|by rewrite okeys_fst].
  apply list_elem_of_fmap in H as ([i x v] & [= -> ->] & H). apply list_elem_of_split in H as (a & b & ->). eauto.
Qed.

(** The element [e] stands between [a] and [b], no other has its id or key. *)
Lemma ids_mid a e b : NoDup (oids (a ++ e :: b)) ->
  (forall x, x ∈ a -> el_id x <> el_id e) /\ (forall x, x ∈ b -> el_id x <> el_id e).
Proof.
  unfold oids. rewrite map_app. intros (_ & Ha & Hb)%NoDup_app. cbn in *. apply NoDup_cons in Hb as [Hb _]. split.
  - intros x Hx E. apply (Ha (el_id x)); [apply list_elem_of_fmap; eauto|]. rewrite E. by left.
  - intros x Hx E. apply Hb. apply list_elem_of_fmap. eauto.
Qed.
Lemma find_mid a e b : NoDup (oids (a ++ e :: b)) -> list_find (el_id e) (a ++ e :: b) = Some e.
Proof.
  intros [Ha _]%ids_mid. unfold list_find. induction a as [|x a IH]; cbn; [by rewrite Nat.eqb_refl|].
  rewrite (proj2 (Nat.eqb_neq _ _)) by (apply Ha; by left). apply IH. intros y Hy. apply Ha. by right.
Qed.
Lemma remove_none id l : (forall x, x ∈ l -> el_id x <> id) -> list_Remove id l = l.
Proof.
  unfold list_Remove. induction l as [|x l IH]; intros H; [done|]. cbn.
  rewrite (proj2 (Nat.eqb_neq _ _)) by (apply H; by left). cbn. rewrite IH; [done|]. intros y Hy. apply H. by right.
Qed.
Lemma remove_mid a e b : NoDup (oids (a ++ e :: b)) -> list_Remove (el_id e) (a ++ e :: b) = a ++ b.
Proof.
  intros [Ha Hb]%ids_mid. unfold list_Remove. rewrite List.filter_app. cbn. rewrite Nat.eqb_refl. cbn.
  fold (list_Remove (el_id e) a) (list_Remove (el_id e) b). by rewrite !remove_none.
Qed.
Lemma okeys_perm l l' : l ≡ₚ l' -> okeys l ≡ₚ okeys l'.
Proof. apply Permutation_map. Qed.
Lemma index_perm l l' : NoDup (okeys l) -> l ≡ₚ l' -> index_of l = index_of l'.
Proof. intros H P. apply list_to_map_proper; [by rewrite okeys_fst|]. by apply Permutation_map. Qed.
Lemma index_remove a e b : NoDup (okeys (a ++ e :: b)) ->
  index_of (a ++ b) = delete (el_key e) (index_of (a ++ e :: b)).
Proof.
  intros H. assert (P : a ++ e :: b ≡ₚ e :: a ++ b) by (symmetry; apply Permutation_middle).
  rewrite (index_perm _ _ H P). rewrite (okeys_perm _ _ P) in H. apply NoDup_cons in H as [H _].
  unfold index_of. cbn. rewrite delete_insert_id; [done|]. by apply index_none.
Qed.
End Lists.

(** ** The invariant *)

Record cache_wf {S} (c : Cache S) : Prop := {
  cw_capacity : 1 <= c_capacity c <= 256;
  cw_keys : NoDup (okeys (c_order c));
  cw_ids : NoDup (oids (c_order c));
  cw_fresh : Forall (fun e => (el_id e < c_fresh c)%nat) (c_order c);
  cw_entries : c_entries c = index_of (c_order c);
  cw_size : len (c_order c) <= c_capacity c;
}.
(** What is cached is what the contents [l] say. *)
Definition agrees (l : list kv) (order : list element) : Prop :=
  Forall (fun e => kv_get (el_key e) l = Some (el_value e)) order.
Record cache_ok {S} (c : Cache S) (l : list kv) : Prop := {
  co_wf : cache_wf c;
  co_agrees : agrees l (c_order c);
}.
Definition ckeys {S} (c : Cache S) : list bytes := okeys (c_order c).

Section Invariant.
Context {S : Type} (backing : Structure S).
Implicit Types (c : Cache S) (l : list kv).

Lemma set_stats_ok f c l : cache_ok c l -> cache_ok (set_stats f c) l.
Proof. by intros [[????] ?]. Qed.
Lemma set_backing_ok s c l : cache_ok c l -> cache_ok (set_backing s c) l.
Proof. by intros [[????] ?]. Qed.

(** Removing an element, with or without a use for it. *)
Lemma removed_ok c l a e b : cache_ok c l -> c_order c = a ++ e :: b ->
  cache_ok (set_lists (list_Remove (el_id e) (c_order c)) (delete (el_key e) (c_entries c)) c) l /\
  list_Remove (el_id e) (c_order c) = a ++ b.
Proof.
  intros [[Hcap Hk Hi Hf He Hs] Ha] E. rewrite E in *. assert (R := remove_mid a e b Hi). split; [|done].
  assert (P : a ++ e :: b ≡ₚ e :: a ++ b) by (symmetry; apply Permutation_middle).
  split; [split|]; cbn; rewrite ?R.
  - done.
  - rewrite (okeys_perm _ _ P) in Hk. by apply NoDup_cons in Hk as [_ ?].
  - unfold oids in *. rewrite P in Hi. by apply NoDup_cons in Hi as [_ ?].
  - rewrite P in Hf. by apply Forall_cons in Hf as [_ ?].
  - rewrite He. symmetry. by apply index_remove.
  - rewrite len_app in *. rewrite len_cons in Hs. lia.
  - unfold agrees in *. rewrite P in Ha. by apply Forall_cons in Ha as [_ ?].
Qed.

(** Contents that differ at [k] only still agree once [k] is invalidated. *)
Lemma invalidate_ok k c l l' : cache_ok c l -> (forall x, x <> k -> kv_get x l' = kv_get x l) ->
  cache_ok (invalidate k c) l' /\ ckeys (invalidate k c) = drop_key k (ckeys c).
Proof.
  intros C Hl. pose proof C as [[_ Hk Hi _ He _] Ha]. unfold invalidate, ckeys.
  assert (Hother : forall o, agrees l o -> k ∉ okeys o -> agrees l' o).
  { intros o Ho Hn. unfold agrees in *. rewrite Forall_forall in *. intros e H. rewrite Hl; [by apply Ho|].
    intros <-. apply Hn. apply list_elem_of_fmap. eauto. }
  destruct (c_entries c !! k) as [id|] eqn:E; rewrite He in E.
  - destruct (index_some _ _ _ Hk E) as (a & v & b & Ho). destruct (removed_ok c l a _ b C Ho) as [C' R]. cbn in *.
    rewrite R in *. rewrite Ho in Hk. unfold okeys in *. rewrite map_app in Hk. cbn in Hk.
    rewrite Ho, !map_app. cbn. rewrite drop_key_mid by done. split; [|done]. split; [apply C'|].
    apply Hother; [apply C'|]. cbn. unfold okeys. rewrite map_app. rewrite <- Permutation_middle in Hk.
    by apply NoDup_cons in Hk as [? _].
  - apply index_none in E. rewrite drop_key_absent by done. split; [|done]. split; [apply C|]. by apply Hother.
Qed.

Lemma move_ok c l id a v k b : cache_ok c l -> c_order c = a ++ mkElement id k v :: b ->
  cache_ok (set_lists (list_MoveToFront id (c_order c)) (c_entries c) c) l /\
  list_MoveToFront id (c_order c) = mkElement id k v :: a ++ b.
Proof.
  intros [[Hcap Hk Hi Hf He Hs] Ha] E. assert (M : list_MoveToFront id (c_order c) = mkElement id k v :: a ++ b).
  { unfold list_MoveToFront. rewrite E in *. pose proof (find_mid _ _ _ Hi) as F. pose proof (remove_mid _ _ _ Hi) as R.
    cbn in *. by rewrite F, R. }
  split; [|done]. rewrite M. assert (P : c_order c ≡ₚ mkElement id k v :: a ++ b) by (rewrite E; symmetry; apply Permutation_middle).
  split; [split|]; cbn [set_lists c_order c_capacity c_fresh c_entries].
  - done.
  - by rewrite <- (okeys_perm _ _ P).
  - unfold oids in *. by rewrite <- P.
  - by rewrite <- P.
  - rewrite He. by apply index_perm.
  - unfold len in *. by rewrite <- (Permutation_length P).
  - unfold agrees in *. by rewrite <- P.
Qed.

Lemma fill_ok c l k v : cache_ok c l -> len (c_order c) < c_capacity c -> k ∉ ckeys c -> kv_get k l = Some v ->
  cache_ok (fill k v c) l.
Proof.
  intros [[Hcap Hk Hi Hf He Hs] Ha] Hl Hn Hv. split; [split|]; cbn.
  - done.
  - by constructor.
  - constructor; [|done]. intros (e & E & H)%list_elem_of_fmap. rewrite Forall_forall in Hf. specialize (Hf e H). lia.
  - constructor; [cbn; lia|]. eapply Forall_impl; [exact Hf|]. cbn. lia.
  - by rewrite He.
  - rewrite len_cons. lia.
  - by constructor.
Qed.
End Invariant.

(** ** The operations *)

Section Operations.
Context {S : Type} (backing : Structure S) {Sp : StructureSpec backing}.
Implicit Types (c : Cache S) (l : list kv) (b : Bounded).

Lemma ends_recorded {A} (m : SM S A) c b (Q : A -> S * Bounded -> Prop) (R : engine_error -> S * Bounded -> Prop) :
  ends m (c_backing c, b) Q R ->
  ends (recorded m) (c, b)
    (fun a cb => cb.1 = set_stats called (set_backing (c_backing cb.1) c) /\ Q a (c_backing cb.1, cb.2))
    (fun e cb => cb.1 = set_stats called (set_backing (c_backing cb.1) c) /\ R e (c_backing cb.1, cb.2)).
Proof. unfold ends, recorded. by destruct (m (c_backing c, b)) as [[] [s b']]. Qed.

(** The backing structure and the cache hold [l] together. *)
Definition cached c l : Prop := has (c_backing c) l /\ cache_ok c l.

Lemma evict_ok c l b : cache_ok c l ->
  ends evict (c, b) (fun _ cb => cache_ok cb.1 l /\ len (c_order cb.1) < c_capacity c /\
    ckeys cb.1 = take (Z.to_nat (c_capacity c - 1)) (ckeys c) /\ c_backing cb.1 = c_backing c /\
    c_capacity cb.1 = c_capacity c /\ Hits (Stats cb.1) = Hits (Stats c) /\ Misses (Stats cb.1) = Misses (Stats c) /\
    BackingCalls (Stats cb.1) = BackingCalls (Stats c) /\ traced b cb.2) no_err.
Proof.
  intros C. pose proof C as [[Hcap Hk Hi Hf He Hs] Ha]. unfold evict. apply ends_bind. cbn.
  rewrite He, index_size by done. fold (len (c_order c)). unfold ckeys, okeys.
  assert (Hlen : len (map el_key (c_order c)) = len (c_order c)) by (unfold len; by rewrite length_map).
  destruct (len (c_order c) =? c_capacity c) eqn:E; zbool; cbn iota.
  - apply ends_bind. cbn. unfold list_Back. destruct (c_order c) as [|e0 o0] eqn:Eo using rev_ind; [unfold len in *; cbn in *; lia|].
    rewrite last_snoc. apply ends_tell; [auto|]. intros b' Hb.
    destruct (removed_ok c l o0 e0 [] C Eo) as [C' R]. cbn. rewrite Eo, app_nil_r in *. rewrite R in *.
    rewrite len_app in E. change (len [e0]) with 1 in E. split_and!; try done; [by apply set_stats_ok|lia|].
    rewrite map_app, take_app_length'; [done|]. rewrite length_map. unfold len in E. lia.
  - cbn. split_and!; try done; [lia|]. rewrite take_ge; [done|]. rewrite length_map. unfold len in *. lia.
Qed.

Lemma Cache_Get_ok k c l b : cached c l -> takes_key k ->
  ends (Cache_Get backing k) (c, b) (fun v cb => v = kv_get k l /\ cached cb.1 l /\ traced b cb.2 /\
    ckeys cb.1 = (if v then lru_touch (c_capacity c) k (ckeys c) else ckeys c) /\
    c_capacity cb.1 = c_capacity c /\
    let seen := bool_decide (k ∈ ckeys c) in
    Hits (Stats cb.1) = Hits (Stats c) + Z.b2z seen /\ Misses (Stats cb.1) = Misses (Stats c) + Z.b2z (negb seen) /\
    BackingCalls (Stats cb.1) = BackingCalls (Stats c) + Z.b2z (negb seen)) no_err.
Proof.
  intros [Hh C] Hk. pose proof C as [[Hcap Hkeys Hi Hf He Hs] Ha]. unfold Cache_Get. apply ends_bind. cbn.
  destruct (c_entries c !! k) as [id|] eqn:E; rewrite He in E.
  - destruct (index_some _ _ _ Hkeys E) as (x & v & y & Ho).
    apply ends_bind. cbn. apply ends_tell; [auto|]. intros b' Hb. apply ends_bind. cbn.
    destruct (move_ok c l _ _ _ _ _ C Ho) as [C' M]. rewrite M in *. apply ends_bind. cbn. rewrite Nat.eqb_refl. cbn.
    assert (Hv : kv_get k l = Some v).
    { rewrite Ho in Ha. apply Forall_app in Ha as [_ Ha]. by apply Forall_cons in Ha as [? _]. }
    rewrite bool_decide_eq_true_2 by (unfold ckeys, okeys; rewrite Ho, map_app; set_solver).
    split_and!; try done; unfold Stats; cbn; try lia; [split; [done|exact (set_stats_ok hit _ _ C')]|].
    unfold lru_touch, ckeys, okeys in *. rewrite Ho in Hkeys, Hs |- *. rewrite map_app in Hkeys. rewrite !map_app. cbn [map el_key] in *.
    rewrite drop_key_mid by done. rewrite take_ge; [done|]. rewrite len_app, len_cons in Hs. unfold len in Hs. cbn. rewrite length_app, !length_map. lia.
  - apply index_none in E. rewrite bool_decide_eq_false_2 by done.
    apply ends_bind. cbn. apply ends_tell; [auto|]. intros b1 Hb1.
    eapply ends_step; [eapply ends_mono; [apply ends_recorded, (sp_get _ _ l k)|done|]; cbn; try done; tauto|].
    intros v [c1 b2] (E1 & -> & Hh1 & Hb2). cbn in *. rewrite E1. set (c2 := set_stats called _).
    assert (C2 : cache_ok c2 l) by (apply set_stats_ok, set_backing_ok, set_stats_ok, C).
    destruct (kv_get k l) as [v|] eqn:Ev; cbn.
    + eapply ends_step; [apply (evict_ok c2 l b2 C2)|]. intros [] [c3 b3] (C3 & Hl3 & K3 & B3 & P3 & H3 & M3 & N3 & T3). cbn in *.
      assert (Hn : k ∉ ckeys c3). { rewrite K3. intros H%elem_of_take. destruct H as (i & H & _). apply E. by eapply list_elem_of_lookup_2. }
      unfold Stats in *. split_and!; try done; cbn; try lia.
      * split; [cbn; by rewrite B3|]. apply fill_ok; try done. by rewrite P3.
      * do 3 (etrans; [done|]). auto.
      * unfold lru_touch. cbn. fold (okeys (c_order c3)) (ckeys c3). rewrite K3. rewrite drop_key_absent by done.
        replace (Z.to_nat (c_capacity c)) with (Datatypes.S (Z.to_nat (c_capacity c - 1))) by lia. done.
    + split_and!; try done; unfold Stats; cbn; try lia. by etrans.
Qed.

Lemma kv_get_set_other x k v l : kv_sorted l -> x <> k -> kv_get x (kv_set k v l) = kv_get x l.
Proof. intros Hs H. by rewrite !kv_get_map, kv_set_map, lookup_insert_ne. Qed.
Lemma kv_get_del_other x k l : x <> k -> kv_get x (kv_del k l) = kv_get x l.
Proof. intros H. by rewrite !kv_get_map, kv_del_map, lookup_delete_ne. Qed.

Lemma Cache_Set_ok k v c l b : able (c_backing c) l -> cache_ok c l ->
  ends (Cache_Set backing k v) (c, b)
    (fun _ cb => cached cb.1 (kv_set k v l) /\ traced b cb.2 /\ ckeys cb.1 = drop_key k (ckeys c))
    (fun _ cb => set_fails k v /\ cached cb.1 l /\ traced b cb.2 /\ ckeys cb.1 = ckeys c).
Proof.
  intros Hb C. unfold Cache_Set. apply ends_bind.
  eapply ends_mono; [apply ends_recorded, sp_set, Hb| |].
  - cbn beta. intros [] [c1 b1] (E & Hh & T). cbn in *.
    destruct (invalidate_ok k c1 l (kv_set k v l)) as [C' K'].
    + rewrite E. by apply set_stats_ok, set_backing_ok.
    + intros x Hx. apply kv_get_set_other; [|done]. by eapply sp_sorted, sp_able_has.
    + split_and!; [split; [|done]|etrans; [done|auto]|by rewrite K', E].
      unfold invalidate. by destruct (c_entries c1 !! k).
  - cbn beta. intros e [c1 b1] (E & Hf & Hh & T). cbn in *. split_and!; try done; [|by rewrite E].
    split; [done|]. rewrite E. by apply set_stats_ok, set_backing_ok.
Qed.

Lemma Cache_Delete_ok k c l b : able (c_backing c) l -> cache_ok c l ->
  ends (Cache_Delete backing k) (c, b)
    (fun d cb => d = bool_decide (is_Some (kv_get k l)) /\ cached cb.1 (kv_del k l) /\ traced b cb.2 /\
      ckeys cb.1 = drop_key k (ckeys c))
    (fun _ cb => delete_fails k /\ cached cb.1 l /\ traced b cb.2 /\ ckeys cb.1 = ckeys c).
Proof.
  intros Hb C. unfold Cache_Delete. apply ends_bind.
  eapply ends_mono; [apply ends_recorded, sp_delete, Hb| |].
  - cbn beta. intros d [c1 b1] (E & -> & Hh & T). cbn in *.
    destruct (invalidate_ok k c1 l (kv_del k l)) as [C' K'].
    + rewrite E. by apply set_stats_ok, set_backing_ok.
    + intros x Hx. by apply kv_get_del_other.
    + split_and!; [done|split; [|done]|etrans; [done|auto]|by rewrite K', E].
      unfold invalidate. by destruct (c_entries c1 !! k).
  - cbn beta. intros e [c1 b1] (E & Hf & Hh & T). cbn in *. split_and!; try done; [|by rewrite E].
    split; [done|]. rewrite E. by apply set_stats_ok, set_backing_ok.
Qed.

Lemma Cache_Range_ok lo hi c l b : cached c l -> takes_bound lo -> takes_bound hi ->
  ends (Cache_Range backing lo hi) (c, b)
    (fun v cb => v = kv_range lo hi l /\ cached cb.1 l /\ traced b cb.2 /\ ckeys cb.1 = ckeys c) no_err.
Proof.
  intros [Hh C] Hlo Hhi. unfold Cache_Range. apply ends_tell; [auto|]. intros b1 Hb1.
  eapply ends_mono; [apply ends_recorded, (sp_range _ _ l lo hi); done| |by intros ? ? []].
  cbn. intros v [c1 b2] (E & -> & Hh1 & Hb2). cbn in *. split_and!; try done; [|by etrans|by rewrite E].
  split; [done|]. rewrite E. by apply set_stats_ok, set_backing_ok.
Qed.

(** A new cache is empty and holds what the backing structure holds. *)
Lemma NewCache_ok s capacity l : has s l ->
  match NewCache s capacity with
  | Some c => 1 <= capacity <= 256 /\ cached c l /\ ckeys c = [] /\ c_capacity c = capacity /\ c_backing c = s
  | None => ~ (1 <= capacity <= 256)
  end.
Proof.
  intros Hs. unfold NewCache. destruct ((capacity <? 1) || (capacity >? 256)) eqn:E.
  - apply orb_true_iff in E as [E|E]; zbool; lia.
  - zbool. split_and!; try done; try lia. split; [done|]. split; [split|]; cbn; try done; try constructor; unfold len; cbn; lia.
Qed.
End Operations.

#[global] Program Instance Cache_spec {S} (backing : Structure S) {Sp : StructureSpec backing} :
  StructureSpec (CacheKV backing) := {|
  has c l := cached backing c l;
  able c l := able (c_backing c) l /\ cache_ok c l;
  set_fails := set_fails (st := backing);
  delete_fails := delete_fails (st := backing);
  takes_key := takes_key (st := backing);
  takes_bound := takes_bound (st := backing);
|}.
Next Obligation. intros S backing Sp c l [H _]. by apply sp_sorted in H. Qed.
Next Obligation. intros S backing Sp c l [H C]. split; [by apply sp_able_has|done]. Qed.
Next Obligation. by intros S backing Sp c l [H [[????] ?]]. Qed.
Next Obligation.
  intros S backing Sp c b l k H Hk. eapply ends_mono; [by apply (Cache_Get_ok backing k c l)| |done]. cbn beta. tauto.
Qed.
Next Obligation.
  intros S backing Sp c b l lo hi H H1 H2. eapply ends_mono; [by apply (Cache_Range_ok backing lo hi c l)| |done].
  cbn beta. tauto.
Qed.
Next Obligation.
  intros S backing Sp c b l k v [H C]. eapply ends_mono; [by apply (Cache_Set_ok backing k v c l)| |]; cbn beta; tauto.
Qed.
Next Obligation.
  intros S backing Sp c b l k [H C]. eapply ends_mono; [by apply (Cache_Delete_ok backing k c l)| |]; cbn beta; tauto.
Qed.

(** ** The guarantees *)

(** C17: a read through the cache over any structure returns what the structure
    holds. The cached keys are then the least recently used order: on a hit and on
    a found miss the key moves to the front and the oldest beyond the capacity is
    evicted, a miss that finds nothing changes nothing; never more than the
    capacity is cached. Exactly one of hits and misses grows, and the structure is
    called exactly on a miss. *)
Theorem Cache_lru {S} (backing : Structure S) {Sp : StructureSpec backing} k c l b :
  cached backing c l -> takes_key k ->
  ends (Cache_Get backing k) (c, b) (fun v cb => v = kv_get k l /\ cached backing cb.1 l /\
    ckeys cb.1 = (if v then lru_touch (c_capacity c) k (ckeys c) else ckeys c) /\
    len (ckeys cb.1) <= c_capacity c /\
    let seen := bool_decide (k ∈ ckeys c) in
    Hits (Stats cb.1) = Hits (Stats c) + Z.b2z seen /\ Misses (Stats cb.1) = Misses (Stats c) + Z.b2z (negb seen) /\
    BackingCalls (Stats cb.1) = BackingCalls (Stats c) + Z.b2z (negb seen)) no_err.
Proof.
  intros H Hk. eapply ends_mono; [by apply Cache_Get_ok| |done]. cbn beta.
  intros v cb (Hv & Hc & _ & E & Ec & Hs). split_and!; try done; [|apply Hs..]. rewrite <- Ec.
  destruct Hc as [_ [[_ _ _ _ _ Hlen] _]]. unfold ckeys, okeys, len in *. by rewrite length_map.
Qed.

(** C18: a write through the cache, over any structure that can take a change, has
    the effect of the write on the structure and drops the key from the cache, so
    that no later read sees the old value; when the structure refuses the change
    nothing is lost, neither the entries nor the cached keys. A range is answered
    by the structure and leaves the cache as it is. *)
Theorem Cache_writes {S} (backing : Structure S) {Sp : StructureSpec backing} k v lo hi c l b :
  able (c_backing c) l -> cache_ok c l -> takes_bound lo -> takes_bound hi ->
  ends (Cache_Set backing k v) (c, b)
    (fun _ cb => cached backing cb.1 (kv_set k v l) /\ k ∉ ckeys cb.1 /\ ckeys cb.1 = drop_key k (ckeys c))
    (fun _ cb => set_fails k v /\ cached backing cb.1 l /\ ckeys cb.1 = ckeys c) /\
  ends (Cache_Delete backing k) (c, b)
    (fun d cb => d = bool_decide (is_Some (kv_get k l)) /\ cached backing cb.1 (kv_del k l) /\ k ∉ ckeys cb.1 /\
      ckeys cb.1 = drop_key k (ckeys c))
    (fun _ cb => delete_fails k /\ cached backing cb.1 l /\ ckeys cb.1 = ckeys c) /\
  ends (Cache_Range backing lo hi) (c, b)
    (fun r cb => r = kv_range lo hi l /\ cached backing cb.1 l /\ ckeys cb.1 = ckeys c) no_err.
Proof.
  intros Ha C Hlo Hhi. assert (Hk : k ∉ drop_key k (ckeys c)).
  { unfold drop_key. rewrite list_elem_of_In, List.filter_In, beqb_refl. by intros []. }
  split_and!.
  - eapply ends_mono; [by apply Cache_Set_ok| |]; cbn beta; [intros ? ? (? & ? & ->)|intros ? ? (? & ? & ? & ->)]; by split_and!.
  - eapply ends_mono; [by apply Cache_Delete_ok| |]; cbn beta; [intros ? ? (? & ? & ? & ->)|intros ? ? (? & ? & ? & ->)]; by split_and!.
  - eapply ends_mono; [apply (Cache_Range_ok backing lo hi c l); [split; [by apply sp_able_has|done]|done..]| |done].
    cbn beta. tauto.
Qed.
