(* ===== verification/MemTree.v ===== *)
(** * The in-memory B+Tree (src/internal/btree: node.go, tree.go, memory.go, trace.go)

    Nodes are cells of a heap and refer to each other by location: a parent to
    its children, a leaf to the leaf on its right. The Go collector is left out,
    a location is never reused. The slices of a node are its own (every transfer
    between nodes copies the elements), so they are values of the cell. A loop
    over a path or over the leaves runs on fuel; [fuel_of], more than the number
    of nodes ever allocated, is enough. *)

From Stdlib Require Import Strings.String.
From S2P Require Import Prelude KvList Errors Trace Slices Structures.

Record node := mkNode {
  n_leaf : bool;
  n_keys : list bytes;
  n_values : list bytes;
  n_children : list nat;
  n_next : option nat;
}.
Record tree := mkTree {
  t_heap : gmap nat node;
  t_fresh : nat;
  t_root : option nat;
  t_maxKeys : Z;
}.
(** The observer of a tree: whether a sink is attached, the numbers given to
    nodes, the operation. *)
Record memoryTrace := mkObserver { mt_sink : bool; mt_ids : gmap nat Z; mt_op : bytes }.
(** [Memory]: its tree with the tree's observer. *)
Abbreviation Memory := (tree * memoryTrace)%type.
Definition NewMemory : Memory := (mkTree ∅ 0 None 0, mkObserver false ∅ []).
Definition Memory_SetTrace (m : Memory) : Memory := (m.1, mkObserver true ∅ []).

Abbreviation TM := (SM Memory).

(** ** The heap *)

Definition deref (p : nat) : TM node := fun st =>
  match t_heap st.1.1 !! p with Some n => (Ok n, st) | None => (Panic, st) end.
Definition write (p : nat) (n : node) : TM unit :=
  assign (fun m => (mkTree (<[p := n]> (t_heap m.1)) (t_fresh m.1) (t_root m.1) (t_maxKeys m.1), m.2)).
Definition alloc (n : node) : TM nat :=
  p <~ look (fun m => t_fresh m.1) ;;
  _ <~ assign (fun m => (mkTree (<[p := n]> (t_heap m.1)) (S p) (t_root m.1) (t_maxKeys m.1), m.2)) ;;
  ret p.
Definition set_root (r : option nat) : TM unit :=
  assign (fun m => (mkTree (t_heap m.1) (t_fresh m.1) r (t_maxKeys m.1), m.2)).
Definition set_maxKeys (k : Z) : TM unit :=
  assign (fun m => (mkTree (t_heap m.1) (t_fresh m.1) (t_root m.1) k, m.2)).
Definition fuel_of : TM nat := look (fun m => S (t_fresh m.1)).

Definition with_entries (n : node) (keys values : list bytes) : node :=
  mkNode (n_leaf n) keys values (n_children n) (n_next n).
Definition with_children (n : node) (keys : list bytes) (children : list nat) : node :=
  mkNode (n_leaf n) keys (n_values n) children (n_next n).
Definition with_next (n : node) (next : option nat) : node :=
  mkNode (n_leaf n) (n_keys n) (n_values n) (n_children n) next.

(** ** Nodes (node.go) *)

Definition node_search (n : node) (key : bytes) : outcome engine_error (Z * bool) :=
  idx <- search (len (n_keys n)) (fun i => k <- index (n_keys n) i ;; Ok (bleb key k)) ;;
  if idx <? len (n_keys n) then k <- index (n_keys n) idx ;; Ok (idx, beqb k key) else Ok (idx, false).
Definition node_childIndex (n : node) (key : bytes) : outcome engine_error Z :=
  search (len (n_keys n)) (fun i => k <- index (n_keys n) i ;; Ok (bltb key k)).
Definition node_child (n : node) (key : bytes) : outcome engine_error nat :=
  i <- node_childIndex n key ;; index (n_children n) i.
Definition valueAt (n : node) (i : Z) : outcome engine_error bytes := index (n_values n) i.

(** ** Observation (trace.go) *)

Definition snapshotKeys : nat := 16.
Definition observed : TM bool := fun st => (Ok (mt_sink st.1.2 && Bounded_Enabled st.2), st).
Definition nodeID (p : nat) : TM Z := fun '((t, o), b) =>
  let id := default 0 (mt_ids o !! p) in
  if negb (id =? 0) then (Ok id, ((t, o), b))
  else
    let id := u64 (Z.of_nat (size (mt_ids o)) + 1) in
    (Ok id, ((t, mkObserver (mt_sink o) (<[p := id]> (mt_ids o)) (mt_op o)), b)).
Fixpoint nodeIDs (ps : list nat) : TM (list Z) :=
  match ps with
  | [] => ret []
  | p :: ps => id <~ nodeID p ;; ids <~ nodeIDs ps ;; ret (id :: ids)
  end.
Definition emitNode (p : nat) (kind key detail : bytes) : TM unit :=
  on <~ observed ;;
  if (on : bool) then
    id <~ nodeID p ;;
    n <~ deref p ;;
    ids <~ nodeIDs (take (snapshotKeys + 1) (n_children n)) ;;
    op <~ look (fun m => mt_op m.2) ;;
    tell (fun _ => Bounded_Emit
      (mkEvent 0 (str "backing") (take snapshotKeys (n_keys n)) ids 0 kind op (str "btree-memory") key id 0 detail))
  else ret tt.

Definition tree_search (p : nat) (key : bytes) : TM (Z * bool) :=
  n <~ deref p ;;
  on <~ observed ;;
  if (on : bool) then
    idx <~ searchM (len (n_keys n)) (fun i =>
      k <! index (n_keys n) i ;;
      _ <~ emitNode p Ev.Comparison key (str "lower bound: key <= " ++ k) ;;
      ret (bleb key k)) ;;
    if idx <? len (n_keys n) then k <! index (n_keys n) idx ;; ret (idx, beqb k key) else ret (idx, false)
  else lift (node_search n key).
Definition tree_childIndex (p : nat) (key : bytes) : TM Z :=
  n <~ deref p ;;
  on <~ observed ;;
  if (on : bool) then
    searchM (len (n_keys n)) (fun i =>
      k <! index (n_keys n) i ;;
      _ <~ emitNode p Ev.Comparison key (str "child selection: key < " ++ k) ;;
      ret (bltb key k))
  else lift (node_childIndex n key).
Fixpoint minimumKey (fuel : nat) (p : nat) : TM bytes :=
  match fuel with
  | O => diverge
  | S fuel =>
      n <~ deref p ;;
      if n_leaf n then
        _ <~ emitNode p Ev.Traversal [] (str "read minimum for separator") ;;
        lift (index (n_keys n) 0)
      else
        _ <~ emitNode p Ev.Traversal [] (str "seek minimum for separator") ;;
        c <! index (n_children n) 0 ;;
        minimumKey fuel c
  end.

(** ** Lookup *)

Definition minKeys : TM Z :=
  k <~ look (fun m => t_maxKeys m.1) ;;
  if k =? 0 then _ <~ set_maxKeys 3 ;; ret (Z.quot 3 2) else ret (Z.quot k 2).

Fixpoint getLoop (fuel : nat) (p : nat) (key : bytes) : TM (option bytes) :=
  match fuel with
  | O => diverge
  | S fuel =>
      n <~ deref p ;;
      if n_leaf n then
        _ <~ emitNode p Ev.Traversal key (str "visit leaf") ;;
        '(idx, found) <~ tree_search p key ;;
        if (found : bool) then n <~ deref p ;; v <! valueAt n idx ;; ret (Some v) else ret None
      else
        _ <~ emitNode p Ev.Traversal key (str "visit internal node") ;;
        i <~ tree_childIndex p key ;;
        c <! index (n_children n) i ;;
        getLoop fuel c key
  end.
Definition tree_get (key : bytes) : TM (option bytes) :=
  root <~ look (fun m => t_root m.1) ;;
  match root with
  | None => ret None
  | Some p => fuel <~ fuel_of ;; getLoop fuel p key
  end.

(** ** Insertion *)

Record nodeSplit := mkSplit { sp_key : bytes; sp_left : nat; sp_right : nat }.

Definition insertString : list bytes -> Z -> bytes -> outcome engine_error (list bytes) := insert_at [].
(** The zero value of a pointer, nil, is overwritten before it is read. *)
Definition tree_insertNode : list nat -> Z -> nat -> outcome engine_error (list nat) := insert_at O.
Definition deleteString : list bytes -> Z -> outcome engine_error (list bytes) := delete_at.
Definition tree_deleteNode : list nat -> Z -> outcome engine_error (list nat) := delete_at.

Definition insertIntoLeaf (p : nat) (key value : bytes) : TM unit :=
  n <~ deref p ;;
  '(idx, found) <! node_search n key ;;
  if (found : bool) then
    values <! put (n_values n) idx [value] ;;
    write p (with_entries n (n_keys n) values)
  else
    keys <! insertString (n_keys n) idx key ;;
    values <! insertString (n_values n) idx value ;;
    write p (with_entries n keys values).

Definition insertIntoInternal (p : nat) (childIdx : Z) (split : nodeSplit) : TM unit :=
  n <~ deref p ;;
  keys <! insertString (n_keys n) childIdx (sp_key split) ;;
  children <! put (n_children n) childIdx [sp_left split] ;;
  children <! tree_insertNode children (childIdx + 1) (sp_right split) ;;
  write p (with_children n keys children).

Definition splitLeaf (p : nat) : TM nodeSplit :=
  n <~ deref p ;;
  let mid := len (n_keys n) / 2 in
  rkeys <! slice (n_keys n) mid (len (n_keys n)) ;;
  rvalues <! slice (n_values n) mid (len (n_values n)) ;;
  right <~ alloc (mkNode true rkeys rvalues [] (n_next n)) ;;
  keys <! slice (n_keys n) 0 mid ;;
  values <! slice (n_values n) 0 mid ;;
  _ <~ write p (with_next (with_entries n keys values) (Some right)) ;;
  k <! index rkeys 0 ;;
  ret (mkSplit k p right).

Definition splitInternal (p : nat) : TM nodeSplit :=
  n <~ deref p ;;
  let mid := len (n_keys n) / 2 in
  promoted <! index (n_keys n) mid ;;
  rkeys <! slice (n_keys n) (mid + 1) (len (n_keys n)) ;;
  rchildren <! slice (n_children n) (mid + 1) (len (n_children n)) ;;
  right <~ alloc (mkNode false rkeys [] rchildren None) ;;
  keys <! slice (n_keys n) 0 mid ;;
  children <! slice (n_children n) 0 (mid + 1) ;;
  _ <~ write p (with_children n keys children) ;;
  ret (mkSplit promoted p right).

Fixpoint tree_insert (fuel : nat) (p : nat) (key value : bytes) : TM (option nodeSplit) :=
  match fuel with
  | O => diverge
  | S fuel =>
      _ <~ emitNode p Ev.Traversal key (str "visit node for set") ;;
      n <~ deref p ;;
      if n_leaf n then
        _ <~ insertIntoLeaf p key value ;;
        _ <~ emitNode p (str "mutation") key (str "store leaf entry") ;;
        n <~ deref p ;;
        maxKeys <~ look (fun m => t_maxKeys m.1) ;;
        if len (n_keys n) <=? maxKeys then ret None
        else
          split <~ splitLeaf p ;;
          _ <~ emitNode (sp_left split) (str "split") key (str "split leaf: left") ;;
          _ <~ emitNode (sp_right split) (str "split") key (str "split leaf: right") ;;
          ret (Some split)
      else
        childIdx <~ tree_childIndex p key ;;
        c <! index (n_children n) childIdx ;;
        childSplit <~ tree_insert fuel c key value ;;
        match childSplit with
        | None => ret None
        | Some childSplit =>
            _ <~ insertIntoInternal p childIdx childSplit ;;
            _ <~ emitNode p (str "mutation") key (str "insert separator and child") ;;
            n <~ deref p ;;
            maxKeys <~ look (fun m => t_maxKeys m.1) ;;
            if len (n_keys n) <=? maxKeys then ret None
            else
              split <~ splitInternal p ;;
              _ <~ emitNode (sp_left split) (str "split") key (str "split internal node: left") ;;
              _ <~ emitNode (sp_right split) (str "split") key (str "split internal node: right") ;;
              ret (Some split)
        end
  end.

Definition tree_set (key value : bytes) : TM unit :=
  maxKeys <~ look (fun m => t_maxKeys m.1) ;;
  _ <~ (if maxKeys =? 0 then set_maxKeys 3 else ret tt) ;;
  root <~ look (fun m => t_root m.1) ;;
  match root with
  | None =>
      p <~ alloc (mkNode true [key] [value] [] None) ;;
      _ <~ set_root (Some p) ;;
      emitNode p (str "mutation") key (str "create root leaf")
  | Some r =>
      fuel <~ fuel_of ;;
      split <~ tree_insert fuel r key value ;;
      match split with
      | None => ret tt
      | Some split =>
          p <~ alloc (mkNode false [sp_key split] [] [sp_left split; sp_right split] None) ;;
          _ <~ set_root (Some p) ;;
          emitNode p (str "mutation") key (str "create root after split")
      end
  end.

(** ** Deletion *)

Definition rotateFromLeft (parent : nat) (childIdx : Z) : TM unit :=
  p <~ deref parent ;;
  l <! index (n_children p) (childIdx - 1) ;;
  c <! index (n_children p) childIdx ;;
  left <~ deref l ;;
  child <~ deref c ;;
  let last := len (n_keys left) - 1 in
  if n_leaf child then
    k <! index (n_keys left) last ;;
    ckeys <! insertString (n_keys child) 0 k ;;
    v <! index (n_values left) last ;;
    cvalues <! insertString (n_values child) 0 v ;;
    lkeys <! slice (n_keys left) 0 last ;;
    lvalues <! slice (n_values left) 0 last ;;
    k0 <! index ckeys 0 ;;
    pkeys <! put (n_keys p) (childIdx - 1) [k0] ;;
    _ <~ write c (with_entries child ckeys cvalues) ;;
    _ <~ write l (with_entries left lkeys lvalues) ;;
    write parent (with_children p pkeys (n_children p))
  else
    k <! index (n_keys p) (childIdx - 1) ;;
    ckeys <! insertString (n_keys child) 0 k ;;
    x <! index (n_children left) (len (n_children left) - 1) ;;
    cchildren <! tree_insertNode (n_children child) 0 x ;;
    k' <! index (n_keys left) last ;;
    pkeys <! put (n_keys p) (childIdx - 1) [k'] ;;
    lkeys <! slice (n_keys left) 0 last ;;
    lchildren <! slice (n_children left) 0 (len (n_children left) - 1) ;;
    _ <~ write c (with_children child ckeys cchildren) ;;
    _ <~ write parent (with_children p pkeys (n_children p)) ;;
    write l (with_children left lkeys lchildren).

Definition rotateFromRight (parent : nat) (childIdx : Z) : TM unit :=
  p <~ deref parent ;;
  c <! index (n_children p) childIdx ;;
  r <! index (n_children p) (childIdx + 1) ;;
  child <~ deref c ;;
  right <~ deref r ;;
  if n_leaf child then
    k <! index (n_keys right) 0 ;;
    v <! index (n_values right) 0 ;;
    rkeys <! deleteString (n_keys right) 0 ;;
    rvalues <! deleteString (n_values right) 0 ;;
    k0 <! index rkeys 0 ;;
    pkeys <! put (n_keys p) childIdx [k0] ;;
    _ <~ write c (with_entries child (n_keys child ++ [k]) (n_values child ++ [v])) ;;
    _ <~ write r (with_entries right rkeys rvalues) ;;
    write parent (with_children p pkeys (n_children p))
  else
    k <! index (n_keys p) childIdx ;;
    x <! index (n_children right) 0 ;;
    k0 <! index (n_keys right) 0 ;;
    pkeys <! put (n_keys p) childIdx [k0] ;;
    rkeys <! deleteString (n_keys right) 0 ;;
    rchildren <! tree_deleteNode (n_children right) 0 ;;
    _ <~ write c (with_children child (n_keys child ++ [k]) (n_children child ++ [x])) ;;
    _ <~ write parent (with_children p pkeys (n_children p)) ;;
    write r (with_children right rkeys rchildren).

Definition mergeChildren (parent : nat) (leftIdx : Z) : TM unit :=
  p <~ deref parent ;;
  l <! index (n_children p) leftIdx ;;
  r <! index (n_children p) (leftIdx + 1) ;;
  left <~ deref l ;;
  right <~ deref r ;;
  _ <~ (if n_leaf left then
          write l (with_next (with_entries left (n_keys left ++ n_keys right) (n_values left ++ n_values right)) (n_next right))
        else
          k <! index (n_keys p) leftIdx ;;
          write l (with_children left ((n_keys left ++ [k]) ++ n_keys right) (n_children left ++ n_children right))) ;;
  pkeys <! deleteString (n_keys p) leftIdx ;;
  pchildren <! tree_deleteNode (n_children p) (leftIdx + 1) ;;
  write parent (with_children p pkeys pchildren).

(** [emitNode(parent.children[i], ...)]. *)
Definition emitChild (parent : nat) (i : Z) (kind key detail : bytes) : TM unit :=
  p <~ deref parent ;; c <! index (n_children p) i ;; emitNode c kind key detail.
(** [len(parent.children[i].keys)]. *)
Definition childLen (parent : nat) (i : Z) : TM Z :=
  p <~ deref parent ;; c <! index (n_children p) i ;; n <~ deref c ;; ret (len (n_keys n)).

Definition rebalanceChild (parent : nat) (childIdx : Z) : TM unit :=
  fromLeft <~ (if childIdx >? 0 then n <~ childLen parent (childIdx - 1) ;; m <~ minKeys ;; ret (n >? m) else ret false) ;;
  if (fromLeft : bool) then
    _ <~ rotateFromLeft parent childIdx ;;
    _ <~ emitChild parent (childIdx - 1) (str "mutation") [] (str "rotate from left: donor") ;;
    _ <~ emitChild parent childIdx (str "mutation") [] (str "rotate from left: receiver") ;;
    emitNode parent (str "mutation") [] (str "rotate from left: parent")
  else
    p <~ deref parent ;;
    fromRight <~ (if childIdx + 1 <? len (n_children p)
                  then n <~ childLen parent (childIdx + 1) ;; m <~ minKeys ;; ret (n >? m) else ret false) ;;
    if (fromRight : bool) then
      _ <~ rotateFromRight parent childIdx ;;
      _ <~ emitChild parent (childIdx + 1) (str "mutation") [] (str "rotate from right: donor") ;;
      _ <~ emitChild parent childIdx (str "mutation") [] (str "rotate from right: receiver") ;;
      emitNode parent (str "mutation") [] (str "rotate from right: parent")
    else
      let i := if childIdx >? 0 then childIdx - 1 else childIdx in
      _ <~ mergeChildren parent i ;;
      _ <~ emitChild parent i (str "merge") [] (str "merged siblings") ;;
      emitNode parent (str "mutation") [] (str "remove merged child").

Fixpoint deleteFromNode (fuel : nat) (p : nat) (key : bytes) : TM bool :=
  match fuel with
  | O => diverge
  | S fuel =>
      _ <~ emitNode p Ev.Traversal key (str "visit node for delete") ;;
      n <~ deref p ;;
      if n_leaf n then
        '(idx, found) <~ tree_search p key ;;
        if (found : bool) then
          n <~ deref p ;;
          keys <! deleteString (n_keys n) idx ;;
          values <! deleteString (n_values n) idx ;;
          _ <~ write p (with_entries n keys values) ;;
          _ <~ emitNode p (str "mutation") key (str "remove leaf entry") ;;
          ret true
        else ret false
      else
        childIdx <~ tree_childIndex p key ;;
        c <! index (n_children n) childIdx ;;
        deleted <~ deleteFromNode fuel c key ;;
        if (deleted : bool) then
          size <~ childLen p childIdx ;;
          _ <~ (if (childIdx >? 0) && (size >? 0) then
                  n <~ deref p ;;
                  c <! index (n_children n) childIdx ;;
                  m <~ minimumKey fuel c ;;
                  keys <! put (n_keys n) (childIdx - 1) [m] ;;
                  _ <~ write p (with_children n keys (n_children n)) ;;
                  emitNode p (str "mutation") key (str "refresh separator")
                else ret tt) ;;
          size <~ childLen p childIdx ;;
          m <~ minKeys ;;
          _ <~ (if size <? m then rebalanceChild p childIdx else ret tt) ;;
          ret true
        else ret false
  end.

Definition tree_delete (key : bytes) : TM bool :=
  root <~ look (fun m => t_root m.1) ;;
  match root with
  | None => ret false
  | Some r =>
      fuel <~ fuel_of ;;
      deleted <~ deleteFromNode fuel r key ;;
      if (deleted : bool) then
        n <~ deref r ;;
        if len (n_keys n) =? 0 then
          _ <~ emitNode r (str "mutation") key (str "remove empty root") ;;
          if n_leaf n then _ <~ set_root None ;; ret true
          else c <! index (n_children n) 0 ;; _ <~ set_root (Some c) ;; ret true
        else ret true
      else ret false
  end.

(** ** The adapter (memory.go) *)

(** The inner loop of [Range] over the entries of one leaf from [idx] on; the
    flag tells whether a key above [upper] was met. *)
Fixpoint scanLeaf (fuel : nat) (n : node) (idx : Z) (upper : bytes) (acc : list kv) : outcome engine_error (list kv * bool) :=
  if idx <? len (n_keys n) then
    match fuel with
    | O => NoFuel
    | S fuel =>
        k <- index (n_keys n) idx ;;
        if bltb upper k then Ok (acc, true)
        else v <- index (n_values n) idx ;; scanLeaf fuel n (idx + 1) upper (acc ++ [(k, v)])
    end
  else Ok (acc, false).
(** The outer loop over the leaves. *)
Fixpoint scanLeaves (fuel : nat) (p : option nat) (idx : Z) (upper : bytes) (acc : list kv) : TM (list kv) :=
  match p with
  | None => ret acc
  | Some p =>
      match fuel with
      | O => diverge
      | S fuel =>
          n <~ deref p ;;
          '(acc, stop) <! scanLeaf (length (n_keys n)) n idx upper acc ;;
          if (stop : bool) then ret acc else scanLeaves fuel (n_next n) 0 upper acc
      end
  end.
Fixpoint descend (fuel : nat) (p : nat) (key : bytes) : TM nat :=
  match fuel with
  | O => diverge
  | S fuel =>
      n <~ deref p ;;
      if n_leaf n then ret p
      else c <! node_child n key ;; descend fuel c key
  end.

Definition Memory_Get (key : bytes) : TM (option bytes) := tree_get key.
Definition Memory_Set (key value : bytes) : TM unit := tree_set key value.
Definition Memory_Delete (key : bytes) : TM bool := tree_delete key.
Definition Memory_Range (start end_ : bytes) : TM (list kv) :=
  root <~ look (fun m => t_root m.1) ;;
  match root with
  | None => ret []
  | Some r =>
      if bltb end_ start then ret []
      else
        fuel <~ fuel_of ;;
        p <~ descend fuel r start ;;
        n <~ deref p ;;
        '(idx, _) <! node_search n start ;;
        scanLeaves fuel (Some p) idx end_ []
  end.
Definition Memory_Close : TM unit := ret tt.

Definition MemoryKV : Structure Memory := mkStructure Memory_Get Memory_Range Memory_Set Memory_Delete Memory_SetTrace.
