(* ===== verification/MemTreeSpec.v ===== *)
(** * The in-memory B+Tree as an abstract tree

    A ghost tree carries the locations and the contents of the nodes. [forest]
    relates consecutive subtrees to the heap, the chain of their leaves
    included; [wf] says that the subtrees are balanced, filled between the
    limits and ordered by their separators. *)

From S2P Require Import Prelude KvList Errors Trace Slices Structures MemTree.

Inductive gtree :=
| GLeaf (l : nat) (es : list kv)
| GNode (l : nat) (ks : list bytes) (cs : list gtree).

Definition gloc (t : gtree) : nat := match t with GLeaf l _ => l | GNode l _ _ => l end.
Definition gkeys (t : gtree) : list bytes := match t with GLeaf _ es => map fst es | GNode _ ks _ => ks end.
(** The leftmost leaf. *)
Fixpoint gfirst (t : gtree) : nat :=
  match t with
  | GLeaf l _ => l
  | GNode l _ cs => match cs with c :: _ => gfirst c | [] => l end
  end.
Fixpoint gents (t : gtree) : list kv :=
  match t with GLeaf _ es => es | GNode _ _ cs => concat (map gents cs) end.
Fixpoint glocs (t : gtree) : list nat :=
  match t with GLeaf l _ => [l] | GNode l _ cs => l :: concat (map glocs cs) end.
Fixpoint gleaves (t : gtree) : list (list kv) :=
  match t with GLeaf _ es => [es] | GNode _ _ cs => concat (map gleaves cs) end.
Definition ents (ts : list gtree) : list kv := concat (map gents ts).
Definition locs (ts : list gtree) : list nat := concat (map glocs ts).
#[global] Arguments ents : simpl never.
#[global] Arguments locs : simpl never.

Lemma ents_app a b : ents (a ++ b) = ents a ++ ents b.
Proof. unfold ents. by rewrite map_app, concat_app. Qed.
Lemma ents_cons t b : ents (t :: b) = gents t ++ ents b.
Proof. done. Qed.
Lemma locs_app a b : locs (a ++ b) = locs a ++ locs b.
Proof. unfold locs. by rewrite map_app, concat_app. Qed.
Lemma locs_cons t b : locs (t :: b) = glocs t ++ locs b.
Proof. done. Qed.
Lemma gloc_in t : gloc t ∈ glocs t.
Proof. destruct t; by left. Qed.

(** ** The heap *)

(** The leaf after the last of [cs]' left neighbours. *)
Definition first_of (cs : list gtree) (nxt : option nat) : option nat :=
  match cs with [] => nxt | c :: _ => Some (gfirst c) end.
Fixpoint chain (P : gtree -> option nat -> Prop) (cs : list gtree) (nxt : option nat) : Prop :=
  match cs with [] => True | c :: cs => P c (first_of cs nxt) /\ chain P cs nxt end.
Definition leaf_of (es : list kv) (nxt : option nat) : node := mkNode true (map fst es) (map snd es) [] nxt.
Definition inner_of (ks : list bytes) (cs : list gtree) : node := mkNode false ks [] (map gloc cs) None.
(** The nodes of a tree of height [h] are in the heap, the leaf after its last
    one is [nxt]. *)
Fixpoint stored (H : gmap nat node) (h : nat) (t : gtree) (nxt : option nat) : Prop :=
  match h, t with
  | O, GLeaf l es => H !! l = Some (leaf_of es nxt)
  | S h, GNode l ks cs => H !! l = Some (inner_of ks cs) /\ chain (stored H h) cs nxt
  | _, _ => False
  end.

Lemma chain_app P a b nxt : chain P (a ++ b) nxt <-> chain P a (first_of b nxt) /\ chain P b nxt.
Proof.
  induction a as [|c a IH]; cbn; [tauto|]. rewrite IH. assert (first_of (a ++ b) nxt = first_of a (first_of b nxt)) as ->.
  { by destruct a. } tauto.
Qed.
Lemma chain_mono (P Q : gtree -> option nat -> Prop) cs nxt :
  (forall c x, c ∈ cs -> P c x -> Q c x) -> chain P cs nxt -> chain Q cs nxt.
Proof.
  induction cs as [|c cs IH]; [done|]. cbn. intros H [H1 H2]. split; [apply H; [by left|done]|].
  apply IH; [|done]. intros. apply H; [by right|done].
Qed.
Lemma stored_frame H H' h : forall t nxt,
  (forall l, l ∈ glocs t -> H' !! l = H !! l) -> stored H h t nxt -> stored H' h t nxt.
Proof.
  induction h as [|h IH]; intros [l es|l ks cs] nxt HH; cbn in *; try done.
  - rewrite HH by (by left). done.
  - rewrite HH by (by left). intros [? Hc]. split; [done|]. eapply chain_mono; [|exact Hc].
    intros c x Hx. apply IH. intros l' Hl. apply HH. right. apply list_elem_of_In, in_concat. exists (glocs c).
    split; [|by apply list_elem_of_In]. apply in_map. by apply list_elem_of_In.
Qed.
Lemma chain_frame H H' h ts nxt :
  (forall l, l ∈ locs ts -> H' !! l = H !! l) -> chain (stored H h) ts nxt -> chain (stored H' h) ts nxt.
Proof.
  intros HH. apply chain_mono. intros c x Hc. apply stored_frame. intros l Hl. apply HH.
  apply list_elem_of_In, in_concat. exists (glocs c). split; [|by apply list_elem_of_In]. apply in_map. by apply list_elem_of_In.
Qed.

(** The trees [ts], of height [h], one after the other: their nodes are
    distinct, allocated and in the heap. *)
Record forest (T : tree) (h : nat) (ts : list gtree) (nxt : option nat) : Prop := {
  fo_chain : chain (stored (t_heap T) h) ts nxt;
  fo_nodup : NoDup (locs ts);
  fo_fresh : Forall (fun l => (l < t_fresh T)%nat) (locs ts);
}.
(** What changing the trees that own [L] does to the rest. *)
Record step (T T' : tree) (L : list nat) : Prop := {
  sp_frame l : (l < t_fresh T)%nat -> l ∉ L -> t_heap T' !! l = t_heap T !! l;
  sp_fresh : (t_fresh T <= t_fresh T')%nat;
  sp_root : t_root T' = t_root T;
  sp_max : t_maxKeys T' = t_maxKeys T;
}.
Definition from (T : tree) (L L' : list nat) : Prop := forall l, l ∈ L' -> l ∈ L \/ (t_fresh T <= l)%nat.

Lemma step_refl T L : step T T L.
Proof. done. Qed.
Lemma step_trans T T' T'' L L' : step T T' L -> step T' T'' L' -> from T L L' -> step T T'' L.
Proof.
  intros [F1 N1 R1 M1] [F2 N2 R2 M2] HL. split; [|lia|congruence|congruence].
  intros l Hl Hn. rewrite F2; [by apply F1|lia|]. intros H. destruct (HL l H); [done|lia].
Qed.

(** Replacing some of the trees by others that stand for them. *)
Lemma graft_frame T T' h cs1 ts ts' cs2 nxt :
  forest T h (cs1 ++ ts ++ cs2) nxt -> (t_fresh T <= t_fresh T')%nat ->
  (forall l, l ∈ locs cs1 ++ locs cs2 -> t_heap T' !! l = t_heap T !! l) -> forest T' h ts' (first_of cs2 nxt) ->
  from T (locs ts) (locs ts') -> first_of ts' (first_of cs2 nxt) = first_of ts (first_of cs2 nxt) ->
  forest T' h (cs1 ++ ts' ++ cs2) nxt.
Proof.
  intros [C N F] Fs Fr [C' N' F'] Hfrom Hfirst. rewrite !locs_app in N, F.
  apply NoDup_app in N as (N1 & D1 & N2). apply NoDup_app in N2 as (N2 & D2 & N3).
  apply Forall_app in F as [F1 F2]. apply Forall_app in F2 as [F2 F3].
  rewrite Forall_forall in F1, F2, F3. apply chain_app in C as [C1 C2]. apply chain_app in C2 as [C2 C3].
  split.
  - apply chain_app. split; [|apply chain_app; split; [done|]].
    + assert (Hf : first_of (ts' ++ cs2) nxt = first_of (ts ++ cs2) nxt) by (destruct ts', ts; cbn in *; congruence).
      rewrite Hf. eapply chain_frame; [|done]. intros. apply Fr, elem_of_app. by left.
    + eapply chain_frame; [|done]. intros. apply Fr, elem_of_app. by right.
  - rewrite !locs_app. apply NoDup_app. split_and!; [done| |apply NoDup_app; split_and!; [done| |done]].
    + intros l Hl [H|H]%elem_of_app; [|by apply (D1 l Hl), elem_of_app; right].
      destruct (Hfrom l H) as [?|?]; [by apply (D1 l Hl), elem_of_app; left|]. specialize (F1 l Hl). lia.
    + intros l Hl H. destruct (Hfrom l Hl) as [?|?]; [by apply (D2 l)|]. specialize (F3 l H). lia.
  - rewrite !locs_app, !Forall_app. split_and!; [|done|]; rewrite Forall_forall; intros l Hl.
    + specialize (F1 l Hl). lia.
    + specialize (F3 l Hl). lia.
Qed.
Lemma graft T T' h cs1 ts ts' cs2 nxt :
  forest T h (cs1 ++ ts ++ cs2) nxt -> step T T' (locs ts) -> forest T' h ts' (first_of cs2 nxt) ->
  from T (locs ts) (locs ts') -> first_of ts' (first_of cs2 nxt) = first_of ts (first_of cs2 nxt) ->
  forest T' h (cs1 ++ ts' ++ cs2) nxt.
Proof.
  intros F St. eapply graft_frame; [exact F|apply St|]. destruct F as [_ N Fr]. rewrite !locs_app in N, Fr.
  intros l Hl. apply St.
  - rewrite Forall_forall in Fr. apply Fr. apply elem_of_app in Hl as [?|?]; apply elem_of_app; [by left|right].
    apply elem_of_app. by right.
  - apply NoDup_app in N as (_ & D1 & N2). apply NoDup_app in N2 as (_ & D2 & _). intros Hin.
    apply elem_of_app in Hl as [Hl|Hl]; [apply (D1 l Hl), elem_of_app; by left|by apply (D2 l)].
Qed.

(** ** Order and occupancy *)

(** Bounds: [lo] inclusive, [hi] exclusive, [None] no bound. *)
Definition hle (a : bytes) (hi : option bytes) : Prop := match hi with Some b => ble a b | None => True end.
Definition hlt (a : bytes) (hi : option bytes) : Prop := match hi with Some b => blt a b | None => True end.
(** Entries in ascending order within the bounds. *)
Definition ranged (lo : bytes) (hi : option bytes) (es : list kv) : Prop :=
  kv_sorted es /\ Forall (fun p => ble lo p.1 /\ hlt p.1 hi) es.
(** Children with the separators between them. *)
Fixpoint kids (P : bytes -> option bytes -> gtree -> Prop) (lo : bytes) (hi : option bytes) (ks : list bytes) (cs : list gtree) : Prop :=
  match ks, cs with
  | [], [c] => P lo hi c
  | k :: ks, c :: cs => P lo (Some k) c /\ kids P k hi ks cs
  | _, _ => False
  end.
(** A node other than the root has between [mk / 2] and [mk] keys. *)
Definition filled (mk : Z) (t : gtree) : Prop := mk / 2 <= len (gkeys t) <= mk.
Fixpoint wf (mk : Z) (h : nat) (lo : bytes) (hi : option bytes) (t : gtree) : Prop :=
  hle lo hi /\
  match h, t with
  | O, GLeaf l es => ranged lo hi es
  | S h, GNode l ks cs => kids (fun a b c => wf mk h a b c /\ filled mk c) lo hi ks cs
  | _, _ => False
  end.
Abbreviation wfk mk h := (fun a b c => wf mk h a b c /\ filled mk c).

(** The part of the children left of one, and right of one. *)
Fixpoint kidsL (P : bytes -> option bytes -> gtree -> Prop) (lo a : bytes) (ks : list bytes) (cs : list gtree) : Prop :=
  match ks, cs with
  | [], [] => a = lo
  | k :: ks, c :: cs => P lo (Some k) c /\ kidsL P k a ks cs
  | _, _ => False
  end.
Definition kidsR (P : bytes -> option bytes -> gtree -> Prop) (b hi : option bytes) (ks : list bytes) (cs : list gtree) : Prop :=
  match ks with [] => cs = [] /\ b = hi | k :: ks => b = Some k /\ kids P k hi ks cs end.

Section Kids.
Context (P : bytes -> option bytes -> gtree -> Prop).
Implicit Types (ks : list bytes) (cs : list gtree).

Lemma kids_cons lo hi ks c cs : kids P lo hi ks (c :: cs) <-> exists b, P lo b c /\ kidsR P b hi ks cs.
Proof.
  destruct ks as [|k ks]; cbn.
  - destruct cs; split.
    + intros H. by exists hi.
    + by intros (b & H & _ & ->).
    + done.
    + by intros (b & H & [=] & _).
  - split; [intros [H1 H2]; by exists (Some k)|]. by intros (b & H1 & -> & H2).
Qed.
Lemma kidsR_cons b hi k ks c cs :
  kidsR P b hi (k :: ks) (c :: cs) <-> b = Some k /\ exists b', P k b' c /\ kidsR P b' hi ks cs.
Proof. cbn [kidsR]. by rewrite kids_cons. Qed.
Lemma kids_split lo hi ks1 ks2 cs1 c cs2 : length ks1 = length cs1 ->
  kids P lo hi (ks1 ++ ks2) (cs1 ++ c :: cs2) <->
  exists a b, kidsL P lo a ks1 cs1 /\ P a b c /\ kidsR P b hi ks2 cs2.
Proof.
  revert lo cs1. induction ks1 as [|k ks1 IH]; intros lo [|c1 cs1] Hl; try done.
  - cbn [app]. rewrite kids_cons. split; [intros (b & H); exists lo, b; by split|].
    intros (a & b & -> & H). by exists b.
  - cbn. rewrite IH by (cbn in Hl; lia). split.
    + intros (H & a & b & H'). exists a, b. tauto.
    + intros (a & b & [H H'] & H''). split; [done|]. eauto.
Qed.
Lemma kidsL_snoc lo a k ks c cs : length ks = length cs ->
  kidsL P lo a (ks ++ [k]) (cs ++ [c]) <-> exists a', kidsL P lo a' ks cs /\ P a' (Some k) c /\ a = k.
Proof.
  revert lo cs. induction ks as [|k1 ks IH]; intros lo [|c1 cs] Hl; try done.
  - cbn. split; [intros [H ->]; by exists lo|]. by intros (a' & -> & H & ->).
  - cbn. rewrite IH by (cbn in Hl; lia). split.
    + intros (H & a' & H' & ?). exists a'. tauto.
    + intros (a' & [H H'] & ?). split; [done|]. eauto.
Qed.
Lemma kids_length lo hi ks cs : kids P lo hi ks cs -> length cs = S (length ks).
Proof.
  revert lo cs. induction ks as [|k ks IH]; intros lo [|c cs]; cbn; try done; [by destruct cs|].
  intros [_ H]. by rewrite (IH _ _ H).
Qed.
Lemma kidsL_length lo a ks cs : kidsL P lo a ks cs -> length cs = length ks.
Proof.
  revert lo cs. induction ks as [|k ks IH]; intros lo [|c cs]; cbn; try done. intros [_ H]. by rewrite (IH _ _ H).
Qed.
Lemma kidsR_length b hi ks cs : kidsR P b hi ks cs -> length cs = length ks.
Proof. destruct ks as [|k ks]; cbn; [by intros [-> _]|]. intros [_ H%kids_length]. done. Qed.
End Kids.

Lemma kids_mono (P Q : bytes -> option bytes -> gtree -> Prop) lo hi ks cs :
  (forall a b c, c ∈ cs -> P a b c -> Q a b c) -> kids P lo hi ks cs -> kids Q lo hi ks cs.
Proof.
  revert lo cs. induction ks as [|k ks IH]; intros lo [|c cs] H; cbn; try done.
  - destruct cs; [|done]. apply H. by left.
  - intros [H1 H2]. split; [apply H; [by left|done]|]. apply IH; [|done]. intros. apply H; [by right|done].
Qed.

(** ** Order facts *)

Lemma hle_refl a : hle a (Some a).
Proof. cbn. border. Qed.
Lemma hle_trans a b hi : ble a b -> hle b hi -> hle a hi.
Proof. destruct hi; cbn; [|done]. intros. border. Qed.
Lemma hlt_hle a hi : hlt a hi -> hle a hi.
Proof. destruct hi; cbn; [|done]. intros. border. Qed.
Lemma hlt_trans a b hi : ble a b -> hlt b hi -> hlt a hi.
Proof. destruct hi; cbn; [|done]. intros. border. Qed.
Lemma hlt_le a b hi : blt a b -> hle b hi -> hlt a hi.
Proof. destruct hi; cbn; [|done]. intros. border. Qed.

Lemma ranged_nil lo hi : ranged lo hi [].
Proof. split; constructor. Qed.
Lemma ranged_app lo k hi a b :
  ranged lo (Some k) a -> ranged k hi b -> ble lo k -> hle k hi -> ranged lo hi (a ++ b).
Proof.
  intros [Sa Fa] [Sb Fb] H1 H2. rewrite Forall_forall in Fa, Fb. split.
  - apply kv_sorted_app. split_and!; [done..|]. intros p q Hp Hq. specialize (Fa p Hp). specialize (Fb q Hq).
    cbn in *. destruct Fa, Fb. border.
  - apply Forall_app. rewrite !Forall_forall. split.
    + intros p Hp. destruct (Fa p Hp) as [? Hk]. split; [done|]. by eapply hlt_le.
    + intros p Hp. destruct (Fb p Hp). split; [border|done].
Qed.
Lemma ranged_below k lo es : ranged lo (Some k) es -> below k es.
Proof. intros [_ H]. eapply Forall_impl; [exact H|]. cbn. tauto. Qed.
Lemma ranged_above k a hi es : ranged a hi es -> blt k a -> above k es.
Proof. intros [_ H] Hk. eapply Forall_impl; [exact H|]. cbn. intros p [? _]. border. Qed.
Lemma ranged_weaken lo lo' hi hi' es : ranged lo hi es -> ble lo' lo ->
  (forall x, hlt x hi -> hlt x hi') -> ranged lo' hi' es.
Proof.
  intros [H1 H2] Hl Hh. split; [done|]. eapply Forall_impl; [exact H2|]. cbn. intros p [? ?]. split; [border|auto].
Qed.

Lemma wf_le mk h lo hi t : wf mk h lo hi t -> hle lo hi.
Proof. destruct h; by intros [? _]. Qed.

Lemma kids_ranged (P : bytes -> option bytes -> gtree -> Prop) :
  (forall a b c, P a b c -> hle a b /\ ranged a b (gents c)) ->
  forall ks lo hi cs, kids P lo hi ks cs -> ranged lo hi (ents cs) /\ hle lo hi.
Proof.
  intros HP. induction ks as [|k ks IH]; intros lo hi [|c cs]; cbn; try done.
  - destruct cs; [|done]. intros [? ?]%HP. unfold ents. cbn. by rewrite app_nil_r.
  - intros [[H1 H2]%HP H3]. destruct (IH _ _ _ H3) as [H4 H5]. cbn in H1. split; [|by eapply hle_trans].
    rewrite ents_cons. by eapply ranged_app.
Qed.
Lemma wf_ranged mk h : forall lo hi t, wf mk h lo hi t -> ranged lo hi (gents t).
Proof.
  induction h as [|h IH]; intros lo hi [l es|l ks cs] [Hl H]; cbn in *; try done.
  eapply kids_ranged; [|exact H]. cbn beta. intros a b c [Hw _]. split; [by eapply wf_le|by apply IH].
Qed.
Lemma wfk_ok mk h a b c : wf mk h a b c /\ filled mk c -> hle a b /\ ranged a b (gents c).
Proof. intros [H _]. split; [by eapply wf_le|by eapply wf_ranged]. Qed.

Section Sides.
Context (P : bytes -> option bytes -> gtree -> Prop).
Context (HP : forall a b c, P a b c -> hle a b /\ ranged a b (gents c)).

Lemma kidsL_ranged ks : forall lo a cs, kidsL P lo a ks cs -> ranged lo (Some a) (ents cs) /\ ble lo a.
Proof.
  induction ks as [|k ks IH]; intros lo a [|c cs]; cbn; try done.
  - intros ->. split; [apply ranged_nil|border].
  - intros [[H1 H2]%HP H3]. destruct (IH _ _ _ H3) as [H4 H5]. cbn in H1. split; [|border].
    rewrite ents_cons. by eapply ranged_app.
Qed.
Lemma kidsR_ranged b hi ks cs : kidsR P b hi ks cs ->
  match b with Some k => ranged k hi (ents cs) /\ hle k hi | None => cs = [] /\ hi = None end.
Proof.
  destruct ks as [|k ks]; cbn.
  - intros [-> ->]. destruct hi; [|done]. split; [apply ranged_nil|apply hle_refl].
  - intros [-> H]. by eapply kids_ranged.
Qed.

(** The child that covers [key]. *)
Lemma kids_find key ks : forall lo hi cs, kids P lo hi ks cs -> ble lo key -> hlt key hi ->
  exists ks1 ks2 cs1 c cs2 a b, ks = ks1 ++ ks2 /\ cs = cs1 ++ c :: cs2 /\ length ks1 = length cs1 /\
    Forall (fun k => bltb key k = false) ks1 /\ Forall (fun k => bltb key k = true) ks2 /\
    kidsL P lo a ks1 cs1 /\ P a b c /\ kidsR P b hi ks2 cs2 /\ ble a key /\ hlt key b.
Proof.
  induction ks as [|k ks IH]; intros lo hi cs H Hlo Hhi.
  - destruct cs as [|c [|]]; try done. exists [], [], [], c, [], lo, hi. split_and!; done || constructor.
  - destruct cs as [|c cs]; [done|]. destruct (bltb key k) eqn:E.
    + exists [], (k :: ks), [], c, cs, lo, (Some k). destruct H as [H1 H2]. split_and!; try done; [|by bool_order].
      assert (Hs : forall ks lo cs, kids P lo hi ks cs -> blt key lo -> Forall (fun k => bltb key k = true) ks).
      { clear -HP. induction ks as [|x ks IH]; intros lo [|c cs]; cbn; try done. intros [[H1 _]%HP H2] Hk. cbn in H1.
        constructor; [|eapply IH; [exact H2|]]; border. }
      constructor; [done|]. eapply Hs; [exact H2|]. by bool_order.
    + destruct H as [H1 H2]. bool_order. destruct (IH k hi cs H2 E Hhi) as (ks1 & ks2 & cs1 & c' & cs2 & a & b & -> & -> & L & F1 & F2 & K1 & K2 & K3).
      exists (k :: ks1), ks2, (c :: cs1), c', cs2, a, b. split_and!; try done; try tauto; [cbn; lia|].
      constructor; [border|done].
Qed.
End Sides.

(** ** Steps that leave the tree as it is *)

(** A step that computes [v] and at most emits events. *)
Definition quiet {A} (m : TM A) (T : tree) (v : A) : Prop := forall o b,
  ends m ((T, o), b) (fun a st => a = v /\ st.1.1 = T /\ traced b st.2) no_err.

Lemma ends_quiet {A B} (m : TM A) (k : A -> TM B) T v o b Q R :
  quiet m T v -> (forall o' b', traced b b' -> ends (k v) ((T, o'), b') Q R) -> ends (a <~ m ;; k a) ((T, o), b) Q R.
Proof.
  intros Hm Hk. eapply ends_step; [apply Hm|]. intros a [[T' o'] b'] (-> & [= ->] & Hb). by apply Hk.
Qed.
Lemma quiet_bind {A B} (m : TM A) (k : A -> TM B) T v w : quiet m T v -> quiet (k v) T w -> quiet (a <~ m ;; k a) T w.
Proof.
  intros Hm Hk o b. eapply ends_quiet; [done|]. intros o' b' Hb. eapply ends_mono; [apply Hk| |done].
  cbn. intros a st (-> & -> & Hb'). split_and!; try done. by etrans.
Qed.
Lemma quiet_ret {A} (v : A) T : quiet (ret v) T v.
Proof. done. Qed.
Lemma quiet_lift {A B} (m : outcome engine_error A) (k : A -> TM B) T v w : m = Ok v -> quiet (k v) T w -> quiet (a <! m ;; k a) T w.
Proof. by intros ->. Qed.
Lemma quiet_deref p n T : t_heap T !! p = Some n -> quiet (deref p) T n.
Proof. intros H o b. unfold ends, deref. cbn. by rewrite H. Qed.
Lemma quiet_look {A} (f : Memory -> A) T v : (forall o, f (T, o) = v) -> quiet (look f) T v.
Proof. intros H o b. cbn. by rewrite H. Qed.

Lemma nodeID_ends p T o b : ends (nodeID p) ((T, o), b) (fun _ st => st.1.1 = T /\ st.2 = b) no_err.
Proof. unfold ends, nodeID. by destruct (negb _). Qed.
Lemma nodeIDs_ends ps T : forall o b, ends (nodeIDs ps) ((T, o), b) (fun _ st => st.1.1 = T /\ st.2 = b) no_err.
Proof.
  induction ps as [|p ps IH]; intros o b; [done|]. cbn [nodeIDs]. eapply ends_step; [apply nodeID_ends|].
  intros id [[T1 o1] b1] [[= ->] [= ->]]. eapply ends_step; [apply IH|]. by intros ids [[T2 o2] b2] [[= ->] [= ->]].
Qed.
Lemma quiet_emit p n T kind key detail : t_heap T !! p = Some n -> quiet (emitNode p kind key detail) T tt.
Proof.
  intros Hp o b. unfold emitNode. apply ends_bind. cbn. destruct (_ && _); [|done].
  eapply ends_step; [apply nodeID_ends|]. intros id [[T1 o1] b1] [[= ->] [= ->]].
  eapply ends_quiet; [by apply quiet_deref|]. intros o2 b2 Hb2.
  eapply ends_step; [apply nodeIDs_ends|]. intros ids [[T3 o3] b3] [[= ->] [= ->]]. cbn. split_and!; try done.
  etrans; [done|auto].
Qed.

Lemma quiet_search {A} p n T (xs ys : list A) (f : Z -> TM bool) (q : A -> bool) :
  t_heap T !! p = Some n ->
  (forall i x, (xs ++ ys) !! i = Some x -> quiet (f (Z.of_nat i)) T (q x)) ->
  Forall (fun x => q x = false) xs -> Forall (fun x => q x = true) ys ->
  quiet (searchM (len (xs ++ ys)) f) T (len xs).
Proof.
  intros Hp Hf Hx Hy o b.
  apply (searchM_list (fun st => st.1.1 = T /\ traced b st.2) f q); [|done..].
  intros i x [[T1 o1] b1] Hi [[= ->] Hb]. cbn in Hb. eapply ends_mono; [by apply Hf| |done].
  cbn. intros a st (-> & -> & Hb'). split_and!; try done. by etrans.
Qed.
Lemma quiet_observed {A} (k : bool -> TM A) T v : quiet (k true) T v -> quiet (k false) T v -> quiet (on <~ observed ;; k on) T v.
Proof. intros H1 H2 o b. apply ends_bind. cbn. destruct (_ && _); auto. Qed.

Definition split_at (key : bytes) (xs ys : list bytes) : Prop :=
  Forall (fun k => bleb key k = false) xs /\ Forall (fun k => bleb key k = true) ys.
Definition found_at (key : bytes) (ys : list bytes) : bool := match ys with k :: _ => beqb k key | [] => false end.

Lemma found_ok (key : bytes) (xs ys : list bytes) :
  (if len xs <? len (xs ++ ys) then k <- index (E := engine_error) (xs ++ ys) (len xs) ;; Ok (len xs, beqb k key)
   else Ok (len xs, false)) = Ok (len xs, found_at key ys).
Proof.
  rewrite len_app. destruct ys as [|y ys].
  - rewrite len_nil, Z.add_0_r, Z.ltb_irrefl. done.
  - rewrite len_cons. pose proof (len_nonneg ys). zdecide. by rewrite index_mid.
Qed.
Lemma node_search_ok n key xs ys : n_keys n = xs ++ ys -> split_at key xs ys ->
  node_search n key = Ok (len xs, found_at key ys).
Proof.
  intros Hn [Hx Hy]. unfold node_search. rewrite Hn.
  erewrite (search_list _ (fun k => bleb key k)); [apply found_ok| |done..].
  intros i x Hi. by rewrite (index_lookup _ _ _ Hi).
Qed.
Lemma tree_search_ok p n T key xs ys : t_heap T !! p = Some n -> n_keys n = xs ++ ys -> split_at key xs ys ->
  quiet (tree_search p key) T (len xs, found_at key ys).
Proof.
  intros Hp Hn Hs. unfold tree_search. eapply quiet_bind; [by apply quiet_deref|]. apply quiet_observed.
  - rewrite Hn. eapply quiet_bind.
    + apply (quiet_search p n T xs ys _ (fun k => bleb key k)); [done| |apply Hs..]. intros i x Hi.
      eapply quiet_lift; [by apply index_lookup|]. eapply quiet_bind; [by eapply quiet_emit|]. apply quiet_ret.
    + pose proof (found_ok key xs ys) as F. destruct (len xs <? len (xs ++ ys)); [|injection F as F; rewrite F; apply quiet_ret].
      intros o b. unfold ends, bind, lift. destruct (index (xs ++ ys) (len xs)); try done. injection F as F. rewrite F. done.
  - intros o b. rewrite (node_search_ok n key xs ys Hn Hs). done.
Qed.

Lemma node_childIndex_ok n key ks1 ks2 : n_keys n = ks1 ++ ks2 ->
  Forall (fun k => bltb key k = false) ks1 -> Forall (fun k => bltb key k = true) ks2 ->
  node_childIndex n key = Ok (len ks1).
Proof.
  intros Hn H1 H2. unfold node_childIndex. rewrite Hn. apply (search_list _ (fun k => bltb key k)); [|done..].
  intros i x Hi. by rewrite (index_lookup _ _ _ Hi).
Qed.
Lemma tree_childIndex_ok p n T key ks1 ks2 : t_heap T !! p = Some n -> n_keys n = ks1 ++ ks2 ->
  Forall (fun k => bltb key k = false) ks1 -> Forall (fun k => bltb key k = true) ks2 ->
  quiet (tree_childIndex p key) T (len ks1).
Proof.
  intros Hp Hn H1 H2. unfold tree_childIndex. eapply quiet_bind; [by apply quiet_deref|]. apply quiet_observed.
  - rewrite Hn. apply (quiet_search p n T ks1 ks2 _ (fun k => bltb key k)); [done| |done..]. intros i x Hi.
    eapply quiet_lift; [by apply index_lookup|]. eapply quiet_bind; [by eapply quiet_emit|]. apply quiet_ret.
  - intros o b. by rewrite (node_childIndex_ok n key ks1 ks2).
Qed.

(** The entries of a leaf around a key. *)
Lemma split_keys key (a b : list kv) : below key a -> Forall (fun p => ble key p.1) b -> split_at key (map fst a) (map fst b).
Proof.
  intros Ha Hb. split; rewrite Forall_map; eapply Forall_impl; try eassumption; cbn; intros p Hp; border.
Qed.
Lemma found_above key (b : list kv) : above key b -> found_at key (map fst b) = false.
Proof. destruct 1 as [|p b Hp _]; cbn; [done|]. border. Qed.

(** ** Lookup *)

(** The entries of the other children are out of the way. *)
Lemma kids_around mk h lo hi a b key ks1 ks2 cs1 cs2 :
  kidsL (wfk mk h) lo a ks1 cs1 -> kidsR (wfk mk h) b hi ks2 cs2 -> ble a key -> hlt key b ->
  below key (ents cs1) /\ above key (ents cs2).
Proof.
  intros HL HR Ha Hb. apply (kidsL_ranged _ (wfk_ok mk h)) in HL as [HL _].
  apply (kidsR_ranged _ (wfk_ok mk h)) in HR. split; [eapply below_le; [by eapply ranged_below|done]|].
  destruct b as [k|]; [|destruct HR as [-> _]; constructor]. destruct HR as [HR _]. by eapply ranged_above.
Qed.
Lemma chain_mid P cs1 c cs2 nxt : chain P (cs1 ++ c :: cs2) nxt ->
  chain P cs1 (Some (gfirst c)) /\ P c (first_of cs2 nxt) /\ chain P cs2 nxt.
Proof. rewrite chain_app. cbn. tauto. Qed.
Lemma gloc_at cs1 c cs2 (ks : list bytes) : length ks = length cs1 ->
  index (E := engine_error) (map gloc (cs1 ++ c :: cs2)) (len ks) = Ok (gloc c).
Proof.
  intros H. rewrite map_app. cbn. replace (len ks) with (len (map gloc cs1)) by (unfold len; rewrite length_map; lia).
  apply index_mid.
Qed.

Lemma len_fst {A B} (l : list (A * B)) : len (map fst l) = len l.
Proof. unfold len. by rewrite length_map. Qed.
Lemma len_snd {A B} (l : list (A * B)) : len (map snd l) = len l.
Proof. unfold len. by rewrite length_map. Qed.

(** Where a search in a leaf stops. *)
Lemma leaf_search_at p T nxt key a v b : t_heap T !! p = Some (leaf_of (a ++ (key, v) :: b) nxt) -> below key a -> above key b ->
  quiet (tree_search p key) T (len a, true).
Proof.
  intros Hp Ha Hb. rewrite <- (len_fst a). replace true with (found_at key (map fst ((key, v) :: b))) by apply beqb_refl.
  eapply tree_search_ok; [done|cbn; by rewrite map_app|]. apply split_keys; [done|].
  constructor; [cbn; border|]. eapply Forall_impl; [exact Hb|]. cbn. intros. border.
Qed.
Lemma leaf_search_gap p T nxt key a b : t_heap T !! p = Some (leaf_of (a ++ b) nxt) -> below key a -> above key b ->
  quiet (tree_search p key) T (len a, false).
Proof.
  intros Hp Ha Hb. rewrite <- (len_fst a), <- (found_above key b) by done.
  eapply tree_search_ok; [done|cbn; by rewrite map_app|]. apply split_keys; [done|].
  eapply Forall_impl; [exact Hb|]. cbn. intros. border.
Qed.

Lemma getLoop_ok mk key : forall h fuel T t nxt lo hi,
  stored (t_heap T) h t nxt -> wf mk h lo hi t -> ble lo key -> hlt key hi -> (h < fuel)%nat ->
  quiet (getLoop fuel (gloc t) key) T (kv_get key (gents t)).
Proof.
  induction h as [|h IH]; intros fuel T [l es|l ks cs] nxt lo hi St [_ W] Hlo Hhi Hf; try done; cbn [stored wf gloc gents] in *.
  - destruct W as [Hs _]. destruct fuel as [|fuel]; [lia|]. cbn [getLoop].
    eapply quiet_bind; [by apply quiet_deref|]. cbn [n_leaf leaf_of].
    eapply quiet_bind; [by eapply quiet_emit|]. destruct (kv_cutP key es Hs) as [x v y Hx Hy|x y Hx Hy].
    + eapply quiet_bind; [by eapply leaf_search_at|]. eapply quiet_bind; [by apply quiet_deref|].
      rewrite kv_get_at by done. eapply quiet_lift; [|apply quiet_ret]. apply (index_map snd x (key, v) y).
    + eapply quiet_bind; [by eapply leaf_search_gap|]. rewrite kv_get_gap by done. apply quiet_ret.
  - destruct fuel as [|fuel]; [lia|]. destruct St as [Hl C].
    destruct (kids_find _ (wfk_ok mk h) key ks lo hi cs W Hlo Hhi)
      as (ks1 & ks2 & cs1 & c & cs2 & a & b & -> & -> & Hlen & F1 & F2 & KL & [Wc _] & KR & Ha & Hb).
    cbn [getLoop]. eapply quiet_bind; [by apply quiet_deref|]. cbn [n_leaf inner_of].
    eapply quiet_bind; [by eapply quiet_emit|]. eapply quiet_bind; [by eapply tree_childIndex_ok|].
    eapply quiet_lift; [by apply gloc_at|]. apply chain_mid in C as (_ & Sc & _).
    destruct (kids_around _ _ _ _ _ _ _ _ _ _ _ KL KR Ha Hb) as [B1 B2].
    fold (ents (cs1 ++ c :: cs2)). rewrite ents_app, ents_cons, kv_get_below, kv_get_app_above by done.
    eapply IH; try done. lia.
Qed.

(** ** Range scans *)

(** The leaves from [p] on hold [ess], the one after them is [fin]. *)
Fixpoint lseg (H : gmap nat node) (p : option nat) (ess : list (list kv)) (fin : option nat) : Prop :=
  match ess with
  | [] => p = fin
  | es :: ess => exists l nx, p = Some l /\ H !! l = Some (leaf_of es nx) /\ lseg H nx ess fin
  end.
Lemma lseg_app H ess ess' fin : forall p, (exists q, lseg H p ess q /\ lseg H q ess' fin) <-> lseg H p (ess ++ ess') fin.
Proof.
  induction ess as [|es ess IH]; intros p; cbn.
  - split; [by intros (q & -> & ?)|]. intros. by exists p.
  - split.
    + intros (q & (l & nx & -> & Hl & H1) & H2). exists l, nx. split_and!; try done. apply IH. eauto.
    + intros (l & nx & -> & Hl & (q & H1 & H2)%IH). exists q. split; [|done]. eauto.
Qed.
Lemma kids_each (P : bytes -> option bytes -> gtree -> Prop) ks : forall lo hi cs,
  kids P lo hi ks cs -> forall c, c ∈ cs -> exists a b, P a b c.
Proof.
  induction ks as [|k ks IH]; intros lo hi [|c cs]; cbn; try done.
  - destruct cs; [|done]. intros H x ->%list_elem_of_singleton. eauto.
  - intros [H1 H2] x [->|Hx]%elem_of_cons; eauto.
Qed.
Lemma chain_lseg (P : gtree -> option nat -> Prop) H cs nxt :
  (forall c x, c ∈ cs -> P c x -> lseg H (Some (gfirst c)) (gleaves c) x) -> chain P cs nxt ->
  lseg H (first_of cs nxt) (concat (map gleaves cs)) nxt.
Proof.
  induction cs as [|c cs IH]; [done|]. cbn. intros Hc [Sc C]. apply lseg_app. exists (first_of cs nxt).
  split; [apply Hc; [by left|done]|]. apply IH; [|done]. intros. apply Hc; [by right|done].
Qed.
Lemma stored_lseg mk H : forall h t nxt lo hi, stored H h t nxt -> wf mk h lo hi t -> lseg H (Some (gfirst t)) (gleaves t) nxt.
Proof.
  induction h as [|h IH]; intros [l es|l ks cs] nxt lo hi St [_ W]; try done; cbn [stored wf gfirst gleaves] in *.
  - by exists l, nxt.
  - destruct St as [_ C]. assert (L : lseg H (first_of cs nxt) (concat (map gleaves cs)) nxt).
    { eapply chain_lseg; [|exact C]. intros c x Hc Sc. destruct (kids_each _ _ _ _ _ W c Hc) as (a & b & Wc & _). by eapply IH. }
    apply kids_length in W. by destruct cs.
Qed.
Lemma gleaves_ents : forall h H t nxt, stored H h t nxt -> concat (gleaves t) = gents t.
Proof.
  induction h as [|h IH]; intros H [l es|l ks cs] nxt St; try done; cbn [stored gleaves gents] in *; [apply app_nil_r|].
  destruct St as [_ C]. clear ks. revert nxt C. induction cs as [|c cs IHc]; intros nxt C; [done|]. cbn in *.
  destruct C as [Sc C]. rewrite concat_app. f_equal; [by eapply IH|by eapply IHc].
Qed.
