(* ===== verification/MemScanSpec.v ===== *)
(** * Range scans of the in-memory B+Tree

    The descent reaches the leaf where the range starts; from there the scan
    follows the chain of leaves. *)

From S2P Require Import Prelude KvList Errors Trace Slices Structures MemTree MemTreeSpec.

(** ** How much fuel is enough *)

Lemma length_locs_ge h : forall H t nxt mk lo hi, stored H h t nxt -> wf mk h lo hi t -> (h < length (glocs t))%nat.
Proof.
  induction h as [|h IH]; intros H [l es|l ks cs] nxt mk lo hi St [_ W]; try done; cbn [stored wf glocs] in *; [cbn; lia|].
  destruct St as [_ C]. destruct cs as [|c cs]; [by destruct ks|]. apply kids_cons in W as (b & [Wc _] & _). destruct C as [Sc _].
  specialize (IH _ _ _ _ _ _ Sc Wc). cbn. rewrite length_app. lia.
Qed.
Lemma length_leaves_le h : forall H t nxt, stored H h t nxt -> (length (gleaves t) <= length (glocs t))%nat.
Proof.
  induction h as [|h IH]; intros H [l es|l ks cs] nxt St; try done; cbn [stored gleaves glocs length] in *.
  destruct St as [_ C]. clear ks. revert nxt C. induction cs as [|c cs IHc]; intros nxt C; cbn in *; [lia|].
  destruct C as [Sc C]. rewrite !length_app. specialize (IH _ _ _ Sc). specialize (IHc _ C). lia.
Qed.
Lemma nodup_bound (L : list nat) n : NoDup L -> Forall (fun l => (l < n)%nat) L -> (length L <= n)%nat.
Proof.
  intros Hd Hf. rewrite <- (length_seq n 0). apply submseteq_length, NoDup_submseteq; [done|].
  intros x Hx. rewrite Forall_forall in Hf. apply elem_of_seq. specialize (Hf x Hx). lia.
Qed.
Lemma forest_one T h t nxt : forest T h [t] nxt <->
  stored (t_heap T) h t nxt /\ NoDup (glocs t) /\ Forall (fun l => (l < t_fresh T)%nat) (glocs t).
Proof.
  assert (E : locs [t] = glocs t) by (unfold locs; cbn; apply app_nil_r). split.
  - intros [[C _] N F]. by rewrite E in *.
  - intros (C & N & F). split; cbn; rewrite ?E; done.
Qed.
Lemma forest_fuel T h t nxt mk lo hi : forest T h [t] nxt -> wf mk h lo hi t ->
  (h < t_fresh T)%nat /\ (length (gleaves t) <= t_fresh T)%nat.
Proof.
  intros (St & N & F)%forest_one W. pose proof (nodup_bound _ _ N F). pose proof (length_locs_ge _ _ _ _ _ _ _ St W).
  pose proof (length_leaves_le _ _ _ _ St). lia.
Qed.

(** ** The descent *)

Lemma chain_ents H h cs nxt : chain (stored H h) cs nxt -> concat (concat (map gleaves cs)) = ents cs.
Proof.
  revert nxt. induction cs as [|c cs IH]; intros nxt; [done|]. cbn. intros [Sc C].
  rewrite concat_app, ents_cons. f_equal; [by eapply gleaves_ents|by eapply IH].
Qed.
(** The leaf that covers [key]: what comes before it is below [key], what comes
    after it above. *)
Lemma descend_ok mk key : forall h fuel T t nxt lo hi,
  stored (t_heap T) h t nxt -> wf mk h lo hi t -> ble lo key -> hlt key hi -> (h < fuel)%nat ->
  exists p pre es post nx, quiet (descend fuel (gloc t) key) T p /\ t_heap T !! p = Some (leaf_of es nx) /\
    gleaves t = pre ++ es :: post /\ lseg (t_heap T) nx post nxt /\ below key (concat pre) /\ above key (concat post).
Proof.
  induction h as [|h IH]; intros fuel T [l es|l ks cs] nxt lo hi St [_ W] Hlo Hhi Hf; try done; cbn [stored wf gloc gleaves] in *.
  - exists l, [], es, [], nxt. split_and!; try done; [|constructor|constructor].
    destruct fuel; [lia|]. cbn [descend]. eapply quiet_bind; [by apply quiet_deref|]. apply quiet_ret.
  - destruct fuel as [|fuel]; [lia|]. destruct St as [Hl C].
    destruct (kids_find _ (wfk_ok mk h) key ks lo hi cs W Hlo Hhi)
      as (ks1 & ks2 & cs1 & c & cs2 & a & b & -> & -> & Hlen & F1 & F2 & KL & [Wc _] & KR & Ha & Hb).
    destruct (kids_around _ _ _ _ _ _ _ _ _ _ _ KL KR Ha Hb) as [B1 B2].
    apply chain_mid in C as (C1 & Sc & C2).
    destruct (IH fuel T c (first_of cs2 nxt) a b Sc Wc Ha Hb ltac:(lia)) as (p & pre & es & post & nx & Hd & Hp & Hg & Hs & Hpre & Hpost).
    exists p, (concat (map gleaves cs1) ++ pre), es, (post ++ concat (map gleaves cs2)), nx. split_and!.
    + cbn [descend]. eapply quiet_bind; [by apply quiet_deref|]. cbn [n_leaf inner_of].
      eapply quiet_lift; [|exact Hd]. unfold node_child. rewrite (node_childIndex_ok _ key ks1 ks2) by done. by apply gloc_at.
    + done.
    + rewrite map_app, concat_app. cbn. rewrite Hg, <- !app_assoc. done.
    + apply lseg_app. exists (first_of cs2 nxt). split; [done|]. eapply chain_lseg; [|exact C2].
      intros x y Hx Sx. destruct (kids_each _ _ _ _ _ W x) as (a' & b' & Wx & _); [|by eapply stored_lseg].
      apply elem_of_app. right. by right.
    + rewrite concat_app. apply Forall_app. split; [|done]. by rewrite (chain_ents _ _ _ _ C1).
    + rewrite concat_app. apply Forall_app. split; [done|]. by rewrite (chain_ents _ _ _ _ C2).
Qed.

(** ** The scan *)

Lemma scanLeaf_ok lo hi nx : forall fuel a c acc,
  kv_sorted c -> Forall (fun p => ble lo p.1) c -> (length c <= fuel)%nat ->
  exists stop, scanLeaf fuel (leaf_of (a ++ c) nx) (len a) hi acc = Ok (acc ++ kv_range lo hi c, stop) /\
    (stop = true -> exists p, p ∈ c /\ blt hi p.1).
Proof.
  induction fuel as [|fuel IH]; intros a c acc Hs Hlo Hf; cbn [scanLeaf leaf_of n_keys n_values]; rewrite len_fst.
  - destruct c; cbn in Hf; [|lia]. rewrite app_nil_r. exists false. by rewrite Z.ltb_irrefl, app_nil_r.
  - destruct c as [|p c]; [exists false; by rewrite app_nil_r, Z.ltb_irrefl, app_nil_r|].
    rewrite len_app, len_cons. pose proof (len_nonneg c). zdecide.
    rewrite index_map.
    apply kv_sorted_cons in Hs as [Hs Ha]. apply Forall_cons in Hlo as [Hp Hlo].
    destruct (bltb hi p.1) eqn:E; bool_order.
    + exists true. rewrite (kv_range_above lo hi (p :: c)), app_nil_r.
      * split; [done|]. intros _. exists p. split; [by left|done].
      * constructor; [done|]. eapply above_le; [done|border].
    + rewrite index_map.
      replace (len a + 1) with (len (a ++ [p])) by (rewrite len_app; done).
      destruct (IH (a ++ [p]) c (acc ++ [(p.1, p.2)]) Hs Hlo ltac:(cbn in Hf; lia)) as (stop & He & Hst).
      exists stop. rewrite <- app_assoc in He. cbn [app] in He.
      fold (leaf_of (a ++ p :: c) nx). rewrite He, kv_range_cons, <- app_assoc by done. destruct p. split; [done|].
      intros Hst'. destruct (Hst Hst') as (q & ? & ?). exists q. split; [by right|done].
Qed.

Lemma scanLeaves_ok T lo hi : forall ess fuel p a c nx acc,
  t_heap T !! p = Some (leaf_of (a ++ c) nx) -> lseg (t_heap T) nx ess None ->
  kv_sorted (c ++ concat ess) -> Forall (fun p => ble lo p.1) (c ++ concat ess) -> (length ess < fuel)%nat ->
  quiet (scanLeaves fuel (Some p) (len a) hi acc) T (acc ++ kv_range lo hi (c ++ concat ess)).
Proof.
  induction ess as [|es ess IH]; intros fuel p a c nx acc Hp Hseg Hs Hlo Hf; (destruct fuel as [|fuel]; [lia|]);
    cbn [scanLeaves]; (eapply quiet_bind; [by apply quiet_deref|]);
    apply kv_sorted_app in Hs as Hs'; destruct Hs' as (Hc & He & Hce); apply Forall_app in Hlo as Hlo'; destruct Hlo' as [Lc Le];
    (edestruct (scanLeaf_ok lo hi nx (length (n_keys (leaf_of (a ++ c) nx))) a c acc) as (stop & Hl & Hstop);
      [done|done|cbn; rewrite length_map, length_app; lia|]);
    (eapply quiet_lift; [exact Hl|]); cbn beta iota; rewrite kv_range_app;
    (destruct stop; [destruct (Hstop eq_refl) as (q & Hq & Hlt);
      rewrite (kv_range_above lo hi (concat _)), app_nil_r;
        [apply quiet_ret|rewrite Forall_forall in *; unfold above; rewrite Forall_forall; intros r Hr; specialize (Hce q r Hq Hr); border]|]).
  - cbn in Hseg. subst nx. cbn. rewrite app_nil_r. destruct fuel; apply quiet_ret.
  - destruct Hseg as (l & nx' & -> & Hl' & Hseg). cbn [n_next leaf_of]. cbn [concat] in *. rewrite app_assoc.
    change 0 with (len (@nil kv)). apply (IH fuel l [] es nx' (acc ++ kv_range lo hi c)); try done. cbn in Hf. lia.
Qed.

Lemma range_ok mk T t h key hi : forest T h [t] None -> wf mk h [] None t -> t_root T = Some (gloc t) ->
  quiet (Memory_Range key hi) T (kv_range key hi (gents t)).
Proof.
  intros F W Hr. pose proof F as (St & N & Fr)%forest_one. destruct (forest_fuel _ _ _ _ _ _ _ F W) as [Hh Hlv].
  unfold Memory_Range. eapply quiet_bind; [by apply (quiet_look _ T (t_root T))|]. rewrite Hr.
  pose proof (wf_ranged _ _ _ _ _ W) as [Hs _]. destruct (bltb hi key) eqn:E.
  { bool_order. rewrite (kv_range_none key hi (gents t)) by done. apply quiet_ret. }
  destruct (descend_ok mk key h (S (t_fresh T)) T t None [] None St W ltac:(apply ble_nil) I ltac:(lia))
    as (p & pre & es & post & nx & Hd & Hp & Hg & Hseg & Hpre & Hpost).
  eapply quiet_bind; [by apply (quiet_look _ T (S (t_fresh T)))|]. eapply quiet_bind; [exact Hd|]. eapply quiet_bind; [by apply quiet_deref|].
  rewrite <- (gleaves_ents _ _ _ _ St), Hg in *. rewrite concat_app in *. cbn [concat] in *.
  apply kv_sorted_app in Hs as (_ & Hs & _). rewrite kv_range_app, (kv_range_below key hi (concat pre)) by done. cbn [app].
  apply kv_sorted_app in Hs as Hs'. destruct Hs' as (He & _ & Hep).
  assert (exists x y, es = x ++ y /\ below key x /\ Forall (fun q => ble key q.1) y) as (x & y & -> & Hx & Hy).
  { destruct (kv_cutP key es He) as [x v y Hx Hy|x y Hx Hy].
    - exists x, ((key, v) :: y). split_and!; [done..|]. constructor; [cbn; border|].
      eapply Forall_impl; [exact Hy|]. cbn. intros. border.
    - exists x, y. split_and!; [done..|]. eapply Forall_impl; [exact Hy|]. cbn. intros. border. }
  eapply quiet_lift; [apply (node_search_ok _ key (map fst x) (map fst y)); [cbn; by rewrite map_app|by apply split_keys]|].
  cbn beta iota. rewrite len_fst, <- app_assoc, kv_range_app, (kv_range_below key hi x) by done.
  apply (scanLeaves_ok T key hi post _ p x y nx []); try done.
  - rewrite <- app_assoc in Hs. by apply kv_sorted_app in Hs as (_ & ? & _).
  - apply Forall_app. split; [done|]. eapply Forall_impl; [exact Hpost|]. cbn. intros. border.
  - rewrite length_app in Hlv. cbn in Hlv. lia.
Qed.
