(* ===== verification/MemInsertSpec.v ===== *)
(** * Insertion into the in-memory B+Tree

    Every step of [tree.insert] as an equation on the heap, and the preservation
    of the ghost tree: the entries of the subtree become those with the key set,
    in one tree or in two with a separator between them. *)

From Stdlib Require Import Strings.String.
From S2P Require Import Prelude KvList Errors Engine Trace Slices Structures MemTree MemTreeSpec MemScanSpec.

(** ** Changes of the heap *)

Definition setn (p : nat) (n : node) (T : tree) : tree :=
  mkTree (<[p := n]> (t_heap T)) (t_fresh T) (t_root T) (t_maxKeys T).
Definition newn (n : node) (T : tree) : tree :=
  mkTree (<[t_fresh T := n]> (t_heap T)) (S (t_fresh T)) (t_root T) (t_maxKeys T).

Lemma ends_run {S E A B} (m : stM S E A) (k : A -> stM S E B) s a s' Q R :
  m s = (Ok a, s') -> ends (k a) s' Q R -> ends (bind m k) s Q R.
Proof. intros Hm H. unfold ends. by rewrite (bind_ok _ _ _ _ _ Hm). Qed.
Lemma run_deref {B} p n (k : node -> TM B) T o b :
  t_heap T !! p = Some n -> (x <~ deref p ;; k x) ((T, o), b) = k n ((T, o), b).
Proof. intros H. unfold bind, deref. cbn. by rewrite H. Qed.
Lemma run_lift {S E A B} (m : outcome E A) (k : A -> stM S E B) s a : m = Ok a -> (x <! m ;; k x) s = k a s.
Proof. by intros ->. Qed.
Lemma run_write p n T o b : write p n ((T, o), b) = (Ok tt, ((setn p n T, o), b)).
Proof. done. Qed.
Lemma run_alloc n T o b : alloc n ((T, o), b) = (Ok (t_fresh T), ((newn n T, o), b)).
Proof. done. Qed.

Lemma step_set T p n L : p ∈ L -> step T (setn p n T) L.
Proof. intros Hp. split; cbn; [|lia|done|done]. intros l Hl Hn. rewrite lookup_insert_ne; [done|]. by intros ->. Qed.
Lemma step_new T n L : step T (newn n T) L.
Proof. split; cbn; [|lia|done|done]. intros l Hl Hn. rewrite lookup_insert_ne; [done|lia]. Qed.
Lemma step_mono T T' L L' : step T T' L -> (forall l, l ∈ L -> l ∈ L') -> step T T' L'.
Proof. intros [F N R M] H. split; try done. intros l Hl Hn. apply F; [done|]. intros ?. by apply Hn, H. Qed.
Lemma from_refl T L : from T L L.
Proof. intros l H. by left. Qed.
Lemma from_mono T L L1 L' : from T L L' -> (forall l, l ∈ L -> l ∈ L1) -> from T L1 L'.
Proof. intros H HL l Hl. destruct (H l Hl); [left; by apply HL|by right]. Qed.

(** An inner node and its children. *)
Lemma node_forest T h l ks cs nxt : forest T (S h) [GNode l ks cs] nxt <->
  t_heap T !! l = Some (inner_of ks cs) /\ forest T h cs nxt /\ l ∉ locs cs /\ (l < t_fresh T)%nat.
Proof.
  rewrite forest_one. cbn [stored glocs]. rewrite NoDup_cons, Forall_cons. fold (locs cs). split.
  - intros ([H C] & [N1 N2] & F1 & F2). done.
  - intros (H & [C N F] & N1 & F1). done.
Qed.
(** Rewriting the cell of the parent leaves the children alone. *)
Lemma forest_set T h cs nxt l n : forest T h cs nxt -> l ∉ locs cs -> forest (setn l n T) h cs nxt.
Proof.
  intros [C N F] Hl. split; [|done|done]. eapply chain_frame; [|exact C]. intros l' Hl'. cbn.
  rewrite lookup_insert_ne; [done|]. by intros ->.
Qed.
Lemma forest_new T h cs nxt n : forest T h cs nxt -> forest (newn n T) h cs nxt.
Proof.
  intros [C N F]. split; [|done|]; cbn.
  - eapply chain_frame; [|exact C]. intros l Hl. cbn. rewrite Forall_forall in F. specialize (F l Hl).
    rewrite lookup_insert_ne; [done|lia].
  - eapply Forall_impl; [exact F|]. cbn. lia.
Qed.
Lemma forest_app T h a b nxt : forest T h (a ++ b) nxt -> forest T h a (first_of b nxt) /\ forest T h b nxt.
Proof.
  intros [C N F]. apply chain_app in C as [C1 C2]. rewrite locs_app in N, F.
  apply NoDup_app in N as (N1 & _ & N2). apply Forall_app in F as [F1 F2]. done.
Qed.
Lemma gfirst_mid l l' ks ks' cs1 c c' cs2 cs2' : gfirst c' = gfirst c ->
  gfirst (GNode l ks (cs1 ++ c' :: cs2)) = gfirst (GNode l' ks' (cs1 ++ c :: cs2')).
Proof. by destruct cs1. Qed.

(** ** The steps *)

Lemma leaf_gkeys l es : len (gkeys (GLeaf l es)) = len es.
Proof. apply len_fst. Qed.

Lemma map_at {A B} (f : A -> B) a x b : map f (a ++ x :: b) = map f a ++ f x :: map f b.
Proof. by rewrite map_app. Qed.
Lemma insertIntoLeaf_run l es nxt key value T o b : t_heap T !! l = Some (leaf_of es nxt) -> kv_sorted es ->
  insertIntoLeaf l key value ((T, o), b) = (Ok tt, ((setn l (leaf_of (kv_set key value es) nxt) T, o), b)).
Proof.
  intros Hl Hs. unfold insertIntoLeaf. rewrite (run_deref _ _ _ _ _ _ Hl).
  destruct (kv_cutP key es Hs) as [x v y Hx Hy|x y Hx Hy].
  - erewrite run_lift; [|apply (node_search_ok _ key (map fst x) (map fst ((key, v) :: y))); [cbn; by rewrite map_app|]].
    2:{ apply split_keys; [done|]. constructor; [cbn; border|]. eapply Forall_impl; [exact Hy|]. cbn. intros. border. }
    cbn [found_at map fst]. rewrite beqb_refl. cbn [n_values leaf_of].
    erewrite run_lift; [|apply (put_at _ (map snd x) v (map snd y)); [by rewrite map_app|by rewrite !len_map]].
    rewrite run_write, kv_set_at by done. unfold with_entries, leaf_of. cbn. by rewrite !map_at.
  - erewrite run_lift; [|apply (node_search_ok _ key (map fst x) (map fst y)); [cbn; by rewrite map_app|]].
    2:{ apply split_keys; [done|]. eapply Forall_impl; [exact Hy|]. cbn. intros. border. }
    cbn beta iota. rewrite found_above by done. cbn [n_values n_keys leaf_of].
    erewrite run_lift; [|apply (insert_at_at _ _ (map fst x) (map fst y)); [by rewrite map_app|done]].
    erewrite run_lift; [|apply (insert_at_at _ _ (map snd x) (map snd y)); [by rewrite map_app|by rewrite !len_map]].
    rewrite run_write, kv_set_gap by done. unfold with_entries, leaf_of. cbn. by rewrite !map_at.
Qed.

Lemma splitLeaf_run l ea k v eb nxt T o b :
  t_heap T !! l = Some (leaf_of (ea ++ (k, v) :: eb) nxt) -> len (ea ++ (k, v) :: eb) / 2 = len ea ->
  splitLeaf l ((T, o), b) = (Ok (mkSplit k l (t_fresh T)),
    ((setn l (leaf_of ea (Some (t_fresh T))) (newn (leaf_of ((k, v) :: eb) nxt) T), o), b)).
Proof.
  intros Hl Hm. unfold splitLeaf. rewrite (run_deref _ _ _ _ _ _ Hl). cbn [n_keys n_values n_next leaf_of].
  erewrite run_lift; [|apply (slice_from_at _ (map fst ea) (map fst ((k, v) :: eb))); [by rewrite map_app|by rewrite !len_map|done]].
  erewrite run_lift; [|apply (slice_from_at _ (map snd ea) (map snd ((k, v) :: eb))); [by rewrite map_app|by rewrite !len_map|done]].
  erewrite bind_ok; [|apply run_alloc].
  erewrite run_lift; [|apply (slice_to_at _ (map fst ea) (map fst ((k, v) :: eb))); [by rewrite map_app|by rewrite !len_map]].
  erewrite run_lift; [|apply (slice_to_at _ (map snd ea) (map snd ((k, v) :: eb))); [by rewrite map_app|by rewrite !len_map]].
  erewrite bind_ok; [|apply run_write]. done.
Qed.

Lemma insertIntoInternal_run l ks1 ks2 cs1 c tl tr cs2 k T o b :
  t_heap T !! l = Some (inner_of (ks1 ++ ks2) (cs1 ++ c :: cs2)) -> length ks1 = length cs1 ->
  insertIntoInternal l (len ks1) (mkSplit k (gloc tl) (gloc tr)) ((T, o), b) =
  (Ok tt, ((setn l (inner_of (ks1 ++ k :: ks2) (cs1 ++ tl :: tr :: cs2)) T, o), b)).
Proof.
  intros Hl Hlen. unfold insertIntoInternal. rewrite (run_deref _ _ _ _ _ _ Hl). cbn [n_keys n_children inner_of sp_key sp_left sp_right].
  assert (Hc : len ks1 = len (map gloc cs1)) by (rewrite len_map; unfold len; lia).
  erewrite run_lift; [|apply (insert_at_at _ _ ks1 ks2); done].
  erewrite run_lift; [|apply (put_at _ (map gloc cs1) (gloc c) (map gloc cs2)); [by rewrite map_app|done]].
  erewrite run_lift; [|apply (insert_at_at _ _ (map gloc cs1 ++ [gloc tl]) (map gloc cs2)); [by rewrite <- app_assoc|]].
  2:{ rewrite len_app, len_cons, len_nil. lia. }
  rewrite run_write. unfold with_children, inner_of. cbn. rewrite <- app_assoc, !map_app. done.
Qed.

Lemma splitInternal_run l ka m kb ca cb T o b :
  t_heap T !! l = Some (inner_of (ka ++ m :: kb) (ca ++ cb)) -> len (ka ++ m :: kb) / 2 = len ka -> length ca = S (length ka) ->
  splitInternal l ((T, o), b) = (Ok (mkSplit m l (t_fresh T)),
    ((setn l (inner_of ka ca) (newn (inner_of kb cb) T), o), b)).
Proof.
  intros Hl Hm Hlen. unfold splitInternal. rewrite (run_deref _ _ _ _ _ _ Hl). cbn [n_keys n_children inner_of]. rewrite Hm.
  assert (Hc : len ka + 1 = len (map gloc ca)) by (rewrite len_map; unfold len; lia).
  erewrite run_lift; [|apply index_mid].
  erewrite run_lift; [|apply (slice_from_at _ (ka ++ [m]) kb); [by rewrite <- app_assoc|rewrite len_app, len_cons, len_nil; lia|done]].
  erewrite run_lift; [|apply (slice_from_at _ (map gloc ca) (map gloc cb)); [by rewrite map_app|done|done]].
  erewrite bind_ok; [|apply run_alloc].
  erewrite run_lift; [|apply (slice_to_at _ ka (m :: kb)); done].
  erewrite run_lift; [|apply (slice_to_at _ (map gloc ca) (map gloc cb)); [by rewrite map_app|done]].
  erewrite bind_ok; [|apply run_write]. done.
Qed.

(** ** Order and occupancy across a split *)

Lemma ranged_cut lo hi ea k v eb : ranged lo hi (ea ++ (k, v) :: eb) ->
  ranged lo (Some k) ea /\ ranged k hi ((k, v) :: eb) /\ ble lo k /\ hlt k hi.
Proof.
  intros [Hs Hf]. apply kv_sorted_app in Hs as (S1 & S2 & S3). apply Forall_app in Hf as [F1 F2].
  pose proof S2 as S2'. apply kv_sorted_cons in S2' as [_ Ha]. cbn in Ha.
  apply Forall_cons in F2 as [[Hlo Hhi] F2]. cbn in Hlo, Hhi. split_and!; try done.
  - split; [done|]. rewrite Forall_forall in *. intros p Hp. split; [by apply F1|]. cbn. apply (S3 p (k, v) Hp). by left.
  - split; [done|]. constructor; [split; [cbn; border|done]|]. unfold above in Ha. rewrite Forall_forall in *.
    intros p Hp. split; [specialize (Ha p Hp); border|by apply F2].
Qed.
Lemma ranged_set lo hi es key value : ranged lo hi es -> ble lo key -> hlt key hi -> ranged lo hi (kv_set key value es).
Proof.
  intros [Hs Hf] H1 H2. split; [by apply kv_sorted_set|].
  destruct (kv_cutP key es Hs) as [x v y Hx Hy|x y Hx Hy]; [rewrite kv_set_at by done|rewrite kv_set_gap by done];
    apply Forall_app in Hf as [F1 F2]; apply Forall_app; (split; [done|]).
  - apply Forall_cons in F2 as [_ F2]. by constructor.
  - by constructor.
Qed.
Lemma kids_cut P lo hi ka m kb ca cb : length ca = S (length ka) ->
  kids P lo hi (ka ++ m :: kb) (ca ++ cb) <-> kids P lo (Some m) ka ca /\ kids P m hi kb cb.
Proof.
  revert lo ca. induction ka as [|k ka IH]; intros lo [|c ca] Hl; try done; cbn in Hl.
  - destruct ca; [|done]. cbn. done.
  - cbn. rewrite IH by lia. tauto.
Qed.

Lemma len_kv_set key value es : len es <= len (kv_set key value es) <= len es + 1.
Proof.
  assert (length es <= length (kv_set key value es))%nat.
  { induction es as [|[x v] es IH]; cbn; [lia|]. destruct (bcmp key x); cbn; lia. }
  pose proof (kv_set_length key value es). unfold len. lia.
Qed.
(** A list of [mk + 1] elements cut in half. *)
Lemma halves {A} (l : list A) mk : len l = mk + 1 -> 2 <= mk ->
  exists a x b, l = a ++ x :: b /\ len l / 2 = len a /\ mk / 2 <= len a <= mk /\ mk / 2 <= 1 + len b <= mk /\ mk / 2 <= len b.
Proof.
  intros Hl Hm. exists (take (Z.to_nat (len l / 2)) l).
  assert (H : 0 <= len l / 2 < len l) by (split; [apply Z.div_pos; lia|apply Z.div_lt; lia]).
  destruct (lookup_lt_is_Some_2 l (Z.to_nat (len l / 2))) as [x Hx]; [unfold len in *; lia|].
  exists x, (drop (S (Z.to_nat (len l / 2))) l). split; [by rewrite take_drop_middle|].
  assert (E1 : len (take (Z.to_nat (len l / 2)) l) = len l / 2) by (unfold len in *; rewrite length_take; lia).
  assert (E2 : len (drop (S (Z.to_nat (len l / 2))) l) = len l - len l / 2 - 1) by (unfold len in *; rewrite length_drop; lia).
  rewrite E1, E2, Hl. clear -Hm. Z.to_euclidean_division_equations. lia.
Qed.

(** ** The recursion *)

(** What an insertion into the subtree [t] leaves: one tree, or two and their
    separator. *)
Definition grown (mk : Z) (T : tree) (h : nat) (t : gtree) (nxt : option nat) (lo : bytes) (hi : option bytes)
    (es : list kv) (r : option nodeSplit) (T' : tree) : Prop :=
  step T T' (glocs t) /\
  match r with
  | None => exists t', forest T' h [t'] nxt /\ from T (glocs t) (locs [t']) /\ gloc t' = gloc t /\ gfirst t' = gfirst t /\
      wf mk h lo hi t' /\ len (gkeys t) <= len (gkeys t') <= mk /\ gents t' = es
  | Some s => exists tl tr k, forest T' h [tl; tr] nxt /\ from T (glocs t) (locs [tl; tr]) /\ gloc tl = gloc t /\
      gfirst tl = gfirst t /\ s = mkSplit k (gloc tl) (gloc tr) /\
      wf mk h lo (Some k) tl /\ filled mk tl /\ wf mk h k hi tr /\ filled mk tr /\ gents tl ++ gents tr = es
  end.

Lemma locs_two a b : locs [a; b] = glocs a ++ glocs b.
Proof. unfold locs. cbn. by rewrite app_nil_r. Qed.
Lemma locs_one a : locs [a] = glocs a.
Proof. unfold locs. cbn. by rewrite app_nil_r. Qed.

Lemma leaf_grown mk l es nxt lo hi key value T : 2 <= mk -> len es <= mk -> (l < t_fresh T)%nat ->
  ranged lo hi es -> ble lo key -> hlt key hi ->
  let es' := kv_set key value es in
  (len es' <= mk /\ grown mk T 0 (GLeaf l es) nxt lo hi es' None (setn l (leaf_of es' nxt) T)) \/
  (mk < len es' /\ exists ea k v eb, es' = ea ++ (k, v) :: eb /\ len es' / 2 = len ea /\
     grown mk T 0 (GLeaf l es) nxt lo hi es' (Some (mkSplit k l (t_fresh T)))
       (setn l (leaf_of ea (Some (t_fresh T))) (newn (leaf_of ((k, v) :: eb) nxt) (setn l (leaf_of es' nxt) T)))).
Proof.
  intros Hmk Hes Hl Hr Hlo Hhi es'. pose proof (len_kv_set key value es) as Hlen. fold es' in Hlen.
  pose proof (ranged_set lo hi es key value Hr Hlo Hhi) as Hr'. fold es' in Hr'.
  assert (Hle : hle lo hi) by (eapply hle_trans; [done|by apply hlt_hle]).
  destruct (decide (len es' <= mk)) as [Hfit|Hfit]; [left|right]; (split; [lia|]).
  - split; [apply step_set; by left|]. exists (GLeaf l es'). rewrite !leaf_gkeys, locs_one. split_and!; try done; try lia.
    + apply forest_one. cbn. rewrite lookup_insert_eq. split_and!; [done|apply NoDup_singleton|by constructor].
    + apply from_refl.
  - destruct (halves es' mk ltac:(lia) Hmk) as (ea & [k v] & eb & E & Hmid & H1 & H2 & _).
    exists ea, k, v, eb. split_and!; try done. pose proof Hr' as Hr2. rewrite E in Hr2. apply ranged_cut in Hr2 as (R1 & R2 & R3 & R4).
    set (f := t_fresh T). split.
    { eapply step_trans; [apply step_set; by left| |apply from_refl].
      eapply step_trans; [apply step_new|apply step_set; by left|apply from_refl]. }
    exists (GLeaf l ea), (GLeaf f ((k, v) :: eb)), k. unfold filled. rewrite !leaf_gkeys, len_cons, locs_two. cbn.
    split_and!; try done; try lia.
    + assert (l <> f) by (unfold f; lia). split; cbn.
      * rewrite lookup_insert_eq, lookup_insert_ne, lookup_insert_eq by done. done.
      * unfold locs. cbn. repeat constructor; set_solver.
      * unfold locs, f. cbn. repeat constructor; lia.
    + intros x [->|[->|[]%not_elem_of_nil]%elem_of_cons]%elem_of_cons; [left; by left|right; unfold f; lia].
    + by apply hlt_hle.
Qed.

Lemma tree_insert_leaf mk fuel l es nxt lo hi key value T o b : 2 <= mk -> t_maxKeys T = mk -> len es <= mk -> (0 < fuel)%nat ->
  forest T 0 [GLeaf l es] nxt -> ranged lo hi es -> ble lo key -> hlt key hi ->
  ends (tree_insert fuel l key value) ((T, o), b)
    (fun r st => grown mk T 0 (GLeaf l es) nxt lo hi (kv_set key value es) r st.1.1 /\ traced b st.2) no_err.
Proof.
  intros Hmk HT Hes Hfuel (St & _ & Fr)%forest_one Hr Hlo Hhi. cbn in St. apply Forall_cons in Fr as [Fr _].
  pose proof (leaf_grown mk l es nxt lo hi key value T Hmk Hes Fr Hr Hlo Hhi) as G. cbn zeta in G.
  destruct fuel as [|fuel]; [lia|]. cbn [tree_insert].
  eapply ends_quiet; [by eapply quiet_emit|]. intros o1 b1 Hb1.
  eapply ends_quiet; [by apply quiet_deref|]. intros o2 b2 Hb2. cbn [n_leaf leaf_of].
  eapply ends_run; [apply insertIntoLeaf_run; [done|apply Hr]|].
  set (es' := kv_set key value es) in *. set (T1 := setn l (leaf_of es' nxt) T) in *.
  assert (H1 : t_heap T1 !! l = Some (leaf_of es' nxt)) by (cbn; apply lookup_insert_eq).
  eapply ends_quiet; [by eapply quiet_emit|]. intros o3 b3 Hb3.
  eapply ends_quiet; [by apply quiet_deref|]. intros o4 b4 Hb4.
  eapply ends_quiet; [by apply (quiet_look _ T1 mk)|]. intros o5 b5 Hb5. cbn [n_keys leaf_of]. rewrite len_map.
  assert (traced b b5) by (do 4 (etrans; [eassumption|]); done).
  destruct G as [[Hf G]|(Hf & ea & k & v & eb & E & Hm & G)]; zdecide.
  - done.
  - eapply ends_run; [apply splitLeaf_run; [by rewrite <- E|by rewrite <- E]|]. cbn [sp_left sp_right].
    set (T2 := setn l _ _) in *.
    eapply ends_quiet; [eapply quiet_emit; cbn; apply lookup_insert_eq|]. intros o6 b6 Hb6.
    eapply ends_quiet; [eapply quiet_emit; cbn; rewrite lookup_insert_ne by lia; apply lookup_insert_eq|]. intros o7 b7 Hb7.
    cbn. split; [exact G|]. do 2 (etrans; [eassumption|]). done.
Qed.

(** The tree [t] became [t'] with the entries [es]. *)
Record became (mk : Z) (T : tree) (h : nat) (t : gtree) (nxt : option nat) (lo : bytes) (hi : option bytes)
    (es : list kv) (T' : tree) (t' : gtree) : Prop := {
  be_step : step T T' (glocs t);
  be_forest : forest T' h [t'] nxt;
  be_from : from T (glocs t) (locs [t']);
  be_loc : gloc t' = gloc t;
  be_first : gfirst t' = gfirst t;
  be_wf : wf mk h lo hi t';
  be_ents : gents t' = es;
}.
Lemma became_grown mk T h t nxt lo hi es T' t' :
  became mk T h t nxt lo hi es T' t' -> len (gkeys t) <= len (gkeys t') <= mk -> grown mk T h t nxt lo hi es None T'.
Proof. intros [????] H. split; [done|]. exists t'. done. Qed.

Section Inner.
Context (mk : Z) (T : tree) (h : nat) (l : nat) (ks1 ks2 : list bytes) (cs1 : list gtree) (c : gtree) (cs2 : list gtree).
Context (nxt : option nat) (lo : bytes) (hi : option bytes) (a : bytes) (b : option bytes).
Context (F : forest T (S h) [GNode l (ks1 ++ ks2) (cs1 ++ c :: cs2)] nxt).
Context (Hlen : length ks1 = length cs1).
Context (KL : kidsL (wfk mk h) lo a ks1 cs1) (KR : kidsR (wfk mk h) b hi ks2 cs2) (Hle : hle lo hi).
Abbreviation t := (GNode l (ks1 ++ ks2) (cs1 ++ c :: cs2)).

Lemma child_locs x : x ∈ glocs c -> x ∈ glocs t.
Proof.
  intros H. cbn [glocs]. fold (locs (cs1 ++ c :: cs2)). rewrite locs_app, locs_cons. right. apply elem_of_app. right.
  apply elem_of_app. by left.
Qed.

(** The parent's cell is untouched, the new children stand in place of [c]. *)
Lemma inner_graft T1 ts' : step T T1 (glocs c) -> forest T1 h ts' (first_of cs2 nxt) -> from T (glocs c) (locs ts') ->
  first_of ts' (first_of cs2 nxt) = Some (gfirst c) ->
  t_heap T1 !! l = Some (inner_of (ks1 ++ ks2) (cs1 ++ c :: cs2)) /\ forest T1 h (cs1 ++ ts' ++ cs2) nxt /\
  l ∉ locs (cs1 ++ ts' ++ cs2) /\ (l < t_fresh T1)%nat /\ from T (glocs t) (l :: locs (cs1 ++ ts' ++ cs2)).
Proof.
  intros St F1 Hfrom Hfirst. pose proof F as (Hl & Fc & Hnl & Hf)%node_forest. rewrite <- (locs_one c) in *.
  rewrite locs_app, locs_cons, <- locs_one in Hnl. pose proof (sp_fresh _ _ _ St).
  assert (Hnc : l ∉ locs [c]) by (intros ?; apply Hnl, elem_of_app; right; apply elem_of_app; by left).
  split_and!.
  - rewrite <- Hl. by apply St.
  - by apply (graft T T1 h cs1 [c] ts' cs2 nxt).
  - rewrite !locs_app. intros [H1|[H1|H1]%elem_of_app]%elem_of_app.
    + apply Hnl, elem_of_app. by left.
    + destruct (Hfrom l H1); [done|lia].
    + apply Hnl, elem_of_app. right. apply elem_of_app. by right.
  - lia.
  - rewrite !locs_app. intros x [->|[H1|[H1|H1]%elem_of_app]%elem_of_app]%elem_of_cons; cbn [glocs];
      fold (locs (cs1 ++ c :: cs2)); rewrite locs_app, locs_cons, <- locs_one.
    + left. by left.
    + left. right. apply elem_of_app. by left.
    + destruct (Hfrom x H1); [left; right|by right]. apply elem_of_app. right. apply elem_of_app. by left.
    + left. right. apply elem_of_app. right. apply elem_of_app. by right.
Qed.

(** The child became [c']; the parent keeps its cell. *)
Lemma inner_child T1 c' es : became mk T h c (first_of cs2 nxt) a b es T1 c' -> filled mk c' ->
  became mk T (S h) t nxt lo hi (ents cs1 ++ es ++ ents cs2) T1 (GNode l (ks1 ++ ks2) (cs1 ++ c' :: cs2)).
Proof.
  intros [St F1 Hfrom Hloc Hfirst W He] Hfill.
  destruct (inner_graft T1 [c'] St F1 Hfrom ltac:(cbn; by rewrite Hfirst)) as (Hl & F2 & Hnl & Hf & Hfr). cbn [app] in *. split.
  - eapply step_mono; [exact St|apply child_locs].
  - apply node_forest. split_and!; try done. rewrite Hl. unfold inner_of. rewrite !map_at. by rewrite Hloc.
  - by rewrite locs_one.
  - done.
  - by apply gfirst_mid.
  - split; [done|]. apply kids_split; [done|]. by exists a, b.
  - cbn [gents]. fold (ents (cs1 ++ c' :: cs2)). by rewrite ents_app, ents_cons, He.
Qed.

(** The child was split; the parent gets a separator and a child. *)
Lemma inner_split T1 s es : grown mk T h c (first_of cs2 nxt) a b es (Some s) T1 ->
  exists tl tr k, s = mkSplit k (gloc tl) (gloc tr) /\
    t_heap T1 !! l = Some (inner_of (ks1 ++ ks2) (cs1 ++ c :: cs2)) /\
    let t' := GNode l (ks1 ++ k :: ks2) (cs1 ++ tl :: tr :: cs2) in
    became mk T (S h) t nxt lo hi (ents cs1 ++ es ++ ents cs2)
      (setn l (inner_of (ks1 ++ k :: ks2) (cs1 ++ tl :: tr :: cs2)) T1) t'.
Proof.
  intros (St & tl & tr & k & F1 & Hfrom & Hloc & Hfirst & -> & Wl & Fl & Wr & Fr & He).
  exists tl, tr, k. split; [done|].
  destruct (inner_graft T1 [tl; tr] St F1 Hfrom ltac:(cbn; by rewrite Hfirst)) as (Hl & F2 & Hnl & Hf & Hfr). cbn [app] in *.
  split; [done|]. split.
  - eapply step_trans; [eapply step_mono; [exact St|apply child_locs]|apply step_set; by left|apply from_refl].
  - apply node_forest. split_and!; try done; [apply lookup_insert_eq|by apply forest_set].
  - by rewrite locs_one.
  - done.
  - by apply gfirst_mid.
  - split; [done|]. apply kids_split; [done|]. exists a, (Some k). split_and!; try done.
    apply kidsR_cons. split; [done|]. by exists b.
  - cbn [gents]. fold (ents (cs1 ++ tl :: tr :: cs2)). rewrite ents_app, !ents_cons, <- He. by rewrite <- !app_assoc.
Qed.
End Inner.

(** Two neighbouring inner nodes over the children of both. *)
Lemma two_nodes T h l ka ca f kb cb nxt : cb <> [] ->
  forest T (S h) [GNode l ka ca; GNode f kb cb] nxt <->
  t_heap T !! l = Some (inner_of ka ca) /\ t_heap T !! f = Some (inner_of kb cb) /\
  forest T h (ca ++ cb) nxt /\ (l < t_fresh T)%nat /\ (f < t_fresh T)%nat /\
  l ∉ f :: locs (ca ++ cb) /\ f ∉ locs (ca ++ cb).
Proof.
  intros Hcb. assert (L : locs [GNode l ka ca; GNode f kb cb] = l :: locs ca ++ f :: locs cb) by (by rewrite locs_two).
  assert (E : Some (gfirst (GNode f kb cb)) = first_of cb nxt) by (by destruct cb). split.
  - intros [C N Fr]. cbn [chain stored first_of] in C. destruct C as ((Hl & C1) & (Hf & C2) & _). rewrite E in C1.
    rewrite L in N, Fr. apply NoDup_cons in N as [N1 N2]. rewrite <- Permutation_middle in N1, N2.
    apply NoDup_cons in N2 as [N2 N3]. apply Forall_cons in Fr as [Fr1 Fr2]. apply Forall_app in Fr2 as [Fr2 Fr3].
    apply Forall_cons in Fr3 as [Fr3 Fr4]. rewrite locs_app. split_and!; try done.
    split; rewrite ?locs_app; [by apply chain_app|done|by apply Forall_app].
  - intros (Hl & Hf & [C N Fr] & Ll & Lf & Nl & Nf). apply chain_app in C as [C1 C2]. rewrite locs_app in *. split.
    + cbn [chain stored first_of]. by rewrite E.
    + rewrite L. apply NoDup_cons. rewrite <- Permutation_middle. split; [done|]. by apply NoDup_cons.
    + rewrite L. apply Forall_app in Fr as [Fr1 Fr2]. constructor; [done|]. apply Forall_app. split; [done|]. by constructor.
Qed.
Lemma app_split {A} (l : list A) n : (n <= length l)%nat -> exists a b, l = a ++ b /\ length a = n.
Proof. intros H. exists (take n l), (drop n l). rewrite take_drop, length_take. split; [done|lia]. Qed.

(** Splitting an inner node that became too large. *)
Lemma node_split mk T h t nxt lo hi es T2 l ks cs : 2 <= mk -> len ks = mk + 1 ->
  became mk T (S h) t nxt lo hi es T2 (GNode l ks cs) ->
  exists ka m kb ca cb, ks = ka ++ m :: kb /\ cs = ca ++ cb /\ len ks / 2 = len ka /\ length ca = S (length ka) /\
    grown mk T (S h) t nxt lo hi es (Some (mkSplit m l (t_fresh T2)))
      (setn l (inner_of ka ca) (newn (inner_of kb cb) T2)).
Proof.
  intros Hmk Hk [St F1 Hfrom Hloc Hfirst [Hle W] He]. destruct (halves ks mk Hk Hmk) as (ka & m & kb & -> & Hmid & H1 & H2 & H3).
  pose proof (kids_length _ _ _ _ _ W) as Hcs. rewrite length_app in Hcs. cbn in Hcs.
  destruct (app_split cs (S (length ka))) as (ca & cb & -> & Hca); [lia|].
  exists ka, m, kb, ca, cb. split_and!; try done. apply kids_cut in W as [Wa Wb]; [|done].
  pose proof F1 as (Hl & Fc & Hnl & Hf)%node_forest. apply forest_app in Fc as Fc'. destruct Fc' as [Fa Fb].
  destruct (kids_ranged _ (wfk_ok mk h) _ _ _ _ Wa) as [_ Hle1]. destruct (kids_ranged _ (wfk_ok mk h) _ _ _ _ Wb) as [_ Hle2].
  rewrite locs_app in Hnl. set (f := t_fresh T2). assert (l <> f) by (unfold f; lia).
  assert (Hca0 : ca <> []) by (by destruct ca). assert (Hcb0 : cb <> []) by (apply kids_length in Wb; by destruct cb).
  split.
  { eapply step_trans; [exact St| |rewrite locs_one in Hfrom; exact Hfrom].
    eapply step_trans; [apply step_new|apply step_set; by left|apply from_refl]. }
  exists (GNode l ka ca), (GNode f kb cb), m.
  assert (L : locs [GNode l ka ca; GNode f kb cb] = l :: locs ca ++ f :: locs cb) by (by rewrite locs_two).
  unfold filled. cbn [gkeys]. split_and!; try done; try lia.
  - apply two_nodes; [done|]. split_and!.
    + cbn. apply lookup_insert_eq.
    + cbn. rewrite lookup_insert_ne by done. apply lookup_insert_eq.
    + apply forest_set; [by apply forest_new|by rewrite locs_app].
    + cbn. lia.
    + cbn. lia.
    + by rewrite not_elem_of_cons, locs_app.
    + rewrite locs_app. intros Hin. pose proof (proj1 (Forall_forall _ _) (fo_fresh _ _ _ _ Fc) f) as Hb.
      rewrite locs_app in Hb. specialize (Hb Hin). cbn in Hb. lia.
  - rewrite L. intros x Hx. rewrite locs_one in Hfrom. pose proof (sp_fresh _ _ _ St).
    assert (x = f \/ x ∈ glocs (GNode l (ka ++ m :: kb) (ca ++ cb))) as [->|Hx'].
    { cbn [glocs]. fold (locs (ca ++ cb)). rewrite locs_app. set_solver. }
    + right. unfold f. lia.
    + by apply Hfrom.
  - rewrite <- Hfirst. by destruct ca.
  - rewrite <- He. cbn [gents]. fold (ents ca) (ents cb) (ents (ca ++ cb)). by rewrite ents_app.
Qed.

Lemma tree_insert_ok mk key value : 2 <= mk -> forall h fuel T t nxt lo hi o b,
  t_maxKeys T = mk -> forest T h [t] nxt -> wf mk h lo hi t -> len (gkeys t) <= mk -> ble lo key -> hlt key hi -> (h < fuel)%nat ->
  ends (tree_insert fuel (gloc t) key value) ((T, o), b)
    (fun r st => grown mk T h t nxt lo hi (kv_set key value (gents t)) r st.1.1 /\ traced b st.2) no_err.
Proof.
  intros Hmk. induction h as [|h IH]; intros fuel T [l es|l ks cs] nxt lo hi o b HT F [Hle W] Hks Hlo Hhi Hf; try done.
  - rewrite leaf_gkeys in Hks. by apply tree_insert_leaf.
  - destruct fuel as [|fuel]; [lia|]. pose proof F as (Hl & Fc & Hnl & Hfr)%node_forest.
    destruct (kids_find _ (wfk_ok mk h) key ks lo hi cs W Hlo Hhi)
      as (ks1 & ks2 & cs1 & c & cs2 & a & bb & -> & -> & Hlen & F1 & F2 & KL & [Wc Fill] & KR & Ha & Hb).
    destruct (kids_around _ _ _ _ _ _ _ _ _ _ _ KL KR Ha Hb) as [B1 B2].
    assert (E : kv_set key value (gents (GNode l (ks1 ++ ks2) (cs1 ++ c :: cs2))) =
      ents cs1 ++ kv_set key value (gents c) ++ ents cs2).
    { cbn [gents]. fold (ents (cs1 ++ c :: cs2)). by rewrite ents_app, ents_cons, kv_set_below, kv_set_above. }
    rewrite E. clear E. cbn [tree_insert gloc gkeys] in *.
    eapply ends_quiet; [by eapply quiet_emit|]. intros o1 b1 Hb1.
    eapply ends_quiet; [by apply quiet_deref|]. intros o2 b2 Hb2. cbn [n_leaf inner_of n_children].
    eapply ends_quiet; [by eapply tree_childIndex_ok|]. intros o3 b3 Hb3.
    eapply ends_lift; [by apply gloc_at|]. apply forest_app in Fc as Fc'. destruct Fc' as [_ Fc'].
    apply (forest_app T h [c] cs2) in Fc' as [Fcc _].
    eapply ends_step; [apply (IH fuel T c _ a bb o3 b3 HT Fcc Wc); [apply Fill|done|done|lia]|].
    intros r [[T1 o4] b4] [G Hb4]. cbn [fst snd] in *. assert (Tr : traced b b4) by (do 3 (etrans; [eassumption|]); done).
    destruct r as [s|].
    + destruct (inner_split mk T h l ks1 ks2 cs1 c cs2 nxt lo hi a bb F Hlen KL KR Hle T1 s _ G) as (tl & tr & k & -> & Hl1 & Be).
      cbn zeta in Be. eapply ends_run; [by eapply insertIntoInternal_run|]. set (T2 := setn l _ T1) in *.
      assert (Hl2 : t_heap T2 !! l = Some (inner_of (ks1 ++ k :: ks2) (cs1 ++ tl :: tr :: cs2))) by apply lookup_insert_eq.
      assert (HM : t_maxKeys T2 = mk) by (by rewrite <- HT, <- (sp_max _ _ _ (be_step _ _ _ _ _ _ _ _ _ _ Be))).
      eapply ends_quiet; [by eapply quiet_emit|]. intros o5 b5 Hb5.
      eapply ends_quiet; [by apply quiet_deref|]. intros o6 b6 Hb6.
      eapply ends_quiet; [by apply (quiet_look _ T2 mk)|]. intros o7 b7 Hb7. cbn [n_keys inner_of].
      assert (Tr7 : traced b b7) by (do 3 (etrans; [eassumption|]); done).
      assert (Hk : len (ks1 ++ k :: ks2) = len (ks1 ++ ks2) + 1) by (rewrite !len_app, len_cons; lia).
      destruct (len (ks1 ++ k :: ks2) <=? mk) eqn:Efit; zbool.
      * cbn. split; [|done]. eapply became_grown; [exact Be|]. cbn [gkeys]. lia.
      * assert (Hk1 : len (ks1 ++ k :: ks2) = mk + 1) by lia.
        destruct (node_split _ _ _ _ _ _ _ _ _ _ _ _ Hmk Hk1 Be) as (ka & m & kb & ca & cb & Ek & Ec & Hmid & Hca & G').
        eapply ends_run; [eapply splitInternal_run; [rewrite <- Ek, <- Ec; exact Hl2|by rewrite <- Ek|done]|]. cbn [sp_left sp_right].
        pose proof (be_forest _ _ _ _ _ _ _ _ _ _ Be) as (_ & _ & _ & Hf2)%node_forest.
        assert (Hne : t_fresh T2 <> l) by lia.
        eapply ends_quiet; [eapply quiet_emit; cbn; apply lookup_insert_eq|]. intros o8 b8 Hb8.
        eapply ends_quiet; [eapply quiet_emit; cbn; rewrite lookup_insert_ne by (symmetry; exact Hne); apply lookup_insert_eq|]. intros o9 b9 Hb9.
        cbn. split; [exact G'|]. do 2 (etrans; [eassumption|]). done.
    + cbn. split; [|done]. destruct G as (St & c' & ? & ? & ? & ? & ? & Hgk & ?).
      assert (Be : became mk T h c (first_of cs2 nxt) a bb (kv_set key value (gents c)) T1 c') by (by split).
      eapply became_grown; [eapply inner_child; try done|cbn [gkeys]; lia]. destruct Fill. split; lia.
Qed.

(** ** The whole tree *)

(** The tree [T] holds the entries [es]. *)
Definition mem_rep (T : tree) (es : list kv) : Prop :=
  (t_maxKeys T = 0 \/ 2 <= t_maxKeys T) /\
  match t_root T with
  | None => es = []
  | Some r => exists h t, gloc t = r /\ forest T h [t] None /\ wf (t_maxKeys T) h [] None t /\
      1 <= len (gkeys t) <= t_maxKeys T /\ gents t = es
  end.

Definition withRoot (r : option nat) (T : tree) : tree := mkTree (t_heap T) (t_fresh T) r (t_maxKeys T).

Lemma forest_same T T' h ts nxt : t_heap T' = t_heap T -> t_fresh T' = t_fresh T -> forest T h ts nxt -> forest T' h ts nxt.
Proof. intros E1 E2 [C N F]. split; by rewrite ?E1, ?E2. Qed.
Lemma rep_sorted T es : mem_rep T es -> kv_sorted es.
Proof.
  intros [_ H]. destruct (t_root T) as [r|]; [|subst; constructor]. destruct H as (h & t & _ & _ & W & _ & <-).
  by apply wf_ranged in W as [? _].
Qed.

(** The root after an insertion. *)
Lemma grown_root mk T h t es r T' : 2 <= mk -> t_maxKeys T = mk -> t_root T = Some (gloc t) -> 1 <= len (gkeys t) ->
  grown mk T h t None [] None es r T' ->
  match r with
  | None => mem_rep T' es
  | Some s => mem_rep (withRoot (Some (t_fresh T')) (newn (mkNode false [sp_key s] [] [sp_left s; sp_right s] None) T')) es
  end.
Proof.
  intros Hmk HT Hr Hk [St G]. pose proof (sp_max _ _ _ St) as HM. pose proof (sp_root _ _ _ St) as HR. destruct r as [s|].
  - destruct G as (tl & tr & k & F & Hfrom & Hloc & Hfirst & -> & Wl & Fl & Wr & Fr & <-). cbn [sp_key sp_left sp_right].
    split; cbn; [right; lia|]. exists (S h), (GNode (t_fresh T') [k] [tl; tr]). rewrite HM, HT. cbn [gkeys gloc].
    split_and!; try done.
    + apply node_forest. cbn. rewrite lookup_insert_eq. split_and!; [done| | |lia].
      * eapply (forest_same (newn (inner_of [k] [tl; tr]) T')); [done|done|by apply forest_new].
      * intros Hin. pose proof (proj1 (Forall_forall _ _) (fo_fresh _ _ _ _ F) _ Hin) as Hb. cbn in Hb. lia.
    + unfold len. cbn. lia.
    + cbn. by rewrite app_nil_r.
  - destruct G as (t' & F & Hfrom & Hloc & Hfirst & W & Hg & He). split; [right; lia|]. rewrite HR, Hr, HM, HT.
    exists h, t'. split_and!; try done; lia.
Qed.

Lemma tree_set_ok key value T es o b : mem_rep T es ->
  ends (tree_set key value) ((T, o), b)
    (fun _ st => mem_rep st.1.1 (kv_set key value es) /\ traced b st.2) no_err.
Proof.
  intros [Hmax H]. unfold tree_set. set (mk := if t_maxKeys T =? 0 then 3 else t_maxKeys T).
  assert (Hmk : 2 <= mk) by (unfold mk; destruct (t_maxKeys T =? 0) eqn:E; zbool; lia).
  set (T1 := mkTree (t_heap T) (t_fresh T) (t_root T) mk).
  eapply ends_quiet; [by apply (quiet_look _ T (t_maxKeys T))|]. intros o1 b1 Hb1.
  apply (ends_run _ _ _ tt ((T1, o1), b1)). { unfold T1, mk. destruct T as [? ? ? m]. cbn. by destruct (m =? 0). }
  eapply ends_quiet; [by apply (quiet_look _ T1 (t_root T))|]. intros o2 b2 Hb2.
  destruct (t_root T) as [r|] eqn:Er.
  - destruct H as (h & t & Hloc & F & W & Hk & <-). assert (HmkT : t_maxKeys T = mk) by (unfold mk; destruct (t_maxKeys T =? 0) eqn:E; zbool; lia).
    assert (F1 : forest T1 h [t] None) by (by apply (forest_same T)). rewrite HmkT in *.
    destruct (forest_fuel _ _ _ _ _ _ _ F W) as [Hh _].
    eapply ends_quiet; [by apply (quiet_look _ T1 (S (t_fresh T)))|]. intros o3 b3 Hb3. rewrite <- Hloc.
    eapply ends_step; [apply (tree_insert_ok mk key value Hmk h _ T1 t None [] None); try done; [lia|apply ble_nil|lia]|].
    intros s [[T2 o4] b4] [G Hb4]. cbn [fst snd] in *. assert (Tr : traced b b4) by (do 3 (etrans; [eassumption|]); done).
    apply grown_root in G; try done; [|by rewrite Hloc|lia]. destruct s as [s|]; [|done].
    eapply ends_run; [apply run_alloc|]. eapply (ends_run _ _ _ tt); [done|].
    eapply ends_mono; [eapply quiet_emit; apply lookup_insert_eq| |done]. cbn beta. intros _ st (_ & -> & Hb5).
    split; [exact G|]. by etrans.
  - subst es. eapply ends_run; [apply run_alloc|]. eapply (ends_run _ _ _ tt); [done|].
    eapply ends_mono; [eapply quiet_emit; apply lookup_insert_eq| |done]. cbn beta. intros _ st (_ & -> & Hb5).
    split; [|do 2 (etrans; [eassumption|]); done]. split; cbn; [right; lia|]. exists 0%nat, (GLeaf (t_fresh T) [(key, value)]).
    split_and!; try done; try (unfold len; cbn; lia).
    + apply forest_one. cbn. rewrite lookup_insert_eq. split_and!; [done|apply NoDup_singleton|]. repeat constructor.
    + split; [done|]. split; [apply ssorted_one|]. repeat constructor. apply ble_nil.
Qed.
