(* ===== verification/MemDeleteSpec.v ===== *)
(** * Deletion from the in-memory B+Tree

    The rotations and the merge act on two neighbouring children and their
    separator; a deletion leaves a child that may lack one key, which they
    repair. *)

From Stdlib Require Import Strings.String.
From S2P Require Import Prelude KvList Errors Engine Trace Slices Structures MemTree MemTreeSpec MemScanSpec MemInsertSpec.

(** ** Two neighbours *)

(** Three cells were rewritten, nothing else. *)
Record wrote3 (T T' : tree) (p l c : nat) (np nl nc : node) : Prop := {
  w_p : t_heap T' !! p = Some np;
  w_l : t_heap T' !! l = Some nl;
  w_c : t_heap T' !! c = Some nc;
  w_other x : x <> p -> x <> l -> x <> c -> t_heap T' !! x = t_heap T !! x;
  w_fresh : t_fresh T' = t_fresh T;
  w_root : t_root T' = t_root T;
  w_max : t_maxKeys T' = t_maxKeys T;
}.
Lemma wrote3_intro T p l c np nl nc T' : p <> l -> p <> c -> l <> c ->
  T' = setn p np (setn l nl (setn c nc T)) \/ T' = setn l nl (setn p np (setn c nc T)) -> wrote3 T T' p l c np nl nc.
Proof.
  intros H1 H2 H3 [-> | ->]; split; try done; cbn; intros;
    repeat first [rewrite lookup_insert_eq; done|rewrite lookup_insert_ne by done]; done.
Qed.
Lemma wrote3_swap T T' p l c np nl nc : wrote3 T T' p c l np nc nl -> wrote3 T T' p l c np nl nc.
Proof. intros [? ? ? H ? ? ?]. split; try done. intros. by apply H. Qed.

Section Pair.
Context (T : tree) (h : nat) (p : nat) (ks1 : list bytes) (K : bytes) (ks2 : list bytes).
Context (cs1 : list gtree) (X Y : gtree) (cs2 : list gtree) (nxt : option nat).
Context (F : forest T (S h) [GNode p (ks1 ++ K :: ks2) (cs1 ++ X :: Y :: cs2)] nxt).

Lemma pair_cell : t_heap T !! p = Some (inner_of (ks1 ++ K :: ks2) (cs1 ++ X :: Y :: cs2)).
Proof. by pose proof (proj1 (node_forest _ _ _ _ _ _) F) as [? _]. Qed.
Lemma pair_forest : forest T h [X; Y] (first_of cs2 nxt).
Proof.
  pose proof F as (_ & Fc & _)%node_forest. apply forest_app in Fc as [_ Fc]. by apply (forest_app T h [X; Y] cs2) in Fc as [Fc _].
Qed.
Lemma pair_locs x : x ∈ locs [X; Y] -> x <> p /\ x ∉ locs cs1 /\ x ∉ locs cs2 /\ (x < t_fresh T)%nat.
Proof.
  pose proof F as (_ & [_ N Fr] & Np & _)%node_forest. change (cs1 ++ X :: Y :: cs2) with (cs1 ++ [X; Y] ++ cs2) in N, Fr, Np.
  rewrite !locs_app in N, Fr, Np. intros Hx. apply NoDup_app in N as (_ & D1 & N2). apply NoDup_app in N2 as (_ & D2 & _).
  rewrite Forall_forall in Fr. split_and!.
  - intros E. rewrite E in Hx. apply Np, elem_of_app. right. apply elem_of_app. by left.
  - intros H. apply (D1 x H), elem_of_app. by left.
  - by apply D2.
  - apply Fr, elem_of_app. right. apply elem_of_app. by left.
Qed.
Lemma pair_ne : gloc X <> gloc Y /\ p <> gloc X /\ p <> gloc Y.
Proof.
  pose proof pair_forest as [_ N _]. rewrite locs_two in N. apply NoDup_app in N as (_ & D & _).
  pose proof (gloc_in X) as HX. pose proof (gloc_in Y) as HY. split_and!.
  - intros E. apply (D _ HX). by rewrite E.
  - intros E. destruct (pair_locs (gloc X)) as [? _]; [|congruence]. rewrite locs_two. apply elem_of_app. by left.
  - intros E. destruct (pair_locs (gloc Y)) as [? _]; [|congruence]. rewrite locs_two. apply elem_of_app. by right.
Qed.

(** The parent with its two children replaced by [ts'] in [T']. *)
Lemma pair_replace T' ks' ts' :
  t_heap T' !! p = Some (inner_of ks' (cs1 ++ ts' ++ cs2)) -> t_fresh T' = t_fresh T ->
  (forall x, x <> p -> x ∉ locs [X; Y] -> t_heap T' !! x = t_heap T !! x) ->
  forest T' h ts' (first_of cs2 nxt) -> (forall x, x ∈ locs ts' -> x ∈ locs [X; Y]) ->
  first_of ts' (first_of cs2 nxt) = Some (gfirst X) ->
  forest T' (S h) [GNode p ks' (cs1 ++ ts' ++ cs2)] nxt.
Proof.
  intros Hp Hf Hother Fts Hsub Hfirst. pose proof F as (_ & Fc & Np & Hpf)%node_forest.
  change (cs1 ++ X :: Y :: cs2) with (cs1 ++ [X; Y] ++ cs2) in Fc, Np. apply node_forest. split_and!; try done.
  - eapply graft_frame; [exact Fc|lia| |done| |done].
    + intros x Hx. apply Hother.
      * intros E. rewrite E in Hx. apply Np. rewrite !locs_app, !elem_of_app. rewrite elem_of_app in Hx. tauto.
      * intros HXY. destruct (pair_locs x HXY) as (_ & ? & ? & _). apply elem_of_app in Hx as [?|?]; done.
    + intros x Hx. left. by apply Hsub.
  - rewrite !locs_app, !elem_of_app in Np |- *. intros [?|[?|?]]; apply Np; [tauto| |tauto].
    right. left. by apply Hsub.
  - lia.
Qed.

Context (Hlen : length ks1 = length cs1).
Lemma idx_left : len ks1 = len (map gloc cs1).
Proof. unfold len. rewrite length_map. lia. Qed.
Lemma child_left {E} i : i = len ks1 -> index (E := E) (map gloc (cs1 ++ X :: Y :: cs2)) i = Ok (gloc X).
Proof. intros ->. eapply index_at; [rewrite map_app; done|apply idx_left]. Qed.
Lemma child_right {E} i : i = len ks1 + 1 -> index (E := E) (map gloc (cs1 ++ X :: Y :: cs2)) i = Ok (gloc Y).
Proof.
  intros ->. eapply (index_at _ (map gloc cs1 ++ [gloc X])); [rewrite map_app, <- app_assoc; done|].
  rewrite len_app, <- idx_left. done.
Qed.
(** Every operation on the pair reads the parent, then both children. *)
Lemma run_pair {A} i j nX nY (k : node -> nat -> nat -> node -> node -> TM A) o b : i = len ks1 -> j = len ks1 + 1 ->
  t_heap T !! gloc X = Some nX -> t_heap T !! gloc Y = Some nY ->
  (p0 <~ deref p ;; l <! index (n_children p0) i ;; c <! index (n_children p0) j ;;
   left <~ deref l ;; right <~ deref c ;; k p0 l c left right) ((T, o), b) =
  k (inner_of (ks1 ++ K :: ks2) (cs1 ++ X :: Y :: cs2)) (gloc X) (gloc Y) nX nY ((T, o), b).
Proof.
  intros Hi Hj HX HY. rewrite (run_deref _ _ _ _ _ _ pair_cell). cbn [n_children inner_of].
  erewrite run_lift; [|by apply child_left]. erewrite run_lift; [|by apply child_right].
  by rewrite (run_deref _ _ _ _ _ _ HX), (run_deref _ _ _ _ _ _ HY).
Qed.
End Pair.

(** ** Rotations *)

(** The two neighbours [X], [Y] became [X'], [Y'], with separator [K'] and the
    same entries. *)
Record rotated (T : tree) (h p : nat) (ks1 ks2 : list bytes) (cs1 : list gtree) (X Y : gtree) (cs2 : list gtree) (nxt : option nat)
    (K' : bytes) (X' Y' : gtree) (T' : tree) : Prop := {
  ro_step : step T T' (p :: locs [X; Y]);
  ro_fresh : t_fresh T' = t_fresh T;
  ro_forest : forest T' (S h) [GNode p (ks1 ++ K' :: ks2) (cs1 ++ X' :: Y' :: cs2)] nxt;
  ro_locs x : x ∈ locs [X'; Y'] -> x ∈ locs [X; Y];
  ro_loc : gloc X' = gloc X /\ gloc Y' = gloc Y;
  ro_first : gfirst X' = gfirst X;
  ro_ents : gents X' ++ gents Y' = gents X ++ gents Y;
}.
Lemma wrote3_rotated T T' h p ks1 K ks2 cs1 X Y cs2 nxt K' X' Y' nl nc :
  forest T (S h) [GNode p (ks1 ++ K :: ks2) (cs1 ++ X :: Y :: cs2)] nxt ->
  wrote3 T T' p (gloc X) (gloc Y) (inner_of (ks1 ++ K' :: ks2) (cs1 ++ X' :: Y' :: cs2)) nl nc ->
  forest T' h [X'; Y'] (first_of cs2 nxt) -> (forall x, x ∈ locs [X'; Y'] -> x ∈ locs [X; Y]) ->
  gloc X' = gloc X -> gloc Y' = gloc Y -> gfirst X' = gfirst X -> gents X' ++ gents Y' = gents X ++ gents Y ->
  rotated T h p ks1 ks2 cs1 X Y cs2 nxt K' X' Y' T'.
Proof.
  intros F [Wp Wl Wc Wo Wf Wr Wm] F' Hsub HX HY Hfirst He.
  assert (Hother : forall x, x <> p -> x ∉ locs [X; Y] -> t_heap T' !! x = t_heap T !! x).
  { intros x Hp Hx. rewrite locs_two, not_elem_of_app in Hx. destruct Hx as [H1 H2].
    apply Wo; [done|intros ->; by apply H1, gloc_in|intros ->; by apply H2, gloc_in]. }
  split; try done.
  - split; [|lia|done|done]. intros x _ [Hx1 Hx2]%not_elem_of_cons. by apply Hother.
  - apply (pair_replace T h p ks1 K ks2 cs1 X Y cs2 nxt F T' _ [X'; Y']); try done. cbn. by rewrite Hfirst.
Qed.

Lemma leaves_forest T l ea c eb nxt :
  t_heap T !! l = Some (leaf_of ea (Some c)) -> t_heap T !! c = Some (leaf_of eb nxt) -> l <> c ->
  (l < t_fresh T)%nat -> (c < t_fresh T)%nat -> forest T 0 [GLeaf l ea; GLeaf c eb] nxt.
Proof.
  intros Hl Hc Hne Fl Fc. split; [done| |]; rewrite locs_two; cbn; repeat constructor; try done; set_solver.
Qed.

(** What is known of two neighbouring leaves. *)
Lemma leaves_known T p ks1 K ks2 cs1 l el c ec cs2 nxt :
  forest T 1 [GNode p (ks1 ++ K :: ks2) (cs1 ++ GLeaf l el :: GLeaf c ec :: cs2)] nxt ->
  (l <> c /\ p <> l /\ p <> c) /\ t_heap T !! l = Some (leaf_of el (Some c)) /\
  t_heap T !! c = Some (leaf_of ec (first_of cs2 nxt)) /\ (l < t_fresh T)%nat /\ (c < t_fresh T)%nat.
Proof.
  intros F. split; [exact (pair_ne _ _ _ _ _ _ _ _ _ _ _ F)|]. pose proof (pair_forest _ _ _ _ _ _ _ _ _ _ _ F) as [(Cl & Cc & _) _ Fr].
  rewrite locs_two in Fr. cbn in *. apply Forall_cons in Fr as [Fl Fr]. by apply Forall_cons in Fr as [Fc _].
Qed.

Lemma rotateFromLeft_leaf T p ks1 K ks2 cs1 l el k v c ec cs2 nxt o b :
  forest T 1 [GNode p (ks1 ++ K :: ks2) (cs1 ++ GLeaf l (el ++ [(k, v)]) :: GLeaf c ec :: cs2)] nxt -> length ks1 = length cs1 ->
  exists T', rotateFromLeft p (len ks1 + 1) ((T, o), b) = (Ok tt, ((T', o), b)) /\
    rotated T 0 p ks1 ks2 cs1 (GLeaf l (el ++ [(k, v)])) (GLeaf c ec) cs2 nxt k (GLeaf l el) (GLeaf c ((k, v) :: ec)) T'.
Proof.
  intros F Hlen. destruct (leaves_known _ _ _ _ _ _ _ _ _ _ _ _ F) as ((N1 & N2 & N3) & Cl & Cc & Fl & Fc).
  unfold rotateFromLeft. erewrite (run_pair _ _ _ _ _ _ _ _ _ _ _ F Hlen); [|lia|done|exact Cl|exact Cc].
  cbn [n_leaf n_keys n_values n_children leaf_of inner_of gloc]. rewrite !map_app. cbn [map fst snd].
  erewrite run_lift; [|apply (index_at _ (map fst el) k []); [done|rewrite len_app, len_map, len_cons, len_nil; lia]].
  erewrite run_lift; [|apply (insert_at_at _ _ [] (map fst ec)); done].
  erewrite run_lift; [|apply (index_at _ (map snd el) v []); [done|rewrite len_app, !len_map, len_cons, len_nil; lia]].
  erewrite run_lift; [|apply (insert_at_at _ _ [] (map snd ec)); done].
  erewrite run_lift; [|apply (slice_to_at _ (map fst el) [k]); [done|rewrite len_app, len_map, len_cons, len_nil; lia]].
  erewrite run_lift; [|apply (slice_to_at _ (map snd el) [v]); [done|rewrite len_app, !len_map, len_cons, len_nil; lia]].
  erewrite run_lift; [|apply (index_at _ [] k (map fst ec)); done].
  erewrite run_lift; [|apply (put_at _ ks1 K ks2); [done|lia]].
  erewrite bind_ok; [|apply run_write]. erewrite bind_ok; [|apply run_write]. rewrite run_write.
  eexists. split; [done|]. eapply wrote3_rotated; [exact F| |..]; try done.
  - apply wrote3_intro; try done. left. unfold with_children, inner_of. cbn. rewrite !map_app. done.
  - apply leaves_forest; cbn; try done.
    + rewrite lookup_insert_ne, lookup_insert_eq by done. done.
    + rewrite lookup_insert_ne, lookup_insert_ne, lookup_insert_eq by done. done.
  - cbn. by rewrite <- app_assoc.
Qed.

Lemma rotateFromRight_leaf T p ks1 K ks2 cs1 l el k v k' v' c ec cs2 nxt o b :
  let Y := GLeaf c ((k, v) :: (k', v') :: ec) in
  forest T 1 [GNode p (ks1 ++ K :: ks2) (cs1 ++ GLeaf l el :: Y :: cs2)] nxt -> length ks1 = length cs1 ->
  exists T', rotateFromRight p (len ks1) ((T, o), b) = (Ok tt, ((T', o), b)) /\
    rotated T 0 p ks1 ks2 cs1 (GLeaf l el) Y cs2 nxt k' (GLeaf l (el ++ [(k, v)])) (GLeaf c ((k', v') :: ec)) T'.
Proof.
  intros Y F Hlen. destruct (leaves_known _ _ _ _ _ _ _ _ _ _ _ _ F) as ((N1 & N2 & N3) & Cl & Cc & Fl & Fc).
  unfold rotateFromRight. erewrite (run_pair _ _ _ _ _ _ _ _ _ _ _ F Hlen); [|done|done|exact Cl|exact Cc].
  cbn [n_leaf n_keys n_values n_children leaf_of inner_of gloc Y map fst snd].
  erewrite run_lift; [|by eapply (index_at _ [] k)]. erewrite run_lift; [|by eapply (index_at _ [] v)].
  erewrite run_lift; [|by eapply (delete_at_at _ [] k)]. erewrite run_lift; [|by eapply (delete_at_at _ [] v)].
  erewrite run_lift; [|by eapply (index_at _ [] k')].
  erewrite run_lift; [|apply (put_at _ ks1 K ks2); done].
  erewrite bind_ok; [|apply run_write]. erewrite bind_ok; [|apply run_write]. rewrite run_write.
  eexists. split; [done|]. eapply (wrote3_rotated _ _ _ _ _ _ _ _ _ _ _ _ _ _ _ (leaf_of (el ++ [(k, v)]) (Some c))); [exact F| |..]; try done.
  - apply wrote3_swap, wrote3_intro; try done. left. unfold with_children, inner_of, with_entries, leaf_of. cbn. rewrite !map_app. done.
  - apply leaves_forest; cbn; try done.
    + rewrite lookup_insert_ne, lookup_insert_ne, lookup_insert_eq by done. unfold with_entries, leaf_of. cbn. by rewrite !map_app.
    + rewrite lookup_insert_ne, lookup_insert_eq by done. done.
  - cbn. by rewrite <- app_assoc.
Qed.

(** What is known of two neighbouring inner nodes. *)
Record nodes_known (T : tree) (h p l : nat) (kl : list bytes) (cl : list gtree) (c : nat) (kc : list bytes) (cc : list gtree) (nx : option nat) : Prop := {
  nk_lc : l <> c;
  nk_pl : p <> l;
  nk_pc : p <> c;
  nk_l : t_heap T !! l = Some (inner_of kl cl);
  nk_c : t_heap T !! c = Some (inner_of kc cc);
  nk_kids : forest T h (cl ++ cc) nx;
  nk_fl : (l < t_fresh T)%nat;
  nk_fc : (c < t_fresh T)%nat;
  nk_out x : x ∈ locs (cl ++ cc) -> x <> p /\ x <> l /\ x <> c;
}.
Lemma nodes_know T h p ks1 K ks2 cs1 l kl cl c kc cc cs2 nxt : cc <> [] ->
  forest T (S (S h)) [GNode p (ks1 ++ K :: ks2) (cs1 ++ GNode l kl cl :: GNode c kc cc :: cs2)] nxt ->
  nodes_known T h p l kl cl c kc cc (first_of cs2 nxt).
Proof.
  intros Hcc F. destruct (pair_ne _ _ _ _ _ _ _ _ _ _ _ F) as (N1 & N2 & N3).
  pose proof (pair_forest _ _ _ _ _ _ _ _ _ _ _ F) as FP. apply two_nodes in FP as (Cl & Cc & Fk & Fl & Fc & Hl & Hc); [|done].
  apply not_elem_of_cons in Hl as [_ Hl]. split; try done. intros x Hx.
  destruct (pair_locs _ _ _ _ _ _ _ _ _ _ _ F x) as [Hp _].
  - rewrite locs_two. cbn [glocs]. fold (locs cl) (locs cc). rewrite locs_app in Hx. set_solver.
  - split_and!; [done|by intros ->..].
Qed.
(** Children moved from one to the other. *)
Lemma nodes_forest T T' h p l kl cl c kc cc nx np kl' cl' kc' cc' :
  nodes_known T h p l kl cl c kc cc nx -> wrote3 T T' p l c np (inner_of kl' cl') (inner_of kc' cc') ->
  cl' ++ cc' = cl ++ cc -> cc' <> [] -> forest T' (S h) [GNode l kl' cl'; GNode c kc' cc'] nx.
Proof.
  intros [N1 N2 N3 Cl Cc Fk Fl Fc Ho] [Wp Wl Wc Wo Wf Wr Wm] E Hne. apply two_nodes; [done|]. rewrite E, Wf. split_and!; try done.
  - destruct Fk as [C N Fr]. split; [|done|by rewrite Wf]. eapply chain_frame; [|exact C].
    intros x Hx. destruct (Ho x Hx) as (? & ? & ?). by apply Wo.
  - apply not_elem_of_cons. split; [done|]. intros Hx. by destruct (Ho l Hx) as (_ & ? & _).
  - intros Hx. by destruct (Ho c Hx) as (_ & _ & ?).
Qed.
Lemma nodes_locs l kl cl c kc cc kl' cl' kc' cc' x : cl' ++ cc' = cl ++ cc ->
  x ∈ locs [GNode l kl' cl'; GNode c kc' cc'] -> x ∈ locs [GNode l kl cl; GNode c kc cc].
Proof.
  intros E. apply (f_equal locs) in E. rewrite !locs_app in E. rewrite !locs_two. cbn [glocs].
  fold (locs cl) (locs cc) (locs cl') (locs cc'). rewrite !elem_of_app, !elem_of_cons.
  assert (H : x ∈ locs cl' \/ x ∈ locs cc' <-> x ∈ locs cl \/ x ∈ locs cc) by (rewrite <- !elem_of_app; by rewrite E). tauto.
Qed.
Lemma nodes_ents l kl cl c kc cc kl' cl' kc' cc' : cl' ++ cc' = cl ++ cc ->
  gents (GNode l kl' cl') ++ gents (GNode c kc' cc') = gents (GNode l kl cl) ++ gents (GNode c kc cc).
Proof. intros E. cbn [gents]. rewrite <- !concat_app, <- !map_app. by rewrite E. Qed.

Lemma nodes_rotated T T' h p ks1 K ks2 cs1 l kl cl c kc cc cs2 nxt K' kl' cl' kc' cc' :
  cc <> [] -> cl <> [] -> cl' <> [] -> cc' <> [] ->
  forest T (S (S h)) [GNode p (ks1 ++ K :: ks2) (cs1 ++ GNode l kl cl :: GNode c kc cc :: cs2)] nxt ->
  wrote3 T T' p l c (inner_of (ks1 ++ K' :: ks2) (cs1 ++ GNode l kl' cl' :: GNode c kc' cc' :: cs2))
    (inner_of kl' cl') (inner_of kc' cc') ->
  cl' ++ cc' = cl ++ cc ->
  rotated T (S h) p ks1 ks2 cs1 (GNode l kl cl) (GNode c kc cc) cs2 nxt K' (GNode l kl' cl') (GNode c kc' cc') T'.
Proof.
  intros H1 H2 H3 H4 F W E. pose proof (nodes_know _ _ _ _ _ _ _ _ _ _ _ _ _ _ _ H1 F) as NK.
  eapply wrote3_rotated; [exact F|exact W|by eapply nodes_forest| |done|done| |].
  - intros y. by apply nodes_locs.
  - destruct cl, cl'; try done. cbn in *. congruence.
  - by apply nodes_ents.
Qed.

Lemma rotateFromLeft_node T h p ks1 K ks2 cs1 l kl k cl x c kc cc cs2 nxt o b : cc <> [] -> cl <> [] ->
  let X := GNode l (kl ++ [k]) (cl ++ [x]) in
  forest T (S (S h)) [GNode p (ks1 ++ K :: ks2) (cs1 ++ X :: GNode c kc cc :: cs2)] nxt -> length ks1 = length cs1 ->
  exists T', rotateFromLeft p (len ks1 + 1) ((T, o), b) = (Ok tt, ((T', o), b)) /\
    rotated T (S h) p ks1 ks2 cs1 X (GNode c kc cc) cs2 nxt k (GNode l kl cl) (GNode c (K :: kc) (x :: cc)) T'.
Proof.
  intros Hcc Hcl X F Hlen. pose proof (nodes_know _ _ _ _ _ _ _ _ _ _ _ _ _ _ _ Hcc F) as NK. pose proof NK as [N1 N2 N3 Cl Cc _ _ _ _].
  unfold rotateFromLeft. erewrite (run_pair _ _ _ _ _ _ _ _ _ _ _ F Hlen); [|lia|done|exact Cl|exact Cc].
  cbn [n_leaf n_keys n_children inner_of gloc X]. rewrite (map_app gloc cl).
  erewrite run_lift; [|eapply (index_at _ ks1 K); [done|lia]].
  erewrite run_lift; [|by apply (insert_at_at _ _ [] kc)].
  erewrite run_lift; [|eapply (index_at _ (map gloc cl) (gloc x)); [done|rewrite len_app; cbn; unfold len; cbn; lia]].
  erewrite run_lift; [|by apply (insert_at_at _ _ [] (map gloc cc))].
  erewrite run_lift; [|eapply (index_at _ kl k); [done|rewrite len_app; unfold len; cbn; lia]].
  erewrite run_lift; [|apply (put_at _ ks1 K ks2); [done|lia]].
  erewrite run_lift; [|apply (slice_to_at _ kl [k]); [done|rewrite len_app; unfold len; cbn; lia]].
  erewrite run_lift; [|apply (slice_to_at _ (map gloc cl) [gloc x]); [done|rewrite len_app; unfold len; cbn; lia]].
  erewrite bind_ok; [|apply run_write]. erewrite bind_ok; [|apply run_write]. rewrite run_write.
  eexists. split; [done|]. eapply nodes_rotated; [done| |done|done|exact F| |by rewrite <- app_assoc]; [by destruct cl|].
  apply wrote3_intro; try done. right. unfold with_children, inner_of. cbn. rewrite !map_app. done.
Qed.

Lemma rotateFromRight_node T h p ks1 K ks2 cs1 l kl cl c k kc x cc cs2 nxt o b : cc <> [] -> cl <> [] ->
  let Y := GNode c (k :: kc) (x :: cc) in
  forest T (S (S h)) [GNode p (ks1 ++ K :: ks2) (cs1 ++ GNode l kl cl :: Y :: cs2)] nxt -> length ks1 = length cs1 ->
  exists T', rotateFromRight p (len ks1) ((T, o), b) = (Ok tt, ((T', o), b)) /\
    rotated T (S h) p ks1 ks2 cs1 (GNode l kl cl) Y cs2 nxt k (GNode l (kl ++ [K]) (cl ++ [x])) (GNode c kc cc) T'.
Proof.
  intros Hcc Hcl Y F Hlen. assert (Hx : x :: cc <> []) by done.
  pose proof (nodes_know _ _ _ _ _ _ _ _ _ _ _ _ _ _ _ Hx F) as NK. pose proof NK as [N1 N2 N3 Cl Cc _ _ _ _].
  unfold rotateFromRight. erewrite (run_pair _ _ _ _ _ _ _ _ _ _ _ F Hlen); [|done|done|exact Cl|exact Cc].
  cbn [n_leaf n_keys n_children inner_of gloc Y map].
  erewrite run_lift; [|by eapply (index_at _ ks1 K)].
  erewrite run_lift; [|by eapply (index_at _ [] (gloc x))].
  erewrite run_lift; [|by eapply (index_at _ [] k)].
  erewrite run_lift; [|by apply (put_at _ ks1 K ks2)].
  erewrite run_lift; [|by eapply (delete_at_at _ [] k)].
  erewrite run_lift; [|by eapply (delete_at_at _ [] (gloc x))].
  erewrite bind_ok; [|apply run_write]. erewrite bind_ok; [|apply run_write]. rewrite run_write.
  eexists. split; [done|]. eapply nodes_rotated; [done|done| |done|exact F| |by rewrite <- app_assoc]; [by destruct cl|].
  apply wrote3_swap, wrote3_intro; try done. right. unfold with_children, inner_of. cbn. rewrite !map_app. done.
Qed.

(** ** Merges *)

(** The two neighbours became one. *)
Record merged (T : tree) (h p : nat) (ks1 ks2 : list bytes) (cs1 : list gtree) (X Y : gtree) (cs2 : list gtree) (nxt : option nat)
    (M : gtree) (T' : tree) : Prop := {
  me_step : step T T' (p :: locs [X; Y]);
  me_fresh : t_fresh T' = t_fresh T;
  me_forest : forest T' (S h) [GNode p (ks1 ++ ks2) (cs1 ++ M :: cs2)] nxt;
  me_locs x : x ∈ locs [M] -> x ∈ locs [X; Y];
  me_loc : gloc M = gloc X;
  me_first : gfirst M = gfirst X;
  me_ents : gents M = gents X ++ gents Y;
}.
Lemma merged_intro T h p ks1 K ks2 cs1 X Y cs2 nxt M nM :
  forest T (S h) [GNode p (ks1 ++ K :: ks2) (cs1 ++ X :: Y :: cs2)] nxt ->
  let T' := setn p (inner_of (ks1 ++ ks2) (cs1 ++ M :: cs2)) (setn (gloc X) nM T) in
  forest T' h [M] (first_of cs2 nxt) -> (forall x, x ∈ locs [M] -> x ∈ locs [X; Y]) ->
  gloc M = gloc X -> gfirst M = gfirst X -> gents M = gents X ++ gents Y -> merged T h p ks1 ks2 cs1 X Y cs2 nxt M T'.
Proof.
  intros F T' F' Hsub HX Hfirst He.
  assert (Hother : forall x, x <> p -> x ∉ locs [X; Y] -> t_heap T' !! x = t_heap T !! x).
  { intros x Hp Hx. rewrite locs_two, not_elem_of_app in Hx. destruct Hx as [H1 _]. cbn.
    rewrite !lookup_insert_ne; [done|intros <-; by apply H1, gloc_in|done]. }
  split; try done.
  - split; [|cbn; lia|done|done]. intros x _ [Hx1 Hx2]%not_elem_of_cons. by apply Hother.
  - apply (pair_replace T h p ks1 K ks2 cs1 X Y cs2 nxt F T' _ [M]); try done; cbn; [apply lookup_insert_eq|by rewrite Hfirst].
Qed.

(** The two slices of the parent shrink. *)
Lemma merge_parent p ks1 K ks2 cs1 X Y cs2 M T o b : length ks1 = length cs1 -> gloc M = gloc X ->
  let n := inner_of (ks1 ++ K :: ks2) (cs1 ++ X :: Y :: cs2) in
  (pkeys <! deleteString (n_keys n) (len ks1) ;; pchildren <! tree_deleteNode (n_children n) (len ks1 + 1) ;;
   write p (with_children n pkeys pchildren)) ((T, o), b) =
  (Ok tt, ((setn p (inner_of (ks1 ++ ks2) (cs1 ++ M :: cs2)) T, o), b)).
Proof.
  intros Hlen HM n. erewrite run_lift; [|by eapply (delete_at_at _ ks1 K ks2)].
  erewrite run_lift; [|eapply (delete_at_at _ (map gloc cs1 ++ [gloc X]) (gloc Y) (map gloc cs2))].
  - rewrite run_write. unfold with_children, inner_of, n. cbn. rewrite <- app_assoc, !map_app. cbn. by rewrite HM.
  - cbn. rewrite map_app, <- app_assoc. done.
  - rewrite len_app, len_map. unfold len. cbn. lia.
Qed.

Lemma mergeChildren_leaf T p ks1 K ks2 cs1 l el c ec cs2 nxt o b :
  forest T 1 [GNode p (ks1 ++ K :: ks2) (cs1 ++ GLeaf l el :: GLeaf c ec :: cs2)] nxt -> length ks1 = length cs1 ->
  exists T', mergeChildren p (len ks1) ((T, o), b) = (Ok tt, ((T', o), b)) /\
    merged T 0 p ks1 ks2 cs1 (GLeaf l el) (GLeaf c ec) cs2 nxt (GLeaf l (el ++ ec)) T'.
Proof.
  intros F Hlen. destruct (leaves_known _ _ _ _ _ _ _ _ _ _ _ _ F) as ((N1 & N2 & N3) & Cl & Cc & Fl & Fc).
  unfold mergeChildren. erewrite (run_pair _ _ _ _ _ _ _ _ _ _ _ F Hlen); [|done|done|exact Cl|exact Cc]. cbn [n_leaf leaf_of gloc].
  erewrite bind_ok; [|apply run_write]. rewrite (merge_parent p ks1 K ks2 cs1 (GLeaf l el) (GLeaf c ec) cs2 (GLeaf l (el ++ ec))) by done.
  eexists. split; [done|]. eapply (merged_intro T 0 p ks1 K ks2 cs1 (GLeaf l el)); try done.
  - apply forest_one. cbn. rewrite lookup_insert_ne, lookup_insert_eq by done. split_and!; [|apply NoDup_singleton|by constructor].
    unfold leaf_of, with_next, with_entries. cbn. by rewrite !map_app.
  - rewrite locs_one, locs_two. cbn. set_solver.
Qed.
Lemma mergeChildren_node T h p ks1 K ks2 cs1 l kl cl c kc cc cs2 nxt o b : cl <> [] -> cc <> [] ->
  forest T (S (S h)) [GNode p (ks1 ++ K :: ks2) (cs1 ++ GNode l kl cl :: GNode c kc cc :: cs2)] nxt -> length ks1 = length cs1 ->
  exists T', mergeChildren p (len ks1) ((T, o), b) = (Ok tt, ((T', o), b)) /\
    merged T (S h) p ks1 ks2 cs1 (GNode l kl cl) (GNode c kc cc) cs2 nxt (GNode l (kl ++ K :: kc) (cl ++ cc)) T'.
Proof.
  intros Hcl Hcc F Hlen. destruct (nodes_know _ _ _ _ _ _ _ _ _ _ _ _ _ _ _ Hcc F) as [N1 N2 N3 Cl Cc Fk Fl Fc Ho].
  unfold mergeChildren. erewrite (run_pair _ _ _ _ _ _ _ _ _ _ _ F Hlen); [|done|done|exact Cl|exact Cc]. cbn [n_leaf inner_of gloc].
  erewrite bind_ok; [|erewrite run_lift; [apply run_write|by eapply (index_at _ ks1 K ks2)]].
  rewrite (merge_parent p ks1 K ks2 cs1 (GNode l kl cl) (GNode c kc cc) cs2 (GNode l (kl ++ K :: kc) (cl ++ cc))) by done.
  eexists. split; [done|]. eapply (merged_intro T (S h) p ks1 K ks2 cs1 (GNode l kl cl)); try done.
  - apply node_forest. cbn. rewrite lookup_insert_ne, lookup_insert_eq by done. split_and!; try done.
    + unfold inner_of, with_children. cbn. by rewrite <- app_assoc, !map_app.
    + apply forest_set; [|by intros (? & _)%Ho]. apply forest_set; [done|]. by intros (_ & ? & _)%Ho.
    + by intros (_ & ? & _)%Ho.
  - rewrite locs_one, locs_two. cbn [glocs]. fold (locs (cl ++ cc)) (locs cl) (locs cc). rewrite locs_app. set_solver.
  - by destruct cl.
  - cbn [gents]. by rewrite map_app, concat_app.
Qed.
