(* ===== verification/MemRebalanceSpec.v ===== *)
(** * Rebalancing and deletion in the in-memory B+Tree

    The rotations and the merge restore the occupancy of a child that lacks one
    key; the recursion of [deleteFromNode] and the whole deletion. *)

From Stdlib Require Import Strings.String.
From S2P Require Import Prelude KvList Errors Engine Trace Slices Structures MemTree MemTreeSpec MemScanSpec MemInsertSpec MemDeleteSpec.

(** ** The three repairs keep the order *)

Lemma snoc_of {A} (l : list A) : 1 <= len l -> exists a x, l = a ++ [x].
Proof. intros H. destruct (exists_last (l := l)) as (a & x & ->); [by destruct l|]. eauto. Qed.
Lemma kids_nonempty P lo hi ks cs : kids P lo hi ks cs -> cs <> [].
Proof. intros H%kids_length. by destruct cs. Qed.
Lemma half_pos mk : 2 <= mk -> 1 <= mk / 2.
Proof. intros. apply Z.div_le_lower_bound; lia. Qed.

Section Repairs.
Context (mk : Z) (Hmk : 2 <= mk).
Context (T : tree) (h p : nat) (ks1 : list bytes) (K : bytes) (ks2 : list bytes) (cs1 : list gtree) (X Y : gtree) (cs2 : list gtree).
Context (nxt : option nat) (a : bytes) (bb : option bytes) (o : memoryTrace) (b : Bounded).
Context (F : forest T (S h) [GNode p (ks1 ++ K :: ks2) (cs1 ++ X :: Y :: cs2)] nxt) (Hlen : length ks1 = length cs1).
Context (WX : wf mk h a (Some K) X) (WY : wf mk h K bb Y).

Lemma rotateFromLeft_ok : mk / 2 < len (gkeys X) ->
  exists K' X' Y' T', rotateFromLeft p (len ks1 + 1) ((T, o), b) = (Ok tt, ((T', o), b)) /\
    rotated T h p ks1 ks2 cs1 X Y cs2 nxt K' X' Y' T' /\ wf mk h a (Some K') X' /\ wf mk h K' bb Y' /\
    len (gkeys X') = len (gkeys X) - 1 /\ len (gkeys Y') = len (gkeys Y) + 1.
Proof.
  intros Hbig. pose proof (half_pos mk Hmk). destruct h as [|h']; destruct X as [l el|l kl cl], Y as [c ec|c kc cc]; try (by destruct WX); try (by destruct WY).
  - rewrite !leaf_gkeys in *. destruct (snoc_of el) as (el' & [k v] & ->); [lia|]. destruct WX as [HX RX]. destruct WY as [HY RY].
    apply ranged_cut in RX as (R1 & R2 & R3 & R4). cbn in R4.
    destruct (rotateFromLeft_leaf _ _ _ _ _ _ _ _ _ _ _ _ _ _ o b F Hlen) as (T' & Hr & Ro).
    exists k, (GLeaf l el'), (GLeaf c ((k, v) :: ec)), T'. rewrite !leaf_gkeys, len_app, !len_cons, len_nil.
    assert (hle k bb) by (eapply hle_trans; [|exact HY]; border).
    split_and!; try done; try lia. split; [done|]. apply (ranged_app k K bb [(k, v)] ec); try done. border.
  - cbn [gkeys] in *. destruct (snoc_of kl) as (kl' & k & ->); [lia|]. destruct WX as [HX RX]. destruct WY as [HY RY].
    pose proof (kids_nonempty _ _ _ _ _ RY) as Hcc. pose proof (kids_length _ _ _ _ _ RX) as Hcl.
    destruct (snoc_of cl) as (cl' & x & ->); [unfold len; lia|]. rewrite !length_app in Hcl. cbn in Hcl.
    rewrite len_app in *. change (len [k]) with 1 in *. assert (Hcl0 : cl' <> []) by (destruct cl', kl'; unfold len in *; cbn in *; lia || done).
    destruct (rotateFromLeft_node _ _ _ _ _ _ _ _ _ _ _ _ _ _ _ _ _ o b Hcc Hcl0 F Hlen) as (T' & Hr & Ro).
    apply (kids_cut _ _ _ kl' k []) in RX as [RX1 RX2]; [|lia].
    exists k, (GNode l kl' cl'), (GNode c (K :: kc) (x :: cc)), T'. cbn [gkeys]. rewrite len_cons.
    destruct (kids_ranged _ (wfk_ok mk h') _ _ _ _ RX1) as [_ L1]. destruct (kids_ranged _ (wfk_ok mk h') _ _ _ _ RX2) as [_ L2].
    split_and!; try done; try lia. split; [by eapply hle_trans|done].
Qed.

Lemma rotateFromRight_ok : mk / 2 < len (gkeys Y) ->
  exists K' X' Y' T', rotateFromRight p (len ks1) ((T, o), b) = (Ok tt, ((T', o), b)) /\
    rotated T h p ks1 ks2 cs1 X Y cs2 nxt K' X' Y' T' /\ wf mk h a (Some K') X' /\ wf mk h K' bb Y' /\
    len (gkeys X') = len (gkeys X) + 1 /\ len (gkeys Y') = len (gkeys Y) - 1.
Proof.
  intros Hbig. pose proof (half_pos mk Hmk). destruct h as [|h']; destruct X as [l el|l kl cl], Y as [c ec|c kc cc]; try (by destruct WX); try (by destruct WY).
  - rewrite !leaf_gkeys in *. destruct ec as [|[k v] [|[k' v'] ec]]; [unfold len in *; cbn in *; lia..|].
    destruct WX as [HX RX]. destruct WY as [HY RY].
    pose proof (ranged_cut K bb [(k, v)] k' v' ec RY) as (R1 & R2 & R3 & R4).
    destruct (rotateFromRight_leaf _ _ _ _ _ _ _ _ _ _ _ _ _ _ _ _ o b F Hlen) as (T' & Hr & Ro).
    exists k', (GLeaf l (el ++ [(k, v)])), (GLeaf c ((k', v') :: ec)), T'. rewrite !leaf_gkeys, len_app, !len_cons, len_nil.
    split_and!; try done; try lia; (split; [|]); try done; [cbn in *; border|by eapply ranged_app|by apply hlt_hle].
  - cbn [gkeys] in *. destruct kc as [|k kc]; [unfold len in *; cbn in *; lia|]. destruct WX as [HX RX]. destruct WY as [HY RY].
    pose proof (kids_nonempty _ _ _ _ _ RX) as Hcl. destruct cc as [|x cc]; [done|]. destruct RY as [RY1 RY2].
    pose proof (kids_nonempty _ _ _ _ _ RY2) as Hcc.
    destruct (rotateFromRight_node _ _ _ _ _ _ _ _ _ _ _ _ _ _ _ _ _ o b Hcc Hcl F Hlen) as (T' & Hr & Ro).
    pose proof (kids_length _ _ _ _ _ RX) as Hl. destruct (wfk_ok _ _ _ _ _ RY1) as [L1 _].
    destruct (kids_ranged _ (wfk_ok mk h') _ _ _ _ RY2) as [_ L2].
    exists k, (GNode l (kl ++ [K]) (cl ++ [x])), (GNode c kc cc), T'. cbn [gkeys]. rewrite len_app, !len_cons, len_nil.
    split_and!; try done; try lia. split; [cbn in *; border|]. by apply (kids_cut _ _ _ kl K []).
Qed.

Lemma mergeChildren_ok : exists M T', mergeChildren p (len ks1) ((T, o), b) = (Ok tt, ((T', o), b)) /\
    merged T h p ks1 ks2 cs1 X Y cs2 nxt M T' /\ wf mk h a bb M /\
    len (gkeys X) + len (gkeys Y) <= len (gkeys M) <= len (gkeys X) + len (gkeys Y) + 1.
Proof.
  pose proof (wf_le _ _ _ _ _ WX) as HX. pose proof (wf_le _ _ _ _ _ WY) as HY. assert (Hle : hle a bb) by (by eapply hle_trans).
  destruct h as [|h']; destruct X as [l el|l kl cl], Y as [c ec|c kc cc]; try (by destruct WX); try (by destruct WY).
  - destruct WX as [_ RX]. destruct WY as [_ RY].
    destruct (mergeChildren_leaf _ _ _ _ _ _ _ _ _ _ _ _ o b F Hlen) as (T' & Hr & Me).
    exists (GLeaf l (el ++ ec)), T'. rewrite !leaf_gkeys, len_app. split_and!; try done; try lia. split; [done|by eapply ranged_app].
  - destruct WX as [_ RX]. destruct WY as [_ RY]. pose proof (kids_nonempty _ _ _ _ _ RX) as Hcl. pose proof (kids_nonempty _ _ _ _ _ RY) as Hcc.
    destruct (mergeChildren_node _ _ _ _ _ _ _ _ _ _ _ _ _ _ _ o b Hcl Hcc F Hlen) as (T' & Hr & Me).
    exists (GNode l (kl ++ K :: kc) (cl ++ cc)), T'. cbn [gkeys]. rewrite len_app, len_cons. split_and!; try done; try lia.
    split; [done|]. apply kids_cut; [by apply kids_length in RX|done].
Qed.
End Repairs.

(** ** Bounds that move *)

Lemma kids_hi P hi hi' ks : (forall a c, P a hi c -> P a hi' c) -> forall lo cs, kids P lo hi ks cs -> kids P lo hi' ks cs.
Proof.
  intros H. induction ks as [|k ks IH]; intros lo [|c cs]; cbn; try done; [destruct cs; auto|].
  intros [? ?]. split; [done|by apply IH].
Qed.
Lemma wf_hi mk K m : ble K m -> forall h lo t, wf mk h lo (Some K) t -> wf mk h lo (Some m) t.
Proof.
  intros HK. induction h as [|h IH]; intros lo [l es|l ks cs] [Hl W]; try done; (split; [cbn in *; border|]).
  - eapply ranged_weaken; [exact W|border|]. cbn. intros. border.
  - eapply kids_hi; [|exact W]. cbn beta. intros a c [? ?]. split; [by apply IH|done].
Qed.

(** The smallest key of a tree, as lower bound and as the code finds it. *)
Lemma minimumKey_ok mk T : 2 <= mk -> forall h fuel t nxt lo hi, stored (t_heap T) h t nxt -> wf mk h lo hi t ->
  1 <= len (gkeys t) -> (h < fuel)%nat ->
  exists m v es, gents t = (m, v) :: es /\ wf mk h m hi t /\ ble lo m /\ quiet (minimumKey fuel (gloc t)) T m.
Proof.
  intros Hmk. induction h as [|h IH]; intros fuel [l es|l ks cs] nxt lo hi St [Hle W] Hk Hf; try done; (destruct fuel as [|fuel]; [lia|]); cbn [stored] in St.
  - rewrite leaf_gkeys in Hk. destruct es as [|[m v] es]; [unfold len in Hk; cbn in Hk; lia|].
    exists m, v, es. pose proof (ranged_cut lo hi [] m v es W) as (_ & R & R1 & R2). split_and!; try done.
    + split; [by apply hlt_hle|done].
    + cbn [minimumKey gloc]. eapply quiet_bind; [by apply quiet_deref|]. cbn [n_leaf leaf_of].
      eapply quiet_bind; [by eapply quiet_emit|]. intros o b. done.
  - destruct St as [Hl C]. destruct cs as [|c cs]; [by destruct ks|]. apply kids_cons in W as (b & [Wc Fc] & KR). destruct C as [Sc _].
    destruct (IH fuel c _ lo b Sc Wc) as (m & v & es & E & Wm & Hm & Q); [pose proof (half_pos mk Hmk); destruct Fc; lia|lia|].
    exists m, v, (es ++ ents cs). split_and!; try done.
    + cbn [gents map concat]. by rewrite E.
    + split; [|apply kids_cons; by exists b]. apply (kidsR_ranged _ (wfk_ok mk h)) in KR. pose proof (wf_le _ _ _ _ _ Wm) as Hb.
      destruct b as [k|]; [|by destruct KR as [_ ->]]. destruct KR as [_ HR]. by eapply hle_trans.
    + cbn [minimumKey gloc]. eapply quiet_bind; [by apply quiet_deref|]. cbn [n_leaf inner_of n_children].
      eapply quiet_bind; [by eapply quiet_emit|]. eapply quiet_lift; [by eapply (index_at _ [])|]. exact Q.
Qed.

(** ** A node whose child may lack a key *)

Lemma stored_at H h t nxt : stored H h t nxt -> exists n, H !! gloc t = Some n /\ n_keys n = gkeys t.
Proof. destruct h, t; cbn; try done; [intros ->|intros [-> _]]; eauto. Qed.

Record nearly (mk : Z) (T0 : tree) (h : nat) (t : gtree) (nxt : option nat) (lo : bytes) (hi : option bytes) (es : list kv)
    (T : tree) (ks1 ks2 : list bytes) (cs1 : list gtree) (c : gtree) (cs2 : list gtree) (a : bytes) (b : option bytes) : Prop := {
  ne_step : step T0 T (glocs t);
  ne_forest : forest T (S h) [GNode (gloc t) (ks1 ++ ks2) (cs1 ++ c :: cs2)] nxt;
  ne_from : from T0 (glocs t) (locs [GNode (gloc t) (ks1 ++ ks2) (cs1 ++ c :: cs2)]);
  ne_len : length ks1 = length cs1;
  ne_left : kidsL (wfk mk h) lo a ks1 cs1;
  ne_child : wf mk h a b c;
  ne_right : kidsR (wfk mk h) b hi ks2 cs2;
  ne_first : gfirst (GNode (gloc t) (ks1 ++ ks2) (cs1 ++ c :: cs2)) = gfirst t;
  ne_ents : ents cs1 ++ gents c ++ ents cs2 = es;
  ne_le : hle lo hi;
}.
Lemma nearly_became mk T0 h t nxt lo hi es T ks1 ks2 cs1 c cs2 a b :
  nearly mk T0 h t nxt lo hi es T ks1 ks2 cs1 c cs2 a b -> filled mk c ->
  became mk T0 (S h) t nxt lo hi es T (GNode (gloc t) (ks1 ++ ks2) (cs1 ++ c :: cs2)).
Proof.
  intros [S1 F Fr L KL W KR Hf He Hle] Hfill. split; try done.
  - split; [done|]. apply kids_split; [done|]. by exists a, b.
  - cbn [gents]. fold (ents (cs1 ++ c :: cs2)). by rewrite ents_app, ents_cons.
Qed.
Lemma quiet_minKeys T mk : 2 <= mk -> t_maxKeys T = mk -> quiet minKeys T (mk / 2).
Proof.
  intros Hmk HT. unfold minKeys. eapply quiet_bind; [by apply (quiet_look _ T mk)|]. zdecide.
  rewrite Z.quot_div_nonneg by lia. apply quiet_ret.
Qed.

(** The separator left of the child moved up to the child's smallest key. *)
Lemma nearly_refresh mk T0 h t nxt lo hi es T ks1 K ks2 cs1 L c cs2 a b m :
  nearly mk T0 h t nxt lo hi es T (ks1 ++ [K]) ks2 (cs1 ++ [L]) c cs2 a b -> wf mk h m b c -> ble a m -> length ks1 = length cs1 ->
  nearly mk T0 h t nxt lo hi es
    (setn (gloc t) (inner_of ((ks1 ++ [m]) ++ ks2) ((cs1 ++ [L]) ++ c :: cs2)) T) (ks1 ++ [m]) ks2 (cs1 ++ [L]) c cs2 m b.
Proof.
  intros [S1 F Fr Ln KL W KR Hf He Hle] Wm Hm Hlen. pose proof F as (Hl & Fc & Nl & Hlt)%node_forest. split; try done.
  - eapply step_trans; [exact S1|apply (step_set _ _ _ [gloc t]); by left|]. intros x ->%list_elem_of_singleton. apply Fr.
    rewrite locs_one. by left.
  - apply node_forest. split_and!; try done; [apply lookup_insert_eq|by apply forest_set].
  - rewrite !length_app. cbn. lia.
  - apply kidsL_snoc in KL as (a' & KL & [WL FL] & ->); [|done]. apply kidsL_snoc; [done|]. exists a'. split_and!; try done.
    by eapply wf_hi.
Qed.

(** ** Rebalancing *)

Lemma pair_sub p ks1 K ks2 cs1 X Y cs2 x : x ∈ p :: locs [X; Y] -> x ∈ locs [GNode p (ks1 ++ K :: ks2) (cs1 ++ X :: Y :: cs2)].
Proof.
  change (cs1 ++ X :: Y :: cs2) with (cs1 ++ [X; Y] ++ cs2). rewrite locs_one. cbn [glocs]. fold (locs (cs1 ++ [X; Y] ++ cs2)). rewrite !locs_app, !elem_of_cons, !elem_of_app. tauto.
Qed.
Lemma other_sub p ks ks' cs1 ts ts' cs2 x : (forall x, x ∈ locs ts' -> x ∈ locs ts) ->
  x ∈ locs [GNode p ks' (cs1 ++ ts' ++ cs2)] -> x ∈ locs [GNode p ks (cs1 ++ ts ++ cs2)].
Proof.
  intros H. rewrite !locs_one. cbn [glocs]. fold (locs (cs1 ++ ts ++ cs2)) (locs (cs1 ++ ts' ++ cs2)).
  rewrite !locs_app, !elem_of_cons, !elem_of_app. specialize (H x). tauto.
Qed.

(** Two neighbours [X], [Y] of a node, in order, with the rest as it was. *)
Record pairly (mk : Z) (T0 : tree) (h : nat) (t : gtree) (nxt : option nat) (lo : bytes) (hi : option bytes) (es : list kv) (T : tree)
    (ks1 : list bytes) (K : bytes) (ks2 : list bytes) (cs1 : list gtree) (X Y : gtree) (cs2 : list gtree) (a : bytes) (b : option bytes) : Prop := {
  pr_step : step T0 T (glocs t);
  pr_forest : forest T (S h) [GNode (gloc t) (ks1 ++ K :: ks2) (cs1 ++ X :: Y :: cs2)] nxt;
  pr_from : from T0 (glocs t) (locs [GNode (gloc t) (ks1 ++ K :: ks2) (cs1 ++ X :: Y :: cs2)]);
  pr_first : gfirst (GNode (gloc t) (ks1 ++ K :: ks2) (cs1 ++ X :: Y :: cs2)) = gfirst t;
  pr_len : length ks1 = length cs1;
  pr_le : hle lo hi;
  pr_left : kidsL (wfk mk h) lo a ks1 cs1;
  pr_X : wf mk h a (Some K) X;
  pr_Y : wf mk h K b Y;
  pr_right : kidsR (wfk mk h) b hi ks2 cs2;
  pr_ents : ents cs1 ++ (gents X ++ gents Y) ++ ents cs2 = es;
}.

Section Rebalance.
Context (mk : Z) (T0 : tree) (h : nat) (t : gtree) (nxt : option nat) (lo : bytes) (hi : option bytes) (es : list kv) (T : tree).
Context (ks1 : list bytes) (K : bytes) (ks2 : list bytes) (cs1 : list gtree) (X Y : gtree) (cs2 : list gtree) (a : bytes) (b : option bytes).
Context (PR : pairly mk T0 h t nxt lo hi es T ks1 K ks2 cs1 X Y cs2 a b).

Lemma rotated_became K' X' Y' T' : rotated T h (gloc t) ks1 ks2 cs1 X Y cs2 nxt K' X' Y' T' ->
  wf mk h a (Some K') X' -> filled mk X' -> wf mk h K' b Y' -> filled mk Y' ->
  became mk T0 (S h) t nxt lo hi es T' (GNode (gloc t) (ks1 ++ K' :: ks2) (cs1 ++ X' :: Y' :: cs2)).
Proof.
  destruct PR as [St _ Fr Hfirst Hlen Hle KL _ _ KR He]. intros [R1 R2 R3 R4 R5 R6 R7] W1 F1 W2 F2. split; try done.
  - eapply step_trans; [exact St|exact R1|]. intros x Hx. by apply Fr, pair_sub.
  - intros x Hx. apply Fr. by apply (other_sub _ _ (ks1 ++ K' :: ks2) cs1 [X; Y] [X'; Y'] cs2 x).
  - rewrite <- Hfirst. by apply gfirst_mid.
  - split; [done|]. apply kids_split; [done|]. exists a, (Some K'). split_and!; try done. apply kidsR_cons. split; [done|]. by exists b.
  - cbn [gents]. fold (ents (cs1 ++ X' :: Y' :: cs2)). rewrite ents_app, !ents_cons, (app_assoc (gents X')), R7. done.
Qed.
Lemma merged_became M T' : merged T h (gloc t) ks1 ks2 cs1 X Y cs2 nxt M T' -> wf mk h a b M -> filled mk M ->
  became mk T0 (S h) t nxt lo hi es T' (GNode (gloc t) (ks1 ++ ks2) (cs1 ++ M :: cs2)).
Proof.
  destruct PR as [St _ Fr Hfirst Hlen Hle KL _ _ KR He]. intros [R1 R2 R3 R4 R5 R6 R7] W1 F1. split; try done.
  - eapply step_trans; [exact St|exact R1|]. intros x Hx. by apply Fr, pair_sub.
  - intros x Hx. apply Fr. by apply (other_sub _ _ (ks1 ++ ks2) cs1 [X; Y] [M] cs2 x).
  - rewrite <- Hfirst. by apply gfirst_mid.
  - split; [done|]. apply kids_split; [done|]. by exists a, b.
  - cbn [gents]. fold (ents (cs1 ++ M :: cs2)). by rewrite ents_app, !ents_cons, R7.
Qed.
End Rebalance.

(** Observing the parent and its children after the repair. *)
Lemma quiet_emitChild T h p ks cs1 c cs2 nxt i kind key detail :
  forest T (S h) [GNode p ks (cs1 ++ c :: cs2)] nxt -> i = len cs1 -> quiet (emitChild p i kind key detail) T tt.
Proof.
  intros (Hl & [C _ _] & _)%node_forest ->. apply chain_mid in C as (_ & Sc & _). destruct (stored_at _ _ _ _ Sc) as (n & Hn & _).
  unfold emitChild. eapply quiet_bind; [by apply quiet_deref|]. eapply quiet_lift; [apply (index_map gloc)|]. by eapply quiet_emit.
Qed.
Lemma quiet_emitParent T h p ks cs nxt kind key detail : forest T (S h) [GNode p ks cs] nxt -> quiet (emitNode p kind key detail) T tt.
Proof. intros (Hl & _)%node_forest. by eapply quiet_emit. Qed.
Lemma quiet_pairLen T h p ks cs1 c cs2 nxt i :
  forest T (S h) [GNode p ks (cs1 ++ c :: cs2)] nxt -> i = len cs1 -> quiet (childLen p i) T (len (gkeys c)).
Proof.
  intros (Hl & [C _ _] & _)%node_forest ->. apply chain_mid in C as (_ & Sc & _). destruct (stored_at _ _ _ _ Sc) as (n & Hn & Hk).
  unfold childLen. eapply quiet_bind; [by apply quiet_deref|]. eapply quiet_lift; [apply (index_map gloc)|].
  eapply quiet_bind; [by apply quiet_deref|]. rewrite Hk. apply quiet_ret.
Qed.
Lemma ends_quiets {A} (m : TM A) T v o b (P : tree -> Prop) : quiet m T v -> P T -> forall b0, traced b0 b ->
  ends m ((T, o), b) (fun _ st => P st.1.1 /\ traced b0 st.2) no_err.
Proof.
  intros Q HP b0 Hb. eapply ends_mono; [apply Q| |done]. cbn. intros _ st (_ & -> & Hb'). split; [done|by etrans].
Qed.

Section Cases.
Context (mk : Z) (Hmk : 2 <= mk) (T0 : tree) (h : nat) (t : gtree) (nxt : option nat) (lo : bytes) (hi : option bytes) (es : list kv) (T : tree).
Context (HT : t_maxKeys T = mk).

(** What a repair leaves of a node with [n] keys. *)
Definition repaired (n : Z) (T' : tree) : Prop := exists t',
  became mk T0 (S h) t nxt lo hi es T' t' /\ n - 1 <= len (gkeys t') <= n.
Abbreviation done_with n b := (fun (_ : unit) (st : Memory * Bounded) => repaired n st.1.1 /\ traced b st.2).


Section Pairs.
Context (ks1 : list bytes) (K : bytes) (ks2 : list bytes) (cs1 : list gtree) (X Y : gtree) (cs2 : list gtree) (a : bytes) (bb : option bytes).
Context (PR : pairly mk T0 h t nxt lo hi es T ks1 K ks2 cs1 X Y cs2 a bb).
Let n := len (ks1 ++ K :: ks2).

Lemma n_eq : n = len ks1 + 1 + len ks2.
Proof. unfold n. rewrite len_app, len_cons. lia. Qed.
Lemma idx_cs1 : len cs1 = len ks1.
Proof. pose proof (pr_len _ _ _ _ _ _ _ _ _ _ _ _ _ _ _ _ _ _ PR). unfold len. lia. Qed.

Lemma do_left o b0 b : traced b0 b -> mk / 2 < len (gkeys X) <= mk -> len (gkeys Y) = mk / 2 - 1 ->
  ends (_ <~ rotateFromLeft (gloc t) (len ks1 + 1) ;;
    _ <~ emitChild (gloc t) (len ks1 + 1 - 1) (str "mutation") [] (str "rotate from left: donor") ;;
    _ <~ emitChild (gloc t) (len ks1 + 1) (str "mutation") [] (str "rotate from left: receiver") ;;
    emitNode (gloc t) (str "mutation") [] (str "rotate from left: parent")) ((T, o), b) (done_with n b0) no_err.
Proof.
  intros Hb HX HY. pose proof PR as [S1 F Fr Hf Ln Hle KL WX WY KR He].
  destruct (rotateFromLeft_ok mk Hmk _ _ _ _ _ _ _ _ _ _ _ _ _ o b F Ln WX WY) as (K' & X' & Y' & T' & Hr & R & WX' & WY' & LX & LY); [lia|].
  pose proof (ro_forest _ _ _ _ _ _ _ _ _ _ _ _ _ _ R) as F'.
  eapply ends_run; [exact Hr|]. eapply ends_quiet; [eapply (quiet_emitChild _ _ _ _ cs1 X'); [exact F'|rewrite idx_cs1; lia]|].
  intros o1 b1 Hb1. eapply ends_quiet; [eapply (quiet_emitChild _ _ _ _ (cs1 ++ [X']) Y'); [rewrite <- app_assoc; exact F'|]|].
  { rewrite len_app, idx_cs1. done. }
  intros o2 b2 Hb2. eapply (ends_quiets _ _ tt _ _ (repaired n)); [by eapply quiet_emitParent| |do 2 (etrans; [eassumption|]); done].
  eexists. split; [eapply rotated_became; try done; split; lia|]. cbn [gkeys]. rewrite n_eq, len_app, len_cons. lia.
Qed.
Lemma do_right o b0 b : traced b0 b -> mk / 2 < len (gkeys Y) <= mk -> len (gkeys X) = mk / 2 - 1 ->
  ends (_ <~ rotateFromRight (gloc t) (len ks1) ;;
    _ <~ emitChild (gloc t) (len ks1 + 1) (str "mutation") [] (str "rotate from right: donor") ;;
    _ <~ emitChild (gloc t) (len ks1) (str "mutation") [] (str "rotate from right: receiver") ;;
    emitNode (gloc t) (str "mutation") [] (str "rotate from right: parent")) ((T, o), b) (done_with n b0) no_err.
Proof.
  intros Hb HY HX. pose proof PR as [S1 F Fr Hf Ln Hle KL WX WY KR He].
  destruct (rotateFromRight_ok mk Hmk _ _ _ _ _ _ _ _ _ _ _ _ _ o b F Ln WX WY) as (K' & X' & Y' & T' & Hr & R & WX' & WY' & LX & LY); [lia|].
  pose proof (ro_forest _ _ _ _ _ _ _ _ _ _ _ _ _ _ R) as F'.
  eapply ends_run; [exact Hr|]. eapply ends_quiet; [eapply (quiet_emitChild _ _ _ _ (cs1 ++ [X']) Y'); [rewrite <- app_assoc; exact F'|]|].
  { rewrite len_app, idx_cs1. done. }
  intros o1 b1 Hb1. eapply ends_quiet; [eapply (quiet_emitChild _ _ _ _ cs1 X'); [exact F'|by rewrite idx_cs1]|].
  intros o2 b2 Hb2. eapply (ends_quiets _ _ tt _ _ (repaired n)); [by eapply quiet_emitParent| |do 2 (etrans; [eassumption|]); done].
  eexists. split; [eapply rotated_became; try done; split; lia|]. cbn [gkeys]. rewrite n_eq, len_app, len_cons. lia.
Qed.
Lemma do_merge o b0 b i : traced b0 b -> i = len ks1 -> mk / 2 - 1 <= len (gkeys X) -> mk / 2 - 1 <= len (gkeys Y) ->
  len (gkeys X) + len (gkeys Y) = 2 * (mk / 2) - 1 ->
  ends (_ <~ mergeChildren (gloc t) i ;;
    _ <~ emitChild (gloc t) i (str "merge") [] (str "merged siblings") ;;
    emitNode (gloc t) (str "mutation") [] (str "remove merged child")) ((T, o), b) (done_with n b0) no_err.
Proof.
  intros Hb -> HX HY HXY. pose proof PR as [S1 F Fr Hf Ln Hle KL WX WY KR He].
  destruct (mergeChildren_ok mk _ _ _ _ _ _ _ _ _ _ _ _ _ o b F Ln WX WY) as (M & T' & Hr & R & WM & LM).
  pose proof (me_forest _ _ _ _ _ _ _ _ _ _ _ _ R) as F'. pose proof (half_pos mk Hmk).
  assert (2 * (mk / 2) <= mk) by (clear -Hmk; Z.to_euclidean_division_equations; lia).
  eapply ends_run; [exact Hr|]. eapply ends_quiet; [eapply (quiet_emitChild _ _ _ _ cs1 M); [exact F'|by rewrite idx_cs1]|].
  intros o1 b1 Hb1. eapply (ends_quiets _ _ tt _ _ (repaired n)); [by eapply quiet_emitParent| |etrans; [eassumption|]; done].
  eexists. split; [eapply merged_became; try done; split; lia|]. cbn [gkeys]. rewrite n_eq, len_app. lia.
Qed.
End Pairs.

Lemma nearly_left ks1 K ks2 cs1 L c cs2 a bb : nearly mk T0 h t nxt lo hi es T (ks1 ++ [K]) ks2 (cs1 ++ [L]) c cs2 a bb ->
  exists a', pairly mk T0 h t nxt lo hi es T ks1 K ks2 cs1 L c cs2 a' bb /\ filled mk L.
Proof.
  intros [S1 F Fr Ln KL W KR Hf He Hle]. rewrite !length_app in Ln. cbn in Ln. rewrite <- !app_assoc in *. cbn [app] in *.
  apply kidsL_snoc in KL as (a' & KL & [WL FL] & ->); [|lia]. exists a'. split; [|done]. split; try done; [lia|].
  rewrite ents_app, <- app_assoc in He. unfold ents at 2 in He. cbn in He. rewrite app_nil_r in He. by rewrite <- app_assoc.
Qed.
Lemma nearly_right ks1 K ks2 cs1 c R cs2 a bb : nearly mk T0 h t nxt lo hi es T ks1 (K :: ks2) cs1 c (R :: cs2) a bb ->
  exists b', pairly mk T0 h t nxt lo hi es T ks1 K ks2 cs1 c R cs2 a b' /\ filled mk R.
Proof.
  intros [S1 F Fr Ln KL W KR Hf He Hle]. apply kidsR_cons in KR as (-> & b' & [WR FR] & KR). exists b'. split; [|done]. split; try done.
  rewrite ents_cons in He. by rewrite <- app_assoc.
Qed.

(** The tests for a neighbour that can spare a key. *)
Lemma quiet_donor p i cs1 D cs2 ks : forest T (S h) [GNode p ks (cs1 ++ D :: cs2)] nxt -> i = len cs1 ->
  quiet (n <~ childLen p i ;; m <~ minKeys ;; ret (n >? m)) T (len (gkeys D) >? mk / 2).
Proof.
  intros F Hi. eapply quiet_bind; [by eapply quiet_pairLen|]. eapply quiet_bind; [by apply quiet_minKeys|]. apply quiet_ret.
Qed.

Lemma rebalance_left ks1 K ks2 cs1 L c cs2 a bb o b : nearly mk T0 h t nxt lo hi es T (ks1 ++ [K]) ks2 (cs1 ++ [L]) c cs2 a bb ->
  len (gkeys c) = mk / 2 - 1 ->
  ends (rebalanceChild (gloc t) (len (ks1 ++ [K]))) ((T, o), b) (done_with (len (ks1 ++ K :: ks2)) b) no_err.
Proof.
  intros N Hdef. destruct (nearly_left _ _ _ _ _ _ _ _ _ N) as (a' & PR & [FL1 FL2]). pose proof (half_pos mk Hmk) as Hhalf.
  pose proof (pr_forest _ _ _ _ _ _ _ _ _ _ _ _ _ _ _ _ _ _ PR) as F. pose proof F as (Hl & _)%node_forest.
  pose proof (idx_cs1 _ _ _ _ _ _ _ _ _ PR) as Hi. pose proof (len_nonneg ks1).
  rewrite len_app. change (len [K]) with 1. unfold rebalanceChild. zdecide.
  eapply ends_quiet; [eapply (quiet_donor _ _ cs1 L); [exact F|lia]|]. intros o1 b1 Hb1.
  destruct (len (gkeys L) >? mk / 2) eqn:E; zbool; [by eapply do_left|].
  eapply ends_quiet; [by apply quiet_deref|]. intros o2 b2 Hb2. cbn [n_children inner_of]. rewrite len_map, len_app, !len_cons, Hi.
  destruct cs2 as [|R cs2].
  - rewrite len_nil. zdecide. eapply ends_quiet; [apply quiet_ret|]. intros o3 b3 Hb3.
    eapply do_merge; try done; try lia. do 2 (etrans; [eassumption|]). done.
  - rewrite len_cons. pose proof (len_nonneg cs2). zdecide.
    pose proof (ne_right _ _ _ _ _ _ _ _ _ _ _ _ _ _ _ _ N) as KR. destruct ks2 as [|K2 ks2]; [by destruct KR|].
    destruct (nearly_right _ _ _ _ _ _ _ _ _ N) as (b' & PR2 & [FR1 FR2]).
    eapply ends_quiet; [eapply (quiet_donor _ _ (cs1 ++ [L; c]) R cs2); [rewrite <- app_assoc; exact F|rewrite len_app; unfold len in *; cbn; lia]|].
    intros o3 b3 Hb3. destruct (len (gkeys R) >? mk / 2) eqn:E2; zbool.
    + replace (len ks1 + 1) with (len (ks1 ++ [K])) by (rewrite len_app; done).
      replace (ks1 ++ K :: K2 :: ks2) with ((ks1 ++ [K]) ++ K2 :: ks2) by (by rewrite <- app_assoc).
      eapply do_right; try done. do 2 (etrans; [eassumption|]). done.
    + eapply do_merge; try done; try lia. do 2 (etrans; [eassumption|]). done.
Qed.
Lemma rebalance_first K ks2 c R cs2 a bb o b : nearly mk T0 h t nxt lo hi es T [] (K :: ks2) [] c (R :: cs2) a bb ->
  len (gkeys c) = mk / 2 - 1 ->
  ends (rebalanceChild (gloc t) 0) ((T, o), b) (done_with (len (K :: ks2)) b) no_err.
Proof.
  intros N Hdef. destruct (nearly_right _ _ _ _ _ _ _ _ _ N) as (b' & PR & [FR1 FR2]). pose proof (half_pos mk Hmk) as Hhalf.
  pose proof (pr_forest _ _ _ _ _ _ _ _ _ _ _ _ _ _ _ _ _ _ PR) as F. pose proof F as (Hl & _)%node_forest.
  unfold rebalanceChild. zdecide. eapply ends_quiet; [apply quiet_ret|]. intros o1 b1 Hb1.
  eapply ends_quiet; [by apply quiet_deref|]. intros o2 b2 Hb2. cbn [n_children inner_of app].
  pose proof (len_nonneg cs2). assert (E1 : len (map gloc (c :: R :: cs2)) = 2 + len cs2) by (rewrite len_map, !len_cons; lia).
  rewrite E1. zdecide.
  eapply ends_quiet; [eapply (quiet_donor _ _ [c] R cs2); [exact F|done]|]. intros o3 b3 Hb3.
  destruct (len (gkeys R) >? mk / 2) eqn:E2; zbool.
  - eapply (do_right [] K ks2 [] c R); try done. do 2 (etrans; [eassumption|]). done.
  - eapply (do_merge [] K ks2 [] c R); try done; try lia. do 2 (etrans; [eassumption|]). done.
Qed.
Lemma rebalance_ok ks1 ks2 cs1 c cs2 a bb o b : nearly mk T0 h t nxt lo hi es T ks1 ks2 cs1 c cs2 a bb ->
  len (gkeys c) = mk / 2 - 1 -> 1 <= len (ks1 ++ ks2) ->
  ends (rebalanceChild (gloc t) (len ks1)) ((T, o), b) (done_with (len (ks1 ++ ks2)) b) no_err.
Proof.
  intros N Hdef Hone. pose proof N as [_ _ _ Ln _ _ KR _ _ _].
  destruct (decide (ks1 = [])) as [->|Hn].
  - destruct cs1; [|done]. destruct ks2 as [|K ks2]; [unfold len in Hone; cbn in Hone; lia|].
    destruct cs2 as [|R cs2]; [apply kidsR_length in KR; done|]. by eapply rebalance_first.
  - destruct (snoc_of ks1) as (x & K & ->); [destruct ks1; [done|]; rewrite len_cons; pose proof (len_nonneg ks1); lia|].
    destruct (snoc_of cs1) as (z & L & ->); [unfold len; rewrite <- Ln, length_app; cbn; lia|].
    rewrite <- (app_assoc x). by eapply rebalance_left.
Qed.
End Cases.

(** ** The recursion *)

Lemma refresh_ok mk T0 h t nxt lo hi es T ks1 ks2 cs1 c cs2 a b fuel key o b0 : 2 <= mk -> (h < fuel)%nat ->
  nearly mk T0 h t nxt lo hi es T ks1 ks2 cs1 c cs2 a b ->
  ends (if (len ks1 >? 0) && (len (gkeys c) >? 0) then
          n <~ deref (gloc t) ;;
          ch <! index (n_children n) (len ks1) ;;
          m <~ minimumKey fuel ch ;;
          keys <! put (n_keys n) (len ks1 - 1) [m] ;;
          _ <~ write (gloc t) (with_children n keys (n_children n)) ;;
          emitNode (gloc t) (str "mutation") key (str "refresh separator")
        else ret tt) ((T, o), b0)
    (fun _ st => exists ks1' a', nearly mk T0 h t nxt lo hi es st.1.1 ks1' ks2 cs1 c cs2 a' b /\
       length ks1' = length ks1 /\ traced b0 st.2) no_err.
Proof.
  intros Hmk Hf N. destruct (_ && _) eqn:E; [|cbn; by exists ks1, a]. zbool. pose proof N as [_ F _ Ln KL W _ _ _ _].
  destruct (snoc_of ks1) as (x & K & ->); [lia|]. destruct (snoc_of cs1) as (z & L & ->); [unfold len; rewrite <- Ln, length_app; cbn; lia|].
  pose proof F as (Hl & [C _ _] & _ & _)%node_forest. apply chain_mid in C as (_ & Sc & _).
  destruct (minimumKey_ok mk T Hmk h fuel c _ a b Sc W ltac:(lia) Hf) as (m & v & es' & Eg & Wm & Hm & Q).
  rewrite !length_app in Ln. cbn in Ln.
  eapply ends_quiet; [by apply quiet_deref|]. intros o1 b1 Hb1. cbn [n_children n_keys inner_of].
  eapply ends_lift; [apply gloc_at; rewrite !length_app; cbn; lia|]. eapply ends_quiet; [exact Q|]. intros o2 b2 Hb2.
  eapply ends_lift; [eapply (put_at _ x K ks2); [by rewrite <- app_assoc|rewrite len_app; unfold len; cbn; lia]|].
  eapply ends_run; [apply run_write|].
  pose proof (nearly_refresh mk T0 h t nxt lo hi es T x K ks2 z L c cs2 a b m N Wm Hm ltac:(lia)) as N'.
  replace (setn (gloc t) (with_children _ _ _) T) with (setn (gloc t) (inner_of ((x ++ [m]) ++ ks2) ((z ++ [L]) ++ c :: cs2)) T)
    by (unfold with_children, inner_of; cbn; by rewrite <- (app_assoc x)).
  pose proof N' as [_ F' _ _ _ _ _ _ _ _]. eapply ends_mono; [eapply quiet_emitParent; exact F'| |done]. cbn beta.
  intros _ st (_ & -> & Hb3). exists (x ++ [m]), m. split_and!; [done|by rewrite !length_app|]. do 2 (etrans; [eassumption|]). done.
Qed.

(** What a deletion from the subtree [t] leaves: nothing changed, or a tree that
    may have one key less. *)
Definition removed (mk : Z) (T : tree) (h : nat) (t : gtree) (nxt : option nat) (lo : bytes) (hi : option bytes) (key : bytes)
    (r : bool) (T' : tree) : Prop :=
  if r then is_Some (kv_get key (gents t)) /\ exists t',
    became mk T h t nxt lo hi (kv_del key (gents t)) T' t' /\ len (gkeys t) - 1 <= len (gkeys t') <= len (gkeys t)
  else kv_get key (gents t) = None /\ T' = T.

Lemma ranged_sub lo hi a x b : ranged lo hi (a ++ x :: b) -> ranged lo hi (a ++ b).
Proof.
  intros [Hs Hf]. apply kv_sorted_app in Hs as (S1 & S2 & S3). apply kv_sorted_cons in S2 as [S2 _].
  apply Forall_app in Hf as [F1 F2]. apply Forall_cons in F2 as [_ F2]. split.
  - apply kv_sorted_app. split_and!; try done. intros p q Hp Hq. apply S3; [done|by right].
  - by apply Forall_app.
Qed.

Lemma delete_leaf mk l es nxt lo hi key fuel T o b : (0 < fuel)%nat -> forest T 0 [GLeaf l es] nxt -> hle lo hi -> ranged lo hi es ->
  ends (deleteFromNode fuel l key) ((T, o), b)
    (fun r st => removed mk T 0 (GLeaf l es) nxt lo hi key r st.1.1 /\ traced b st.2) no_err.
Proof.
  intros Hf (St & _ & Fr)%forest_one Hle R. cbn in St. apply Forall_cons in Fr as [Fr _]. destruct fuel as [|fuel]; [lia|].
  cbn [deleteFromNode]. eapply ends_quiet; [by eapply quiet_emit|]. intros o1 b1 Hb1.
  eapply ends_quiet; [by apply quiet_deref|]. intros o2 b2 Hb2. cbn [n_leaf leaf_of]. unfold removed. cbn [gents].
  destruct (kv_cutP key es (proj1 R)) as [x v y Hx Hy|x y Hx Hy].
  - eapply ends_quiet; [by eapply leaf_search_at|]. intros o3 b3 Hb3. cbn iota.
    eapply ends_quiet; [by apply quiet_deref|]. intros o4 b4 Hb4. cbn [n_keys n_values leaf_of].
    eapply ends_lift; [apply (delete_at_at _ (map fst x) key (map fst y)); [by rewrite map_app|by rewrite len_map]|].
    eapply ends_lift; [apply (delete_at_at _ (map snd x) v (map snd y)); [by rewrite map_app|by rewrite len_map]|].
    eapply ends_run; [apply run_write|]. rewrite <- !map_app. eapply ends_quiet; [eapply quiet_emit; apply lookup_insert_eq|].
    intros o5 b5 Hb5. cbn. split; [|do 4 (etrans; [eassumption|]); done]. rewrite kv_get_at, kv_del_at by done. split; [by eexists|].
    exists (GLeaf l (x ++ y)). split; [|rewrite leaf_gkeys, !len_map, !len_app, len_cons; lia].
    split; try done.
    + apply step_set. by left.
    + apply forest_one. cbn. rewrite lookup_insert_eq. split_and!; [done|apply NoDup_singleton|by constructor].
    + rewrite locs_one. apply from_refl.
    + split; [done|by eapply ranged_sub].
  - eapply ends_quiet; [by eapply leaf_search_gap|]. intros o3 b3 Hb3. cbn. rewrite kv_get_gap by done.
    split_and!; try done. do 2 (etrans; [eassumption|]). done.
Qed.

Lemma del_around key a c b : below key a -> above key b -> kv_del key (a ++ c ++ b) = a ++ kv_del key c ++ b.
Proof. intros Ha Hb. by rewrite !kv_del_app, (kv_del_below _ a), (kv_del_above _ b). Qed.

(** The child [c] became [c'], which may lack a key. *)
Lemma nearly_child mk T h l ks1 ks2 cs1 c cs2 nxt lo hi a b : let t := GNode l (ks1 ++ ks2) (cs1 ++ c :: cs2) in
  forest T (S h) [t] nxt -> length ks1 = length cs1 ->
  kidsL (wfk mk h) lo a ks1 cs1 -> kidsR (wfk mk h) b hi ks2 cs2 -> hle lo hi ->
  forall T1 c' es, became mk T h c (first_of cs2 nxt) a b es T1 c' ->
  nearly mk T h t nxt lo hi (ents cs1 ++ es ++ ents cs2) T1 ks1 ks2 cs1 c' cs2 a b.
Proof.
  intros t F Hlen KL KR Hle T1 c' es [St F' Hfrom Hloc Hfirst Wc' He].
  destruct (inner_graft T h l ks1 ks2 cs1 c cs2 nxt F Hlen T1 [c'] St F' Hfrom ltac:(cbn; by rewrite Hfirst)) as (Hl1 & Fg & Hn1 & Hf1 & Hfr1).
  cbn [app] in *. split; try done.
  - eapply step_mono; [exact St|]. intros x. by apply child_locs.
  - apply node_forest. split_and!; try done. cbn [gloc t]. rewrite Hl1. unfold inner_of. rewrite !map_at. by rewrite Hloc.
  - by rewrite locs_one.
  - by apply gfirst_mid.
  - by rewrite He.
Qed.

Lemma deleteFromNode_ok mk key : 2 <= mk -> forall h fuel T t nxt lo hi o b,
  t_maxKeys T = mk -> forest T h [t] nxt -> wf mk h lo hi t -> 1 <= len (gkeys t) -> ble lo key -> hlt key hi -> (h < fuel)%nat ->
  ends (deleteFromNode fuel (gloc t) key) ((T, o), b)
    (fun r st => removed mk T h t nxt lo hi key r st.1.1 /\ traced b st.2) no_err.
Proof.
  intros Hmk. induction h as [|h IH]; intros fuel T [l es|l ks cs] nxt lo hi o b HT F [Hle W] Hks Hlo Hhi Hf; try done.
  { by apply delete_leaf. }
  destruct fuel as [|fuel]; [lia|]. pose proof F as (Hl & Fc & Hnl & Hfr)%node_forest.
  destruct (kids_find _ (wfk_ok mk h) key ks lo hi cs W Hlo Hhi)
    as (ks1 & ks2 & cs1 & c & cs2 & a & bb & -> & -> & Hlen & F1 & F2 & KL & [Wc [Fi1 Fi2]] & KR & Ha & Hb).
  destruct (kids_around _ _ _ _ _ _ _ _ _ _ _ KL KR Ha Hb) as [B1 B2]. pose proof (half_pos mk Hmk) as Hhalf.
  assert (Eg : kv_get key (ents (cs1 ++ c :: cs2)) = kv_get key (gents c)).
  { by rewrite ents_app, ents_cons, kv_get_below, kv_get_app_above. }
  assert (Ed : kv_del key (ents (cs1 ++ c :: cs2)) = ents cs1 ++ kv_del key (gents c) ++ ents cs2).
  { rewrite ents_app, ents_cons. by apply del_around. }
  unfold removed. cbn [gents]. fold (ents (cs1 ++ c :: cs2)). rewrite Eg, Ed. clear Eg Ed.
  cbn [deleteFromNode gloc gkeys] in *.
  eapply ends_quiet; [by eapply quiet_emit|]. intros o1 b1 Hb1.
  eapply ends_quiet; [by apply quiet_deref|]. intros o2 b2 Hb2. cbn [n_leaf inner_of n_children].
  eapply ends_quiet; [by eapply tree_childIndex_ok|]. intros o3 b3 Hb3.
  eapply ends_lift; [by apply gloc_at|]. apply forest_app in Fc as Fc'. destruct Fc' as [_ Fc'].
  apply (forest_app T h [c] cs2) in Fc' as [Fcc _].
  eapply ends_step; [apply (IH fuel T c _ a bb o3 b3 HT Fcc Wc); [lia|done|done|lia]|].
  intros r [[T1 o4] b4] [G Hb4]. cbn [fst snd] in *. assert (Tr : traced b b4) by (do 3 (etrans; [eassumption|]); done).
  destruct r; [|cbn; destruct G as [? ->]; done].
  destruct G as [Hsome (c' & Be & Hc')]. set (t := GNode l (ks1 ++ ks2) (cs1 ++ c :: cs2)).
  pose proof (nearly_child mk T h l ks1 ks2 cs1 c cs2 nxt lo hi a bb F Hlen KL KR Hle T1 c' _ Be) as N.
  assert (Hcs : len cs1 = len ks1) by (unfold len; lia).
  pose proof N as [_ Fn _ _ _ _ _ _ _ _]. change l with (gloc t).
  eapply ends_quiet; [eapply (quiet_pairLen _ _ _ _ cs1 c'); [exact Fn|done]|]. intros o5 b5 Hb5.
  eapply ends_step; [eapply refresh_ok; [done| |exact N]; lia|].
  intros [] [[T2 o6] b6] (ks1' & a' & N2 & Hk' & Hb6). cbn [fst snd] in *.
  assert (El : len ks1 = len ks1') by (unfold len; lia). pose proof N2 as [Sn F2' _ _ _ _ _ _ _ _].
  assert (HT2 : t_maxKeys T2 = mk) by (by rewrite (sp_max _ _ _ Sn)).
  eapply ends_quiet; [eapply (quiet_pairLen _ _ _ _ cs1 c'); [exact F2'|done]|]. intros o7 b7 Hb7.
  eapply ends_quiet; [by apply quiet_minKeys|]. intros o8 b8 Hb8.
  assert (Tr8 : traced b b8) by (do 4 (etrans; [eassumption|]); done).
  assert (Eks : len (ks1 ++ ks2) = len (ks1' ++ ks2)) by (rewrite !len_app; lia).
  destruct (len (gkeys c') <? mk / 2) eqn:Esmall; zbool.
  - rewrite El. eapply ends_step; [eapply rebalance_ok; [done|done|exact N2|lia|lia]|].
    intros [] [[T3 o9] b9] [(t' & Be3 & Hl3) Hb9]. cbn in *. split; [|by etrans]. split; [done|]. exists t'. split; [done|lia].
  - cbn. split; [|done]. split; [done|]. eexists. split; [eapply nearly_became; [exact N2|split; lia]|]. cbn [gkeys]. lia.
Qed.

(** ** The whole tree *)

Lemma tree_delete_ok key T es o b : mem_rep T es ->
  ends (tree_delete key) ((T, o), b)
    (fun d st => d = bool_decide (is_Some (kv_get key es)) /\ mem_rep st.1.1 (kv_del key es) /\ traced b st.2) no_err.
Proof.
  intros [Hmax H]. unfold tree_delete. eapply ends_quiet; [by apply (quiet_look _ T (t_root T))|]. intros o1 b1 Hb1.
  destruct (t_root T) as [r|] eqn:Er; [|subst es; cbn; split_and!; try done; split; [done|by rewrite Er]].
  destruct H as (h & t & Hloc & F & W & Hk & <-). set (mk := t_maxKeys T) in *. assert (Hmk : 2 <= mk) by (unfold mk in *; lia).
  destruct (forest_fuel _ _ _ _ _ _ _ F W) as [Hh _].
  eapply ends_quiet; [by apply (quiet_look _ T (S (t_fresh T)))|]. intros o3 b3 Hb3. rewrite <- Hloc.
  eapply ends_step; [apply (deleteFromNode_ok mk key Hmk h _ T t None [] None); try done; [lia|apply ble_nil|lia]|].
  intros d [[T2 o4] b4] [G Hb4]. cbn [fst snd] in *. assert (Tr : traced b b4) by (do 2 (etrans; [eassumption|]); done).
  destruct d; [|destruct G as [G ->]; cbn; rewrite G; split_and!; try done; rewrite kv_del_absent by done].
  2:{ split; [done|]. rewrite Er. exists h, t. done. }
  destruct G as [Hs (t' & [St F' Hfrom Hl Hfirst W' He] & Hlen)]. rewrite bool_decide_eq_true_2 by done.
  pose proof F' as (S' & N' & Fr')%forest_one. destruct (stored_at _ _ _ _ S') as (n & Hn & Hnk). rewrite Hl in Hn.
  pose proof (sp_max _ _ _ St) as HM. pose proof (sp_root _ _ _ St) as HR. fold mk in HM.
  eapply ends_quiet; [by apply quiet_deref|]. intros o5 b5 Hb5. rewrite Hnk.
  destruct (len (gkeys t') =? 0) eqn:E0; zbool.
  2:{ cbn. split_and!; [done| |by etrans]. split; [right; lia|]. rewrite HR, Er, HM. exists h, t'. split_and!; try done; [by rewrite Hl|lia|lia]. }
  eapply ends_quiet; [by eapply quiet_emit|]. intros o6 b6 Hb6. assert (Tr6 : traced b b6) by (do 2 (etrans; [eassumption|]); done).
  destruct h as [|h]; destruct t' as [l es|l ks cs]; try done; cbn [stored gloc] in *; rewrite <- Hl in Hn.
  - rewrite S' in Hn. injection Hn as <-. cbn. split_and!; try done. split; cbn; [right; lia|].
    rewrite <- He. cbn in *. rewrite len_map in E0. by apply len_0.
  - destruct S' as [S' C']. rewrite S' in Hn. injection Hn as <-. cbn [n_leaf inner_of n_children].
    cbn in E0. apply len_0 in E0 as ->. destruct W' as [_ W']. destruct cs as [|c [|]]; try done. destruct W' as [Wc [Fi1 Fi2]].
    eapply ends_lift; [by eapply (index_at _ [])|]. cbn. split_and!; try done. split; cbn; [right; lia|]. rewrite HM. exists h, c.
    pose proof (half_pos mk Hmk). apply node_forest in F' as (_ & Fc & _). split_and!; try done; try lia.
    + by eapply forest_same; [..|exact Fc].
    + rewrite <- He. cbn. by rewrite app_nil_r.
Qed.
