(* ===== verification/MemResults.v ===== *)
(** * What the in-memory B+Tree guarantees

    [mem_rep T es], the invariant of the tree, says that its root reaches a
    balanced tree whose nodes other than the root are filled between half and
    [maxKeys], whose separators order the keys, whose leaves are chained from
    left to right, and whose entries are [es]. Every operation of the adapter
    keeps it and answers from [es]: the tree is an instance of
    [StructureSpec]. *)

From S2P Require Import Prelude KvList Errors Engine Trace Slices Structures MemTree MemTreeSpec MemScanSpec MemInsertSpec MemDeleteSpec MemRebalanceSpec.

Lemma new_rep : mem_rep NewMemory.1 [].
Proof. split; [by left|done]. Qed.

Lemma tree_get_ok key T es : mem_rep T es -> quiet (tree_get key) T (kv_get key es).
Proof.
  intros [_ H]. unfold tree_get. eapply quiet_bind; [by apply (quiet_look _ T (t_root T))|].
  destruct (t_root T) as [r|] eqn:Er; [|subst es; apply quiet_ret].
  destruct H as (h & t & <- & F & W & _ & <-). destruct (forest_fuel _ _ _ _ _ _ _ F W) as [Hh _].
  eapply quiet_bind; [by apply (quiet_look _ T (S (t_fresh T)))|]. apply forest_one in F as (St & _).
  eapply getLoop_ok; [done|done|apply ble_nil|done|lia].
Qed.
Lemma Memory_Range_ok lo hi T es : mem_rep T es -> quiet (Memory_Range lo hi) T (kv_range lo hi es).
Proof.
  intros [_ H]. destruct (t_root T) as [r|] eqn:Er.
  - destruct H as (h & t & <- & F & W & _ & <-). by eapply range_ok.
  - subst es. unfold Memory_Range. eapply quiet_bind; [by apply (quiet_look _ T (t_root T))|]. rewrite Er. apply quiet_ret.
Qed.

#[global] Program Instance Memory_spec : StructureSpec MemoryKV := {|
  has m l := mem_rep m.1 l;
  able m l := mem_rep m.1 l;
  set_fails _ _ := False;
  delete_fails _ := False;
  takes_key _ := True;
  takes_bound _ := True;
|}.
Next Obligation. intros m l. apply rep_sorted. Qed.
Next Obligation. done. Qed.
Next Obligation. done. Qed.
Next Obligation.
  intros [T o] b l k H _. eapply ends_mono; [by apply (tree_get_ok k T l)| |done]. cbn. by intros v st (-> & -> & Hb).
Qed.
Next Obligation.
  intros [T o] b l lo hi H _ _. eapply ends_mono; [by apply (Memory_Range_ok lo hi T l)| |done]. cbn. by intros v st (-> & -> & Hb).
Qed.
Next Obligation. intros [T o] b l k v H. eapply ends_mono; [by apply (tree_set_ok k v T l)| |done]. done. Qed.
Next Obligation. intros [T o] b l k H. eapply ends_mono; [by apply (tree_delete_ok k T l)| |done]. done. Qed.

(** ** Height *)

(** [kids] gives every child its property, with some bounds. *)
Lemma kids_all {P : bytes -> option bytes -> gtree -> Prop} {lo hi ks cs} : kids P lo hi ks cs ->
  Forall (fun c => exists a b, P a b c) cs.
Proof.
  revert lo cs. induction ks as [|k ks IH]; intros lo [|c cs]; cbn; try done.
  - destruct cs; [|done]. intros H. constructor; [eauto|constructor].
  - intros [Hc H]. constructor; [eauto|by eapply IH].
Qed.
Lemma concat_len {A B} (f : A -> list B) (l : list A) m : Forall (fun x => m <= len (f x)) l -> len l * m <= len (concat (map f l)).
Proof. induction 1 as [|x l H _ IH]; [unfold len; cbn; lia|]. cbn. rewrite len_app, len_cons. lia. Qed.
Lemma wf_height mk h : forall lo hi t, 2 <= mk -> wf mk h lo hi t -> 1 <= len (gkeys t) -> 2 ^ Z.of_nat h <= len (gents t).
Proof.
  induction h as [|h IH]; intros lo hi [l es|l ks cs] Hmk [_ W] Hk; try done; cbn [gkeys gents] in *.
  - unfold len in *. rewrite length_map in Hk. lia.
  - assert (C : Forall (fun c => 2 ^ Z.of_nat h <= len (gents c)) cs).
    { eapply Forall_impl; [exact (kids_all W)|]. intros c (a & b & Wc & [Hc _]). eapply IH; [done|exact Wc|].
      pose proof (Z.div_le_mono 2 mk 2). change (2 / 2) with 1 in *. lia. }
    apply concat_len in C. pose proof (kids_length _ _ _ _ _ W) as Hl. rewrite Nat2Z.inj_succ, Z.pow_succ_r by lia.
    assert (2 <= len cs) by (unfold len in *; lia). nia.
Qed.

(** ** The guarantees *)

(** C8: on a tree that satisfies its invariant and holds the entries [es], the
    operations of the in-memory B+Tree neither fail, panic nor diverge. [Get] and
    [Range] answer from [es] and leave the tree as it is. [Set] and [Delete],
    with all their splits, rotations and merges, keep the invariant and hold the
    changed entries afterwards; [Delete] tells whether the key was there. None
    does anything to the recorder but emit events. *)
Theorem Memory_refines T es o b key value lo hi : mem_rep T es ->
  ends (Memory_Get key) ((T, o), b) (fun v st => v = kv_get key es /\ st.1.1 = T /\ traced b st.2) no_err /\
  ends (Memory_Range lo hi) ((T, o), b) (fun l st => l = kv_range lo hi es /\ st.1.1 = T /\ traced b st.2) no_err /\
  ends (Memory_Set key value) ((T, o), b) (fun _ st => mem_rep st.1.1 (kv_set key value es) /\ traced b st.2) no_err /\
  ends (Memory_Delete key) ((T, o), b)
    (fun d st => d = bool_decide (is_Some (kv_get key es)) /\ mem_rep st.1.1 (kv_del key es) /\ traced b st.2) no_err.
Proof.
  intros H. split_and!; [by apply tree_get_ok|by apply Memory_Range_ok|by apply tree_set_ok|by apply tree_delete_ok].
Qed.

(** C21: the in-memory B+Tree is balanced: with [n] entries every search descends
    through at most [1 + log2 n] nodes, whatever the key. *)
Theorem Memory_height T es r : mem_rep T es -> t_root T = Some r ->
  exists h, 2 ^ Z.of_nat h <= len es /\
    forall key o b, ends (getLoop (S h) r key) ((T, o), b) (fun v st => v = kv_get key es /\ st.1.1 = T /\ traced b st.2) no_err.
Proof.
  intros [Hm H] Er. rewrite Er in H. destruct H as (h & t & <- & F & W & Hk & <-). exists h. split.
  - eapply wf_height; [|exact W|]; lia.
  - intros key o b. apply forest_one in F as (St & _). eapply getLoop_ok; [exact St|exact W|apply ble_nil|done|lia].
Qed.
