(* ===== verification/Experiment.v ===== *)
(** * Experiments (src/internal/experiment, src/internal/metrics)

    Requests and their validation, the sample data, the execution of one
    operation and of a whole run over any structure, with or without a cache,
    and the basic runner over a Go map.

    The context is the number of coming checks [ctx.Err()] that still find it
    alive, [None] when it is never cancelled. The hash function of the sample
    data is a parameter. Durations and allocation counts are left out of the
    results. *)

From Stdlib Require Import Strings.String.
From S2P Require Import Prelude KvList Errors Engine Database Trace Slices Structures Cache MemTree SqlPrint.

(** ** Operations, structures and the complexity catalog *)

Module Metrics.
Definition OpSet : bytes := str "set".
Definition OpGet : bytes := str "get".
Definition OpDelete : bytes := str "delete".
Definition OpRange : bytes := str "range".
Definition KindMap : bytes := str "map".
Definition KindSortedSlice : bytes := str "sorted-slice".
Definition KindBTreeMemory : bytes := str "btree-memory".
Definition KindBTreeDurable : bytes := str "btree-durable".
End Metrics.

Record Complexity := mkComplexity { cx_Best : bytes; cx_Average : bytes; cx_Worst : bytes; cx_Memory : bytes; cx_Assumptions : bytes }.
Record Metadata := mkMetadata { md_Structure : bytes; md_Operation : bytes; md_Complexity : Complexity }.
Definition cx (best average worst memory assumptions : String.string) : Complexity :=
  mkComplexity (str best) (str average) (str worst) (str memory) (str assumptions).
Definition mapCatalog : list (bytes * Complexity) :=
  let hashing := "Hashing is expected constant time; n is the number of entries."%string in
  [(Metrics.OpSet, cx "O(1)" "O(1)" "O(n)" "O(n)" hashing);
   (Metrics.OpGet, cx "O(1)" "O(1)" "O(n)" "O(n)" hashing);
   (Metrics.OpDelete, cx "O(1)" "O(1)" "O(n)" "O(n)" hashing);
   (Metrics.OpRange, cx "O(n)" "O(n)" "O(n)" "O(n + k)" "The reference map scans and sorts keys; k is the number of returned entries.")].
Definition sortedSliceCatalog : list (bytes * Complexity) :=
  [(Metrics.OpSet, cx "O(1)" "O(n)" "O(n)" "O(n)" "Lookup is binary search, but inserting into the sorted slice shifts entries.");
   (Metrics.OpGet, cx "O(1)" "O(log n)" "O(log n)" "O(n)" "");
   (Metrics.OpDelete, cx "O(1)" "O(n)" "O(n)" "O(n)" "Removing an entry shifts later entries.");
   (Metrics.OpRange, cx "O(log n + k)" "O(log n + k)" "O(n)" "O(n + k)" "k is the number of returned entries; a full-range result is O(n).")].
Definition btreeMemoryCatalog : list (bytes * Complexity) :=
  [(Metrics.OpSet, cx "O(log n)" "O(log n)" "O(log n)" "O(n)" "The tree remains balanced and node work is bounded.");
   (Metrics.OpGet, cx "O(1)" "O(log n)" "O(log n)" "O(n)" "");
   (Metrics.OpDelete, cx "O(log n)" "O(log n)" "O(log n)" "O(n)" "Rebalancing work is bounded per tree level.");
   (Metrics.OpRange, cx "O(log n + k)" "O(log n + k)" "O(log n + k)" "O(n + k)" "k is the number of returned entries and leaves are ordered.")].
Definition btreeDurableCatalog : list (bytes * Complexity) :=
  [(Metrics.OpSet, cx "O(log_B n)" "O(log_B n)" "O(log_B n)" "O(n)" "B is the page fanout; excludes variable fsync latency.");
   (Metrics.OpGet, cx "O(1)" "O(log_B n)" "O(log_B n)" "O(n)" "A cached root can make the first step O(1); disk I/O latency is measured separately.");
   (Metrics.OpDelete, cx "O(log_B n)" "O(log_B n)" "O(log_B n)" "O(n)" "Includes copy-on-write path replacement and bounded rebalancing.");
   (Metrics.OpRange, cx "O(log_B n + k)" "O(log_B n + k)" "O(log_B n + k)" "O(n + k)" "k is the number of returned entries; page reads and synchronization are measured separately.")].
(** A Go map literal, by its entries. *)
Definition DefaultCatalog : list (bytes * list (bytes * Complexity)) :=
  [(Metrics.KindMap, mapCatalog); (Metrics.KindSortedSlice, sortedSliceCatalog);
   (Metrics.KindBTreeMemory, btreeMemoryCatalog); (Metrics.KindBTreeDurable, btreeDurableCatalog)].
Definition assoc {A} (k : bytes) (l : list (bytes * A)) : option A :=
  snd <$> List.find (fun p => beqb p.1 k) l.
Definition catalog_Lookup (structure operation : bytes) : option Metadata :=
  match assoc structure DefaultCatalog with
  | None => None
  | Some operations => mkMetadata structure operation <$> assoc operation operations
  end.
(** The loop of [Run] that collects the metadata of the four operations. *)
Definition complexities (lookup : bytes -> bytes -> option Metadata) (structure : bytes) : list Metadata :=
  omap (lookup structure) [Metrics.OpSet; Metrics.OpGet; Metrics.OpDelete; Metrics.OpRange].

Record Operation := mkOperation { op_Name : bytes; op_Key : bytes; op_Value : bytes; op_Start : bytes; op_End : bytes }.
Record CacheConfig := mkCacheConfig { cc_Capacity : Z; cc_Policy : bytes }.
Record ExperimentRequest := mkRequest {
  rq_Version : Z;
  rq_Cache : option CacheConfig;
  rq_Structure : bytes;
  rq_Operations : list Operation;
  rq_DatasetSize : Z;
  rq_Seed : Z;
  rq_Trace : bool;
}.
(** [Record]: a key with its value. *)
Definition DataRecord : Type := kv.
(** The field [Error], which no code sets, is left out. *)
Record OperationResult := mkResult {
  or_Operation : bytes;
  or_Key : bytes;
  or_Status : bytes;
  or_Entries : list DataRecord;
  or_Truncated : bool;
  or_Found : bool;
  or_Value : bytes;
  or_Count : Z;
}.
Record ExperimentResult := mkExperiment {
  er_TraceTruncated : bool;
  er_Cache : option CacheStats;
  er_Request : ExperimentRequest;
  er_Dataset : list DataRecord;
  er_DatasetTruncated : bool;
  er_Structure : bytes;
  er_Results : list OperationResult;
  er_Complexity : list Metadata;
  er_Trace : list Event;
}.

Inductive run_error : Type :=
| EUnsupportedVersion
| EUnsupportedCache
| EWorkloadLimit
| EDurableDatasetLimit
| EEntryLimit
| EKeyRequired
| EReversedRange
| EUnsupportedOperation
| EUnsupportedStructure (kind : bytes)
| EInvalidCacheConfiguration
| EContext
| EStructure (e : engine_error).

(** ** Validation *)

Definition validOperation (op : Operation) : outcome run_error unit :=
  fail_if (len (op_Key op) >? 256) || (len (op_Value op) >? 1024) || (len (op_Start op) >? 256) || (len (op_End op) >? 256)
    with EEntryLimit ;;
  if beqb (op_Name op) Metrics.OpGet || beqb (op_Name op) Metrics.OpSet || beqb (op_Name op) Metrics.OpDelete then
    fail_if beqb (op_Key op) [] with EKeyRequired ;; Ok tt
  else if beqb (op_Name op) Metrics.OpRange then
    fail_if bltb (op_End op) (op_Start op) with EReversedRange ;; Ok tt
  else Err EUnsupportedOperation.
Fixpoint validOperations (ops : list Operation) : outcome run_error unit :=
  match ops with [] => Ok tt | op :: ops => _ <- validOperation op ;; validOperations ops end.
Definition Validate (req : ExperimentRequest) : outcome run_error unit :=
  fail_if negb (rq_Version req =? 0) && negb (rq_Version req =? 1) with EUnsupportedVersion ;;
  fail_if match rq_Cache req with
          | Some c => (cc_Capacity c <? 1) || (cc_Capacity c >? 256) || negb (beqb (cc_Policy c) (str "lru"))
          | None => false
          end with EUnsupportedCache ;;
  fail_if (rq_DatasetSize req <? 0) || (rq_DatasetSize req >? 5000) || (rq_Seed req <? 0) || (len (rq_Operations req) >? 128)
    with EWorkloadLimit ;;
  fail_if beqb (rq_Structure req) Metrics.KindBTreeDurable && (rq_DatasetSize req >? 1000) with EDurableDatasetLimit ;;
  validOperations (rq_Operations req).

(** ** Sample data (dataset.go) *)

Definition PreviewLimit : Z := 64.
(** [%06d] of a number that is not negative. *)
Definition pad6 (z : Z) : bytes := let d := print_int z in replicate (6 - length d) (Zb 48) ++ d.
Definition hexDigit (z : Z) : byte := if z <? 10 then Zb (48 + z) else Zb (87 + z).
(** [%x] of a byte string. *)
Definition hex (bs : bytes) : bytes := concat (map (fun b => [hexDigit (bZ b / 16); hexDigit (bZ b mod 16)]) bs).

Section Runs.
(** [sha256.Sum256]. *)
Context (sha256 : bytes -> bytes).

Definition SampleRecord (seed index : Z) : DataRecord :=
  let digest := sha256 (print_int seed ++ str ":" ++ print_int index) in
  (str "key-" ++ pad6 index, str "record-" ++ hex (take 6 digest)).

(** ** One operation *)

Definition from_structure {S A} (m : SM S A) : stM (S * Bounded) run_error A := fun s =>
  let '(r, s') := m s in (map_err EStructure r, s').

Definition execute {S} (store : Structure S) (op : Operation) : stM (S * Bounded) run_error OperationResult :=
  let out status entries truncated found value count :=
    mkResult (op_Name op) (op_Key op) status entries truncated found value count in
  if beqb (op_Name op) Metrics.OpSet then
    _ <~ from_structure (s_Set store (op_Key op) (op_Value op)) ;;
    ret (out (str "stored") [] false false (op_Value op) 0)
  else if beqb (op_Name op) Metrics.OpGet then
    v <~ from_structure (s_Get store (op_Key op)) ;;
    match v with
    | Some v => ret (out (str "found") [] false true v 0)
    | None => ret (out (str "not_found") [] false false [] 0)
    end
  else if beqb (op_Name op) Metrics.OpDelete then
    ok <~ from_structure (s_Delete store (op_Key op)) ;;
    ret (out (if (ok : bool) then str "deleted" else str "not_found") [] false ok [] 0)
  else if beqb (op_Name op) Metrics.OpRange then
    entries <~ from_structure (s_Range store (op_Start op) (op_End op)) ;;
    ret (out (if len entries =? 0 then str "empty" else str "matched")
      (take (Z.to_nat PreviewLimit) entries) (len entries >? PreviewLimit) false [] (len entries))
  else throw EUnsupportedOperation.

(** ** A run *)

Definition ctx := option nat.
(** [ctx.Err()]. *)
Definition ctx_Err (c : ctx) : outcome run_error ctx :=
  match c with None => Ok None | Some O => Err EContext | Some (S n) => Ok (Some n) end.

(** The setup loop from index [i] on, [n] records to go. *)
Fixpoint setup {S} (store : Structure S) (seed : Z) (n : nat) (i : Z) (c : ctx) (preview : list DataRecord) :
    stM (S * Bounded) run_error (ctx * list DataRecord) :=
  match n with
  | O => ret (c, preview)
  | Datatypes.S n =>
      c <! ctx_Err c ;;
      let record := SampleRecord seed i in
      let preview := if i <? PreviewLimit then preview ++ [record] else preview in
      _ <~ from_structure (s_Set store record.1 record.2) ;;
      setup store seed n (i + 1) c preview
  end.

(** The loop over the operations. *)
Fixpoint operations {S} (store : Structure S) (kind : bytes) (index : Z) (ops : list Operation) (c : ctx) (results : list OperationResult) :
    stM (S * Bounded) run_error (list OperationResult) :=
  match ops with
  | [] => ret results
  | op :: ops =>
      _ <~ tell (fun _ b => Bounded_select index (op_Name op) b) ;;
      _ <~ tell (fun _ => Bounded_Emit (mkEvent 0 (str "request") [] [] 0 Ev.OperationSelected [] kind (op_Key op) 0 0 (str "Start operation"))) ;;
      c <! ctx_Err c ;;
      item <~ execute store op ;;
      _ <~ tell (fun _ => Bounded_Emit (mkEvent 0 (str "result") [] [] 0 Ev.ResultDelivered [] [] (op_Key op) 0 0 (or_Status item))) ;;
      operations store kind (index + 1) ops c (results ++ [item])
  end.

(** A store as [Factory.Open] returns it, with its cleanup: [None] when the
    cleanup succeeds. *)
Record Opened := mkOpened {
  o_S : Type;
  o_store : Structure o_S;
  o_state : o_S;
  o_cleanup : o_S -> option run_error;
}.

(** [DefaultFactory.Open]; opening the durable store creates files and is a
    parameter. *)
Definition Factory_Open (openDurable : outcome run_error Opened) (kind : bytes) (c : ctx) : outcome run_error (Opened * ctx) :=
  c <- ctx_Err c ;;
  if beqb kind Metrics.KindMap then Ok (mkOpened Map MapKV NewMap (fun _ => None), c)
  else if beqb kind Metrics.KindSortedSlice then Ok (mkOpened SortedSlice SortedSliceKV NewSortedSlice (fun _ => None), c)
  else if beqb kind Metrics.KindBTreeMemory then Ok (mkOpened Memory MemoryKV NewMemory (fun _ => None), c)
  else if beqb kind Metrics.KindBTreeDurable then s <- openDurable ;; Ok (s, c)
  else Err (EUnsupportedStructure kind).

(** The part of [Run] between opening and cleanup: setup, then the operations
    on the observed store, through a cache when the request asks for one. *)
Definition runOpened {S} (store : Structure S) (s : S) (req : ExperimentRequest) (c : ctx) : outcome run_error ExperimentResult * S :=
  let previewSize := Z.min (rq_DatasetSize req) PreviewLimit in
  if (previewSize <? 0) || (previewSize >? PreviewLimit) then (Err EWorkloadLimit, s) else
  let idle := mkBounded 0 0 [] [] false in
  match setup store (rq_Seed req) (Z.to_nat (rq_DatasetSize req)) 0 c [] (s, idle) with
  | (Ok (c, preview), (s, _)) =>
      let recorder := mkBounded (if rq_Trace req then 200 else 0) 0 [] [] false in
      let s := s_SetTrace store s in
      let finish stats (results : list OperationResult) (b : Bounded) :=
        mkExperiment (Bounded_Truncated b) stats req preview (rq_DatasetSize req >? PreviewLimit) (rq_Structure req) results
          (complexities catalog_Lookup (rq_Structure req)) (Bounded_Events b) in
      match rq_Cache req with
      | None =>
          match operations store (rq_Structure req) 0 (rq_Operations req) c [] (s, recorder) with
          | (Ok results, (s, b)) => (Ok (finish None results b), s)
          | (Err e, (s, _)) => (Err e, s) | (Panic, (s, _)) => (Panic, s) | (NoFuel, (s, _)) => (NoFuel, s)
          end
      | Some config =>
          match NewCache s (cc_Capacity config) with
          | None => (Err EInvalidCacheConfiguration, s)
          | Some cache =>
              match operations (CacheKV store) (rq_Structure req) 0 (rq_Operations req) c [] (Cache_SetTrace cache, recorder) with
              | (Ok results, (cache, b)) => (Ok (finish (Some (Stats cache)) results b), c_backing cache)
              | (Err e, (cache, _)) => (Err e, c_backing cache)
              | (Panic, (cache, _)) => (Panic, c_backing cache)
              | (NoFuel, (cache, _)) => (NoFuel, c_backing cache)
              end
          end
      end
  | (Err e, (s, _)) => (Err e, s) | (Panic, (s, _)) => (Panic, s) | (NoFuel, (s, _)) => (NoFuel, s)
  end.

(** [Executor.Run]. [admitted] tells whether the gate opened before the context
    was done. An error of the run comes before one of the cleanup. *)
Definition Run (openDurable : outcome run_error Opened) (admitted : bool) (c : ctx) (req : ExperimentRequest) :
    outcome run_error ExperimentResult :=
  _ <- Validate req ;;
  if negb admitted then Err EContext
  else
    '(opened, c) <- Factory_Open openDurable (rq_Structure req) c ;;
    let '(r, s) := runOpened (o_store opened) (o_state opened) req c in
    match r, o_cleanup opened s with
    | Ok _, Some e => Err e
    | r, _ => r
    end.
End Runs.

(** ** The basic runner (basic_runner.go) *)

(** The map it works on and its recorder, [None] for the disabled sink. *)
Abbreviation BM := (stM (gmap bytes bytes * option Recorder) run_error).
Definition sinkEmit (e : Event) : BM unit := fun '(values, sink) => (Ok tt, (values, Recorder_Emit e <$> sink)).
Definition values_ : BM (gmap bytes bytes) := fun st => (Ok st.1, st).
Definition set_values (m : gmap bytes bytes) : BM unit := fun st => (Ok tt, (m, st.2)).
Definition basicEvent (kind operation structure key : bytes) : Event := mkEvent 0 [] [] [] 0 kind operation structure key 0 0 [].
Definition found_only (found : bool) (value : bytes) (count : Z) : OperationResult := mkResult [] [] [] [] false found value count.

Definition runOperation (op : Operation) : BM OperationResult :=
  _ <~ sinkEmit (basicEvent Ev.Lookup (op_Name op) [] (op_Key op)) ;;
  values <~ values_ ;;
  if beqb (op_Name op) Metrics.OpSet then
    _ <~ set_values (<[op_Key op := op_Value op]> values) ;; ret (found_only false [] 0)
  else if beqb (op_Name op) Metrics.OpGet then
    match values !! op_Key op with
    | Some value => ret (found_only true value 0)
    | None => ret (found_only false [] 0)
    end
  else if beqb (op_Name op) Metrics.OpDelete then
    _ <~ set_values (delete (op_Key op) values) ;;
    ret (found_only (bool_decide (is_Some (values !! op_Key op))) [] 0)
  else if beqb (op_Name op) Metrics.OpRange then
    let keys := List.filter (fun key => bleb (op_Start op) key && bleb key (op_End op)) (map_to_list values).*1 in
    ret (found_only false [] (len (sort_strings keys)))
  else throw EUnsupportedOperation.
Fixpoint basicOperations (kind : bytes) (ops : list Operation) (results : list OperationResult) : BM (list OperationResult) :=
  match ops with
  | [] => ret results
  | op :: ops =>
      _ <~ sinkEmit (basicEvent Ev.OperationSelected (op_Name op) kind []) ;;
      result <~ runOperation op ;;
      _ <~ sinkEmit (basicEvent Ev.ResultDelivered (op_Name op) [] []) ;;
      basicOperations kind ops (results ++ [result])
  end.
Fixpoint basicValues (n : nat) (i : Z) (values : gmap bytes bytes) : gmap bytes bytes :=
  match n with
  | O => values
  | S n => basicValues n (i + 1) (<[str "key-" ++ pad6 i := str "value-" ++ pad6 i]> values)
  end.
(** [BasicRunner.catalog]; [None] is the nil interface. *)
Definition basicCatalog (complexity : option (bytes -> bytes -> option Metadata)) : bytes -> bytes -> option Metadata :=
  default catalog_Lookup complexity.
(** [BasicRunner.Run]; the fields it does not set have their zero values. *)
Definition BasicRun (complexity : option (bytes -> bytes -> option Metadata)) (c : ctx) (req : ExperimentRequest) :
    outcome run_error ExperimentResult :=
  _ <- ctx_Err c ;;
  fail_if (rq_DatasetSize req <? 0) || (rq_DatasetSize req >? 5000) with EWorkloadLimit ;;
  let values := basicValues (Z.to_nat (rq_DatasetSize req)) 0 ∅ in
  let sink := if rq_Trace req then Some NewRecorder else None in
  match basicOperations (rq_Structure req) (rq_Operations req) [] (values, sink) with
  | (Ok results, (_, sink)) =>
      Ok (mkExperiment false None (mkRequest 0 None [] [] 0 0 false) [] false (rq_Structure req) results
        (complexities (basicCatalog complexity) (rq_Structure req))
        match sink with Some r => Recorder_Events r | None => [] end)
  | (Err e, _) => Err e | (Panic, _) => Panic | (NoFuel, _) => NoFuel
  end.
