(* ===== verification/ExperimentSpec.v ===== *)
(** * What an experiment computes

    The reference: the sample data as a sorted list of entries, and each
    operation on such a list. Every structure that keeps the promise of
    [StructureSpec] and never fails computes the reference, whatever the cache
    and the recorder do. *)

From Stdlib Require Import Strings.String.
From S2P Require Import Prelude KvList Errors Engine Database DatabaseSpec Trace Slices Structures Cache CacheSpec MemTree MemResults SqlLexer SqlPrint Experiment.

(** ** Decimal numbers of fixed width *)

Fixpoint fixw (n : nat) (z : Z) : bytes :=
  match n with O => [] | S n => fixw n (z / 10) ++ [Zb (48 + z mod 10)] end.
Lemma fixw_0 n : fixw n 0 = replicate n (Zb 48).
Proof.
  induction n as [|n IH]; [done|]. cbn [fixw]. change (0 / 10) with 0. rewrite IH. change (48 + 0 mod 10) with 48.
  by rewrite replicate_S_end.
Qed.
Lemma fixw_length n z : length (fixw n z) = n.
Proof. revert z. induction n as [|n IH]; intros z; [done|]. cbn. rewrite length_app, IH. cbn. lia. Qed.
Lemma digits_fixw fuel : forall k z acc, 0 <= z < 10 ^ Z.of_nat k -> (1 <= k)%nat -> (k <= fuel)%nat -> exists d,
  digits fuel z acc = d ++ acc /\ (length d <= k)%nat /\ replicate (k - length d) (Zb 48) ++ d = fixw k z.
Proof.
  induction fuel as [|fuel IH]; intros k z acc Hz H1 Hk; [lia|]. destruct k as [|k]; [lia|]. cbn [digits fixw].
  destruct (z <? 10) eqn:E; zbool.
  - exists [Zb (48 + z mod 10)]. rewrite Z.div_small, fixw_0 by lia. cbn. split_and!; [done|lia|]. by rewrite Nat.sub_0_r.
  - rewrite Nat2Z.inj_succ, Z.pow_succ_r in Hz by lia.
    assert (Hz' : 0 <= z / 10 < 10 ^ Z.of_nat k) by (split; [apply Z.div_pos; lia|apply Z.div_lt_upper_bound; lia]).
    assert (1 <= k)%nat by (destruct k; [cbn in *; lia|lia]).
    destruct (IH k (z / 10) (Zb (48 + z mod 10) :: acc) Hz' ltac:(done) ltac:(lia)) as (d & -> & Hl & Hr).
    exists (d ++ [Zb (48 + z mod 10)]). rewrite <- Hr, length_app. cbn. rewrite <- app_assoc. split_and!; [done|lia|].
    rewrite app_assoc. do 2 f_equal. f_equal. lia.
Qed.
Lemma pad6_fixw z : 0 <= z < 1000000 -> pad6 z = fixw 6 z.
Proof.
  intros Hz. unfold pad6, print_int. destruct (z <? 0) eqn:E; zbool; [lia|].
  destruct (digits_fixw 20 6 z [] Hz ltac:(lia) ltac:(lia)) as (d & -> & Hl & <-). by rewrite app_nil_r.
Qed.

Lemma blt_app_len p q x y : length p = length q -> blt p q -> blt (p ++ x) (q ++ y).
Proof.
  unfold blt. revert q. induction p as [|a p IH]; intros [|b q] Hl; try done. cbn in *.
  destruct (bZ a ?= bZ b); try done. apply IH. lia.
Qed.
Lemma fixw_lt n : forall a b, 0 <= a < b -> b < 10 ^ Z.of_nat n -> blt (fixw n a) (fixw n b).
Proof.
  induction n as [|n IH]; intros a b H Hb; [cbn in Hb; lia|]. cbn [fixw]. rewrite Nat2Z.inj_succ, Z.pow_succ_r in Hb by lia.
  assert (Hd : a / 10 <= b / 10) by (apply Z.div_le_mono; lia). destruct (decide (a / 10 = b / 10)) as [E|E].
  - rewrite E. unfold blt. rewrite bcmp_app. cbn.
    pose proof (Z.div_mod a 10 ltac:(lia)). pose proof (Z.div_mod b 10 ltac:(lia)).
    pose proof (Z.mod_pos_bound a 10 ltac:(lia)). pose proof (Z.mod_pos_bound b 10 ltac:(lia)).
    rewrite !bZ_Zb, !(Z.mod_small (48 + _)) by lia. assert (48 + a mod 10 < 48 + b mod 10) as Hlt by lia.
    apply Z.compare_lt_iff in Hlt. by rewrite Hlt.
  - apply blt_app_len; [by rewrite !fixw_length|]. apply IH; [split; [apply Z.div_pos; lia|lia]|]. apply Z.div_lt_upper_bound; lia.
Qed.

(** ** The sample data *)

(** The records from index [i] on, for a source of records with the keys of the
    samples. *)
Definition sample (record : Z -> kv) (i n : Z) : list kv := map record (seqZ i n).

Section Data.
Context (record : Z -> kv) (Hrecord : forall i, (record i).1 = str "key-" ++ pad6 i).

Lemma sample_lt i j : 0 <= i < j -> j < 1000000 -> blt (record i).1 (record j).1.
Proof using Hrecord. intros H Hj. rewrite !Hrecord. unfold blt. rewrite bcmp_app, !pad6_fixw by lia. by apply fixw_lt. Qed.
Lemma sample_0 i : sample record i 0 = [].
Proof. done. Qed.
Lemma sample_cons i n : 0 < n -> sample record i n = record i :: sample record (i + 1) (n - 1).
Proof. intros H. unfold sample. rewrite seqZ_cons by done. cbn. repeat f_equal; lia. Qed.
Lemma sample_snoc i n : 0 <= n -> sample record i (n + 1) = sample record i n ++ [record (i + n)].
Proof. intros H. unfold sample. rewrite seqZ_app, map_app by lia. done. Qed.
Lemma sample_below i n j : 0 <= i -> i + n <= j -> j < 1000000 -> below (record j).1 (sample record i n).
Proof using Hrecord.
  intros Hi Hn Hj. apply Forall_map, Forall_forall. intros z Hz%elem_of_seqZ. apply sample_lt; lia.
Qed.
Lemma sample_set n : 0 <= n < 1000000 -> kv_set (record n).1 (record n).2 (sample record 0 n) = sample record 0 (n + 1).
Proof using Hrecord.
  intros [H Hn]. rewrite sample_snoc by done. rewrite <- (app_nil_r (sample record 0 n)) at 1.
  rewrite kv_set_gap; [by rewrite <- surjective_pairing|apply sample_below; lia|constructor].
Qed.
End Data.

(** The dataset of the runner, and the one of the basic runner. *)
Definition dataset (sha256 : bytes -> bytes) (seed : Z) : Z -> Z -> list kv := sample (SampleRecord sha256 seed).
Definition basicRecord (i : Z) : kv := (str "key-" ++ pad6 i, str "value-" ++ pad6 i).
Lemma dataset_set sha256 seed n : 0 <= n < 1000000 -> let r := SampleRecord sha256 seed n in
  kv_set r.1 r.2 (dataset sha256 seed 0 n) = dataset sha256 seed 0 (n + 1).
Proof. intros H. by apply sample_set. Qed.

Lemma hex_length bs : length (hex bs) = (2 * length bs)%nat.
Proof. unfold hex. induction bs as [|b bs IH]; [done|]. cbn. rewrite IH. lia. Qed.
Lemma SampleRecord_sizes sha256 seed i : 0 <= i < 1000000 -> let r := SampleRecord sha256 seed i in
  r.1 <> [] /\ len r.1 <= 256 /\ len r.2 <= 1024.
Proof.
  intros Hi. cbn zeta. split_and!.
  - discriminate.
  - unfold SampleRecord. cbn [fst]. rewrite len_app, pad6_fixw by done. unfold len at 2. rewrite fixw_length. by vm_compute.
  - unfold SampleRecord. cbn [snd]. rewrite len_app. unfold len at 2. rewrite hex_length, length_take.
    change (len (str "record-")) with 7. lia.
Qed.

(** ** The reference *)

(** What an operation answers on the entries [l], and the entries after it. *)
Definition ref_result (op : Operation) (l : list kv) : OperationResult :=
  let n := op_Name op in
  let hit := kv_get (op_Key op) l in
  let found := kv_range (op_Start op) (op_End op) l in
  if beqb n Metrics.OpSet then mkResult n (op_Key op) (str "stored") [] false false (op_Value op) 0
  else if beqb n Metrics.OpGet then
    mkResult n (op_Key op) (if hit then str "found" else str "not_found") [] false (bool_decide (is_Some hit)) (default [] hit) 0
  else if beqb n Metrics.OpDelete then
    mkResult n (op_Key op) (if hit then str "deleted" else str "not_found") [] false (bool_decide (is_Some hit)) [] 0
  else
    mkResult n (op_Key op) (match found with [] => str "empty" | _ => str "matched" end) (take 64 found)
      (bool_decide (64 < len found)) false [] (len found).
Definition ref_entries (op : Operation) (l : list kv) : list kv :=
  if beqb (op_Name op) Metrics.OpSet then kv_set (op_Key op) (op_Value op) l
  else if beqb (op_Name op) Metrics.OpDelete then kv_del (op_Key op) l
  else l.
Fixpoint ref_run (ops : list Operation) (l : list kv) : list OperationResult :=
  match ops with [] => [] | op :: ops => ref_result op l :: ref_run ops (ref_entries op l) end.

(** An operation that has a name of the interface; one [Validate] lets through. *)
Definition known_op (op : Operation) : Prop :=
  op_Name op = Metrics.OpSet \/ op_Name op = Metrics.OpGet \/ op_Name op = Metrics.OpDelete \/ op_Name op = Metrics.OpRange.
Record valid_op (op : Operation) : Prop := {
  vo_name : known_op op;
  vo_key : op_Name op <> Metrics.OpRange -> op_Key op <> [];
  vo_sizes : len (op_Key op) <= 256 /\ len (op_Value op) <= 1024 /\ len (op_Start op) <= 256 /\ len (op_End op) <= 256;
}.

Lemma valid_known ops : Forall valid_op ops -> Forall known_op ops.
Proof. intros H. eapply Forall_impl; [exact H|apply vo_name]. Qed.

(** A context that lives through [n] checks, and what is left of it. *)
Definition alive (c : ctx) (n : nat) : Prop := match c with None => True | Some k => (n <= k)%nat end.
Definition spent (c : ctx) (n : nat) : ctx := (fun k => (k - n)%nat) <$> c.
Lemma spent_0 c : spent c 0 = c.
Proof. destruct c; [|done]. cbn. by rewrite Nat.sub_0_r. Qed.
Lemma ctx_Err_ok c : match ctx_Err c with
  | Ok c' => alive c 1 /\ c' = spent c 1
  | Err e => e = EContext /\ ~ alive c 1
  | _ => False
  end.
Proof. destruct c as [[|k]|]; cbn; [split; [done|lia]|split; [lia|f_equal; lia]|done]. Qed.
Lemma alive_S c n : alive c (S n) <-> alive c 1 /\ alive (spent c 1) n.
Proof. destruct c as [k|]; cbn; lia. Qed.
Lemma spent_S c n : spent (spent c 1) n = spent c (S n).
Proof. destruct c as [k|]; cbn; [|done]. f_equal. lia. Qed.

(** What is kept of the recorder over a run. *)
Definition recorded (b b' : Bounded) : Prop := b_Limit b' = b_Limit b /\ (trace_ok b -> trace_ok b').
#[global] Instance recorded_preorder : PreOrder recorded.
Proof. split; [done|]. intros b1 b2 b3 [] []. split; [congruence|auto]. Qed.
Lemma Emit_limit e b : b_Limit (Bounded_Emit e b) = b_Limit b.
Proof. unfold Bounded_Emit. by repeat destruct (Z.leb _ _) || destruct (Z.geb _ _). Qed.
Lemma traced_recorded b b' : traced b b' -> recorded b b'.
Proof.
  intros H. split; [|by apply traced_ok]. destruct H as [es ->]. revert b.
  induction es as [|e es IH]; intros b; [done|]. cbn. unfold emits in IH. by rewrite IH, Emit_limit.
Qed.
Lemma select_recorded i op b : recorded b (Bounded_select i op b).
Proof. split; [done|apply select_ok]. Qed.
#[global] Hint Resolve traced_recorded select_recorded : core.

Lemma ends_from {St A} (m : SM St A) s Q : ends m s Q no_err -> ends (from_structure m) s Q no_err.
Proof. unfold ends, from_structure. by destruct (m s) as [[] ?]. Qed.
Lemma ends_from_err {St A} (m : SM St A) s Q (R : engine_error -> St * Bounded -> Prop) (R' : run_error -> Prop) :
  ends m s Q R -> (forall e s', R e s' -> R' (EStructure e)) -> ends (from_structure m) s Q (fun e _ => R' e).
Proof. unfold ends, from_structure. destruct (m s) as [[] ?]; cbn; eauto. Qed.
Lemma ends_told {St E A} (f : St -> Bounded -> Bounded) (k : stM (St * Bounded) E A) s b Q R :
  ends k (s, f s b) Q R -> ends (_ <~ tell f ;; k) (s, b) Q R.
Proof. intros K. by apply ends_bind. Qed.

(** ** A run over any structure that can take its changes *)

Section Runs.
(** The promise of the structure while [n] more changes are due; a change takes
    it to the promise for [n]. A structure without limits keeps one promise. *)
Context {St : Type} (store : Structure St) (Sp : nat -> StructureSpec store).
Definition has_for (n : nat) (s : St) (l : list kv) : Prop := has (StructureSpec := Sp n) s l.
Record supplied : Prop := {
  su_able : forall n s l, has_for (S n) s l -> able (StructureSpec := Sp n) s l;
  su_key : forall n k, k <> [] -> takes_key (StructureSpec := Sp n) k;
  su_bound : forall n k, len k <= 256 -> takes_bound (StructureSpec := Sp n) k;
  su_set : forall n k v, k <> [] -> len k <= 256 -> len v <= 1024 -> ~ set_fails (StructureSpec := Sp n) k v;
}.
Context (Hsup : supplied).
(** What can stop a run: a deletion the structure refuses. *)
Definition refused (ops : list Operation) (e : run_error) : Prop := exists op n e',
  op ∈ ops /\ op_Name op = Metrics.OpDelete /\ delete_fails (StructureSpec := Sp n) (op_Key op) /\ e = EStructure e'.
Lemma refused_cons op ops e : refused ops e -> refused (op :: ops) e.
Proof. intros (o & n & e' & H & ?). exists o, n, e'. split; [by right|done]. Qed.

Lemma has_less n s l : has_for (S n) s l -> has_for n s l.
Proof. intros H. apply (sp_able_has (StructureSpec := Sp n)), (su_able Hsup), H. Qed.
Lemma st_set_ok n s b l k v : has_for (S n) s l -> k <> [] -> len k <= 256 -> len v <= 1024 ->
  ends (s_Set store k v) (s, b) (fun _ sb => has_for n sb.1 (kv_set k v l) /\ traced b sb.2) no_err.
Proof.
  intros H H1 H2 H3. eapply ends_mono; [apply (sp_set (StructureSpec := Sp n)), (su_able Hsup), H|done|]. cbn. intros e sb [Hf _]. by apply (su_set Hsup) in Hf.
Qed.

Lemma execute_ok op n s b l : has_for (S n) s l -> valid_op op ->
  ends (execute store op) (s, b)
    (fun r sb => r = ref_result op l /\ has_for n sb.1 (ref_entries op l) /\ traced b sb.2)
    (fun e _ => refused [op] e).
Proof.
  intros H [K Hk (L1 & L2 & L3 & L4)]. pose proof (has_less _ _ _ H) as Hn. unfold execute, ref_result, ref_entries.
  destruct K as [E|[E|[E|E]]]; rewrite E in *; cbn -[from_structure]; try specialize (Hk ltac:(done)).
  - eapply ends_step; [apply ends_from; by apply (st_set_ok n)|]. by intros [] sb [].
  - eapply ends_step; [apply ends_from; by apply (sp_get (StructureSpec := Sp n)), (su_key Hsup)|].
    intros v sb (-> & Hs & Ht). by destruct (kv_get (op_Key op) l).
  - eapply ends_seq; [eapply ends_from_err; [apply (sp_delete (StructureSpec := Sp n)), (su_able Hsup), H|]|].
    + cbn. intros e sb (Hf & _). exists op, n, e. split_and!; [by left|done..].
    + intros d sb (-> & Hs & Ht). by destruct (kv_get (op_Key op) l).
  - eapply ends_step; [apply ends_from; by apply (sp_range (StructureSpec := Sp n)); [|apply (su_bound Hsup)..]|].
    intros v sb (-> & Hs & Ht). cbn. split_and!; [|done..]. f_equal.
    + by destruct (kv_range _ _ l).
    + destruct (len _ >? PreviewLimit) eqn:G; zbool; unfold PreviewLimit in G; [by rewrite bool_decide_eq_true_2 by lia|by rewrite bool_decide_eq_false_2 by lia].
Qed.

Lemma setup_ok sha256 seed n m : forall i c preview s b, has_for (n + m) s (dataset sha256 seed 0 i) -> 0 <= i -> i + Z.of_nat n <= 1000000 ->
  ends (setup sha256 store seed n i c preview) (s, b)
    (fun cp sb => alive c n /\ cp.1 = spent c n /\
      cp.2 = preview ++ take (Z.to_nat (64 - i)) (dataset sha256 seed i (Z.of_nat n)) /\
      has_for m sb.1 (dataset sha256 seed 0 (i + Z.of_nat n)) /\ traced b sb.2)
    (fun e _ => e = EContext /\ ~ alive c n).
Proof.
  induction n as [|n IH]; intros i c preview s b H Hi Hn; cbn [setup].
  - unfold dataset. rewrite sample_0, take_nil. cbn. rewrite spent_0, app_nil_r, Z.add_0_r. split_and!; try done. destruct c; cbn; [lia|done].
  - pose proof (ctx_Err_ok c) as Hc. destruct (ctx_Err c) as [c'|e| |]; try done; cbn [lift].
    2:{ apply ends_bind. cbn. destruct Hc as [-> Hc]. split; [done|]. rewrite alive_S. tauto. }
    destruct Hc as [Ha ->]. apply ends_bind. cbn [lift ends].
    destruct (SampleRecord_sizes sha256 seed i) as (S1 & S2 & S3); [lia|].
    eapply ends_step; [apply ends_from, (st_set_ok (n + m)); [exact H|done..]|].
    intros [] [s1 b1] [H1 T1]. cbn [fst snd] in *. rewrite dataset_set in H1 by lia.
    eapply ends_mono; [apply IH; [exact H1|lia..]| |].
    + cbn beta. intros cp sb (A & -> & P & Hs & T). rewrite spent_S. split_and!; [by rewrite alive_S|done| | |by etrans].
      * rewrite P. unfold dataset. rewrite (sample_cons _ _ (Z.of_nat (S n))) by lia. unfold PreviewLimit. destruct (i <? 64) eqn:E; zbool.
        -- rewrite <- app_assoc. replace (Z.to_nat (64 - i)) with (S (Z.to_nat (64 - (i + 1)))) by lia. cbn [take app]. repeat f_equal; lia.
        -- by replace (Z.to_nat (64 - i)) with O by lia; replace (Z.to_nat (64 - (i + 1))) with O by lia.
      * by replace (i + Z.of_nat (S n)) with (i + 1 + Z.of_nat n) by lia.
    + cbn beta. intros e _ [-> A]. split; [done|]. rewrite alive_S. tauto.
Qed.

Lemma operations_ok kind ops m : forall i c rs s b l, has_for (length ops + m) s l -> Forall valid_op ops ->
  ends (operations store kind i ops c rs) (s, b)
    (fun r sb => alive c (length ops) /\ r = rs ++ ref_run ops l /\ has_for m sb.1 (fold_left (fun l op => ref_entries op l) ops l) /\ recorded b sb.2)
    (fun e _ => (e = EContext /\ ~ alive c (length ops)) \/ refused ops e).
Proof.
  induction ops as [|op ops IH]; intros i c rs s b l H K; cbn [operations].
  - cbn. rewrite app_nil_r. split_and!; try done. destruct c; cbn; [lia|done].
  - apply Forall_cons in K as [K Ks]. do 2 apply ends_told.
    pose proof (ctx_Err_ok c) as Hc. destruct (ctx_Err c) as [c'|e| |]; try done; cbn [lift].
    2:{ apply ends_bind. cbn -[alive]. destruct Hc as [-> Hc]. left. split; [done|]. rewrite alive_S. tauto. }
    destruct Hc as [Ha ->]. apply ends_bind. cbn [lift ends].
    eapply ends_seq; [eapply ends_mono; [by apply (execute_ok op (length ops + m))|done|]|].
    { cbn. intros e sb (o & n & e' & Ho%list_elem_of_singleton & Hd). subst o. right. exists op, n, e'. split; [by left|done]. }
    intros r [s1 b1] (-> & H1 & T1). apply ends_told.
    eapply ends_mono; [by apply IH| |].
    + cbn [fst snd length ref_run fold_left] in *. intros r sb (A & -> & Hs & T). rewrite alive_S, <- app_assoc. split_and!; try done.
      etrans; [apply select_recorded|]. etrans; [apply traced_recorded, traced_emit|]. etrans; [apply traced_recorded, T1|].
      etrans; [apply traced_recorded, traced_emit|]. done.
    + cbn [length]. intros e _ [[-> A]|R]; [left; split; [done|]; rewrite alive_S; tauto|right; by apply refused_cons].
Qed.
End Runs.
