(* ===== verification/ExperimentResults.v ===== *)
(** * What the experiment runner guarantees

    A valid request on an in-memory structure is answered with the reference
    results, whichever structure, cache and recorder are used, unless the context
    is cancelled; the basic runner agrees with the same reference. *)

From Stdlib Require Import Strings.String.
From S2P Require Import Prelude KvList Errors Engine Database DatabaseSpec Trace Slices Structures Cache CacheSpec MemTree MemInsertSpec MemResults Experiment ExperimentSpec.

Definition in_memory (kind : bytes) : Prop := kind = Metrics.KindMap \/ kind = Metrics.KindSortedSlice \/ kind = Metrics.KindBTreeMemory.

(** The numbers of checks of the context a run does. *)
Definition checks (req : ExperimentRequest) : nat := (Z.to_nat (rq_DatasetSize req) + length (rq_Operations req))%nat.

(** The answer to a request. *)
Record answers (sha256 : bytes -> bytes) (req : ExperimentRequest) (res : ExperimentResult) : Prop := {
  an_request : er_Request res = req;
  an_structure : er_Structure res = rq_Structure req;
  an_dataset : er_Dataset res = dataset sha256 (rq_Seed req) 0 (Z.min 64 (rq_DatasetSize req));
  an_preview : er_DatasetTruncated res = bool_decide (64 < rq_DatasetSize req);
  an_results : er_Results res = ref_run (rq_Operations req) (dataset sha256 (rq_Seed req) 0 (rq_DatasetSize req));
  an_complexity : er_Complexity res = complexities catalog_Lookup (rq_Structure req);
  an_cache : is_Some (er_Cache res) <-> is_Some (rq_Cache req);
  an_numbered : map ev_Sequence (er_Trace res) = seqZ 1 (len (er_Trace res));
  an_bounded : len (er_Trace res) <= (if rq_Trace req then 200 else 0);
  an_snapshots : Forall snapshot_ok (er_Trace res);
  an_truncated : er_TraceTruncated res = true -> len (er_Trace res) = 200;
}.

(** ** Validation *)

Record accepted (req : ExperimentRequest) : Prop := {
  ac_size : 0 <= rq_DatasetSize req <= 5000;
  ac_cache : match rq_Cache req with Some c => 1 <= cc_Capacity c <= 256 | None => True end;
  ac_ops : Forall valid_op (rq_Operations req);
}.
Lemma validOperation_known op : validOperation op = Ok tt -> valid_op op.
Proof.
  unfold validOperation. destruct (_ || _ || _ || _) eqn:E1; [done|].
  apply orb_false_iff in E1 as [[[E1 E2]%orb_false_iff E3]%orb_false_iff E4]. zbool.
  destruct (beqb (op_Name op) Metrics.OpGet || beqb (op_Name op) Metrics.OpSet || beqb (op_Name op) Metrics.OpDelete) eqn:E5.
  - destruct (beqb (op_Key op) []) eqn:E6; [done|]. intros _. split; [|intros _; by apply beqb_neq|done]. unfold known_op.
    repeat match goal with E : _ || _ = true |- _ => apply orb_true_iff in E as [E|E] end; apply beqb_eq in E5; auto.
  - destruct (beqb (op_Name op) Metrics.OpRange) eqn:E6; [|done]. apply beqb_eq in E6. intros _. split; [unfold known_op; auto|done|done].
Qed.
Lemma validOperations_known ops : validOperations ops = Ok tt -> Forall valid_op ops.
Proof.
  induction ops as [|op ops IH]; [constructor|]. cbn. destruct (validOperation op) as [[]|?| |] eqn:E; try done.
  constructor; [by apply validOperation_known|by apply IH].
Qed.
Lemma validOperation_total op : gives (validOperation op) (fun _ => True).
Proof. unfold validOperation. apply gives_guard. intros _. destruct (_ || _ || _); [by destruct (beqb _ _)|]. destruct (beqb _ _); [|done]. by destruct (bltb _ _). Qed.
Lemma validOperations_total ops : gives (validOperations ops) (fun _ => True).
Proof. induction ops as [|op ops IH]; [done|]. cbn. eapply gives_bind; [apply validOperation_total|done]. Qed.
Lemma Validate_accepts req : Validate req = Ok tt -> accepted req.
Proof.
  unfold Validate. destruct (negb _ && _) eqn:E1; [done|].
  match goal with |- (if ?x then _ else _) = _ -> _ => destruct x eqn:E2; [done|] end.
  match goal with |- (if ?x then _ else _) = _ -> _ => destruct x eqn:E3; [done|] end.
  destruct (beqb _ _ && _); [done|]. intros H. zbool. split; [lia| |by apply validOperations_known].
  destruct (rq_Cache req); [|done]. zbool. lia.
Qed.
Lemma Validate_total req : gives (Validate req) (fun _ => True).
Proof. unfold Validate. repeat (apply gives_guard; intros _). apply validOperations_total. Qed.

Lemma Validate_limits req : Validate req = Ok tt -> rq_DatasetSize req <= 5000 /\ len (rq_Operations req) <= 128.
Proof.
  unfold Validate. destruct (negb _ && _); [done|].
  match goal with |- (if ?x then _ else _) = _ -> _ => destruct x; [done|] end.
  match goal with |- (if ?x then _ else _) = _ -> _ => destruct x eqn:E; [done|] end.
  intros _. zbool. lia.
Qed.

(** ** A run on an opened structure *)

Lemma trace_fresh n : 0 <= n < 2 ^ 63 -> trace_ok (mkBounded n 0 [] [] false).
Proof. intros H. split; cbn; try done; unfold len; cbn; lia. Qed.

Lemma preview_ok sha256 seed n : 0 <= n -> take 64 (dataset sha256 seed 0 n) = dataset sha256 seed 0 (Z.min 64 n).
Proof.
  intros H. unfold dataset, sample. destruct (decide (n <= 64)).
  - rewrite Z.min_r, take_ge; [done|by rewrite length_map, length_seqZ; lia|done].
  - rewrite Z.min_l by lia. replace n with (64 + (n - 64)) by lia. rewrite seqZ_app, map_app by lia.
    apply take_app_length'. by rewrite length_map, length_seqZ.
Qed.

Section Opened.
Context (sha256 : bytes -> bytes).

(** The fields of a result that do not depend on how it was computed. *)
Lemma finish_ok req rec b stats :
  0 <= rq_DatasetSize req -> (is_Some stats <-> is_Some (rq_Cache req)) ->
  rec = mkBounded (if rq_Trace req then 200 else 0) 0 [] [] false -> recorded rec b ->
  answers sha256 req (mkExperiment (Bounded_Truncated b) stats req
    (take 64 (dataset sha256 (rq_Seed req) 0 (rq_DatasetSize req))) (rq_DatasetSize req >? PreviewLimit) (rq_Structure req)
    (ref_run (rq_Operations req) (dataset sha256 (rq_Seed req) 0 (rq_DatasetSize req)))
    (complexities catalog_Lookup (rq_Structure req)) (Bounded_Events b)).
Proof.
  intros Hn Hs -> [Hl Hb]. destruct Hb as [_ Hb Hq Hc Hd]; [apply trace_fresh; destruct (rq_Trace req); lia|]. cbn in Hl.
  rewrite Hl in *. split; cbn; try done.
  - by apply preview_ok.
  - unfold PreviewLimit. destruct (_ >? _) eqn:G; zbool; [by rewrite bool_decide_eq_true_2 by lia|by rewrite bool_decide_eq_false_2 by lia].
  - intros D. destruct (Hd D) as [Hp E]. unfold Bounded_Events. rewrite E. by destruct (rq_Trace req).
Qed.

Lemma cache_supplied {St} (store : Structure St) (Sp : nat -> StructureSpec store) :
  supplied store Sp -> supplied (CacheKV store) (fun n => Cache_spec store (Sp := Sp n)).
Proof.
  intros [H1 H2 H3 H4]. split; [|exact H2|exact H3|exact H4]. intros n c l [H C]. split; [by apply H1|exact C].
Qed.

Lemma runOpened_ok {St} (store : Structure St) (Sp : nat -> StructureSpec store) s req c :
  supplied store Sp -> has_for store Sp (checks req) s [] -> accepted req ->
  match runOpened sha256 store s req c with
  | (Ok res, s') => alive c (checks req) /\ answers sha256 req res /\ exists l, has_for store Sp 0 s' l
  | (Err e, _) => (~ alive c (checks req) /\ e = EContext) \/ refused store Sp (rq_Operations req) e
  | _ => False
  end.
Proof.
  intros Hf Hs [Hn Hc Ho]. unfold runOpened, PreviewLimit. destruct ((_ <? 0) || _) eqn:G.
  { apply orb_true_iff in G as [G|G]; zbool; lia. }
  clear G. set (idle := mkBounded 0 0 [] [] false). set (m := length (rq_Operations req)).
  assert (H0 : has_for store Sp (Z.to_nat (rq_DatasetSize req) + m) s (dataset sha256 (rq_Seed req) 0 0)) by exact Hs.
  pose proof (setup_ok store Sp Hf sha256 (rq_Seed req) (Z.to_nat (rq_DatasetSize req)) m 0 c [] s idle H0 ltac:(lia) ltac:(lia)) as E.
  unfold ends in E. destruct (setup _ _ _ _ _ _ _ _) as [[[c1 p]|e| |] [s1 b1]]; try done.
  2:{ left. destruct E as [-> E]. split; [|done]. intros A. apply E. unfold checks in A. destruct c; cbn in *; [lia|done]. }
  cbn [fst snd] in E. destruct E as (A1 & -> & -> & H1 & _). rewrite Z.add_0_l, Z2Nat.id in * by lia. change (Z.to_nat (64 - 0)) with 64%nat. cbn [app].
  apply (sp_trace (StructureSpec := Sp m)) in H1. set (s2 := s_SetTrace store s1) in *. set (recorder := mkBounded (if rq_Trace req then 200 else 0) 0 [] [] false).
  assert (Hal : alive c (checks req) <-> alive (spent c (Z.to_nat (rq_DatasetSize req))) (length (rq_Operations req))).
  { unfold checks. destruct c; cbn in *; [lia|done]. }
  assert (Hm : (length (rq_Operations req) + 0 = m)%nat) by (unfold m; lia).
  destruct (rq_Cache req) as [config|] eqn:Ec.
  - pose proof (NewCache_ok store (Sp := Sp m) s2 (cc_Capacity config) _ H1) as N.
    destruct (NewCache s2 (cc_Capacity config)) as [ca|]; [|lia]. destruct N as (_ & N & _).
    set (Sc := fun n => Cache_spec store (Sp := Sp n)).
    assert (H3 : has_for (CacheKV store) Sc (length (rq_Operations req) + 0) (Cache_SetTrace ca) (dataset sha256 (rq_Seed req) 0 (rq_DatasetSize req)))
      by (rewrite Hm; exact (sp_trace (StructureSpec := Sc m) ca _ N)).
    pose proof (operations_ok (CacheKV store) Sc (cache_supplied store Sp Hf) (rq_Structure req) (rq_Operations req) 0 0
      (spent c (Z.to_nat (rq_DatasetSize req))) [] _ recorder _ H3 Ho) as E.
    unfold ends in E. destruct (operations _ _ _ _ _ _ _) as [[rs|e| |] [ca1 b2]]; try done.
    + destruct E as (A2 & -> & [H4 _] & R). split; [by apply Hal|]. split; [|by eexists].
      cbn [app]. eapply finish_ok; [lia|by rewrite Ec; split; eauto|done..].
    + destruct E as [[-> E]|E]; [left; by rewrite Hal|by right].
  - assert (H3 : has_for store Sp (length (rq_Operations req) + 0) s2 (dataset sha256 (rq_Seed req) 0 (rq_DatasetSize req))) by (rewrite Hm; exact H1).
    pose proof (operations_ok store Sp Hf (rq_Structure req) (rq_Operations req) 0 0
      (spent c (Z.to_nat (rq_DatasetSize req))) [] _ recorder _ H3 Ho) as E.
    unfold ends in E. destruct (operations _ _ _ _ _ _ _) as [[rs|e| |] [s3 b2]]; try done.
    + destruct E as (A2 & -> & H4 & R). split; [by apply Hal|]. split; [|by eexists]. cbn [app]. eapply finish_ok; [lia|by rewrite Ec|done..].
    + destruct E as [[-> E]|E]; [left; by rewrite Hal|by right].
Qed.
End Opened.

(** ** Whole runs *)

Section Whole.
Context (sha256 : bytes -> bytes) (openDurable : outcome run_error Opened).

Lemma open_ok kind c : in_memory kind ->
  match Factory_Open openDurable kind c with
  | Ok (o, c') => alive c 1 /\ c' = spent c 1 /\ (forall s, o_cleanup o s = None) /\
      exists Sp : nat -> StructureSpec (o_store o), supplied (o_store o) Sp /\ (forall n, has_for (o_store o) Sp n (o_state o) []) /\
        forall ops e, ~ refused (o_store o) Sp ops e
  | Err e => e = EContext /\ ~ alive c 1
  | _ => False
  end.
Proof.
  intros K. unfold Factory_Open. pose proof (ctx_Err_ok c) as Hc. destruct (ctx_Err c) as [c'|e| |]; try done.
  destruct Hc as [A ->]. destruct K as [->|[->| ->]]; cbn; split_and!; try done.
  - exists (fun _ => Map_spec). split; [split; try done; tauto|]. split; [intros n; by vm_compute|]. by intros ops e (? & ? & ? & ? & ? & [] & ?).
  - exists (fun _ => SortedSlice_spec). split; [split; try done; tauto|]. split; [split; [constructor|done]|].
    by intros ops e (? & ? & ? & ? & ? & [] & ?).
  - exists (fun _ => Memory_spec). split; [split; try done; tauto|]. split; [intros n; apply new_rep|].
    by intros ops e (? & ? & ? & ? & ? & [] & ?).
Qed.

Lemma Run_cases admitted c req : in_memory (rq_Structure req) ->
  match Run sha256 openDurable admitted c req with
  | Ok res => Validate req = Ok tt /\ admitted = true /\ alive c (S (checks req)) /\ answers sha256 req res
  | Err e => Validate req = Err e \/
      (Validate req = Ok tt /\ e = EContext /\ (admitted = false \/ ~ alive c (S (checks req))))
  | _ => False
  end.
Proof.
  intros K. unfold Run. pose proof (Validate_total req) as V. destruct (Validate req) as [[]|e| |] eqn:EV; try done; [|by left].
  destruct admitted; cbn [negb]; [|by auto]. pose proof (open_ok _ c K) as O.
  destruct (Factory_Open openDurable (rq_Structure req) c) as [[o c']|e| |]; try done.
  2:{ destruct O as [-> O]. right. split_and!; try done. right. rewrite alive_S. tauto. }
  destruct O as (A & -> & Hcl & Sp & Hf & Hs & Hr).
  pose proof (runOpened_ok sha256 (o_store o) Sp (o_state o) req (spent c 1) Hf (Hs _) (Validate_accepts _ EV)) as R.
  destruct (runOpened sha256 (o_store o) (o_state o) req (spent c 1)) as [[res|e| |] s]; [rewrite Hcl| |destruct R..].
  - destruct R as (R1 & R2 & _). split_and!; try exact R2; try reflexivity. by apply alive_S.
  - destruct R as [[R1 ->]|R]; [|by apply Hr in R]. right. split_and!; [reflexivity..|]. right. rewrite alive_S. intros [_ H]. by apply R1.
Qed.

(** C9: a run of a request on an in-memory structure (hash map, sorted slice or
    B+Tree) neither panics nor diverges. It fails only with the error of the
    validation, or with the error of the context when the run was not admitted or
    the context ended before its last check. Otherwise it returns an answer: the
    request, the first 64 records of the dataset, for every operation the result
    the reference gives on the sorted entries at that point, cache statistics
    exactly when a cache was asked for, and a trace numbered without gaps of at
    most 200 events, empty when tracing is off. *)
Theorem Run_correct admitted c req : in_memory (rq_Structure req) ->
  match Run sha256 openDurable admitted c req with
  | Ok res => Validate req = Ok tt /\ admitted = true /\ alive c (S (checks req)) /\ answers sha256 req res
  | Err e => Validate req = Err e \/
      (Validate req = Ok tt /\ e = EContext /\ (admitted = false \/ ~ alive c (S (checks req))))
  | Panic | NoFuel => False
  end.
Proof. apply Run_cases. Qed.

End Whole.

(** C16: the structure, the cache and the recorder are invisible in what a run
    computes: two answered requests with the same dataset size, seed and
    operations have the same dataset preview and the same results. *)
Theorem Run_structure_independent sha256 od1 od2 a1 a2 c1 c2 req1 req2 res1 res2 :
  in_memory (rq_Structure req1) -> in_memory (rq_Structure req2) ->
  rq_DatasetSize req1 = rq_DatasetSize req2 -> rq_Seed req1 = rq_Seed req2 -> rq_Operations req1 = rq_Operations req2 ->
  Run sha256 od1 a1 c1 req1 = Ok res1 -> Run sha256 od2 a2 c2 req2 = Ok res2 ->
  er_Results res1 = er_Results res2 /\ er_Dataset res1 = er_Dataset res2.
Proof.
  intros K1 K2 En Es Eo E1 E2. pose proof (Run_cases sha256 od1 a1 c1 req1 K1) as R1. pose proof (Run_cases sha256 od2 a2 c2 req2 K2) as R2.
  rewrite E1 in R1. rewrite E2 in R2. destruct R1 as (_ & _ & _ & [_ _ D1 _ R1 _ _ _ _ _ _]), R2 as (_ & _ & _ & [_ _ D2 _ R2 _ _ _ _ _ _]).
  by rewrite R1, R2, D1, D2, En, Es, Eo.
Qed.

(** ** The basic runner *)

(** What the basic runner reports of a reference result. *)
Definition basic_result (op : Operation) (l : list kv) : OperationResult :=
  let r := ref_result op l in
  found_only (or_Found r) (if beqb (op_Name op) Metrics.OpGet then or_Value r else []) (or_Count r).
Fixpoint basic_ref (ops : list Operation) (l : list kv) : list OperationResult :=
  match ops with [] => [] | op :: ops => basic_result op l :: basic_ref ops (ref_entries op l) end.
Definition basic_types (ops : list Operation) : list bytes :=
  concat (map (fun _ => [Ev.OperationSelected; Ev.Lookup; Ev.ResultDelivered]) ops).

(** [r'] is [r] after events of these types. *)
Definition logged (types : list bytes) (r r' : option Recorder) : Prop :=
  exists es, r' = records es <$> r /\ map ev_Type es = types.
Lemma logged_app t1 t2 r1 r2 r3 : logged t1 r1 r2 -> logged t2 r2 r3 -> logged (t1 ++ t2) r1 r3.
Proof.
  intros (e1 & -> & <-) (e2 & -> & <-). exists (e1 ++ e2). rewrite map_app. split; [|done].
  destruct r1; [|done]. cbn. unfold records. by rewrite fold_left_app.
Qed.
Lemma logged_emit e r : logged [ev_Type e] r (Recorder_Emit e <$> r).
Proof. exists [e]. by destruct r. Qed.

Lemma runOperation_ok op m sink : known_op op ->
  ends (runOperation op) (m, sink) (fun r st => r = basic_result op (entries m) /\
    entries st.1 = ref_entries op (entries m) /\ logged [Ev.Lookup] sink st.2) no_err.
Proof.
  intros K. unfold runOperation, basic_result, ref_result, ref_entries. apply ends_bind. cbn. apply ends_bind. cbn.
  pose proof (logged_emit (basicEvent Ev.Lookup (op_Name op) [] (op_Key op)) sink) as L. rewrite entries_get.
  destruct K as [E|[E|[E|E]]]; rewrite E in *; cbn.
  - by rewrite entries_set.
  - by destruct (m !! op_Key op).
  - by rewrite entries_del.
  - split_and!; try done. f_equal. rewrite <- (range_listing m (op_Start op) (op_End op) _ (sort_strings_perm _)).
    + unfold items_of, len. by rewrite length_map.
    + apply sort_strings_sorted, NoDup_ListNoDup, List.NoDup_filter, NoDup_ListNoDup, map_keys_nodup.
Qed.
Lemma basicOperations_ok kind ops : forall rs m sink, Forall known_op ops ->
  ends (basicOperations kind ops rs) (m, sink)
    (fun r st => r = rs ++ basic_ref ops (entries m) /\ logged (basic_types ops) sink st.2) no_err.
Proof.
  induction ops as [|op ops IH]; intros rs m sink K; cbn [basicOperations].
  - cbn. rewrite app_nil_r. split; [done|]. exists []. by destruct sink.
  - apply Forall_cons in K as [K Ks]. apply ends_bind. cbn.
    pose proof (logged_emit (basicEvent Ev.OperationSelected (op_Name op) kind []) sink) as L1.
    eapply ends_step; [by apply runOperation_ok|]. intros r [m' sink'] (-> & E & L2). apply ends_bind. cbn in *.
    pose proof (logged_emit (basicEvent Ev.ResultDelivered (op_Name op) [] []) sink') as L3.
    eapply ends_mono; [by apply IH| |done]. cbn beta. intros r st [-> L4]. rewrite E, <- app_assoc. split; [done|].
    exact (logged_app _ _ _ _ _ L1 (logged_app _ _ _ _ _ L2 (logged_app _ _ _ _ _ L3 L4))).
Qed.

(** The recorder numbers what it gets. *)
Lemma records_numbered es : forall r, r_next r = len (r_events r) -> len (r_events r) + len es < 2 ^ 64 ->
  map ev_Sequence (r_events r) = seqZ 1 (len (r_events r)) ->
  map ev_Sequence (r_events (records es r)) = seqZ 1 (len (r_events r) + len es) /\
  map ev_Type (r_events (records es r)) = map ev_Type (r_events r) ++ map ev_Type es.
Proof.
  induction es as [|e es IH]; intros r Hn Hb Hs.
  - cbn. change (len []) with 0. by rewrite Z.add_0_r, app_nil_r.
  - rewrite len_cons in *. pose proof (len_nonneg es). pose proof (len_nonneg (r_events r)).
    destruct (IH (Recorder_Emit e r)) as [I1 I2]; cbn [Recorder_Emit r_events r_next]; rewrite ?len_app; change (len [_]) with 1.
    + rewrite u64_small, Hn; lia.
    + lia.
    + rewrite map_app, Hs, seqZ_app by lia. cbn. rewrite u64_small, Hn by lia. by rewrite (Z.add_comm 1).
    + cbn [records fold_left]. fold (records es (Recorder_Emit e r)). rewrite I1, I2. cbn [Recorder_Emit r_events].
      rewrite len_app, map_app, <- app_assoc. change (len [_]) with 1. split; [f_equal; lia|done].
Qed.

Lemma basicValues_ok n : forall i m, entries m = sample basicRecord 0 i -> 0 <= i -> i + Z.of_nat n <= 1000000 ->
  entries (basicValues n i m) = sample basicRecord 0 (i + Z.of_nat n).
Proof.
  induction n as [|n IH]; intros i m E Hi Hn; cbn [basicValues]; [by rewrite Z.add_0_r|].
  rewrite (IH (i + 1)); [f_equal; lia| |lia..]. rewrite <- entries_set, E. by apply (sample_set basicRecord); [|lia].
Qed.

Lemma BasicRun_ok complexity c req :
  0 <= rq_DatasetSize req <= 5000 -> Forall known_op (rq_Operations req) -> 3 * len (rq_Operations req) < 2 ^ 64 ->
  alive c 1 -> exists res, BasicRun complexity c req = Ok res /\
    er_Results res = basic_ref (rq_Operations req) (sample basicRecord 0 (rq_DatasetSize req)) /\
    (if rq_Trace req
     then map ev_Type (er_Trace res) = basic_types (rq_Operations req) /\
          map ev_Sequence (er_Trace res) = seqZ 1 (3 * len (rq_Operations req))
     else er_Trace res = []).
Proof.
  intros Hn Ho Hl Ha. unfold BasicRun. pose proof (ctx_Err_ok c) as Hc. destruct (ctx_Err c) as [c'|e| |]; try done; [|by destruct Hc]. destruct ((rq_DatasetSize req <? 0) || _) eqn:G.
  { apply orb_true_iff in G as [G|G]; zbool; lia. }
  clear G.
  set (values := basicValues _ _ _). assert (E : entries values = sample basicRecord 0 (rq_DatasetSize req)).
  { unfold values. rewrite (basicValues_ok _ 0 ∅); [f_equal; lia|by vm_compute|lia..]. }
  set (sink := if rq_Trace req then _ else _).
  destruct (proj1 (ends_returns _ _ _) (basicOperations_ok (rq_Structure req) (rq_Operations req) [] values sink Ho)) as (rs & [m s'] & -> & -> & L).
  eexists. split; [done|]. cbn. rewrite E. split; [done|]. destruct L as (es & Es & Ht). cbn in Es. subst s' sink.
  destruct (rq_Trace req); [|done]. cbn.
  assert (Hes : len es = 3 * len (rq_Operations req)).
  { apply (f_equal length) in Ht. rewrite length_map in Ht. unfold len. rewrite Ht. unfold basic_types.
    clear. induction (rq_Operations req) as [|op ops IH]; [done|]. cbn in *. lia. }
  destruct (records_numbered es NewRecorder) as [N1 N2]; try done; [cbn; unfold len in *; cbn; lia|].
  unfold Recorder_Events. rewrite N1, N2, Ht. split; [done|]. f_equal. exact Hes.
Qed.

(** The basic runner answers every request of known operations on a dataset of
    at most 5000 records, unless the context is already cancelled, which is the
    only error: [Found], [Value] of a read and [Count] of a range are those of the
    reference on its own sample data, and its trace has exactly three events per
    operation, numbered from one, and none when tracing is off. *)
Theorem BasicRun_correct complexity c req :
  0 <= rq_DatasetSize req <= 5000 -> Forall known_op (rq_Operations req) -> 3 * len (rq_Operations req) < 2 ^ 64 ->
  (~ alive c 1 -> BasicRun complexity c req = Err EContext) /\
  (alive c 1 -> exists res, BasicRun complexity c req = Ok res /\
    er_Results res = basic_ref (rq_Operations req) (sample basicRecord 0 (rq_DatasetSize req)) /\
    (if rq_Trace req
     then map ev_Type (er_Trace res) = basic_types (rq_Operations req) /\
          map ev_Sequence (er_Trace res) = seqZ 1 (3 * len (rq_Operations req))
     else er_Trace res = [])).
Proof.
  intros Hn Ho Hl. split; [|by apply BasicRun_ok]. intros Ha. unfold BasicRun. pose proof (ctx_Err_ok c) as Hc.
  destruct (ctx_Err c) as [c'|e| |]; try done; [by destruct Hc|]. by destruct Hc as [-> _].
Qed.
