(* ===== verification/LabDurable.v ===== *)
(** * Experiments on the durable store (src/internal/experiment/factory.go)

    The durable structure of the lab: the store of a fresh temporary directory,
    behind the engine and its observer, as an instance of the interface of the
    structures; and what a run on it guarantees. *)

From Stdlib Require Import Strings.String.
From S2P Require Import Prelude KvList Errors Page PageTree PageTreeSpec File FreeList PageManager PageManagerSpec KV KVSpec KVResults.
From S2P Require Import DurableSpec DurableResults HistoryResults Engine Trace KVTrace Structures Cache CacheSpec.
From S2P Require Import Experiment ExperimentSpec ExperimentResults.

(** ** The structure *)

(** The store and whether [Durable.SetTrace] has attached the recorder. *)
Record Observed := mkObserved { ob_kv : KV; ob_sink : bool }.

(** A method of the engine on the store. *)
Definition on_kv {A} (m : bool -> stM (KV * Bounded) error A) : SM Observed A := fun '(o, b) =>
  let '(r, (kv, b')) := m (ob_sink o) (ob_kv o, b) in (map_err EBtree r, (mkObserved kv (ob_sink o), b')).
Definition Durable_SetTrace (o : Observed) : Observed := mkObserved (ob_kv o) true.
Definition DurableKV (fuel : nat) : Structure Observed := {|
  s_Get key := on_kv (fun sink => seen_Get sink fuel key);
  s_Range lo hi := on_kv (fun sink => seen_Range sink fuel lo hi);
  s_Set key value := on_kv (fun sink => seen_Set sink fuel key value);
  s_Delete key := on_kv (fun sink => seen_Delete sink fuel key);
  s_SetTrace := Durable_SetTrace;
|}.

(** The durable case of [DefaultFactory.Open]. [temp] is the outcome of
    [os.MkdirTemp], [removed] that of [os.RemoveAll], [faults] those of the calls
    on the new file. *)
Definition Durable_Open (fuel : nat) (temp : outcome run_error bytes) (faults : list fault) (removed : option run_error) :
    outcome run_error Opened :=
  dir <- temp ;;
  match Open (dir ++ str "/data.db") true (mkFile [] [] faults) with
  | (Ok db, _) =>
      Ok (mkOpened Observed (DurableKV fuel) (mkObserved db false)
        (fun o => match (Close (ob_kv o)).1 with Err e => Some (EStructure (EBtree e)) | _ => removed end))
  | (Err e, _) => Err (EStructure (EBtree e))
  | (Panic, _) => Panic
  | (NoFuel, _) => NoFuel
  end.

(** ** How much a run can take *)

Section Budget.
Context (fuel : nat).

(** The pages one change can allocate, and the slack of a free list over them. *)
Definition change_pages : Z := 3 * (Z.of_nat fuel + 1) + 4.
Definition slack : Z := 508 * (change_pages + 1).
(** The page numbers that may be in use while [n] more changes are due: each
    change may add a free list of one page in 508. *)
Fixpoint page_cap (n : nat) : Z :=
  match n with O => (maxPage + 1) / 2 | S n => page_cap n * 507 / 508 end.

Lemma page_cap_nonneg n : 0 <= page_cap n.
Proof. induction n as [|n IH]; cbn [page_cap]; [by vm_compute|]. apply Z.div_pos; lia. Qed.
Lemma page_cap_S n : page_cap (S n) <= page_cap n.
Proof. pose proof (page_cap_nonneg n). cbn [page_cap]. apply Z.div_le_upper_bound; lia. Qed.
Lemma page_cap_le n m : (n <= m)%nat -> page_cap m <= page_cap n.
Proof. induction 1 as [|m _ IH]; [done|]. pose proof (page_cap_S m). lia. Qed.
Lemma page_cap_step n next next' :
  0 <= next -> next + slack <= page_cap (S n) -> next' <= next + change_pages + chainPages next' -> next' + slack <= page_cap n.
Proof.
  intros H0 H Hn. unfold chainPages in Hn. change freeListPageCapacity with 508 in Hn. cbn [page_cap] in H.
  pose proof (Z.mul_div_le (next' + 508 - 1) 508 ltac:(lia)) as H1. pose proof (Z.mul_div_le (page_cap n * 507) 508 ltac:(lia)) as H2.
  unfold slack in *. lia.
Qed.
Lemma page_cap_room n next : next + slack <= page_cap n -> 2 * (next + change_pages) <= maxPage + 1.
Proof.
  intros H. pose proof (page_cap_le 0 n ltac:(lia)) as H0. cbn [page_cap] in H0.
  pose proof (Z.mul_div_le (maxPage + 1) 2 ltac:(lia)). unfold slack, change_pages in *. lia.
Qed.

(** The observed store holds [l] and can take [n] more changes. *)
Record stocked (n : nat) (o : Observed) (l : list kv) : Prop := {
  sk_store : exists h, durable (ob_kv o) h l /\ (h + n < fuel)%nat;
  sk_entries : (S (length l + n) < fuel)%nat;
  sk_pages : nextPageID (k_pm (ob_kv o)) + slack <= page_cap n;
  sk_generation : generation (k_pm (ob_kv o)) + Z.of_nat n < 2 ^ 64;
}.
Lemma stocked_less n o l : stocked (S n) o l -> stocked n o l.
Proof.
  intros [(h & D & Hh) He Hp Hg]. pose proof (page_cap_S n).
  split; [exists h; split; [done|lia]|lia|lia|lia].
Qed.
Lemma stocked_room n o l h : stocked (S n) o l -> durable (ob_kv o) h l -> (h < fuel)%nat -> disk_room (ob_kv o) (3 * h + 4).
Proof.
  intros [_ _ Hp Hg] D Hh. apply page_cap_room in Hp. unfold change_pages in Hp. split; lia.
Qed.
(** What a change leaves. *)
Lemma stocked_step n m o l l' db' h' :
  stocked (S n) o l -> Z.of_nat m <= change_pages -> grown m (ob_kv o) db' -> durable db' h' l' ->
  (h' + n < fuel)%nat -> (length l' <= S (length l))%nat -> stocked n (mkObserved db' (ob_sink o)) l'.
Proof.
  intros [(h & D & Hh) He Hp Hg] Hm [G1 G2] D' Hh' Hl. pose proof (pi_next _ _ (kr_inv _ _ _ (du_rep _ _ _ D))).
  split; cbn [ob_kv].
  - by exists h'.
  - lia.
  - eapply page_cap_step; [|exact Hp|]; lia.
  - lia.
Qed.

(** ** The operations *)

Lemma on_kv_ends {A} (m' : bool -> stM (KV * Bounded) error A) (m : KM A) o b (Q : A -> KV -> Prop) (R : KV -> Prop) :
  (forall sink, tracks (m' sink) m) -> ends m (ob_kv o) Q (fun _ => R) ->
  ends (on_kv m') (o, b) (fun a ob => Q a (ob_kv ob.1) /\ ob_sink ob.1 = ob_sink o /\ traced b ob.2)
    (fun _ ob => R (ob_kv ob.1) /\ ob_sink ob.1 = ob_sink o /\ traced b ob.2).
Proof.
  intros T E. specialize (T (ob_sink o) (ob_kv o) b). unfold ends, on_kv in *.
  destruct (m' (ob_sink o) (ob_kv o, b)) as [r [kv b']]. destruct T as [Em T]. rewrite Em in E. by destruct r.
Qed.
Lemma stocked_open n o l : stocked n o l -> exists h, durable (ob_kv o) h l /\ (h < fuel)%nat /\ kv_sorted l.
Proof.
  intros [(h & D & Hh) _ _ _]. exists h. split; [done|]. split; [lia|]. destruct (du_rep _ _ _ D) as [T _].
  destruct T as [(_ & -> & _)|(_ & Hs & _)]; [constructor|]. by apply kv_sorted_cons in Hs as [? _].
Qed.
(** An update of the store as a change of the structure. *)
Lemma change_ends {A} n (m' : bool -> stM (KV * Bounded) error A) (m : KM A) pages h hmax o l b (Q : A -> list kv -> Prop) (E : error -> Prop) (F : Prop) :
  stocked (S n) o l -> durable (ob_kv o) h l -> (h + S n < fuel)%nat -> (hmax <= S h)%nat -> Z.of_nat pages <= change_pages ->
  (forall sink, tracks (m' sink) m) -> durable_post pages (ob_kv o) h hmax l Q E (m (ob_kv o)) ->
  (forall a l', Q a l' -> (length l' <= S (length l))%nat) -> (forall e, E e -> F) ->
  ends (on_kv m') (o, b) (fun a ob => (exists l', Q a l' /\ stocked n ob.1 l') /\ traced b ob.2)
    (fun _ ob => F /\ stocked n ob.1 l /\ traced b ob.2).
Proof.
  intros K D Hh Hm Hp T P HQ HE.
  eapply ends_mono; [eapply (on_kv_ends m' m o b (fun a db' => exists l', Q a l' /\ stocked n (mkObserved db' (ob_sink o)) l')
    (fun db' => F /\ stocked n (mkObserved db' (ob_sink o)) l) T)|..].
  - unfold ends, durable_post in *. destruct (m (ob_kv o)) as [[a|e| |] db']; try done.
    + destruct P as (h' & l' & Hh' & D' & Hq & G). exists l'. split; [done|].
      eapply (stocked_step n pages o l l' db' h'); try done; [lia|by eapply HQ].
    + destruct P as [(e0 & _ & He) [D' G]]. split; [by eapply HE|].
      eapply (stocked_step n pages o l l db' h); try done; lia.
  - cbn beta. intros a [[kv sink] b'] (H & Hs & Ht). cbn in *. by subst.
  - cbn beta. intros e [[kv sink] b'] (H & Hs & Ht). cbn in *. subst. tauto.
Qed.

#[local] Program Instance durable_for (n : nat) : StructureSpec (DurableKV fuel) := {|
  has := stocked n;
  able := stocked (S n);
  set_fails key value := ~ mutation_ok (mkMutation key value false);
  delete_fails _ := True;
  takes_key key := key <> [];
  takes_bound key := len key <= maxKeySize;
|}.
Next Obligation. intros n o l K. by apply stocked_open in K as (_ & _ & _ & ?). Qed.
Next Obligation. intros n o l. apply stocked_less. Qed.
Next Obligation. intros n o l [K1 K2 K3 K4]. by split. Qed.
Next Obligation.
  intros n o b l key K Hk. pose proof K as K'. apply stocked_open in K' as (h & D & Hh & _). destruct o as [kv sink].
  eapply ends_mono; [apply (on_kv_ends _ (Get fuel key) _ b (fun v kv' => v = kv_get key l /\ kv' = kv) (fun _ => False))|..].
  - intros s. apply seen_Get_tracks.
  - unfold ends. cbn [ob_kv] in *. rewrite (Get_ok fuel key kv h l); [done|apply D|apply D|done|done].
  - cbn beta. intros v [[kv' sink'] b'] ((-> & Hv) & Hs & Ht). cbn in *. subst. done.
  - by intros e ob (? & _).
Qed.
Next Obligation.
  intros n o b l lo hi K Hlo Hhi. pose proof K as K'. apply stocked_open in K' as (h & D & Hh & _). destruct o as [kv sink].
  eapply ends_mono; [apply (on_kv_ends _ (Range fuel lo hi) _ b (fun v kv' => v = kv_range lo hi l /\ kv' = kv) (fun _ => False))|..].
  - intros s. apply seen_Range_tracks.
  - unfold ends. cbn [ob_kv] in *. pose proof (sk_entries _ _ _ K).
    rewrite (Range_ok fuel lo hi kv h l); [done|apply D|apply D|done|lia|done|done].
  - cbn beta. intros v [[kv' sink'] b'] ((-> & Hv) & Hs & Ht). cbn in *. subst. done.
  - by intros e ob (? & _).
Qed.
Next Obligation.
  intros n o b l key value K. pose proof K as [(h & D & Hh) _ _ _].
  eapply ends_mono; [eapply (change_ends n _ (Set_ fuel key value) (3 * h + 4) h (S h) o l b _ _ (~ mutation_ok (mkMutation key value false))); try done|..].
  - unfold change_pages. lia.
  - intros s. apply seen_Set_tracks.
  - apply (Set_post fuel key value (ob_kv o) h l D); [|lia]. eapply stocked_room; [done|done|lia].
  - cbn beta. intros _ l' [_ ->]. apply kv_set_length.
  - cbn beta. intros e He. exact He.
  - cbn beta. intros [] ob ((l' & (_ & ->) & H) & T). done.
  - done.
Qed.
Next Obligation.
  intros n o b l key K. pose proof K as [(h & D & Hh) _ _ _].
  eapply ends_mono; [eapply (change_ends n _ (Delete fuel key) (S h) h h o l b _ _ True); try done|..].
  - lia.
  - unfold change_pages. lia.
  - intros s. apply seen_Delete_tracks.
  - apply (Delete_post fuel key (ob_kv o) h l D); [|lia]. eapply (disk_room_mono _ _ (3 * h + 4)); [lia|]. eapply stocked_room; [done|done|lia].
  - cbn beta. intros d l' (_ & _ & ->). pose proof (kv_del_length key l). lia.
  - cbn beta. intros d ob ((l' & (_ & -> & ->) & H) & T). done.
  - done.
Qed.

Lemma durable_supplied : supplied (DurableKV fuel) durable_for.
Proof.
  split.
  - done.
  - done.
  - intros n k Hk. cbn. unfold maxKeySize. lia.
  - intros n k v Hk Hl Hv H. apply H. split; [done|]. cbn. unfold maxKeySize, maxValueSize. split; [lia|]. intros _. lia.
Qed.
End Budget.

(** ** Runs *)

(** The cleanup of [Durable_Open]. *)
Definition cleanup (removed : option run_error) (o : Observed) : option run_error :=
  match (Close (ob_kv o)).1 with Err e => Some (EStructure (EBtree e)) | _ => removed end.
Lemma cleanup_stocked fuel n o l removed : stocked fuel n o l -> cleanup removed o = removed.
Proof.
  intros K. apply stocked_open in K as (h & D & _). destruct (durable_file _ _ _ D) as [d E]. unfold cleanup, Close.
  rewrite (du_open _ _ _ D). unfold on_file, checked, next_fault, bind. by rewrite E.
Qed.

(** What a run can do: a dataset and operations within the limits of [Validate]. *)
Definition max_changes : nat := Z.to_nat 5128.
Lemma max_changes_cap : 1 + 508 * (3 * (1000000 + 1) + 5) <= page_cap max_changes.
Proof. by vm_compute. Qed.
Definition fuel_ok (fuel : nat) : Prop := (max_changes + 1 < fuel)%nat /\ Z.of_nat fuel <= 1000000.

Lemma Durable_Open_ok fuel dir removed : fuel_ok fuel -> exists o,
  Durable_Open fuel (Ok dir) [] removed = Ok (mkOpened Observed (DurableKV fuel) o (cleanup removed)) /\
  forall n, (n <= max_changes)%nat -> stocked fuel n o [].
Proof.
  intros [Hf Hb]. unfold Durable_Open.
  destruct (Open_create (dir ++ str "/data.db") []) as (db & -> & D & Hn & Hg).
  { intros E. apply (f_equal length) in E. rewrite length_app in E. cbn in E. lia. }
  exists (mkObserved db false). split; [done|]. intros n Hnm.
  pose proof (page_cap_le n max_changes Hnm) as Hc. pose proof max_changes_cap as Hm.
  assert (Hz : Z.of_nat n <= 5128) by (unfold max_changes in Hnm; lia). clear Hm.
  pose proof max_changes_cap as Hm. split; cbn [ob_kv].
  - exists 0%nat. split; [done|lia].
  - cbn [length]. lia.
  - rewrite Hn. unfold slack, change_pages. lia.
  - rewrite Hg. lia.
Qed.

Section Whole.
Context (sha256 : bytes -> bytes) (fuel : nat) (dir : bytes) (Hfuel : fuel_ok fuel).

Lemma durable_run_cases admitted c req : rq_Structure req = Metrics.KindBTreeDurable ->
  match Run sha256 (Durable_Open fuel (Ok dir) [] None) admitted c req with
  | Ok res => Validate req = Ok tt /\ admitted = true /\ alive c (S (checks req)) /\ answers sha256 req res
  | Err e => Validate req = Err e \/
      (Validate req = Ok tt /\ e = EContext /\ (admitted = false \/ ~ alive c (S (checks req)))) \/
      (Validate req = Ok tt /\ exists op e', op ∈ rq_Operations req /\ op_Name op = Metrics.OpDelete /\ e = EStructure e')
  | Panic | NoFuel => False
  end.
Proof using Hfuel.
  intros K. unfold Run. pose proof (Validate_total req) as V. destruct (Validate req) as [[]|e| |] eqn:EV; try done; [|by left].
  destruct admitted; cbn [negb]; [|by right; left; auto].
  destruct (Durable_Open_ok fuel dir None Hfuel) as (o & Eo & Hs). unfold Factory_Open. rewrite K, Eo.
  pose proof (ctx_Err_ok c) as Hc. destruct (ctx_Err c) as [c'|e| |]; try done.
  2:{ destruct Hc as [-> Hc]. right; left. split_and!; try done. right. rewrite alive_S. tauto. }
  destruct Hc as [Ha ->]. pose proof (Validate_accepts _ EV) as A. pose proof (Validate_limits _ EV) as L.
  assert (Hm : (checks req <= max_changes)%nat).
  { unfold checks, max_changes. destruct A as [A _ _]. unfold len in L. lia. }
  pose proof (runOpened_ok sha256 (DurableKV fuel) (durable_for fuel) o req (spent c 1) (durable_supplied fuel) (Hs _ Hm) A) as R.
  cbn -[runOpened Validate].
  destruct (runOpened sha256 (DurableKV fuel) o req (spent c 1)) as [[res|e| |] o']; [|cbn|done..].
  - destruct R as (R1 & R2 & l & R3). rewrite (cleanup_stocked _ _ _ _ None R3). split_and!; try exact R2; try reflexivity. by apply alive_S.
  - right. destruct R as [[R1 ->]|(op & n & e' & Ho & Hd & _ & ->)]; [left|right].
    + split_and!; [reflexivity..|]. right. rewrite alive_S. intros [_ H]. by apply R1.
    + split; [done|]. by exists op, e'.
Qed.

(** C19: a run on the durable structure, in a fresh directory whose file calls
    succeed, answers a valid and admitted request with the reference results,
    with or without cache and trace, while the context lives; the one other
    outcome is that the store refuses a deletion of the request. *)
Theorem Run_durable admitted c req : rq_Structure req = Metrics.KindBTreeDurable ->
  match Run sha256 (Durable_Open fuel (Ok dir) [] None) admitted c req with
  | Ok res => Validate req = Ok tt /\ admitted = true /\ alive c (S (checks req)) /\ answers sha256 req res
  | Err e => Validate req = Err e \/
      (Validate req = Ok tt /\ e = EContext /\ (admitted = false \/ ~ alive c (S (checks req)))) \/
      (Validate req = Ok tt /\ exists op e', op ∈ rq_Operations req /\ op_Name op = Metrics.OpDelete /\ e = EStructure e')
  | Panic | NoFuel => False
  end.
Proof using Hfuel. apply durable_run_cases. Qed.
End Whole.

(** ** Witness *)

(** A cached, traced request without deletions: it is answered. *)
Definition durable_request : ExperimentRequest :=
  mkRequest 1 (Some (mkCacheConfig 2 (str "lru"))) Metrics.KindBTreeDurable
    [mkOperation Metrics.OpSet (str "alpha") (str "one") [] []; mkOperation Metrics.OpGet (str "alpha") [] [] [];
     mkOperation Metrics.OpRange [] [] (str "a") (str "z")] 3 42 true.
Lemma fuel_5200 : fuel_ok 5200.
Proof. split; [apply Nat.ltb_lt; vm_compute; reflexivity|discriminate]. Qed.
Lemma durable_request_valid : Validate durable_request = Ok tt.
Proof. vm_compute. reflexivity. Qed.
Lemma Run_durable_witness : exists res,
  Run id (Durable_Open 5200 (Ok (str "/tmp/algodb-run-1")) [] None) true None durable_request = Ok res /\
  answers id durable_request res.
Proof.
  pose proof (Run_durable id 5200 (str "/tmp/algodb-run-1") fuel_5200 true None durable_request eq_refl) as R.
  destruct (Run id _ true None durable_request) as [res|e| |].
  - exists res. split; [reflexivity|]. apply R.
  - exfalso. rewrite durable_request_valid in R. destruct R as [R|[(_ & _ & [R|R])|(_ & op & e' & Ho & Hd & _)]].
    + discriminate R.
    + discriminate R.
    + exact (R I).
    + unfold durable_request in Ho. cbn [rq_Operations] in Ho. rewrite !elem_of_cons in Ho. destruct Ho as [->|[->|[->|[]%not_elem_of_nil]]]; discriminate Hd.
  - destruct R.
  - destruct R.
Defined.
