(* ===== verification/Server.v ===== *)
(** * The experiment API (src/internal/server, src/cmd/lab-server)

    The two controllers, the validation of a request, the CORS middleware and the
    configuration of the server, up to decoding and encoding of JSON: a request
    carries what the decoder made of its body. The dispatch of methods follows
    [http.ServeMux]; that of paths is left out: each route is modelled for the
    requests of its own path. *)

From Stdlib Require Import Strings.String.
From S2P Require Import Prelude KvList Errors Engine Database DatabaseSpec Trace Slices Structures Cache CacheSpec MemTree MemInsertSpec MemResults Experiment ExperimentSpec ExperimentResults.

(** ** Requests and responses *)

(** The part of [http.Request] the handlers read. [hr_Body] is the result of the
    first [Decode] with unknown fields refused under the body limit, given the
    limit; [hr_End] tells whether the second one returned [io.EOF]. *)
Record HttpRequest := mkHttp {
  hr_Method : bytes;
  hr_Origin : bytes;
  hr_ctx : ctx;
  hr_Body : Z -> option ExperimentRequest;
  hr_End : Z -> bool;
}.

Record structureItem := mkItem { it_Name : bytes; it_Operations : list bytes; it_Complexity : list Metadata }.
Inductive http_body : Type :=
| NoBody
| TextBody (text : bytes)
| APIError (code : bytes)
| ResultBody (result : ExperimentResult)
| StructuresBody (items : list structureItem).
Record HttpResponse := mkResponse { rs_Headers : list (bytes * bytes); rs_Status : Z; rs_Body : http_body }.

Definition StatusOK : Z := 200.
Definition StatusNoContent : Z := 204.
Definition StatusBadRequest : Z := 400.
Definition StatusMethodNotAllowed : Z := 405.
Definition StatusUnprocessableEntity : Z := 422.
Definition StatusServiceUnavailable : Z := 503.

(** ** Responses (response.go) *)

Definition JSON (headers : list (bytes * bytes)) (status : Z) (value : http_body) : HttpResponse :=
  mkResponse (headers ++ [(str "Content-Type", str "application/json")]) status value.
Definition Error (headers : list (bytes * bytes)) (status : Z) (code : bytes) : HttpResponse :=
  JSON headers status (APIError code).

(** ** The experiment controller *)

Definition Runner : Type := ctx -> ExperimentRequest -> outcome run_error ExperimentResult.
Record ExperimentController := mkController {
  ct_Runner : option Runner;
  ct_MaxBodyBytes : Z;
  ct_MaxOperations : Z;
  ct_MaxDataset : Z;
  ct_MaxTraceEvents : Z;
  ct_Supported : list bytes;
}.

Definition validOp (op : Operation) : bool :=
  if beqb (op_Name op) (str "set") || beqb (op_Name op) (str "get") || beqb (op_Name op) (str "delete")
  then negb (beqb (op_Key op) [])
  else if beqb (op_Name op) (str "range") then negb (bltb (op_End op) (op_Start op))
  else false.
Definition validRequest (request : ExperimentRequest) (maxOperations maxDataset : Z) (supported : list bytes) : bool :=
  if negb (is_ok (Validate request)) then false
  else if (rq_DatasetSize request <? 0) || (rq_DatasetSize request >? maxDataset)
       || (len (rq_Operations request) >? maxOperations) || (rq_Seed request <? 0) then false
  else if negb (existsb (beqb (rq_Structure request)) supported) then false
  else forallb validOp (rq_Operations request).

(** [result.Trace = result.Trace[:c.MaxTraceEvents]]. *)
Definition cutTrace (limit : Z) (r : ExperimentResult) : ExperimentResult :=
  if (limit >? 0) && (len (er_Trace r) >? limit) then
    mkExperiment (er_TraceTruncated r) (er_Cache r) (er_Request r) (er_Dataset r) (er_DatasetTruncated r) (er_Structure r)
      (er_Results r) (er_Complexity r) (take (Z.to_nat limit) (er_Trace r))
  else r.

(** [None] when the runner panics. *)
Definition Controller_Run (c : ExperimentController) (r : HttpRequest) (headers : list (bytes * bytes)) : option HttpResponse :=
  match ct_Runner c with
  | None => Some (Error headers StatusServiceUnavailable (str "experiment_unavailable"))
  | Some run =>
      match hr_Body r (ct_MaxBodyBytes c) with
      | None => Some (Error headers StatusBadRequest (str "invalid_request"))
      | Some request =>
          if negb (hr_End r (ct_MaxBodyBytes c)) || negb (validRequest request (ct_MaxOperations c) (ct_MaxDataset c) (ct_Supported c))
          then Some (Error headers StatusBadRequest (str "invalid_request"))
          else
            match run (hr_ctx r) request with
            | Ok result => Some (JSON headers StatusOK (ResultBody (cutTrace (ct_MaxTraceEvents c) result)))
            | Err _ => Some (Error headers StatusUnprocessableEntity (str "experiment_failed"))
            | Panic | NoFuel => None
            end
      end
  end.

(** ** The structure controller *)

Definition allOperations : list bytes := [Metrics.OpSet; Metrics.OpGet; Metrics.OpDelete; Metrics.OpRange].
Definition allStructures : list bytes := [Metrics.KindMap; Metrics.KindSortedSlice; Metrics.KindBTreeMemory; Metrics.KindBTreeDurable].
Definition List (lookup : bytes -> bytes -> option Metadata) (headers : list (bytes * bytes)) : HttpResponse :=
  JSON headers StatusOK (StructuresBody
    (map (fun structure => mkItem structure allOperations (omap (lookup structure) allOperations)) allStructures)).

(** ** CORS *)

(** The encodings of the characters of [unicode.IsSpace]. *)
Definition space_codes : list bytes := Eval vm_compute in
  map (map Zb) ([[9]; [10]; [11]; [12]; [13]; [32]; [0xC2; 0x85]; [0xC2; 0xA0]; [0xE1; 0x9A; 0x80]]
    ++ map (fun k => [0xE2; 0x80; 0x80 + k]) (seqZ 0 11)
    ++ [[0xE2; 0x80; 0xA8]; [0xE2; 0x80; 0xA9]; [0xE2; 0x80; 0xAF]; [0xE2; 0x81; 0x9F]; [0xE3; 0x80; 0x80]]).
Definition starts_code (s p : bytes) : bool := beqb (take (length p) s) p.
(** Removes the given codes in front; [n] bounds their number. *)
Fixpoint trimPrefixes (n : nat) (codes : list bytes) (s : bytes) : bytes :=
  match n with
  | O => s
  | S n => match List.find (starts_code s) codes with Some p => trimPrefixes n codes (drop (length p) s) | None => s end
  end.
Definition TrimSpace (s : bytes) : bytes :=
  let left_ := trimPrefixes (length s) space_codes s in
  rev (trimPrefixes (length left_) (map (@rev byte) space_codes) (rev left_)).
(** [strings.Split(s, ",")]: one part more than there are commas. *)
Fixpoint split_comma (s : bytes) : list bytes :=
  match s with
  | [] => [[]]
  | b :: s =>
      match split_comma s with
      | [] => [[b]]
      | part :: parts => if bZ b =? 44 then [] :: part :: parts else (b :: part) :: parts
      end
  end.
Definition allowedOrigins (origin : bytes) : list bytes :=
  List.filter (fun t => negb (beqb t [])) (map TrimSpace (split_comma origin)).
Definition containsOrigin (allowed : list bytes) (origin : bytes) : bool := existsb (fun c => beqb c origin) allowed.

Definition CORS (origin : bytes) (next : HttpRequest -> list (bytes * bytes) -> option HttpResponse)
    (r : HttpRequest) (headers : list (bytes * bytes)) : option HttpResponse :=
  let headers :=
    if containsOrigin (allowedOrigins origin) (hr_Origin r) then
      headers ++ [(str "Access-Control-Allow-Origin", hr_Origin r); (str "Vary", str "Origin");
                  (str "Access-Control-Allow-Headers", str "Content-Type");
                  (str "Access-Control-Allow-Methods", str "GET, POST, OPTIONS")]
    else headers in
  if beqb (hr_Method r) (str "OPTIONS") then Some (mkResponse headers StatusNoContent NoBody)
  else next r headers.

(** ** Methods (router.go)

    What [http.ServeMux] does with a request whose path is the one of the pattern
    [method path]: a GET pattern serves HEAD too, and any other method is answered
    by [http.Error] with the allowed ones. *)
Definition allowedMethods (method : bytes) : list bytes :=
  if beqb method (str "GET") then [str "GET"; str "HEAD"] else [method].
Definition joined (parts : list bytes) : bytes :=
  match parts with [] => [] | p :: ps => fold_left (fun s q => s ++ str ", " ++ q) ps p end.
Definition methodNotAllowed (headers : list (bytes * bytes)) (methods : list bytes) : HttpResponse :=
  mkResponse (headers ++ [(str "Allow", joined methods); (str "Content-Type", str "text/plain; charset=utf-8");
                          (str "X-Content-Type-Options", str "nosniff")])
    StatusMethodNotAllowed (TextBody (str "Method Not Allowed" ++ [Zb 10])).
Definition route (method : bytes) (handler : HttpRequest -> list (bytes * bytes) -> option HttpResponse)
    (r : HttpRequest) (headers : list (bytes * bytes)) : option HttpResponse :=
  if existsb (beqb (hr_Method r)) (allowedMethods method) then handler r headers
  else Some (methodNotAllowed headers (allowedMethods method)).

(** ** Configuration (router.go, main.go) *)

Record Config := mkConfig {
  cf_Runner : option Runner;
  cf_Complexity : option (bytes -> bytes -> option Metadata);
  cf_AllowedOrigin : bytes;
  cf_MaxBodyBytes : Z;
  cf_MaxOperations : Z;
  cf_MaxDataset : Z;
  cf_MaxTraceEvents : Z;
}.
Definition or_default (n d : Z) : Z := if n <=? 0 then d else n.
(** The controllers [New] installs, behind the middleware. *)
Definition controller_of (config : Config) : ExperimentController :=
  mkController (cf_Runner config) (or_default (cf_MaxBodyBytes config) (Z.shiftl 1 20)) (or_default (cf_MaxOperations config) 1000)
    (or_default (cf_MaxDataset config) 100000) (or_default (cf_MaxTraceEvents config) 200)
    [str "map"; str "sorted-slice"; str "btree-memory"; str "btree-durable"].
Definition New_experiments (config : Config) (r : HttpRequest) : option HttpResponse :=
  CORS (cf_AllowedOrigin config) (route (str "POST") (Controller_Run (controller_of config))) r [].
Definition New_structures (config : Config) (r : HttpRequest) : option HttpResponse :=
  CORS (cf_AllowedOrigin config)
    (route (str "GET") (fun _ headers => Some (List (default catalog_Lookup (cf_Complexity config)) headers))) r [].
(** The configuration of [main], given the environment variable. *)
Definition main_config (frontendOrigin : bytes) : Config :=
  mkConfig (Some (BasicRun (Some catalog_Lookup))) None
    (if beqb frontendOrigin [] then str "http://localhost:3000,http://127.0.0.1:3000" else frontendOrigin) 0 0 0 0.

Example default_origins : allowedOrigins (cf_AllowedOrigin (main_config [])) = [str "http://localhost:3000"; str "http://127.0.0.1:3000"].
Proof. vm_compute. reflexivity. Qed.
Example delete_structures : New_structures (main_config []) (mkHttp (str "DELETE") [] None (fun _ => None) (fun _ => true)) =
  Some (mkResponse [(str "Allow", str "GET, HEAD"); (str "Content-Type", str "text/plain; charset=utf-8"); (str "X-Content-Type-Options", str "nosniff")]
    405 (TextBody (str "Method Not Allowed" ++ [Zb 10]))).
Proof. vm_compute. reflexivity. Qed.
Example trimmed_origins : allowedOrigins (str " a , ,b" ++ [Zb 0xC2; Zb 0xA0]) = [str "a"; str "b"].
Proof. vm_compute. reflexivity. Qed.
