(* ===== verification/ServerResults.v ===== *)
(** * What the experiment API guarantees

    Which requests the controller accepts and what it answers, the origins the
    middleware admits, and how the server that [main] starts composes them. *)

From Stdlib Require Import Strings.String.
From S2P Require Import Prelude KvList Errors Engine Database DatabaseSpec Trace Slices Structures Cache MemTree Experiment ExperimentSpec ExperimentResults Server.

(** ** Validation *)

Lemma validOperation_validOp op : validOperation op = Ok tt -> validOp op = true.
Proof.
  unfold validOperation, validOp. destruct (_ >? 256); [done|]. cbn [orb].
  match goal with |- (if ?x then _ else _) = _ -> _ => destruct x end; [done|].
  change (str "set") with Metrics.OpSet. change (str "get") with Metrics.OpGet. change (str "delete") with Metrics.OpDelete. change (str "range") with Metrics.OpRange.
  rewrite (orb_comm (beqb (op_Name op) Metrics.OpGet)). destruct (_ || _ || _); [by destruct (beqb _ _)|].
  destruct (beqb _ _); [|done]. by destruct (bltb _ _).
Qed.
Lemma validOperations_validOp ops : validOperations ops = Ok tt -> forallb validOp ops = true.
Proof.
  induction ops as [|op ops IH]; [done|]. cbn. destruct (validOperation op) as [[]|e| |] eqn:E; try done.
  intros H. rewrite (validOperation_validOp _ E). by apply IH.
Qed.

(** A request that passes [Validate] passes every other check of [validRequest]
    but the limits of the server and its list of structures. *)
Lemma validRequest_spec req maxOperations maxDataset supported :
  validRequest req maxOperations maxDataset supported = true <->
  Validate req = Ok tt /\ rq_DatasetSize req <= maxDataset /\ len (rq_Operations req) <= maxOperations /\ rq_Structure req ∈ supported.
Proof.
  unfold validRequest. pose proof (Validate_total req) as T. destruct (Validate req) as [[]|e| |] eqn:V; try done; cbn [is_ok negb].
  2:{ split; [done|]. by intros [? _]. }
  assert (Hv : 0 <= rq_DatasetSize req /\ 0 <= rq_Seed req /\ forallb validOp (rq_Operations req) = true).
  { unfold Validate in V. destruct (negb _ && _); [done|].
    match type of V with (if ?x then _ else _) = _ => destruct x; [done|] end.
    match type of V with (if ?x then _ else _) = _ => destruct x eqn:E; [done|] end.
    destruct (beqb _ _ && _); [done|]. zbool. split_and!; [lia..|by apply validOperations_validOp]. }
  destruct Hv as (H1 & H2 & H3). rewrite H3.
  assert (He : existsb (beqb (rq_Structure req)) supported = true <-> rq_Structure req ∈ supported).
  { rewrite existsb_exists. setoid_rewrite beqb_eq. split; [intros (x & Hx & <-); by apply list_elem_of_In|].
    intros Hin. exists (rq_Structure req). by rewrite <- list_elem_of_In. }
  match goal with |- (if ?x then _ else _) = _ <-> _ => destruct x eqn:E end.
  - split; [done|]. intros (_ & ? & ? & _). repeat (apply orb_true_iff in E as [E|E]); zbool; lia.
  - zbool. destruct (existsb _ _); cbn [negb].
    + split; [intros _|done]. split_and!; try done; try lia. by apply He.
    + split; [done|]. intros (_ & _ & _ & Hk). by apply He in Hk.
Qed.

(** ** The lab server *)

Definition supportedKind (kind : bytes) : Prop := kind ∈ allStructures.

Lemma cutTrace_ok n r : 0 < n -> len (er_Trace (cutTrace n r)) <= n /\ er_Results (cutTrace n r) = er_Results r.
Proof.
  intros Hn. unfold cutTrace. destruct ((n >? 0) && _) eqn:E; cbn.
  - split; [|done]. pose proof (take_len (Z.to_nat n) (er_Trace r)). lia.
  - split; [|done]. apply andb_false_iff in E as [E|E]; zbool; lia.
Qed.


(** What the server of [main] accepts: decoded, nothing after the JSON value, valid
    and one of the four structures. *)
Definition acceptable (r : HttpRequest) (req : ExperimentRequest) : Prop :=
  hr_Body r (2 ^ 20) = Some req /\ hr_End r (2 ^ 20) = true /\ Validate req = Ok tt /\ supportedKind (rq_Structure req).

Lemma main_accepts origin r req : hr_Body r (2 ^ 20) = Some req ->
  hr_End r (2 ^ 20) && validRequest req 1000 100000 (ct_Supported (controller_of (main_config origin))) = true <-> acceptable r req.
Proof.
  intros Hb. unfold acceptable, supportedKind. rewrite andb_true_iff, validRequest_spec. change (ct_Supported _) with allStructures.
  split; [tauto|]. intros (_ & He & V & K). pose proof (Validate_limits _ V). split_and!; try done; lia.
Qed.

(** ** CORS *)

(** The headers the middleware sets: the request's origin when it is one of the
    configured ones. *)
Definition announced (origin : bytes) (r : HttpRequest) : list (bytes * bytes) :=
  if decide (hr_Origin r ∈ allowedOrigins origin) then
    [(str "Access-Control-Allow-Origin", hr_Origin r); (str "Vary", str "Origin");
     (str "Access-Control-Allow-Headers", str "Content-Type"); (str "Access-Control-Allow-Methods", str "GET, POST, OPTIONS")]
  else [].
Lemma CORS_announced origin next r : CORS origin next r [] =
  (if decide (hr_Method r = str "OPTIONS") then Some (mkResponse (announced origin r) StatusNoContent NoBody) else next r (announced origin r)).
Proof.
  assert (E : containsOrigin (allowedOrigins origin) (hr_Origin r) = bool_decide (hr_Origin r ∈ allowedOrigins origin)).
  { apply eq_true_iff_eq. rewrite bool_decide_eq_true. unfold containsOrigin. rewrite existsb_exists. setoid_rewrite beqb_eq.
    rewrite list_elem_of_In. split; [by intros (x & ? & <-)|eauto]. }
  unfold CORS, announced. rewrite E. destruct (decide (hr_Origin r ∈ allowedOrigins origin)) as [Ha|Ha];
    [rewrite bool_decide_eq_true_2 by done|rewrite bool_decide_eq_false_2 by done];
    (destruct (decide (hr_Method r = str "OPTIONS")) as [Em|Em]; [by rewrite Em, beqb_refl|by rewrite (proj2 (beqb_neq _ _) Em)]).
Qed.


(** ** The experiment endpoint *)

(** What the basic runner fills in: the results of the reference on its own sample
    values, without statuses, and at most 200 trace events. It has no echo of the
    request, no preview of the data and no cache statistics. *)
Record basic_answer (req : ExperimentRequest) (res : ExperimentResult) : Prop := {
  ba_results : er_Results res = basic_ref (rq_Operations req) (sample basicRecord 0 (rq_DatasetSize req));
  ba_status : Forall (fun r => or_Status r = []) (er_Results res);
  ba_structure : er_Structure res = rq_Structure req;
  ba_trace : len (er_Trace res) <= 200;
  ba_request : er_Request res = mkRequest 0 None [] [] 0 0 false;
  ba_dataset : er_Dataset res = [];
  ba_cache : er_Cache res = None;
}.
Lemma basic_ref_status ops : forall l, Forall (fun r => or_Status r = []) (basic_ref ops l).
Proof. induction ops as [|op ops IH]; intros l; constructor; [done|apply IH]. Qed.
Lemma BasicRun_rest complexity c req res : BasicRun complexity c req = Ok res ->
  er_Structure res = rq_Structure req /\ er_Request res = mkRequest 0 None [] [] 0 0 false /\ er_Dataset res = [] /\ er_Cache res = None.
Proof.
  unfold BasicRun. destruct (ctx_Err c); try discriminate. destruct (_ || _); [discriminate|].
  destruct (basicOperations _ _ _ _) as [[results|e| |] [m sink]]; try discriminate. by intros [= <-].
Qed.
Lemma cutTrace_rest n r : er_Structure (cutTrace n r) = er_Structure r /\ er_Request (cutTrace n r) = er_Request r /\
  er_Dataset (cutTrace n r) = er_Dataset r /\ er_Cache (cutTrace n r) = er_Cache r.
Proof. unfold cutTrace. by destruct (_ && _). Qed.

(** The answer to a request of the path /api/v1/experiments, by cases that exclude
    each other. *)
Inductive endpoint_answer (r : HttpRequest) (headers : list (bytes * bytes)) : HttpResponse -> Prop :=
  | answer_preflight : hr_Method r = str "OPTIONS" -> endpoint_answer r headers (mkResponse headers StatusNoContent NoBody)
  | answer_method : hr_Method r <> str "OPTIONS" -> hr_Method r <> str "POST" ->
      endpoint_answer r headers (methodNotAllowed headers [str "POST"])
  | answer_result req res : hr_Method r = str "POST" -> acceptable r req -> alive (hr_ctx r) 1 -> basic_answer req res ->
      endpoint_answer r headers (JSON headers StatusOK (ResultBody res))
  | answer_cancelled req : hr_Method r = str "POST" -> acceptable r req -> ~ alive (hr_ctx r) 1 ->
      endpoint_answer r headers (Error headers StatusUnprocessableEntity (str "experiment_failed"))
  | answer_invalid : hr_Method r = str "POST" -> ~ (exists req, acceptable r req) ->
      endpoint_answer r headers (Error headers StatusBadRequest (str "invalid_request")).

Lemma experiments_cases origin r headers : hr_Method r = str "POST" ->
  exists resp, Controller_Run (controller_of (main_config origin)) r headers = Some resp /\ endpoint_answer r headers resp.
Proof.
  intros Hm. unfold Controller_Run. cbn [controller_of main_config cf_Runner ct_Runner ct_MaxBodyBytes ct_MaxOperations ct_MaxDataset ct_MaxTraceEvents].
  change (or_default _ (Z.shiftl 1 20)) with (2 ^ 20). change (or_default _ 1000) with 1000. change (or_default _ 100000) with 100000. change (or_default _ 200) with 200.
  destruct (hr_Body r (2 ^ 20)) as [req|] eqn:Eb.
  2:{ eexists. split; [done|]. apply answer_invalid; [done|]. intros (req & H & _). congruence. }
  pose proof (main_accepts origin r req Eb) as A. rewrite <- negb_andb.
  destruct (hr_End r (2 ^ 20) && validRequest _ _ _ _) eqn:E; cbn [negb].
  - assert (Ha : acceptable r req) by (by apply A). clear A. pose proof Ha as (_ & _ & V & _). pose proof (Validate_accepts _ V) as [Hn _ Ho]. pose proof (Validate_limits _ V).
    assert (H3 : 3 * len (rq_Operations req) < 2 ^ 64) by lia.
    pose proof (ctx_Err_ok (hr_ctx r)) as Hc. destruct (ctx_Err (hr_ctx r)) as [c'|e| |] eqn:Ec; try done.
    + destruct Hc as [Hc _]. destruct (BasicRun_ok (Some catalog_Lookup) (hr_ctx r) req Hn (valid_known _ Ho) H3 Hc) as (res & Er & Hr & _).
      rewrite Er. eexists. split; [done|]. apply (answer_result r headers req); [done..|].
      destruct (cutTrace_ok 200 res) as [C1 C2]; [lia|]. destruct (BasicRun_rest _ _ _ _ Er) as (R1 & R2 & R3 & R4).
      destruct (cutTrace_rest 200 res) as (T1 & T2 & T3 & T4).
      split; [congruence|rewrite C2, Hr; apply basic_ref_status|congruence|exact C1|congruence..].
    + destruct Hc as [_ Hc]. unfold BasicRun. rewrite Ec. eexists. split; [done|]. by apply (answer_cancelled r headers req).
  - eexists. split; [done|]. apply answer_invalid; [done|]. intros (req' & Ha). assert (req' = req) as -> by (destruct Ha; congruence). by apply A in Ha.
Qed.

(** C34: the experiment endpoint of the server [main] starts answers every request
    of its path, never by a panic of the runner: a preflight with 204, another
    method than POST with 405; a POST with 200 exactly when the body is one JSON
    value that passes [Validate] and names one of the four structures and the
    context is alive, with 422 when only the context had ended, and with 400
    otherwise. The body of a 200 is what [BasicRunner] gives, which [main] serves:
    it depends neither on the seed nor on the structure and cache asked for and
    has no statuses, although docs/design/sample-data.md promises seeded values
    and a status per operation. *)
Theorem lab_server_answers origin r : exists resp, New_experiments (main_config origin) r = Some resp /\
  endpoint_answer r (announced (cf_AllowedOrigin (main_config origin)) r) resp.
Proof.
  unfold New_experiments. rewrite CORS_announced. set (headers := announced _ r).
  destruct (decide (hr_Method r = str "OPTIONS")) as [Ho|Ho]; [eexists; split; [done|by apply answer_preflight]|].
  unfold route. change (allowedMethods (str "POST")) with [str "POST"]. cbn [existsb]. rewrite orb_false_r.
  destruct (beqb (hr_Method r) (str "POST")) eqn:Em.
  - apply experiments_cases. by apply beqb_eq.
  - eexists. split; [done|]. apply answer_method; [done|]. by apply beqb_neq.
Qed.

(** ** The structures endpoint *)

(** The listing names the four structures, each with the complexity of its four
    operations. *)
Example structures_listed r : hr_Method r = str "GET" -> hr_Origin r = [] -> exists resp items,
  New_structures (main_config []) r = Some resp /\ rs_Status resp = StatusOK /\ rs_Body resp = StructuresBody items /\
  map it_Name items = allStructures /\
  map (fun i => map (fun m => (md_Structure m, md_Operation m)) (it_Complexity i)) items =
    map (fun s => map (pair s) allOperations) allStructures.
Proof. intros E1 E2. unfold New_structures, CORS, route. rewrite E1, E2. do 2 eexists. split; [vm_compute; reflexivity|]. by vm_compute. Qed.

(** ** Findings *)

(** A request for 67 reads of the in-memory B+Tree through a cache, traced. *)
Definition demo_op : Operation := mkOperation Metrics.OpGet (str "key-000000") [] [] [].
Definition demo_request : ExperimentRequest :=
  mkRequest 1 (Some (mkCacheConfig 8 (str "lru"))) Metrics.KindBTreeMemory (replicate 67 demo_op) 1 42 true.
Definition demo_http : HttpRequest := mkHttp (str "POST") [] None (fun _ => Some demo_request) (fun _ => true).

(** What the lab server leaves out of its answer to a valid request for a
    cached, traced run on the in-memory B+Tree, although the same request run by
    [Executor.Run] has it: the echo of the request, the dataset preview, the
    status of the operations and the cache statistics; it reads its own sample
    values, not the seeded ones, and cuts the trace from 201 events to 200 without
    setting [trace_truncated]. *)
Theorem lab_server_answer_incomplete :
  validRequest demo_request 1000 100000 allStructures = true /\
  exists headers res full, New_experiments (main_config []) demo_http = Some (mkResponse headers StatusOK (ResultBody res)) /\
    er_Request res <> demo_request /\ er_Dataset res = [] /\ er_Cache res = None /\
    Forall (fun r => or_Status r = [] /\ or_Value r = str "value-000000") (er_Results res) /\
    len (er_Trace res) = 200 /\ er_TraceTruncated res = false /\
    BasicRun (Some catalog_Lookup) None demo_request = Ok full /\ len (er_Trace full) = 201.
Proof.
  split; [by vm_compute|]. do 3 eexists. split; [vm_compute; reflexivity|]. split; [done|]. do 2 (split; [reflexivity|]).
  split; [repeat constructor|]. do 2 (split; [reflexivity|]). split; [vm_compute; reflexivity|]. reflexivity.
Qed.
