(* ===== verification/LabWitnesses.v ===== *)
(** * Concrete runs of the teaching structures, the page file and the lab *)

From Stdlib Require Import Strings.String.
From S2P Require Import Prelude KvList Errors Page File PageFile Engine Database DatabaseSpec Trace Slices Structures Cache CacheSpec MemTree MemTreeSpec MemInsertSpec MemResults Experiment ExperimentSpec ExperimentResults Server ServerResults.

(** ** The in-memory B+Tree *)

Definition fill_tree (l : list kv) : TM unit := fold_right (fun p m => _ <~ Memory_Set p.1 p.2 ;; m) (ret tt) l.
Lemma fill_rep l : forall T es o b, mem_rep T es ->
  ends (fill_tree l) ((T, o), b) (fun _ st => mem_rep st.1.1 (fold_left (fun es p => kv_set p.1 p.2 es) l es)) no_err.
Proof.
  induction l as [|p l IH]; intros T es o b H; [done|]. cbn [fill_tree fold_right fold_left]. eapply ends_step; [by apply tree_set_ok|].
  intros [] [[T' o'] b'] [H' _]. by apply IH.
Qed.
Definition demo_keys : list kv := map (fun s => (str s, str "v")) ["a"; "c"; "e"; "g"; "b"; "d"; "f"]%string.
Definition idle : Bounded := mkBounded 0 0 [] [] false.
Definition demo_tree : tree := (fill_tree demo_keys (NewMemory, idle)).2.1.1.
Definition demo_sorted_keys : list kv := map (fun s => (str s, str "v")) ["a"; "b"; "c"; "d"; "e"; "f"; "g"]%string.
Lemma ends_state {S E A} (m : stM S E A) s (P : S -> Prop) : ends m s (fun _ s' => P s') no_err -> P (m s).2.
Proof. unfold ends. by destruct (m s) as [[]]. Qed.
Lemma demo_rep : mem_rep demo_tree demo_sorted_keys.
Proof. exact (ends_state _ _ _ (fill_rep demo_keys NewMemory.1 [] NewMemory.2 idle new_rep)). Qed.

(** A tree of seven keys, three levels of nodes. *)
Lemma Memory_refines_witness : mem_rep demo_tree demo_sorted_keys /\
  ends (Memory_Delete (str "c")) ((demo_tree, NewMemory.2), idle)
    (fun d st => d = true /\ mem_rep st.1.1 (kv_del (str "c") demo_sorted_keys) /\ traced idle st.2) no_err.
Proof.
  split; [exact demo_rep|]. exact (proj2 (proj2 (proj2 (Memory_refines demo_tree demo_sorted_keys NewMemory.2 idle (str "c") [] [] [] demo_rep)))).
Defined.
Lemma Memory_height_witness : exists r h, t_root demo_tree = Some r /\ 2 ^ Z.of_nat h <= 7 /\
  forall key o b, ends (getLoop (S h) r key) ((demo_tree, o), b)
    (fun v st => v = kv_get key demo_sorted_keys /\ st.1.1 = demo_tree /\ traced b st.2) no_err.
Proof.
  assert (E : exists r, t_root demo_tree = Some r) by (eexists; vm_compute; reflexivity). destruct E as [r E].
  destruct (Memory_height demo_tree demo_sorted_keys r demo_rep E) as (h & H1 & H2). exists r, h. exact (conj E (conj H1 H2)).
Defined.

(** ** The cache over a map *)

Definition demo_map : Map := mkMap false {[str "k" := str "v"; str "m" := str "w"]}.
Definition map_entries : list kv := [(str "k", str "v"); (str "m", str "w")].
Definition empty_cache : Cache Map := mkCache false demo_map 1 [] ∅ (mkStats 0 0 0 0) 0.
(** The cache after one read: it holds [k] and is full. *)
Definition demo_cache : Cache Map := (Cache_Get MapKV (str "k") (empty_cache, idle)).2.1.
Lemma demo_map_has : has (st := MapKV) demo_map map_entries.
Proof. vm_compute. reflexivity. Qed.
Lemma empty_cached : cached MapKV empty_cache map_entries.
Proof. destruct (NewCache_ok MapKV demo_map 1 map_entries demo_map_has) as (_ & H & _). exact H. Qed.
Lemma demo_cached : cached MapKV demo_cache map_entries.
Proof.
  apply (ends_state (Cache_Get MapKV (str "k")) (empty_cache, idle) (fun cb => cached MapKV cb.1 map_entries)).
  eapply ends_mono; [apply (Cache_Get_ok MapKV (str "k") empty_cache map_entries idle empty_cached I)| |done]. cbn beta. tauto.
Qed.

(** Reading another key of the map evicts the cached one. *)
Lemma Cache_lru_witness : cached MapKV demo_cache map_entries /\
  ends (Cache_Get MapKV (str "m")) (demo_cache, idle) (fun v cb => v = Some (str "w") /\ ckeys cb.1 = [str "m"]) no_err.
Proof.
  split; [exact demo_cached|]. eapply ends_mono; [exact (Cache_lru MapKV (str "m") demo_cache map_entries idle demo_cached I)| |done].
  cbn beta. intros v cb (-> & _ & -> & _). split; vm_compute; reflexivity.
Defined.
Lemma Cache_writes_witness : cached MapKV demo_cache map_entries /\
  ends (Cache_Set MapKV (str "k") (str "x")) (demo_cache, idle)
    (fun _ cb => cached MapKV cb.1 [(str "k", str "x"); (str "m", str "w")] /\ ckeys cb.1 = []) (fun _ _ => False).
Proof.
  split; [exact demo_cached|]. destruct demo_cached as [Hh Hc].
  assert (Ha : able (st := MapKV) (c_backing demo_cache) map_entries) by exact Hh.
  destruct (Cache_writes MapKV (str "k") (str "x") [] [] demo_cache map_entries idle Ha Hc I I) as [W _].
  eapply ends_mono; [exact W| |]; cbn beta; [|tauto]. intros u cb (H & _ & ->). split; [exact H|vm_compute; reflexivity].
Defined.

(** ** The recorder *)

Lemma Bounded_exact_witness : 0 <= 2 < 2 ^ 63 /\
  let e := mkEvent 0 [] [] [] 0 Ev.Lookup [] [] [] 0 0 [] in
  Bounded_Truncated (emits [e; e; e] (mkBounded 2 0 [] [] false)) = true.
Proof.
  assert (H : 0 <= 2 < 2 ^ 63) by lia. split; [exact H|]. intros e.
  destruct (Bounded_exact 2 [e; e; e] H) as (_ & _ & _ & ->). reflexivity.
Defined.

(** ** The page file *)

Definition demo_pages : FilePages disk := mkFilePages (mkDisk (make 128) []) 64 2.
Lemma demo_pages_ok : pages_ok diskOps demo_pages.
Proof. split; vm_compute; discriminate. Qed.
Lemma FilePages_correct_witness : pages_ok diskOps demo_pages /\
  ends (WritePage diskOps 2 (replicate 64 Byte.x41)) demo_pages
    (fun _ p' => ends (ReadPage diskOps 2) p' (fun d _ => d = replicate 64 Byte.x41) (fun _ _ => dk_plan (fp_file p') <> []))
    (fun _ _ => False).
Proof.
  split; [exact demo_pages_ok|].
  destruct (FilePages_correct diskOps demo_pages 2 (replicate 64 Byte.x41) demo_pages_ok ltac:(lia)) as (W & _).
  eapply ends_mono; [exact W| |]; cbn beta; [tauto|]. intros e p'.
  destruct (decide (1 <= 2 <= fp_pages demo_pages)) as [_|N]; [|exfalso; apply N; cbn; lia].
  destruct (decide (len (replicate 64 Byte.x41) = fp_pageSize demo_pages)) as [_|N]; [|exfalso; apply N; reflexivity].
  intros (_ & _ & _ & N). apply N. reflexivity.
Defined.

(** ** Experiments *)

Definition demo_ops : list Operation :=
  [mkOperation Metrics.OpSet (str "alpha") (str "one") [] []; mkOperation Metrics.OpGet (str "alpha") [] [] [];
   mkOperation Metrics.OpDelete (str "key-000001") [] [] []; mkOperation Metrics.OpRange [] [] (str "a") (str "z")].
Definition request_on (kind : bytes) (cache : option CacheConfig) (trace : bool) : ExperimentRequest :=
  mkRequest 1 cache kind demo_ops 3 42 trace.
Definition no_durable : outcome run_error Opened := Err EContext.
Definition demo_hash (b : bytes) : bytes := b.
Definition plain_map : ExperimentRequest := request_on Metrics.KindMap None false.
Definition cached_tree : ExperimentRequest := request_on Metrics.KindBTreeMemory (Some (mkCacheConfig 2 (str "lru"))) true.
Lemma plain_map_kind : in_memory (rq_Structure plain_map).
Proof. left. reflexivity. Qed.
Lemma cached_tree_kind : in_memory (rq_Structure cached_tree).
Proof. right. right. reflexivity. Qed.

Lemma Run_correct_witness : in_memory (rq_Structure cached_tree) /\ Validate cached_tree = Ok tt /\
  match Run demo_hash no_durable true None cached_tree with
  | Ok res => answers demo_hash cached_tree res
  | _ => False
  end.
Proof.
  split; [exact cached_tree_kind|]. assert (V : Validate cached_tree = Ok tt) by (vm_compute; reflexivity). split; [exact V|].
  pose proof (Run_correct demo_hash no_durable true None cached_tree cached_tree_kind) as R.
  destruct (Run demo_hash no_durable true None cached_tree) as [res|e| |]; [tauto| |exact R..].
  destruct R as [R|(_ & _ & [R|R])]; [rewrite V in R; discriminate R|discriminate R|exact (R I)].
Defined.
Lemma Run_structure_independent_witness : exists res1 res2,
  Run demo_hash no_durable true None plain_map = Ok res1 /\ Run demo_hash no_durable true None cached_tree = Ok res2 /\
  er_Results res1 = er_Results res2 /\ er_Dataset res1 = er_Dataset res2.
Proof.
  assert (E1 : exists res, Run demo_hash no_durable true None plain_map = Ok res) by (eexists; vm_compute; reflexivity).
  assert (E2 : exists res, Run demo_hash no_durable true None cached_tree = Ok res) by (eexists; vm_compute; reflexivity).
  destruct E1 as [res1 E1], E2 as [res2 E2]. exists res1, res2. split; [exact E1|]. split; [exact E2|].
  exact (Run_structure_independent demo_hash no_durable no_durable true true None None plain_map cached_tree res1 res2
    plain_map_kind cached_tree_kind eq_refl eq_refl eq_refl E1 E2).
Defined.
Lemma BasicRun_correct_witness : exists res, BasicRun None None cached_tree = Ok res /\
  map or_Count (er_Results res) = [0; 0; 0; 3] /\ length (er_Trace res) = 12%nat.
Proof.
  assert (K : Forall known_op demo_ops) by (repeat constructor; unfold known_op; cbn; tauto).
  destruct (BasicRun_correct None None cached_tree ltac:(cbn; lia) K ltac:(reflexivity)) as [_ B].
  destruct (B I) as (res & E & R & T). exists res. split; [exact E|]. split; [rewrite R; vm_compute; reflexivity|].
  destruct T as [T _]. apply (f_equal length) in T. rewrite length_map in T. rewrite T. reflexivity.
Defined.
